(* ===== verification/_CoqProject ===== *)
-Q . S2P
Prelude.v
Words.v
Options.v
Bytecode.v
Bitmaps.v
Objects.v
Hotness.v
HeapInterface.v
MiscClosures.v
Capability.v
WordCopy.v
Interp.v
InterpPure.v
Apply.v
InterpSteps.v
Eval.v
Examples.v
MemoryManager.v
HeapInv.v
GC.v
GCProofs.v
Sanity.v
HeapExamples.v
IR.v
IRInv.v
Registers.v
X86.v
X86Sem.v
X86Proofs.v
Fold.v
FoldProofs.v
Snapshots.v
CallStack.v
Recorder.v
AsmState.v
AsmInv.v
AsmAlloc.v
AsmSelect.v
AsmSem.v
AsmSim.v
AsmInstr.v
AsmGuard.v
AsmMem.v
AsmDiv.v
AsmStub.v
Assembler.v
AsmMoves.v
AsmSave.v
AsmPatch.v
AsmLoop.v
AsmTrace.v
TraceExit.v
RecorderSim.v
ExitProofs.v
RecorderProofs.v
TraceExamples.v
RecorderExamples.v
AsmExit.v
AsmRoutines.v
AsmEnter.v
AsmOverflow.v
AsmExamples.v
AsmRunExamples.v
Loader.v
Serialise.v
LoaderProofs.v
LinkProofs.v
LoadOrder.v
LoaderExamples.v
