(* ===== verification/Prelude.v ===== *)
(** * Lambdachine: verification of the virtual machine

    Lambdachine is a virtual machine for lazy functional programs: it
    loads bytecode compiled from GHC Core, interprets it, collects
    garbage and compiles hot traces.  This development models its C++
    code, the directory [src/vm], for the 64-bit targets, with
    assertions enabled ([LC_ASSERT]) and all [DEBUG_COMPONENTS] off.

    ** Files and the code they model

    - [Prelude.v] (this file): the [outcome] type of C++ code, its
      notations and the tactic [inv_ok], generic lemmas.
    - [Words.v]: fixed-width integers; [common.hh], [utils.hh] and the
      zig-zag code of [fileutils.hh].
    - [Options.v]: [options.hh], [options.cc], [main.cc] - the options and
      their parser, sizes of memory, the numbers of the statistics.
    - [Bytecode.v], module [BcIns]: [bytecode.hh], [bytecode.cc] -
      opcodes, instruction formats, field accessors, the disassembler's
      walk.
    - [Bitmaps.v]: the chunked liveness masks, their writer
      ([miscclosures.cc]) and their readers ([memorymanager.cc],
      [bytecode.cc]).
    - [Objects.v]: [objects.hh] - the memory, closures, info tables,
      partial applications, the list of large objects.
    - [Hotness.v]: hot counters and PRNG ([jit.hh], [jit.cc]) and the
      machine code area ([machinecode.cc]).
    - [HeapInterface.v]: [thread.hh], [thread.cc], and the class
      [HeapOps]: what the rest of the machine calls in the memory manager.
    - [MiscClosures.v], module [Misc]: [miscclosures.hh],
      [miscclosures.cc] - the closures and code of the run-time system.
    - [Capability.v], [WordCopy.v], [Interp.v]: [capability.hh],
      [capability.cc] - state of the interpreter, its copying loops, one
      definition [op_*] per instruction, generic application, and [step],
      the composition of the three dispatch tables.  The class [JitOps]
      is what the interpreter needs from the trace compiler.
    - [InterpPure.v], [InterpSteps.v], [Apply.v], [Eval.v]: theorems
      about single computations, single instructions, calls with too few
      or too many arguments, and evaluation of thunks.
    - [Examples.v]: concrete machines on which the theorems about the
      interpreter are applied.
    - [MemoryManager.v], [GC.v]: [memorymanager.hh], [memorymanager.cc]
      - regions, blocks, allocation; the copying collector and the heap
      sanity check.  [GC.v] ends with the instance of [HeapOps].
    - [HeapInv.v], [GCProofs.v], [Sanity.v]: the representation invariant
      and the contract of the allocator; what evacuation and scavenging
      do; what a successful sanity check means.
    - [HeapExamples.v]: concrete heaps, and a whole collection.
    - [IR.v], [Fold.v]: [ir.hh], [ir.cc], [ir_fold.cc] - instructions,
      literals, chains, snapshots, the abstract stack and heap of a trace;
      the fold engine, one definition per rule.
    - [IRInv.v], [FoldProofs.v], [Snapshots.v]: the invariant of the
      buffer and the values of its references; soundness of the fold
      rules, of literals and of common subexpressions; snapshots.
    - [CallStack.v]: [ir.hh], [ir.cc] - call stacks and branch targets
      for false loop filtering, with their theorems.
    - [Recorder.v]: [jit.hh], [jit.cc] - the state of the recorder, the
      table of fragments, the beginning of root and side traces, one
      definition [rec_*] per recorded instruction, [recordIns],
      [finishRecording].  The class [AsmOps] is what the recorder needs
      from the assembler.
    - [Registers.v]: [assembler.hh], [assembler.cc], [ir.hh] - registers,
      register sets, costs, spill slots.
    - [X86.v]: the encoder, one definition [emit_*] per function of
      [assembler.cc] and [assembler.hh] that writes an instruction.
    - [X86Sem.v], [X86Proofs.v]: a decoder and the semantics of the
      instructions that are emitted, on registers, memory and flags; what
      the encoder writes decodes to the instruction meant.
    - [AsmState.v], [AsmSelect.v], [Assembler.v]: [assembler.cc] - the
      state of the assembler, its monad, register allocation; the code
      chosen for each instruction of the IR; [assemble], heads and tails
      of traces, parallel moves, patching, exit stubs.
    - [AsmInv.v], [AsmAlloc.v]: the invariant of the register allocator,
      kept by every operation of it.
    - [AsmSem.v], [AsmSim.v]: what a trace means on values, and the
      relation between values and machine states under an allocation.
    - [AsmInstr.v], [AsmGuard.v], [AsmMem.v], [AsmDiv.v], [AsmSave.v]: for
      arithmetic, guards, memory and allocation, division, and the end of
      a trace: the code emitted does what the instruction means.
    - [AsmMoves.v], [AsmPatch.v]: [parallelAssign] writes a parallel
      assignment; [patchGuard] gives a branch a new target.
    - [AsmStub.v]: code written outside of the trace: heap checks out of
      line, and exit stubs.
    - [AsmLoop.v], [AsmTrace.v]: the loop of [assemble] over the
      instructions, backwards; the code of a whole root trace.
    - [TraceExit.v]: [jit.cc], [fragment.cc] - [restoreSnapshot],
      [exitTrace], the quick heap check, and the instance of [JitOps] for
      the interpreter; running machine code is the class [MachineOps].
    - [RecorderSim.v], [RecorderProofs.v], [ExitProofs.v]: recording
      follows execution; the recorder as a state machine; exits.
    - [TraceExamples.v], [RecorderExamples.v]: concrete traces and call
      stacks, and a loop that is recorded, closed and left.
    - [AsmExit.v], [AsmExamples.v]: from the exit of machine code back to
      the interpreter's frame; a recorded loop, assembled and run.
    - [AsmRoutines.v]: [fragment.cc] - the routines in inline assembly,
      [asmEnter], [asmExit], [asmHeapOverflow], [asmTrace],
      [asmStackOverflow], as lists of instructions; [struct _ExitState] in
      memory; from an exit stub to the call of [exitTrace].
    - [AsmEnter.v], [AsmOverflow.v], [AsmRunExamples.v]: in and out of
      machine code; heap checks that fail; concrete runs of both.
    - [Loader.v]: [loader.hh], [loader.cc] - bytecode files, identifiers,
      info tables, code, closures, forward references, modules and base
      paths.
    - [Serialise.v]: [Serialise.hs] and [Utils/IO.hs] of the compiler - the
      format of the files, from the side of the writer.
    - [LoaderProofs.v], [LinkProofs.v], [LoadOrder.v]: round trips between
      the two; forward references; the search for files and the recursion
      over imports.
    - [LoaderExamples.v]: small modules, written and loaded.

    ** Representation

    Integers are [Z]; the functions [u4], [u8], [i4] ... of [Words.v]
    convert where the code converts or wraps around.  Addresses are [Z];
    a [memory] has three maps: the words of stack and heap, the info
    tables and the 32-bit words of bytecode.  Reading a word that was
    never written is the fault [WildAccess], a misaligned access or
    another undefined operation is [UndefinedOp], a failing [LC_ASSERT] is
    [AssertFailed] and [exit(n)] is [Exited n].  A C++ function that
    changes shared state takes the state and returns it; nothing is
    hidden, so aliasing is aliasing of addresses.  The descriptors of
    blocks and regions are records in maps keyed by their addresses.

    A loop whose length depends on data takes fuel and ends in
    [OutOfFuel] when that is used up; theorems say how much is enough:
    17 rounds for the search of CASE_S, 3 chunks for a bitmap of 32 bits,
    2 rounds for an allocation that fits into the smallest block, one
    more than the number of indirections for [evacuate], 10 bytes for a
    number in a file, the size of memory for a list of forward
    references, one more than the number of module files for nested
    imports, one more than the number of fragments for the parents of a
    trace, the number of instructions for the loop of the assembler, one more
    than the number of moves for [moveOne].  For the
    collector as a whole the fuel is a parameter.

    Code outside of the program is a parameter: [mmap] (with the
    documented promise that mappings do not overlap, [mmap_ok]), the file
    system ([stat], [fopen], [realpath]), the addresses that [new]
    returns.  The recorder is proved against the class [AsmOps], of which
    the assembler is the instance that [AsmExamples.v] uses, and the
    return to the interpreter against [MachineOps].  The addresses at which
    the linker puts [asmExit], [asmHeapOverflow], ... are parameters
    ([RuntimeAddrs]); the routines themselves are run in [AsmRoutines.v].

    ** What the theorems show

    The properties carry the numbers C1, C2, ... in their comments.
    - Evaluation and calls ([Eval.v], [Apply.v], [InterpSteps.v]): EVAL
      of a thunk builds the update frame and the thunk's frame; returning
      to an update frame overwrites the thunk with an indirection; a
      partial application is unpacked to the arguments it was built from;
      over-application splits the arguments at the arity; every
      instruction advances by the length the disassembler computes.
    - Single computations ([InterpPure.v], [Bytecode.v], [Bitmaps.v]):
      the search of CASE_S agrees with a linear search, array accesses
      stay inside the array, instruction fields and bitmaps round-trip.
    - Run-time system ([MiscClosures.v], [Hotness.v], [Objects.v]): tables
      are complete after initialisation, generated code and its bitmaps
      have the documented layout, the machine code area keeps stubs and
      code apart, lists of large objects are doubly linked.
    - Memory ([HeapInv.v], [GCProofs.v], [Sanity.v]): the constructor
      establishes and every allocation keeps the block invariant, ranges
      handed out are disjoint (requests are aligned and fit the smallest
      block), evacuation copies objects faithfully and
      once, frames and objects are scavenged exactly where their masks
      say, and a successful sanity check covers everything reachable.
    - Recording ([RecorderSim.v], [RecorderProofs.v], [ExitProofs.v]): from
      [beginRecording] on, a step of the interpreter with recording does
      what it does without, for the instructions on registers, and the
      trace describes the machine: recorded slots hold the values of
      their references and the guards hold.  Every end of a recording
      leaves an idle recorder and a consistent table of fragments; the
      interpreter enters a finished root trace at its start, unless it is a
      return trace; an exit puts
      the values of the trace back on the stack.
    - Traces ([FoldProofs.v], [IRInv.v], [Snapshots.v], [CallStack.v]):
      a 64-bit operation that goes through the fold engine and common
      subexpression elimination keeps its value, whatever rules fire;
      literals read back; loads from new closures are forwarded;
      snapshots hold the written slots, when none is below the base; the tree of call stacks
      implements stacks with an unknown bottom, and loop detection
      compares the right frames.
    - Machine code ([AsmTrace.v], [AsmExit.v]): the code that [assemble]
      writes for a root trace, entered with the values of its literals in
      memory, does what the instructions of the trace mean: it ends where
      the trace continues - behind a link, at the entry of the linked trace
      with that trace's number in the frame - with memory, heap pointer
      and base of the trace; a loop that does not move the base is left by the guard that fails, after any number of
      iterations, with every value of the guard's snapshot where the exit
      looks for it; and the exit writes these values to the frame.  The
      moves at the entry of a side trace ([AsmMoves.v]) happen at once,
      in spite of cycles, and the exit that the side trace replaces leads
      to it ([AsmPatch.v]).
    - Run-time routines ([AsmRoutines.v], [AsmEnter.v],
      [AsmOverflow.v]): an exit stub leads to the call of [exitTrace] with
      its number and all registers and spill slots of the trace;
      [asmEnter] builds the frame at which a trace can be entered, and
      behind [exitTrace] the caller gets its registers back; a heap check
      that fails calls [heapCheckFail], tests the EAX it returns with, and
      goes back to the check with the new heap pointer and otherwise
      unchanged registers, or leaves like an exit stub.  The C functions between the routines appear as hypotheses on the machine
      they return with.
    - Loading ([LoaderProofs.v], [LinkProofs.v], [LoadOrder.v]): what the
      compiler writes - numbers, identifiers, headers, literals,
      constructor info tables, register sets - the loader and the
      collector read back; after a successful check every forward
      reference holds the object it names, as long as no closure is
      referenced while its own header is null; nested imports end.
    - Command line ([Options.v]): what counts as a size of memory and its
      value; when the parser gives up; numbers fit their buffers.
    - Some properties state behaviour that differs from what a comment or
      an assertion intends; they are listed as findings next to the
      development.

    ** What is not modelled

    The whole assembler is modelled; the theorems about whole traces are
    for root traces without parameters from a string (PLOAD) and without
    shifts by a variable amount, compiled with [kOptDebugTrace] off
    ([kOptFastHeapCheckFail] may be on or off), as long as a comparison
    keeps its first operand in its register ([kept] in [AsmLoop.v]); the
    theorem about loops is for those whose last snapshot has relbase 0.
    Merging with a parent trace (except for its parallel moves) and
    [patchFallthrough] are modelled and can be run, but have no
    theorems; neither have [asmTrace] and [asmStackOverflow]. Floating-
    point registers are not saved by the code and have no state here.
    Output for debugging, clocks, the sequence of calls in [main] and
    the destructors that unmap memory are left out, as are the Haskell
    compiler (except for its writer of bytecode files) and the unit
    tests. *)

From Stdlib Require Export ZArith Lia Bool.
From stdpp Require Export base gmap list strings.
From coqutil Require Export Z.bitblast.

#[global] Open Scope Z_scope.

(** ** Outcomes of C++ code

    A C++ function either returns ([Ok]) or leaves normal control flow:
    an [LC_ASSERT] that fails, an access to a word that was never
    written, an operation the C++ standard leaves undefined, a call of
    [exit(n)], or a loop that used up the fuel of the model. *)

Inductive fault :=
| AssertFailed
| WildAccess
| UndefinedOp
| Exited (code : Z)
| OutOfFuel.

Inductive outcome (A : Type) :=
| Ok (a : A)
| Err (e : fault).
Arguments Ok {A} a.
Arguments Err {A} e.

#[export] Instance fault_eq_dec : EqDecision fault.
Proof. solve_decision. Defined.

Definition obind {A B} (m : outcome A) (k : A -> outcome B) : outcome B :=
  match m with
  | Ok a => k a
  | Err e => Err e
  end.

Declare Scope vm_scope.
Delimit Scope vm_scope with vm.

Notation "'let!' x := m 'in' k" := (obind m (fun x => k))
  (at level 10, x binder, m at level 100, k at level 200,
   format "'[v' 'let!'  x  :=  m  'in'  '/' k ']'") : vm_scope.
Notation "'let!' ' p := m 'in' k" := (obind m (fun x => match x with p => k end))
  (at level 10, p pattern, m at level 100, k at level 200) : vm_scope.
Notation "'assert!' b 'in' k" := (if b then k else Err AssertFailed)
  (at level 10, b at level 100, k at level 200) : vm_scope.

#[global] Open Scope vm_scope.

Definition of_option {A} (e : fault) (o : option A) : outcome A :=
  match o with
  | Some a => Ok a
  | None => Err e
  end.

Definition is_ok {A} (m : outcome A) : bool :=
  match m with Ok _ => true | Err _ => false end.

Lemma obind_ok {A B} (m : outcome A) (k : A -> outcome B) b :
  obind m k = Ok b <-> exists a, m = Ok a /\ k a = Ok b.
Proof.
  destruct m; cbn; split; intros H; [by eauto| |done|]; by destruct H as (? & [= ->] & ?).
Qed.

Lemma obind_assoc {A B C} (m : outcome A) (k : A -> outcome B) (h : B -> outcome C) :
  obind (obind m k) h = obind m (fun a => obind (k a) h).
Proof. by destruct m. Qed.

Lemma of_option_ok {A} e (o : option A) a : of_option e o = Ok a <-> o = Some a.
Proof. destruct o; cbn; naive_solver. Qed.

(** [inv_ok] takes apart a hypothesis [m = Ok _] built from binds and
    tests. *)
Ltac inv_ok_step :=
  match goal with
  | H : Ok _ = Ok _ |- _ => injection H as H
  | H : Err _ = Ok _ |- _ => discriminate H
  | H : obind _ _ = Ok _ |- _ =>
      apply obind_ok in H; destruct H as (? & ? & H)
  | H : of_option _ _ = Ok _ |- _ => apply of_option_ok in H
  | H : (if ?b then _ else Err _) = Ok _ |- _ =>
      let E := fresh "E" in destruct b eqn:E; [|discriminate H]
  | p : (_ * _)%type |- _ => destruct p
  end.
Ltac inv_ok := repeat (inv_ok_step; cbn beta iota in *); simplify_eq.

(** ** Generic list lemmas *)

Lemma lookup_seq_lt (j n i : nat) : (i < n)%nat -> seq j n !! i = Some (j + i)%nat.
Proof. intros. apply lookup_seq. lia. Qed.

Lemma fold_left_ext {A B} (f g : A -> B -> A) (l : list B) a :
  (forall a b, f a b = g a b) -> fold_left f l a = fold_left g l a.
Proof. intros E. revert a. induction l; cbn; intros; [done|]. by rewrite E. Qed.

Lemma Forall2_Forall_impl {A B} (P Q : A -> B -> Prop) (R : A -> Prop) l k :
  Forall2 P l k -> Forall R l -> (forall x y, R x -> P x y -> Q x y) -> Forall2 Q l k.
Proof.
  intros H HR Himp. induction H; [done|]. apply Forall_cons in HR as [? ?]. auto.
Qed.

(** ** Generic integer lemmas *)

Lemma pow2_pos n : 0 <= n -> 0 < 2 ^ n.
Proof. intros. apply Z.pow_pos_nonneg; lia. Qed.

Lemma testbit_high a w i : 0 <= a < 2 ^ w -> w <= i -> Z.testbit a i = false.
Proof.
  intros [Ha Hb] Hi.
  destruct (Z.eq_dec a 0) as [->|]; [apply Z.testbit_0_l|].
  apply Z.bits_above_log2; [lia|].
  apply Z.log2_lt_pow2 in Hb; lia.
Qed.

Lemma land_ones_id a w : 0 <= w -> 0 <= a < 2 ^ w -> Z.land a (Z.ones w) = a.
Proof. intros. rewrite Z.land_ones by lia. apply Z.mod_small. lia. Qed.

Lemma lor_bound a b w :
  0 <= w -> 0 <= a < 2 ^ w -> 0 <= b < 2 ^ w -> 0 <= Z.lor a b < 2 ^ w.
Proof.
  intros Hw Ha Hb.
  rewrite <- (land_ones_id a w), <- (land_ones_id b w) by lia.
  rewrite <- Z.land_lor_distr_l, Z.land_ones by lia.
  apply Z.mod_pos_bound, pow2_pos. lia.
Qed.

Lemma land_bound a b w : 0 <= w -> 0 <= b < 2 ^ w -> 0 <= Z.land a b < 2 ^ w.
Proof.
  intros Hw Hb. rewrite <- (land_ones_id b w) by lia.
  rewrite Z.land_assoc, Z.land_ones by lia.
  apply Z.mod_pos_bound, pow2_pos. lia.
Qed.

Lemma lxor_bound a b w :
  0 <= w -> 0 <= a < 2 ^ w -> 0 <= b < 2 ^ w -> 0 <= Z.lxor a b < 2 ^ w.
Proof.
  intros Hw Ha Hb. split; [apply Z.lxor_nonneg; lia|].
  destruct (Z.eq_dec (Z.lxor a b) 0) as [->|Hne]; [apply pow2_pos; lia|].
  assert (0 <= Z.lxor a b) by (apply Z.lxor_nonneg; lia).
  apply Z.log2_lt_pow2; [lia|].
  destruct (Z_lt_le_dec (Z.log2 (Z.lxor a b)) w) as [|Hge]; [done|exfalso].
  pose proof (Z.bit_log2 (Z.lxor a b) ltac:(lia)) as Hbit.
  rewrite Z.lxor_spec, !(testbit_high _ w) in Hbit by lia. done.
Qed.

(** A sum of disjoint bit fields is their [lor]. *)
Lemma shiftl_lor_add a b w :
  0 <= w -> 0 <= a < 2 ^ w -> Z.lor a (Z.shiftl b w) = a + b * 2 ^ w.
Proof.
  intros Hw Ha. rewrite Z.or_to_plus; [by rewrite Z.shiftl_mul_pow2 by lia|].
  apply Z.bits_inj'. intros i Hi. rewrite Z.land_spec, Z.bits_0, Z.shiftl_spec by lia.
  destruct (Z_lt_le_dec i w).
  - by rewrite (Z.testbit_neg_r b) by lia; rewrite andb_false_r.
  - by rewrite (testbit_high a w) by lia.
Qed.
