(* ===== verification/Words.v ===== *)
(** * Machine-width integers and the bit macros of [common.hh]

    A [w]-bit C++ integer is a [Z]; [to_u w] is conversion to the
    unsigned type of that width and [to_s w] conversion to the signed
    one (two's complement).  The file models the flag word [Flags32],
    the alignment helpers of [utils.hh] and the zig-zag code of
    [fileutils.hh]. *)

From S2P Require Import Prelude.

Definition to_u (w z : Z) : Z := z mod 2 ^ w.
Definition to_s (w z : Z) : Z :=
  let u := to_u w z in if u <? 2 ^ (w - 1) then u else u - 2 ^ w.

Definition u1 := to_u 8.
Definition u2 := to_u 16.
Definition u4 := to_u 32.
Definition u8 := to_u 64.
Definition i2 := to_s 16.
Definition i4 := to_s 32.
Definition i8 := to_s 64.

(** Value ranges of the unsigned types. *)
Definition is_u (w z : Z) : bool := (0 <=? z) && (z <? 2 ^ w).
Definition is_s (w z : Z) : bool := (- 2 ^ (w - 1) <=? z) && (z <? 2 ^ (w - 1)).

(** [sizeof(Word)] on the 64-bit targets, and [LC_ARCH_BYTES_LOG2]. *)
Definition word_bytes : Z := 8.
Definition LC_ARCH_BYTES_LOG2 : Z := 3.
Definition LC_ARCH_BITS : Z := 64.

(** [in_range_i4] *)
Definition in_range_i4 (w : Z) : bool := i8 (i4 w) =? i8 w.
(** [checki32] on a 64-bit unsigned word. *)
Definition checki32 (x : Z) : bool := x =? u8 (i4 x).

Definition MSB_u4 (hh hl lh ll : Z) : Z :=
  u4 (Z.lor (Z.lor (Z.lor (Z.shiftl hh 24) (Z.shiftl hl 16)) (Z.shiftl lh 8)) ll).

(** [idivCeil] at type [size_t]. *)
Definition idivCeil (x y : Z) : Z := u8 (x + (y - 1)) / y.

Definition roundUpBytesToWords (bytes : Z) : Z :=
  Z.shiftr (u8 (bytes + (word_bytes - 1))) LC_ARCH_BYTES_LOG2.

Definition clearLowBits (num_bits value : Z) : Z :=
  if LC_ARCH_BITS <=? num_bits then 0
  else Z.land value (u8 (Z.lnot (Z.shiftl 1 num_bits - 1))).

Definition isAlignedAtPowerOf2 (power value : Z) : bool :=
  Z.land value (Z.shiftl 1 power - 1) =? 0.

Definition roundUpToPowerOf2 (power value : Z) : Z :=
  Z.land (u8 (value + Z.shiftl 1 power - 1)) (u8 (Z.lnot (Z.shiftl 1 power - 1))).

Definition isWordAligned (ptr : Z) : bool := isAlignedAtPowerOf2 LC_ARCH_BYTES_LOG2 ptr.

Definition within (low high value : Z) : bool := (low <=? value) && (value <=? high).

(** [TEST_FLAG], [SET_FLAG] and [CLEAR_FLAG] *)
Definition TEST_FLAG (dst f : Z) : bool := Z.land dst f =? f.
Definition SET_FLAG (dst f : Z) : Z := Z.lor dst f.
Definition CLEAR_FLAG (dst f : Z) : Z := Z.land dst (u4 (Z.lnot f)).

(** ** The class [Flags32] *)
Module Flags32.
Definition mask (n : Z) : Z := u4 (Z.shiftl 1 n).
Definition get (flags n : Z) : bool := negb (Z.land flags (mask n) =? 0).
Definition set (flags n : Z) : Z := Z.lor flags (mask n).
(** the branchless [set(int, bool)] *)
Definition set_to (flags n : Z) (value : bool) : Z :=
  Z.lxor flags (Z.land (Z.lxor (u4 (- Z.b2z value)) flags) (mask n)).
Definition clear (flags n : Z) : Z := Z.land flags (u4 (Z.lnot (mask n))).
Definition toggle (flags n : Z) : Z := Z.lxor flags (mask n).
End Flags32.

(** ** The Bloom filter macros *)
Definition BLOOM_MASK : Z := 63.
Definition bloombit (x : Z) : Z := u8 (Z.shiftl 1 (Z.land x BLOOM_MASK)).
Definition bloomset (b x : Z) : Z := Z.lor b (bloombit x).
Definition bloomtest (b x : Z) : bool := negb (Z.land b (bloombit x) =? 0).

(** ** [zigZagEncode] and [zigZagDecode] *)
Definition zigZagEncode (v : Z) : Z :=
  if negb (Z.land v (Z.shiftl 1 63) =? 0)
  then u8 (u8 (Z.shiftl (u8 (Z.lnot v)) 1) + 1)
  else u8 (Z.shiftl v 1).
Definition zigZagDecode (v : Z) : Z :=
  if negb (Z.land v 1 =? 0)
  then i8 (u8 (Z.lnot (Z.shiftr v 1)))
  else i8 (Z.shiftr v 1).

(** ** Laws of the conversions *)

Section conversions.
Context (w : Z) (Hw : 0 < w).

Lemma to_u_bound z : 0 <= to_u w z < 2 ^ w.
Proof using Hw. apply Z.mod_pos_bound, pow2_pos. lia. Qed.

Lemma to_u_id z : 0 <= z < 2 ^ w -> to_u w z = z.
Proof using Type. apply Z.mod_small. Qed.

Lemma pow2_half : 2 ^ w = 2 * 2 ^ (w - 1).
Proof using Hw. rewrite <- Z.pow_succ_r by lia. f_equal. lia. Qed.

Lemma to_s_bound z : - 2 ^ (w - 1) <= to_s w z < 2 ^ (w - 1).
Proof using Hw.
  unfold to_s. pose proof (to_u_bound z). pose proof pow2_half.
  destruct (Z.ltb_spec (to_u w z) (2 ^ (w - 1))); lia.
Qed.

Lemma to_s_congr z : to_u w (to_s w z) = to_u w z.
Proof using Hw.
  unfold to_s. pose proof (to_u_bound z) as Hb.
  case_match; [by rewrite to_u_id|].
  unfold to_u in *. pose proof (pow2_pos w ltac:(lia)).
  rewrite <- (Z.mod_add _ 1), Z.mul_1_l by lia.
  rewrite Z.sub_add. by rewrite Z.mod_mod by lia.
Qed.

Lemma to_s_id z : - 2 ^ (w - 1) <= z < 2 ^ (w - 1) -> to_s w z = z.
Proof using Hw.
  intros Hz. pose proof pow2_half. unfold to_s.
  destruct (Z_lt_le_dec z 0).
  - assert (to_u w z = z + 2 ^ w) as ->.
    { unfold to_u. rewrite <- (Z.mod_add _ 1), Z.mul_1_l by lia. apply Z.mod_small. lia. }
    destruct (Z.ltb_spec (z + 2 ^ w) (2 ^ (w - 1))); lia.
  - rewrite to_u_id by lia. destruct (Z.ltb_spec z (2 ^ (w - 1))); lia.
Qed.

Lemma to_s_eq x y : to_u w x = to_u w y -> to_s w x = to_s w y.
Proof using Type. unfold to_s. by intros ->. Qed.

Lemma to_u_idemp z : to_u w (to_u w z) = to_u w z.
Proof using Hw. apply to_u_id, to_u_bound. Qed.

Lemma to_s_to_u z : to_s w (to_u w z) = to_s w z.
Proof using Hw. apply to_s_eq, to_u_idemp. Qed.

Lemma to_u_add x y : to_u w (to_u w x + y) = to_u w (x + y).
Proof using Hw. unfold to_u. apply Zplus_mod_idemp_l. Qed.
Lemma to_u_add_r x y : to_u w (x + to_u w y) = to_u w (x + y).
Proof using Hw. unfold to_u. apply Zplus_mod_idemp_r. Qed.
Lemma to_u_sub x y : to_u w (to_u w x - y) = to_u w (x - y).
Proof using Hw. unfold to_u. apply Zminus_mod_idemp_l. Qed.
Lemma to_u_sub_r x y : to_u w (x - to_u w y) = to_u w (x - y).
Proof using Hw. unfold to_u. apply Zminus_mod_idemp_r. Qed.
Lemma to_u_mul x y : to_u w (to_u w x * y) = to_u w (x * y).
Proof using Hw. unfold to_u. apply Zmult_mod_idemp_l. Qed.
Lemma to_u_mul_r x y : to_u w (x * to_u w y) = to_u w (x * y).
Proof using Hw. unfold to_u. apply Zmult_mod_idemp_r. Qed.
Lemma to_u_opp x : to_u w (- to_u w x) = to_u w (- x).
Proof using Hw. rewrite <- (Z.sub_0_l (to_u w x)), to_u_sub_r. done. Qed.

Lemma testbit_to_u z i : Z.testbit (to_u w z) i = (i <? w) && Z.testbit z i.
Proof using Hw. unfold to_u. apply Z.testbit_mod_pow2. lia. Qed.
End conversions.

(** Truncating twice is truncating to the narrower width. *)
Lemma to_u_narrow w v x : 0 <= w <= v -> to_u w (to_u v x) = to_u w x.
Proof.
  intros. unfold to_u. apply Z.mod_mod_divide. exists (2 ^ (v - w)).
  rewrite <- Z.pow_add_r by lia. f_equal. lia.
Qed.

Create HintDb words discriminated.
Create Rewrite HintDb words.
#[export] Hint Resolve to_u_bound to_s_bound : words.
#[export] Hint Rewrite to_u_idemp to_u_add to_u_add_r to_u_sub to_u_sub_r
  to_u_mul to_u_mul_r to_u_opp to_s_congr using lia : words.

Ltac unfold_words := unfold u1, u2, u4, u8, i2, i4, i8 in *.

(** ** Alignment *)

Lemma isAlignedAtPowerOf2_spec p v :
  0 <= p -> isAlignedAtPowerOf2 p v = (v mod 2 ^ p =? 0).
Proof.
  intros. unfold isAlignedAtPowerOf2.
  rewrite Z.shiftl_1_l, <- Z.land_ones, Z.ones_equiv by lia. done.
Qed.

Lemma land_lnot_mask p v :
  0 <= p <= 64 -> 0 <= v < 2 ^ 64 ->
  Z.land v (u8 (Z.lnot (Z.shiftl 1 p - 1))) = v - v mod 2 ^ p.
Proof.
  intros Hp Hv. rewrite Z.shiftl_1_l.
  pose proof (pow2_pos p ltac:(lia)).
  replace (v - v mod 2 ^ p) with (Z.shiftl (Z.shiftr v p) p).
  2: { rewrite Z.shiftl_mul_pow2, Z.shiftr_div_pow2 by lia.
       pose proof (Z.div_mod v (2 ^ p)). lia. }
  replace (2 ^ p - 1) with (Z.ones p) by (rewrite Z.ones_equiv; lia).
  apply Z.bits_inj'. intros i Hi.
  rewrite Z.land_spec, Z.shiftl_spec by lia. unfold u8.
  rewrite testbit_to_u, Z.lnot_spec by lia.
  destruct (Z_lt_le_dec i p).
  - rewrite Z.ones_spec_low by lia. rewrite (Z.testbit_neg_r _ (i - p)) by lia.
    cbn. by rewrite !andb_false_r.
  - rewrite Z.ones_spec_high, Z.shiftr_spec by lia. rewrite Z.sub_add, andb_true_r.
    destruct (Z.ltb_spec i 64); [by rewrite andb_true_r|].
    by rewrite (testbit_high v 64) by lia.
Qed.

(** Rounding up gives the least multiple that is not below the argument. *)
Lemma roundUpToPowerOf2_spec p v :
  0 <= p <= 63 -> 0 <= v -> v + 2 ^ p - 1 < 2 ^ 64 ->
  roundUpToPowerOf2 p v = 2 ^ p * ((v + 2 ^ p - 1) / 2 ^ p).
Proof.
  intros Hp Hv Hlt. unfold roundUpToPowerOf2, u8.
  pose proof (pow2_pos p ltac:(lia)).
  rewrite Z.shiftl_1_l, to_u_id by lia.
  pose proof (land_lnot_mask p (v + 2 ^ p - 1)) as Hm.
  unfold u8 in Hm. rewrite Z.shiftl_1_l in Hm. rewrite Hm by lia.
  rewrite Z.mod_eq by lia. lia.
Qed.

Lemma roundUpToPowerOf2_least p v :
  0 <= p <= 63 -> 0 <= v -> v + 2 ^ p - 1 < 2 ^ 64 ->
  let r := roundUpToPowerOf2 p v in
  v <= r < v + 2 ^ p /\ isAlignedAtPowerOf2 p r = true
  /\ forall m, v <= m -> isAlignedAtPowerOf2 p m = true -> r <= m.
Proof.
  intros Hp Hv Hlt r. subst r. rewrite roundUpToPowerOf2_spec by done.
  pose proof (pow2_pos p ltac:(lia)) as Hpos.
  pose proof (Z.div_mod (v + 2 ^ p - 1) (2 ^ p) ltac:(lia)).
  pose proof (Z.mod_pos_bound (v + 2 ^ p - 1) (2 ^ p) Hpos).
  set (q := (v + 2 ^ p - 1) / 2 ^ p) in *.
  rewrite isAlignedAtPowerOf2_spec by lia. split_and!; [nia|nia| |].
  - apply Z.eqb_eq. rewrite Z.mul_comm. apply Z.mod_mul. lia.
  - intros m Hm Ha. rewrite isAlignedAtPowerOf2_spec in Ha by lia.
    apply Z.eqb_eq, Z.mod_divide in Ha as [k ->]; [|lia].
    assert (q < k + 1) by (apply (Z.mul_lt_mono_pos_l (2 ^ p)); lia).
    rewrite (Z.mul_comm k). apply Z.mul_le_mono_nonneg_l; lia.
Qed.

Lemma roundUpBytesToWords_spec b :
  0 <= b -> b + 7 < 2 ^ 64 ->
  b <= 8 * roundUpBytesToWords b < b + 8.
Proof.
  intros. unfold roundUpBytesToWords, u8, word_bytes, LC_ARCH_BYTES_LOG2.
  rewrite to_u_id by lia. rewrite Z.shiftr_div_pow2 by lia. change (2 ^ 3) with 8.
  pose proof (Z.div_mod (b + (8 - 1)) 8). pose proof (Z.mod_pos_bound (b + (8 - 1)) 8). lia.
Qed.

Lemma checki32_spec x :
  0 <= x < 2 ^ 64 -> checki32 x = true <-> exists k, - 2 ^ 31 <= k < 2 ^ 31 /\ x = u8 k.
Proof.
  intros Hx. unfold checki32. rewrite Z.eqb_eq. split.
  - intros Heq. exists (i4 x). split; [apply (to_s_bound 32); lia|done].
  - intros (k & Hk & ->). f_equal. unfold i4. rewrite <- (to_s_id 32 ltac:(lia) k) at 1 by lia.
    apply to_s_eq. unfold u8. by rewrite to_u_narrow by lia.
Qed.

(** ** Flags *)

Lemma testbit_flag_mask n i : 0 <= n < 32 -> Z.testbit (Flags32.mask n) i = (i =? n).
Proof.
  intros Hn. unfold Flags32.mask, u4. rewrite testbit_to_u, Z.shiftl_1_l by lia.
  rewrite Z.pow2_bits_eqb by lia.
  destruct (Z.eqb_spec n i), (Z.eqb_spec i n), (Z.ltb_spec i 32); done || lia.
Qed.

Lemma Flags32_get_testbit f n : 0 <= n < 32 -> Flags32.get f n = Z.testbit f n.
Proof.
  intros Hn. unfold Flags32.get.
  destruct (Z.testbit f n) eqn:E.
  - apply negb_true_iff, Z.eqb_neq. intros H.
    apply (f_equal (fun z => Z.testbit z n)) in H.
    by rewrite Z.land_spec, testbit_flag_mask, E, Z.eqb_refl, Z.testbit_0_l in H by done.
  - apply negb_false_iff, Z.eqb_eq. apply Z.bits_inj'. intros i Hi.
    rewrite Z.land_spec, testbit_flag_mask, Z.testbit_0_l by done.
    destruct (Z.eqb_spec i n) as [->|]; [by rewrite E|by rewrite andb_false_r].
Qed.

(** The branchless assignment sets exactly one flag. *)
Lemma Flags32_get_set_to f n m b :
  0 <= f < 2 ^ 32 -> 0 <= n < 32 -> 0 <= m < 32 ->
  Flags32.get (Flags32.set_to f n b) m = if m =? n then b else Flags32.get f m.
Proof.
  intros Hf Hn Hm. rewrite !Flags32_get_testbit by done. unfold Flags32.set_to, u4.
  rewrite Z.lxor_spec, Z.land_spec, Z.lxor_spec, testbit_flag_mask by done.
  destruct (Z.eqb_spec m n) as [->|]; [|by rewrite andb_false_r, xorb_false_r].
  rewrite testbit_to_u by lia. destruct (Z.ltb_spec n 32); [|lia].
  rewrite andb_true_r. cbn [andb].
  destruct b; cbn [Z.b2z]; change (- (1)) with (-1); change (- (0)) with 0;
    rewrite ?Z.bits_m1, ?Z.testbit_0_l by lia; destruct (Z.testbit f n); done.
Qed.

(** ** Zig-zag *)

Lemma land_1_odd v : Z.land v 1 = v mod 2.
Proof. change 1 with (Z.ones 1). by rewrite Z.land_ones by lia. Qed.

Lemma zigZag_sign v :
  0 <= v < 2 ^ 64 -> negb (Z.land v (Z.shiftl 1 63) =? 0) = (2 ^ 63 <=? v).
Proof.
  intros Hv. rewrite Z.shiftl_1_l.
  assert (Hb : Z.testbit v 63 = (2 ^ 63 <=? v)).
  { rewrite Z.testbit_eqb by lia.
    pose proof (Z.div_mod v (2 ^ 63)). pose proof (Z.mod_pos_bound v (2 ^ 63)).
    destruct (Z.leb_spec (2 ^ 63) v).
    - assert (v / 2 ^ 63 = 1) as -> by nia. done.
    - rewrite Z.div_small by lia. done. }
  rewrite <- Hb. destruct (Z.testbit v 63) eqn:E.
  - apply negb_true_iff, Z.eqb_neq. intros H.
    apply (f_equal (fun z => Z.testbit z 63)) in H.
    by rewrite Z.land_spec, E in H.
  - apply negb_false_iff, Z.eqb_eq. apply Z.bits_inj'. intros i Hi.
    rewrite Z.land_spec, Z.pow2_bits_eqb, Z.testbit_0_l by lia.
    destruct (Z.eqb_spec 63 i) as [<-|]; [by rewrite E|by rewrite andb_false_r].
Qed.

Lemma zigZagEncode_bound v : 0 <= zigZagEncode v < 2 ^ 64.
Proof. unfold zigZagEncode, u8. case_match; apply to_u_bound; lia. Qed.

(** Decoding undoes encoding, at the signed reading of the word. *)
Lemma zigZag_roundtrip v : 0 <= v < 2 ^ 64 -> zigZagDecode (zigZagEncode v) = i8 v.
Proof.
  intros Hv. unfold zigZagEncode. rewrite zigZag_sign by done.
  unfold zigZagDecode, i8, u8. rewrite !land_1_odd, !Z.shiftr_div_pow2, !Z.shiftl_mul_pow2 by lia.
  change (2 ^ 1) with 2.
  destruct (Z.leb_spec (2 ^ 63) v).
  - assert (to_u 64 (Z.lnot v) = 2 ^ 64 - 1 - v) as ->.
    { unfold to_u, Z.lnot. rewrite <- (Z.mod_add _ 1) by lia. rewrite Z.mod_small; lia. }
    rewrite (to_u_id 64 ((2 ^ 64 - 1 - v) * 2)) by lia.
    rewrite (to_u_id 64 ((2 ^ 64 - 1 - v) * 2 + 1)) by lia.
    replace ((2 ^ 64 - 1 - v) * 2 + 1) with (1 + (2 ^ 64 - 1 - v) * 2) by lia.
    rewrite Z.mod_add, Z.div_add by lia. cbn [Z.modulo Z.div Z.div_eucl].
    change (1 mod 2 =? 0) with false. change (1 / 2) with 0. cbn [negb].
    rewrite Z.add_0_l. apply to_s_eq. rewrite to_u_idemp by lia.
    unfold to_u, Z.lnot. rewrite (Z.mod_small v) by lia.
    rewrite <- (Z.mod_add _ 1) by lia. rewrite Z.mod_small; lia.
  - rewrite (to_u_id 64 (v * 2)) by lia. rewrite Z.mod_mul, Z.div_mul by lia. done.
Qed.
