(* ===== verification/Options.v ===== *)
(** * Command line ([options.hh], [options.cc], [main.cc])

    The options and their parser, the sizes of memory it reads, and the
    decimal numbers of the statistics.  [getopt_long] is library code: what
    it reports, option by option, is an argument. *)

From Stdlib Require Import Ascii.
From S2P Require Import Prelude Words.
From stdpp Require Import strings.
Local Open Scope string_scope.
Local Open Scope Z_scope.

(** ** Sizes ([parseMemorySize]) *)

Definition LONG_MAX : Z := 2 ^ 63 - 1.
Definition char (c : Ascii.ascii) : Z := Z.of_N (Ascii.N_of_ascii c).
Definition isdigit (c : Ascii.ascii) : bool := (48 <=? char c) && (char c <=? 57).
(** The C library's [strtol] in base 10, for text that begins with a
    digit: the number, at most [LONG_MAX], and the rest of the text. *)
Fixpoint strtol_digits (acc : Z) (s : string) : Z * string :=
  match s with
  | String c s' => if isdigit c then strtol_digits (acc * 10 + (char c - 48)) s' else (acc, s)
  | EmptyString => (acc, s)
  end.
Definition strtol (s : string) : Z * string :=
  let '(n, end_) := strtol_digits 0 s in (Z.min n LONG_MAX, end_).
Definition unit_shift (c : Ascii.ascii) : option Z :=
  match c with
  | "b" | "B" => Some 0
  | "k" | "K" => Some 10
  | "m" | "M" => Some 20
  | "g" | "G" => Some 30
  | _ => None
  end%char.
Definition parseMemorySize (str : string) : Z :=
  match str with
  | EmptyString => -1
  | String c _ =>
      if negb (isdigit c) then -1
      else
        let '(ans, end_) := strtol str in
        match end_ with
        | EmptyString => -1
        | String u rest =>
            match unit_shift u with
            | None => -1
            | Some shift =>
                if negb (String.eqb rest "") then -1
                else if ans <=? Z.shiftr LONG_MAX shift then Z.shiftl ans shift else LONG_MAX
            end
        end
  end.

(** ** [class Options] and [class OptionParser] *)

Definition MIN_STACK_SIZE : Z := 1024 * 8.
Record Options := mkOptions {
  inputs_ : list string;
  entry_ : string;
  basePath_ : string;
  printLoaderState_ : bool;
  traceInterpreter_ : bool;
  printStats_ : bool;
  printLoaderStateFile_ : string;
  enableAsm_ : Z;
  stackSize_ : Z
}.
Definition Options_init : Options := mkOptions [] "test" "" false false false "" 1 MIN_STACK_SIZE.
Definition set_inputs (l : list string) (o : Options) : Options :=
  mkOptions l (entry_ o) (basePath_ o) (printLoaderState_ o) (traceInterpreter_ o) (printStats_ o) (printLoaderStateFile_ o) (enableAsm_ o) (stackSize_ o).
Definition set_entry (s : string) (o : Options) : Options :=
  mkOptions (inputs_ o) s (basePath_ o) (printLoaderState_ o) (traceInterpreter_ o) (printStats_ o) (printLoaderStateFile_ o) (enableAsm_ o) (stackSize_ o).
Definition set_basePath (s : string) (o : Options) : Options :=
  mkOptions (inputs_ o) (entry_ o) s (printLoaderState_ o) (traceInterpreter_ o) (printStats_ o) (printLoaderStateFile_ o) (enableAsm_ o) (stackSize_ o).
Definition set_printLoaderState (file : option string) (o : Options) : Options :=
  mkOptions (inputs_ o) (entry_ o) (basePath_ o) true (traceInterpreter_ o) (printStats_ o)
    (default (printLoaderStateFile_ o) file) (enableAsm_ o) (stackSize_ o).
Definition set_traceInterpreter (o : Options) : Options :=
  mkOptions (inputs_ o) (entry_ o) (basePath_ o) (printLoaderState_ o) true (printStats_ o) (printLoaderStateFile_ o) (enableAsm_ o) (stackSize_ o).
Definition set_printStats (o : Options) : Options :=
  mkOptions (inputs_ o) (entry_ o) (basePath_ o) (printLoaderState_ o) (traceInterpreter_ o) true (printLoaderStateFile_ o) (enableAsm_ o) (stackSize_ o).
Definition set_enableAsm (n : Z) (o : Options) : Options :=
  mkOptions (inputs_ o) (entry_ o) (basePath_ o) (printLoaderState_ o) (traceInterpreter_ o) (printStats_ o) (printLoaderStateFile_ o) n (stackSize_ o).
Definition set_stackSize (n : Z) (o : Options) : Options :=
  mkOptions (inputs_ o) (entry_ o) (basePath_ o) (printLoaderState_ o) (traceInterpreter_ o) (printStats_ o) (printLoaderStateFile_ o) (enableAsm_ o) n.

(** What [getopt_long] reports for the table of long options and the
    string ["he:B:O:"]: a flag that it has set itself ([--asm]), or a code
    with its argument. *)
Inductive opt :=
| OPT_FLAG_ASM
| OPT_PRINT_LOADER_STATE (file : option string)
| OPT_TRACE_INTERPRETER
| OPT_PRINT_STATS
| OPT_entry (arg : string)
| OPT_base (arg : string)
| OPT_stack (arg : string)
| OPT_no_run
| OPT_O (arg : string)
| OPT_help
| OPT_step (arg : string)
| OPT_unknown.

(** One round of the loop; [None]: the parser gives up. *)
Definition parse_option (o : Options) (c : opt) : option Options :=
  match c with
  | OPT_FLAG_ASM => Some (set_enableAsm 1 o)
  | OPT_PRINT_LOADER_STATE file => Some (set_printLoaderState file o)
  | OPT_PRINT_STATS => Some (set_printStats o)
  | OPT_TRACE_INTERPRETER => Some (set_traceInterpreter o)
  | OPT_entry arg => Some (set_entry arg o)
  | OPT_base arg => Some (set_basePath arg o)
  | OPT_stack arg =>
      let size := parseMemorySize arg in
      Some (set_stackSize (if size <? 0 then MIN_STACK_SIZE else size) o)
  | OPT_no_run => Some (set_entry "" o)
  | OPT_O _ => Some o
  | OPT_help => None
  | OPT_step _ | OPT_unknown => None
  end.
Fixpoint parse_options (o : Options) (l : list opt) : option Options :=
  match l with
  | [] => Some o
  | c :: l' => o ← parse_option o c; parse_options o l'
  end.
(** [parse], for the options that were set before it, with the arguments
    that are not options. *)
Definition parse (opts_ : option Options) (l : list opt) (args : list string) : option Options :=
  o ← parse_options (default Options_init opts_) l;
  let o := set_inputs (inputs_ o ++ args)%list o in
  if (length (inputs_ o) <? 1)%nat then None else Some o.
(** The defaults of [main], and the words of the stack it creates. *)
Definition main_options (l : list opt) (args : list string) : option Options :=
  parse (Some (set_basePath "libraries:tests" (set_entry "test" Options_init))) l args.
Definition stack_words (o : Options) : Z := u8 (stackSize_ o) / 8.
(** The closure that is evaluated. *)
Definition entry_closure (o : Options) : option string :=
  m ← head (inputs_ o); Some (m +:+ "." +:+ entry_ o +:+ "`closure").

(** ** Numbers in the statistics ([formatWithThousands]) *)

(** The groups of three digits, the last one first, in an array of seven;
    more would be written behind it. *)
Fixpoint thousands (room : nat) (n : Z) : outcome (list Z) :=
  match room with
  | O => Err WildAccess
  | S room' =>
      let q := n / 1000 in
      if 0 <? q then let! ns := thousands room' q in Ok (n mod 1000 :: ns)
      else Ok [n mod 1000]
  end.
Definition digit (n : Z) : string := String (Ascii.ascii_of_N (Z.to_N (48 + n))) "".
(** [sprintf] with ["%3d"] and with ["%03d"], of a number below 1000. *)
Definition space_padded (n : Z) : string :=
  if n <? 10 then "  " +:+ digit n
  else if n <? 100 then " " +:+ digit (n / 10) +:+ digit (n mod 10)
  else digit (n / 100) +:+ digit (n / 10 mod 10) +:+ digit (n mod 10).
Definition zero_padded (n : Z) : string := digit (n / 100) +:+ digit (n / 10 mod 10) +:+ digit (n mod 10).
(** The groups behind the first one, which come first in [ns]. *)
Fixpoint more_groups (ns : list Z) : string :=
  match ns with
  | [] => ""
  | n :: ns' => more_groups ns' +:+ "," +:+ zero_padded n
  end.
Definition formatWithThousands (n : Z) : outcome string :=
  let! ns := thousands 7 n in
  match reverse ns with
  | [] => Err WildAccess
  | n :: rest => Ok (space_padded n +:+ more_groups (reverse rest))
  end.

(** ** Sizes *)

(** The value of digits. *)
Definition number (acc : Z) (ds : list Ascii.ascii) : Z := fold_left (fun a c => a * 10 + (char c - 48)) ds acc.
Definition text (ds : list Ascii.ascii) : string := foldr String "" ds.
(** Digits, the value of which is [n], and a unit of [2 ^ k] bytes. *)
Definition size_text (s : string) (n k : Z) : Prop :=
  exists ds u, s = text (ds ++ [u]) /\ ds <> [] /\ Forall (fun c => isdigit c = true) ds /\ unit_shift u = Some k /\ n = number 0 ds.

Lemma strtol_text ds : forall acc u rest,
  Forall (fun c => isdigit c = true) ds -> isdigit u = false ->
  strtol_digits acc (text (ds ++ u :: rest)) = (number acc ds, text (u :: rest)).
Proof.
  induction ds as [|d ds IH]; intros acc u rest Hds Hu; cbn [app text foldr strtol_digits].
  - by rewrite Hu.
  - apply Forall_cons in Hds as [Hd Hds]. rewrite Hd. change (foldr String "" ?l) with (text l). by rewrite IH.
Qed.
Lemma number_nonneg ds : forall acc, 0 <= acc -> Forall (fun c => isdigit c = true) ds -> 0 <= number acc ds.
Proof.
  induction ds as [|d ds IH]; intros acc Ha Hds; [done|]. apply Forall_cons in Hds as [Hd Hds]. cbn [number fold_left].
  apply IH; [|done]. unfold isdigit in Hd. lia.
Qed.
Lemma unit_not_digit u k : unit_shift u = Some k -> isdigit u = false /\ (k = 0 \/ k = 10 \/ k = 20 \/ k = 30).
Proof.
  destruct u as [b0 b1 b2 b3 b4 b5 b6 b7].
  destruct b0, b1, b2, b3, b4, b5, b6, b7; cbn; intros E; try discriminate E; injection E as <-; split; (reflexivity || tauto).
Qed.
(** What [strtol] leaves. *)
Lemma strtol_digits_split s : forall acc n e, strtol_digits acc s = (n, e) ->
  exists ds, s = foldr String e ds /\ Forall (fun c => isdigit c = true) ds /\ n = number acc ds.
Proof.
  induction s as [|c s IH]; intros acc n e H; cbn [strtol_digits] in H; [injection H as <- <-; by exists []|].
  destruct (isdigit c) eqn:Ec; [|injection H as <- <-; by exists []].
  destruct (IH _ _ _ H) as (ds & -> & Hds & ->). exists (c :: ds). split; [done|]. split; [by constructor|done].
Qed.
Lemma text_app ds u : text (ds ++ [u]) = foldr String (String u "") ds.
Proof. unfold text. by rewrite foldr_app. Qed.
Lemma saturated n k : 0 <= n -> k = 0 \/ k = 10 \/ k = 20 \/ k = 30 ->
  (if Z.min n LONG_MAX <=? Z.shiftr LONG_MAX k then Z.shiftl (Z.min n LONG_MAX) k else LONG_MAX) = Z.min (n * 2 ^ k) LONG_MAX.
Proof.
  intros Hn Hk. assert (Hk0 : 0 <= k) by lia. rewrite Z.shiftr_div_pow2, Z.shiftl_mul_pow2 by done.
  assert (Hp : 0 < 2 ^ k) by (apply Z.pow_pos_nonneg; lia). unfold LONG_MAX in *.
  pose proof (Z.mul_div_le (2 ^ 63 - 1) (2 ^ k) Hp). pose proof (Z.mul_succ_div_gt (2 ^ 63 - 1) (2 ^ k) Hp).
  set (q := (2 ^ 63 - 1) / 2 ^ k) in *. destruct (Z.leb_spec (Z.min n (2 ^ 63 - 1)) q) as [Hle|Hgt]; [|nia].
  assert (n <= 2 ^ 63 - 1 \/ 2 ^ 63 - 1 < n) as [Hs|Hs] by lia; [rewrite Z.min_l in Hle |- * by lia; nia|].
  rewrite Z.min_r in Hle by lia. assert (2 ^ k = 1) by nia. nia.
Qed.

(** [parseMemorySize] reads digits followed by one of the units b, K,
    M, G of either case, as their product or, where that does not fit, as
    [LONG_MAX]; everything else, a number without a unit included, is
    answered with -1. *)
Theorem parseMemorySize_spec s :
  (forall n k, size_text s n k -> 0 <= n /\ parseMemorySize s = Z.min (n * 2 ^ k) LONG_MAX)
  /\ ((forall n k, ~ size_text s n k) -> parseMemorySize s = -1).
Proof.
  split.
  - intros n k (ds & u & -> & Hne & Hds & Hu & ->). destruct (unit_not_digit u k Hu) as [Hd Hk].
    pose proof (number_nonneg ds 0 ltac:(lia) Hds) as Hn. split; [done|].
    assert (Hst : strtol (text (ds ++ [u])) = (Z.min (number 0 ds) LONG_MAX, text [u])) by (unfold strtol; by rewrite strtol_text).
    destruct ds as [|d ds]; [done|]. apply Forall_cons in Hds as [Hd0 _]. cbn [app text foldr] in *.
    unfold parseMemorySize. rewrite Hd0. cbn [negb]. change (foldr String "" ?l) with (text l) in *. rewrite Hst. cbn [String.eqb]. rewrite Hu. cbn [negb].
    by apply saturated.
  - intros Hno. destruct s as [|c s]; [done|]. unfold parseMemorySize. destruct (isdigit c) eqn:Ec; [|done]. cbn [negb].
    destruct (strtol (String c s)) as [ans e] eqn:Est. unfold strtol in Est. destruct (strtol_digits 0 (String c s)) as [n e'] eqn:Ed.
    injection Est as <- <-. destruct (strtol_digits_split _ _ _ _ Ed) as (ds & Es & Hds & ->).
    destruct e' as [|u rest]; [done|]. destruct (unit_shift u) as [k|] eqn:Eu; [|done].
    destruct (String.eqb_spec rest "") as [->|]; [|done]. exfalso. apply (Hno (number 0 ds) k). exists ds, u. rewrite text_app. split_and!; try done.
    intros ->. cbn in Es. injection Es as -> _. by rewrite (proj1 (unit_not_digit _ _ Eu)) in Ec.
Qed.

(** ** The parser *)

(** The options at which the parser gives up. *)
Definition stops (c : opt) : bool := match c with OPT_help | OPT_step _ | OPT_unknown => true | _ => false end.
(** What an option says about the entry point. *)
Definition entry_of (c : opt) : option string :=
  match c with OPT_entry arg => Some arg | OPT_no_run => Some "" | _ => None end.
Definition last_entry (l : list opt) (dflt : string) : string :=
  fold_left (fun e c => default e (entry_of c)) l dflt.

Lemma parse_memory_bounds s : -1 <= parseMemorySize s <= LONG_MAX.
Proof.
  unfold parseMemorySize, LONG_MAX. destruct s as [|c s]; [lia|]. destruct (negb _) eqn:Ec; [lia|]. apply negb_false_iff in Ec.
  destruct (strtol (String c s)) as [ans e] eqn:Est. unfold strtol in Est. destruct (strtol_digits 0 (String c s)) as [n e'] eqn:Ed.
  injection Est as <- <-. destruct (strtol_digits_split _ _ _ _ Ed) as (ds & _ & Hds & ->).
  destruct e' as [|u rest]; [lia|]. destruct (unit_shift u) as [k|] eqn:Eu; [|lia]. destruct (negb _); [lia|].
  pose proof (number_nonneg ds 0 ltac:(lia) Hds) as Hn. change (2 ^ 63 - 1) with LONG_MAX.
  rewrite saturated by (done || by eapply unit_not_digit).
  pose proof (Z.pow_nonneg 2 k ltac:(lia)). assert (0 <= LONG_MAX) by (by vm_compute). nia.
Qed.
Lemma parse_option_some o c : stops c = false -> 0 <= stackSize_ o <= LONG_MAX ->
  exists o', parse_option o c = Some o' /\ inputs_ o' = inputs_ o /\ entry_ o' = default (entry_ o) (entry_of c)
    /\ 0 <= stackSize_ o' <= LONG_MAX.
Proof.
  intros Hs Hz. destruct c; try discriminate Hs; (eexists; split; [reflexivity|]; split_and!; try reflexivity; try apply Hz);
    cbn [stackSize_ set_stackSize]; pose proof (parse_memory_bounds arg); destruct (Z.ltb_spec (parseMemorySize arg) 0); (lia || by vm_compute).
Qed.
Lemma parse_options_some l : forall o, existsb stops l = false -> 0 <= stackSize_ o <= LONG_MAX ->
  exists o', parse_options o l = Some o' /\ inputs_ o' = inputs_ o /\ entry_ o' = last_entry l (entry_ o) /\ 0 <= stackSize_ o' <= LONG_MAX.
Proof.
  induction l as [|c l IH]; intros o Hs Hz; [by exists o|]. cbn [existsb] in Hs. apply orb_false_iff in Hs as [Hc Hs].
  destruct (parse_option_some o c Hc Hz) as (o1 & E1 & I1 & N1 & Z1). destruct (IH o1 Hs Z1) as (o2 & E2 & I2 & N2 & Z2).
  exists o2. cbn [parse_options]. rewrite E1. cbn. rewrite E2. split_and!; [done|congruence| |lia|lia]. rewrite N2, N1. reflexivity.
Qed.
Lemma parse_options_none l : forall o, existsb stops l = true -> parse_options o l = None.
Proof.
  induction l as [|c l IH]; intros o Hs; [done|]. cbn [existsb] in Hs. cbn [parse_options]. destruct (stops c) eqn:Ec; [by destruct c|].
  destruct (parse_option o c) as [o1|]; [|done]. by apply IH.
Qed.

(** With the defaults of [main] the parser gives up exactly when asked for
    help, at an option it does not know or does not handle, and without a
    module; otherwise the modules are the arguments, the last option about
    the entry point counts, and the stack size is a [long] that is not
    negative. *)
Theorem main_options_spec l args :
  if existsb stops l || (length args <? 1)%nat then main_options l args = None
  else exists o, main_options l args = Some o /\ inputs_ o = args /\ entry_ o = last_entry l "test" /\ 0 <= stackSize_ o <= LONG_MAX.
Proof.
  unfold main_options, parse. set (o0 := set_basePath _ _). change (default Options_init (Some o0)) with o0. destruct (existsb stops l) eqn:Es; cbn [orb].
  { by rewrite parse_options_none. }
  destruct (parse_options_some l o0 Es) as (o & -> & I & N & Hz); [by vm_compute|]. cbn [mbind option_bind inputs_ set_inputs].
  rewrite I. change (inputs_ o0 ++ args)%list with args. destruct (length args <? 1)%nat; [done|].
  eexists. split; [reflexivity|]. split_and!; [done|exact N|apply Hz|apply Hz].
Qed.

(** ** Thousands *)

(** The number that a text shows: its digits, whatever stands between
    them. *)
Fixpoint shown (acc : Z) (s : string) : Z :=
  match s with
  | EmptyString => acc
  | String c s' => shown (if isdigit c then acc * 10 + (char c - 48) else acc) s'
  end.
Lemma shown_app s1 s2 : forall acc, shown acc (s1 +:+ s2) = shown (shown acc s1) s2.
Proof. induction s1 as [|c s1 IH]; intros acc; [done|]. apply IH. Qed.
Lemma shown_digit acc d : 0 <= d < 10 -> shown acc (digit d) = acc * 10 + d.
Proof.
  intros Hd. assert (Hin : In d (seqZ 0 10)) by (apply list_elem_of_In, elem_of_seqZ; lia). cbn in Hin.
  repeat (destruct Hin as [<-|Hin]; [by cbn; rewrite ?Z.add_0_r|]). done.
Qed.
Lemma shown_zero_padded acc n : 0 <= n < 1000 -> shown acc (zero_padded n) = acc * 1000 + n.
Proof.
  intros Hn. unfold zero_padded. rewrite !shown_app, !shown_digit by (Z.to_euclidean_division_equations; lia).
  Z.to_euclidean_division_equations. lia.
Qed.
Lemma shown_space_padded n : 0 <= n < 1000 -> shown 0 (space_padded n) = n.
Proof.
  intros Hn. unfold space_padded. destruct (Z.ltb_spec n 10); [|destruct (Z.ltb_spec n 100)];
    rewrite ?shown_app; cbn [shown]; change (isdigit " ") with false; cbn iota;
    rewrite ?shown_app, !shown_digit by (Z.to_euclidean_division_equations; lia); Z.to_euclidean_division_equations; lia.
Qed.
(** The value of the groups. *)
Fixpoint grouped (ns : list Z) : Z := match ns with [] => 0 | n :: ns' => n + 1000 * grouped ns' end.
Lemma shown_more ns : forall acc, Forall (fun n => 0 <= n < 1000) ns ->
  shown acc (more_groups ns) = acc * 1000 ^ Z.of_nat (length ns) + grouped ns.
Proof.
  induction ns as [|n ns IH]; intros acc Hns; [cbn; lia|]. apply Forall_cons in Hns as [Hn Hns].
  cbn [more_groups grouped length]. rewrite !shown_app, IH by done. change (shown ?a ",") with a.
  rewrite shown_zero_padded by done. rewrite Nat2Z.inj_succ, Z.pow_succ_r by lia. lia.
Qed.
Lemma grouped_app ns n : grouped (ns ++ [n]) = grouped ns + n * 1000 ^ Z.of_nat (length ns).
Proof.
  induction ns as [|m ns IH]; [cbn; lia|]. cbn [app grouped length]. rewrite IH, Nat2Z.inj_succ, Z.pow_succ_r by lia. lia.
Qed.
Lemma thousands_spec room : forall n, (0 < room)%nat -> 0 <= n < 1000 ^ Z.of_nat room ->
  exists ns, thousands room n = Ok ns /\ ns <> [] /\ (length ns <= room)%nat /\ Forall (fun x => 0 <= x < 1000) ns /\ grouped ns = n.
Proof.
  induction room as [|room IH]; intros n Hr Hn; [lia|]. cbn [thousands]. rewrite Nat2Z.inj_succ, Z.pow_succ_r in Hn by lia.
  assert (Hm : 0 <= n mod 1000 < 1000) by (apply Z.mod_pos_bound; lia). pose proof (Z.div_mod n 1000 ltac:(lia)) as Hdm.
  destruct (Z.ltb_spec 0 (n / 1000)) as [Hq|Hq].
  - assert (Hlt : n / 1000 < 1000 ^ Z.of_nat room) by (apply Z.div_lt_upper_bound; lia).
    destruct room as [|room']; [cbn in Hlt; lia|]. destruct (IH (n / 1000) ltac:(lia) ltac:(lia)) as (ns & -> & _ & Hl & Hall & Hg).
    exists (n mod 1000 :: ns). split_and!; [done|done|cbn [length]; lia|by constructor|cbn [grouped]; lia].
  - assert (0 <= n / 1000) by (apply Z.div_pos; lia). exists [n mod 1000].
    split_and!; [done|done|cbn; lia|by apply List.Forall_cons; [exact Hm|]|cbn [grouped]; lia].
Qed.
Lemma slength_app s1 s2 : String.length (s1 +:+ s2) = (String.length s1 + String.length s2)%nat.
Proof. induction s1 as [|c s1 IH]; [done|].
  change (S (String.length (s1 +:+ s2)) = S (String.length s1 + String.length s2))%nat. by rewrite IH. Qed.
Lemma more_length ns : String.length (more_groups ns) = (4 * length ns)%nat.
Proof.
  induction ns as [|n ns IH]; [done|]. cbn [more_groups length]. rewrite !slength_app, IH.
  change (String.length (zero_padded n)) with 3%nat. change (String.length ",") with 1%nat. lia.
Qed.

(** [formatWithThousands] shows every 64-bit number, with its array of
    seven groups and in a buffer of 28 characters; its callers' buffers
    have 30. *)
Theorem formatWithThousands_shows n : 0 <= n < 2 ^ 64 ->
  exists s, formatWithThousands n = Ok s /\ shown 0 s = n /\ (String.length s + 1 <= 28)%nat.
Proof.
  intros Hn. destruct (thousands_spec 7 n) as (ns & E & Hne & Hlen & Hall & Hg); [lia|lia|]. unfold formatWithThousands. rewrite E.
  cbn [obind]. destruct ns as [|x ns _] using rev_ind; [done|]. rewrite reverse_app, reverse_singleton. cbn [app].
  rewrite reverse_involutive. apply Forall_app in Hall as [Hall Hx]. apply Forall_cons in Hx as [Hx _]. rewrite length_app in Hlen. cbn in Hlen.
  eexists. split; [reflexivity|]. split.
  - rewrite shown_app, shown_space_padded, shown_more by done. rewrite <- Hg, grouped_app. lia.
  - rewrite slength_app, more_length.
    assert (Hp : String.length (space_padded x) = 3%nat) by (unfold space_padded; destruct (x <? 10), (x <? 100); reflexivity). lia.
Qed.

Example sizes : map parseMemorySize ["5K"; "3M"; "1024"; "0g"; "5KB"; "99999999999999999999b"]
  = [5120; 3145728; -1; 0; -1; LONG_MAX].
Proof. vm_compute. reflexivity. Qed.
Example some_thousands : map formatWithThousands [7; 1000; 2 ^ 64 - 1]
  = [Ok "  7"; Ok "  1,000"; Ok " 18,446,744,073,709,551,615"].
Proof. vm_compute. reflexivity. Qed.
Lemma parseMemorySize_spec_witness : parseMemorySize "5K" = 5120 /\ parseMemorySize "1024" = -1.
Proof.
  split; [|vm_compute; reflexivity].
  destruct (parseMemorySize_spec "5K") as [H _]. destruct (H 5 10) as [_ E]; [|exact E].
  exists ["5"%char], "K"%char. split; [reflexivity|]. split; [discriminate|]. split; [repeat constructor|]. split; reflexivity.
Defined.
