(* ===== verification/Bytecode.v ===== *)
(** * The bytecode instruction format ([bytecode.hh], [bytecode.cc])

    An instruction [BcIns] is a 32-bit word.  This file has the opcode
    and format tables, the encoders and field accessors, the length of
    an instruction as the disassembler walks it, and their round
    trips.  The component is used by the loader, the interpreter, the
    garbage collector and the disassembler. *)

From S2P Require Import Prelude Words.

Module BcIns.

(** The enumeration generated from [BCDEF], in the source's order. *)
Inductive Opcode :=
| kISLT
| kISGE
| kISLE
| kISGT
| kISEQ
| kISNE
| kISLTU
| kISGEU
| kISLEU
| kISGTU
| kNEG
| kMOV
| kMOV_RES
| kUPDATE
| kLOADF
| kLOADFV
| kLOADBH
| kLOADSLF
| kINITF
| kADDRR
| kSUBRR
| kMULRR
| kDIVRR
| kREMRR
| kCMPLT
| kCMPGE
| kCMPLE
| kCMPGT
| kCMPEQ
| kCMPNE
| kCMPLTU
| kCMPGEU
| kCMPLEU
| kCMPGTU
| kBNOT
| kBAND
| kBOR
| kBXOR
| kBSHL
| kBSHR
| kBSAR
| kBROL
| kBROR
| kPTROFSC
| kGETTAG
| kLOADK
| kKINT
| kNEW_INT
| kALLOC1
| kALLOC
| kALLOCAP
| kCALL
| kCALLT
| kRET1
| kRETN
| kJMP
| kEVAL
| kCASE
| kCASE_S
| kRAISE
| kNEWBYTEA
| kGETA1
| kGETA2
| kGETA4
| kGETA8
| kSETA1
| kSETA2
| kSETA4
| kSETA8
| kFUNC
| kIFUNC
| kJFUNC
| kFUNCPAP
| kJRET
| kIRET
| kSYNC
| kSTOP.

(** The enumeration [InsFormat]. *)
Inductive InsFormat :=
| IFM_J | IFM_R | IFM_RR | IFM_RRR | IFM_RN | IFM_RRN | IFM_RS | IFM_RRJ | IFM____.

#[global] Instance Opcode_eq_dec : EqDecision Opcode.
Proof. solve_decision. Defined.
#[global] Instance InsFormat_eq_dec : EqDecision InsFormat.
Proof. solve_decision. Defined.

(** The table [ins_format]. *)
Definition ins_format (o : Opcode) : InsFormat :=
  match o with
  | kISLT | kISGE | kISLE | kISGT | kISEQ | kISNE | kISLTU | kISGEU | kISLEU | kISGTU => IFM_RRJ
  | kNEG | kMOV | kUPDATE | kBNOT | kGETTAG => IFM_RR
  | kMOV_RES | kLOADFV | kLOADK | kJFUNC | kJRET | kIRET => IFM_RN
  | kLOADF | kINITF | kNEWBYTEA => IFM_RRN
  | kLOADBH | kLOADSLF | kRET1 | kRETN | kRAISE | kFUNC | kIFUNC => IFM_R
  | kADDRR | kSUBRR | kMULRR | kDIVRR | kREMRR | kCMPLT | kCMPGE | kCMPLE | kCMPGT |
   kCMPEQ | kCMPNE | kCMPLTU | kCMPGEU | kCMPLEU | kCMPGTU | kBAND | kBOR | kBXOR |
   kBSHL | kBSHR | kBSAR | kBROL | kBROR | kPTROFSC | kGETA1 | kGETA2 | kGETA4 | kGETA8
   | kSETA1 | kSETA2 | kSETA4 | kSETA8 => IFM_RRR
  | kKINT | kNEW_INT => IFM_RS
  | kALLOC1 | kALLOC | kALLOCAP | kCALL | kCALLT | kEVAL | kCASE | kCASE_S | kFUNCPAP |
   kSYNC | kSTOP => IFM____
  | kJMP => IFM_J
  end.

(** All opcodes in numeric order; [opcode_num] is the enum's value. *)
Definition opcodes : list Opcode :=
  [kISLT; kISGE; kISLE; kISGT; kISEQ; kISNE; kISLTU; kISGEU; kISLEU; kISGTU;
   kNEG; kMOV; kMOV_RES; kUPDATE; kLOADF; kLOADFV; kLOADBH; kLOADSLF; kINITF;
   kADDRR; kSUBRR; kMULRR; kDIVRR; kREMRR; kCMPLT; kCMPGE; kCMPLE; kCMPGT;
   kCMPEQ; kCMPNE; kCMPLTU; kCMPGEU; kCMPLEU; kCMPGTU; kBNOT; kBAND; kBOR;
   kBXOR; kBSHL; kBSHR; kBSAR; kBROL; kBROR; kPTROFSC; kGETTAG; kLOADK; kKINT;
   kNEW_INT; kALLOC1; kALLOC; kALLOCAP; kCALL; kCALLT; kRET1; kRETN; kJMP;
   kEVAL; kCASE; kCASE_S; kRAISE; kNEWBYTEA; kGETA1; kGETA2; kGETA4; kGETA8;
   kSETA1; kSETA2; kSETA4; kSETA8; kFUNC; kIFUNC; kJFUNC; kFUNCPAP; kJRET;
   kIRET; kSYNC; kSTOP].

Definition opcode_num (o : Opcode) : Z :=
  match o with
  | kISLT => 0
  | kISGE => 1
  | kISLE => 2
  | kISGT => 3
  | kISEQ => 4
  | kISNE => 5
  | kISLTU => 6
  | kISGEU => 7
  | kISLEU => 8
  | kISGTU => 9
  | kNEG => 10
  | kMOV => 11
  | kMOV_RES => 12
  | kUPDATE => 13
  | kLOADF => 14
  | kLOADFV => 15
  | kLOADBH => 16
  | kLOADSLF => 17
  | kINITF => 18
  | kADDRR => 19
  | kSUBRR => 20
  | kMULRR => 21
  | kDIVRR => 22
  | kREMRR => 23
  | kCMPLT => 24
  | kCMPGE => 25
  | kCMPLE => 26
  | kCMPGT => 27
  | kCMPEQ => 28
  | kCMPNE => 29
  | kCMPLTU => 30
  | kCMPGEU => 31
  | kCMPLEU => 32
  | kCMPGTU => 33
  | kBNOT => 34
  | kBAND => 35
  | kBOR => 36
  | kBXOR => 37
  | kBSHL => 38
  | kBSHR => 39
  | kBSAR => 40
  | kBROL => 41
  | kBROR => 42
  | kPTROFSC => 43
  | kGETTAG => 44
  | kLOADK => 45
  | kKINT => 46
  | kNEW_INT => 47
  | kALLOC1 => 48
  | kALLOC => 49
  | kALLOCAP => 50
  | kCALL => 51
  | kCALLT => 52
  | kRET1 => 53
  | kRETN => 54
  | kJMP => 55
  | kEVAL => 56
  | kCASE => 57
  | kCASE_S => 58
  | kRAISE => 59
  | kNEWBYTEA => 60
  | kGETA1 => 61
  | kGETA2 => 62
  | kGETA4 => 63
  | kGETA8 => 64
  | kSETA1 => 65
  | kSETA2 => 66
  | kSETA4 => 67
  | kSETA8 => 68
  | kFUNC => 69
  | kIFUNC => 70
  | kJFUNC => 71
  | kFUNCPAP => 72
  | kJRET => 73
  | kIRET => 74
  | kSYNC => 75
  | kSTOP => 76
  end.

Definition opcode_of_num (n : Z) : option Opcode :=
  if (0 <=? n) then opcodes !! Z.to_nat n else None.

Definition kBranchBias : Z := 0x8000.
Definition kMaxCallArgs : Z := 13.

(** ** Encoders *)

Definition abc (opcode : Opcode) (a b c : Z) : Z :=
  Z.lor (Z.lor (Z.lor (opcode_num opcode) (Z.shiftl (u1 a) 8))
               (Z.shiftl (u1 b) 24)) (Z.shiftl (u1 c) 16).

Definition ad (opcode : Opcode) (a d : Z) : Z :=
  Z.lor (Z.lor (opcode_num opcode) (Z.shiftl (u1 a) 8)) (Z.shiftl (u2 d) 16).

(** [static_cast<uint32_t>(sd) << 16]: the sign bits are shifted out. *)
Definition asd (opcode : Opcode) (a sd : Z) : Z :=
  Z.lor (Z.lor (opcode_num opcode) (Z.shiftl (u1 a) 8))
        (u4 (Z.shiftl (u4 (i2 sd)) 16)).

Definition aj (opcode : Opcode) (a offset : Z) : Z :=
  ad opcode a (u2 (kBranchBias + i2 offset)).

Definition bitmapOffset (n : Z) : Z := u4 n.
Definition pointerInfo (n : Z) : Z := u4 n.

Definition args (arg1 arg2 arg3 arg4 : Z) : Z :=
  Z.lor (Z.lor (Z.lor (u1 arg1) (Z.shiftl (u1 arg2) 8))
               (Z.shiftl (u1 arg3) 16)) (Z.shiftl (u1 arg4) 24).

(** ** Accessors *)

Definition a (raw : Z) : Z := Z.land (Z.shiftr raw 8) 0xff.
Definition b (raw : Z) : Z := u1 (Z.shiftr raw 24).
Definition c (raw : Z) : Z := Z.land (Z.shiftr raw 16) 0xff.
Definition d (raw : Z) : Z := u2 (Z.shiftr raw 16).
Definition sd (raw : Z) : Z := i2 (Z.shiftr raw 16).
Definition j (raw : Z) : Z := i2 (Z.shiftr raw 16 - kBranchBias).
(** [None] when the low byte is no enumerator. *)
Definition opcode (raw : Z) : option Opcode := opcode_of_num (Z.land raw 0xff).
Definition format (raw : Z) : option InsFormat := ins_format <$> opcode raw.

(** [offsetToBitmask]: the address of the bitmaps described by the
    offset word at address [pc]. *)
Definition offsetToBitmask (pc raw : Z) : option Z :=
  if raw =? 0 then None else Some (pc + raw).

(** [BC_ROUND], with [sizeof(BcIns) = 4]. *)
Definition BC_ROUND (bytes : Z) : Z := (bytes + (4 - 1)) / 4.

(** ** The disassembler's walk

    [BcIns::debugPrint] returns the address of the next instruction;
    [ins_words] is the number of 32-bit words it skips. *)
Definition ins_words (raw : Z) : option Z :=
  match opcode raw with
  | None => None
  | Some o =>
      Some match ins_format o with
      | IFM_RRJ => 2
      | IFM____ =>
          match o with
          | kEVAL => 2
          | kCASE => 1 + (d raw + 1) / 2
          | kCASE_S => 1 + (1 + d raw)
          | kALLOC1 => 2
          | kALLOC => 1 + (1 + BC_ROUND (c raw))
          | kALLOCAP => 1 + (1 + BC_ROUND (c raw + 1))
          | kCALL => 1 + 1 + (BC_ROUND (c raw) + 1)
          | kCALLT => 2
          | _ => 1
          end
      | _ => 1
      end
  end.

(** ** Round trips *)

Lemma opcode_num_bound o : 0 <= opcode_num o < 2 ^ 8.
Proof. destruct o; cbn; lia. Qed.

Lemma opcode_of_num_num o : opcode_of_num (opcode_num o) = Some o.
Proof. by destruct o. Qed.

(** Field [k] bits wide at bit [s] of a word. *)
Definition field (s k raw : Z) : Z := Z.shiftr raw s mod 2 ^ k.

Lemma land_field s k raw : 0 <= k -> Z.land (Z.shiftr raw s) (Z.ones k) = field s k raw.
Proof. intros. by rewrite Z.land_ones. Qed.

Lemma a_field raw : a raw = field 8 8 raw.
Proof. by rewrite <- land_field. Qed.
Lemma b_field raw : b raw = field 24 8 raw.
Proof. done. Qed.
Lemma c_field raw : c raw = field 16 8 raw.
Proof. by rewrite <- land_field. Qed.
Lemma d_field raw : d raw = field 16 16 raw.
Proof. done. Qed.
Lemma opcode_field raw : opcode raw = opcode_of_num (field 0 8 raw).
Proof. unfold opcode. rewrite <- land_field, Z.shiftr_0_r by lia. done. Qed.

(** The bits of four packed bytes. *)
Definition pack4 (b0 b1 b2 b3 : Z) : Z :=
  b0 + b1 * 2 ^ 8 + b2 * 2 ^ 16 + b3 * 2 ^ 24.

Lemma lor_pack4 b0 b1 b2 b3 :
  0 <= b0 < 2 ^ 8 -> 0 <= b1 < 2 ^ 8 -> 0 <= b2 < 2 ^ 8 ->
  Z.lor (Z.lor (Z.lor b0 (Z.shiftl b1 8)) (Z.shiftl b2 16)) (Z.shiftl b3 24)
  = pack4 b0 b1 b2 b3.
Proof.
  intros. unfold pack4. rewrite (shiftl_lor_add b0 b1 8) by lia.
  rewrite (shiftl_lor_add _ b2 16) by lia. by rewrite shiftl_lor_add by lia.
Qed.

Lemma field_at s k lo x hi :
  0 <= s -> 0 <= k -> 0 <= lo < 2 ^ s -> 0 <= x < 2 ^ k ->
  field s k (lo + (x + hi * 2 ^ k) * 2 ^ s) = x.
Proof.
  intros. unfold field. rewrite Z.shiftr_div_pow2, Z.div_add, Z.div_small by lia.
  rewrite Z.add_0_l, Z.mod_add by (pose proof (pow2_pos k); lia).
  by apply Z.mod_small.
Qed.

Lemma field_pack4 b0 b1 b2 b3 :
  0 <= b0 < 2 ^ 8 -> 0 <= b1 < 2 ^ 8 -> 0 <= b2 < 2 ^ 8 -> 0 <= b3 < 2 ^ 8 ->
  field 0 8 (pack4 b0 b1 b2 b3) = b0 /\ field 8 8 (pack4 b0 b1 b2 b3) = b1
  /\ field 16 8 (pack4 b0 b1 b2 b3) = b2 /\ field 24 8 (pack4 b0 b1 b2 b3) = b3
  /\ field 16 16 (pack4 b0 b1 b2 b3) = b2 + b3 * 2 ^ 8.
Proof.
  intros. unfold pack4. split_and!.
  - etrans; [|apply (field_at 0 8 0 b0 (b1 + b2 * 2 ^ 8 + b3 * 2 ^ 16)); lia]. f_equal. lia.
  - etrans; [|apply (field_at 8 8 b0 b1 (b2 + b3 * 2 ^ 8)); lia]. f_equal. lia.
  - etrans; [|apply (field_at 16 8 (b0 + b1 * 2 ^ 8) b2 b3); lia]. f_equal. lia.
  - etrans; [|apply (field_at 24 8 (b0 + b1 * 2 ^ 8 + b2 * 2 ^ 16) b3 0); lia]. f_equal. lia.
  - etrans; [|apply (field_at 16 16 (b0 + b1 * 2 ^ 8) (b2 + b3 * 2 ^ 8) 0); lia]. f_equal. lia.
Qed.

Lemma abc_pack o x y z :
  abc o x y z = pack4 (opcode_num o) (u1 x) (u1 z) (u1 y).
Proof.
  pose proof (opcode_num_bound o). unfold abc.
  rewrite <- lor_pack4 by (done || apply to_u_bound; lia).
  rewrite <- !Z.lor_assoc. do 2 f_equal. apply Z.lor_comm.
Qed.

Lemma ad_pack o x y :
  ad o x y = pack4 (opcode_num o) (u1 x) (u2 y mod 2 ^ 8) (u2 y / 2 ^ 8).
Proof.
  pose proof (opcode_num_bound o).
  pose proof (to_u_bound 8 ltac:(lia) x). pose proof (to_u_bound 16 ltac:(lia) y).
  unfold ad, pack4, u1, u2 in *.
  rewrite (shiftl_lor_add (opcode_num o) _ 8), shiftl_lor_add by lia.
  pose proof (Z.div_mod (to_u 16 y) (2 ^ 8)). lia.
Qed.

Lemma to_u_bounds8 x : 0 <= u1 x < 2 ^ 8.
Proof. apply to_u_bound; lia. Qed.

Lemma abc_fields o x y z :
  opcode (abc o x y z) = Some o /\ a (abc o x y z) = u1 x
  /\ b (abc o x y z) = u1 y /\ c (abc o x y z) = u1 z.
Proof.
  rewrite opcode_field, a_field, b_field, c_field, abc_pack.
  destruct (field_pack4 (opcode_num o) (u1 x) (u1 z) (u1 y)) as (-> & -> & -> & -> & _);
    auto using opcode_num_bound, to_u_bounds8.
  by rewrite opcode_of_num_num.
Qed.

Lemma ad_fields o x y :
  opcode (ad o x y) = Some o /\ a (ad o x y) = u1 x /\ d (ad o x y) = u2 y.
Proof.
  rewrite opcode_field, a_field, d_field, ad_pack.
  pose proof (to_u_bound 16 ltac:(lia) y) as Hy. unfold u2 in *.
  pose proof (Z.div_mod (to_u 16 y) (2 ^ 8) ltac:(lia)) as Hdm.
  pose proof (Z.mod_pos_bound (to_u 16 y) (2 ^ 8) ltac:(lia)) as Hm.
  destruct (field_pack4 (opcode_num o) (u1 x) (to_u 16 y mod 2 ^ 8) (to_u 16 y / 2 ^ 8))
    as (-> & -> & _ & _ & ->); auto using opcode_num_bound, to_u_bounds8.
  - split; [apply Z.div_pos; lia|apply Z.div_lt_upper_bound; lia].
  - rewrite opcode_of_num_num. split_and!; [done|done|lia].
Qed.

Lemma j_ad o x y : j (ad o x y) = i2 (u2 y - kBranchBias).
Proof.
  destruct (ad_fields o x y) as (_ & _ & Hd). unfold j.
  apply to_s_eq. rewrite <- (to_u_sub 16) by lia. f_equal. f_equal. exact Hd.
Qed.

(** A branch offset in the 16-bit signed range survives the biased
    encoding. *)
Lemma j_aj o x off : - 2 ^ 15 <= off < 2 ^ 15 -> j (aj o x off) = off.
Proof.
  intros Hoff. unfold aj. rewrite j_ad. unfold i2, u2, kBranchBias.
  rewrite (to_s_id 16 ltac:(lia) off) by lia.
  rewrite !(to_u_id 16) by (rewrite ?(to_u_id 16); lia).
  rewrite to_s_id; lia.
Qed.

Lemma sd_ad o x y : sd (ad o x y) = i2 y.
Proof.
  destruct (ad_fields o x y) as (_ & _ & Hd). unfold sd. apply to_s_eq.
  exact Hd.
Qed.

Lemma asd_ad o x y : asd o x y = ad o x y.
Proof.
  unfold asd, ad. f_equal. unfold u4, u2, i2.
  rewrite !Z.shiftl_mul_pow2, to_u_mul by lia.
  rewrite <- (to_s_congr 16 ltac:(lia) y). generalize (to_s 16 y). intros z.
  unfold to_u. change (2 ^ 32) with (2 ^ 16 * 2 ^ 16).
  by rewrite Z.mul_mod_distr_r by lia.
Qed.

Lemma args_bytes w x y z k :
  (k < 4)%nat ->
  Z.shiftr (args w x y z) (8 * Z.of_nat k) mod 2 ^ 8
  = default 0 ([u1 w; u1 x; u1 y; u1 z] !! k).
Proof.
  intros Hk. unfold args. rewrite lor_pack4 by apply to_u_bounds8.
  destruct (field_pack4 (u1 w) (u1 x) (u1 y) (u1 z)) as (H0 & H1 & H2 & H3 & _);
    try apply to_u_bounds8.
  unfold field in *. by destruct k as [|[|[|[|]]]]; [..|lia].
Qed.

(** Every instruction format is decoded to the fields it was encoded
    from. *)
Lemma fields_roundtrip o x y z off :
  - 2 ^ 15 <= off < 2 ^ 15 ->
  (opcode (abc o x y z) = Some o /\ a (abc o x y z) = u1 x
   /\ b (abc o x y z) = u1 y /\ c (abc o x y z) = u1 z)
  /\ (opcode (ad o x y) = Some o /\ a (ad o x y) = u1 x /\ d (ad o x y) = u2 y)
  /\ (opcode (asd o x off) = Some o /\ a (asd o x off) = u1 x /\ sd (asd o x off) = off)
  /\ (opcode (aj o x off) = Some o /\ a (aj o x off) = u1 x /\ j (aj o x off) = off).
Proof.
  intros Hoff. split; [apply abc_fields|]. split; [apply ad_fields|].
  split; (split; [|split]); rewrite ?asd_ad.
  - apply ad_fields.
  - apply ad_fields.
  - rewrite sd_ad. apply to_s_id; lia.
  - apply ad_fields.
  - apply ad_fields.
  - by apply j_aj.
Qed.

End BcIns.
