(* ===== verification/Bitmaps.v ===== *)
(** * Liveness bitmaps

    Pointer and liveness masks are stored as sequences of [u2] chunks of
    15 bits whose top bit says that another chunk follows.
    [encodeBitmask] ([miscclosures.cc]) writes them; the garbage
    collector ([memorymanager.cc], [scavengeFrame]), the stack walker
    ([scavengeStack], for the mask of the top frame) and the
    disassembler ([bytecode.cc], [printInlineBitmaps]) read them. *)

From S2P Require Import Prelude Words.

Definition BITMASK_MASK : Z := Z.shiftl 1 15 - 1.
Definition BITMASK_CONT : Z := Z.shiftl 1 15.

(** ** Writing *)

Definition bitmapSize (bitmap : Z) : nat :=
  if bitmap <? Z.shiftl 1 15 then 1
  else if bitmap <? Z.shiftl 1 30 then 2
  else 3.

(** The loop of [encodeBitmask], with [k] chunks still to write. *)
Fixpoint encodeBitmask_loop (k : nat) (bitmap : Z) : list Z :=
  match k with
  | O => []
  | S k' =>
      let m := u2 (Z.land bitmap BITMASK_MASK) in
      let m := if (0 <? k')%nat then Z.lor m BITMASK_CONT else m in
      m :: encodeBitmask_loop k' (Z.shiftr bitmap 15)
  end.

Definition encodeBitmask (bitmap : Z) : list Z :=
  encodeBitmask_loop (bitmapSize bitmap) bitmap.

(** [formatBitmap]: the name suffix of an application closure. *)
Fixpoint formatBitmap_loop (nargs : nat) (pointerMask : Z) : string :=
  match nargs with
  | O => ""
  | S n => String.append (if Z.land pointerMask 1 =? 0 then "n" else "p")
                         (formatBitmap_loop n (Z.shiftr pointerMask 1))
  end.
Definition formatBitmap (nargs pointerMask : Z) : string :=
  formatBitmap_loop (Z.to_nat (Z.min nargs 32)) pointerMask.

(** ** Reading a frame bitmap ([scavengeFrame]) *)

(** The inner [for] loop: the slots visited, the rest of the chunk and
    the next slot number. *)
Fixpoint frame_chunk (n : nat) (bitmap slot : Z) : list Z * Z * Z :=
  match n with
  | O => ([], bitmap, slot)
  | S n' =>
      if bitmap =? 0 then ([], bitmap, slot)
      else
        let '(vis, rest, slot') := frame_chunk n' (Z.shiftr bitmap 1) (slot + 1) in
        (if Z.land bitmap 1 =? 0 then vis else slot :: vis, rest, slot')
  end.

(** The [do .. while] loop, reading chunks from the bitmap pointer;
    running off the modelled memory is a wild access. *)
Fixpoint frame_slots (bitmaps : list Z) (slot : Z) : outcome (list Z) :=
  match bitmaps with
  | [] => Err WildAccess
  | bitmap :: bitmaps' =>
      let '(vis, rest, slot') := frame_chunk 15 bitmap slot in
      if rest =? 0 then Ok vis
      else
        let! more := frame_slots bitmaps' slot' in
        Ok (vis ++ more)
  end.

(** [scavengeStack] rewrites the 32-bit mask of the top frame as
    chunks. *)
Definition topOfStack_chunks (topOfStackMask : Z) : list Z :=
  let m0 := u2 (Z.land topOfStackMask 0x7fff) in
  let m1 := u2 (Z.land (Z.shiftr topOfStackMask 15) 0x7fff) in
  let m2 := u2 (Z.shiftr topOfStackMask 30) in
  let m1 := if negb (m2 =? 0) then Z.lor m1 0x8000 else m1 in
  let m0 := if negb (m1 =? 0) then Z.lor m0 0x8000 else m0 in
  [m0; m1; m2].

(** ** Reading both bitmaps ([printInlineBitmaps]) *)

(** The scan for the second bitmap: drop chunks while the
    continuation bit is set, then one more. *)
Fixpoint skip_bitmap (l : list Z) : list Z :=
  match l with
  | [] => []
  | m :: l' => if Z.land m 0x8000 =? 0 then l' else skip_bitmap l'
  end.

(** The [for] loop over 15 registers. *)
Fixpoint inline_chunk (n : nat) (ptrs lives reg : Z) : list (Z * bool) * Z * Z :=
  match n with
  | O => ([], ptrs, lives)
  | S n' =>
      let '(out, p, l) := inline_chunk n' (Z.shiftr ptrs 1) (Z.shiftr lives 1) (reg + 1) in
      (if Z.land lives 1 =? 0 then out
       else (reg, negb (Z.land ptrs 1 =? 0)) :: out, p, l)
  end.

(** The [while (true)] loop; [pl] and [ll] are the chunks after the
    current ones. *)
Fixpoint inline_walk (fuel : nat) (ptrs lives : Z) (pl ll : list Z) (reg : Z)
  : outcome (list (Z * bool)) :=
  match fuel with
  | O => Err OutOfFuel
  | S fuel' =>
      let '(out, p, l) := inline_chunk 15 ptrs lives reg in
      if (p =? 0) && (l =? 0) then Ok out
      else
        let! '(p', pl') := if p =? 0 then Ok (p, pl)
                           else match pl with
                                | [] => Err WildAccess
                                | x :: pl' => Ok (x, pl') end in
        let! '(l', ll', reg') := if l =? 0 then Ok (l, ll, reg)
                                 else match ll with
                                      | [] => Err WildAccess
                                      | x :: ll' => Ok (x, ll', reg + 15) end in
        let! more := inline_walk fuel' p' l' pl' ll' reg' in
        Ok (out ++ more)
  end.

Definition printInlineBitmaps (fuel : nat) (bitmaps : list Z) : outcome (list (Z * bool)) :=
  match bitmaps, skip_bitmap bitmaps with
  | ptrs :: pl, lives :: ll => inline_walk fuel ptrs lives pl ll 0
  | _, _ => Err WildAccess
  end.

(** ** The reference reading: the positions of the set bits *)

Fixpoint bits_from (n : nat) (m slot : Z) : list Z :=
  match n with
  | O => []
  | S n' => (if Z.testbit m 0 then [slot] else []) ++ bits_from n' (Z.shiftr m 1) (slot + 1)
  end.

Definition set_bits (m : Z) : list Z := bits_from 32 m 0.

Lemma bits_from_S n m slot :
  bits_from (S n) m slot
  = (if Z.testbit m 0 then [slot] else []) ++ bits_from n (Z.shiftr m 1) (slot + 1).
Proof. done. Qed.

Lemma bits_from_zero n slot : bits_from n 0 slot = [].
Proof.
  revert slot. induction n; intros; [done|]. by rewrite bits_from_S, IHn.
Qed.

Lemma bits_from_app n k m slot :
  bits_from (n + k) m slot
  = bits_from n m slot ++ bits_from k (Z.shiftr m (Z.of_nat n)) (slot + Z.of_nat n).
Proof.
  revert m slot. induction n as [|n IH]; intros.
  - cbn [Nat.add]. change (Z.of_nat 0) with 0. by rewrite Z.shiftr_0_r, Z.add_0_r.
  - cbn [Nat.add]. rewrite !bits_from_S, IH, <- app_assoc. do 3 f_equal.
    + rewrite Z.shiftr_shiftr by lia. f_equal. lia.
    + lia.
Qed.

Lemma elem_of_bits_from n m slot x :
  x ∈ bits_from n m slot <->
  slot <= x < slot + Z.of_nat n /\ Z.testbit m (x - slot) = true.
Proof.
  revert m slot. induction n as [|n IH]; intros m slot.
  - cbn. split; [by intros ?%not_elem_of_nil|lia].
  - rewrite bits_from_S, elem_of_app, IH.
    destruct (Z.eq_dec x slot) as [->|Hne].
    + rewrite Z.sub_diag. destruct (Z.testbit m 0).
      * split; [by intros; split; [lia|]|]. intros _. left. apply list_elem_of_singleton. done.
      * split; [|by intros [_ ?]]. intros [?%not_elem_of_nil|[? _]]; [done|lia].
    + assert (x ∉ (if Z.testbit m 0 then [slot] else [])) by (case_match; set_solver).
      rewrite Z.shiftr_spec' . split.
      * intros [?|[? Hb]]; [done|]. split; [lia|].
        apply andb_prop in Hb as [_ Hb]. by replace (x - slot) with (x - (slot + 1) + 1) by lia.
      * intros [Hx Hb]. right. split; [lia|].
        replace (x - (slot + 1) + 1) with (x - slot) by lia. rewrite Hb, andb_true_r.
        apply negb_true_iff, Z.ltb_ge. lia.
Qed.

(** Bits above the window do not matter. *)
Lemma bits_from_ext n m m' slot :
  (forall i, 0 <= i < Z.of_nat n -> Z.testbit m i = Z.testbit m' i) ->
  bits_from n m slot = bits_from n m' slot.
Proof.
  revert m m' slot. induction n as [|n IH]; intros m m' slot H; [done|].
  rewrite !bits_from_S, (H 0) by lia. f_equal. apply IH. intros i Hi.
  rewrite !Z.shiftr_spec by lia. apply H. lia.
Qed.

(** ** The readers against the reference *)

Lemma land_1_testbit m : (Z.land m 1 =? 0) = negb (Z.testbit m 0).
Proof.
  rewrite land_1_odd, Z.bit0_odd, Zmod_odd. by destruct (Z.odd m).
Qed.

Lemma frame_chunk_spec n m slot :
  0 <= m ->
  exists slot',
    frame_chunk n m slot = (bits_from n m slot, Z.shiftr m (Z.of_nat n), slot')
    /\ (Z.shiftr m (Z.of_nat n) <> 0 -> slot' = slot + Z.of_nat n).
Proof.
  revert m slot. induction n as [|n IH]; intros m slot Hm.
  - exists slot. cbn. rewrite Z.shiftr_0_r. split; [done|]. lia.
  - cbn [frame_chunk]. destruct (Z.eqb_spec m 0) as [->|Hne].
    + exists slot. rewrite bits_from_zero, Z.shiftr_0_l. done.
    + destruct (IH (Z.shiftr m 1) (slot + 1)) as (s' & -> & Hs').
      { by apply Z.shiftr_nonneg. }
      exists s'. rewrite bits_from_S, land_1_testbit.
      assert (E : Z.shiftr (Z.shiftr m 1) (Z.of_nat n) = Z.shiftr m (Z.of_nat (S n))).
      { rewrite Z.shiftr_shiftr by lia. f_equal. lia. }
      rewrite E in *. split; [by destruct (Z.testbit m 0)|].
      intros H. rewrite Hs' by done. lia.
Qed.

Lemma frame_slots_last m slot rest :
  0 <= m < 2 ^ 15 -> frame_slots (m :: rest) slot = Ok (bits_from 15 m slot).
Proof.
  intros Hm. cbn [frame_slots].
  destruct (frame_chunk_spec 15 m slot ltac:(lia)) as (s' & -> & _).
  by rewrite Z.shiftr_div_pow2, Z.div_small by lia.
Qed.

Lemma frame_slots_cont m slot rest :
  0 <= m < 2 ^ 15 ->
  frame_slots (Z.lor m BITMASK_CONT :: rest) slot
  = let! more := frame_slots rest (slot + 15) in Ok (bits_from 15 m slot ++ more).
Proof.
  intros Hm. assert (E : Z.lor m BITMASK_CONT = m + 1 * 2 ^ 15).
  { change BITMASK_CONT with (Z.shiftl 1 15). by rewrite shiftl_lor_add by lia. }
  cbn [frame_slots].
  destruct (frame_chunk_spec 15 (Z.lor m BITMASK_CONT) slot ltac:(lia)) as (s' & -> & Hs').
  assert (Hr : Z.shiftr (Z.lor m BITMASK_CONT) (Z.of_nat 15) = 1).
  { rewrite E, Z.shiftr_div_pow2 by lia. change (Z.of_nat 15) with 15.
    rewrite Z.div_add, Z.div_small by lia. done. }
  rewrite Hr in *. cbn [Z.eqb Pos.eqb]. rewrite Hs' by lia. f_equal.
  by rewrite (bits_from_ext 15 (Z.lor m BITMASK_CONT) m); [|intros i Hi;
    rewrite Z.lor_spec; change BITMASK_CONT with (2 ^ 15);
    rewrite Z.pow2_bits_false, orb_false_r by lia].
Qed.

(** ** Encoding and its readers agree *)

Lemma BITMASK_MASK_ones : BITMASK_MASK = Z.ones 15.
Proof. done. Qed.

Lemma u2_land_mask m : u2 (Z.land m BITMASK_MASK) = m mod 2 ^ 15.
Proof.
  rewrite BITMASK_MASK_ones, Z.land_ones by lia. unfold u2. apply to_u_id.
  pose proof (Z.mod_pos_bound m (2 ^ 15)). lia.
Qed.

Lemma testbit_low_chunk m i : 0 <= i < 15 -> Z.testbit (m mod 2 ^ 15) i = Z.testbit m i.
Proof. intros. apply Z.mod_pow2_bits_low. lia. Qed.

Lemma bits_from_low m slot : bits_from 15 (m mod 2 ^ 15) slot = bits_from 15 m slot.
Proof. apply bits_from_ext. intros. apply testbit_low_chunk. lia. Qed.

Lemma shiftr_chunk_bound k m :
  0 <= m < 2 ^ (15 * Z.of_nat (S k)) -> 0 <= Z.shiftr m 15 < 2 ^ (15 * Z.of_nat k).
Proof.
  intros Hm. replace (15 * Z.of_nat (S k)) with (15 + 15 * Z.of_nat k) in Hm by lia.
  rewrite Z.pow_add_r in Hm by lia. rewrite Z.shiftr_div_pow2 by lia.
  split; [apply Z.div_pos; lia|]. apply Z.div_lt_upper_bound; lia.
Qed.

Lemma encode_loop_frame k m slot rest :
  0 <= m < 2 ^ (15 * Z.of_nat k) -> (0 < k)%nat ->
  frame_slots (encodeBitmask_loop k m ++ rest) slot = Ok (bits_from (15 * k) m slot).
Proof.
  revert m slot. induction k as [|k IH]; intros m slot Hm Hk; [lia|].
  cbn [encodeBitmask_loop app]. rewrite u2_land_mask.
  pose proof (Z.mod_pos_bound m (2 ^ 15)).
  destruct k as [|k].
  - cbn [Nat.ltb Nat.leb]. rewrite frame_slots_last by lia. by rewrite bits_from_low.
  - change (0 <? S k)%nat with true. cbv iota.
    rewrite frame_slots_cont, IH by (lia || by apply shiftr_chunk_bound).
    cbn [obind]. rewrite bits_from_low.
    replace (15 * S (S k))%nat with (15 + 15 * S k)%nat by lia.
    by rewrite bits_from_app.
Qed.

Lemma bits_from_more n k m slot :
  0 <= m < 2 ^ Z.of_nat n -> bits_from (n + k) m slot = bits_from n m slot.
Proof.
  intros Hm. rewrite bits_from_app, Z.shiftr_div_pow2, Z.div_small by lia.
  by rewrite bits_from_zero, app_nil_r.
Qed.

Lemma bitmapSize_spec m :
  0 <= m < 2 ^ 32 -> (0 < bitmapSize m <= 3)%nat /\ m < 2 ^ (15 * Z.of_nat (bitmapSize m)).
Proof.
  intros Hm. unfold bitmapSize. rewrite !Z.shiftl_1_l.
  destruct (Z.ltb_spec m (2 ^ 15)); [cbn; lia|].
  destruct (Z.ltb_spec m (2 ^ 30)); cbn; lia.
Qed.

Lemma set_bits_chunks m :
  0 <= m < 2 ^ 32 -> bits_from (15 * bitmapSize m) m 0 = set_bits m.
Proof.
  intros Hm. pose proof (bitmapSize_spec m Hm) as [Hk Hlt]. unfold set_bits.
  destruct (bitmapSize m) as [|[|[|[|]]]]; [lia| | | |lia].
  - by rewrite (bits_from_more 15 17) by lia.
  - by rewrite (bits_from_more 30 2) by lia.
  - by rewrite (bits_from_more 32 13) by lia.
Qed.

Lemma encodeBitmask_frame m rest :
  0 <= m < 2 ^ 32 -> frame_slots (encodeBitmask m ++ rest) 0 = Ok (set_bits m).
Proof.
  intros Hm. pose proof (bitmapSize_spec m Hm) as [Hk Hlt].
  unfold encodeBitmask. rewrite encode_loop_frame by lia. by rewrite set_bits_chunks.
Qed.

Lemma topOfStack_frame m :
  0 <= m < 2 ^ 32 -> frame_slots (topOfStack_chunks m) 0 = Ok (set_bits m).
Proof.
  intros Hm. unfold topOfStack_chunks.
  change 0x7fff with BITMASK_MASK. change 0x8000 with BITMASK_CONT. rewrite !u2_land_mask.
  set (m1 := Z.shiftr m 15). set (m2 := Z.shiftr m 30).
  assert (Hm2 : 0 <= m2 < 4).
  { unfold m2. rewrite Z.shiftr_div_pow2 by lia.
    split; [apply Z.div_pos; lia|apply Z.div_lt_upper_bound; lia]. }
  unfold u2. rewrite (to_u_id 16 m2) by lia.
  assert (E2 : Z.shiftr m1 15 = m2) by (unfold m1, m2; by rewrite Z.shiftr_shiftr by lia).
  assert (Hset : set_bits m = bits_from 15 m 0 ++ bits_from 15 m1 15 ++ bits_from 2 m2 30).
  { unfold set_bits. change 32%nat with (15 + (15 + 2))%nat.
    by rewrite !bits_from_app, Z.shiftr_shiftr by lia. }
  pose proof (Z.mod_pos_bound m (2 ^ 15)). pose proof (Z.mod_pos_bound m1 (2 ^ 15)).
  assert (H1 : 0 <= m1) by (apply Z.shiftr_nonneg; lia).
  destruct (Z.eqb_spec m2 0) as [Hz2|Hz2]; cbn [negb].
  - assert (Hsm : m1 mod 2 ^ 15 = m1).
    { apply Z.mod_small. split; [done|].
      rewrite Z.shiftr_div_pow2 in E2 by lia.
      destruct (Z_lt_le_dec m1 (2 ^ 15)) as [|Hge]; [done|].
      apply Z.div_le_mono with (c := 2 ^ 15) in Hge; [|lia].
      rewrite Z.div_same in Hge by lia. lia. }
    rewrite Hsm in *.
    destruct (Z.eqb_spec m1 0) as [Hz1|Hz1]; cbn [negb].
    + rewrite frame_slots_last, bits_from_low by lia.
      rewrite Hset, Hz1, Hz2, !bits_from_zero. by rewrite app_nil_r.
    + rewrite frame_slots_cont, frame_slots_last, bits_from_low by lia. cbn [obind].
      rewrite Hset, Hz2, bits_from_zero. by rewrite app_nil_r.
  - assert (Hne : Z.lor (m1 mod 2 ^ 15) BITMASK_CONT <> 0).
    { change BITMASK_CONT with (Z.shiftl 1 15). rewrite shiftl_lor_add by lia. lia. }
    apply Z.eqb_neq in Hne. rewrite Hne. cbn [negb].
    rewrite !frame_slots_cont, frame_slots_last, !bits_from_low by lia. cbn [obind].
    rewrite Hset. do 3 f_equal. by rewrite (bits_from_more 2 13) by lia.
Qed.

(** ** The disassembler's double reader *)

Lemma inline_chunk_spec n p l reg :
  inline_chunk n p l reg
  = (map (fun r => (r, Z.testbit p (r - reg))) (bits_from n l reg),
     Z.shiftr p (Z.of_nat n), Z.shiftr l (Z.of_nat n)).
Proof.
  revert p l reg. induction n as [|n IH]; intros; [cbn; by rewrite !Z.shiftr_0_r|].
  cbn [inline_chunk]. rewrite IH, bits_from_S, !land_1_testbit, map_app.
  assert (E : map (fun r => (r, Z.testbit (Z.shiftr p 1) (r - (reg + 1))))
                (bits_from n (Z.shiftr l 1) (reg + 1))
            = map (fun r => (r, Z.testbit p (r - reg)))
                (bits_from n (Z.shiftr l 1) (reg + 1))).
  { apply map_ext_in. intros r Hr. apply list_elem_of_In, elem_of_bits_from in Hr as [Hr _].
    rewrite Z.shiftr_spec by lia. do 2 f_equal. lia. }
  rewrite E, !Z.shiftr_shiftr by lia.
  replace (1 + Z.of_nat n) with (Z.of_nat (S n)) by lia.
  destruct (Z.testbit l 0); cbn [negb map app]; [|done].
  by rewrite Z.sub_diag, negb_involutive.
Qed.

(** The chunk a reader holds when [k] chunks of [m] are left. *)
Definition chunk_hd (k : nat) (m : Z) : Z :=
  match k with O => 0 | S _ => hd 0 (encodeBitmask_loop k m) end.

Lemma chunk_hd_S k m :
  chunk_hd (S k) m = m mod 2 ^ 15 + (if (0 <? k)%nat then 2 ^ 15 else 0).
Proof.
  unfold chunk_hd. cbn [encodeBitmask_loop hd]. rewrite u2_land_mask.
  pose proof (Z.mod_pos_bound m (2 ^ 15)).
  destruct k; [cbn; lia|]. change (0 <? S k)%nat with true. cbv iota.
  change BITMASK_CONT with (Z.shiftl 1 15). rewrite shiftl_lor_add by lia. lia.
Qed.

Lemma chunk_hd_low k m i :
  0 <= m < 2 ^ (15 * Z.of_nat k) -> 0 <= i < 15 ->
  Z.testbit (chunk_hd k m) i = Z.testbit m i.
Proof.
  intros Hm Hi. destruct k as [|k].
  - assert (m = 0) as -> by (cbn in Hm; lia). done.
  - rewrite chunk_hd_S, <- testbit_low_chunk by done.
    rewrite <- (testbit_low_chunk m) by done. f_equal.
    case_match; [|by rewrite Z.add_0_r, Z.mod_mod by lia].
    replace (m mod 2 ^ 15 + 2 ^ 15) with (m mod 2 ^ 15 + 1 * 2 ^ 15) by lia.
    by rewrite Z.mod_add, Z.mod_mod by lia.
Qed.

Lemma chunk_hd_rest k m :
  Z.shiftr (chunk_hd k m) 15 = if (1 <? k)%nat then 1 else 0.
Proof.
  destruct k as [|k]; [done|]. rewrite chunk_hd_S, Z.shiftr_div_pow2 by lia.
  pose proof (Z.mod_pos_bound m (2 ^ 15)).
  destruct k; cbn [Nat.ltb Nat.leb].
  - rewrite Z.add_0_r. apply Z.div_small. lia.
  - replace (m mod 2 ^ 15 + 2 ^ 15) with (m mod 2 ^ 15 + 1 * 2 ^ 15) by lia.
    by rewrite Z.div_add, Z.div_small by lia.
Qed.

Lemma skip_bitmap_encode k m rest :
  0 <= m < 2 ^ (15 * Z.of_nat k) -> (0 < k)%nat ->
  skip_bitmap (encodeBitmask_loop k m ++ rest) = rest.
Proof.
  revert m. induction k as [|k IH]; intros m Hm Hk; [lia|].
  assert (Hhd : forall rest', encodeBitmask_loop (S k) m ++ rest'
          = chunk_hd (S k) m :: encodeBitmask_loop k (Z.shiftr m 15) ++ rest') by done.
  rewrite Hhd. cbn [skip_bitmap].
  assert (Hbit : Z.land (chunk_hd (S k) m) 0x8000
                 = if (0 <? k)%nat then 0x8000 else 0).
  { apply Z.bits_inj'. intros i Hi. rewrite Z.land_spec. change 0x8000 with (2 ^ 15).
    rewrite Z.pow2_bits_eqb by lia. destruct (Z.eqb_spec 15 i) as [<-|Hne].
    - rewrite andb_true_r. pose proof (chunk_hd_rest (S k) m) as Hr.
      apply (f_equal (fun z => Z.testbit z 0)) in Hr.
      cbn beta in Hr. rewrite Z.shiftr_spec in Hr by lia.
      change (0 + 15) with 15 in Hr. rewrite Hr. by destruct k.
    - rewrite andb_false_r. case_match; [|by rewrite Z.testbit_0_l].
      by rewrite Z.pow2_bits_false by lia. }
  rewrite Hbit. destruct k as [|k]; [done|].
  change (0 <? S k)%nat with true. cbv iota. change (0x8000 =? 0) with false. cbv iota.
  apply IH; [|lia]. by apply shiftr_chunk_bound.
Qed.

(** The tail of the stream after the chunk in hand. *)
Definition chunk_tl (k : nat) (m : Z) : list Z := tl (encodeBitmask_loop k m).

(** Reading one chunk leaves the stream of the mask shifted by 15. *)
Lemma chunk_next k m rest :
  chunk_tl (S (S k)) m ++ rest
  = chunk_hd (S k) (Z.shiftr m 15) :: chunk_tl (S k) (Z.shiftr m 15) ++ rest.
Proof. done. Qed.

Definition tagged (p : Z) (k : nat) (l reg : Z) : list (Z * bool) :=
  map (fun r => (r, Z.testbit p (r - reg))) (bits_from k l reg).

Lemma tagged_split p k l reg :
  tagged p 15 l reg ++ tagged (Z.shiftr p 15) k (Z.shiftr l 15) (reg + 15)
  = tagged p (15 + k) l reg.
Proof.
  unfold tagged. rewrite bits_from_app, map_app. f_equal.
  apply map_ext_in. intros r Hr. apply list_elem_of_In, elem_of_bits_from in Hr as [Hr _].
  rewrite Z.shiftr_spec by lia. do 2 f_equal. lia.
Qed.

Lemma tagged_ext p p' k l l' reg :
  (forall i, 0 <= i < Z.of_nat k -> Z.testbit p i = Z.testbit p' i) ->
  (forall i, 0 <= i < Z.of_nat k -> Z.testbit l i = Z.testbit l' i) ->
  tagged p k l reg = tagged p' k l' reg.
Proof.
  intros Hp Hl. unfold tagged. rewrite (bits_from_ext k l l') by done.
  apply map_ext_in. intros r Hr. apply list_elem_of_In, elem_of_bits_from in Hr as [Hr _].
  by rewrite Hp by lia.
Qed.

Lemma tagged_zero p k reg : tagged p k 0 reg = [].
Proof. unfold tagged. by rewrite bits_from_zero. Qed.

Lemma inline_walk_spec fuel kp kl p l reg rp rl :
  0 <= p < 2 ^ (15 * Z.of_nat kp) -> 0 <= l < 2 ^ (15 * Z.of_nat kl) ->
  (kp <= fuel)%nat -> (kl <= fuel)%nat -> (0 < fuel)%nat ->
  inline_walk fuel (chunk_hd kp p) (chunk_hd kl l) (chunk_tl kp p ++ rp)
    (chunk_tl kl l ++ rl) reg = Ok (tagged p (15 * kl) l reg).
Proof.
  revert kp kl p l reg.
  induction fuel as [|fuel IH]; intros kp kl p l reg Hp Hl Hkp Hkl Hf; [lia|].
  cbn [inline_walk]. rewrite inline_chunk_spec. change (Z.of_nat 15) with 15.
  rewrite !chunk_hd_rest.
  change (map (fun r => (r, Z.testbit (chunk_hd kp p) (r - reg)))
              (bits_from 15 (chunk_hd kl l) reg))
    with (tagged (chunk_hd kp p) 15 (chunk_hd kl l) reg).
  rewrite (tagged_ext _ p 15 _ l) by (intros; apply chunk_hd_low; done || lia).
  assert (Hone : forall k q, (k <= 1)%nat -> 0 <= q < 2 ^ (15 * Z.of_nat k) ->
                 Z.shiftr q 15 = 0 /\ tagged p (15 * k) q reg = tagged p 15 q reg).
  { intros [|[|]] q ? Hq; [|by rewrite Z.shiftr_div_pow2, Z.div_small by lia|lia].
    cbn in Hq. assert (q = 0) as -> by lia. by rewrite !tagged_zero. }
  destruct kp as [|[|kp]], kl as [|[|kl]]; cbn [Nat.ltb Nat.leb Z.eqb andb];
    try (f_equal; symmetry; apply Hone; done || lia).
  - (* only the live mask goes on *)
    rewrite chunk_next. cbn [obind].
    rewrite (IH 0%nat (S kl) 0 (Z.shiftr l 15)) by (done || lia || apply shiftr_chunk_bound; lia).
    cbn [obind]. f_equal. replace (15 * S (S kl))%nat with (15 + 15 * S kl)%nat by lia.
    rewrite <- tagged_split. do 2 f_equal. symmetry. apply (Hone 0%nat p); done || lia.
  - rewrite chunk_next. cbn [obind].
    change (chunk_tl 1 p) with (chunk_tl 0 0).
    rewrite (IH 0%nat (S kl) 0 (Z.shiftr l 15)) by (done || lia || apply shiftr_chunk_bound; lia).
    cbn [obind]. f_equal. replace (15 * S (S kl))%nat with (15 + 15 * S kl)%nat by lia.
    rewrite <- tagged_split. do 2 f_equal. symmetry. apply (Hone 1%nat p); done || lia.
  - rewrite chunk_next. cbn [obind].
    rewrite (IH (S kp) 0%nat (Z.shiftr p 15) 0) by (done || lia || apply shiftr_chunk_bound; lia).
    cbn [obind]. rewrite tagged_zero, app_nil_r. f_equal. symmetry. apply (Hone 0%nat l); done || lia.
  - rewrite chunk_next. cbn [obind]. change (chunk_tl 1 l) with (chunk_tl 0 0).
    rewrite (IH (S kp) 0%nat (Z.shiftr p 15) 0) by (done || lia || apply shiftr_chunk_bound; lia).
    cbn [obind]. by rewrite tagged_zero, app_nil_r.
  - rewrite !chunk_next. cbn [obind].
    rewrite (IH (S kp) (S kl)) by (lia || apply shiftr_chunk_bound; lia).
    cbn [obind]. f_equal. replace (15 * S (S kl))%nat with (15 + 15 * S kl)%nat by lia.
    by rewrite <- tagged_split.
Qed.

Lemma encode_loop_stream k m rest :
  (0 < k)%nat ->
  encodeBitmask_loop k m ++ rest = chunk_hd k m :: chunk_tl k m ++ rest.
Proof. by destruct k; [lia|]. Qed.

(** The disassembler recovers from the two encoded masks which
    registers are live and which of them are pointers. *)
Lemma printInlineBitmaps_encode ptrs lives rest :
  0 <= ptrs < 2 ^ 32 -> 0 <= lives < 2 ^ 32 ->
  printInlineBitmaps 3 (encodeBitmask ptrs ++ encodeBitmask lives ++ rest)
  = Ok (map (fun r => (r, Z.testbit ptrs r)) (set_bits lives)).
Proof.
  intros Hp Hl.
  pose proof (bitmapSize_spec ptrs Hp) as [Hkp Hp'].
  pose proof (bitmapSize_spec lives Hl) as [Hkl Hl'].
  unfold printInlineBitmaps, encodeBitmask.
  pose proof (skip_bitmap_encode (bitmapSize ptrs) ptrs
                (encodeBitmask_loop (bitmapSize lives) lives ++ rest) ltac:(lia) ltac:(lia)) as Hs.
  rewrite (encode_loop_stream (bitmapSize ptrs)) in Hs |- * by lia. rewrite Hs.
  rewrite encode_loop_stream by lia.
  rewrite (inline_walk_spec 3 _ _ ptrs lives) by lia.
  unfold tagged. rewrite set_bits_chunks by done. f_equal.
  apply map_ext. intros r. by rewrite Z.sub_0_r.
Qed.

(** Chunks are 16-bit values. *)
Lemma encodeBitmask_loop_u2 k m : Forall (fun w => 0 <= w < 2 ^ 16) (encodeBitmask_loop k m).
Proof.
  revert m. induction k as [|k IH]; intros m; cbn [encodeBitmask_loop]; [done|].
  constructor; [|done]. rewrite u2_land_mask.
  pose proof (Z.mod_pos_bound m (2 ^ 15)). case_match; [|lia].
  apply lor_bound; [lia..|]. by vm_compute.
Qed.

Lemma encodeBitmask_u2 m : map (fun w => w mod 2 ^ 16) (encodeBitmask m) = encodeBitmask m.
Proof.
  rewrite <- (map_id (encodeBitmask m)) at 2. apply map_ext_Forall.
  eapply Forall_impl; [apply encodeBitmask_loop_u2|]. cbn. intros w Hw. by apply Z.mod_small.
Qed.

Lemma length_encodeBitmask m : length (encodeBitmask m) = bitmapSize m.
Proof.
  unfold encodeBitmask. generalize (bitmapSize m) as k. intros k. revert m.
  induction k; intros m; cbn; [done|]. by rewrite IHk.
Qed.

Lemma bitmapSize_le m : (bitmapSize m <= 3)%nat.
Proof. unfold bitmapSize. repeat case_match; lia. Qed.
