(* ===== verification/Objects.v ===== *)
(** * Heap objects ([objects.hh], [objects.cc])

    Closures, info tables, code objects and the list of large objects,
    over the memory the virtual machine works on.  The memory has the
    64-bit words of stack and heap, the info tables (which the running
    program only reads) and the 32-bit words of the bytecode segments,
    each indexed by byte address. *)

From S2P Require Import Prelude Words Bytecode.

(** ** Types of objects *)

Inductive ClosureType :=
| INVALID_OBJECT | CONSTR | FUN | THUNK | IND | CAF | PAP | LARGE | AP_CONT
| STATIC_IND | UPDATE_FRAME | BLACKHOLE.

#[export] Instance ClosureType_eq_dec : EqDecision ClosureType.
Proof. solve_decision. Defined.

Definition ClosureType_num (t : ClosureType) : Z :=
  match t with
  | INVALID_OBJECT => 0 | CONSTR => 1 | FUN => 2 | THUNK => 3 | IND => 4 | CAF => 5
  | PAP => 6 | LARGE => 7 | AP_CONT => 8 | STATIC_IND => 9 | UPDATE_FRAME => 10
  | BLACKHOLE => 11
  end.

Definition CF____ : Z := 0.
Definition CF_HNF : Z := Z.shiftl 1 0.
Definition CF_THU : Z := Z.shiftl 1 1.
Definition CF_IND : Z := Z.shiftl 1 2.

(** The table [closureFlags], the second column of [CTDEF]. *)
Definition closureFlags (t : ClosureType) : Z :=
  match t with
  | INVALID_OBJECT | UPDATE_FRAME | BLACKHOLE => CF____
  | CONSTR | FUN | PAP | LARGE | AP_CONT => CF_HNF
  | THUNK | CAF => CF_THU
  | IND | STATIC_IND => CF_IND
  end.

Inductive LitType :=
| LIT_INT | LIT_STRING | LIT_CHAR | LIT_WORD | LIT_FLOAT | LIT_CLOSURE | LIT_INFO | LIT_PC.

#[export] Instance LitType_eq_dec : EqDecision LitType.
Proof. solve_decision. Defined.

(** [struct _Code]; [lits] and [code] are addresses. *)
Record Code := mkCode {
  framesize : Z;
  arity : Z;
  sizecode : Z;
  sizelits : Z;
  sizebitmaps : Z;
  lits : Z;
  littypes : list Z;
  code : Z
}.

(** [class InfoTable] and its subclass [CodeInfoTable]: [it_code] is
    present exactly for the latter. *)
Record InfoTable := mkInfoTable {
  it_type : ClosureType;
  it_size : Z;
  it_tagOrBitmap : Z;
  it_bitmap : Z;
  it_name : string;
  it_code : option Code
}.

(** [InfoTable::hasCode] *)
Definition kHasCodeBitmap : Z :=
  Z.lor (Z.lor (Z.lor (Z.lor (Z.lor
    (Z.shiftl 1 (ClosureType_num FUN)) (Z.shiftl 1 (ClosureType_num THUNK)))
    (Z.shiftl 1 (ClosureType_num CAF))) (Z.shiftl 1 (ClosureType_num AP_CONT)))
    (Z.shiftl 1 (ClosureType_num UPDATE_FRAME))) (Z.shiftl 1 (ClosureType_num PAP)).
Definition hasCode (info : InfoTable) : bool :=
  negb (Z.land kHasCodeBitmap (Z.shiftl 1 (ClosureType_num (it_type info))) =? 0).

(** ** Memory *)

Record memory := mkMemory {
  words : gmap Z Z;
  itbls : gmap Z InfoTable;
  bytecode : gmap Z Z
}.

Definition is_aligned (a n : Z) : bool := a mod n =? 0.

Definition load (m : memory) (a : Z) : outcome Z :=
  if is_aligned a 8 then of_option WildAccess (words m !! a) else Err UndefinedOp.
Definition store (m : memory) (a v : Z) : memory :=
  mkMemory (<[a := v]> (words m)) (itbls m) (bytecode m).

(** A byte or narrower integer inside a word, little endian. *)
Definition load_sub (m : memory) (a nbytes : Z) : outcome Z :=
  if is_aligned a nbytes then
    let! w := load m (a - a mod 8) in
    Ok (Z.shiftr w (8 * (a mod 8)) mod 2 ^ (8 * nbytes))
  else Err UndefinedOp.
Definition store_sub (m : memory) (a nbytes v : Z) : outcome memory :=
  if is_aligned a nbytes then
    let base := a - a mod 8 in
    let sh := 8 * (a mod 8) in
    let! w := load m base in
    let hole := Z.ldiff w (Z.shiftl (Z.ones (8 * nbytes)) sh) in
    Ok (store m base (Z.lor hole (Z.shiftl (v mod 2 ^ (8 * nbytes)) sh)))
  else Err UndefinedOp.

Definition info_at (m : memory) (a : Z) : outcome InfoTable :=
  of_option WildAccess (itbls m !! a).

(** Instruction words, and the bytes and half words inside them. *)
Definition load_ins (m : memory) (a : Z) : outcome Z :=
  of_option WildAccess (bytecode m !! a).
Definition load_ins_u1 (m : memory) (a : Z) : outcome Z :=
  let! w := load_ins m (a - a mod 4) in
  Ok (Z.shiftr w (8 * (a mod 4)) mod 2 ^ 8).
Definition load_ins_u2 (m : memory) (a : Z) : outcome Z :=
  let! w := load_ins m (a - a mod 4) in
  Ok (Z.shiftr w (8 * (a mod 4)) mod 2 ^ 16).

Lemma load_store_eq m a v : is_aligned a 8 = true -> load (store m a v) a = Ok v.
Proof. intros H. unfold load. rewrite H. cbn. by rewrite lookup_insert_eq. Qed.

Lemma load_store_ne m a b v : a <> b -> load (store m a v) b = load m b.
Proof. intros H. unfold load. cbn. by rewrite lookup_insert_ne. Qed.

Lemma load_aligned m a v : load m a = Ok v -> is_aligned a 8 = true.
Proof. unfold load. by case_match. Qed.

Create HintDb memory discriminated.

(** [load_store] evaluates loads over stores, deciding with [lia]
    whether the addresses coincide. *)
Ltac load_store_step :=
  match goal with
  | |- context [load (store ?m ?a ?v) ?b] =>
      first
        [ constr_eq a b; rewrite (load_store_eq m a v) by auto with memory
        | rewrite (load_store_ne m a b v) by lia
        | replace b with a by lia; rewrite (load_store_eq m a v) by auto with memory ]
  end.
Ltac load_store := repeat load_store_step.

(** ** Closures *)

Definition sizeof_Word : Z := 8.

Definition closure_info_addr (m : memory) (cl : Z) : outcome Z := load m cl.
Definition closure_info (m : memory) (cl : Z) : outcome InfoTable :=
  let! i := load m cl in info_at m i.
Definition payload (m : memory) (cl i : Z) : outcome Z := load m (cl + 8 + 8 * i).
Definition setInfo (m : memory) (cl info : Z) : memory := store m cl info.
Definition setPayload (m : memory) (cl i v : Z) : memory := store m (cl + 8 + 8 * i) v.

Definition isIndirection (m : memory) (cl : Z) : outcome bool :=
  let! info := closure_info m cl in
  Ok (negb (Z.land (closureFlags (it_type info)) CF_IND =? 0)).
Definition isHNF (m : memory) (cl : Z) : outcome bool :=
  let! info := closure_info m cl in
  Ok (negb (Z.land (closureFlags (it_type info)) CF_HNF =? 0)).
Definition tag (m : memory) (cl : Z) : outcome Z :=
  let! info := closure_info m cl in
  assert! bool_decide (it_type info = CONSTR) in
  Ok (it_tagOrBitmap info).

(** The loop [while (cl->isIndirection()) cl = cl->payload(0)], which
    [isConstructor], EVAL, CALL and CALLT share. *)
Fixpoint followIndirections (fuel : nat) (m : memory) (cl : Z) : outcome Z :=
  match fuel with
  | O => Err OutOfFuel
  | S fuel' =>
      let! ind := isIndirection m cl in
      if ind then
        let! next := payload m cl 0 in followIndirections fuel' m next
      else Ok cl
  end.

Definition isConstructor (fuel : nat) (m : memory) (cl : Z) : outcome bool :=
  let! cl := followIndirections fuel m cl in
  let! info := closure_info m cl in
  Ok (bool_decide (it_type info = CONSTR)).

(** ** Partial applications: [struct _PapClosure] *)

(** [info_] packs [nargs_] in the low and [pointerMask_] in the high
    half of one word. *)
Definition PAP_INFO_OFFSET : Z := 8.
Definition PAP_FUNCTION_OFFSET : Z := 16.
Definition PAP_PAYLOAD_OFFSET : Z := 24.
(** [wordsof(PapClosure)] *)
Definition wordsof_PapClosure : Z := 3.
Definition wordsof_ClosureHeader : Z := 1.

Definition pap_init (m : memory) (pap info ptrMask nargs fn : Z) : memory :=
  store (store (store m pap info) (pap + PAP_INFO_OFFSET)
    (Z.lor (u4 nargs) (Z.shiftl (u4 ptrMask) 32))) (pap + PAP_FUNCTION_OFFSET) fn.
Definition pap_nargs (m : memory) (pap : Z) : outcome Z :=
  let! w := load m (pap + PAP_INFO_OFFSET) in Ok (u4 w).
Definition pap_pointerMask (m : memory) (pap : Z) : outcome Z :=
  let! w := load m (pap + PAP_INFO_OFFSET) in Ok (u4 (Z.shiftr w 32)).
Definition pap_fun (m : memory) (pap : Z) : outcome Z := load m (pap + PAP_FUNCTION_OFFSET).
Definition pap_payload (m : memory) (pap i : Z) : outcome Z :=
  load m (pap + PAP_PAYLOAD_OFFSET + 8 * i).
Definition pap_setPayload (m : memory) (pap i v : Z) : memory :=
  store m (pap + PAP_PAYLOAD_OFFSET + 8 * i) v.

Lemma aligned_add a k : is_aligned a 8 = true -> is_aligned (a + 8 * k) 8 = true.
Proof.
  unfold is_aligned. rewrite !Z.eqb_eq. intros H.
  by rewrite (Z.mul_comm 8), Z.mod_add by lia.
Qed.

Lemma pap_init_fields m pap info ptrMask nargs fn :
  is_aligned pap 8 = true ->
  let m' := pap_init m pap info ptrMask nargs fn in
  load m' pap = Ok info /\ pap_nargs m' pap = Ok (u4 nargs)
  /\ pap_pointerMask m' pap = Ok (u4 ptrMask) /\ pap_fun m' pap = Ok fn.
Proof.
  intros Ha m'. subst m'.
  pose proof (aligned_add pap 1 Ha) as Ha1. pose proof (aligned_add pap 2 Ha) as Ha2.
  cbn [Z.mul Pos.mul] in Ha1, Ha2.
  unfold pap_init, pap_nargs, pap_pointerMask, pap_fun, PAP_INFO_OFFSET, PAP_FUNCTION_OFFSET.
  load_store. cbn [obind].
  pose proof (to_u_bound 32 ltac:(lia) nargs) as Hn. unfold u4.
  rewrite shiftl_lor_add by lia. split_and!; [done| |  |done]; f_equal.
  - unfold to_u at 1. rewrite Z.mod_add by lia. by apply (to_u_idemp 32).
  - rewrite Z.shiftr_div_pow2, Z.div_add, Z.div_small by lia. by apply (to_u_idemp 32).
Qed.

(** ** The list of large objects *)

(** Field offsets of [struct _LargeObject]. *)
Definition LO_prev : Z := 0.
Definition LO_next : Z := 8.
Definition LO_flags : Z := 16.
Definition LO_payloadSize : Z := 24.
Definition LO_header : Z := 32.
(** [sizeof(LargeObject)]: four fields and the closure header. *)
Definition sizeof_LargeObject : Z := 40.

Definition closureFromLargeObject (lobj : Z) : Z := lobj + LO_header.
Definition largeObjectFromClosure (c : Z) : Z := c - LO_header.

Definition getMark (m : memory) (obj : Z) : outcome bool :=
  let! f := load m (obj + LO_flags) in Ok (negb (Z.land f 1 =? 0)).
Definition setMark (m : memory) (obj : Z) : outcome memory :=
  let! f := load m (obj + LO_flags) in Ok (store m (obj + LO_flags) (Z.lor f 1)).
Definition clearMark (m : memory) (obj : Z) : outcome memory :=
  let! f := load m (obj + LO_flags) in
  Ok (store m (obj + LO_flags) (Z.land f (u8 (Z.lnot 1)))).

(** The head pointer [*list] is passed in and returned. *)
Definition linkLargeObject (m : memory) (obj list : Z) : memory * Z :=
  let m := store m (obj + LO_next) list in
  let m := store m (obj + LO_prev) 0 in
  let m := if negb (list =? 0) then store m (list + LO_prev) obj else m in
  (m, obj).

Definition unlinkLargeObject (m : memory) (obj list : Z) : outcome (memory * Z) :=
  let! prev := load m (obj + LO_prev) in
  let! next := load m (obj + LO_next) in
  let '(m, list) := if negb (prev =? 0) then (store m (prev + LO_next) next, list)
                    else (m, next) in
  let! next' := load m (obj + LO_next) in
  if negb (next' =? 0) then
    let! prev' := load m (obj + LO_prev) in
    Ok (store m (next' + LO_prev) prev', list)
  else Ok (m, list).

(** [seg m prev head objs last out]: from [head], following [next_]
    visits exactly [objs] and arrives at [out]; the back pointers lead
    to [prev] and the final object is [last]. *)
Fixpoint seg (m : memory) (prev head : Z) (objs : list Z) (last out : Z) : Prop :=
  match objs with
  | [] => head = out /\ prev = last
  | o :: os =>
      head = o /\ o <> 0 /\ load m (o + LO_prev) = Ok prev
      /\ exists next, load m (o + LO_next) = Ok next /\ seg m o next os last out
  end.

(** A complete list is a segment that ends in the null pointer. *)
Definition dll (m : memory) (prev head : Z) (objs : list Z) : Prop :=
  exists last, seg m prev head objs last 0.

Lemma seg_app m prev head l1 l2 last out :
  seg m prev head (l1 ++ l2) last out <->
  exists q mid, seg m prev head l1 q mid /\ seg m q mid l2 last out.
Proof.
  revert prev head. induction l1 as [|o l1 IH]; intros prev head; cbn.
  - split; [eauto 10|]. by intros (? & ? & (-> & ->) & ?).
  - split.
    + intros (-> & Ho & Hp & n & Hn & (q & mid & H1 & H2)%IH). eauto 15.
    + intros (q & mid & (-> & Ho & Hp & n & Hn & H1) & H2).
      split_and!; [done..|]. exists n. split; [done|]. apply IH. eauto.
Qed.

(** Distinct objects do not overlap. *)
Definition apart (o : Z) (os : list Z) : Prop :=
  Forall (fun x => sizeof_LargeObject <= Z.abs (x - o)) os.
Fixpoint disjoint_objs (objs : list Z) : Prop :=
  match objs with
  | [] => True
  | o :: os => apart o os /\ disjoint_objs os
  end.

(** A segment is not disturbed by a store into a word that none of its
    link fields occupies. *)
Lemma seg_store m a v prev head objs last out :
  Forall (fun o => a <> o + LO_prev /\ a <> o + LO_next) objs ->
  seg m prev head objs last out -> seg (store m a v) prev head objs last out.
Proof.
  revert prev head. induction objs as [|o os IH]; intros prev head Hf Hd; [done|].
  apply Forall_cons in Hf as [[Hp Hn] Hf].
  destruct Hd as (-> & Ho & Hprev & next & Hnext & Hd).
  cbn. rewrite !load_store_ne by done. eauto 10.
Qed.

Lemma apart_fields o os k :
  apart o os -> 0 <= k < 32 ->
  Forall (fun x => o + k <> x + LO_prev /\ o + k <> x + LO_next) os.
Proof.
  intros H Hk. eapply Forall_impl; [exact H|]. cbn.
  unfold sizeof_LargeObject, LO_prev, LO_next. lia.
Qed.

(** Linking pushes the object on the front. *)
Lemma linkLargeObject_dll m obj list objs :
  is_aligned obj 8 = true -> obj <> 0 ->
  dll m 0 list objs -> disjoint_objs (obj :: objs) ->
  Forall (fun o => is_aligned o 8 = true) objs ->
  let '(m', list') := linkLargeObject m obj list in
  list' = obj /\ dll m' 0 list' (obj :: objs).
Proof.
  intros Ha Hnz [last Hd] [Hap Hdis] Hal. unfold linkLargeObject. split; [done|].
  pose proof (aligned_add obj 1 Ha) as Ha1. pose proof (aligned_add obj 0 Ha) as Ha0.
  assert (Hn := apart_fields _ _ LO_next Hap ltac:(unfold LO_next; lia)).
  assert (Hp := apart_fields _ _ LO_prev Hap ltac:(unfold LO_prev; lia)).
  destruct objs as [|o os]; cbn [seg] in Hd.
  - destruct Hd as [-> _]. exists obj. cbn. unfold LO_next, LO_prev in *. load_store.
    split_and!; [done..|]. by exists 0.
  - destruct Hd as (-> & Ho & Hprev & next & Hnext & Hd). exists last.
    apply Z.eqb_neq in Ho as Ho'. rewrite Ho'. cbn [negb seg].
    destruct Hdis as [Hap' Hdis].
    apply Forall_cons in Hap as [Hoo Hap]. apply Forall_cons in Hal as [Hao Hal].
    apply Forall_cons in Hn as [_ Hn]. apply Forall_cons in Hp as [_ Hp].
    pose proof (aligned_add o 0 Hao) as Hao0. unfold sizeof_LargeObject in Hoo.
    unfold LO_next, LO_prev in *. cbn [Z.mul] in *.
    load_store. split_and!; [done..|]. exists o. split; [done|].
    split_and!; [done..|]. exists next. split; [done|].
    repeat apply seg_store; try done.
    by apply (apart_fields _ _ 0); [|lia].
Qed.

Lemma disjoint_app l1 l2 :
  disjoint_objs (l1 ++ l2) <->
  disjoint_objs l1 /\ disjoint_objs l2 /\ Forall (fun x => apart x l2) l1.
Proof.
  induction l1 as [|x l1 IH]; cbn; [naive_solver|].
  unfold apart at 1 2. rewrite Forall_app, Forall_cons, IH. tauto.
Qed.

(** What [unlinkLargeObject] does to the rest of the list behind the
    object. *)
Lemma relink_tail m obj prev next l2 last out :
  seg m obj next l2 last out -> out = 0 -> disjoint_objs l2 ->
  Forall (fun o => is_aligned o 8 = true) l2 ->
  let m' := if negb (next =? 0) then store m (next + LO_prev) prev else m in
  exists last', seg m' prev next l2 last' out.
Proof.
  intros Hd -> Hdis Hal m'. subst m'. destruct l2 as [|n l2]; cbn [seg] in *.
  - destruct Hd as [-> _]. by exists prev.
  - destruct Hd as (-> & Hn & Hprev & nn & Hnn & Hd). exists last.
    apply Z.eqb_neq in Hn as Hn'. rewrite Hn'. cbn [negb].
    destruct Hdis as [Hap Hdis]. apply Forall_cons in Hal as [Han Hal].
    pose proof (aligned_add n 0 Han) as Han0. unfold LO_prev, LO_next in *. cbn [Z.mul] in *.
    load_store. split_and!; [done..|]. exists nn. split; [done|].
    apply seg_store; [|done]. by apply (apart_fields n l2 0); [|lia].
Qed.

(** Unlinking removes exactly the object it is given. *)
Lemma unlinkLargeObject_dll m list l1 obj l2 :
  dll m 0 list (l1 ++ obj :: l2) -> disjoint_objs (l1 ++ obj :: l2) ->
  Forall (fun o => is_aligned o 8 = true) (l1 ++ obj :: l2) ->
  exists m' list', unlinkLargeObject m obj list = Ok (m', list') /\ dll m' 0 list' (l1 ++ l2).
Proof.
  intros [last Hd] Hdis Hal.
  apply seg_app in Hd as (q & mid & H1 & H2). cbn [seg] in H2.
  destruct H2 as (-> & Ho & Hprev & next & Hnext & H2).
  apply disjoint_app in Hdis as (Hd1 & [Hapo Hd2] & Hd12).
  apply Forall_app in Hal as [Hal1 Hal2]. apply Forall_cons in Hal2 as [Hao Hal2].
  unfold unlinkLargeObject. rewrite Hprev, Hnext. cbn [obind].
  destruct l1 as [|x l1 _] using rev_ind.
  - destruct H1 as [-> <-]. cbn [Z.eqb negb obind app]. rewrite Hnext. cbn [obind].
    destruct (relink_tail m obj 0 next l2 last 0 H2) as [last' Hs]; [done..|].
    destruct (negb (next =? 0)); [rewrite Hprev; cbn [obind]|]; do 2 eexists; (split; [done|]);
      by exists last'.
  - apply seg_app in H1 as (p & mid & H1 & Hx). cbn [seg] in Hx.
    destruct Hx as (-> & Hx & Hxp & nx & Hxn & -> & <-).
    apply Z.eqb_neq in Hx as Hx'. rewrite Hx'. cbn [negb obind].
    apply Forall_app in Hd12 as [Hd12 Hxl]. apply Forall_cons in Hxl as [Hxl _].
    apply Forall_cons in Hxl as [Hxo Hxl]. unfold sizeof_LargeObject in Hxo.
    apply disjoint_app in Hd1 as (Hd1 & _ & Hd1x).
    apply Forall_app in Hal1 as [Hal1 Hax]. apply Forall_cons in Hax as [Hax _].
    pose proof (aligned_add x 1 Hax) as Hax1. cbn [Z.mul] in Hax1.
    set (m1 := store m (x + LO_next) next).
    assert (Ho_next : load m1 (obj + LO_next) = Ok next).
    { unfold m1, LO_next, LO_prev in *. by load_store. }
    assert (Ho_prev : load m1 (obj + LO_prev) = Ok x).
    { unfold m1, LO_next, LO_prev in *. by load_store. }
    rewrite Ho_next. cbn [obind].
    assert (H2' : seg m1 obj next l2 last 0).
    { apply seg_store; [|done]. by apply (apart_fields x l2 8); [|lia]. }
    assert (Hpre : Forall (fun o => x + LO_next <> o + LO_prev /\ x + LO_next <> o + LO_next) l1).
    { eapply Forall_impl; [exact Hd1x|]. cbn. intros o [Hox _]%Forall_cons.
      unfold sizeof_LargeObject, LO_prev, LO_next in *. lia. }
    destruct (relink_tail m1 obj x next l2 last 0 H2') as [last' Hs]; [done..|].
    assert (Hnext_far : next <> 0 ->
              40 <= Z.abs (next - x) /\ Forall (fun o => 40 <= Z.abs (next - o)) l1).
    { intros Hne. destruct l2 as [|n l2]; [by destruct H2|]. destruct H2 as (-> & _).
      apply Forall_cons in Hxl as [? _]. split; [done|].
      eapply Forall_impl; [exact Hd12|]. cbn. by intros o [_ [? _]%Forall_cons]%Forall_cons. }
    assert (Hfin : forall mf, (mf = m1 /\ next = 0 \/ mf = store m1 (next + LO_prev) x /\ next <> 0) ->
              seg mf x next l2 last' 0 -> dll mf 0 list ((l1 ++ [x]) ++ l2)).
    { intros mf Hmf Htail. exists last'. rewrite <- app_assoc. apply seg_app. exists p, x.
      assert (Hxf : load mf (x + LO_prev) = Ok p /\ load mf (x + LO_next) = Ok next).
      { unfold LO_prev, LO_next in *.
        destruct Hmf as [[-> _]|[-> Hne]]; [|destruct (Hnext_far Hne)];
          unfold m1; split; load_store; done. }
      destruct Hxf. split; [|by cbn; eauto 10].
      destruct Hmf as [[-> _]|[-> Hne]]; [by apply seg_store|].
      apply seg_store; [|by apply seg_store].
      destruct (Hnext_far Hne) as [_ Hfar]. eapply Forall_impl; [exact Hfar|]. cbn.
      unfold LO_prev, LO_next. lia. }
    destruct (Z.eqb_spec next 0) as [Hz|Hz]; cbn [negb] in *.
    + do 2 eexists. split; [done|]. apply Hfin; auto.
    + rewrite Ho_prev. cbn [obind]. do 2 eexists. split; [done|]. apply Hfin; auto.
Qed.
