(* ===== verification/Hotness.v ===== *)
(** * Hot counters, the random generator and the machine code area
    ([jit.hh], [jit.cc], [machinecode.cc])

    [HotCounters] decides when a bytecode address is worth compiling;
    [MachineCode] owns the memory that compiled traces are written to.
    The operating system's [mmap] is a parameter. *)

From S2P Require Import Prelude Words.

(** ** [class HotCounters] *)
Module HotCounters.

Definition kNumCounters : Z := 1024.

Record t := mk { counters : list Z; threshold : Z }.

(** The constructor. *)
Definition init (threshold : Z) : t :=
  mk (replicate (Z.to_nat kNumCounters) threshold) threshold.

Definition hotCountHash (pc : Z) : Z :=
  Z.land (Z.lxor (Z.shiftr pc 12) (Z.shiftr pc 4)) (kNumCounters - 1).
Definition index (pc : Z) : nat := Z.to_nat (hotCountHash pc).

Definition get (h : t) (pc : Z) : outcome Z :=
  of_option WildAccess (counters h !! index pc).
Definition set (h : t) (pc value : Z) : t :=
  mk (<[index pc := u2 value]> (counters h)) (threshold h).
Definition reset (h : t) (pc : Z) : t := set h pc (threshold h).

(** [tick]: the decrement wraps at 16 bits. *)
Definition tick (h : t) (pc : Z) : outcome (bool * t) :=
  let! old := get h pc in
  let c := u2 (old - 1) in
  let h := set h pc c in
  if c =? 0 then Ok (true, set h pc (threshold h)) else Ok (false, h).

(** The array has its declared size and holds 16-bit values. *)
Definition wf (h : t) : Prop :=
  length (counters h) = Z.to_nat kNumCounters
  /\ Forall (fun c => 0 <= c < 2 ^ 16) (counters h) /\ 0 <= threshold h < 2 ^ 16.

Lemma index_lt pc : (index pc < Z.to_nat kNumCounters)%nat.
Proof.
  unfold index, hotCountHash, kNumCounters. change (1024 - 1) with (Z.ones 10).
  rewrite Z.land_ones by lia.
  pose proof (Z.mod_pos_bound (Z.lxor (Z.shiftr pc 12) (Z.shiftr pc 4)) (2 ^ 10)). lia.
Qed.

Lemma init_wf thr : 0 <= thr < 2 ^ 16 -> wf (init thr).
Proof.
  intros H. split_and!; cbn -[replicate]; [apply length_replicate| |lia|lia].
  by apply Forall_replicate.
Qed.

Lemma get_init thr pc : get (init thr) pc = Ok thr.
Proof.
  unfold get, init. cbn [counters]. rewrite lookup_replicate_2; [done|]. apply index_lt.
Qed.

Lemma set_wf h pc v : wf h -> wf (set h pc v).
Proof.
  intros (Hl & Hf & Ht). split_and!; cbn; [by rewrite length_insert| |lia|lia].
  apply Forall_insert; [done|]. apply (to_u_bound 16). lia.
Qed.

Lemma get_set h pc v : wf h -> get (set h pc v) pc = Ok (u2 v).
Proof.
  intros (Hl & _). unfold get, set. cbn. rewrite list_lookup_insert_eq; [done|].
  rewrite Hl. apply index_lt.
Qed.

Lemma get_set_other h pc pc' v :
  hotCountHash pc <> hotCountHash pc' -> get (set h pc v) pc' = get h pc'.
Proof.
  intros Hne. unfold get, set. cbn. rewrite list_lookup_insert_ne; [done|].
  unfold index. intros E.
  assert (forall x, 0 <= hotCountHash x).
  { intros x. unfold hotCountHash, kNumCounters. apply Z.land_nonneg. right. lia. }
  apply Hne. rewrite <- (Z2Nat.id (hotCountHash pc)), E by done. by rewrite Z2Nat.id by done.
Qed.

Lemma get_set_hash h pc pc' v :
  wf h -> hotCountHash pc' = hotCountHash pc -> get (set h pc v) pc' = Ok (u2 v).
Proof.
  intros Hwf He. rewrite <- (get_set h pc v Hwf). unfold get, set, index. by rewrite He.
Qed.

Lemma get_wf h pc : wf h -> exists c, get h pc = Ok c /\ 0 <= c < 2 ^ 16.
Proof.
  intros (Hl & Hf & _). unfold get.
  destruct (lookup_lt_is_Some_2 (counters h) (index pc)) as [c Hc].
  { rewrite Hl. apply index_lt. }
  rewrite Hc. exists c. split; [done|]. by eapply Forall_lookup_1 in Hf.
Qed.

(** [n] ticks of one address. *)
Fixpoint ticks (n : nat) (h : t) (pc : Z) : outcome (list bool * t) :=
  match n with
  | O => Ok ([], h)
  | S n' =>
      let! '(r, h') := tick h pc in
      let! '(rs, h'') := ticks n' h' pc in
      Ok (r :: rs, h'')
  end.

Lemma tick_down h pc c :
  wf h -> get h pc = Ok c -> 1 < c < 2 ^ 16 ->
  tick h pc = Ok (false, set h pc (c - 1)).
Proof.
  intros Hwf Hg Hc. unfold tick. rewrite Hg. cbn [obind]. cbv zeta.
  replace (u2 (c - 1)) with (c - 1) by (symmetry; apply (to_u_id 16); lia).
  by destruct (Z.eqb_spec (c - 1) 0); [lia|].
Qed.

Lemma tick_hot h pc :
  wf h -> get h pc = Ok 1 -> exists h', tick h pc = Ok (true, h') /\ wf h'
    /\ get h' pc = Ok (threshold h) /\ threshold h' = threshold h.
Proof.
  intros Hwf Hg. unfold tick. rewrite Hg. cbn [obind]. change (u2 (1 - 1)) with 0. cbn [Z.eqb].
  eexists. split; [done|]. split; [by repeat apply set_wf|]. split; [|done].
  rewrite get_set by by apply set_wf. destruct Hwf as (_ & _ & Ht).
  f_equal. apply (to_u_id 16). cbn. lia.
Qed.

(** A counter holding n becomes hot on exactly the n-th tick and is
    then back at its threshold. *)
Lemma ticks_countdown n h pc :
  wf h -> get h pc = Ok (Z.of_nat (S n)) -> Z.of_nat (S n) < 2 ^ 16 ->
  exists h', ticks (S n) h pc = Ok (replicate n false ++ [true], h')
    /\ wf h' /\ get h' pc = Ok (threshold h) /\ threshold h' = threshold h.
Proof.
  revert h. induction n as [|n IH]; intros h Hwf Hg Hn.
  - destruct (tick_hot h pc Hwf Hg) as (h' & Ht & Hw & Hg' & Hth). cbn [ticks].
    rewrite Ht. cbn. eauto.
  - change (ticks (S (S n)) h pc) with
      (let! '(r, h') := tick h pc in let! '(rs, h'') := ticks (S n) h' pc in Ok (r :: rs, h'')).
    rewrite (tick_down h pc (Z.of_nat (S (S n)))) by (done || lia). cbn [obind].
    destruct (IH (set h pc (Z.of_nat (S (S n)) - 1))) as (h' & Ht & Hw & Hg' & Hth);
      [by apply set_wf| |lia|].
    { rewrite get_set by done. f_equal. unfold u2. rewrite (to_u_id 16) by lia. lia. }
    rewrite Ht. cbn. eauto.
Qed.

End HotCounters.

(** ** [class Prng] *)
Module Prng.
Definition init : Z := 0x72ba83e.
Definition bits (state nbits : Z) : Z * Z :=
  let state := u4 (state * 1103515245 + 12345) in
  (Z.shiftr state (32 - nbits), state).

Lemma bits_bound state nbits :
  0 <= nbits <= 32 -> 0 <= fst (bits state nbits) < 2 ^ nbits.
Proof.
  intros Hn. cbn. rewrite Z.shiftr_div_pow2 by lia.
  pose proof (to_u_bound 32 ltac:(lia) (state * 1103515245 + 12345)) as Hb. unfold u4.
  split; [apply Z.div_pos; [lia|apply pow2_pos; lia]|].
  apply Z.div_lt_upper_bound; [apply pow2_pos; lia|].
  rewrite <- Z.pow_add_r by lia. replace (32 - nbits + nbits) with 32 by lia. lia.
Qed.
End Prng.

(** ** [class MachineCode] *)
Module MachineCode.

(** Page protections. *)
Definition PROT_READ : Z := 1.
Definition PROT_WRITE : Z := 2.
Definition PROT_EXEC : Z := 4.
Definition MCPROT_RW : Z := Z.lor PROT_READ PROT_WRITE.
Definition MCPROT_RX : Z := Z.lor PROT_READ PROT_EXEC.
Definition MCPROT_GEN : Z := MCPROT_RW.
Definition MCPROT_RUN : Z := MCPROT_RX.

Definition LC_TARGET_JUMPRANGE : Z := 31.
Definition kAreaSize : Z := Z.shiftl 1 22.
Definition LC_PAGESIZE : Z := 4096.
Definition MAP_FAILED : Z := 2 ^ 64 - 1.

Record t := mk {
prng : Z;
protection : Z;
area : Z;
top : Z;
bottom : Z;
size : Z;
sizeTotal : Z
}.

Definition init (prng : Z) : t := mk prng 0 0 0 0 0 0.

Definition isValidMachineCodePtr (p : Z) : bool := negb (p =? 0) && (p <? Z.shiftl 1 47).

Section os.
(** [mmap hint size prot] answers an address or [MAP_FAILED];
    [asmExit] is the address of the exit handler. *)
Context (mmap : Z -> Z -> Z -> Z) (asmExit : Z).

Definition allocAt (hint size prot : Z) : outcome Z :=
  let p := mmap hint size prot in
  if (p =? MAP_FAILED) && (hint =? 0) then Err (Exited 23) else Ok p.

Definition target : Z := Z.land asmExit (u8 (Z.lnot 0xffff)).
Definition range : Z := u4 (Z.shiftl 1 LC_TARGET_JUMPRANGE - Z.shiftl 1 21).

Definition in_jump_range (p size : Z) : bool :=
  (u8 (p + size - target) <? range) || (u8 (target - p) <? range).

(** The inner [do .. while]. *)
Fixpoint random_hint (fuel : nat) (prng size : Z) : outcome (Z * Z) :=
  match fuel with
  | O => Err OutOfFuel
  | S fuel' =>
      let '(r, prng) := Prng.bits prng 15 in
      let hint := Z.shiftl (Z.lxor 0x78fb r) 16 in
      if hint + size <? range then Ok (hint, prng) else random_hint fuel' prng size
  end.

(** [alloc], with [tries] iterations of the [for] loop left; the
    null pointer is the answer after the last. *)
Fixpoint alloc_loop (fuel tries : nat) (prng size hint : Z) : outcome (Z * Z) :=
  match tries with
  | O => Ok (0, prng)
  | S tries' =>
      let! got := (if isValidMachineCodePtr hint then
                     let! p := allocAt hint size MCPROT_GEN in
                     Ok (if isValidMachineCodePtr p && in_jump_range p size
                         then Some p else None)
                   else Ok None) in
      match got with
      | Some p => Ok (p, prng)
      | None =>
          let! '(h, prng) := random_hint fuel prng size in
          alloc_loop fuel tries' prng size (u8 (target + h - Z.shiftr range 1))
      end
  end.
Definition alloc (fuel : nat) (prng size : Z) : outcome (Z * Z) :=
  alloc_loop fuel 32 prng size 0.

Definition allocArea (fuel : nat) (s : t) : outcome t :=
  let size := Z.land (kAreaSize + LC_PAGESIZE - 1) (u8 (Z.lnot (LC_PAGESIZE - 1))) in
  let! '(a, prng) := alloc fuel (prng s) size in
  Ok (mk prng MCPROT_GEN a (a + size) a size size).

Definition protect (s : t) (prot : Z) : t :=
  if negb (protection s =? prot)
  then mk (prng s) prot (area s) (top s) (bottom s) (size s) (sizeTotal s)
  else s.

(** [reserve]: the new state, the limit and the top. *)
Definition reserve (fuel : nat) (s : t) : outcome (t * Z * Z) :=
  let! s := (if area s =? 0 then allocArea fuel s else Ok (protect s MCPROT_GEN)) in
  Ok (s, bottom s, top s).

Definition commit (s : t) (newtop : Z) : outcome t :=
  assert! (newtop <=? area s + size s) in
  assert! (bottom s <=? newtop) in
  Ok (protect (mk (prng s) (protection s) (area s) newtop (bottom s) (size s) (sizeTotal s))
              MCPROT_RUN).

Definition commitStub (s : t) (bot : Z) : outcome t :=
  assert! (bottom s <=? bot) in
  assert! (bot <=? top s) in
  Ok (mk (prng s) (protection s) (area s) (top s) bot (size s) (sizeTotal s)).

Definition abort (s : t) : t := protect s MCPROT_RUN.

Definition patchBegin (s : t) (ptr : Z) : outcome (t * Z) :=
  assert! ((area s <=? ptr) && (ptr <? area s + size s)) in
  let s := protect s MCPROT_GEN in
  Ok (s, area s).

Definition patchFinish (s : t) (a : Z) : outcome t :=
  assert! (a =? area s) in Ok (protect s MCPROT_RUN).

(** The operations a client may perform, as steps. *)
Inductive step (s : t) : t -> Prop :=
| step_reserve fuel s' lim tp : reserve fuel s = Ok (s', lim, tp) -> step s s'
| step_commit tp s' : commit s tp = Ok s' -> step s s'
| step_commitStub bot s' : commitStub s bot = Ok s' -> step s s'
| step_abort : step s (abort s)
| step_patchBegin p s' a : patchBegin s p = Ok (s', a) -> step s s'
| step_patchFinish a s' : patchFinish s a = Ok s' -> step s s'.

(** Stubs grow up from the bottom, code grows down from the top, and
    no page is writable and executable. *)
Definition inv (s : t) : Prop :=
  area s <= bottom s <= top s /\ top s <= area s + size s
  /\ Z.land (protection s) PROT_WRITE * Z.land (protection s) PROT_EXEC = 0.

Lemma protect_inv s prot :
  (prot = MCPROT_GEN \/ prot = MCPROT_RUN) ->
  area s <= bottom s <= top s /\ top s <= area s + size s ->
  Z.land (protection s) PROT_WRITE * Z.land (protection s) PROT_EXEC = 0 ->
  inv (protect s prot).
Proof.
  intros Hp Hb Hx. unfold protect. case_match; [|by split; [|split]; tauto].
  unfold inv. cbn. split_and!; [lia..|]. by destruct Hp as [-> | ->].
Qed.

Lemma allocArea_inv fuel s s' : allocArea fuel s = Ok s' -> inv s'.
Proof.
  unfold allocArea. set (sz := Z.land _ _). intros H. inv_ok.
  assert (0 <= sz) by (apply Z.land_nonneg; left; done).
  unfold inv. cbn. split_and!; lia || done.
Qed.

Lemma step_inv s s' : inv s -> step s s' -> inv s'.
Proof.
  intros (Hb & Ht & Hx) Hs. destruct Hs as [fuel s' lim tp H|tp s' H|bot s' H| |p s' a H|a s' H].
  - unfold reserve in H. inv_ok. case_match; [by eapply allocArea_inv|].
    simplify_eq. apply protect_inv; auto.
  - unfold commit in H. inv_ok. apply protect_inv; cbn; auto; lia.
  - unfold commitStub in H. inv_ok. unfold inv. cbn. lia.
  - apply protect_inv; auto.
  - unfold patchBegin in H. inv_ok. apply protect_inv; auto.
  - unfold patchFinish in H. inv_ok. apply protect_inv; auto.
Qed.

(** C35: Every state reached from the constructor satisfies the invariant. *)
Lemma reachable_inv p s : rtc step (init p) s -> inv s.
Proof.
  intros Hr. remember (init p) as s0 eqn:E. assert (Hi : inv s0).
  { subst. unfold inv. cbn. split_and!; done || lia. }
  clear E. induction Hr as [|s0 s1 s2 Hs _ IH]; [done|]. apply IH. by apply (step_inv s0).
Qed.
End os.
End MachineCode.
