(* ===== verification/HeapInterface.v ===== *)
(** * What the rest of the machine needs from the memory manager

    [Thread] is the record of [thread.hh]; [HeapOps] lists the
    operations of [class MemoryManager] that the interpreter and
    [MiscClosures] call.  Their theorems are proved for any instance;
    [MemoryManager.v] provides the one of the source. *)

From S2P Require Import Prelude Words Bytecode Objects.

(** ** [struct _Thread] *)
Record Thread := mkThread {
  t_pc : Z;
  t_stackSize : Z;
  t_base : Z;
  t_top : Z;
  t_stack : Z
}.

Module Thread.
Definition kMinStackWords : Z := 64.
Definition stackStart (T : Thread) : Z := t_stack T.
Definition stackLimit (T : Thread) : Z := t_stack T + 8 * t_stackSize T.
Definition isValidSlot (T : Thread) (n : Z) : bool :=
  (-1 <=? n) && (t_base T + 8 * n <? t_top T).
Definition slot (m : memory) (T : Thread) (n : Z) : outcome Z := load m (t_base T + 8 * n).
Definition setSlot (m : memory) (T : Thread) (n value : Z) : memory :=
  store m (t_base T + 8 * n) value.
Definition sync (T : Thread) (pc base : Z) : Thread :=
  mkThread pc (t_stackSize T) base (t_top T) (t_stack T).
Definition set_top (T : Thread) (top : Z) : Thread :=
  mkThread (t_pc T) (t_stackSize T) (t_base T) top (t_stack T).

(** [Thread::initialize]: [stack] is the block [new] returned;
    [stg_STOP_closure_addr] is null before the loader has run. *)
Definition initialize (m : memory) (stack stg_STOP stackSizeInWords : Z)
  : outcome (Thread * memory) :=
  let size := if stackSizeInWords <? kMinStackWords then kMinStackWords
              else stackSizeInWords in
  let m := store m stack 0 in
  let m := store m (stack + 8) 0 in
  let m := store m (stack + 16) stg_STOP in
  let m := store m (stack + 24) 0 in
  if stg_STOP =? 0 then Err (Exited 1) else
  let! info := closure_info m stg_STOP in
  let! c := of_option WildAccess (it_code info) in
  Ok (mkThread (code c) size (stack + 24) (stack + 32) stack, m).

(** [Thread::createTestingThread] *)
Definition createTestingThread (m : memory) (stack stg_STOP pc framesize : Z)
  : outcome (Thread * memory) :=
  let! '(T, m) := initialize m stack stg_STOP framesize in
  Ok (mkThread pc (t_stackSize T) (stack + 8) (stack + 8 + 8 * framesize) stack, m).

Definition isValid (T : Thread) : bool :=
  (kMinStackWords <=? t_stackSize T)
  && (if negb (t_stack T =? 0) then
        within (t_stack T) (stackLimit T) (t_base T)
        && within (t_stack T) (stackLimit T) (t_top T) && (t_base T <=? t_top T)
      else true)
  && negb (t_pc T =? 0).

Lemma initialize_valid m stack stg_STOP n T m' :
  0 < stack -> initialize m stack stg_STOP n = Ok (T, m') -> t_pc T <> 0 ->
  isValid T = true /\ t_stackSize T = Z.max n kMinStackWords
  /\ t_base T = t_stack T + 24 /\ t_top T = t_base T + 8.
Proof.
  intros Hs Hi Hpc. unfold initialize in Hi. inv_ok. case_match; [done|].
  inv_ok. unfold isValid, within, stackLimit, kMinStackWords in *. cbn in *.
  rewrite !(proj2 (Z.eqb_neq _ _)) by lia. cbn [negb].
  destruct (Z.ltb_spec n 64); lia.
Qed.
End Thread.

(** ** The interface *)
Class HeapOps (H : Type) := {
  (** An [AllocInfoTableHandle] opens with the one and closes with the
      other. *)
  h_beginAllocInfoTable : H -> outcome H;
  h_endAllocInfoTable : H -> outcome H;
  h_allocInfoTable : H -> Z -> outcome (H * Z);
  h_allocString : H -> Z -> outcome (H * Z);
  h_allocCode : H -> Z -> Z -> outcome (H * Z);
  h_allocStaticClosure : H -> Z -> outcome (H * Z);
  h_allocLarge : H -> memory -> Z -> outcome (H * memory * Z);
  (** [bumpAllocatorFull(&heap, &heaplim, cap)]: the capability is seen
      through its current thread and its static roots. *)
  h_bumpAllocatorFull : H -> memory -> Thread -> Z -> Z -> Z -> outcome (H * memory * Z * Z);
  (** [None]: a collection is needed first. *)
  h_bumpAllocatorFullNoGC : H -> Z -> Z -> outcome (H * option (Z * Z));
  h_getBumpAllocatorBounds : H -> outcome (Z * Z);
  h_sync : H -> Z -> Z -> outcome H;
  h_setTopOfStackMask : H -> Z -> H;
  h_looksLikeClosure : H -> memory -> Z -> bool
}.

(** What clients may rely on: whether an address looks like a closure
    depends on the word found there only. *)
Class HeapLaws (H : Type) `{HeapOps H} := {
  looks_local : forall (h : H) m m' p,
    load m' p = load m p -> itbls m' = itbls m ->
    h_looksLikeClosure h m' p = h_looksLikeClosure h m p
}.

(** [kNoMask] *)
Definition kNoMask : Z := u4 (Z.lnot 0).

(** ** Writing bytecode *)

Definition store_ins (m : memory) (a v : Z) : memory :=
  mkMemory (words m) (itbls m) (<[a := v]> (bytecode m)).
(** A half word of the bytecode segment; a word not yet written reads
    as zero for its other half. *)
Definition store_ins_u2 (m : memory) (a v : Z) : memory :=
  let b := a - a mod 4 in
  let sh := 8 * (a mod 4) in
  let w := default 0 (bytecode m !! b) in
  store_ins m b (Z.lor (Z.ldiff w (Z.shiftl 0xffff sh)) (Z.shiftl (v mod 2 ^ 16) sh)).
Definition store_itbl (m : memory) (a : Z) (info : InfoTable) : memory :=
  mkMemory (words m) (<[a := info]> (itbls m)) (bytecode m).

Fixpoint store_ins_list (m : memory) (a : Z) (l : list Z) : memory :=
  match l with
  | [] => m
  | w :: l' => store_ins_list (store_ins m a w) (a + 4) l'
  end.
Fixpoint store_u2_list (m : memory) (a : Z) (l : list Z) : memory :=
  match l with
  | [] => m
  | w :: l' => store_u2_list (store_ins_u2 m a w) (a + 2) l'
  end.

Lemma load_ins_store_eq m a v : load_ins (store_ins m a v) a = Ok v.
Proof. unfold load_ins. cbn. by rewrite lookup_insert_eq. Qed.
Lemma load_ins_store_ne m a b v : a <> b -> load_ins (store_ins m a v) b = load_ins m b.
Proof. intros. unfold load_ins. cbn. by rewrite lookup_insert_ne. Qed.

Lemma load_ins_list_out m a l b :
  b < a -> load_ins (store_ins_list m a l) b = load_ins m b.
Proof.
  revert m a. induction l as [|w l IH]; intros m a Hb; [done|].
  cbn. rewrite IH by lia. by rewrite load_ins_store_ne by lia.
Qed.

Lemma load_ins_list m a l i w :
  l !! i = Some w -> load_ins (store_ins_list m a l) (a + 4 * Z.of_nat i) = Ok w.
Proof.
  revert m a i. induction l as [|x l IH]; intros m a i Hi; [done|].
  destruct i as [|i]; cbn in *; simplify_eq.
  - rewrite Z.add_0_r, load_ins_list_out by lia. apply load_ins_store_eq.
  - specialize (IH (store_ins m a x) (a + 4) i Hi).
    replace (a + 4 * Z.of_nat (S i)) with (a + 4 + 4 * Z.of_nat i) by lia. exact IH.
Qed.

Lemma load_ins_u2_out m a v b : b < a - a mod 4 -> load_ins (store_ins_u2 m a v) b = load_ins m b.
Proof. intros. unfold store_ins_u2. apply load_ins_store_ne. lia. Qed.

Lemma load_u2_list_out m a l b :
  a mod 2 = 0 -> b + 4 <= a -> b mod 4 = 0 ->
  load_ins (store_u2_list m a l) b = load_ins m b.
Proof.
  revert m a. induction l as [|w l IH]; intros m a Ha Hb Hb4; [done|].
  cbn. rewrite IH; [|rewrite <- Zplus_mod_idemp_l, Ha; done|lia|done].
  apply load_ins_u2_out.
  pose proof (Z.div_mod a 4). pose proof (Z.mod_pos_bound a 4).
  pose proof (Z.div_mod b 4). lia.
Qed.

(** ** Half words *)

Fixpoint load_u2_list (m : memory) (a : Z) (n : nat) : outcome (list Z) :=
  match n with
  | O => Ok []
  | S n' => let! w := load_ins_u2 m a in
            let! l := load_u2_list m (a + 2) n' in Ok (w :: l)
  end.

Lemma even_mod4 a : a mod 2 = 0 -> a mod 4 = 0 \/ a mod 4 = 2.
Proof.
  intros Ha. pose proof (Z.div_mod a 2). pose proof (Z.div_mod a 4).
  pose proof (Z.mod_pos_bound a 4). lia.
Qed.

Lemma half_write_eq w v sh :
  0 <= sh ->
  Z.shiftr (Z.lor (Z.ldiff w (Z.shiftl 0xffff sh)) (Z.shiftl (v mod 2 ^ 16) sh)) sh mod 2 ^ 16
  = v mod 2 ^ 16.
Proof.
  intros Hsh. change 0xffff with (Z.ones 16). apply Z.bits_inj'. intros i Hi.
  rewrite !Z.testbit_mod_pow2 by lia. destruct (Z.ltb_spec i 16); [|done].
  rewrite Z.shiftr_spec, Z.lor_spec, Z.ldiff_spec, !Z.shiftl_spec by lia.
  replace (i + sh - sh) with i by lia.
  rewrite Z.ones_spec_low, andb_false_r, Z.testbit_mod_pow2 by lia.
  by rewrite (proj2 (Z.ltb_lt i 16)) by lia.
Qed.

Lemma half_write_ne w v sh sh' :
  0 <= sh -> 0 <= sh' -> 16 <= Z.abs (sh - sh') ->
  Z.shiftr (Z.lor (Z.ldiff w (Z.shiftl 0xffff sh)) (Z.shiftl (v mod 2 ^ 16) sh)) sh' mod 2 ^ 16
  = Z.shiftr w sh' mod 2 ^ 16.
Proof.
  intros Hsh Hsh' Hd. change 0xffff with (Z.ones 16). apply Z.bits_inj'. intros i Hi.
  rewrite !Z.testbit_mod_pow2 by lia. destruct (Z.ltb_spec i 16); [|done].
  rewrite !Z.shiftr_spec, Z.lor_spec, Z.ldiff_spec, !Z.shiftl_spec by lia.
  destruct (Z_lt_le_dec (i + sh') sh).
  - rewrite (Z.testbit_neg_r (Z.ones 16)), (Z.testbit_neg_r (v mod 2 ^ 16)) by lia.
    by rewrite andb_true_r, orb_false_r.
  - rewrite Z.ones_spec_high, Z.testbit_mod_pow2 by lia.
    rewrite (proj2 (Z.ltb_ge _ _)) by lia. by rewrite andb_true_r, orb_false_r.
Qed.

Lemma load_u2_store_eq m a v :
  a mod 2 = 0 -> load_ins_u2 (store_ins_u2 m a v) a = Ok (v mod 2 ^ 16).
Proof.
  intros Ha. unfold load_ins_u2, store_ins_u2. rewrite load_ins_store_eq. cbn [obind].
  f_equal. apply half_write_eq. pose proof (Z.mod_pos_bound a 4). lia.
Qed.

Lemma load_u2_store_ne m a b v x :
  a mod 2 = 0 -> b mod 2 = 0 -> a <> b ->
  load_ins_u2 m b = Ok x -> load_ins_u2 (store_ins_u2 m a v) b = Ok x.
Proof.
  intros Ha Hb Hne. unfold load_ins_u2, store_ins_u2. intros Hx. inv_ok.
  destruct (Z.eq_dec (a - a mod 4) (b - b mod 4)) as [He|He].
  - rewrite He, load_ins_store_eq. cbn [obind]. f_equal.
    unfold load_ins in H. rewrite of_option_ok in H. rewrite H. cbn [default].
    apply half_write_ne; destruct (even_mod4 a Ha), (even_mod4 b Hb); lia.
  - rewrite load_ins_store_ne by done. by rewrite H.
Qed.

Lemma load_u2_list_other m a l b x :
  a mod 2 = 0 -> b mod 2 = 0 -> b < a ->
  load_ins_u2 m b = Ok x -> load_ins_u2 (store_u2_list m a l) b = Ok x.
Proof.
  revert m a. induction l as [|w l IH]; intros m a Ha Hb Hlt Hx; [done|].
  cbn. apply IH; [|done|lia|].
  - by rewrite <- Zplus_mod_idemp_l, Ha.
  - apply load_u2_store_ne; [done..|lia|done].
Qed.

Lemma load_store_u2_list m a l :
  a mod 2 = 0 ->
  load_u2_list (store_u2_list m a l) a (length l) = Ok (map (fun w => w mod 2 ^ 16) l).
Proof.
  revert m a. induction l as [|w l IH]; intros m a Ha; [done|]. cbn [length load_u2_list].
  assert (Ha2 : (a + 2) mod 2 = 0) by by rewrite <- Zplus_mod_idemp_l, Ha.
  cbn [store_u2_list].
  rewrite (load_u2_list_other _ _ _ _ (w mod 2 ^ 16)) by (lia || by apply load_u2_store_eq).
  cbn [obind]. by rewrite IH.
Qed.
