(* ===== verification/MiscClosures.v ===== *)
(** * The run-time system's own closures ([miscclosures.hh],
    [miscclosures.cc])

    The static closures and info tables that the interpreter relies on:
    the stop, update-frame and blackhole closures, the info tables of
    indirections, byte arrays and partial applications, and the two
    families generated on demand, application continuations ([ApK])
    and application thunks ([Ap]).  Memory comes from any instance of
    [HeapOps]. *)

From S2P Require Import Prelude Words Bytecode Bitmaps Objects HeapInterface.

(** [ApContInfo] *)
Record ApContInfo := mkApContInfo { apk_closure : Z; apk_returnAddr : Z }.

(** The static members of [class MiscClosures].  The two small tables
    are arrays; an index that was never written is a wild access. *)
Record MiscClosures := mkMisc {
  stg_UPD_closure_addr : Z;
  stg_UPD_return_pc : Z;
  stg_BLACKHOLE_closure_addr : Z;
  stg_STOP_closure_addr : Z;
  stg_IND_info : Z;
  stg_PAP_info : Z;
  stg_BYTEARR_info : Z;
  smallApConts : gmap Z ApContInfo;
  otherApConts : gmap Z ApContInfo;
  smallApInfos : gmap Z Z;
  otherApInfos : gmap Z Z
}.

Module Misc.

Definition UPD_frame_size : Z := 2.
Definition kMaxSmallArity : Z := 4.
Definition apContFrameSize (nargs : Z) : Z := nargs + 1.
Definition apContIndex (nargs pointerMask : Z) : Z :=
u4 (Z.shiftl 1 nargs - 2 + pointerMask).

(** Sizes in words of [InfoTable] and [CodeInfoTable]. *)
Definition wordsof_InfoTable : Z := 2.
Definition wordsof_CodeInfoTable : Z := 6.

(** [reset], and the initial values of the members. *)
Definition reset : MiscClosures := mkMisc 0 0 0 0 0 0 0 ∅ ∅ ∅ ∅.

Definition with_STOP (s : MiscClosures) (cl : Z) : MiscClosures :=
mkMisc (stg_UPD_closure_addr s) (stg_UPD_return_pc s) (stg_BLACKHOLE_closure_addr s) cl
  (stg_IND_info s) (stg_PAP_info s) (stg_BYTEARR_info s)
  (smallApConts s) (otherApConts s) (smallApInfos s) (otherApInfos s).
Definition with_BLACKHOLE (s : MiscClosures) (cl : Z) : MiscClosures :=
mkMisc (stg_UPD_closure_addr s) (stg_UPD_return_pc s) cl (stg_STOP_closure_addr s)
  (stg_IND_info s) (stg_PAP_info s) (stg_BYTEARR_info s)
  (smallApConts s) (otherApConts s) (smallApInfos s) (otherApInfos s).
Definition with_UPD (s : MiscClosures) (cl pc : Z) : MiscClosures :=
mkMisc cl pc (stg_BLACKHOLE_closure_addr s) (stg_STOP_closure_addr s)
  (stg_IND_info s) (stg_PAP_info s) (stg_BYTEARR_info s)
  (smallApConts s) (otherApConts s) (smallApInfos s) (otherApInfos s).
Definition with_infos (s : MiscClosures) (ind pap bytearr : Z) : MiscClosures :=
mkMisc (stg_UPD_closure_addr s) (stg_UPD_return_pc s) (stg_BLACKHOLE_closure_addr s)
  (stg_STOP_closure_addr s) ind pap bytearr
  (smallApConts s) (otherApConts s) (smallApInfos s) (otherApInfos s).
Definition with_ApConts (s : MiscClosures) (small other : gmap Z ApContInfo) : MiscClosures :=
mkMisc (stg_UPD_closure_addr s) (stg_UPD_return_pc s) (stg_BLACKHOLE_closure_addr s)
  (stg_STOP_closure_addr s) (stg_IND_info s) (stg_PAP_info s) (stg_BYTEARR_info s)
  small other (smallApInfos s) (otherApInfos s).
Definition with_ApInfos (s : MiscClosures) (small other : gmap Z Z) : MiscClosures :=
mkMisc (stg_UPD_closure_addr s) (stg_UPD_return_pc s) (stg_BLACKHOLE_closure_addr s)
  (stg_STOP_closure_addr s) (stg_IND_info s) (stg_PAP_info s) (stg_BYTEARR_info s)
  (smallApConts s) (otherApConts s) small other.

(** [byteOffset32(from, to)] *)
Definition byteOffset32 (from to : Z) : outcome Z :=
assert! in_range_i4 (to - from) in Ok (to - from).

(** The bytecode at [code] followed by its bitmasks. *)
Definition putCode (m : memory) (code : Z) (ins bitmasks : list Z) : memory :=
store_u2_list (store_ins_list m code ins) (code + 4 * Z.of_nat (length ins)) bitmasks.

Definition noLits (framesize arity sizecode sizebitmaps code : Z) : Code :=
mkCode (u1 framesize) (u1 arity) (u2 sizecode) 0 (u2 sizebitmaps) 0 [] code.

(** ** Application continuations *)

(** The text [snprintf] and [formatBitmap] put together; [nargs] is a
  single digit by the assertion of the caller. *)
Definition digit (n : Z) : string :=
default "" (["0"; "1"; "2"; "3"; "4"; "5"; "6"; "7"; "8"; "9"]%string !! Z.to_nat n).
Definition ap_name (prefix : string) (nargs pointerMask : Z) : string :=
prefix +:+ digit nargs +:+ "_" +:+ formatBitmap nargs pointerMask +:+ "`info".

Definition apk_code (nargs pointerMask off : Z) : list Z :=
[BcIns.ad BcIns.kIFUNC (nargs + 1) 0;
 BcIns.ad BcIns.kEVAL nargs 0;
 BcIns.bitmapOffset off;
 BcIns.ad BcIns.kMOV_RES nargs 0;
 BcIns.abc BcIns.kCALLT nargs 0xff nargs;
 BcIns.pointerInfo pointerMask].

Definition ap_code (nargs pointerMask : Z) : list Z :=
[BcIns.ad BcIns.kIFUNC (1 + nargs) 0; BcIns.ad BcIns.kLOADFV nargs 1]
++ map (fun i => BcIns.ad BcIns.kLOADFV (Z.of_nat i) (Z.of_nat i + 2)) (seq 0 (Z.to_nat nargs))
++ [BcIns.abc BcIns.kCALLT nargs 0xff nargs; BcIns.pointerInfo pointerMask].

Section heap.
Context {H : Type} `{HeapOps H}.

Definition initStopClosure (h : H) (m : memory) (s : MiscClosures)
  : outcome (H * memory * MiscClosures) :=
  let! h := h_beginAllocInfoTable h in
  let! '(h, info) := h_allocInfoTable h wordsof_CodeInfoTable in
  let! '(h, code) := h_allocCode h 3 2 in
  let! off := byteOffset32 (code + 4) (code + 4 * 3) in
  let m := putCode m code [BcIns.ad BcIns.kEVAL 0 0; BcIns.bitmapOffset off;
                           BcIns.ad BcIns.kSTOP 0 0] [0; 0] in
  let m := store_itbl m info (mkInfoTable FUN 1 0 0 "stg_STOP" (Some (noLits 2 1 3 2 code))) in
  let! '(h, cl) := h_allocStaticClosure h 0 in
  let! h := h_endAllocInfoTable h in
  Ok (h, setInfo m cl info, with_STOP s cl).

Definition initBlackholeClosure (h : H) (m : memory) (s : MiscClosures)
  : outcome (H * memory * MiscClosures) :=
  let! h := h_beginAllocInfoTable h in
  let! '(h, info) := h_allocInfoTable h wordsof_CodeInfoTable in
  let! '(h, code) := h_allocCode h 1 0 in
  let m := putCode m code [BcIns.ad BcIns.kSTOP 1 0] [] in
  let m := store_itbl m info
    (mkInfoTable BLACKHOLE 1 0 0 "stg_BLACKHOLE" (Some (noLits 1 0 1 0 code))) in
  let! '(h, cl) := h_allocStaticClosure h 0 in
  let! h := h_endAllocInfoTable h in
  Ok (h, setInfo m cl info, with_BLACKHOLE s cl).

Definition initUpdateClosure (h : H) (m : memory) (s : MiscClosures)
  : outcome (H * memory * MiscClosures) :=
  let! h := h_beginAllocInfoTable h in
  let! '(h, info) := h_allocInfoTable h wordsof_CodeInfoTable in
  let! '(h, code) := h_allocCode h 5 2 in
  let! off := byteOffset32 (code + 4) (code + 4 * 5) in
  let m := putCode m code
    [BcIns.ad BcIns.kEVAL 0 0; BcIns.bitmapOffset off; BcIns.ad BcIns.kMOV_RES 1 0;
     BcIns.ad BcIns.kUPDATE 0 1; BcIns.ad BcIns.kIRET 1 0] [1; 1] in
  let m := store_itbl m info
    (mkInfoTable UPDATE_FRAME 2 0 0 "stg_UPD" (Some (noLits 2 1 5 2 code))) in
  let! '(h, cl) := h_allocStaticClosure h 0 in
  let! h := h_endAllocInfoTable h in
  Ok (h, setInfo m cl info, with_UPD s cl (code + 4 * 2)).

Definition initByteArrInfo (h : H) (m : memory) (s : MiscClosures)
  : outcome (H * memory * MiscClosures) :=
  let! h := h_beginAllocInfoTable h in
  let! '(h, info) := h_allocInfoTable h wordsof_InfoTable in
  let m := store_itbl m info (mkInfoTable LARGE 0 0 0 "stg_BYTEARR" None) in
  let! h := h_endAllocInfoTable h in
  Ok (h, m, with_infos s (stg_IND_info s) (stg_PAP_info s) info).

Definition initIndirectionItbl (h : H) (m : memory) (s : MiscClosures)
  : outcome (H * memory * MiscClosures) :=
  let! h := h_beginAllocInfoTable h in
  let! '(h, info) := h_allocInfoTable h wordsof_InfoTable in
  let m := store_itbl m info (mkInfoTable IND 1 1 1 "stg_IND" None) in
  let! h := h_endAllocInfoTable h in
  Ok (h, m, with_infos s info (stg_PAP_info s) (stg_BYTEARR_info s)).

Definition buildApCont (h : H) (m : memory) (nargs pointerMask : Z)
  : outcome (H * memory * ApContInfo) :=
  assert! nargs <? 32 in
  assert! pointerMask <? Z.shiftl 1 nargs in
  let! h := h_beginAllocInfoTable h in
  let! '(h, info) := h_allocInfoTable h wordsof_CodeInfoTable in
  let name := ap_name "ApK" nargs pointerMask in
  let! '(h, _) := h_allocString h (Z.of_nat (String.length name)) in
  let livemask := u4 (Z.shiftl 1 nargs - 1) in
  let bitmasks := encodeBitmask pointerMask ++ encodeBitmask livemask in
  let sizebitmaps := Z.of_nat (bitmapSize pointerMask + bitmapSize livemask) in
  let! '(h, code) := h_allocCode h 6 sizebitmaps in
  assert! nargs <=? 8 in
  let! off := byteOffset32 (code + 4 * 2) (code + 4 * 6) in
  let m := putCode m code (apk_code nargs pointerMask off) bitmasks in
  let m := store_itbl m info
    (mkInfoTable AP_CONT 0 0 0 name (Some (noLits (nargs + 1) 1 6 sizebitmaps code))) in
  let! '(h, cl) := h_allocStaticClosure h 0 in
  let! h := h_endAllocInfoTable h in
  Ok (h, setInfo m cl info, mkApContInfo cl (code + 4 * 3)).

(** The nested loops of [initApConts] and [initApInfos], as the list
    of pairs they visit. *)
Definition small_shapes : list (Z * Z) :=
  concat (map (fun nargs => map (fun mask => (Z.of_nat nargs, Z.of_nat mask))
                                (seq 0 (2 ^ nargs))) (seq 1 4)).

Fixpoint initApConts_loop (shapes : list (Z * Z)) (h : H) (m : memory)
    (small : gmap Z ApContInfo) : outcome (H * memory * gmap Z ApContInfo) :=
  match shapes with
  | [] => Ok (h, m, small)
  | (nargs, mask) :: shapes' =>
      let! '(h, m, inf) := buildApCont h m nargs mask in
      initApConts_loop shapes' h m (<[apContIndex nargs mask := inf]> small)
  end.
Definition initApConts (h : H) (m : memory) (s : MiscClosures)
  : outcome (H * memory * MiscClosures) :=
  let! '(h, m, small) := initApConts_loop small_shapes h m ∅ in
  Ok (h, m, with_ApConts s small ∅).

Definition getApCont (h : H) (m : memory) (s : MiscClosures) (nargs pointerMask : Z)
  : outcome (H * memory * MiscClosures * ApContInfo) :=
  assert! 0 <? nargs in
  let index := apContIndex nargs pointerMask in
  if nargs <=? kMaxSmallArity then
    let! inf := of_option WildAccess (smallApConts s !! index) in
    Ok (h, m, s, inf)
  else
    match otherApConts s !! index with
    | Some inf => Ok (h, m, s, inf)
    | None =>
        let! '(h, m, inf) := buildApCont h m nargs pointerMask in
        Ok (h, m, with_ApConts s (smallApConts s) (<[index := inf]> (otherApConts s)), inf)
    end.

Definition initPapItbl (h : H) (m : memory) (s : MiscClosures)
  : outcome (H * memory * MiscClosures) :=
  let! h := h_beginAllocInfoTable h in
  let! '(h, info) := h_allocInfoTable h wordsof_CodeInfoTable in
  let! '(h, code) := h_allocCode h 1 0 in
  let m := putCode m code [BcIns.ad BcIns.kFUNCPAP 0 0] [] in
  let m := store_itbl m info (mkInfoTable PAP 0 0 0 "stg_PAP" (Some (noLits 1 0 1 0 code))) in
  let! h := h_endAllocInfoTable h in
  Ok (h, m, with_infos s (stg_IND_info s) info (stg_BYTEARR_info s)).

Definition buildApInfo (h : H) (m : memory) (nargs pointerMask : Z)
  : outcome (H * memory * Z) :=
  assert! nargs <=? 8 in
  let! h := h_beginAllocInfoTable h in
  let! '(h, info) := h_allocInfoTable h wordsof_CodeInfoTable in
  let bitmap := u4 (Z.lor (Z.shiftl pointerMask 1) 1) in
  let name := ap_name "Ap" nargs pointerMask in
  let! '(h, _) := h_allocString h (Z.of_nat (String.length name)) in
  let sizecode := 3 + nargs + 1 in
  let! '(h, code) := h_allocCode h sizecode 0 in
  let m := putCode m code (ap_code nargs pointerMask) [] in
  let m := store_itbl m info
    (mkInfoTable THUNK (u1 (1 + nargs)) (u2 bitmap) bitmap name
                 (Some (noLits (1 + nargs) 0 sizecode 0 code))) in
  let! h := h_endAllocInfoTable h in
  Ok (h, m, info).

Fixpoint initApInfos_loop (shapes : list (Z * Z)) (h : H) (m : memory) (small : gmap Z Z)
  : outcome (H * memory * gmap Z Z) :=
  match shapes with
  | [] => Ok (h, m, small)
  | (nargs, mask) :: shapes' =>
      let! '(h, m, info) := buildApInfo h m nargs mask in
      initApInfos_loop shapes' h m (<[apContIndex nargs mask := info]> small)
  end.
Definition initApInfos (h : H) (m : memory) (s : MiscClosures)
  : outcome (H * memory * MiscClosures) :=
  let! '(h, m, small) := initApInfos_loop small_shapes h m ∅ in
  Ok (h, m, with_ApInfos s small ∅).

(** [operator[]] enters a null pointer for a new index. *)
Definition getApInfo (h : H) (m : memory) (s : MiscClosures) (nargs pointerMask : Z)
  : outcome (H * memory * MiscClosures * Z) :=
  let index := apContIndex nargs pointerMask in
  if nargs <=? kMaxSmallArity then
    let! info := of_option WildAccess (smallApInfos s !! index) in
    Ok (h, m, s, info)
  else
    let itbl := default 0 (otherApInfos s !! index) in
    let s := with_ApInfos s (smallApInfos s) (<[index := itbl]> (otherApInfos s)) in
    if negb (itbl =? 0) then Ok (h, m, s, itbl)
    else
      let! '(h, m, itbl) := buildApInfo h m nargs pointerMask in
      assert! negb (itbl =? 0) in
      Ok (h, m, with_ApInfos s (smallApInfos s) (<[index := itbl]> (otherApInfos s)), itbl).

Definition init (h : H) (m : memory) (s : MiscClosures)
  : outcome (H * memory * MiscClosures) :=
  let! h := h_beginAllocInfoTable h in
  let! '(h, m, s) := initStopClosure h m s in
  let! '(h, m, s) := initBlackholeClosure h m s in
  let! '(h, m, s) := initByteArrInfo h m s in
  let! '(h, m, s) := initUpdateClosure h m s in
  let! '(h, m, s) := initIndirectionItbl h m s in
  let! '(h, m, s) := initApConts h m s in
  let! '(h, m, s) := initPapItbl h m s in
  let! '(h, m, s) := initApInfos h m s in
  let! h := h_endAllocInfoTable h in
  Ok (h, m, s).

(** ** Indices *)

Lemma apContIndex_range n mask :
  0 <= n <= 30 -> 0 <= mask < 2 ^ n -> 2 <= 2 ^ n + mask ->
  apContIndex n mask = 2 ^ n - 2 + mask.
Proof.
  intros Hn Hm H2. unfold apContIndex. rewrite Z.shiftl_1_l. apply (to_u_id 32).
  assert (2 ^ n <= 2 ^ 30) by (apply Z.pow_le_mono_r; lia). lia.
Qed.

Lemma apContIndex_injective n1 m1 n2 m2 :
  1 <= n1 <= 30 -> 1 <= n2 <= 30 -> 0 <= m1 < 2 ^ n1 -> 0 <= m2 < 2 ^ n2 ->
  apContIndex n1 m1 = apContIndex n2 m2 -> n1 = n2 /\ m1 = m2.
Proof.
  intros Hn1 Hn2 Hm1 Hm2.
  assert (Hp : forall n, 1 <= n <= 30 -> 2 <= 2 ^ n).
  { intros n Hn. change 2 with (2 ^ 1) at 1. apply Z.pow_le_mono_r; lia. }
  rewrite !apContIndex_range by (lia || (specialize (Hp n1); lia) || (specialize (Hp n2); lia)).
  assert (Hlt : forall a b, 0 <= a < b -> 2 ^ a * 2 <= 2 ^ b).
  { intros a b Hab. rewrite Z.mul_comm, <- (Z.pow_succ_r 2 a) by lia. apply Z.pow_le_mono_r; lia. }
  intros E. destruct (Z.lt_trichotomy n1 n2) as [Hl|[->|Hl]]; [|lia|].
  - specialize (Hlt n1 n2). lia.
  - specialize (Hlt n2 n1). lia.
Qed.

Lemma small_shapes_spec n mask :
  In (n, mask) small_shapes <-> 1 <= n <= 4 /\ 0 <= mask < 2 ^ n.
Proof.
  unfold small_shapes. rewrite in_concat. setoid_rewrite in_map_iff. split.
  - intros (l & (k & <- & Hk) & Hin). apply in_map_iff in Hin as (q & [= <- <-] & Hq).
    apply in_seq in Hk, Hq. split; [lia|]. rewrite <- (Nat2Z.inj_pow 2). lia.
  - intros [Hn Hm]. eexists. split.
    + exists (Z.to_nat n). split; [done|]. apply in_seq. lia.
    + apply in_map_iff. exists (Z.to_nat mask). rewrite !Z2Nat.id by lia. split; [done|].
      apply in_seq. assert (Z.of_nat (2 ^ Z.to_nat n) = 2 ^ n); [|lia].
      rewrite (Nat2Z.inj_pow 2), Z2Nat.id by lia. done.
Qed.

(** ** The tables are complete after [init] *)

Lemma initApConts_loop_total shapes h m small h' m' small' n mask :
  initApConts_loop shapes h m small = Ok (h', m', small') ->
  In (n, mask) shapes \/ is_Some (small !! apContIndex n mask) ->
  is_Some (small' !! apContIndex n mask).
Proof.
  revert h m small. induction shapes as [|[n' k'] shapes IH]; intros h m small Hr Hin; cbn in *.
  - simplify_eq. by destruct Hin.
  - inv_ok. eapply IH; [done|]. destruct Hin as [[[= -> ->]|Hin]|Hin]; [right|by left|right].
    + rewrite lookup_insert_eq. eauto.
    + rewrite lookup_insert_is_Some. destruct (decide (apContIndex n' k' = apContIndex n mask)); auto.
Qed.

Lemma initApInfos_loop_total shapes h m small h' m' small' n mask :
  initApInfos_loop shapes h m small = Ok (h', m', small') ->
  In (n, mask) shapes \/ is_Some (small !! apContIndex n mask) ->
  is_Some (small' !! apContIndex n mask).
Proof.
  revert h m small. induction shapes as [|[n' k'] shapes IH]; intros h m small Hr Hin; cbn in *.
  - simplify_eq. by destruct Hin.
  - inv_ok. eapply IH; [done|]. destruct Hin as [[[= -> ->]|Hin]|Hin]; [right|by left|right].
    + rewrite lookup_insert_eq. eauto.
    + rewrite lookup_insert_is_Some. destruct (decide (apContIndex n' k' = apContIndex n mask)); auto.
Qed.

Definition small_complete (s : MiscClosures) : Prop :=
  forall n mask, 1 <= n <= kMaxSmallArity -> 0 <= mask < 2 ^ n ->
    is_Some (smallApConts s !! apContIndex n mask)
    /\ is_Some (smallApInfos s !! apContIndex n mask).

(** After initialisation every application continuation and application
    thunk of up to four arguments is in its table. *)
Lemma init_complete h m s h' m' s' :
  init h m s = Ok (h', m', s') -> small_complete s'.
Proof.
  intros Hi n mask Hn Hm.
  assert (Hs : In (n, mask) small_shapes) by by apply small_shapes_spec.
  unfold init in Hi. inv_ok.
  match goal with E : initApInfos _ _ _ = _ |- _ => unfold initApInfos in E end.
  match goal with E : initPapItbl _ _ _ = _ |- _ => unfold initPapItbl in E end.
  match goal with E : initApConts _ _ _ = _ |- _ => unfold initApConts in E end.
  inv_ok. cbn. split.
  - eapply initApConts_loop_total; eauto.
  - eapply initApInfos_loop_total; eauto.
Qed.

(** ** The caches *)

(** A shape handed out once is handed out again, at no cost. *)
Lemma getApCont_again h m s n mask h' m' s' inf h2 m2 :
  getApCont h m s n mask = Ok (h', m', s', inf) ->
  getApCont h2 m2 s' n mask = Ok (h2, m2, s', inf).
Proof.
  unfold getApCont. intros Hg. inv_ok. destruct (n <=? kMaxSmallArity).
  - destruct (smallApConts s !! _) eqn:Es; inv_ok. by rewrite Es.
  - destruct (otherApConts s !! apContIndex n mask) eqn:Eo.
    + inv_ok. by rewrite Eo.
    + inv_ok. cbn. by rewrite lookup_insert_eq.
Qed.

Lemma getApInfo_again h m s n mask h' m' s' info h2 m2 :
  getApInfo h m s n mask = Ok (h', m', s', info) -> 4 < n ->
  exists s2, getApInfo h2 m2 s' n mask = Ok (h2, m2, s2, info).
Proof.
  unfold getApInfo, kMaxSmallArity. intros Hg Hn.
  destruct (Z.leb_spec n 4); [lia|]. cbv zeta in Hg.
  destruct (default 0 (otherApInfos s !! apContIndex n mask) =? 0) eqn:Eo; cbn [negb] in Hg.
  - inv_ok. cbn. rewrite lookup_insert_eq. cbn. rewrite E. eauto.
  - inv_ok. cbn. rewrite lookup_insert_eq. cbn. rewrite Eo. cbn. eauto.
Qed.

(** Asking for one shape never changes the answer for another. *)
Lemma getApCont_frame h m s n mask h' m' s' inf n2 mask2 :
  getApCont h m s n mask = Ok (h', m', s', inf) ->
  1 <= n <= 30 -> 0 <= mask < 2 ^ n -> 1 <= n2 <= 30 -> 0 <= mask2 < 2 ^ n2 ->
  (n, mask) <> (n2, mask2) ->
  smallApConts s' = smallApConts s
  /\ otherApConts s' !! apContIndex n2 mask2 = otherApConts s !! apContIndex n2 mask2.
Proof.
  unfold getApCont. intros Hg Hn Hm Hn2 Hm2 Hne. inv_ok.
  destruct (n <=? kMaxSmallArity); [by inv_ok|].
  destruct (otherApConts s !! apContIndex n mask); inv_ok; [done|]. cbn. split; [done|].
  rewrite lookup_insert_ne; [done|]. intros E'. apply Hne.
  apply apContIndex_injective in E' as [-> ->]; done.
Qed.

(** ** Layout of the generated code *)

Lemma putCode_ins m code ins bitmasks i w :
  code mod 4 = 0 -> ins !! i = Some w ->
  load_ins (putCode m code ins bitmasks) (code + 4 * Z.of_nat i) = Ok w.
Proof.
  intros Hc Hi. unfold putCode. apply lookup_lt_Some in Hi as Hlt.
  rewrite load_u2_list_out; [by apply load_ins_list| |lia|].
  - apply Z.mod_divide; [lia|]. apply Z.mod_divide in Hc as [q ->]; [|lia].
    exists (2 * q + 2 * Z.of_nat (length ins)). lia.
  - rewrite Z.mul_comm, Z.mod_add by lia. done.
Qed.

Lemma load_ins_setInfo m cl info a : load_ins (setInfo m cl info) a = load_ins m a.
Proof. done. Qed.
Lemma load_ins_store_itbl m i info a : load_ins (store_itbl m i info) a = load_ins m a.
Proof. done. Qed.

Lemma load_u2_list_putCode m code ins bitmasks :
  code mod 4 = 0 ->
  load_u2_list (putCode m code ins bitmasks) (code + 4 * Z.of_nat (length ins))
    (length bitmasks) = Ok (map (fun w => w mod 2 ^ 16) bitmasks).
Proof.
  intros Hc. apply load_store_u2_list. apply Z.mod_divide; [lia|].
  apply Z.mod_divide in Hc as [q ->]; [|lia]. exists (2 * q + 2 * Z.of_nat (length ins)). lia.
Qed.

Lemma load_u2_list_itbl m i info cl a n :
  load_u2_list (setInfo (store_itbl m i info) cl i) a n = load_u2_list m a n.
Proof. revert a. induction n as [|n IH]; intros a; [done|]. cbn. by rewrite IH. Qed.

(** What the interpreter and the collector find behind a return
    address of [getApCont]: the code that resumes the call, and before
    it the bitmap that names the saved pointers. *)
Lemma buildApCont_layout h m nargs mask h' m' inf :
  buildApCont h m nargs mask = Ok (h', m', inf) -> 0 <= nargs -> 0 <= mask ->
  is_aligned (apk_closure inf) 8 = true -> apk_returnAddr inf mod 4 = 0 ->
  let ret := apk_returnAddr inf in
  exists info c off bitmap chunks,
    closure_info m' (apk_closure inf) = Ok info /\ it_type info = AP_CONT
    /\ it_code info = Some c /\ framesize c = apContFrameSize nargs
    /\ ret = code c + 12
    /\ load_ins m' ret = Ok (BcIns.ad BcIns.kMOV_RES nargs 0)
    /\ load_ins m' (ret + 4) = Ok (BcIns.abc BcIns.kCALLT nargs 0xff nargs)
    /\ load_ins m' (ret + 8) = Ok mask
    /\ load_ins m' (ret - 4) = Ok off
    /\ BcIns.offsetToBitmask (ret - 4) off = Some bitmap
    /\ load_u2_list m' bitmap (Z.to_nat (sizebitmaps c)) = Ok chunks
    /\ frame_slots chunks 0 = Ok (set_bits mask).
Proof.
  intros Hb Hn Hm Hcl Hret ret. subst ret. unfold buildApCont in Hb. inv_ok.
  cbn [apk_closure apk_returnAddr] in *.
  match goal with E : h_allocCode _ _ _ = Ok (_, ?x) |- _ => set (code := x) in * end.
  match goal with E : byteOffset32 _ _ = Ok _ |- _ => unfold byteOffset32 in E end. inv_ok.
  replace (code + 4 * 6 - (code + 4 * 2)) with 16 in * by lia.
  replace (code + 4 * 3) with (code + 12) in * by lia.
  assert (Hcode : code mod 4 = 0).
  { rewrite <- Hret. replace (code + 12) with (code + 3 * 4) by lia. by rewrite Z.mod_add. }
  apply Z.leb_le in E1. rewrite Z.shiftl_1_l in E0. apply Z.ltb_lt in E0.
  assert (H256 : 2 ^ nargs <= 2 ^ 8) by (apply Z.pow_le_mono_r; lia).
  pose proof (putCode_ins m code (apk_code nargs mask 16)
    (encodeBitmask mask ++ encodeBitmask (u4 (Z.shiftl 1 nargs - 1)))) as Hins.
  pose proof (load_u2_list_putCode m code (apk_code nargs mask 16)
    (encodeBitmask mask ++ encodeBitmask (u4 (Z.shiftl 1 nargs - 1))) Hcode) as Hbits.
  do 5 eexists. split_and!.
  - unfold closure_info. cbn [setInfo]. unfold setInfo. rewrite load_store_eq by done.
    cbn [obind]. unfold info_at. cbn. by rewrite lookup_insert_eq.
  - done.
  - done.
  - cbn. unfold u1. rewrite to_u_id by lia. done.
  - done.
  - rewrite load_ins_setInfo, load_ins_store_itbl. by apply (Hins 3%nat).
  - replace (code + 12 + 4) with (code + 4 * Z.of_nat 4) by lia.
    rewrite load_ins_setInfo, load_ins_store_itbl. by apply Hins.
  - replace (code + 12 + 8) with (code + 4 * Z.of_nat 5) by lia.
    rewrite load_ins_setInfo, load_ins_store_itbl. apply Hins; [done|].
    cbn. f_equal. unfold BcIns.pointerInfo, u4. apply to_u_id. lia.
  - replace (code + 12 - 4) with (code + 4 * Z.of_nat 2) by lia.
    rewrite load_ins_setInfo, load_ins_store_itbl. by apply Hins.
  - done.
  - cbn [sizebitmaps noLits]. rewrite load_u2_list_itbl.
    change (BcIns.bitmapOffset 16) with 16.
    replace (code + 12 - 4 + 16)
      with (code + 4 * Z.of_nat (length (apk_code nargs mask 16))) by (cbn; lia).
    replace (Z.to_nat _) with (length (encodeBitmask mask
      ++ encodeBitmask (u4 (Z.shiftl 1 nargs - 1)))); [exact Hbits|].
    rewrite length_app, !length_encodeBitmask.
    pose proof (bitmapSize_le mask). pose proof (bitmapSize_le (u4 (Z.shiftl 1 nargs - 1))).
    unfold u2. rewrite to_u_id by lia. lia.
  - rewrite map_app, !encodeBitmask_u2. apply encodeBitmask_frame. lia.
Qed.

End heap.
End Misc.
