(* ===== verification/Capability.v ===== *)
(** * The capability: state of the interpreter ([capability.hh], first
    part of [capability.cc])

    [Capability] is the class of the same name together with the memory
    and the objects it points to; [vm] adds the local variables of
    [Capability::interpMsg].  [JitOps] is the interface to the trace
    compiler.  There is one thread, so [T] and [currentThread_] are one
    object. *)

From S2P Require Import Prelude Words Bytecode Objects Hotness HeapInterface MiscClosures.

(** The three dispatch tables of [interpMsg]. *)
Inductive AsmFunctions := dispatch_normal | dispatch_debug | dispatch_record.

#[export] Instance AsmFunctions_eq_dec : EqDecision AsmFunctions.
Proof. solve_decision. Defined.

Inductive BranchType := kCall | kReturn.

Inductive InterpExitCode :=
| kInterpOk | kInterpOutOfSteps | kInterpStackOverflow | kInterpUnimplemented.

#[export] Instance InterpExitCode_eq_dec : EqDecision InterpExitCode.
Proof. solve_decision. Defined.

Definition FRAME_SIZE : Z := 3.
Definition kStackFrameWords : Z := 3.
Definition kUpdateFrameWords : Z := 5.

(** Bits of [flags_]. *)
Definition kTraceBytecode : Z := 0.
Definition kRecording : Z := 1.
Definition kDecodeClosures : Z := 2.

Inductive CapState := STATE_INTERP | STATE_RECORD.

Record Capability {H J : Type} := mkCap {
  mem : memory;
  mm : H;
  currentThread : Thread;
  static_roots : Z;
  cap_dispatch : AsmFunctions;
  counters : HotCounters.t;
  jit : J;
  flags : Z;
  traceExitHp : Z;
  traceExitHpLim : Z;
  misc : MiscClosures
}.
Arguments Capability : clear implicits.
Arguments mkCap {H J}.

(** The locals of [interpMsg]; [code] is the address of the info table
    whose [code_] the pointer [code] denotes. *)
Record vm {H J : Type} := mkVm {
  cap : Capability H J;
  pc : Z;
  base : Z;
  heap : Z;
  heaplim : Z;
  code_info : Z;
  dispatch : AsmFunctions;
  dispatch2 : AsmFunctions
}.
Arguments vm : clear implicits.
Arguments mkVm {H J}.

(** ** The interface to the trace compiler *)
Class JitOps (H J : Type) := {
  (** [jit_.traceAt(pc)], [jit_.lookupFragment(pc)] and [F->startPc()];
      looking up may change the table. *)
  j_traceAt : J -> Z -> option Z;
  j_lookupFragment : J -> Z -> J * option Z;
  j_startPc : J -> Z -> Z;
  (** [asmEnter]: running compiled code, from its fragment, with the
      heap bounds and the stack limit. *)
  j_asmEnter : Capability H J -> Z -> Z -> Z -> Z -> outcome (Capability H J);
  j_beginRecording : Capability H J -> Z -> Z -> bool -> outcome (Capability H J);
  j_recordIns : Capability H J -> Z -> Z -> Z -> outcome (Capability H J * bool);
  j_requestAbort : J -> J
}.

(** The memory and the thread of a machine state. *)
Abbreviation memof s := (mem (cap s)).
Abbreviation T s := (currentThread (cap s)).

(** ** Field updates *)
Section updates.
Context {H J : Type}.
Implicit Types (c : Capability H J) (s : vm H J).

Definition set_cap_mem c (m : memory) : Capability H J :=
  mkCap m (mm c) (currentThread c) (static_roots c) (cap_dispatch c) (counters c) (jit c)
    (flags c) (traceExitHp c) (traceExitHpLim c) (misc c).
Definition set_cap_mm c (m : memory) (h : H) : Capability H J :=
  mkCap m h (currentThread c) (static_roots c) (cap_dispatch c) (counters c) (jit c)
    (flags c) (traceExitHp c) (traceExitHpLim c) (misc c).
Definition set_cap_misc c (m : memory) (h : H) (ms : MiscClosures) : Capability H J :=
  mkCap m h (currentThread c) (static_roots c) (cap_dispatch c) (counters c) (jit c)
    (flags c) (traceExitHp c) (traceExitHpLim c) ms.
Definition set_cap_T c (t : Thread) : Capability H J :=
  mkCap (mem c) (mm c) t (static_roots c) (cap_dispatch c) (counters c) (jit c)
    (flags c) (traceExitHp c) (traceExitHpLim c) (misc c).
Definition set_cap_roots c (r : Z) : Capability H J :=
  mkCap (mem c) (mm c) (currentThread c) r (cap_dispatch c) (counters c) (jit c)
    (flags c) (traceExitHp c) (traceExitHpLim c) (misc c).
Definition set_cap_mode c (d : AsmFunctions) (f : Z) : Capability H J :=
  mkCap (mem c) (mm c) (currentThread c) (static_roots c) d (counters c) (jit c)
    f (traceExitHp c) (traceExitHpLim c) (misc c).
Definition set_cap_counters c (k : HotCounters.t) : Capability H J :=
  mkCap (mem c) (mm c) (currentThread c) (static_roots c) (cap_dispatch c) k (jit c)
    (flags c) (traceExitHp c) (traceExitHpLim c) (misc c).
Definition set_cap_jit c (j : J) : Capability H J :=
  mkCap (mem c) (mm c) (currentThread c) (static_roots c) (cap_dispatch c) (counters c) j
    (flags c) (traceExitHp c) (traceExitHpLim c) (misc c).

Definition set_cap s (c : Capability H J) : vm H J :=
  mkVm c (pc s) (base s) (heap s) (heaplim s) (code_info s) (dispatch s) (dispatch2 s).
Definition set_pc s (p : Z) : vm H J :=
  mkVm (cap s) p (base s) (heap s) (heaplim s) (code_info s) (dispatch s) (dispatch2 s).
Definition set_base s (b : Z) : vm H J :=
  mkVm (cap s) (pc s) b (heap s) (heaplim s) (code_info s) (dispatch s) (dispatch2 s).
Definition set_heap s (h lim : Z) : vm H J :=
  mkVm (cap s) (pc s) (base s) h lim (code_info s) (dispatch s) (dispatch2 s).
Definition set_code s (k : Z) : vm H J :=
  mkVm (cap s) (pc s) (base s) (heap s) (heaplim s) k (dispatch s) (dispatch2 s).
Definition set_dispatch s (d d2 : AsmFunctions) : vm H J :=
  mkVm (cap s) (pc s) (base s) (heap s) (heaplim s) (code_info s) d d2.

Definition set_mem s (m : memory) : vm H J := set_cap s (set_cap_mem (cap s) m).
Definition set_T s (t : Thread) : vm H J := set_cap s (set_cap_T (cap s) t).
Definition set_top s (top : Z) : vm H J := set_T s (Thread.set_top (T s) top).

(** [base[i]] *)
Definition reg s (i : Z) : outcome Z := load (memof s) (base s + 8 * i).
Definition set_reg s (i v : Z) : vm H J := set_mem s (store (memof s) (base s + 8 * i) v).

(** [T->sync(pc, base)] *)
Definition thread_sync s (p : Z) : vm H J := set_T s (Thread.sync (T s) p (base s)).
End updates.

Section capability.
Context {H J : Type} `{HeapOps H} `{JitOps H J}.
Implicit Types (c : Capability H J) (s : vm H J).

Definition isRecording c : bool := Flags32.get (flags c) kRecording.
Definition isEnabledBytecodeTracing c : bool := Flags32.get (flags c) kTraceBytecode.

(** [setState]; the timing statistics are left out. *)
Definition setState c (st : CapState) : Capability H J :=
  match st with
  | STATE_INTERP => set_cap_mode c dispatch_normal (Flags32.clear (flags c) kRecording)
  | STATE_RECORD => set_cap_mode c dispatch_record (Flags32.set (flags c) kRecording)
  end.
Definition finishRecording c : Capability H J := setState c STATE_INTERP.

(** [stackOverflow]: the arithmetic on [increment] is that of [u4]. *)
Definition stackOverflow (t : Thread) (top increment : Z) : bool :=
  let headroom := FRAME_SIZE + 1 in
  Thread.stackLimit t <? top + 8 * u4 increment + 8 * headroom.

(** [pushFrame]: the new memory, top and base. *)
Definition pushFrame (m : memory) (top base ret clos framesize : Z) : memory * Z * Z :=
  let m := store m top base in
  let m := store m (top + 8) ret in
  let m := store m (top + 16) clos in
  let base := top + 24 in
  (m, base + 8 * framesize, base).

(** [LOAD_STATE_FROM_CAP] and the switch to the debug table, for the
    configuration where [DEBUG_COMPONENTS] is 0. *)
Definition load_state s : vm H J :=
  let c := cap s in
  let d := if isEnabledBytecodeTracing c then dispatch_debug else cap_dispatch c in
  mkVm c (t_pc (currentThread c)) (t_base (currentThread c)) (heap s) (heaplim s)
    (code_info s) d (cap_dispatch c).

(** Entering a fragment, the part that [interpBranch] and [JFUNC]
    share: [p] is the address to resume at. *)
Definition enter_trace s (F p : Z) : outcome (vm H J) :=
  let s := thread_sync s p in
  let! c := j_asmEnter (cap s) F (heap s) (heaplim s)
              (Thread.stackLimit (T s) - 8 * 200) in
  let s := load_state (set_heap (set_cap s c) (traceExitHp c) (traceExitHpLim c)) in
  let! cl := reg s (-1) in
  let! info := closure_info_addr (memof s) cl in
  Ok (set_code s info).

Definition isStartOfTrace (m : memory) (srcPc dstPc : Z) (branchType : BranchType)
  : outcome bool :=
  if dstPc <? srcPc then
    let! w := load_ins m dstPc in
    Ok (bool_decide (BcIns.opcode w = Some BcIns.kFUNC)
        || match branchType with kReturn => true | kCall => false end)
  else Ok false.

(** The code [reload_state_code] that [interpBranch] may return a
    pointer to is one SYNC instruction outside the bytecode segment;
    its address is a constant of the program image. *)
Context (reload_state_pc : Z).

(** [interpBranch(pc, dstPc, base, branchType, ...)]: the state whose
    [pc] is the returned address. *)
Definition interpBranch s (dstPc : Z) (branchType : BranchType) : outcome (vm H J) :=
  if isRecording (cap s) then Ok (set_pc s dstPc)
  else
    let! start := isStartOfTrace (memof s) (pc s) dstPc branchType in
    if start : bool then
      match j_traceAt (jit (cap s)) dstPc with
      | Some F => enter_trace s F dstPc
      | None =>
          let! '(hot, k) := HotCounters.tick (counters (cap s)) dstPc in
          let s := set_cap s (set_cap_counters (cap s) k) in
          if hot && negb (dstPc =? stg_UPD_return_pc (misc (cap s))) then
            let s := thread_sync s dstPc in
            let c := setState (cap s) STATE_RECORD in
            let! c := j_beginRecording c dstPc (base s)
                        match branchType with kReturn => true | kCall => false end in
            Ok (set_pc (set_cap s c) reload_state_pc)
          else Ok (set_pc s dstPc)
      end
    else Ok (set_pc s dstPc).
End capability.
