(* ===== verification/WordCopy.v ===== *)
(** * Moving words between stack and heap

    The copying loops of the interpreter ([capability.cc]): [memmove],
    the argument loops of CALL, ALLOC and ALLOCAP, and the two loops
    that unpack a partial application.  Each comes with what it leaves
    where, and what it does not touch. *)

From S2P Require Import Prelude Words Bytecode Objects HeapInterface.

(** ** The loops *)

(** Reads of [n] consecutive words, and writes of a list. *)
Fixpoint load_words (m : memory) (a : Z) (n : nat) : outcome (list Z) :=
  match n with
  | O => Ok []
  | S n' => let! w := load m a in
            let! l := load_words m (a + 8) n' in Ok (w :: l)
  end.
Fixpoint store_words (m : memory) (a : Z) (l : list Z) : memory :=
  match l with
  | [] => m
  | w :: l' => store_words (store m a w) (a + 8) l'
  end.

(** [memmove]: the source is read before the target is written. *)
Definition memmove (m : memory) (dst src n : Z) : outcome memory :=
  let! l := load_words m src (Z.to_nat n) in Ok (store_words m dst l).

(** The loops that copy argument registers: the register numbers are
    the bytes at [args]; [from] is the frame they are read from and
    [dst] the address of the first word written. *)
Fixpoint copy_args (n : nat) (m : memory) (from args dst : Z) : outcome memory :=
  match n with
  | O => Ok m
  | S n' =>
      let! r := load_ins_u1 m args in
      let! v := load m (from + 8 * r) in
      copy_args n' (store m dst v) from (args + 1) (dst + 8)
  end.

(** [for (i = n - 1; i >= 0; --i) base[k + i] = base[i]] *)
Fixpoint move_up (n : nat) (m : memory) (base k : Z) : outcome memory :=
  match n with
  | O => Ok m
  | S i =>
      let! v := load m (base + 8 * Z.of_nat i) in
      move_up i (store m (base + 8 * (k + Z.of_nat i)) v) base k
  end.

(** [for (i = 0; i < n; ++i) dst[i] = src[i]], one word at a time. *)
Fixpoint copy_words (n : nat) (m : memory) (src dst : Z) : outcome memory :=
  match n with
  | O => Ok m
  | S n' =>
      let! v := load m src in
      copy_words n' (store m dst v) (src + 8) (dst + 8)
  end.

(** ** Contents of a range of words *)

(** The words from [a] on are those of [l]. *)
Definition words_at (m : memory) (a : Z) (l : list Z) : Prop :=
  forall i w, l !! i = Some w -> load m (a + 8 * Z.of_nat i) = Ok w.

(** [m'] differs from [m] at most in the words from [a] up to [b]. *)
Definition same_except (a b : Z) (m m' : memory) : Prop :=
  (forall p, p < a \/ b <= p -> load m' p = load m p)
  /\ itbls m' = itbls m /\ bytecode m' = bytecode m.

Lemma words_at_nil m a : words_at m a [].
Proof. by intros i w. Qed.

Lemma words_at_cons m a x l :
  words_at m a (x :: l) <-> load m a = Ok x /\ words_at m (a + 8) l.
Proof.
  split.
  - intros Hw. split; [specialize (Hw 0%nat x eq_refl); by rewrite Z.add_0_r in Hw|].
    intros i w Hi. specialize (Hw (S i) w Hi). by replace (a + 8 + 8 * Z.of_nat i)
      with (a + 8 * Z.of_nat (S i)) by lia.
  - intros [Hx Hl] [|i] w Hi; cbn in Hi; simplify_eq; [by rewrite Z.add_0_r|].
    specialize (Hl i w Hi). by replace (a + 8 * Z.of_nat (S i)) with (a + 8 + 8 * Z.of_nat i) by lia.
Qed.

Lemma words_at_app m a l1 l2 :
  words_at m a (l1 ++ l2) <->
  words_at m a l1 /\ words_at m (a + 8 * Z.of_nat (length l1)) l2.
Proof.
  revert a. induction l1 as [|x l1 IH]; intros a; cbn [app length].
  - rewrite Z.add_0_r. pose proof (words_at_nil m a). tauto.
  - rewrite !words_at_cons, IH. replace (a + 8 + 8 * Z.of_nat (length l1))
      with (a + 8 * Z.of_nat (S (length l1))) by lia. tauto.
Qed.

Lemma words_at_weaken m m' a b p l :
  same_except a b m m' -> p + 8 * Z.of_nat (length l) <= a \/ b <= p ->
  words_at m p l -> words_at m' p l.
Proof.
  intros (Hs & _) Hp Hw i w Hi. apply lookup_lt_Some in Hi as Hlt.
  rewrite Hs by lia. by apply Hw.
Qed.

Lemma same_refl a b m : same_except a b m m.
Proof. by split_and!. Qed.

Lemma same_trans a b a' b' m m' m'' :
  same_except a b m m' -> same_except a' b' m' m'' ->
  same_except (Z.min a a') (Z.max b b') m m''.
Proof.
  intros (H1 & H2 & H3) (H1' & H2' & H3'). split_and!; [|congruence..].
  intros p Hp. rewrite H1', H1 by lia. done.
Qed.

Lemma same_mono a b a' b' m m' :
  a' <= a -> b <= b' -> same_except a b m m' -> same_except a' b' m m'.
Proof. intros ? ? (H1 & ? & ?). split_and!; [|done..]. intros p Hp. apply H1. lia. Qed.

Lemma same_chain a b m m' m'' :
  same_except a b m m' -> same_except a b m' m'' -> same_except a b m m''.
Proof. intros H1 H2. eapply same_mono; [..|exact (same_trans _ _ _ _ _ _ _ H1 H2)]; lia. Qed.

Lemma same_store_in a b m p v :
  a <= p -> p + 8 <= b -> same_except a b m (store m p v).
Proof. intros ? ?. split_and!; [|done..]. intros q Hq. apply load_store_ne. lia. Qed.

Lemma same_store a m v : same_except a (a + 8) m (store m a v).
Proof. split_and!; [|done..]. intros p Hp. apply load_store_ne. lia. Qed.

Lemma same_load_ins a b m m' p : same_except a b m m' -> load_ins m' p = load_ins m p.
Proof. intros (_ & _ & Hb). unfold load_ins. by rewrite Hb. Qed.

Lemma same_load_ins_u1 a b m m' p : same_except a b m m' -> load_ins_u1 m' p = load_ins_u1 m p.
Proof. intros Hs. unfold load_ins_u1. by rewrite (same_load_ins a b m m'). Qed.

Lemma same_load a b m m' p : same_except a b m m' -> p < a \/ b <= p -> load m' p = load m p.
Proof. intros (Hl & _). apply Hl. Qed.

Lemma same_info_at a b m m' p : same_except a b m m' -> info_at m' p = info_at m p.
Proof. intros (_ & Hi & _). unfold info_at. by rewrite Hi. Qed.

Lemma aligned_8 a : is_aligned a 8 = true -> is_aligned (a + 8) 8 = true.
Proof. intros H. exact (aligned_add a 1 H). Qed.
#[export] Hint Resolve aligned_add aligned_8 : memory.

(** ** The loops do what they say *)

Lemma load_words_at m a n l :
  load_words m a n = Ok l <-> length l = n /\ words_at m a l.
Proof.
  revert a l. induction n as [|n IH]; intros a l; cbn [load_words].
  - split; [intros [= <-]; split; [done|apply words_at_nil]|].
    by intros [->%nil_length_inv _].
  - split.
    + intros H. inv_ok. apply IH in H1 as [<- Hw]. split; [done|].
      by apply words_at_cons.
    + intros [Hl Hw]. destruct l as [|w l]; [done|]. apply words_at_cons in Hw as [-> Hw].
      cbn [obind]. injection Hl as Hl. by rewrite (proj2 (IH _ l)) by done.
Qed.

Lemma store_words_spec m a l :
  is_aligned a 8 = true ->
  words_at (store_words m a l) a l
  /\ same_except a (a + 8 * Z.of_nat (length l)) m (store_words m a l).
Proof.
  revert m a. induction l as [|w l IH]; intros m a Ha; cbn [store_words].
  - split; [apply words_at_nil|apply same_refl].
  - destruct (IH (store m a w) (a + 8)) as [Hw Hs]; [by apply aligned_8|]. split.
    + apply words_at_cons. split; [|done].
      rewrite (same_load _ _ _ _ a Hs) by lia. by apply load_store_eq.
    + eapply same_mono; [..|exact (same_trans _ _ _ _ _ _ _ (same_store a m w) Hs)];
        cbn [length]; lia.
Qed.

Lemma memmove_spec m dst src l m' :
  is_aligned dst 8 = true -> words_at m src l ->
  memmove m dst src (Z.of_nat (length l)) = Ok m' ->
  words_at m' dst l /\ same_except dst (dst + 8 * Z.of_nat (length l)) m m'.
Proof.
  intros Ha Hw. unfold memmove. rewrite Nat2Z.id.
  rewrite (proj2 (load_words_at m src _ l)) by done. intros [= <-].
  by apply store_words_spec.
Qed.

Lemma memmove_total m dst src l :
  words_at m src l -> exists m', memmove m dst src (Z.of_nat (length l)) = Ok m'.
Proof.
  intros Hw. unfold memmove. rewrite Nat2Z.id.
  rewrite (proj2 (load_words_at m src _ l)) by done. by eexists.
Qed.

Lemma copy_words_spec m src dst l :
  is_aligned dst 8 = true -> words_at m src l ->
  src + 8 * Z.of_nat (length l) <= dst \/ dst + 8 * Z.of_nat (length l) <= src ->
  exists m', copy_words (length l) m src dst = Ok m'
    /\ words_at m' dst l /\ same_except dst (dst + 8 * Z.of_nat (length l)) m m'.
Proof.
  revert m src dst. induction l as [|w l IH]; intros m src dst Ha Hw Hd; cbn [copy_words length].
  - exists m. split_and!; [done|apply words_at_nil|apply same_refl|done..].
  - apply words_at_cons in Hw as [-> Hw]. cbn [obind].
    destruct (IH (store m dst w) (src + 8) (dst + 8)) as (m' & Hc & Hw' & Hs).
    + by apply aligned_8.
    + eapply words_at_weaken; [apply (same_store dst)| |done]. cbn [length] in Hd. lia.
    + cbn [length] in Hd. lia.
    + exists m'. split; [done|]. split.
      * apply words_at_cons. split; [|done].
        rewrite (same_load _ _ _ _ dst Hs) by lia. by apply load_store_eq.
      * eapply same_mono; [..|exact (same_trans _ _ _ _ _ _ _ (same_store dst m w) Hs)];
          cbn [length]; lia.
Qed.

(** Moving up walks downwards, so the ranges may overlap. *)
Lemma move_up_spec l m base k :
  is_aligned base 8 = true -> words_at m base l -> 0 <= k ->
  exists m', move_up (length l) m base k = Ok m'
    /\ words_at m' (base + 8 * k) l
    /\ same_except (base + 8 * k) (base + 8 * (k + Z.of_nat (length l))) m m'.
Proof.
  revert m. induction l as [|w l IH] using rev_ind; intros m Ha Hw Hk.
  - exists m. split_and!; [done|apply words_at_nil|apply same_refl|done..].
  - rewrite length_app, Nat.add_1_r. cbn [move_up].
    apply words_at_app in Hw as [Hl Hw%words_at_cons]. destruct Hw as [-> _]. cbn [obind].
    set (p := base + 8 * (k + Z.of_nat (length l))).
    destruct (IH (store m p w)) as (m' & Hc & Hw' & Hs); [done| |done|].
    { eapply words_at_weaken; [apply (same_store p)|unfold p; lia|done]. }
    exists m'. split; [done|]. split.
    + apply words_at_app. split; [done|]. apply words_at_cons. split; [|apply words_at_nil].
      replace (base + 8 * k + 8 * Z.of_nat (length l)) with p by (unfold p; lia).
      rewrite (same_load _ _ _ _ p Hs) by (unfold p; lia). apply load_store_eq.
      by apply aligned_add.
    + eapply same_mono; [..|exact (same_trans _ _ _ _ _ _ _ (same_store p m w) Hs)];
        unfold p; lia.
Qed.

(** Register numbers [rs], as bytes behind an instruction, and the
    values [vs] those registers of the frame [from] hold. *)
Definition arg_regs (m : memory) (args : Z) (rs : list Z) : Prop :=
  forall i r, rs !! i = Some r -> load_ins_u1 m (args + Z.of_nat i) = Ok r.
Definition reg_values (m : memory) (from : Z) (rs vs : list Z) : Prop :=
  Forall2 (fun r v => load m (from + 8 * r) = Ok v) rs vs.

Lemma copy_args_spec m from args dst rs vs :
  is_aligned dst 8 = true -> arg_regs m args rs -> reg_values m from rs vs ->
  Forall (fun r => from + 8 * r + 8 <= dst \/ dst + 8 * Z.of_nat (length rs) <= from + 8 * r) rs ->
  exists m', copy_args (length rs) m from args dst = Ok m'
    /\ words_at m' dst vs /\ same_except dst (dst + 8 * Z.of_nat (length rs)) m m'.
Proof.
  intros Ha Hr Hv Hf. revert m args dst Ha Hr Hv Hf.
  induction rs as [|r rs IH] in vs |- *; intros m args dst Ha Hr Hv Hf; cbn [copy_args length].
  - inversion Hv. exists m. split_and!; [done|apply words_at_nil|apply same_refl|done..].
  - inversion Hv as [|? v ? vs' Hv1 Hv2]; subst.
    assert (Hr0 := Hr 0%nat r eq_refl). rewrite Z.add_0_r in Hr0. rewrite Hr0. cbn [obind].
    rewrite Hv1. cbn [obind]. apply Forall_cons in Hf as [Hf0 Hf]. cbn [length] in *.
    destruct (IH vs' (store m dst v) (args + 1) (dst + 8)) as (m' & Hc & Hw' & Hs).
    + by apply aligned_8.
    + intros i r' Hi. specialize (Hr (S i) r' Hi).
      by replace (args + 1 + Z.of_nat i) with (args + Z.of_nat (S i)) by lia.
    + eapply Forall2_Forall_impl; [exact Hv2|exact Hf|]. cbn. intros r' v' Hl Hv'.
      rewrite load_store_ne by lia. done.
    + eapply Forall_impl; [exact Hf|]. cbn. lia.
    + exists m'. split; [done|]. split.
      * apply words_at_cons. split; [|done].
        rewrite (same_load _ _ _ _ dst Hs) by lia. by apply load_store_eq.
      * eapply same_mono; [..|exact (same_trans _ _ _ _ _ _ _ (same_store dst m v) Hs)]; lia.
Qed.
