(* ===== verification/Interp.v ===== *)
(** * The bytecode interpreter ([Capability::interpMsg])

    One definition per group of opcodes of [capability.cc], following
    the labels of the source, and the dispatch loop.  Machine words are
    integers in [0, 2^64); signed overflow of the arithmetic opcodes
    wraps, as the comment at [op_MULRR] says the source intends. *)

From S2P Require Import Prelude Words Bytecode Objects Hotness HeapInterface MiscClosures.
From S2P Require Import Capability WordCopy.
Import BcIns (Opcode(..)).

(** ** Pure parts *)

(** The tests of the compare-and-branch opcodes. *)
Definition branch_cond (op : Opcode) (x y : Z) : option bool :=
  match op with
  | kISLT => Some (i8 x <? i8 y)
  | kISGE => Some (i8 y <=? i8 x)
  | kISLE => Some (i8 x <=? i8 y)
  | kISGT => Some (i8 y <? i8 x)
  | kISLTU => Some (u8 x <? u8 y)
  | kISGEU => Some (u8 y <=? u8 x)
  | kISLEU => Some (u8 x <=? u8 y)
  | kISGTU => Some (u8 y <? u8 x)
  | kISEQ => Some (u8 x =? u8 y)
  | kISNE => Some (negb (u8 x =? u8 y))
  | _ => None
  end.

(** A shift by an amount outside the width is undefined. *)
Definition shift_amount (y : Z) : outcome Z :=
  let n := i4 y in
  if (0 <=? n) && (n <? 64) then Ok n else Err UndefinedOp.

(** The three-register opcodes. *)
Definition alu (op : Opcode) (x y : Z) : option (outcome Z) :=
  let bool_word (b : bool) : option (outcome Z) := Some (Ok (if b then 1 else 0)) in
  match op with
  | kADDRR => Some (Ok (u8 (x + y)))
  | kSUBRR => Some (Ok (u8 (x - y)))
  | kMULRR => Some (Ok (u8 (i8 x * i8 y)))
  | kDIVRR => Some (if (i8 y =? 0) || ((i8 x =? - 2 ^ 63) && (i8 y =? -1))
                    then Err UndefinedOp else Ok (u8 (Z.quot (i8 x) (i8 y))))
  | kREMRR => Some (if (i8 y =? 0) || ((i8 x =? - 2 ^ 63) && (i8 y =? -1))
                    then Err UndefinedOp else Ok (u8 (Z.rem (i8 x) (i8 y))))
  | kCMPLT => bool_word (i8 x <? i8 y)
  | kCMPGE => bool_word (i8 y <=? i8 x)
  | kCMPLE => bool_word (i8 x <=? i8 y)
  | kCMPGT => bool_word (i8 y <? i8 x)
  | kCMPEQ => bool_word (i8 x =? i8 y)
  | kCMPNE => bool_word (negb (i8 x =? i8 y))
  | kCMPLTU => bool_word (u8 x <? u8 y)
  | kCMPGEU => bool_word (u8 y <=? u8 x)
  | kCMPLEU => bool_word (u8 x <=? u8 y)
  | kCMPGTU => bool_word (u8 y <? u8 x)
  | kBAND => Some (Ok (Z.land x y))
  | kBOR => Some (Ok (Z.lor x y))
  | kBXOR => Some (Ok (Z.lxor x y))
  | kBSHL => Some (let! n := shift_amount y in Ok (u8 (Z.shiftl x n)))
  | kBSHR => Some (let! n := shift_amount y in Ok (Z.shiftr (u8 x) n))
  | kBSAR => Some (let! n := shift_amount y in Ok (u8 (Z.shiftr (i8 x) n)))
  | kBROL => Some (let! n := shift_amount y in
                   if n =? 0 then Err UndefinedOp
                   else Ok (Z.lor (u8 (Z.shiftl x n)) (Z.shiftr (u8 x) (64 - n))))
  | kBROR => Some (let! n := shift_amount y in
                   if n =? 0 then Err UndefinedOp
                   else Ok (Z.lor (Z.shiftr (u8 x) n) (u8 (Z.shiftl x (64 - n)))))
  | _ => None
  end.

(** The two-register opcodes without memory access. *)
Definition alu1 (op : Opcode) (x : Z) : option Z :=
  match op with
  | kNEG => Some (u8 (- i8 x))
  | kMOV => Some x
  | kBNOT => Some (u8 (Z.lnot x))
  | _ => None
  end.

(** The binary search of CASE_S over the words of the table; the
    answer is [offset], 0 when there is no alternative for the tag. *)
Fixpoint case_s_search (fuel : nat) (m : memory) (targets tag istart iend : Z) : outcome Z :=
  match fuel with
  | O => Err OutOfFuel
  | S fuel' =>
      if 0 <=? iend - istart then
        let imid := istart + Z.quot (iend - istart) 2 in
        let! alt := load_ins m (targets + 4 * imid) in
        let alttag := Z.shiftr alt 16 in
        if tag =? alttag then Ok (Z.land alt 0xffff + 1)
        else if tag <? alttag then case_s_search fuel' m targets tag istart (imid - 1)
        else case_s_search fuel' m targets tag (imid + 1) iend
      else Ok 0
  end.

Definition sizeof_ByteArrayClosure : Z := 16.
Definition BYTEARR_bytes : Z := 8.
Definition BYTEARR_payload : Z := 16.

(** The address of element [offset], after the two assertions. *)
Definition array_elem (m : memory) (arr offset size : Z) : outcome Z :=
  assert! negb (arr =? 0) in
  let! bytes := load m (arr + BYTEARR_bytes) in
  assert! u8 (offset * size) <? bytes in
  Ok (u8 (arr + BYTEARR_payload + offset * size)).

(** ** Results of an opcode *)

Inductive next (H J : Type) :=
| Continue (s : vm H J)
| Halt (code : InterpExitCode) (s : vm H J).
Arguments Continue {H J} s.
Arguments Halt {H J} code s.

Section interp.
Context {H J : Type} `{HeapOps H} `{JitOps H J}.
(** [fuel] bounds the loops of one opcode: chains of indirections,
    chains of partial applications, retried allocations and the
    binary search. *)
Context (reload_state_pc : Z) (fuel : nat).
Implicit Types s : vm H J.

Definition opB (D : Z) : Z := Z.shiftr D 8.
Definition opC (D : Z) : Z := Z.land D 0xff.

Definition code_of s : outcome Code :=
  let! info := info_at (memof s) (code_info s) in
  of_option WildAccess (it_code info).

Definition branch_to s (dst : Z) (ty : BranchType) : outcome (next H J) :=
  let! s := interpBranch reload_state_pc s dst ty in Ok (Continue s).

(** [T->sync(pc, base); mm_->sync(heap, heaplim); return code] *)
Definition halt_sync s (code : InterpExitCode) : outcome (next H J) :=
  let s := thread_sync s (pc s) in
  let! h := h_sync (mm (cap s)) (heap s) (heaplim s) in
  Ok (Halt code (set_cap s (set_cap_mm (cap s) (memof s) h))).

Definition stack_overflow s : outcome (next H J) := halt_sync s kInterpStackOverflow.

(** [heapOverflow]: [pc] points behind the allocating instruction. *)
Definition heapOverflow s : outcome (next H J) :=
  let s := if isRecording (cap s)
           then set_cap s (set_cap_jit (cap s) (j_requestAbort (jit (cap s)))) else s in
  let s := set_pc s (pc s - 4) in
  let s := thread_sync s (pc s) in
  let! '(h, m, hp, lim) := h_bumpAllocatorFull (mm (cap s)) (memof s) (T s)
                             (static_roots (cap s)) (heap s) (heaplim s) in
  Ok (Continue (set_heap (set_cap s (set_cap_mm (cap s) m h)) hp lim)).

(** [BUMP_HEAP(payloadWords)]: [None] asks for [heapOverflow]. *)
Definition bump_heap s (payloadWords : Z) : option (vm H J) :=
  let hp := heap s + (1 + payloadWords) * 8 in
  if heaplim s <? hp then None else Some (set_heap s hp (heaplim s)).

(** ** Allocation *)

Definition op_ALLOC1 s (A D : Z) : outcome (next H J) :=
  let cl := heap s in
  match bump_heap s 1 with
  | None => heapOverflow s
  | Some s =>
      let s := set_pc s (pc s + 4) in
      let! info := reg s (opB D) in
      let s := set_mem s (setInfo (memof s) cl info) in
      let! v := reg s (opC D) in
      let s := set_mem s (setPayload (memof s) cl 0 v) in
      Ok (Continue (set_reg s A cl))
  end.

Definition op_ALLOC s (A D : Z) : outcome (next H J) :=
  let cl := heap s in
  match bump_heap s (opC D) with
  | None => heapOverflow s
  | Some s =>
      let! info := reg s (opB D) in
      let m := setInfo (memof s) cl info in
      let! m := copy_args (Z.to_nat (opC D)) m (base s) (pc s) (cl + 8) in
      let s := set_pc (set_mem s m) (pc s + 4 * (BcIns.BC_ROUND (opC D) + 1)) in
      Ok (Continue (set_reg s A cl))
  end.

Definition op_ALLOCAP s (A D : Z) : outcome (next H J) :=
  let nargs := opC D in
  let pointerMask := opB D in
  assert! 0 <? nargs in
  assert! nargs <=? BcIns.kMaxCallArgs in
  let cl := heap s in
  match bump_heap s (nargs + 1) with
  | None => heapOverflow s
  | Some s =>
      let! '(h, m, ms, info) := Misc.getApInfo (mm (cap s)) (memof s) (misc (cap s))
                                  nargs pointerMask in
      let m := setInfo m cl info in
      let! m := copy_args (Z.to_nat (nargs + 1)) m (base s) (pc s) (cl + 8) in
      let! p0 := payload m cl 0 in
      let! isCon := isConstructor fuel m p0 in
      assert! negb isCon in
      let s := set_cap s (set_cap_misc (cap s) m h ms) in
      let s := set_pc s (pc s + 4 * (BcIns.BC_ROUND (nargs + 1) + 1)) in
      Ok (Continue (set_reg s A cl))
  end.

Definition op_NEWBYTEA s (A D : Z) : outcome (next H J) :=
  let! payloadSizeBytes := reg s (opB D) in
  let payloadSizeWords := roundUpBytesToWords payloadSizeBytes in
  let! '(h, m, cl) := h_allocLarge (mm (cap s)) (memof s)
                        (u8 (sizeof_ByteArrayClosure + payloadSizeWords * 8)) in
  let m := store m cl (stg_BYTEARR_info (misc (cap s))) in
  let m := store m (cl + BYTEARR_bytes) payloadSizeBytes in
  Ok (Continue (set_reg (set_cap s (set_cap_mm (cap s) m h)) A cl)).

(** ** Evaluation and update *)

Definition op_EVAL s (A : Z) : outcome (next H J) :=
  let! tnode := reg s A in
  assert! negb (tnode =? 0) in
  assert! h_looksLikeClosure (mm (cap s)) (memof s) tnode in
  let! tnode := followIndirections fuel (memof s) tnode in
  let! info_addr := closure_info_addr (memof s) tnode in
  assert! negb (info_addr =? stg_IND_info (misc (cap s))) in
  let! hnf := isHNF (memof s) tnode in
  let top := t_top (T s) in
  if hnf : bool then
    let s := set_mem s (store (memof s) (top + 8 * FRAME_SIZE) tnode) in
    Ok (Continue (set_pc s (pc s + 4)))
  else
    let! info := closure_info (memof s) tnode in
    let! c := of_option WildAccess (it_code info) in
    if stackOverflow (T s) top (kStackFrameWords + kUpdateFrameWords + framesize c)
    then stack_overflow s
    else
      let returnPc := pc s + 4 in
      let '(m, top1, base1) := pushFrame (memof s) top (base s) returnPc
                                 (stg_UPD_closure_addr (misc (cap s))) 2 in
      let m := store m base1 tnode in
      let m := store m (base1 + 8) 0xbadbadff in
      let '(m, top2, base2) := pushFrame m top1 base1 (stg_UPD_return_pc (misc (cap s)))
                                 tnode (framesize c) in
      assert! base2 =? top + 8 * (kStackFrameWords + kUpdateFrameWords) in
      assert! top2 =? base2 + 8 * framesize c in
      let s := set_top (set_base (set_mem s m) base2) top2 in
      branch_to (set_code s info_addr) (code c) kCall.

Definition do_return s : outcome (next H J) :=
  let s := set_top s (base s - 24) in
  let! dst_pc := reg s (-2) in
  let! b := reg s (-3) in
  let s := set_base s b in
  let! node := reg s (-1) in
  assert! h_looksLikeClosure (mm (cap s)) (memof s) node in
  let! info_addr := closure_info_addr (memof s) node in
  let s := set_code s info_addr in
  let! c := code_of s in
  assert! (code c <? dst_pc) && (dst_pc <? code c + 4 * sizecode c) in
  branch_to s dst_pc kReturn.

Definition op_RETN s (A : Z) : outcome (next H J) :=
  assert! base s + 8 * A <=? t_top (T s) in do_return s.
Definition op_RET1 s (A : Z) : outcome (next H J) :=
  let! v := reg s A in op_RETN (set_reg s 0 v) A.
Definition op_IRET s (A : Z) : outcome (next H J) :=
  let! v := reg s A in do_return (set_reg s 0 v).

Definition op_UPDATE s (A D : Z) : outcome (next H J) :=
  let! oldnode := reg s A in
  let! newnode := reg s D in
  let! info := closure_info (memof s) oldnode in
  assert! negb (oldnode =? 0) && h_looksLikeClosure (mm (cap s)) (memof s) oldnode in
  assert! negb (newnode =? 0) && h_looksLikeClosure (mm (cap s)) (memof s) newnode in
  let! hnf := isHNF (memof s) oldnode in
  assert! negb hnf in
  let m := setInfo (memof s) oldnode (stg_IND_info (misc (cap s))) in
  let s := set_mem s (setPayload m oldnode 0 newnode) in
  if bool_decide (it_type info = CAF) then
    let s := set_mem s (setPayload (memof s) oldnode 1 (static_roots (cap s))) in
    Ok (Continue (set_cap s (set_cap_roots (cap s) oldnode)))
  else Ok (Continue s).

(** ** Application *)

Definition isApplicable (ty : ClosureType) : bool :=
  bool_decide (ty = FUN) || bool_decide (ty = CAF) || bool_decide (ty = THUNK)
  || bool_decide (ty = PAP).

(** [case THUNK: case CAF:] of [generic_apply]. *)
Definition apply_thunk s (fnode given_args pointer_mask : Z) : outcome (next H J) :=
  let! '(h, m, ms, apk) := Misc.getApCont (mm (cap s)) (memof s) (misc (cap s))
                             given_args pointer_mask in
  let s := set_cap s (set_cap_misc (cap s) m h ms) in
  let apk_framesize := Misc.apContFrameSize given_args in
  let s := set_reg s (-1) (apk_closure apk) in
  let top := base s + 8 * apk_framesize in
  let! info_addr := closure_info_addr (memof s) fnode in
  let s := set_code s info_addr in
  let! c := code_of s in
  if stackOverflow (T s) (base s)
       (apk_framesize + kStackFrameWords + kUpdateFrameWords + kStackFrameWords + framesize c)
  then stack_overflow s
  else
    let '(m, top, base1) := pushFrame (memof s) top (base s) (apk_returnAddr apk)
                              (stg_UPD_closure_addr (misc (cap s))) 2 in
    let m := store m base1 fnode in
    let m := store m (base1 + 8) 0xbadbadff in
    let '(m, top, base2) := pushFrame m top base1 (stg_UPD_return_pc (misc (cap s)))
                              fnode (framesize c) in
    assert! top =? base2 + 8 * framesize c in
    branch_to (set_top (set_base (set_mem s m) base2) top) (code c) kCall.

(** Entering a function whose arguments are in place. *)
Definition enter_function s (c : Code) : outcome (next H J) :=
  branch_to (set_top s (base s + 8 * framesize c)) (code c) kCall.

(** [case FUN:], too many arguments. *)
Definition apply_over s (c : Code) (given_args pointer_mask : Z) : outcome (next H J) :=
  let extra_args := given_args - arity c in
  let apk_frame_size := Misc.apContFrameSize extra_args + 3 in
  if stackOverflow (T s) (base s) (apk_frame_size + given_args) then stack_overflow s
  else
    let! '(h, m, ms, apk) := Misc.getApCont (mm (cap s)) (memof s) (misc (cap s))
                               extra_args (Z.shiftr pointer_mask (arity c)) in
    let b := base s in
    let! m := memmove m (b + 8 * apk_frame_size) b given_args in
    let! f := load m (b - 8) in
    let m := store m (b + 8 * (apk_frame_size - 1)) f in
    let m := store m (b + 8 * (apk_frame_size - 2)) (apk_returnAddr apk) in
    let m := store m (b + 8 * (apk_frame_size - 3)) b in
    let m := store m (b - 8) (apk_closure apk) in
    let! m := memmove m b (b + 8 * (apk_frame_size + arity c)) extra_args in
    let s := set_cap s (set_cap_misc (cap s) m h ms) in
    enter_function (set_base s (b + 8 * apk_frame_size)) c.

(** The allocation of the partial application, with its retries: the
    state and the address of the new object. *)
Fixpoint alloc_pap (n : nat) s (bytes pointer_mask : Z) : outcome (vm H J * Z) :=
  match n with
  | O => Err OutOfFuel
  | S n' =>
      let pap := heap s in
      if heaplim s <? pap + bytes then
        let s := if isRecording (cap s)
                 then set_cap s (set_cap_jit (cap s) (j_requestAbort (jit (cap s)))) else s in
        let s := thread_sync s (pc s) in
        let h := h_setTopOfStackMask (mm (cap s)) pointer_mask in
        let! '(h, m, hp, lim) := h_bumpAllocatorFull h (memof s) (T s)
                                   (static_roots (cap s)) (heap s) (heaplim s) in
        let h := h_setTopOfStackMask h kNoMask in
        alloc_pap n' (set_heap (set_cap s (set_cap_mm (cap s) m h)) hp lim) bytes pointer_mask
      else Ok (set_heap s (pap + bytes) (heaplim s), pap)
  end.

(** [case FUN:], too few arguments: the state in which register 0
    holds the new partial application, and the return of it. *)
Definition build_pap s (fnode given_args pointer_mask : Z) : outcome (vm H J) :=
  let pap_size := 1 + given_args in
  let! '(s, pap) := alloc_pap fuel s ((wordsof_PapClosure + pap_size) * 8) pointer_mask in
  let m := pap_init (memof s) pap (stg_PAP_info (misc (cap s))) pointer_mask given_args fnode in
  let! m := copy_words (Z.to_nat given_args) m (base s) (pap + PAP_PAYLOAD_OFFSET) in
  Ok (set_reg (set_mem s m) 0 pap).

Definition apply_partial s (fnode given_args pointer_mask : Z) : outcome (next H J) :=
  let! s := build_pap s fnode given_args pointer_mask in do_return s.

Definition apply_fun s (fnode given_args pointer_mask : Z) : outcome (next H J) :=
  let! info_addr := closure_info_addr (memof s) fnode in
  let s := set_code s info_addr in
  let! c := code_of s in
  if arity c <? given_args then apply_over s c given_args pointer_mask
  else if given_args <? arity c then apply_partial s fnode given_args pointer_mask
  else enter_function s c.

(** [case PAP:] up to the retry: either the machine stops, or the
    arguments are unpacked and application goes on with a new
    function, argument count and pointer mask. *)
Definition unpack_pap s (fnode given_args pointer_mask : Z)
  : outcome (next H J + (vm H J * Z * Z * Z)) :=
  let! papArgs := pap_nargs (memof s) fnode in
  let framesize := u4 (papArgs + given_args) in
  if stackOverflow (T s) (base s) framesize then
    let! r := stack_overflow s in Ok (inl r)
  else
    let s := set_top s (base s + 8 * framesize) in
    let! m := move_up (Z.to_nat given_args) (memof s) (base s) papArgs in
    let! m := copy_words (Z.to_nat papArgs) m (fnode + PAP_PAYLOAD_OFFSET) (base s) in
    let! fn := pap_fun m fnode in
    let s := set_reg (set_mem s m) (-1) fn in
    if 32 <=? papArgs then Err UndefinedOp else
    let! pmask := pap_pointerMask (memof s) fnode in
    let mask := Z.lor (u4 (Z.shiftl pointer_mask papArgs)) pmask in
    let! info_addr := closure_info_addr (memof s) fn in
    Ok (inr (set_code s info_addr, fn, u4 (given_args + papArgs), mask)).

(** [generic_apply_retry] *)
Fixpoint generic_apply (n : nat) s (fnode given_args pointer_mask : Z) : outcome (next H J) :=
  match n with
  | O => Err OutOfFuel
  | S n' =>
      let! self := reg s (-1) in
      assert! fnode =? self in
      let! info_addr := closure_info_addr (memof s) fnode in
      assert! code_info s =? info_addr in
      let! info := closure_info (memof s) fnode in
      match it_type info with
      | PAP =>
          let! u := unpack_pap s fnode given_args pointer_mask in
          match u with
          | inl r => Ok r
          | inr (s, fn, given, mask) => generic_apply n' s fn given mask
          end
      | THUNK | CAF => apply_thunk s fnode given_args pointer_mask
      | FUN => apply_fun s fnode given_args pointer_mask
      | _ => Ok (Halt kInterpUnimplemented s)
      end
  end.

(** The label [generic_apply], with the packed register [opC]. *)
Definition goto_generic_apply s (packed : Z) : outcome (next H J) :=
  let! fnode := reg s (-1) in
  generic_apply fuel s fnode (Z.land packed 0xff) (Z.shiftr packed 8).

Definition pack_apply (nargs pointer_mask : Z) : Z :=
  Z.lor (Z.land nargs 0xff) (u4 (Z.shiftl pointer_mask 8)).

Definition op_CALL s (A D : Z) : outcome (next H J) :=
  let callargs := opC D in
  let! pointer_mask := load_ins (memof s) (pc s) in
  let s := set_pc s (pc s + 4) in
  let nargs := callargs in
  let! fnode := reg s A in
  let top := t_top (T s) in
  let! fnode := followIndirections fuel (memof s) fnode in
  assert! negb (fnode =? 0) in
  assert! h_looksLikeClosure (mm (cap s)) (memof s) fnode in
  assert! callargs <=? BcIns.kMaxCallArgs in
  let! info := closure_info (memof s) fnode in
  assert! isApplicable (it_type info) in
  let! info_addr := closure_info_addr (memof s) fnode in
  if stackOverflow (T s) top (kStackFrameWords + nargs) then stack_overflow s
  else
    let return_pc := pc s + 4 * (BcIns.BC_ROUND nargs + 1) in
    let oldbase := base s in
    let '(m, top, base1) := pushFrame (memof s) top oldbase return_pc fnode nargs in
    let! m := copy_args (Z.to_nat callargs) m oldbase (pc s) base1 in
    let s := set_top (set_base (set_mem s m) base1) top in
    goto_generic_apply (set_code s info_addr) (pack_apply nargs pointer_mask).

Definition op_CALLT s (A D : Z) : outcome (next H J) :=
  let callargs := opC D in
  let! pointer_mask := load_ins (memof s) (pc s) in
  let s := set_pc s (pc s + 4) in
  let nargs := callargs in
  let! fnode := reg s A in
  assert! negb (fnode =? 0) in
  assert! h_looksLikeClosure (mm (cap s)) (memof s) fnode in
  assert! callargs <=? BcIns.kMaxCallArgs in
  let! fnode := followIndirections fuel (memof s) fnode in
  let! info := closure_info (memof s) fnode in
  assert! isApplicable (it_type info) in
  let! info_addr := closure_info_addr (memof s) fnode in
  if stackOverflow (T s) (base s) nargs then stack_overflow s
  else
    let s := set_code (set_reg s (-1) fnode) info_addr in
    goto_generic_apply s (pack_apply nargs pointer_mask).

(** ** Case analysis *)

Definition op_CASE s (A D : Z) : outcome (next H J) :=
  let! cl := reg s A in
  let num_cases := D in
  let table := pc s in
  let s := set_pc s (pc s + 4 * Z.shiftr (num_cases + 1) 1) in
  assert! h_looksLikeClosure (mm (cap s)) (memof s) cl in
  let! t := tag (memof s) cl in
  let tag := u2 (t - 1) in
  assert! tag <? num_cases in
  let! offs := load_ins_u2 (memof s) (table + 2 * tag) in
  Ok (Continue (set_pc s (pc s + 4 * offs))).

Definition op_CASE_S s (A D : Z) : outcome (next H J) :=
  let! cl := reg s A in
  let! tag := tag (memof s) cl in
  let num_cases := D in
  let! minMax := load_ins (memof s) (pc s) in
  let min_tag := Z.land minMax 0xffff in
  let max_tag := Z.shiftr minMax 16 in
  let! offset := (if (min_tag <=? tag) && (tag <=? max_tag)
                  then case_s_search fuel (memof s) (pc s + 4) tag 0 (num_cases - 1)
                  else Ok 0) in
  Ok (Continue (set_pc s (pc s + 4 * (num_cases + 1 + offset)))).

(** ** The dispatch tables *)

Definition op_SYNC s : outcome (next H J) := Ok (Continue (load_state s)).

Definition op_JFUNC s : outcome (next H J) :=
  let '(j, F) := j_lookupFragment (jit (cap s)) (pc s - 4) in
  let s := set_cap s (set_cap_jit (cap s) j) in
  let! F := of_option WildAccess F in
  assert! j_startPc (jit (cap s)) F =? pc s - 4 in
  let! s := enter_trace s F (pc s - 4) in Ok (Continue s).

Definition op_branch s (op : Opcode) (A D : Z) : option (outcome (next H J)) :=
  match branch_cond op 0 0 with
  | None => None
  | Some _ => Some (
      let! x := reg s A in
      let! y := reg s D in
      let s := set_pc s (pc s + 4) in
      if default false (branch_cond op x y) then
        let! w := load_ins (memof s) (pc s - 4) in
        Ok (Continue (set_pc s (pc s + 4 * BcIns.j w)))
      else Ok (Continue s))
  end.

Definition op_rr s (op : Opcode) (A D : Z) : option (outcome (next H J)) :=
  match alu1 op 0 with
  | None => None
  | Some _ => Some (
      let! x := reg s D in
      let! v := of_option UndefinedOp (alu1 op x) in
      Ok (Continue (set_reg s A v)))
  end.

Definition op_rrr s (op : Opcode) (A D : Z) : option (outcome (next H J)) :=
  match alu op 0 0 with
  | None => None
  | Some _ => Some (
      let! x := reg s (opB D) in
      let! y := reg s (opC D) in
      let! v := default (Err UndefinedOp) (alu op x y) in
      Ok (Continue (set_reg s A v)))
  end.

Definition op_GETA s (size A D : Z) : outcome (next H J) :=
  let! arr := reg s (opB D) in
  let! offset := reg s (opC D) in
  let! a := array_elem (memof s) arr offset size in
  let! v := load_sub (memof s) a size in
  Ok (Continue (set_reg s A v)).

Definition op_SETA s (size A D : Z) : outcome (next H J) :=
  let! arr := reg s (opB D) in
  let! offset := reg s (opC D) in
  let! a := array_elem (memof s) arr offset size in
  let! v := reg s A in
  let! m := store_sub (memof s) a size v in
  Ok (Continue (set_mem s m)).

(** ** The remaining opcodes *)

Definition op_LOADSLF s (A : Z) : outcome (next H J) :=
  let! v := reg s (-1) in Ok (Continue (set_reg s A v)).
(** Field offsets are counted from 1. *)
Definition op_LOADF s (A D : Z) : outcome (next H J) :=
  let! cl := reg s (opB D) in
  let! v := payload (memof s) cl (opC D - 1) in Ok (Continue (set_reg s A v)).
Definition op_LOADFV s (A D : Z) : outcome (next H J) :=
  let! node := reg s (-1) in
  let! v := payload (memof s) node (D - 1) in Ok (Continue (set_reg s A v)).
(** [char] is signed. *)
Definition op_PTROFSC s (A D : Z) : outcome (next H J) :=
  let! p := reg s (opB D) in
  let! i := reg s (opC D) in
  let! ch := load_sub (memof s) (p + i8 i) 1 in
  Ok (Continue (set_reg s A (u8 (to_s 8 ch)))).
(** [opC] is unsigned, so the difference is one of [u4]. *)
Definition op_JMP s (D : Z) : outcome (next H J) :=
  Ok (Continue (set_pc s (pc s + 4 * u4 (D - BcIns.kBranchBias)))).
Definition op_LOADK s (A D : Z) : outcome (next H J) :=
  let! c := code_of s in
  assert! D <? sizelits c in
  let! v := load (memof s) (lits c + 8 * D) in Ok (Continue (set_reg s A v)).
Definition op_MOV_RES s (A D : Z) : outcome (next H J) :=
  let! v := load (memof s) (t_top (T s) + 8 * (FRAME_SIZE + D)) in
  Ok (Continue (set_reg s A v)).
Definition op_FUNC s (A : Z) : outcome (next H J) :=
  assert! 8 * A =? t_top (T s) - base s in Ok (Continue s).
Definition op_LOADBH s (A : Z) : outcome (next H J) :=
  Ok (Continue (set_reg s A (stg_BLACKHOLE_closure_addr (misc (cap s))))).
Definition op_INITF s (A D : Z) : outcome (next H J) :=
  let! cl := reg s A in
  let! v := reg s (opB D) in
  Ok (Continue (set_mem s (setPayload (memof s) cl (opC D - 1) v))).
Definition op_GETTAG s (A D : Z) : outcome (next H J) :=
  let! cl := reg s D in
  let! t := tag (memof s) cl in Ok (Continue (set_reg s A (u8 (t - 1)))).

(** The opcodes that are not in one of the families above. *)
Definition op_other s (op : Opcode) (A D : Z) : outcome (next H J) :=
  match op with
  | kLOADSLF => op_LOADSLF s A
  | kLOADF => op_LOADF s A D
  | kLOADFV => op_LOADFV s A D
  | kPTROFSC => op_PTROFSC s A D
  | kALLOC1 => op_ALLOC1 s A D
  | kALLOC => op_ALLOC s A D
  | kALLOCAP => op_ALLOCAP s A D
  | kJMP => op_JMP s D
  | kEVAL => op_EVAL s A
  | kLOADK => op_LOADK s A D
  | kRET1 => op_RET1 s A
  | kRETN => op_RETN s A
  | kIRET => op_IRET s A
  | kUPDATE => op_UPDATE s A D
  | kMOV_RES => op_MOV_RES s A D
  | kCALL => op_CALL s A D
  | kCALLT => op_CALLT s A D
  | kFUNC | kIFUNC | kFUNCPAP => op_FUNC s A
  | kCASE => op_CASE s A D
  | kCASE_S => op_CASE_S s A D
  | kSYNC => op_SYNC s
  | kJFUNC => op_JFUNC s
  | kRAISE => Err (Exited 3)
  | kLOADBH => op_LOADBH s A
  | kINITF => op_INITF s A D
  | kGETTAG => op_GETTAG s A D
  | kNEWBYTEA => op_NEWBYTEA s A D
  | kGETA1 => op_GETA s 1 A D
  | kGETA2 => op_GETA s 2 A D
  | kGETA4 => op_GETA s 4 A D
  | kGETA8 => op_GETA s 8 A D
  | kSETA1 => op_SETA s 1 A D
  | kSETA2 => op_SETA s 2 A D
  | kSETA4 => op_SETA s 4 A D
  | kSETA8 => op_SETA s 8 A D
  | kKINT | kNEW_INT | kJRET => halt_sync s kInterpUnimplemented
  | kSTOP => halt_sync s kInterpOk
  | _ => Err UndefinedOp
  end.

(** [goto *dispatch_normal[opcode]] *)
Definition exec s (op : Opcode) (A D : Z) : outcome (next H J) :=
  match op_branch s op A D with
  | Some r => r
  | None =>
      match op_rr s op A D with
      | Some r => r
      | None => match op_rrr s op A D with
                | Some r => r
                | None => op_other s op A D
                end
      end
  end.

(** The label [record]. *)
Definition exec_record s (A D : Z) : outcome (next H J) :=
  let! '(c, stop) := j_recordIns (cap s) (pc s - 4) (base s) (code_info s) in
  let s := set_cap s c in
  if stop : bool then
    let s := thread_sync s (pc s - 4) in
    op_SYNC (set_cap s (finishRecording (cap s)))
  else
    let! w := load_ins (memof s) (pc s - 4) in
    let! op := of_option UndefinedOp (BcIns.opcode w) in
    exec s op A D.

(** [DISPATCH_NEXT]; the label [debug] prints and dispatches again
    through [dispatch2]. *)
Definition step s : outcome (next H J) :=
  let! w := load_ins (memof s) (pc s) in
  let! op := of_option UndefinedOp (BcIns.opcode w) in
  let A := BcIns.a w in
  let D := BcIns.d w in
  let s := set_pc s (pc s + 4) in
  match dispatch s with
  | dispatch_normal => exec s op A D
  | dispatch_record => exec_record s A D
  | dispatch_debug =>
      match dispatch2 s with
      | dispatch_normal => exec s op A D
      | dispatch_record => exec_record s A D
      | dispatch_debug => Err OutOfFuel
      end
  end.

Fixpoint steps (n : nat) s : outcome (next H J) :=
  match n with
  | O => Ok (Continue s)
  | S n' =>
      let! r := step s in
      match r with
      | Continue s => steps n' s
      | Halt code s => Ok (Halt code s)
      end
  end.

(** [interpMsg(kModeRun)] *)
Definition interpMsg (n : nat) (c : Capability H J) : outcome (InterpExitCode * vm H J) :=
  let! '(hp, lim) := h_getBumpAllocatorBounds (mm c) in
  let s := load_state (mkVm c 0 0 hp lim 0 dispatch_normal dispatch_normal) in
  let! r := steps n s in
  match r with
  | Continue _ => Err OutOfFuel
  | Halt code s => Ok (code, s)
  end.

Definition run (n : nat) (c : Capability H J) (t : Thread) : outcome (bool * vm H J) :=
  let! '(code, s) := interpMsg n (set_cap_T c t) in
  Ok (bool_decide (code = kInterpOk), s).

Definition eval (n : nat) (c : Capability H J) (t : Thread) (cl : Z) : outcome (bool * vm H J) :=
  run n (set_cap_mem c (Thread.setSlot (mem c) t 0 cl)) t.
End interp.
