(* ===== verification/InterpPure.v ===== *)
(** * Facts about the pure parts of the interpreter

    The binary search of CASE_S against a linear one, the arithmetic and
    rotation opcodes, compare-and-branch duality, and the bounds of
    array accesses. *)

From S2P Require Import Prelude Words Bytecode Objects HeapInterface Interp.
Import BcIns (Opcode(..)).

(** ** CASE_S *)

(** A table is a list of (tag, target) pairs; [assoc_tag] is the linear
    search the binary one implements. *)
Fixpoint assoc_tag (tbl : list (Z * Z)) (tag : Z) : Z :=
  match tbl with
  | [] => 0
  | (t, o) :: tbl' => if tag =? t then o + 1 else assoc_tag tbl' tag
  end.

Definition table_at (m : memory) (targets : Z) (tbl : list (Z * Z)) : Prop :=
  forall i t o, tbl !! i = Some (t, o) ->
    0 <= t < 2 ^ 16 /\ 0 <= o < 2 ^ 16
    /\ load_ins m (targets + 4 * Z.of_nat i) = Ok (Z.lor o (Z.shiftl t 16)).

Definition ascending (tbl : list (Z * Z)) : Prop :=
  forall i j x y, (i < j)%nat -> tbl !! i = Some x -> tbl !! j = Some y -> fst x < fst y.

Lemma table_fields t o :
  0 <= t < 2 ^ 16 -> 0 <= o < 2 ^ 16 ->
  Z.shiftr (Z.lor o (Z.shiftl t 16)) 16 = t /\ Z.land (Z.lor o (Z.shiftl t 16)) 0xffff = o.
Proof.
  intros Ht Ho. rewrite shiftl_lor_add by lia. change 0xffff with (Z.ones 16).
  rewrite Z.land_ones, Z.shiftr_div_pow2 by lia.
  rewrite Z.div_add, Z.div_small, Z.mod_add, Z.mod_small by lia. lia.
Qed.

Lemma assoc_tag_none tbl tag :
  (forall i t o, tbl !! i = Some (t, o) -> t <> tag) -> assoc_tag tbl tag = 0.
Proof.
  induction tbl as [|[t o] tbl IH]; intros Hn; cbn; [done|].
  destruct (Z.eqb_spec tag t) as [->|]; [by destruct (Hn 0%nat t o)|].
  apply IH. intros i t' o' Hi. exact (Hn (S i) t' o' Hi).
Qed.

Lemma assoc_tag_some tbl i t o :
  ascending tbl -> tbl !! i = Some (t, o) -> assoc_tag tbl t = o + 1.
Proof.
  revert i. induction tbl as [|[t' o'] tbl IH]; intros i Ha Hi; [done|]. cbn.
  destruct i as [|i]; cbn in Hi; simplify_eq; [by rewrite Z.eqb_refl|].
  assert (t' < t) by exact (Ha 0%nat (S i) (t', o') (t, o) ltac:(lia) eq_refl Hi).
  destruct (Z.eqb_spec t t'); [lia|]. apply (IH i); [|done].
  intros a b x y Hab Hx Hy. by apply (Ha (S a) (S b)); [lia|..].
Qed.

Lemma case_s_search_S fuel m targets tag istart iend :
  case_s_search (S fuel) m targets tag istart iend
  = if 0 <=? iend - istart then
      let imid := istart + Z.quot (iend - istart) 2 in
      let! alt := load_ins m (targets + 4 * imid) in
      let alttag := Z.shiftr alt 16 in
      if tag =? alttag then Ok (Z.land alt 0xffff + 1)
      else if tag <? alttag then case_s_search fuel m targets tag istart (imid - 1)
      else case_s_search fuel m targets tag (imid + 1) iend
    else Ok 0.
Proof. done. Qed.

(** The entries for [tag] stay inside the range; its width halves. *)
Lemma case_s_search_range fuel m targets tbl tag istart iend :
  table_at m targets tbl -> ascending tbl ->
  0 <= istart -> iend < Z.of_nat (length tbl) -> iend - istart + 1 < 2 ^ Z.of_nat fuel ->
  (forall i o, tbl !! i = Some (tag, o) -> istart <= Z.of_nat i <= iend) ->
  case_s_search (S fuel) m targets tag istart iend = Ok (assoc_tag tbl tag).
Proof.
  intros Ht Ha. revert istart iend.
  induction fuel as [|fuel IH]; intros istart iend Hs He Hf Hin; rewrite case_s_search_S.
  { destruct (Z.leb_spec 0 (iend - istart)); [cbn in Hf; lia|]. symmetry. f_equal.
    apply assoc_tag_none. intros i t o Hi ->. specialize (Hin i o Hi). lia. }
  destruct (Z.leb_spec 0 (iend - istart)).
  2: { f_equal. symmetry. apply assoc_tag_none. intros i t o Hi ->. specialize (Hin i o Hi). lia. }
  cbv zeta. rewrite Z.quot_div_nonneg by lia.
  pose proof (Z.div_mod (iend - istart) 2). pose proof (Z.mod_pos_bound (iend - istart) 2).
  set (imid := istart + (iend - istart) / 2) in *.
  assert (Hpow : 2 ^ Z.of_nat (S fuel) = 2 * 2 ^ Z.of_nat fuel).
  { rewrite Nat2Z.inj_succ, Z.pow_succ_r by lia. done. }
  destruct (lookup_lt_is_Some_2 tbl (Z.to_nat imid)) as [[t o] Hmid]; [unfold imid; lia|].
  destruct (Ht _ t o Hmid) as (Htb & Hob & Hl). rewrite Z2Nat.id in Hl by (unfold imid; lia).
  rewrite Hl. cbn [obind]. destruct (table_fields t o Htb Hob) as [-> ->].
  destruct (Z.eqb_spec tag t) as [->|Hne]; [by rewrite (assoc_tag_some _ _ _ _ Ha Hmid)|].
  assert (Hord : forall i o', tbl !! i = Some (tag, o') ->
            (tag < t -> Z.of_nat i < imid) /\ (t < tag -> imid < Z.of_nat i)).
  { intros i o' Hi. destruct (Nat.lt_trichotomy i (Z.to_nat imid)) as [Hlt|[->|Hgt]].
    - pose proof (Ha _ _ _ _ Hlt Hi Hmid). cbn in *. split; lia.
    - congruence.
    - pose proof (Ha _ _ _ _ Hgt Hmid Hi). cbn in *. split; lia. }
  destruct (Z.ltb_spec tag t); apply IH; try (unfold imid in *; lia);
    intros i o' Hi; specialize (Hin i o' Hi); specialize (Hord i o' Hi); lia.
Qed.

(** C30: Seventeen iterations are enough for every table the instruction
    can have. *)
Lemma case_s_search_linear fuel m targets tbl tag :
  table_at m targets tbl -> ascending tbl -> Z.of_nat (length tbl) < 2 ^ 16 ->
  (17 <= fuel)%nat ->
  case_s_search fuel m targets tag 0 (Z.of_nat (length tbl) - 1) = Ok (assoc_tag tbl tag).
Proof.
  intros Ht Ha Hl Hf. destruct fuel as [|fuel]; [lia|].
  apply case_s_search_range; [done..|lia|lia| |].
  - assert (2 ^ 16 <= 2 ^ Z.of_nat fuel) by (apply Z.pow_le_mono_r; lia). lia.
  - intros i o Hi. apply lookup_lt_Some in Hi. lia.
Qed.

(** ** Compare and branch *)

Definition negated (op : Opcode) : option Opcode :=
  match op with
  | kISLT => Some kISGE | kISGE => Some kISLT | kISLE => Some kISGT | kISGT => Some kISLE
  | kISLTU => Some kISGEU | kISGEU => Some kISLTU | kISLEU => Some kISGTU
  | kISGTU => Some kISLEU | kISEQ => Some kISNE | kISNE => Some kISEQ
  | _ => None
  end.

Lemma branch_cond_negated op op' x y :
  negated op = Some op' ->
  exists r, branch_cond op x y = Some r /\ branch_cond op' x y = Some (negb r).
Proof.
  destruct op; cbn; intros [= <-]; cbn; eexists; (split; [reflexivity|]); f_equal;
    rewrite ?negb_involutive; try done; by rewrite ?Z.leb_antisym, ?negb_involutive.
Qed.

(** ** Arithmetic *)

Lemma i8_u8_id z : - 2 ^ 63 <= z < 2 ^ 63 -> i8 (u8 z) = z.
Proof. intros Hz. unfold i8, u8. rewrite to_s_to_u by lia. apply to_s_id; lia. Qed.

(** The quotient overflows in one case only. *)
Lemma quot_range x y :
  - 2 ^ 63 <= x < 2 ^ 63 -> y <> 0 -> x <> - 2 ^ 63 \/ y <> -1 ->
  - 2 ^ 63 <= Z.quot x y < 2 ^ 63.
Proof.
  intros Hx Hy Ho. destruct (Z.eq_dec y 1) as [->|H1]; [by rewrite Z.quot_1_r|].
  destruct (Z.eq_dec y (-1)) as [->|H2].
  { change (-1) with (- (1)). rewrite Z.quot_opp_r, Z.quot_1_r by lia. lia. }
  assert (Ha : Z.abs (Z.quot x y) <= 2 ^ 62); [|lia].
  rewrite <- Z.quot_abs, Z.quot_div_nonneg by lia. apply Z.div_le_upper_bound; nia.
Qed.

(** Where DIVRR and REMRR are defined, quotient and remainder satisfy
    the division identity with a remainder smaller than the divisor and of
    the dividend's sign. *)
Lemma alu_div_rem x y q r :
  alu kDIVRR x y = Some (Ok q) -> alu kREMRR x y = Some (Ok r) ->
  i8 x = i8 y * i8 q + i8 r /\ Z.abs (i8 r) < Z.abs (i8 y)
  /\ (i8 r = 0 \/ Z.sgn (i8 r) = Z.sgn (i8 x)).
Proof.
  cbn. destruct (Z.eqb_spec (i8 y) 0) as [|Hy]; [done|]. cbn [orb].
  destruct ((i8 x =? - 2 ^ 63) && (i8 y =? -1)) eqn:Eo; [done|]. intros [= <-] [= <-].
  pose proof (to_s_bound 64 ltac:(lia) x) as Hx. pose proof (to_s_bound 64 ltac:(lia) y) as Hyb.
  fold (i8 x) in Hx. fold (i8 y) in Hyb.
  pose proof (Z.quot_rem' (i8 x) (i8 y)) as Hqr.
  pose proof (Z.rem_bound_abs (i8 x) (i8 y) Hy) as Hrb.
  assert (Hr : i8 (u8 (Z.rem (i8 x) (i8 y))) = Z.rem (i8 x) (i8 y)).
  { apply i8_u8_id. change (2 ^ (64 - 1)) with (2 ^ 63) in *. lia. }
  assert (Hq : i8 (u8 (Z.quot (i8 x) (i8 y))) = Z.quot (i8 x) (i8 y)).
  { apply i8_u8_id, quot_range; [exact Hx|done|].
    apply andb_false_iff in Eo. by rewrite !Z.eqb_neq in Eo. }
  rewrite Hr, Hq. split_and!; [done|done|].
  destruct (Z.eq_dec (Z.rem (i8 x) (i8 y)) 0); [by left|right]. by apply Z.rem_sign_nz.
Qed.

Lemma rol_testbit x k j :
  0 < k < 64 -> 0 <= j < 64 ->
  Z.testbit (Z.lor (u8 (Z.shiftl x k)) (Z.shiftr (u8 x) (64 - k))) j
  = Z.testbit x (if j <? k then j + (64 - k) else j - k).
Proof.
  intros Hk Hj. unfold u8.
  rewrite Z.lor_spec, Z.shiftr_spec, !testbit_to_u, Z.shiftl_spec by lia.
  rewrite (proj2 (Z.ltb_lt j 64)) by lia. cbn [andb]. destruct (Z.ltb_spec j k).
  - rewrite (Z.testbit_neg_r x (j - k)), (proj2 (Z.ltb_lt (j + (64 - k)) 64)) by lia. done.
  - rewrite (proj2 (Z.ltb_ge (j + (64 - k)) 64)) by lia. by rewrite orb_false_r.
Qed.

Lemma ror_testbit x k j :
  0 < k < 64 -> 0 <= j < 64 ->
  Z.testbit (Z.lor (Z.shiftr (u8 x) k) (u8 (Z.shiftl x (64 - k)))) j
  = Z.testbit x (if j + k <? 64 then j + k else j + k - 64).
Proof.
  intros Hk Hj. unfold u8.
  rewrite Z.lor_spec, Z.shiftr_spec, !testbit_to_u, Z.shiftl_spec by lia.
  rewrite (proj2 (Z.ltb_lt j 64)) by lia. cbn [andb]. destruct (Z.ltb_spec (j + k) 64).
  - rewrite (Z.testbit_neg_r x (j - (64 - k))) by lia. by rewrite orb_false_r.
  - cbn [andb orb]. f_equal. lia.
Qed.

(** Rotating left and then right by the same amount is the identity;
    both opcodes are undefined for the amount 0. *)
Lemma rotate_inverse x n r :
  0 <= x < 2 ^ 64 -> alu kBROL x n = Some (Ok r) -> alu kBROR r n = Some (Ok x).
Proof.
  cbn. intros Hx. unfold shift_amount. destruct ((0 <=? i4 n) && (i4 n <? 64)) eqn:En; [|done].
  cbn [obind]. apply andb_prop in En as [Hn1%Z.leb_le Hn2%Z.ltb_lt].
  destruct (Z.eqb_spec (i4 n) 0) as [|Hn0]; [done|]. set (k := i4 n) in *. intros [= Hr].
  do 2 f_equal.
  apply Z.bits_inj'. intros i Hi. destruct (Z_lt_le_dec i 64) as [Hi64|Hi64].
  - rewrite ror_testbit by lia. rewrite <- Hr, rol_testbit by (destruct (Z.ltb_spec (i + k) 64); lia).
    f_equal. destruct (Z.ltb_spec (i + k) 64); [destruct (Z.ltb_spec (i + k) k)|
      destruct (Z.ltb_spec (i + k - 64) k)]; lia.
  - rewrite (testbit_high x 64), Z.lor_spec, Z.shiftr_spec by lia. unfold u8.
    rewrite !testbit_to_u by lia. rewrite (proj2 (Z.ltb_ge i 64)), (proj2 (Z.ltb_ge (i + k) 64)) by lia.
    done.
Qed.

(** ** Array elements *)

(** An access that passes the check lies inside the words that
    NEWBYTEA allocated for the payload, for every element width and
    even when the multiplication wraps. *)
Lemma array_elem_bounds m arr offset k bytes a :
  0 <= k <= 3 -> 0 <= offset < 2 ^ 64 ->
  0 <= arr -> is_aligned arr 8 = true ->
  load m (arr + BYTEARR_bytes) = Ok bytes -> 0 <= bytes -> bytes + 7 < 2 ^ 64 ->
  arr + BYTEARR_payload + 8 * roundUpBytesToWords bytes < 2 ^ 64 ->
  array_elem m arr offset (2 ^ k) = Ok a ->
  let p := arr + BYTEARR_payload in
  p <= a /\ a + 2 ^ k <= p + 8 * roundUpBytesToWords bytes /\ is_aligned a (2 ^ k) = true.
Proof.
  intros Hk Ho Harr Hal Hb Hb0 Hb7 Hfit Ha p. unfold array_elem in Ha. rewrite Hb in Ha. cbn [obind] in Ha. inv_ok.
  apply Z.ltb_lt in E0. pose proof (roundUpBytesToWords_spec bytes Hb0 Hb7) as Hr.
  pose proof (to_u_bound 64 ltac:(lia) (offset * 2 ^ k)) as Hub. fold (u8 (offset * 2 ^ k)) in Hub.
  pose proof (pow2_pos k ltac:(lia)) as Hpk.
  assert (H8 : 8 = 2 ^ k * 2 ^ (3 - k)).
  { rewrite <- Z.pow_add_r by lia. by replace (k + (3 - k)) with 3 by lia. }
  assert (Hdiv : u8 (offset * 2 ^ k) mod 2 ^ k = 0).
  { unfold u8, to_u. rewrite Z.mod_mod_divide; [by apply Z.mod_mul; lia|].
    exists (2 ^ (64 - k)). rewrite <- Z.pow_add_r by lia. f_equal. lia. }
  assert (Hw : u8 (arr + BYTEARR_payload + offset * 2 ^ k) = p + u8 (offset * 2 ^ k)).
  { unfold u8. rewrite <- (to_u_add_r 64 ltac:(lia) _ (offset * 2 ^ k)). apply to_u_id.
    unfold u8 in E0. unfold p in *. unfold BYTEARR_payload in *. unfold u8 in Hub. lia. }
  rewrite Hw. set (q := u8 (offset * 2 ^ k)) in *.
  apply Z.mod_divide in Hdiv as [c Hc]; [|lia]. split_and!; [lia| |].
  - rewrite Hc in *. set (R := roundUpBytesToWords bytes) in *.
    assert (c * 2 ^ k < R * 2 ^ (3 - k) * 2 ^ k) by nia.
    assert (c < R * 2 ^ (3 - k)) by nia. nia.
  - unfold is_aligned in *. apply Z.eqb_eq. apply Z.eqb_eq, Z.mod_divide in Hal as [d Hd]; [|lia].
    unfold p, BYTEARR_payload. rewrite Hc, Hd. apply Z.mod_divide; [lia|].
    exists (d * 2 ^ (3 - k) + 2 * 2 ^ (3 - k) + c). nia.
Qed.
