(* ===== verification/Apply.v ===== *)
(** * Function application

    What the code behind the label [generic_apply] of [capability.cc]
    does to stack and heap: unpacking and building partial applications,
    over-application, entering thunks under an application continuation,
    and the frames that CALL pushes. *)

From S2P Require Import Prelude Words Bytecode Objects Hotness HeapInterface MiscClosures.
From S2P Require Import Capability WordCopy Interp.

(** [vm_cbn] computes projections of updated states. *)
Ltac vm_cbn := cbn [reg set_reg set_mem set_T set_top set_cap set_pc set_base set_heap
  set_code set_dispatch thread_sync set_cap_mem set_cap_mm set_cap_misc set_cap_T set_cap_roots
  set_cap_mode set_cap_counters set_cap_jit mem mm currentThread static_roots cap_dispatch
  counters jit flags misc cap pc base heap heaplim code_info dispatch dispatch2
  Thread.set_top Thread.sync t_pc t_stackSize t_base t_top t_stack traceExitHp traceExitHpLim] in *.

(** ** Objects and frames as predicates on memory *)

(** A partial application of [fn] to the arguments [ps]. *)
Definition pap_at (m : memory) (pap info fn mask : Z) (ps : list Z) : Prop :=
  load m pap = Ok info
  /\ load m (pap + PAP_INFO_OFFSET) = Ok (Z.lor (Z.of_nat (length ps)) (Z.shiftl mask 32))
  /\ load m (pap + PAP_FUNCTION_OFFSET) = Ok fn
  /\ words_at m (pap + PAP_PAYLOAD_OFFSET) ps.

Definition pap_end (pap : Z) (ps : list Z) : Z :=
  pap + PAP_PAYLOAD_OFFSET + 8 * Z.of_nat (length ps).

(** [x, y) and [a, b) have no word in common. *)
Definition apart_from (x y a b : Z) : Prop := y <= a \/ b <= x.

Lemma pap_at_weaken a b m m' pap info fn mask ps :
  same_except a b m m' -> apart_from pap (pap_end pap ps) a b ->
  pap_at m pap info fn mask ps -> pap_at m' pap info fn mask ps.
Proof.
  unfold apart_from, pap_end, PAP_PAYLOAD_OFFSET. intros Hs Ha (H1 & H2 & H3 & H4).
  unfold pap_at, PAP_INFO_OFFSET, PAP_FUNCTION_OFFSET, PAP_PAYLOAD_OFFSET in *.
  rewrite !(same_load a b m m') by (done || lia). split_and!; [done..|].
  eapply words_at_weaken; [done| |done]. lia.
Qed.

Lemma pap_fields m pap info fn mask ps :
  pap_at m pap info fn mask ps -> Z.of_nat (length ps) < 2 ^ 32 -> 0 <= mask < 2 ^ 32 ->
  pap_nargs m pap = Ok (Z.of_nat (length ps)) /\ pap_pointerMask m pap = Ok mask
  /\ pap_fun m pap = Ok fn.
Proof.
  intros (_ & Hi & Hf & _) Hn Hm. unfold pap_nargs, pap_pointerMask, pap_fun. rewrite Hi.
  cbn [obind]. rewrite shiftl_lor_add by lia. unfold u4, to_u. split_and!; [| |done]; f_equal.
  - rewrite Z.mod_add by lia. apply Z.mod_small. lia.
  - rewrite Z.shiftr_div_pow2, Z.div_add, Z.div_small by lia. apply Z.mod_small. lia.
Qed.

(** The two loops of the PAP case and the store of the function. *)
Lemma unpack_words m base pap info fn pmask ps args :
  let n := Z.of_nat (length ps + length args) in
  words_at m base args -> pap_at m pap info fn pmask ps -> is_aligned base 8 = true ->
  apart_from pap (pap_end pap ps) (base - 8) (base + 8 * n) ->
  exists m1 m2,
    move_up (length args) m base (Z.of_nat (length ps)) = Ok m1
    /\ copy_words (length ps) m1 (pap + PAP_PAYLOAD_OFFSET) base = Ok m2
    /\ words_at (store m2 (base - 8) fn) (base - 8) (fn :: ps ++ args)
    /\ same_except (base - 8) (base + 8 * n) m m2.
Proof.
  intros n Hargs Hpap Hal Hap.
  destruct (move_up_spec args m base (Z.of_nat (length ps)))
    as (m1 & Hm1 & Hw1 & Hs1); [done..|lia|].
  assert (Hs1' : same_except (base - 8) (base + 8 * n) m m1).
  { eapply same_mono; [..|exact Hs1]; unfold n; lia. }
  pose proof (pap_at_weaken _ _ _ _ _ _ _ _ _ Hs1' Hap Hpap) as Hpap1.
  destruct (copy_words_spec m1 (pap + PAP_PAYLOAD_OFFSET) base ps)
    as (m2 & Hm2 & Hw2 & Hs2); [done|apply Hpap1| |].
  { unfold apart_from, pap_end, PAP_PAYLOAD_OFFSET, n in *. lia. }
  exists m1, m2. split_and!; [done..| |].
  - apply words_at_cons. split; [apply load_store_eq; exact (aligned_add base (-1) Hal)|].
    replace (base - 8 + 8) with base by lia.
    eapply (words_at_weaken m2); [apply same_store|lia|].
    apply words_at_app. split; [done|]. eapply words_at_weaken; [exact Hs2|lia|done].
  - eapply same_chain; [exact Hs1'|]. eapply same_mono; [..|exact Hs2]; unfold n; lia.
Qed.

Section apply.
Context {H J : Type} `{HeapOps H} `{JitOps H J}.
Context (reload_state_pc : Z) (fuel : nat).
Implicit Types s : vm H J.

(** The frame of [s]: its function and the words from [base] on. *)
Definition frame (s : vm H J) (f : Z) (args : list Z) : Prop :=
  words_at (memof s) (base s - 8) (f :: args).

Lemma frame_args s f args : frame s f args -> words_at (memof s) (base s) args.
Proof.
  intros [_ Hw]%words_at_cons. by replace (base s) with (base s - 8 + 8) by lia.
Qed.
Lemma frame_fun s f args : frame s f args -> load (memof s) (base s - 8) = Ok f.
Proof. by intros [Hf _]%words_at_cons. Qed.

(** Unpacking a partial application puts its arguments below those
    already on the stack. *)
Lemma unpack_pap_spec s pap info fn pmask ps args mask ia :
  let n := Z.of_nat (length ps + length args) in
  frame s pap args -> pap_at (memof s) pap info fn pmask ps ->
  is_aligned (base s) 8 = true -> n < 32 -> 0 <= pmask < 2 ^ 32 ->
  apart_from pap (pap_end pap ps) (base s - 8) (base s + 8 * n) ->
  load (memof s) fn = Ok ia -> apart_from fn (fn + 8) (base s - 8) (base s + 8 * n) ->
  stackOverflow (T s) (base s) n = false ->
  exists s',
    unpack_pap s pap (Z.of_nat (length args)) mask
    = Ok (inr (s', fn, n, Z.lor (u4 (Z.shiftl mask (Z.of_nat (length ps)))) pmask))
    /\ frame s' fn (ps ++ args) /\ code_info s' = ia
    /\ base s' = base s /\ t_top (T s') = base s + 8 * n
    /\ same_except (base s - 8) (base s + 8 * n) (memof s) (memof s').
Proof.
  intros n Hfr Hpap Hal Hn Hpm Hap Hfn Hfna Hso.
  destruct (pap_fields _ _ _ _ _ _ Hpap) as (Hnargs & _ & _); [lia|done|].
  destruct (unpack_words (memof s) (base s) pap info fn pmask ps args)
    as (m1 & m2 & Hm1 & Hm2 & Hw & Hs); [by eapply frame_args|done..|]. fold n in Hs.
  pose proof (pap_at_weaken _ _ _ _ _ _ _ _ _ Hs Hap Hpap) as Hpap2.
  assert (Hs3 : same_except (base s - 8) (base s + 8 * n) (memof s) (store m2 (base s - 8) fn)).
  { eapply same_chain; [exact Hs|]. apply same_store_in; lia. }
  pose proof (pap_at_weaken _ _ _ _ _ _ _ _ _ Hs3 Hap Hpap) as Hpap3.
  destruct (pap_fields _ _ _ _ _ _ Hpap2) as (_ & _ & Hfun2); [lia|done|].
  destruct (pap_fields _ _ _ _ _ _ Hpap3) as (_ & Hmask3 & _); [lia|done|].
  assert (Hn4 : forall k, k = n -> u4 k = n) by (intros k ->; apply (to_u_id 32); lia).
  unfold unpack_pap. rewrite Hnargs. cbn [obind]. rewrite Hn4, Hso by lia. vm_cbn.
  rewrite Nat2Z.id, Hm1. cbn [obind]. rewrite Nat2Z.id, Hm2. cbn [obind].
  rewrite Hfun2. cbn [obind]. vm_cbn. replace (base s + 8 * -1) with (base s - 8) by lia.
  destruct (Z.leb_spec 32 (Z.of_nat (length ps))); [lia|].
  rewrite Hmask3. cbn [obind]. unfold closure_info_addr.
  rewrite (same_load _ _ _ _ fn Hs3), Hfn by (unfold apart_from in Hfna; lia). cbn [obind].
  rewrite Hn4 by lia. eexists. split; [done|]. by unfold frame; vm_cbn.
Qed.

(** With room in the block, the allocation takes its first try. *)
Lemma alloc_pap_room n s bytes mask :
  heap s + bytes <= heaplim s ->
  alloc_pap (S n) s bytes mask = Ok (set_heap s (heap s + bytes) (heaplim s), heap s).
Proof. intros Hr. cbn [alloc_pap]. by rewrite (proj2 (Z.ltb_ge _ _)) by lia. Qed.

(** The memory after a partial application was built at [pap]. *)
Lemma build_pap_words m pap base info mask fn args :
  is_aligned pap 8 = true -> words_at m base args ->
  Z.of_nat (length args) < 2 ^ 32 -> 0 <= mask < 2 ^ 32 ->
  apart_from pap (pap_end pap args) base (base + 8 * Z.of_nat (length args)) ->
  exists m',
    copy_words (length args) (pap_init m pap info mask (Z.of_nat (length args)) fn) base
      (pap + PAP_PAYLOAD_OFFSET) = Ok m'
    /\ pap_at m' pap info fn mask args /\ same_except pap (pap_end pap args) m m'.
Proof.
  intros Hal Hw Hn Hm Hap. set (m0 := pap_init _ _ _ _ _ _).
  unfold apart_from, pap_end, PAP_PAYLOAD_OFFSET in *.
  assert (Hf0 : load m0 pap = Ok info
            /\ load m0 (pap + 8) = Ok (Z.lor (Z.of_nat (length args)) (Z.shiftl mask 32))
            /\ load m0 (pap + 16) = Ok fn).
  { pose proof (aligned_add pap 1 Hal) as Ha1. pose proof (aligned_add pap 2 Hal) as Ha2.
    cbn [Z.mul Pos.mul] in Ha1, Ha2.
    unfold m0, pap_init, PAP_INFO_OFFSET, PAP_FUNCTION_OFFSET. load_store.
    unfold u4. rewrite !to_u_id by lia. done. }
  assert (Hs0 : same_except pap (pap + 24) m m0).
  { unfold m0, pap_init, PAP_INFO_OFFSET, PAP_FUNCTION_OFFSET.
    repeat (eapply same_chain; [|apply same_store_in; lia]). apply same_refl. }
  destruct (copy_words_spec m0 base (pap + 24) args) as (m' & Hc & Hw' & Hs').
  - exact (aligned_add pap 3 Hal).
  - eapply words_at_weaken; [exact Hs0| |done]. destruct Hap; [lia|]. destruct args; cbn in *; lia.
  - destruct Hap; lia.
  - exists m'. split; [done|]. split.
    + unfold pap_at, PAP_INFO_OFFSET, PAP_FUNCTION_OFFSET, PAP_PAYLOAD_OFFSET.
      rewrite !(same_load _ _ _ _ _ Hs') by lia. tauto.
    + eapply same_mono; [..|exact (same_trans _ _ _ _ _ _ _ Hs0 Hs')]; lia.
Qed.

(** Too few arguments: the result is a partial application of the
    function, returned in register 0. *)
Lemma build_pap_spec s fn args mask f0 :
  (0 < fuel)%nat -> frame s f0 args ->
  is_aligned (heap s) 8 = true -> is_aligned (base s) 8 = true ->
  Z.of_nat (length args) < 2 ^ 29 -> 0 <= mask < 2 ^ 32 ->
  heap s + 8 * (4 + Z.of_nat (length args)) <= heaplim s ->
  apart_from (heap s) (heaplim s) (base s) (base s + 8 * (1 + Z.of_nat (length args))) ->
  exists s',
    build_pap fuel s fn (Z.of_nat (length args)) mask = Ok s'
    /\ pap_at (memof s') (heap s) (stg_PAP_info (misc (cap s))) fn mask args
    /\ load (memof s') (base s') = Ok (heap s) /\ base s' = base s
    /\ heap s' = heap s + 8 * (4 + Z.of_nat (length args)).
Proof.
  intros Hfu Hfr Hah Hab Hn Hm Hroom Hap. destruct fuel as [|fu]; [lia|].
  unfold build_pap, wordsof_PapClosure. rewrite alloc_pap_room by lia. cbn [obind]. vm_cbn.
  assert (Hsmall : 2 ^ 29 < 2 ^ 32) by lia.
  destruct (build_pap_words (memof s) (heap s) (base s) (stg_PAP_info (misc (cap s))) mask fn args)
    as (m' & Hc & Hpap & Hs); [done|by eapply frame_args|lia|done| |].
  { unfold apart_from, pap_end, PAP_PAYLOAD_OFFSET in *. lia. }
  rewrite Nat2Z.id, Hc. cbn [obind]. eexists. split; [done|]. vm_cbn.
  rewrite Z.mul_0_r, Z.add_0_r. split_and!; [|by apply load_store_eq|done|lia].
  eapply pap_at_weaken; [apply (same_store (base s))| |done].
  unfold apart_from, pap_end, PAP_PAYLOAD_OFFSET in *. lia.
Qed.

(** The combined pointer mask describes the combined arguments. *)
Lemma pap_mask_bits mask pmask n i :
  0 <= n < 32 -> 0 <= pmask < 2 ^ n -> 0 <= i < 32 ->
  Z.testbit (Z.lor (u4 (Z.shiftl mask n)) pmask) i
  = if i <? n then Z.testbit pmask i else Z.testbit mask (i - n).
Proof.
  intros Hn Hp Hi. unfold u4. rewrite Z.lor_spec, testbit_to_u, Z.shiftl_spec by lia.
  rewrite (proj2 (Z.ltb_lt i 32)) by lia. cbn [andb]. destruct (Z.ltb_spec i n).
  - by rewrite Z.testbit_neg_r by lia.
  - rewrite (testbit_high pmask n) by lia. by rewrite orb_false_r.
Qed.

(** *** Too many arguments *)

(** The moves of the over-application, on memory alone; [k] is the
    number of extra arguments. *)
Lemma over_words m b f ret apk a1 a2 :
  let k := Z.of_nat (length a2) in
  let n := Z.of_nat (length a1) in
  let F := k + 1 + 3 in
  is_aligned b 8 = true -> words_at m (b - 8) (f :: a1 ++ a2) ->
  exists m1 m2,
    memmove m (b + 8 * F) b (n + k) = Ok m1 /\ load m1 (b - 8) = Ok f
    /\ memmove (store (store (store (store m1 (b + 8 * (F - 1)) f) (b + 8 * (F - 2)) ret)
                 (b + 8 * (F - 3)) b) (b - 8) apk) b (b + 8 * (F + n)) k = Ok m2
    /\ words_at m2 (b - 8) (apk :: a2)
    /\ words_at m2 (b + 8 * F - 24) ([b; ret; f] ++ a1)
    /\ same_except (b - 8) (b + 8 * (F + n + k)) m m2.
Proof.
  intros k n F Hal Hw. apply words_at_cons in Hw as [Hf Hw].
  replace (b - 8 + 8) with b in Hw by lia.
  assert (Hlen : n + k = Z.of_nat (length (a1 ++ a2))) by (rewrite length_app; lia).
  assert (HalF : forall i, is_aligned (b + 8 * i) 8 = true) by (intros; by apply aligned_add).
  destruct (memmove_total m (b + 8 * F) b _ Hw) as [m1 Hm1]. rewrite <- Hlen in Hm1.
  destruct (memmove_spec m (b + 8 * F) b (a1 ++ a2) m1) as [Hw1 Hs1];
    [done..|by rewrite <- Hlen|]. rewrite <- Hlen in Hs1.
  assert (Hf1 : load m1 (b - 8) = Ok f) by (rewrite (same_load _ _ _ _ _ Hs1); [done|lia]).
  set (mf := store (store (store (store m1 (b + 8 * (F - 1)) f) (b + 8 * (F - 2)) ret)
                 (b + 8 * (F - 3)) b) (b - 8) apk).
  assert (Hsf : same_except (b - 8) (b + 8 * F) m1 mf).
  { unfold mf. repeat (eapply same_chain; [|apply same_store_in; lia]). apply same_refl. }
  assert (Hwf : words_at mf (b - 8) [apk] /\ words_at mf (b + 8 * F - 24) [b; ret; f]).
  { rewrite !words_at_cons. unfold mf. pose proof (HalF (-1)). pose proof (HalF (F - 1)).
    pose proof (HalF (F - 2)). pose proof (HalF (F - 3)).
    replace (b - 8) with (b + 8 * -1) by lia. 
    replace (b + 8 * F - 24) with (b + 8 * (F - 3)) by lia.
    replace (b + 8 * (F - 3) + 8) with (b + 8 * (F - 2)) by lia.
    replace (b + 8 * (F - 2) + 8) with (b + 8 * (F - 1)) by lia.
    pose proof (words_at_nil mf) as Hnil. split_and!; try apply words_at_nil; by load_store. }
  assert (Hw1f : words_at mf (b + 8 * F) (a1 ++ a2)).
  { eapply words_at_weaken; [exact Hsf|lia|done]. }
  apply words_at_app in Hw1f as [Hwa1 Hwa2].
  replace (b + 8 * F + 8 * Z.of_nat (length a1)) with (b + 8 * (F + n)) in Hwa2 by lia.
  destruct (memmove_total mf b _ _ Hwa2) as [m2 Hm2].
  destruct (memmove_spec mf b (b + 8 * (F + n)) a2 m2) as [Hw2 Hs2]; [done..|].
  exists m1, m2. split_and!; [done..| | |].
  - apply words_at_cons. split.
    + rewrite (same_load _ _ _ _ _ Hs2) by lia. by destruct Hwf as [[? _]%words_at_cons _].
    + by replace (b - 8 + 8) with b by lia.
  - eapply words_at_weaken; [exact Hs2|cbn; lia|]. apply words_at_app. split; [apply Hwf|].
    cbn [length]. by replace (b + 8 * F - 24 + 8 * Z.of_nat 3) with (b + 8 * F) by lia.
  - eapply same_chain; [|eapply same_chain].
    + eapply same_mono; [..|exact Hs1]; lia.
    + eapply same_mono; [..|exact Hsf]; lia.
    + eapply same_mono; [..|exact Hs2]; lia.
Qed.

(** C20: Over-application leaves the extra arguments in the frame of an
    application continuation and the function with exactly its arity of
    arguments in the frame above, linked by the saved base and return
    address. *)
Lemma apply_over_spec s c f a1 a2 mask h m ms apk :
  let k := Z.of_nat (length a2) in
  Z.of_nat (length a1) = arity c -> 
  Misc.getApCont (mm (cap s)) (memof s) (misc (cap s)) k (Z.shiftr mask (arity c))
    = Ok (h, m, ms, apk) ->
  words_at m (base s - 8) (f :: a1 ++ a2) -> is_aligned (base s) 8 = true ->
  stackOverflow (T s) (base s) (k + 4 + (arity c + k)) = false ->
  exists s',
    apply_over reload_state_pc s c (arity c + k) mask = enter_function reload_state_pc s' c
    /\ base s' = base s + 8 * (k + 4) /\ misc (cap s') = ms
    /\ words_at (memof s') (base s - 8) (apk_closure apk :: a2)
    /\ words_at (memof s') (base s' - 24) ([base s; apk_returnAddr apk; f] ++ a1)
    /\ same_except (base s - 8) (base s' + 8 * (arity c + k)) m (memof s').
Proof.
  intros k Hn Hg Hw Hal Hso.
  destruct (over_words m (base s) f (apk_returnAddr apk) (apk_closure apk) a1 a2 Hal Hw)
    as (m1 & m2 & Hm1 & Hf1 & Hm2 & Hw1 & Hw2 & Hs).
  fold k in Hm1, Hm2, Hw1, Hw2, Hs. rewrite Hn in Hm1, Hm2, Hs.
  unfold apply_over, Misc.apContFrameSize.
  replace (arity c + k - arity c) with k by lia.
  replace (k + 1 + 3) with (k + 4) in * by lia. rewrite Hso, Hg. cbn [obind].
  rewrite Hm1. cbn [obind]. rewrite Hf1. cbn [obind]. rewrite Hm2. cbn [obind].
  eexists. split; [done|]. vm_cbn. split_and!; [done..|].
  eapply same_mono; [..|exact Hs]; lia.
Qed.

(** C17: Applying a function to too few arguments and applying the result to
    more is the same as having all the arguments on the stack at once:
    the partial application built from [args1] unpacks, in any later
    state that kept the object, below the new arguments [args2], and the
    two pointer masks are put side by side. *)
Lemma pap_roundtrip s s1 fn args1 mask1 f0 s2 args2 mask2 ia :
  let n1 := Z.of_nat (length args1) in
  let n := Z.of_nat (length args1 + length args2) in
  (0 < fuel)%nat -> frame s f0 args1 ->
  is_aligned (heap s) 8 = true -> is_aligned (base s) 8 = true -> 0 <= mask1 < 2 ^ n1 ->
  heap s + 8 * (4 + n1) <= heaplim s ->
  apart_from (heap s) (heaplim s) (base s) (base s + 8 * (1 + n1)) ->
  build_pap fuel s fn n1 mask1 = Ok s1 ->
  (forall p, heap s <= p < pap_end (heap s) args1 -> load (memof s2) p = load (memof s1) p) ->
  frame s2 (heap s) args2 -> is_aligned (base s2) 8 = true -> n < 32 ->
  apart_from (heap s) (pap_end (heap s) args1) (base s2 - 8) (base s2 + 8 * n) ->
  load (memof s2) fn = Ok ia -> apart_from fn (fn + 8) (base s2 - 8) (base s2 + 8 * n) ->
  stackOverflow (T s2) (base s2) n = false ->
  reg s1 0 = Ok (heap s)
  /\ exists s3 mask,
       unpack_pap s2 (heap s) (Z.of_nat (length args2)) mask2 = Ok (inr (s3, fn, n, mask))
       /\ frame s3 fn (args1 ++ args2) /\ code_info s3 = ia /\ base s3 = base s2
       /\ forall i, 0 <= i < 32 ->
            Z.testbit mask i = if i <? n1 then Z.testbit mask1 i else Z.testbit mask2 (i - n1).
Proof.
  intros n1 n Hfu Hfr Hah Hab Hm Hroom Hap Hbuild Hsame Hfr2 Hab2 Hn32 Hap2 Hfn Hfna Hso.
  assert (Hm32 : 2 ^ n1 < 2 ^ 32) by (apply Z.pow_lt_mono_r; lia).
  destruct (build_pap_spec s fn args1 mask1 f0) as (s' & Hs' & Hpap & Hres & Hb & _);
    try done; [fold n1; lia..|].
  fold n1 in Hs'. rewrite Hs' in Hbuild. injection Hbuild as ->.
  split; [unfold reg; by rewrite Z.mul_0_r, Z.add_0_r|].
  assert (Hpap2 : pap_at (memof s2) (heap s) (stg_PAP_info (misc (cap s))) fn mask1 args1).
  { unfold pap_end, PAP_PAYLOAD_OFFSET in Hsame. destruct Hpap as (H1' & H2' & H3' & H4').
    unfold pap_at, PAP_INFO_OFFSET, PAP_FUNCTION_OFFSET, PAP_PAYLOAD_OFFSET in *.
    rewrite !Hsame by lia. split_and!; try done. intros i w Hi.
    apply lookup_lt_Some in Hi as Hlt. rewrite Hsame by lia. by apply H4'. }
  destruct (unpack_pap_spec s2 (heap s) (stg_PAP_info (misc (cap s))) fn mask1 args1 args2 mask2 ia)
    as (s3 & Hs3 & Hfr3 & Hci & Hb3 & _); try done; [lia|].
  eexists s3, _. split; [exact Hs3|]. split_and!; try done.
  intros i Hi. by apply pap_mask_bits; [lia|..].
Qed.
End apply.
