(* ===== verification/InterpSteps.v ===== *)
(** * Single instructions

    The interpreter and the disassembler agree on the length of every
    instruction that falls through; what ALLOC builds; what CALL hands
    to its callee; where JMP goes. *)

From S2P Require Import Prelude Words Bytecode Objects Hotness HeapInterface MiscClosures.
From S2P Require Import Capability WordCopy Interp InterpPure Apply.
Import BcIns (Opcode(..)).

(** Opcodes that neither transfer control nor stop. *)
Definition falls_through (op : Opcode) : bool :=
  match op with
  | kNEG | kMOV | kBNOT | kMOV_RES | kUPDATE | kLOADF | kLOADFV | kLOADBH | kLOADSLF | kINITF
  | kADDRR | kSUBRR | kMULRR | kDIVRR | kREMRR | kCMPLT | kCMPGE | kCMPLE | kCMPGT | kCMPEQ
  | kCMPNE | kCMPLTU | kCMPGEU | kCMPLEU | kCMPGTU | kBAND | kBOR | kBXOR | kBSHL | kBSHR
  | kBSAR | kBROL | kBROR | kPTROFSC | kGETTAG | kLOADK | kALLOC1 | kALLOC | kALLOCAP
  | kNEWBYTEA | kGETA1 | kGETA2 | kGETA4 | kGETA8 | kSETA1 | kSETA2 | kSETA4 | kSETA8
  | kFUNC | kIFUNC | kFUNCPAP => true
  | _ => false
  end.

Definition allocates (op : Opcode) : bool :=
  match op with kALLOC1 | kALLOC | kALLOCAP => true | _ => false end.

Lemma opC_c w : opC (BcIns.d w) = BcIns.c w.
Proof.
  unfold opC, BcIns.d, BcIns.c, u2, to_u. change 0xff with (Z.ones 8).
  rewrite !Z.land_ones by lia. rewrite Z.mod_mod_divide; [done|]. by exists (2 ^ 8).
Qed.

Section steps.
Context {H J : Type} `{HeapOps H} `{JitOps H J}.
Context (reload_state_pc : Z) (fuel : nat).
Implicit Types s : vm H J.

(** [heapOverflow] restarts the instruction, and tells the thread. *)
Lemma heapOverflow_pc s r :
  heapOverflow s = Ok r ->
  exists s', r = Continue s' /\ pc s' = pc s - 4 /\ t_pc (T s') = pc s - 4
    /\ base s' = base s /\ t_base (T s') = base s.
Proof.
  unfold heapOverflow. intros Hr. inv_ok. eexists. split; [done|].
  destruct (isRecording (cap s)); done.
Qed.

(** The new program counter, as a function of the state before. *)
Definition moves (s : vm H J) (words : Z) (r : next H J) : Prop :=
  exists s', r = Continue s' /\ pc s' = pc s + 4 * words.

Lemma moves_rr s op A D r r' :
  op_rr s op A D = Some r -> r = Ok r' -> moves s 0 r'.
Proof.
  unfold op_rr. destruct (alu1 op 0); [|done]. intros [= <-] Hr. inv_ok.
  eexists. split; [done|]. vm_cbn. lia.
Qed.

Lemma moves_rrr s op A D r r' :
  op_rrr s op A D = Some r -> r = Ok r' -> moves s 0 r'.
Proof.
  unfold op_rrr. destruct (alu op 0 0); [|done]. intros [= <-] Hr. inv_ok.
  eexists. split; [done|]. vm_cbn. lia.
Qed.

(** The allocating opcodes either finish or are restarted. *)
Definition restarts (s : vm H J) (r : next H J) : Prop :=
  exists s', r = Continue s' /\ pc s' = pc s - 4 /\ t_pc (T s') = pc s - 4
    /\ base s' = base s /\ t_base (T s') = base s.

Lemma bump_heap_pc s n s' : bump_heap s n = Some s' -> pc s' = pc s /\ base s' = base s.
Proof. unfold bump_heap. case_match; [done|]. by intros [= <-]. Qed.

Lemma moves_alloc s op A D r :
  allocates op = true -> op_other reload_state_pc fuel s op A D = Ok r ->
  restarts s r \/
  moves s match op with
          | kALLOC1 => 1
          | kALLOC => BcIns.BC_ROUND (opC D) + 1
          | _ => BcIns.BC_ROUND (opC D + 1) + 1
          end r.
Proof.
  unfold moves. destruct op; try done; intros _ Hr; cbn [op_other] in Hr.
  - unfold op_ALLOC1 in Hr. destruct (bump_heap s 1) eqn:Eb; [|left; by apply heapOverflow_pc].
    right. apply bump_heap_pc in Eb as [Eb _]. inv_ok. eexists. split; [done|]. vm_cbn. lia.
  - unfold op_ALLOC in Hr. destruct (bump_heap s _) eqn:Eb; [|left; by apply heapOverflow_pc].
    right. apply bump_heap_pc in Eb as [Eb _]. inv_ok. eexists. split; [done|]. vm_cbn. lia.
  - unfold op_ALLOCAP in Hr. inv_ok. destruct (bump_heap s _) eqn:Eb; [|left; by apply heapOverflow_pc].
    right. apply bump_heap_pc in Eb as [Eb _]. inv_ok. eexists. split; [done|]. vm_cbn. lia.
Qed.

Lemma moves_other s op A D r :
  falls_through op = true -> allocates op = false ->
  op_other reload_state_pc fuel s op A D = Ok r -> moves s 0 r.
Proof.
  destruct op; try done; intros _ _ Hr; cbn [op_other] in Hr;
    unfold op_LOADSLF, op_LOADF, op_LOADFV, op_PTROFSC, op_LOADK, op_UPDATE, op_MOV_RES, op_FUNC,
      op_LOADBH, op_INITF, op_GETTAG, op_NEWBYTEA, op_GETA, op_SETA in Hr;
    inv_ok; try case_bool_decide; inv_ok; eexists; (split; [reflexivity|]); vm_cbn; lia.
Qed.

(** C32: A fall-through instruction ends where the disassembler says the next
    one begins, or it is an allocation that is about to be retried. *)
Lemma step_length s w op n r :
  dispatch s = dispatch_normal -> load_ins (memof s) (pc s) = Ok w ->
  BcIns.opcode w = Some op -> falls_through op = true -> BcIns.ins_words w = Some n ->
  step reload_state_pc fuel s = Ok r ->
  moves s n r \/ (allocates op = true /\ restarts (set_pc s (pc s + 4)) r).
Proof.
  intros Hd Hw Ho Hf Hn Hr. unfold step in Hr. rewrite Hw in Hr. cbn [obind] in Hr.
  rewrite Ho in Hr. cbn [of_option obind] in Hr. cbv zeta in Hr. vm_cbn. rewrite Hd in Hr.
  unfold exec in Hr. unfold BcIns.ins_words in Hn. rewrite Ho in Hn. injection Hn as Hn.
  set (s1 := set_pc s (pc s + 4)) in *.
  assert (Hmv : forall k, moves s1 k r -> n = 1 + k -> moves s n r).
  { intros k (s' & -> & Hpc) ->. exists s'. split; [done|]. rewrite Hpc. unfold s1. vm_cbn. lia. }
  assert (Hb : op_branch s1 op (BcIns.a w) (BcIns.d w) = None).
  { unfold op_branch. by destruct op. }
  rewrite Hb in Hr.
  destruct (op_rr s1 op (BcIns.a w) (BcIns.d w)) as [r1|] eqn:E1.
  { left. eapply Hmv; [by eapply moves_rr|]. subst n. unfold op_rr in E1. by destruct op. }
  destruct (op_rrr s1 op (BcIns.a w) (BcIns.d w)) as [r1|] eqn:E2.
  { left. eapply Hmv; [by eapply moves_rrr|]. subst n. unfold op_rrr in E2. by destruct op. }
  destruct (allocates op) eqn:Ea.
  - destruct (moves_alloc s1 op _ _ r Ea Hr) as [Hrs|Hm]; [by right|left].
    eapply Hmv; [exact Hm|]. subst n. rewrite opC_c. destruct op; try done; cbn; lia.
  - left. eapply Hmv; [by eapply moves_other|]. subst n. by destruct op.
Qed.

(** The target of a JMP whose offset was encoded with [aj]: forward
    offsets are relative to the next instruction as documented; a
    negative one lands 2^32 instructions further on, because the
    difference [opC - kBranchBias] is computed in [u4]. *)
Lemma jmp_target s off r :
  - 2 ^ 15 <= off < 2 ^ 15 ->
  op_JMP s (BcIns.d (BcIns.aj kJMP 0 off)) = Ok r ->
  moves s (if 0 <=? off then off else off + 2 ^ 32) r.
Proof.
  intros Hoff [= <-]. eexists. split; [done|]. vm_cbn. do 2 f_equal.
  unfold BcIns.aj. destruct (BcIns.ad_fields kJMP 0 (u2 (BcIns.kBranchBias + i2 off))) as (_ & _ & ->).
  unfold i2, u2, u4, BcIns.kBranchBias.
  rewrite (to_s_id 16 ltac:(lia) off), !(to_u_id 16) by (rewrite ?(to_u_id 16); lia).
  replace (0x8000 + off - 0x8000) with off by lia. destruct (Z.leb_spec 0 off).
  - apply to_u_id. lia.
  - unfold to_u. rewrite <- (Z.mod_add _ 1), Z.mul_1_l by lia. apply Z.mod_small. lia.
Qed.

(** C34: ALLOC builds one closure at the heap pointer: its info pointer, and
    as payload the argument registers in order. *)
Lemma alloc_builds s A D info rs vs :
  let n := Z.of_nat (length rs) in
  opC D = n -> heap s + (1 + n) * 8 <= heaplim s ->
  is_aligned (heap s) 8 = true -> is_aligned (base s) 8 = true ->
  reg s (opB D) = Ok info -> arg_regs (memof s) (pc s) rs ->
  reg_values (memof s) (base s) rs vs -> 0 <= A < 256 -> Forall (fun r => 0 <= r < 256) rs ->
  apart_from (heap s) (heap s + (1 + n) * 8) (base s) (base s + 8 * 256) ->
  exists s', op_ALLOC s A D = Ok (Continue s')
    /\ words_at (memof s') (heap s) (info :: vs)
    /\ reg s' A = Ok (heap s) /\ base s' = base s
    /\ heap s' = heap s + (1 + n) * 8 /\ heaplim s' = heaplim s
    /\ (forall i, 0 <= i < 256 -> i <> A -> reg s' i = reg s i).
Proof.
  intros n HC Hroom Hah Hab Hi Hargs Hvals HA Hrs Hap. unfold apart_from in Hap.
  assert (Hlen : length vs = length rs) by (symmetry; by eapply Forall2_length).
  unfold op_ALLOC, bump_heap. rewrite HC, (proj2 (Z.ltb_ge _ _)) by lia.
  unfold reg in *. vm_cbn. rewrite Hi. cbn [obind]. unfold setInfo.
  set (m1 := store (memof s) (heap s) info).
  assert (Hs1 : same_except (heap s) (heap s + (1 + n) * 8) (memof s) m1).
  { apply same_store_in; lia. }
  destruct (copy_args_spec m1 (base s) (pc s) (heap s + 8) rs vs) as (m2 & Hm2 & Hw2 & Hs2).
  { by apply aligned_8. }
  { intros i r Hr. rewrite (same_load_ins_u1 _ _ _ _ _ Hs1). by apply Hargs. }
  { eapply Forall2_Forall_impl; [exact Hvals|exact Hrs|]. cbn. intros r v Hr Hv.
    rewrite (same_load _ _ _ _ _ Hs1) by lia. done. }
  { eapply Forall_impl; [exact Hrs|]. cbn. fold n. lia. }
  unfold n at 1 2. rewrite Nat2Z.id, Hm2. cbn [obind]. eexists. split; [done|]. vm_cbn. fold n.
  assert (Hs12 : same_except (heap s) (heap s + (1 + n) * 8) (memof s) m2).
  { eapply same_chain; [exact Hs1|]. eapply same_mono; [..|exact Hs2]; fold n; lia. }
  split_and!; try done.
  - eapply words_at_weaken; [apply (same_store (base s + 8 * A))|cbn [length]; lia|].
    apply words_at_cons. split; [|done].
    rewrite (same_load _ _ _ _ _ Hs2) by lia. by apply load_store_eq.
  - apply load_store_eq. by apply aligned_add.
  - intros i Hi1 Hi2. rewrite load_store_ne by lia. apply (same_load _ _ _ _ _ Hs12). lia.
Qed.
End steps.
