(* ===== verification/Eval.v ===== *)
(** * Evaluation, return and update

    EVAL pushes an update frame and the frame of the thunk; returning
    from the thunk runs the code of the update closure, which overwrites
    the thunk with an indirection and returns to the code after EVAL. *)

From S2P Require Import Prelude Words Bytecode Objects Hotness HeapInterface MiscClosures.
From S2P Require Import Capability WordCopy Interp Apply.
Import BcIns (Opcode(..)).

(** The two frames on memory alone. *)
Lemma eval_frames m t b ret upd old bad upc fs :
  is_aligned t 8 = true ->
  exists m',
    (let '(m1, top1, base1) := pushFrame m t b ret upd 2 in
     pushFrame (store (store m1 base1 old) (base1 + 8) bad) top1 base1 upc old fs)
    = (m', t + 64 + 8 * fs, t + 64)
    /\ words_at m' t [b; ret; upd; old; bad; t + 24; upc; old]
    /\ same_except t (t + 64) m m'.
Proof.
  intros Ha. unfold pushFrame.
  replace (t + 24 + 8 * 2) with (t + 40) by lia. replace (t + 24 + 8) with (t + 32) by lia.
  replace (t + 40 + 8) with (t + 48) by lia. replace (t + 40 + 16) with (t + 56) by lia.
  replace (t + 40 + 24) with (t + 64) by lia.
  eexists. split; [done|]. split.
  - pose proof (aligned_add t 1 Ha). pose proof (aligned_add t 2 Ha). pose proof (aligned_add t 3 Ha).
    pose proof (aligned_add t 4 Ha). pose proof (aligned_add t 5 Ha). pose proof (aligned_add t 6 Ha).
    pose proof (aligned_add t 7 Ha). cbn [Z.mul Pos.mul] in *.
    rewrite !words_at_cons, <- !Z.add_assoc. cbn [Z.add Pos.add Pos.succ].
    split_and!; try apply words_at_nil; by load_store.
  - repeat (eapply same_chain; [|apply same_store_in; lia]). apply same_refl.
Qed.

Section eval.
Context {H J : Type} `{HeapLaws H} `{JitOps H J}.
Context (reload_state_pc : Z) (fuel : nat).
Implicit Types s : vm H J.

(** No address has a compiled trace or will become hot within the
    next [n] branches, so branches are plain jumps. *)
Definition cold (n : Z) s : Prop :=
  (forall p, j_traceAt (jit (cap s)) p = None)
  /\ HotCounters.wf (counters (cap s))
  /\ forall p c, HotCounters.get (counters (cap s)) p = Ok c -> n < c.

(** Everything but pc, base, code, memory, top of stack and counters. *)
Definition env s : H * MiscClosures * J * Z * (Z * Z) * (AsmFunctions * AsmFunctions) * (Z * Z) :=
  (mm (cap s), misc (cap s), jit (cap s), static_roots (cap s), (heap s, heaplim s),
   (dispatch s, dispatch2 s), (t_stack (T s), t_stackSize (T s))).

Lemma cold_tick n s p :
  cold n s -> 1 <= n ->
  exists k, HotCounters.tick (counters (cap s)) p = Ok (false, k)
    /\ cold (n - 1) (set_cap s (set_cap_counters (cap s) k)).
Proof.
  intros (Ht & Hwf & Hc) Hn. destruct (HotCounters.get_wf _ p Hwf) as (c & Hg & Hcb).
  pose proof (Hc p c Hg). exists (HotCounters.set (counters (cap s)) p (c - 1)).
  split; [apply HotCounters.tick_down; [done..|lia]|].
  split_and!; vm_cbn; [done|by apply HotCounters.set_wf|]. intros q d Hd.
  destruct (Z.eq_dec (HotCounters.hotCountHash q) (HotCounters.hotCountHash p)) as [He|He].
  - rewrite HotCounters.get_set_hash in Hd by done. injection Hd as <-.
    unfold u2. rewrite to_u_id by lia. lia.
  - rewrite HotCounters.get_set_other in Hd by done. specialize (Hc q d Hd). lia.
Qed.

Lemma cold_weaken n n' s : n' <= n -> cold n s -> cold n' s.
Proof. intros Hn (? & ? & Hc). split_and!; [done..|]. intros p c Hg. specialize (Hc p c Hg). lia. Qed.

(** A cold branch goes where it says. *)
Lemma interpBranch_cold n s dst ty w :
  cold n s -> 1 <= n -> load_ins (memof s) dst = Ok w ->
  exists k, interpBranch reload_state_pc s dst ty
            = Ok (set_pc (set_cap s (set_cap_counters (cap s) k)) dst)
    /\ cold (n - 1) (set_cap s (set_cap_counters (cap s) k)).
Proof.
  intros Hc Hn Hw. unfold interpBranch, isStartOfTrace.
  assert (Hsame : set_cap s (set_cap_counters (cap s) (counters (cap s))) = s).
  { by destruct s as [[]]. }
  assert (Hskip : exists k, Ok (set_pc s dst)
            = Ok (set_pc (set_cap s (set_cap_counters (cap s) k)) dst)
    /\ cold (n - 1) (set_cap s (set_cap_counters (cap s) k))).
  { exists (counters (cap s)). rewrite Hsame. split; [done|]. eapply cold_weaken; [|done]. lia. }
  destruct (isRecording (cap s)); [done|]. destruct (dst <? pc s); [|done].
  rewrite Hw. cbn [obind]. destruct (_ || _); [|done].
  destruct (cold_tick n s dst Hc Hn) as (k & Hk & Hck). destruct Hc as (Ht & _).
  rewrite Ht, Hk. cbn [obind andb]. exists k. done.
Qed.

(** Returning: the saved registers are restored from the frame. *)
Lemma do_return_cold n s b ret node ia info c w :
  load (memof s) (base s - 24) = Ok b -> load (memof s) (base s - 16) = Ok ret ->
  load (memof s) (b - 8) = Ok node -> h_looksLikeClosure (mm (cap s)) (memof s) node = true ->
  load (memof s) node = Ok ia -> info_at (memof s) ia = Ok info -> it_code info = Some c ->
  code c < ret < code c + 4 * sizecode c -> load_ins (memof s) ret = Ok w ->
  cold n s -> 1 <= n ->
  exists s', do_return reload_state_pc s = Ok (Continue s')
    /\ pc s' = ret /\ base s' = b /\ t_top (T s') = base s - 24 /\ code_info s' = ia
    /\ memof s' = memof s /\ env s' = env s /\ cold (n - 1) s'.
Proof.
  intros Hb Hr Hn Hlook Hia Hinfo Hc Hrange Hw Hcold Hn1. unfold do_return. vm_cbn.
  unfold reg. vm_cbn. replace (base s + 8 * -2) with (base s - 16) by lia.
  replace (base s + 8 * -3) with (base s - 24) by lia. rewrite Hr. cbn [obind]. vm_cbn.
  rewrite Hb. cbn [obind]. replace (b + 8 * -1) with (b - 8) by lia. rewrite Hn. cbn [obind].
  rewrite Hlook. unfold closure_info_addr, code_of. rewrite Hia. cbn [obind]. vm_cbn.
  rewrite Hinfo. cbn [obind]. rewrite Hc. cbn [of_option obind].
  rewrite (proj2 (Z.ltb_lt (code c) ret)), (proj2 (Z.ltb_lt ret _)) by lia. cbn [andb].
  unfold branch_to.
  edestruct (interpBranch_cold n) as (k & -> & Hck);
    [|exact Hn1| |cbn [obind]; eexists; split; [done|]; vm_cbn; split_and!; try done; exact Hck].
  - exact Hcold.
  - exact Hw.
Qed.

(** A closure with code, as the checks of [do_return] see it. *)
Definition code_closure (s : vm H J) (m : memory) (cl ia ret : Z) : Prop :=
  h_looksLikeClosure (mm (cap s)) m cl = true /\ load m cl = Ok ia
  /\ exists info c, info_at m ia = Ok info /\ it_code info = Some c
       /\ code c < ret < code c + 4 * sizecode c.

Lemma code_closure_same s m m' cl ia ret :
  load m' cl = load m cl -> itbls m' = itbls m -> code_closure s m cl ia ret ->
  code_closure s m' cl ia ret.
Proof.
  intros Hl Hi (Hk & Hia & info & c & Hinfo & Hc). split_and!.
  - by rewrite (looks_local _ m).
  - by rewrite Hl.
  - exists info, c. unfold info_at in *. by rewrite Hi.
Qed.

Lemma return_to n s b ret node ia w :
  load (memof s) (base s - 24) = Ok b -> load (memof s) (base s - 16) = Ok ret ->
  load (memof s) (b - 8) = Ok node -> code_closure s (memof s) node ia ret ->
  load_ins (memof s) ret = Ok w -> cold n s -> 1 <= n ->
  exists s', do_return reload_state_pc s = Ok (Continue s')
    /\ pc s' = ret /\ base s' = b /\ t_top (T s') = base s - 24 /\ code_info s' = ia
    /\ memof s' = memof s /\ env s' = env s /\ cold (n - 1) s'.
Proof.
  intros ? ? ? (? & ? & info & c & ? & ? & ?) ? ? ?. by eapply do_return_cold.
Qed.

(** The code of the update closure behind [stg_UPD_return_pc]. *)
Definition upd_code_at (m : memory) (upc : Z) : Prop :=
  load_ins m upc = Ok (BcIns.ad kMOV_RES 1 0)
  /\ load_ins m (upc + 4) = Ok (BcIns.ad kUPDATE 0 1)
  /\ load_ins m (upc + 8) = Ok (BcIns.ad kIRET 1 0).

Lemma step_normal s w op :
  dispatch s = dispatch_normal -> load_ins (memof s) (pc s) = Ok w ->
  BcIns.opcode w = Some op ->
  step reload_state_pc fuel s
  = exec reload_state_pc fuel (set_pc s (pc s + 4)) op (BcIns.a w) (BcIns.d w).
Proof. intros Hd Hw Ho. unfold step. rewrite Hw. cbn [obind]. rewrite Ho. vm_cbn. by rewrite Hd. Qed.

Lemma step_other s w op A D :
  dispatch s = dispatch_normal -> load_ins (memof s) (pc s) = Ok w ->
  BcIns.opcode w = Some op -> BcIns.a w = A -> BcIns.d w = D ->
  branch_cond op 0 0 = None -> alu1 op 0 = None -> alu op 0 0 = None ->
  step reload_state_pc fuel s
  = op_other reload_state_pc fuel (set_pc s (pc s + 4)) op A D.
Proof.
  intros Hd Hw Ho <- <- Hb H1' H2'. rewrite (step_normal s w op) by done. unfold exec.
  unfold op_branch, op_rr, op_rrr. by rewrite Hb, H1', H2'.
Qed.

(** The three steps behind the return address, on a state whose frame
    is the update frame: register 0 holds the thunk [old], and the
    result [v] lies above the top. *)
Lemma step_MOV_RES s v :
  dispatch s = dispatch_normal -> load_ins (memof s) (pc s) = Ok (BcIns.ad kMOV_RES 1 0) ->
  load (memof s) (t_top (T s) + 24) = Ok v ->
  step reload_state_pc fuel s = Ok (Continue (set_reg (set_pc s (pc s + 4)) 1 v)).
Proof.
  intros Hd Hw Hv. rewrite (step_other s _ kMOV_RES 1 0) by done.
  cbn [op_other]. unfold op_MOV_RES, FRAME_SIZE. vm_cbn.
  replace (t_top (T s) + 8 * (3 + 0)) with (t_top (T s) + 24) by lia. by rewrite Hv.
Qed.

(** What UPDATE writes: the indirection, and for a CAF the link in
    the list of static roots. *)
Definition update_writes (s : vm H J) (old v : Z) (ty : ClosureType) : memory * Z :=
  let m := store (store (memof s) old (stg_IND_info (misc (cap s)))) (old + 8) v in
  if bool_decide (ty = CAF) then (store m (old + 16) (static_roots (cap s)), old)
  else (m, static_roots (cap s)).

Lemma step_UPDATE s old v it info :
  dispatch s = dispatch_normal -> load_ins (memof s) (pc s) = Ok (BcIns.ad kUPDATE 0 1) ->
  load (memof s) (base s) = Ok old -> load (memof s) (base s + 8) = Ok v ->
  load (memof s) old = Ok it -> info_at (memof s) it = Ok info ->
  Z.land (closureFlags (it_type info)) CF_HNF = 0 -> old <> 0 -> v <> 0 ->
  h_looksLikeClosure (mm (cap s)) (memof s) old = true ->
  h_looksLikeClosure (mm (cap s)) (memof s) v = true ->
  step reload_state_pc fuel s
  = Ok (Continue (let '(m, r) := update_writes s old v (it_type info) in
                  set_cap (set_pc s (pc s + 4)) (set_cap_roots (set_cap_mem (cap s) m) r))).
Proof.
  intros Hd Hw Ho Hv Hit Hinfo Hf Hold Hvz Hlo Hlv. rewrite (step_other s _ kUPDATE 0 1) by done.
  cbn [op_other]. unfold op_UPDATE, reg. vm_cbn.
  rewrite Z.mul_0_r, Z.add_0_r, Ho. cbn [obind]. rewrite Z.mul_1_r, Hv. cbn [obind].
  unfold isHNF, closure_info. rewrite Hit. cbn [obind]. rewrite Hinfo. cbn [obind].
  rewrite (proj2 (Z.eqb_neq old 0)), (proj2 (Z.eqb_neq v 0)), Hlo, Hlv, Hf by done.
  cbn [negb andb Z.eqb]. unfold update_writes, setPayload, setInfo.
  rewrite Z.mul_0_r, Z.add_0_r. replace (old + 8 + 8 * 1) with (old + 16) by lia.
  case_bool_decide; [done|]. by destruct s as [[]].
Qed.

Lemma update_writes_same s old v ty :
  same_except old (old + 24) (memof s) (fst (update_writes s old v ty)).
Proof.
  unfold update_writes. case_bool_decide; cbn [fst];
    repeat (eapply same_chain; [|apply same_store_in; lia]); apply same_refl.
Qed.

Lemma update_writes_ind s old v ty :
  is_aligned old 8 = true ->
  load (fst (update_writes s old v ty)) old = Ok (stg_IND_info (misc (cap s)))
  /\ load (fst (update_writes s old v ty)) (old + 8) = Ok v
  /\ (ty = CAF -> load (fst (update_writes s old v ty)) (old + 16) = Ok (static_roots (cap s))
                 /\ snd (update_writes s old v ty) = old)
  /\ (ty <> CAF -> snd (update_writes s old v ty) = static_roots (cap s)).
Proof.
  intros Ha. pose proof (aligned_add old 1 Ha) as Ha1. pose proof (aligned_add old 2 Ha) as Ha2.
  cbn [Z.mul Pos.mul] in Ha1, Ha2. unfold update_writes.
  case_bool_decide; cbn [fst snd]; load_store; by split_and!.
Qed.

Lemma step_IRET n s v b ret node ia w :
  dispatch s = dispatch_normal -> load_ins (memof s) (pc s) = Ok (BcIns.ad kIRET 1 0) ->
  load (memof s) (base s + 8) = Ok v ->
  let m := store (memof s) (base s) v in
  load m (base s - 24) = Ok b -> load m (base s - 16) = Ok ret ->
  load m (b - 8) = Ok node -> code_closure s m node ia ret ->
  load_ins m ret = Ok w -> cold n s -> 1 <= n ->
  exists s', step reload_state_pc fuel s = Ok (Continue s')
    /\ pc s' = ret /\ base s' = b /\ t_top (T s') = base s - 24 /\ code_info s' = ia
    /\ memof s' = m /\ env s' = env s.
Proof.
  intros Hd Hw Hv m Hb Hr Hn Hcl Hret Hcold Hn1.
  rewrite (step_other s _ kIRET 1 0) by done. cbn [op_other]. unfold op_IRET, reg.
  vm_cbn. rewrite Z.mul_1_r, Hv. cbn [obind].
  set (s1 := set_reg _ 0 v).
  assert (Hm1 : memof s1 = m) by (unfold s1; vm_cbn; by rewrite Z.mul_0_r, Z.add_0_r).
  assert (Hcl1 : code_closure s1 (memof s1) node ia ret) by (rewrite Hm1; exact Hcl).
  destruct (return_to n s1 b ret node ia w) as (s' & Hs' & ? & ? & ? & ? & Hm' & He & _);
    try (rewrite ?Hm1; done).
  exists s'. split; [exact Hs'|]. rewrite Hm', Hm1. split_and!; done.
Qed.

(** The words EVAL leaves at the old top [t] of the stack, with the
    result [v] where the frame of the thunk begins. *)
Record update_frame (m : memory) (t b ret upd old upc v : Z) : Prop := {
  uf_base : load m t = Ok b;
  uf_ret : load m (t + 8) = Ok ret;
  uf_upd : load m (t + 16) = Ok upd;
  uf_old : load m (t + 24) = Ok old;
  uf_base2 : load m (t + 40) = Ok (t + 24);
  uf_upc : load m (t + 48) = Ok upc;
  uf_result : load m (t + 64) = Ok v
}.

(** What the theorem below assumes of the caller's frame and of the
    two closures; the stack in use ends below [t + 72]. *)
Record update_ready (s : vm H J) (t b ret old v node ia : Z) (info : InfoTable) : Prop := {
  ur_dispatch : dispatch s = dispatch_normal;
  ur_t : is_aligned t 8 = true;
  ur_b : b <= t;
  ur_node : load (memof s) (b - 8) = Ok node;
  ur_code : code_closure s (memof s) node ia ret;
  ur_ret : exists w, load_ins (memof s) ret = Ok w;
  ur_info : exists it, load (memof s) old = Ok it /\ info_at (memof s) it = Ok info;
  ur_flag : Z.land (closureFlags (it_type info)) CF_HNF = 0;
  ur_old : old <> 0 /\ is_aligned old 8 = true
           /\ h_looksLikeClosure (mm (cap s)) (memof s) old = true;
  ur_v : v <> 0 /\ h_looksLikeClosure (mm (cap s)) (memof s) v = true
         /\ apart_from v (v + 8) (b - 8) (t + 72);
  ur_apart : apart_from old (old + 24) (b - 8) (t + 72)
             /\ apart_from node (node + 8) old (old + 24)
             /\ apart_from node (node + 8) (b - 8) (t + 72)
}.

(** Running the code of the update closure. *)
Lemma run_update n s t b ret upd old upc v node ia info :
  update_ready s t b ret old v node ia info ->
  update_frame (memof s) t b ret upd old upc v -> upd_code_at (memof s) upc ->
  pc s = upc -> base s = t + 24 -> t_top (T s) = t + 40 ->
  cold n s -> 1 <= n ->
  exists s', steps reload_state_pc fuel 3 s = Ok (Continue s')
    /\ pc s' = ret /\ base s' = b /\ t_top (T s') = t /\ code_info s' = ia
    /\ (forall p, p <> t + 24 -> load (memof s') p
          = load (fst (update_writes (set_reg s 1 v) old v (it_type info))) p)
    /\ load (memof s') (t + 24) = Ok v
    /\ static_roots (cap s') = snd (update_writes (set_reg s 1 v) old v (it_type info)).
Proof.
  intros [Hd Ht Hbt Hnode Hncl [w Hret] (it & Hit & Hinfo) Hflag (Ho0 & Hoa & Hlo) (Hv0 & Hlv & Hva)
    (Hao & Han & Hans)] [Hf1 Hf2 Hf3 Hf4 Hf5 Hf6 Hf7] (Hc1 & Hc2 & Hc3) Hpc Hbase Htop Hcold Hn.
  unfold apart_from in *. set (s2 := set_reg (set_pc s (pc s + 4)) 1 v).
  pose proof (aligned_add t 3 Ht) as Ht3. pose proof (aligned_add t 4 Ht) as Ht4.
  cbn [Z.mul Pos.mul] in Ht3, Ht4.
  assert (E1 : step reload_state_pc fuel s = Ok (Continue s2)).
  { apply step_MOV_RES; [done|by rewrite Hpc|].
    rewrite Htop. by replace (t + 40 + 24) with (t + 64) by lia. }
  assert (Hm2 : memof s2 = store (memof s) (t + 32) v).
  { unfold s2. vm_cbn. rewrite Hbase. by replace (t + 24 + 8 * 1) with (t + 32) by lia. }
  assert (Hl2 : forall p, p <> t + 32 -> load (memof s2) p = load (memof s) p).
  { intros p Hp. rewrite Hm2. by apply load_store_ne. }
  assert (Hlook2 : forall p, p <> t + 32 ->
            h_looksLikeClosure (mm (cap s2)) (memof s2) p
            = h_looksLikeClosure (mm (cap s)) (memof s) p).
  { intros p Hp. apply looks_local; [by apply Hl2|by rewrite Hm2]. }
  set (wr := update_writes s2 old v (it_type info)).
  set (s3 := set_cap (set_pc s2 (pc s2 + 4)) (set_cap_roots (set_cap_mem (cap s2) (fst wr)) (snd wr))).
  assert (Hb2 : base s2 = t + 24) by done.
  assert (E2 : step reload_state_pc fuel s2 = Ok (Continue s3)).
  { rewrite (step_UPDATE s2 old v it info); try done.
    - unfold s3, wr. by destruct (update_writes s2 old v (it_type info)).
    - rewrite Hm2. unfold s2. vm_cbn. by rewrite Hpc.
    - rewrite Hb2, Hl2 by lia. done.
    - rewrite Hb2, Hm2. replace (t + 24 + 8) with (t + 32) by lia. by apply load_store_eq.
    - rewrite Hl2 by lia. done.
    - rewrite Hlook2 by lia. done.
    - rewrite Hlook2 by lia. done. }
  pose proof (update_writes_same s2 old v (it_type info)) as Hsw. fold wr in Hsw.
  assert (Hl3 : forall p, p <> t + 32 -> p < old \/ old + 24 <= p ->
            load (memof s3) p = load (memof s) p).
  { intros p Hp Hpo. change (memof s3) with (fst wr).
    rewrite (same_load _ _ _ _ p Hsw) by done. by apply Hl2. }
  assert (Hb3 : base s3 = t + 24) by done. assert (Hm3 : memof s3 = fst wr) by done.
  set (m4 := store (memof s3) (base s3) v).
  assert (Hl4 : forall p, p <> t + 24 -> load m4 p = load (memof s3) p).
  { intros p Hp. unfold m4. rewrite Hb3. by apply load_store_ne. }
  assert (Hins : forall p, load_ins m4 p = load_ins (memof s) p).
  { intros p. change (load_ins m4 p) with (load_ins (fst wr) p).
    rewrite (same_load_ins _ _ _ _ p Hsw). by rewrite Hm2. }
  destruct (step_IRET n s3 v b ret node ia w) as (s' & E3 & Hpc' & Hb' & Htop' & Hci & Hm' & He);
    fold m4; rewrite ?Hb3; try done.
  - change (load_ins m4 (pc s3) = Ok (BcIns.ad kIRET 1 0)). rewrite Hins. unfold s3, s2. vm_cbn. rewrite Hpc. by rewrite <- Z.add_assoc.
  - replace (t + 24 + 8) with (t + 32) by lia. rewrite Hm3.
    rewrite (same_load _ _ _ _ _ Hsw), Hm2 by lia. by apply load_store_eq.
  - rewrite Hl4, Hl3 by lia. by replace (t + 24 - 24) with t by lia.
  - rewrite Hl4, Hl3 by lia. by replace (t + 24 - 16) with (t + 8) by lia.
  - rewrite Hl4, Hl3 by lia. done.
  - apply (code_closure_same s (memof s)); [by rewrite Hl4, Hl3 by lia| |done].
    change (itbls m4) with (itbls (fst wr)). destruct Hsw as (_ & -> & _). by rewrite Hm2.
  - by rewrite Hins.
  - exists s'. split.
    { cbn [steps]. rewrite E1. cbn [obind]. rewrite E2. cbn [obind]. by rewrite E3. }
    injection He as _ _ _ Hsr _ _ _ _ _ _. rewrite Htop', Hb3, Hsr, Hm'. unfold m4.
    split_and!; try done; try lia. rewrite Hb3. by apply load_store_eq.
Qed.

(** C2: Returning [v] from the thunk [old], seen from the caller: after
    the return and the three instructions of the update closure the
    caller runs again behind its EVAL, finds [v] where MOV_RES reads
    it, and the thunk is an indirection to [v]. *)
Lemma return_updates n s t b ret upd iu old v node ia info :
  update_ready s t b ret old v node ia info ->
  update_frame (memof s) t b ret upd old (stg_UPD_return_pc (misc (cap s))) v ->
  upd_code_at (memof s) (stg_UPD_return_pc (misc (cap s))) ->
  code_closure s (memof s) upd iu (stg_UPD_return_pc (misc (cap s))) ->
  base s = t + 64 -> cold n s -> 2 <= n ->
  exists s1 s',
    do_return reload_state_pc s = Ok (Continue s1)
    /\ steps reload_state_pc fuel 3 s1 = Ok (Continue s')
    /\ pc s' = ret /\ base s' = b /\ t_top (T s') = t /\ code_info s' = ia
    /\ load (memof s') (t_top (T s') + 8 * FRAME_SIZE) = Ok v
    /\ load (memof s') old = Ok (stg_IND_info (misc (cap s)))
    /\ load (memof s') (old + 8) = Ok v
    /\ static_roots (cap s')
       = (if bool_decide (it_type info = CAF) then old else static_roots (cap s)).
Proof.
  set (upc := stg_UPD_return_pc (misc (cap s))). intros Hr Hf Hc Hupd Hbase Hcold Hn.
  pose proof Hf as [Hf1 Hf2 Hf3 Hf4 Hf5 Hf6 Hf7]. pose proof Hc as (Hc1 & _).
  destruct (return_to n s (t + 24) upc upd iu (BcIns.ad kMOV_RES 1 0))
    as (s1 & Hs1 & Hpc1 & Hb1 & Htop1 & _ & Hm1 & He1 & Hcold1); rewrite ?Hbase; try done.
  { by replace (t + 64 - 24) with (t + 40) by lia. }
  { by replace (t + 64 - 16) with (t + 48) by lia. }
  { by replace (t + 24 - 8) with (t + 16) by lia. }
  { lia. }
  injection He1 as Hmm1 Hmisc1 _ Hsr1 _ _ Hd1 _ _ _.
  assert (Hr1 : update_ready s1 t b ret old v node ia info).
  { destruct Hr. constructor; unfold code_closure in *; rewrite ?Hm1, ?Hmm1, ?Hd1; done. }
  destruct (run_update (n - 1) s1 t b ret upd old upc v node ia info)
    as (s' & Hs' & Hpc' & Hb' & Htop' & Hci & Hmem & Hres & Hroots);
    rewrite ?Hm1, ?Htop1, ?Hbase; try done; [lia..|].
  destruct Hr as [_ Ht Hbt _ _ _ _ _ (_ & Hoa & _) _ (Hao & _)]. unfold apart_from in Hao.
  destruct (update_writes_ind (set_reg s1 1 v) old v (it_type info) Hoa) as (Hi1 & Hi2 & Hi3 & Hi4).
  exists s1, s'. split_and!; try done.
  - rewrite Htop'. exact Hres.
  - rewrite Hmem, Hi1 by lia. vm_cbn. by rewrite Hmisc1.
  - by rewrite Hmem, Hi2 by lia.
  - rewrite Hroots, <- Hsr1. case_bool_decide; [by apply Hi3|by rewrite Hi4].
Qed.

(** C11: EVAL of an unevaluated closure: the frames it pushes. *)
Lemma eval_thunk_frames n s A x old it info c w :
  reg s A = Ok x -> x <> 0 -> h_looksLikeClosure (mm (cap s)) (memof s) x = true ->
  followIndirections fuel (memof s) x = Ok old ->
  load (memof s) old = Ok it -> it <> stg_IND_info (misc (cap s)) ->
  info_at (memof s) it = Ok info -> Z.land (closureFlags (it_type info)) CF_HNF = 0 ->
  it_code info = Some c -> is_aligned (t_top (T s)) 8 = true ->
  stackOverflow (T s) (t_top (T s)) (8 + framesize c) = false ->
  load_ins (memof s) (code c) = Ok w -> cold n s -> 1 <= n ->
  let t := t_top (T s) in
  exists s', op_EVAL reload_state_pc fuel s A = Ok (Continue s')
    /\ pc s' = code c /\ code_info s' = it /\ base s' = t + 64
    /\ t_top (T s') = base s' + 8 * framesize c
    /\ words_at (memof s') t
         [base s; pc s + 4; stg_UPD_closure_addr (misc (cap s)); old; 0xbadbadff; t + 24;
          stg_UPD_return_pc (misc (cap s)); old]
    /\ same_except t (t + 64) (memof s) (memof s') /\ cold (n - 1) s'.
Proof.
  intros Hx Hx0 Hlook Hfol Hit Hnind Hinfo Hflag Hc Hal Hso Hw Hcold Hn t.
  unfold op_EVAL. rewrite Hx. cbn [obind]. rewrite (proj2 (Z.eqb_neq x 0)), Hlook, Hfol by done.
  unfold closure_info_addr, isHNF, closure_info. cbn [negb obind]. rewrite Hit. cbn [obind].
  rewrite (proj2 (Z.eqb_neq it _)), Hinfo by done. cbn [negb obind]. rewrite Hflag.
  cbn [Z.eqb negb]. rewrite Hc. cbn [of_option obind]. change (kStackFrameWords + kUpdateFrameWords) with 8.
  rewrite Hso. fold t.
  destruct (eval_frames (memof s) t (base s) (pc s + 4) (stg_UPD_closure_addr (misc (cap s))) old
    0xbadbadff (stg_UPD_return_pc (misc (cap s))) (framesize c) Hal) as (m' & Hm' & Hw' & Hs').
  unfold pushFrame in Hm' |- *. cbv beta iota zeta in Hm' |- *. injection Hm' as Hm' Ht' Hb'.
  rewrite Hm', Ht', Hb'. rewrite !(proj2 (Z.eqb_eq _ _)) by lia. unfold branch_to.
  edestruct (interpBranch_cold n) as (k & -> & Hck);
    [|exact Hn| |cbn [obind]; eexists; split; [done|]; vm_cbn; split_and!; try done; exact Hck].
  - exact Hcold.
  - vm_cbn. rewrite (same_load_ins _ _ _ _ _ Hs'). exact Hw.
Qed.
End eval.
