(* ===== verification/Examples.v ===== *)
(** * Concrete machines

    A heap that hands out fresh addresses, a trace compiler that never
    compiles, and small memories on which the theorems of the
    development are applied. *)

From S2P Require Import Prelude Words Bytecode Bitmaps Objects Hotness HeapInterface.
From S2P Require Import MiscClosures Capability WordCopy Interp InterpPure InterpSteps.
From S2P Require Import Apply Eval.
Import BcIns (Opcode(..)).

(** ** A heap that only counts up *)

Definition round8 (n : Z) : Z := 8 * ((n + 7) / 8).

#[export] Instance counting_heap : HeapOps Z := {
  h_beginAllocInfoTable h := Ok h;
  h_endAllocInfoTable h := Ok h;
  h_allocInfoTable h n := Ok (h + 8 * n, h);
  h_allocString h n := Ok (h + round8 (n + 1), h);
  h_allocCode h i b := Ok (h + round8 (4 * i + 2 * b), h);
  h_allocStaticClosure h n := Ok (h + 8 * (1 + n), h);
  h_allocLarge h m n := Ok (h + round8 n, m, h);
  h_bumpAllocatorFull h m _ _ _ _ := Ok (h + 4096, m, h, h + 4096);
  h_bumpAllocatorFullNoGC h _ _ := Ok (h + 4096, Some (h, h + 4096));
  h_getBumpAllocatorBounds h := Ok (h, h);
  h_sync h _ _ := Ok h;
  h_setTopOfStackMask h _ := h;
  h_looksLikeClosure h m p := is_ok (closure_info m p)
}.

#[export] Instance counting_heap_laws : HeapLaws Z.
Proof.
  constructor. intros h m m' p Hl Hi. cbn. unfold closure_info, info_at. by rewrite Hl, Hi.
Qed.

(** ** No trace compiler *)
#[export] Instance no_jit : JitOps Z unit := {
  j_traceAt _ _ := None;
  j_lookupFragment j _ := (j, None);
  j_startPc _ _ := 0;
  j_asmEnter c _ _ _ _ := Ok c;
  j_beginRecording c _ _ _ := Ok c;
  j_recordIns c _ _ _ := Ok (c, true);
  j_requestAbort j := j
}.

(** ** The closures of the run-time system, freshly built *)

Definition empty_memory : memory := mkMemory ∅ ∅ ∅.
Definition booted : outcome (Z * memory * MiscClosures) :=
  Misc.init 0x10000 empty_memory Misc.reset.

Lemma booted_ok : is_ok booted = true.
Proof. vm_compute. reflexivity. Qed.

Definition bmem : memory := match booted with Ok (_, m, _) => m | Err _ => empty_memory end.
Definition bmisc : MiscClosures := match booted with Ok (_, _, ms) => ms | Err _ => Misc.reset end.

Definition with_words (m : memory) (l : list (Z * Z)) : memory :=
  fold_left (fun m '(a, v) => store m a v) l m.
Definition with_infos (m : memory) (l : list (Z * InfoTable)) : memory :=
  fold_left (fun m '(a, i) => store_itbl m a i) l m.

(** A caller, a thunk, a constructor and a function, and where their
    code lies. *)
Definition caller : Z := 0x700000.
Definition thunk : Z := 0x700100.
Definition value : Z := 0x700200.
Definition func : Z := 0x700300.

Definition code_info_table (ty : ClosureType) (framesize arity code : Z) : InfoTable :=
  mkInfoTable ty 2 0 0 "sample" (Some (mkCode framesize arity 16 0 0 0 [] code)).

Definition sample_memory (ins : list Z) (stack : list (Z * Z)) : memory :=
  store_ins_list
    (with_words
      (with_infos bmem
        [(0x600000, code_info_table FUN 4 1 0x500000);
         (0x600040, code_info_table THUNK 3 0 0x500100);
         (0x600080, mkInfoTable CONSTR 1 2 0 "sample_con" None);
         (0x6000c0, code_info_table FUN 5 2 0x500200)])
      ([(caller, 0x600000); (thunk, 0x600040); (thunk + 8, 0); (value, 0x600080);
        (value + 8, 42); (func, 0x6000c0)] ++ stack)) 0x500000 ins.

(** The stack is at [0x800000]; the caller's frame has four words. *)
Definition stack : Z := 0x800000.
Definition sample_thread (top : Z) : Thread := mkThread 0x500000 1024 (stack + 24) top stack.
Definition sample_cap (m : memory) (top : Z) : Capability Z unit :=
  mkCap m 0x900000 (sample_thread top) 0 dispatch_normal (HotCounters.init 53) tt 0 0 0 bmisc.
Definition sample_vm (m : memory) (top pc base : Z) : vm Z unit :=
  mkVm (sample_cap m top) pc base 0x900000 0x901000 0x600000 dispatch_normal dispatch_normal.

Lemma sample_cold n m top pc base :
  n < 53 -> cold n (sample_vm m top pc base).
Proof.
  intros Hn. split_and!; [done|by apply HotCounters.init_wf|].
  intros p c. cbn [cap counters sample_vm sample_cap]. rewrite HotCounters.get_init.
  intros [= <-]. done.
Qed.

(** Side conditions are evaluated. *)
Ltac compute_side :=
  match goal with
  | |- cold _ _ => apply sample_cold; lia
  | |- exists _, _ => idtac
  | |- _ <> _ => vm_compute; discriminate
  | |- _ = _ => vm_compute; reflexivity
  | |- _ < _ => vm_compute; reflexivity
  | |- _ <= _ => vm_compute; discriminate
  | _ => idtac
  end.

(** *** EVAL of a thunk *)

Definition eval_state : vm Z unit :=
  sample_vm
    (sample_memory
       (replicate 64 (BcIns.ad kIFUNC 3 0) ++ [BcIns.ad kIFUNC 3 0])
       [(stack + 16, caller); (stack + 24, thunk); (stack + 32, 7)])
    (stack + 56) (0x500004) (stack + 24).

Lemma eval_thunk_frames_witness :
  exists s', op_EVAL 0 4 eval_state 0 = Ok (Continue s') /\ pc s' = 0x500100
    /\ base s' = stack + 56 + 64.
Proof.
  destruct (eval_thunk_frames 0 4 2 eval_state 0 thunk thunk 0x600040
    (code_info_table THUNK 3 0 0x500100) (mkCode 3 0 16 0 0 0 [] 0x500100) (BcIns.ad kIFUNC 3 0))
    as (s' & Hs' & Hpc & _ & Hb & _); compute_side.
  exists s'. split; [exact Hs'|]. split; [exact Hpc|exact Hb].
Defined.

(** *** Return through the update frame *)

Definition return_state : vm Z unit :=
  let t := stack + 56 in
  sample_vm
    (sample_memory (replicate 80 (BcIns.ad kIFUNC 3 0))
       [(stack + 16, caller); (stack + 24, thunk);
        (t, stack + 24); (t + 8, 0x500008); (t + 16, stg_UPD_closure_addr bmisc); (t + 24, thunk);
        (t + 32, 0xbadbadff); (t + 40, t + 24); (t + 48, stg_UPD_return_pc bmisc); (t + 56, thunk);
        (t + 64, value)])
    (t + 88) 0x500108 (t + 64).

Definition upd_info : Z := match load bmem (stg_UPD_closure_addr bmisc) with Ok i => i | Err _ => 0 end.

Ltac compute_code_closure :=
  split; [vm_compute; reflexivity|]; split; [vm_compute; reflexivity|];
  do 2 eexists; split; [vm_compute; reflexivity|]; split; [reflexivity|];
  vm_compute; split; reflexivity.

Lemma return_updates_witness :
  exists s1 s', do_return 0 return_state = Ok (Continue s1)
    /\ steps 0 4 3 s1 = Ok (Continue s') /\ load (memof s') (thunk + 8) = Ok value.
Proof.
  destruct (return_updates 0 4 2 return_state (stack + 56) (stack + 24) 0x500008
    (stg_UPD_closure_addr bmisc) upd_info thunk value caller 0x600000
    (code_info_table THUNK 3 0 0x500100))
    as (s1 & s' & H1 & H2 & _ & _ & _ & _ & _ & _ & H3 & _); compute_side.
  - constructor; compute_side.
    + compute_code_closure.
    + eexists. vm_compute. reflexivity.
    + eexists. split; vm_compute; reflexivity.
    + split; [done|]. split; vm_compute; reflexivity.
    + split; [done|]. split; [vm_compute; reflexivity|]. left. done.
    + split; [left; done|]. split; [left; done|left; done].
  - constructor; vm_compute; reflexivity.
  - split; [vm_compute; reflexivity|]. split; vm_compute; reflexivity.
  - compute_code_closure.
  - exists s1, s'. split; [exact H1|]. split; [exact H2|exact H3].
Defined.

(** *** The instruction set *)

Lemma fields_roundtrip_witness :
  BcIns.j (BcIns.aj kJMP 0 (-5)) = -5.
Proof. apply (BcIns.fields_roundtrip kJMP 0 0 0 (-5)). lia. Defined.

Lemma printInlineBitmaps_encode_witness :
  printInlineBitmaps 3 (encodeBitmask 0x40003 ++ encodeBitmask 0x40007 ++ [7])
  = Ok [(0, true); (1, true); (2, false); (18, true)].
Proof. rewrite printInlineBitmaps_encode by lia. vm_compute. reflexivity. Defined.

Definition switch_table : list (Z * Z) := [(2, 10); (5, 20); (9, 0); (700, 31)].
Definition switch_memory : memory :=
  store_ins_list empty_memory 0x1000 (map (fun '(t, o) => Z.lor o (Z.shiftl t 16)) switch_table).

Lemma case_s_search_linear_witness :
  case_s_search 17 switch_memory 0x1000 9 0 3 = Ok 1.
Proof.
  transitivity (Ok (assoc_tag switch_table 9)); [|reflexivity].
  apply (case_s_search_linear 17 switch_memory 0x1000 switch_table 9).
  - intros [|[|[|[|i]]]] t o [= <- <-]; (split; [lia|split; [lia|reflexivity]]).
  - intros [|[|[|[|i]]]] [|[|[|[|j]]]] x y Hij [= <-] [= <-]; cbn; lia.
  - vm_compute. reflexivity.
  - lia.
Defined.

Lemma branch_cond_negated_witness :
  exists r, branch_cond kISLT 3 (2 ^ 64 - 1) = Some r
    /\ branch_cond kISGE 3 (2 ^ 64 - 1) = Some (negb r).
Proof. apply (branch_cond_negated kISLT kISGE). reflexivity. Defined.

Lemma alu_div_rem_witness :
  i8 (u8 (-7)) = i8 2 * i8 (u8 (-3)) + i8 (u8 (-1)).
Proof. apply (alu_div_rem (u8 (-7)) 2); vm_compute; reflexivity. Defined.

Lemma rotate_inverse_witness :
  alu kBROR 0x1f 5 = Some (Ok 0xf800000000000000).
Proof. apply (rotate_inverse 0xf800000000000000 5 0x1f); [lia|vm_compute; reflexivity]. Defined.

Definition array_memory : memory :=
  with_words empty_memory [(0x2000, 0); (0x2008, 13); (0x2010, 0); (0x2018, 0)].

Lemma array_elem_bounds_witness :
  array_elem array_memory 0x2000 (2 ^ 62 + 3) (2 ^ 2) = Ok 0x201c
  /\ 0x201c + 4 <= 0x2010 + 8 * roundUpBytesToWords 13.
Proof.
  assert (E : array_elem array_memory 0x2000 (2 ^ 62 + 3) (2 ^ 2) = Ok 0x201c)
    by (vm_compute; reflexivity).
  split; [exact E|].
  apply (array_elem_bounds array_memory 0x2000 (2 ^ 62 + 3) 2 13 0x201c);
    try lia; try exact E; vm_compute; solve [reflexivity|discriminate].
Defined.

(** *** Single steps *)

Definition step_state (ins : list Z) : vm Z unit :=
  sample_vm
    (sample_memory ins
       [(stack + 16, caller); (stack + 24, 11); (stack + 32, 7); (stack + 40, 0x600080);
        (stack + 48, 0)])
    (stack + 56) 0x500000 (stack + 24).

Lemma step_length_witness :
  moves (step_state [BcIns.abc kADDRR 3 0 1]) 1
    (Continue (set_reg (set_pc (step_state [BcIns.abc kADDRR 3 0 1]) 0x500004) 3 18)).
Proof.
  destruct (step_length 0 4 (step_state [BcIns.abc kADDRR 3 0 1]) (BcIns.abc kADDRR 3 0 1) kADDRR 1
    (Continue (set_reg (set_pc (step_state [BcIns.abc kADDRR 3 0 1]) 0x500004) 3 18)))
    as [Hm|[? _]]; [vm_compute; reflexivity..|exact Hm|discriminate].
Defined.

Lemma jmp_target_witness :
  moves (step_state []) (2 ^ 32 - 1) (Continue (set_pc (step_state []) (0x500000 + 4 * (2 ^ 32 - 1)))).
Proof. apply (jmp_target (step_state []) (-1)); [lia|vm_compute; reflexivity]. Defined.

(** ALLOC r3, r2, [r0, r1] *)
Definition alloc_state : vm Z unit := step_state [BcIns.args 0 1 0 0; 0].

Lemma alloc_builds_witness :
  exists s', op_ALLOC alloc_state 3 (Z.shiftl 2 8 + 2) = Ok (Continue s')
    /\ words_at (memof s') 0x900000 [0x600080; 11; 7].
Proof.
  destruct (alloc_builds alloc_state 3 (Z.shiftl 2 8 + 2) 0x600080 [0; 1] [11; 7])
    as (s' & Hs & Hw & _); compute_side.
  - intros [|[|i]] r [= <-]; vm_compute; reflexivity.
  - constructor; [vm_compute; reflexivity|]. constructor; [vm_compute; reflexivity|constructor].
  - lia.
  - repeat constructor; lia.
  - right. vm_compute. discriminate.
  - exists s'. split; [exact Hs|exact Hw].
Defined.

(** *** Hot counters and machine code *)

Lemma ticks_countdown_witness :
  exists h, HotCounters.ticks 53 (HotCounters.init 53) 0x500000
            = Ok (replicate 52 false ++ [true], h).
Proof.
  destruct (HotCounters.ticks_countdown 52 (HotCounters.init 53) 0x500000) as (h & Hh & _).
  - apply HotCounters.init_wf. lia.
  - apply HotCounters.get_init.
  - lia.
  - exists h. exact Hh.
Defined.

(** An operating system that grants every hint. *)
Definition grant (hint size prot : Z) : Z := hint.

Definition after_reserve : MachineCode.t :=
  match MachineCode.reserve grant 0x400000 8 (MachineCode.init Prng.init) with
  | Ok (s, _, _) => s
  | Err _ => MachineCode.init 0
  end.

Lemma after_reserve_eq :
  MachineCode.reserve grant 0x400000 8 (MachineCode.init Prng.init)
  = Ok (after_reserve, MachineCode.bottom after_reserve, MachineCode.top after_reserve).
Proof. vm_compute. reflexivity. Qed.

Lemma reachable_inv_witness :
  MachineCode.inv (MachineCode.protect after_reserve MachineCode.MCPROT_RUN).
Proof.
  apply (MachineCode.reachable_inv grant 0x400000 Prng.init).
  eapply rtc_l; [eapply (MachineCode.step_reserve grant 0x400000 _ 8), after_reserve_eq|].
  eapply rtc_l; [apply (MachineCode.step_abort grant 0x400000)|]. apply rtc_refl.
Defined.

(** *** Large objects *)

Definition lo_a : Z := 0x10000.
Definition lo_b : Z := 0x11000.
Definition lo_c : Z := 0x12000.
Definition lo_memory : memory :=
  with_words empty_memory
    [(lo_a, 0); (lo_a + 8, lo_b); (lo_b, lo_a); (lo_b + 8, lo_c); (lo_c, lo_b); (lo_c + 8, 0)].

Lemma lo_list : dll lo_memory 0 lo_a [lo_a; lo_b; lo_c].
Proof.
  exists lo_c. cbn [seg].
  repeat (split; [reflexivity || (vm_compute; discriminate) || (vm_compute; reflexivity)|];
          try (split; [vm_compute; discriminate|]); try (split; [vm_compute; reflexivity|]);
          try (eexists; split; [vm_compute; reflexivity|])); reflexivity.
Qed.

Lemma linkLargeObject_dll_witness :
  dll (fst (linkLargeObject lo_memory 0x13000 lo_a)) 0 0x13000 [0x13000; lo_a; lo_b; lo_c].
Proof.
  destruct (linkLargeObject_dll lo_memory 0x13000 lo_a [lo_a; lo_b; lo_c]) as [E Hd].
  - reflexivity.
  - discriminate.
  - exact lo_list.
  - cbn. unfold apart. repeat constructor; vm_compute; discriminate.
  - repeat constructor.
  - exact Hd.
Defined.

Lemma unlinkLargeObject_dll_witness :
  exists m' l', unlinkLargeObject lo_memory lo_b lo_a = Ok (m', l') /\ dll m' 0 l' [lo_a; lo_c].
Proof.
  apply (unlinkLargeObject_dll lo_memory lo_a [lo_a] lo_b [lo_c]).
  - exact lo_list.
  - cbn. unfold apart. repeat constructor; vm_compute; discriminate.
  - repeat constructor.
Defined.

(** *** The closures of the run-time system *)

Lemma init_complete_witness :
  is_Some (smallApConts bmisc !! Misc.apContIndex 3 5).
Proof.
  destruct booted as [[[h m] ms]|] eqn:E; [|pose proof booted_ok as B; rewrite E in B; discriminate].
  unfold bmisc. rewrite E.
  apply (Misc.init_complete 0x10000 empty_memory Misc.reset h m ms E 3 5); unfold Misc.kMaxSmallArity; lia.
Defined.

Definition apk_memory : outcome (Z * memory * ApContInfo) :=
  Misc.buildApCont 0x20000 empty_memory 6 0x15.

Lemma buildApCont_layout_witness :
  exists h m inf c, apk_memory = Ok (h, m, inf) /\ apk_returnAddr inf = code c + 12.
Proof.
  destruct apk_memory as [[[h m] inf]|] eqn:E; [|vm_compute in E; discriminate].
  destruct (Misc.buildApCont_layout 0x20000 empty_memory 6 0x15 h m inf E)
    as (info & c & off & bm & ch & _ & _ & _ & _ & Hret & _).
  - lia.
  - lia.
  - vm_compute in E. injection E as <- <- <-. reflexivity.
  - vm_compute in E. injection E as <- <- <-. reflexivity.
  - exists h, m, inf, c. split; [reflexivity|exact Hret].
Defined.

(** *** Application *)

(** The function of arity 2 with three arguments on the stack. *)
Definition over_state : vm Z unit :=
  sample_vm
    (sample_memory [] [(stack + 16, func); (stack + 24, 11); (stack + 32, 7); (stack + 40, 13)])
    (stack + 48) 0x500000 (stack + 24).
Definition func_code : Code := mkCode 5 2 16 0 0 0 [] 0x500200.
Definition apk_1_0 : ApContInfo :=
  default (mkApContInfo 0 0) (smallApConts bmisc !! Misc.apContIndex 1 0).

Lemma apply_over_spec_witness :
  exists s', apply_over 0 over_state func_code 3 0 = enter_function 0 s' func_code
    /\ base s' = stack + 24 + 40
    /\ words_at (memof s') (stack + 16) [apk_closure apk_1_0; 13].
Proof.
  destruct (apply_over_spec 0 over_state func_code func [11; 7] [13] 0 0x900000 (memof over_state)
    bmisc apk_1_0) as (s' & Hs & Hb & _ & Hw & _).
  - reflexivity.
  - vm_compute. reflexivity.
  - intros [|[|[|[|i]]]] w [= <-]; vm_compute; reflexivity.
  - reflexivity.
  - reflexivity.
  - exists s'. split; [exact Hs|]. split; [exact Hb|exact Hw].
Defined.

(** One argument now, one later. *)
Definition partial_state : vm Z unit :=
  sample_vm (sample_memory [] [(stack + 16, func); (stack + 24, 11)]) (stack + 32)
    0x500000 (stack + 24).
Definition partial_built : vm Z unit :=
  match build_pap 1 partial_state func 1 0 with Ok s => s | Err _ => partial_state end.
Definition partial_later : vm Z unit :=
  set_mem partial_built
    (with_words (memof partial_built) [(stack + 16, 0x900000); (stack + 24, 7)]).

Lemma pap_roundtrip_witness :
  exists s3 mask, unpack_pap partial_later 0x900000 1 0 = Ok (inr (s3, func, 2, mask))
    /\ frame s3 func [11; 7].
Proof.
  destruct (pap_roundtrip 1 partial_state partial_built func [11] 0 func partial_later [7] 0 0x6000c0)
    as (_ & s3 & mask & Hu & Hf & _).
  - lia.
  - intros [|[|i]] w [= <-]; vm_compute; reflexivity.
  - reflexivity.
  - reflexivity.
  - lia.
  - vm_compute. discriminate.
  - right. vm_compute. discriminate.
  - vm_compute. reflexivity.
  - intros p Hp. change (heap partial_state) with 0x900000 in Hp.
    change (memof partial_later)
      with (store (store (memof partial_built) (stack + 16) 0x900000) (stack + 24) 7).
    rewrite !load_store_ne by (unfold stack; lia). reflexivity.
  - intros [|[|i]] w [= <-]; vm_compute; reflexivity.
  - reflexivity.
  - vm_compute. reflexivity.
  - right. vm_compute. discriminate.
  - vm_compute. reflexivity.
  - left. vm_compute. discriminate.
  - reflexivity.
  - exists s3, mask. split; [exact Hu|exact Hf].
Defined.
