(* ===== verification/MemoryManager.v ===== *)
(** * Regions, blocks and allocation ([memorymanager.hh],
    [memorymanager.cc])

    A region is 1 MB of address space that begins with the descriptors
    of its 32 blocks; a block is a bump allocator.  The descriptors are
    kept in maps keyed by the address they have in the source.  The
    operating system's [mmap] is a parameter that sees which regions are
    mapped; [mprotect] succeeds exactly on page-aligned addresses. *)

From S2P Require Import Prelude Words Objects HeapInterface.

(** ** Constants *)
Definition kBlockSizeLog2 : Z := 15.
Definition kBlockSize : Z := Z.shiftl 1 kBlockSizeLog2.
Definition kRegionSizeLog2 : Z := 20.
Definition kRegionSize : Z := Z.shiftl 1 kRegionSizeLog2.
Definition kBlocksPerRegion : Z := kRegionSize / kBlockSize.
Definition kRegionMask : Z := kRegionSize - 1.
Definition kMMapRegionStart : Z := 0x100000000.
Definition kMMapRegionEnd : Z := Z.shiftl 1 40.
Definition MAP_FAILED : Z := 2 ^ 64 - 1.

(** Sizes of [RegionHeader], [Block], [SmallObjectRegionData] and
    [LargeObjectRegionData]. *)
Definition sizeof_RegionHeader : Z := 24.
Definition sizeof_Block : Z := 40.
Definition sizeof_SmallObjectRegionData : Z :=
  sizeof_RegionHeader + kBlocksPerRegion * sizeof_Block + 8.
Definition sizeof_LargeObjectRegionData : Z := sizeof_RegionHeader + 16.

(** [Block::Flags]: the content type in the low byte. *)
Inductive Contents :=
| kUninitialized | kClosures | kStaticClosures | kInfoTables | kStrings | kBytecode | kMetadata.

#[export] Instance Contents_eq_dec : EqDecision Contents.
Proof. solve_decision. Defined.

Record Block := mkBlock {
  b_start : Z;
  b_end : Z;
  b_free : Z;
  b_link : Z;
  b_contents : Contents;
  b_scavenged : bool
}.

Inductive RegionData :=
| SmallObjectRegion (next_free : Z)
| LargeObjectRegion (end_ free_ : Z).

Record Region := mkRegion { region_link : Z; region_data : RegionData }.

(** [class MemoryManager]; [alloc_hint] is the static local of
    [newRegion], [readonly] the set of write-protected blocks. *)
Record MemoryManager := mkMM {
  regions : gmap Z Region;
  blocks : gmap Z Block;
  alloc_hint : Z;
  readonly : gset Z;
  region_ : Z;
  largeObjectRegion_ : Z;
  free_ : Z;
  info_tables_ : Z;
  static_closures_ : Z;
  closures_ : Z;
  strings_ : Z;
  bytecode_ : Z;
  old_heap_ : Z;
  topOfStackMask_ : Z;
  beginAllocInfoTableLevel_ : Z;
  largeObjects_ : Z;
  evacuatedLargeObjects_ : Z;
  scavengedLargeObjects_ : Z;
  freeLargeRegions_ : Z;
  minHeapSize_ : Z;
  nextGC_ : Z;
  allocated_ : Z;
  num_gcs_ : Z
}.

(** The members [Block *] that allocation works through. *)
Inductive BlockVar := V_info_tables | V_static_closures | V_closures | V_strings | V_bytecode.

#[export] Instance BlockVar_eq_dec : EqDecision BlockVar.
Proof. solve_decision. Defined.

(** ** Field updates *)
Definition get_var (h : MemoryManager) (v : BlockVar) : Z :=
  match v with
  | V_info_tables => info_tables_ h
  | V_static_closures => static_closures_ h
  | V_closures => closures_ h
  | V_strings => strings_ h
  | V_bytecode => bytecode_ h
  end.

(** The parts that change together, as one general update. *)
Definition upd_heap (h : MemoryManager) (rs : gmap Z Region) (bs : gmap Z Block)
    (hint : Z) (reg free : Z) : MemoryManager :=
  mkMM rs bs hint (readonly h) reg (largeObjectRegion_ h) free (info_tables_ h)
    (static_closures_ h) (closures_ h) (strings_ h) (bytecode_ h) (old_heap_ h)
    (topOfStackMask_ h) (beginAllocInfoTableLevel_ h) (largeObjects_ h)
    (evacuatedLargeObjects_ h) (scavengedLargeObjects_ h) (freeLargeRegions_ h)
    (minHeapSize_ h) (nextGC_ h) (allocated_ h) (num_gcs_ h).
Definition set_blocks (h : MemoryManager) (bs : gmap Z Block) : MemoryManager :=
  upd_heap h (regions h) bs (alloc_hint h) (region_ h) (free_ h).
Definition set_block (h : MemoryManager) (b : Z) (d : Block) : MemoryManager :=
  set_blocks h (<[b := d]> (blocks h)).
Definition set_free (h : MemoryManager) (b : Z) : MemoryManager :=
  upd_heap h (regions h) (blocks h) (alloc_hint h) (region_ h) b.
Definition set_var (h : MemoryManager) (v : BlockVar) (b : Z) : MemoryManager :=
  mkMM (regions h) (blocks h) (alloc_hint h) (readonly h) (region_ h) (largeObjectRegion_ h)
    (free_ h)
    (match v with V_info_tables => b | _ => info_tables_ h end)
    (match v with V_static_closures => b | _ => static_closures_ h end)
    (match v with V_closures => b | _ => closures_ h end)
    (match v with V_strings => b | _ => strings_ h end)
    (match v with V_bytecode => b | _ => bytecode_ h end)
    (old_heap_ h) (topOfStackMask_ h) (beginAllocInfoTableLevel_ h) (largeObjects_ h)
    (evacuatedLargeObjects_ h) (scavengedLargeObjects_ h) (freeLargeRegions_ h)
    (minHeapSize_ h) (nextGC_ h) (allocated_ h) (num_gcs_ h).
Definition set_counts (h : MemoryManager) (nextGC allocated num_gcs : Z) : MemoryManager :=
  mkMM (regions h) (blocks h) (alloc_hint h) (readonly h) (region_ h) (largeObjectRegion_ h)
    (free_ h) (info_tables_ h) (static_closures_ h) (closures_ h) (strings_ h) (bytecode_ h)
    (old_heap_ h) (topOfStackMask_ h) (beginAllocInfoTableLevel_ h) (largeObjects_ h)
    (evacuatedLargeObjects_ h) (scavengedLargeObjects_ h) (freeLargeRegions_ h)
    (minHeapSize_ h) nextGC allocated num_gcs.
Definition set_old_heap (h : MemoryManager) (b : Z) : MemoryManager :=
  mkMM (regions h) (blocks h) (alloc_hint h) (readonly h) (region_ h) (largeObjectRegion_ h)
    (free_ h) (info_tables_ h) (static_closures_ h) (closures_ h) (strings_ h) (bytecode_ h)
    b (topOfStackMask_ h) (beginAllocInfoTableLevel_ h) (largeObjects_ h)
    (evacuatedLargeObjects_ h) (scavengedLargeObjects_ h) (freeLargeRegions_ h)
    (minHeapSize_ h) (nextGC_ h) (allocated_ h) (num_gcs_ h).
Definition set_protection (h : MemoryManager) (ro : gset Z) (level : Z) : MemoryManager :=
  mkMM (regions h) (blocks h) (alloc_hint h) ro (region_ h) (largeObjectRegion_ h)
    (free_ h) (info_tables_ h) (static_closures_ h) (closures_ h) (strings_ h) (bytecode_ h)
    (old_heap_ h) (topOfStackMask_ h) level (largeObjects_ h)
    (evacuatedLargeObjects_ h) (scavengedLargeObjects_ h) (freeLargeRegions_ h)
    (minHeapSize_ h) (nextGC_ h) (allocated_ h) (num_gcs_ h).
(** [setTopOfStackMask] *)
Definition setTopOfStackMask (h : MemoryManager) (mask : Z) : MemoryManager :=
  mkMM (regions h) (blocks h) (alloc_hint h) (readonly h) (region_ h) (largeObjectRegion_ h)
    (free_ h) (info_tables_ h) (static_closures_ h) (closures_ h) (strings_ h) (bytecode_ h)
    (old_heap_ h) mask (beginAllocInfoTableLevel_ h) (largeObjects_ h)
    (evacuatedLargeObjects_ h) (scavengedLargeObjects_ h) (freeLargeRegions_ h)
    (minHeapSize_ h) (nextGC_ h) (allocated_ h) (num_gcs_ h).
Definition set_large (h : MemoryManager) (objs evac scav freed : Z) : MemoryManager :=
  mkMM (regions h) (blocks h) (alloc_hint h) (readonly h) (region_ h) (largeObjectRegion_ h)
    (free_ h) (info_tables_ h) (static_closures_ h) (closures_ h) (strings_ h) (bytecode_ h)
    (old_heap_ h) (topOfStackMask_ h) (beginAllocInfoTableLevel_ h) objs evac scav freed
    (minHeapSize_ h) (nextGC_ h) (allocated_ h) (num_gcs_ h).
Definition set_large_region (h : MemoryManager) (rs : gmap Z Region) (r : Z) : MemoryManager :=
  mkMM rs (blocks h) (alloc_hint h) (readonly h) (region_ h) r
    (free_ h) (info_tables_ h) (static_closures_ h) (closures_ h) (strings_ h) (bytecode_ h)
    (old_heap_ h) (topOfStackMask_ h) (beginAllocInfoTableLevel_ h) (largeObjects_ h)
    (evacuatedLargeObjects_ h) (scavengedLargeObjects_ h) (freeLargeRegions_ h)
    (minHeapSize_ h) (nextGC_ h) (allocated_ h) (num_gcs_ h).
Definition set_min_heap (h : MemoryManager) (n : Z) : MemoryManager :=
  mkMM (regions h) (blocks h) (alloc_hint h) (readonly h) (region_ h) (largeObjectRegion_ h)
    (free_ h) (info_tables_ h) (static_closures_ h) (closures_ h) (strings_ h) (bytecode_ h)
    (old_heap_ h) (topOfStackMask_ h) (beginAllocInfoTableLevel_ h) (largeObjects_ h)
    (evacuatedLargeObjects_ h) (scavengedLargeObjects_ h) (freeLargeRegions_ h)
    n (nextGC_ h) (allocated_ h) (num_gcs_ h).

(** ** Blocks *)

Definition block_at (h : MemoryManager) (b : Z) : outcome Block :=
  of_option WildAccess (blocks h !! b).

(** [Block::alloc] *)
Definition block_alloc (d : Block) (bytes : Z) : option (Block * Z) :=
  let fr := b_free d + bytes in
  if b_end d <? fr then None
  else Some (mkBlock (b_start d) (b_end d) fr (b_link d) (b_contents d) (b_scavenged d), b_free d).

Definition block_size (d : Block) : Z := b_end d - b_start d.
Definition with_link (d : Block) (l : Z) : Block :=
  mkBlock (b_start d) (b_end d) (b_free d) l (b_contents d) (b_scavenged d).
Definition with_free (d : Block) (f : Z) : Block :=
  mkBlock (b_start d) (b_end d) f (b_link d) (b_contents d) (b_scavenged d).
(** [b->flags_ = flags]: a content type without the scavenged bit. *)
Definition with_flags (d : Block) (k : Contents) : Block :=
  mkBlock (b_start d) (b_end d) (b_free d) (b_link d) k false.
Definition with_scavenged (d : Block) (x : bool) : Block :=
  mkBlock (b_start d) (b_end d) (b_free d) (b_link d) (b_contents d) x.

(** ** Regions *)

Definition alignToRegionBoundary (p : Z) : Z := roundUpToPowerOf2 kRegionSizeLog2 p.
Definition alignToBlockBoundary (p : Z) : Z := roundUpToPowerOf2 kBlockSizeLog2 p.
Definition regionFromPointer (p : Z) : Z := Z.land p (u8 (Z.lnot kRegionMask)).
Definition block_addr (r index : Z) : Z := r + sizeof_RegionHeader + sizeof_Block * index.

Definition region_at (h : MemoryManager) (r : Z) : outcome Region :=
  of_option WildAccess (regions h !! r).
Definition isSmallObjectRegion (r : Region) : bool :=
  match region_data r with SmallObjectRegion _ => true | LargeObjectRegion _ _ => false end.
Definition isLargeObjectRegion (r : Region) : bool := negb (isSmallObjectRegion r).

Definition blockFromPointer (h : MemoryManager) (p : Z) : outcome Z :=
  let r := regionFromPointer p in
  let! d := region_at h r in
  assert! isSmallObjectRegion d in
  Ok (block_addr r (Z.shiftr (Z.land p kRegionMask) kBlockSizeLog2)).

Definition inRegion (r p : Z) : bool := (r <=? p) && (p <? r + kRegionSize).

(** [initBlocks]: the metadata fills less than one block, so
    [first_avail] is 0. *)
Fixpoint initBlocks_loop (n : nat) (r i ptr : Z) (bs : gmap Z Block) : gmap Z Block :=
  match n with
  | O => bs
  | S n' =>
      let next := alignToBlockBoundary (ptr + 1) in
      let link := if (0 <? n')%nat then block_addr r (i + 1) else 0 in
      initBlocks_loop n' r (i + 1) next
        (<[block_addr r i := mkBlock ptr next ptr link kUninitialized false]> bs)
  end.
Definition initBlocks (r : Z) (bs : gmap Z Block) : gmap Z Block :=
  initBlocks_loop (Z.to_nat kBlocksPerRegion) r 0 (r + sizeof_SmallObjectRegionData) bs.

Inductive RegionType := kSmallObjectRegion | kLargeObjectRegion.

Section os.
Context (mmap : gset Z -> Z -> Z -> Z).

(** The loop of [newRegion], [tries] attempts before giving up: the
    region's address and the next hint. *)
Fixpoint newRegion_loop (tries : nat) (mapped : gset Z) (hint size : Z) : outcome (Z * Z) :=
  match tries with
  | O => Err (Exited 1)
  | S tries' =>
      let ptr := mmap mapped hint size in
      let retry (hint size : Z) :=
        if (0 <? tries')%nat && (kMMapRegionEnd <=? hint) then Err (Exited 134)
        else newRegion_loop tries' mapped hint size in
      if ptr =? MAP_FAILED then retry hint size
      else if isAlignedAtPowerOf2 kRegionSizeLog2 ptr then Ok (ptr, hint + size)
      else
        let next_aligned := alignToRegionBoundary ptr in
        let region_end := next_aligned + kRegionSize in
        if region_end <=? ptr + size then Ok (next_aligned, region_end)
        else retry ptr (region_end - ptr)
  end.

(** [Region::newRegion]: 33 attempts. *)
Definition newRegion (h : MemoryManager) (ty : RegionType) : outcome (MemoryManager * Z) :=
  let! '(r, hint) := newRegion_loop 33 (dom (regions h)) (alloc_hint h) kRegionSize in
  match ty with
  | kSmallObjectRegion =>
      let d := mkRegion 0 (SmallObjectRegion (block_addr r 0)) in
      Ok (upd_heap h (<[r := d]> (regions h)) (initBlocks r (blocks h)) hint
            (region_ h) (free_ h), r)
  | kLargeObjectRegion =>
      let fr := r + sizeof_LargeObjectRegionData in
      let d := mkRegion 0 (LargeObjectRegion (fr + kRegionSize) fr) in
      Ok (upd_heap h (<[r := d]> (regions h)) (blocks h) hint (region_ h) (free_ h), r)
  end.

(** [Region::grabFreeBlock] *)
Definition region_grab (h : MemoryManager) (r : Z) : outcome (option (MemoryManager * Z)) :=
  let! d := region_at h r in
  match region_data d with
  | LargeObjectRegion _ _ => Err AssertFailed
  | SmallObjectRegion next_free =>
      if next_free =? 0 then Ok None
      else
        let! b := block_at h next_free in
        let d := mkRegion (region_link d) (SmallObjectRegion (b_link b)) in
        Ok (Some (upd_heap h (<[r := d]> (regions h))
                    (<[next_free := with_link b 0]> (blocks h))
                    (alloc_hint h) (region_ h) (free_ h), next_free))
  end.

(** [MemoryManager::grabFreeBlock], the free list first, then the most
    recent region, then [while (b == NULL)] a new one: [grab_region]
    with [n] regions to try. *)
Fixpoint grab_region (n : nat) (h : MemoryManager) : outcome (MemoryManager * Z) :=
  let! got := region_grab h (region_ h) in
  match got, n with
  | Some res, _ => Ok res
  | None, O => Err OutOfFuel
  | None, S n' =>
      let! '(h, r) := newRegion h kSmallObjectRegion in
      let! d := region_at h r in
      let rs := <[r := mkRegion (region_ h) (region_data d)]> (regions h) in
      grab_region n' (upd_heap h rs (blocks h) (alloc_hint h) r (free_ h))
  end.
Definition grabFreeBlock (h : MemoryManager) (flags : Contents) : outcome (MemoryManager * Z) :=
  if negb (free_ h =? 0) then
    let b := free_ h in
    let! d := block_at h b in
    Ok (set_block (set_free h (b_link d)) b (with_flags (with_link d 0) flags), b)
  else
    let! '(h, b) := grab_region 1 h in
    let! d := block_at h b in
    Ok (set_block h b (with_flags d flags), b).

(** [blockFull(&block)] *)
Definition blockFull (h : MemoryManager) (v : BlockVar) : outcome MemoryManager :=
  let full := get_var h v in
  let! d := block_at h full in
  let! '(h, b) := grabFreeBlock h (b_contents d) in
  let! e := block_at h b in
  Ok (set_var (set_block h b (with_link e full)) v b).

(** [allocInto(&block, bytes)]: the loop, then the statistics. *)
Fixpoint allocInto_loop (fuel : nat) (h : MemoryManager) (v : BlockVar) (bytes : Z)
  : outcome (MemoryManager * Z) :=
  match fuel with
  | O => Err OutOfFuel
  | S fuel' =>
      let b := get_var h v in
      let! d := block_at h b in
      match block_alloc d bytes with
      | Some (d', p) => Ok (set_block h b d', p)
      | None => let! h := blockFull h v in allocInto_loop fuel' h v bytes
      end
  end.
Definition add_allocated (h : MemoryManager) (bytes : Z) : MemoryManager :=
  set_counts h (nextGC_ h) (u8 (allocated_ h + bytes)) (num_gcs_ h).
Definition allocInto (fuel : nat) (h : MemoryManager) (v : BlockVar) (bytes : Z)
  : outcome (MemoryManager * Z) :=
  let! '(h, p) := allocInto_loop fuel h v bytes in
  Ok (add_allocated h bytes, p).

Definition allocString (fuel : nat) (h : MemoryManager) (length : Z) :=
  allocInto fuel h V_strings (length + 1).
Definition allocStaticClosure (fuel : nat) (h : MemoryManager) (payloadSize : Z) :=
  allocInto fuel h V_static_closures ((wordsof_ClosureHeader + payloadSize) * sizeof_Word).
Definition allocCode (fuel : nat) (h : MemoryManager) (instrs bitmaps : Z) :=
  allocInto fuel h V_bytecode (4 * instrs + 2 * bitmaps).
Definition allocClosure (fuel : nat) (h : MemoryManager) (m : memory) (info payloadWords : Z)
  : outcome (MemoryManager * memory * Z) :=
  let! '(h, cl) := allocInto fuel h V_closures
                     ((wordsof_ClosureHeader + payloadWords) * sizeof_Word) in
  Ok (h, setInfo m cl info, cl).

(** ** Protection of info tables *)

Definition isPageAligned (p : Z) : bool := Z.land p 0xfff =? 0.

(** [markBlockReadOnly] and [markBlockReadWrite], with the assertion
    that every caller makes. *)
Definition markBlock (h : MemoryManager) (b : Z) (ro : bool) : outcome MemoryManager :=
  let! d := block_at h b in
  assert! isPageAligned (b_start d) in
  Ok (set_protection h (if ro then {[b]} ∪ readonly h else readonly h ∖ {[b]})
        (beginAllocInfoTableLevel_ h)).

Definition beginAllocInfoTable (h : MemoryManager) : outcome MemoryManager :=
  let! h := (if beginAllocInfoTableLevel_ h =? 0 then markBlock h (info_tables_ h) false
             else Ok h) in
  Ok (set_protection h (readonly h) (beginAllocInfoTableLevel_ h + 1)).

Definition endAllocInfoTable (h : MemoryManager) : outcome MemoryManager :=
  let h := set_protection h (readonly h) (beginAllocInfoTableLevel_ h - 1) in
  if beginAllocInfoTableLevel_ h =? 0 then markBlock h (info_tables_ h) true else Ok h.

(** [allocInfoTable]: the [while] loop, entered with [ptr] null. *)
Fixpoint allocInfoTable_loop (fuel : nat) (h : MemoryManager) (bytes : Z)
  : outcome (MemoryManager * Z) :=
  match fuel with
  | O => Err OutOfFuel
  | S fuel' =>
      let! h := markBlock h (info_tables_ h) true in
      let! h := blockFull h V_info_tables in
      let! d := block_at h (info_tables_ h) in
      if negb (isPageAligned (b_start d)) then allocInfoTable_loop fuel' h bytes
      else
        match block_alloc d bytes with
        | Some (d', p) => Ok (set_block h (info_tables_ h) d', p)
        | None => allocInfoTable_loop fuel' h bytes
        end
  end.
Definition allocInfoTable (fuel : nat) (h : MemoryManager) (nwords : Z)
  : outcome (MemoryManager * Z) :=
  assert! (0 <? beginAllocInfoTableLevel_ h) in
  let bytes := nwords * sizeof_Word in
  let! d := block_at h (info_tables_ h) in
  let! '(h, p) :=
    match block_alloc d bytes with
    | Some (d', p) => Ok (set_block h (info_tables_ h) d', p)
    | None => allocInfoTable_loop fuel h bytes
    end in
  Ok (add_allocated h bytes, p).

(** ** The bump allocator of the interpreter *)

(** [sync(heap, heaplim)] *)
Definition sync (h : MemoryManager) (heap heaplim : Z) : outcome MemoryManager :=
  let! d := block_at h (closures_ h) in
  assert! ((heaplim =? 0) || (heaplim =? b_end d)) in
  assert! ((b_free d <=? heap) && (heap <=? b_end d)) in
  Ok (set_block (add_allocated h (heap - b_free d)) (closures_ h) (with_free d heap)).

Definition getBumpAllocatorBounds (h : MemoryManager) : outcome (Z * Z) :=
  let! d := block_at h (closures_ h) in
  assert! isWordAligned (b_free d) in
  assert! isWordAligned (b_end d) in
  Ok (b_free d, b_end d).

Definition set_nextGC (h : MemoryManager) (n : Z) : MemoryManager :=
  set_counts h (u4 n) (allocated_ h) (num_gcs_ h).

(** [bumpAllocatorFullNoGC]: [None] when a collection is due. *)
Definition bumpAllocatorFullNoGC (h : MemoryManager) (heap heaplim : Z)
  : outcome (MemoryManager * option (Z * Z)) :=
  let! h := sync h heap heaplim in
  let h := set_nextGC h (nextGC_ h - 1) in
  if nextGC_ h =? 0 then Ok (set_nextGC h (nextGC_ h + 1), None)
  else
    let! h := blockFull h V_closures in
    let! bounds := getBumpAllocatorBounds h in
    Ok (h, Some bounds).

(** [setNextGC] and [setMinHeapSize] *)
Definition setNextGC (h : MemoryManager) (n : Z) : outcome MemoryManager :=
  assert! (0 <? n) in Ok (set_nextGC h n).
Definition setMinHeapSize (h : MemoryManager) (bytes : Z) : MemoryManager :=
  let n := idivCeil bytes kBlockSize in
  set_min_heap h (if n <? 2 then 2 else n).

(** ** Large objects *)

Definition maxLargeObjectSize : Z :=
  kRegionSize - sizeof_LargeObjectRegionData - sizeof_LargeObject.

Definition largeSelf (h : MemoryManager) (r : Z) : outcome (Z * Z * Z) :=
  let! d := region_at h r in
  match region_data d with
  | SmallObjectRegion _ => Err AssertFailed
  | LargeObjectRegion end_ free_ => Ok (region_link d, end_, free_)
  end.

(** The first-fit loop of [allocLarge]; as in the source it is the head
    of the list that is compared with and advanced. *)
Fixpoint allocLarge_fit (fuel : nat) (h : MemoryManager) (large nbytesWithMeta : Z)
  : outcome (option (MemoryManager * Z)) :=
  match fuel with
  | O => Err OutOfFuel
  | S fuel' =>
      if large =? 0 then Ok None
      else
        let! '(link, _, start) := largeSelf h large in
        let! '(link0, end0, _) := largeSelf h (largeObjectRegion_ h) in
        let end_ := start + nbytesWithMeta in
        if end_ <=? end0 then
          let d := mkRegion link0 (LargeObjectRegion end0 end_) in
          Ok (Some (set_large_region h (<[largeObjectRegion_ h := d]> (regions h))
                      (largeObjectRegion_ h), start))
        else allocLarge_fit fuel' h link nbytesWithMeta
  end.

Definition allocLarge (h : MemoryManager) (m : memory) (nbytes : Z)
  : outcome (MemoryManager * memory * Z) :=
  if maxLargeObjectSize <? nbytes then Err (Exited 1)
  else
    let nbytesWithMeta := sizeof_LargeObject + nbytes in
    let! got := allocLarge_fit (S (size (regions h))) h (largeObjectRegion_ h) nbytesWithMeta in
    let! '(h, obj) :=
      match got with
      | Some res => Ok res
      | None =>
          let! '(h, large) := newRegion h kLargeObjectRegion in
          let! '(_, end_, result) := largeSelf h large in
          let d := mkRegion (largeObjectRegion_ h)
                     (LargeObjectRegion end_ (result + nbytesWithMeta)) in
          Ok (set_large_region h (<[large := d]> (regions h)) large, result)
      end in
    assert! negb (obj =? 0) in
    let m := store m (obj + LO_prev) 0 in
    let m := store m (obj + LO_next) (largeObjects_ h) in
    let m := store m (obj + LO_flags) 0 in
    let m := store m (obj + LO_payloadSize) nbytes in
    Ok (set_large h obj (evacuatedLargeObjects_ h) (scavengedLargeObjects_ h)
          (freeLargeRegions_ h), m, closureFromLargeObject obj).

(** ** Queries *)

(** [infoTables]: the length of the list of info table blocks. *)
Fixpoint infoTables_loop (fuel : nat) (h : MemoryManager) (b n : Z) : outcome Z :=
  match fuel with
  | O => Err OutOfFuel
  | S fuel' =>
      let! d := block_at h b in
      if b_link d =? 0 then Ok (n + 1) else infoTables_loop fuel' h (b_link d) (n + 1)
  end.
Definition infoTables (h : MemoryManager) : outcome Z :=
  infoTables_loop (size (blocks h)) h (info_tables_ h) 0.

Definition block_contents (h : MemoryManager) (p : Z) : outcome Contents :=
  let! b := blockFromPointer h p in
  let! d := block_at h b in
  Ok (b_contents d).
Definition looksLikeInfoTable (h : MemoryManager) (p : Z) : outcome bool :=
  let! k := block_contents h p in
  Ok (bool_decide (k = kInfoTables)).
Definition looksLikeClosure (h : MemoryManager) (m : memory) (p : Z) : outcome bool :=
  let! r := region_at h (regionFromPointer p) in
  if isLargeObjectRegion r then Ok true
  else
    let! k := block_contents h p in
    if negb (bool_decide (k = kStaticClosures) || bool_decide (k = kClosures)) then Ok false
    else
      let! info := closure_info_addr m p in
      if info =? 0 then Ok false else looksLikeInfoTable h info.

(** [inRegions] *)
Fixpoint inRegions_loop (fuel : nat) (h : MemoryManager) (r p : Z) : outcome bool :=
  match fuel with
  | O => Err OutOfFuel
  | S fuel' =>
      if r =? 0 then Ok false
      else if inRegion r p then Ok true
      else let! d := region_at h r in inRegions_loop fuel' h (region_link d) p
  end.
Definition inRegions (h : MemoryManager) (p : Z) : outcome bool :=
  let n := S (size (regions h)) in
  let! small := inRegions_loop n h (region_ h) p in
  if small : bool then Ok true else inRegions_loop n h (largeObjectRegion_ h) p.

(** ** The constructor *)

(** The member initialisers, with [region_] and the block members not
    yet assigned. *)
Definition initial_mm : MemoryManager :=
  mkMM ∅ ∅ (alignToRegionBoundary kMMapRegionStart) ∅ 0 0 0 0 0 0 0 0 0 kNoMask 0 0 0 0 0 2 2 0 0.

Definition new_MemoryManager : outcome MemoryManager :=
  let h := initial_mm in
  let! '(h, r) := newRegion h kSmallObjectRegion in
  let h := upd_heap h (regions h) (blocks h) (alloc_hint h) r (free_ h) in
  let! '(h, b) := grabFreeBlock h kStaticClosures in
  let h := set_var h V_static_closures b in
  let! '(h, b) := grabFreeBlock h kInfoTables in
  let h := set_var h V_info_tables b in
  let! h := markBlock h (info_tables_ h) true in
  let! '(h, b) := grabFreeBlock h kClosures in
  let h := set_var h V_closures b in
  let! '(h, b) := grabFreeBlock h kStrings in
  let h := set_var h V_strings b in
  let! '(h, b) := grabFreeBlock h kBytecode in
  Ok (set_var h V_bytecode b).
End os.
