(* ===== verification/HeapInv.v ===== *)
(** * The block invariant and the allocator's contract

    [mm_inv h used] is the representation invariant of the memory
    manager; [used] is the ghost list of blocks that were handed out.
    Every operation of the allocator preserves it, given the documented
    behaviour of [mmap]: a mapping does not overlap an earlier one. *)

From S2P Require Import Prelude Words Objects HeapInterface MemoryManager.

(** ** Addresses of blocks *)

Lemma kBlocksPerRegion_eq : kBlocksPerRegion = 32.
Proof. done. Qed.

Definition region_addr_ok (r : Z) : Prop := r mod kRegionSize = 0 /\ 0 < r < 2 ^ 47.

Lemma regionFromPointer_spec r p :
  region_addr_ok r -> r <= p < r + kRegionSize -> regionFromPointer p = r.
Proof.
  intros [Ha Hr] Hp. unfold regionFromPointer, kRegionMask. change kRegionSize with (2 ^ 20) in *.
  change (2 ^ 20 - 1) with (Z.shiftl 1 20 - 1).
  rewrite land_lnot_mask by lia.
  apply Z.mod_divide in Ha as [k ->]; [|done].
  replace p with (p - k * 2 ^ 20 + k * 2 ^ 20) at 2 by lia.
  rewrite Z.mod_add, Z.mod_small by lia. lia.
Qed.

Lemma block_index_spec r i p :
  region_addr_ok r -> 0 <= i < kBlocksPerRegion ->
  r + kBlockSize * i <= p < r + kBlockSize * (i + 1) ->
  regionFromPointer p = r /\ Z.shiftr (Z.land p kRegionMask) kBlockSizeLog2 = i.
Proof.
  intros Hr Hi Hp. rewrite kBlocksPerRegion_eq in Hi. change kBlockSize with (2 ^ 15) in *.
  split; [apply regionFromPointer_spec; [done|]; change kRegionSize with (2 ^ 20); lia|].
  destruct Hr as [Ha Hr]. change kRegionMask with (Z.ones 20).
  rewrite Z.land_ones, Z.shiftr_div_pow2 by done. change kRegionSize with (2 ^ 20) in *.
  change kBlockSizeLog2 with 15.
  apply Z.mod_divide in Ha as [k ->]; [|done].
  replace p with (p - k * 2 ^ 20 + k * 2 ^ 20) by lia.
  rewrite Z.mod_add, Z.mod_small by lia.
  symmetry. apply (Z.div_unique _ _ _ (p - k * 2 ^ 20 - 2 ^ 15 * i)); lia.
Qed.

(** ** A new region *)

(** The smallest block, which shares its 32 KB with the metadata. *)
Definition min_block : Z := kBlockSize - sizeof_SmallObjectRegionData.

Definition fresh_block (r i : Z) : Block :=
  let start := if i =? 0 then r + sizeof_SmallObjectRegionData else r + kBlockSize * i in
  mkBlock start (r + kBlockSize * (i + 1)) start
    (if i =? kBlocksPerRegion - 1 then 0 else block_addr r (i + 1)) kUninitialized false.

Lemma alignToBlockBoundary_spec r i p :
  region_addr_ok r -> 0 <= i < kBlocksPerRegion ->
  r + kBlockSize * i <= p < r + kBlockSize * (i + 1) ->
  alignToBlockBoundary (p + 1) = r + kBlockSize * (i + 1).
Proof.
  intros [Ha Hr] Hi Hp. rewrite kBlocksPerRegion_eq in Hi. change kBlockSize with (2 ^ 15) in *.
  unfold alignToBlockBoundary. change kBlockSizeLog2 with 15. change kRegionSize with (2 ^ 20) in *.
  rewrite roundUpToPowerOf2_spec by lia.
  apply Z.mod_divide in Ha as [k ->]; [|done].
  assert ((p + 1 + 2 ^ 15 - 1) / 2 ^ 15 = k * 32 + i + 1) as ->; [|lia].
  symmetry. apply (Z.div_unique _ _ _ (p - k * 2 ^ 20 - 2 ^ 15 * i)); lia.
Qed.

Lemma block_addr_inj r i j : block_addr r i = block_addr r j -> i = j.
Proof. unfold block_addr, sizeof_Block. lia. Qed.

Lemma initBlocks_loop_spec n r i ptr bs :
  region_addr_ok r -> 0 <= i -> i + Z.of_nat n = kBlocksPerRegion ->
  ptr = b_start (fresh_block r i) ->
  (forall j, i <= j < kBlocksPerRegion ->
     initBlocks_loop n r i ptr bs !! block_addr r j = Some (fresh_block r j))
  /\ (forall b, (forall j, i <= j < kBlocksPerRegion -> b <> block_addr r j) ->
        initBlocks_loop n r i ptr bs !! b = bs !! b).
Proof.
  intros Hr. revert i ptr bs. induction n as [|n IH]; intros i ptr bs Hi Hn Hptr.
  { split; [lia|done]. }
  assert (Hi' : 0 <= i < kBlocksPerRegion) by lia.
  cbn [initBlocks_loop].
  assert (Hrange : r + kBlockSize * i <= ptr < r + kBlockSize * (i + 1)).
  { subst ptr. unfold fresh_block, b_start. change kBlockSize with 32768.
    change sizeof_SmallObjectRegionData with 1312. destruct (Z.eqb_spec i 0); lia. }
  rewrite (alignToBlockBoundary_spec r i) by done.
  set (bs' := <[_ := _]> bs).
  assert (Hb : bs' = <[block_addr r i := fresh_block r i]> bs).
  { unfold bs'. f_equal. unfold fresh_block in *. cbn [b_start] in Hptr. rewrite <- Hptr.
    f_equal. destruct n; cbn [Nat.ltb Nat.leb];
      destruct (Z.eqb_spec i (kBlocksPerRegion - 1)); (done || lia). }
  assert (Hnext : (0 < n)%nat -> r + kBlockSize * (i + 1) = b_start (fresh_block r (i + 1))).
  { intros. unfold fresh_block, b_start. by rewrite (proj2 (Z.eqb_neq (i + 1) 0)) by lia. }
  clearbody bs'. subst bs'. destruct n as [|n].
  - cbn [initBlocks_loop]. split.
    + intros j Hj. assert (j = i) as -> by lia. apply lookup_insert_eq.
    + intros b Hb. apply lookup_insert_ne. intros <-. by apply (Hb i); [lia|].
  - destruct (IH (i + 1) (r + kBlockSize * (i + 1)) (<[block_addr r i := fresh_block r i]> bs))
      as [H1 H2]; [lia|lia|apply Hnext; lia|]. split.
    + intros j Hj. destruct (Z.eq_dec j i) as [->|]; [|apply H1; lia].
      rewrite H2; [apply lookup_insert_eq|]. intros j Hj' He%block_addr_inj. lia.
    + intros b Hb. rewrite H2; [|intros; apply Hb; lia].
      apply lookup_insert_ne. intros <-. by apply (Hb i); [lia|].
Qed.

Lemma initBlocks_spec r bs :
  region_addr_ok r ->
  (forall j, 0 <= j < kBlocksPerRegion -> initBlocks r bs !! block_addr r j = Some (fresh_block r j))
  /\ (forall b, (forall j, 0 <= j < kBlocksPerRegion -> b <> block_addr r j) ->
        initBlocks r bs !! b = bs !! b).
Proof. intros Hr. apply initBlocks_loop_spec; done. Qed.

(** ** Total operations, up to running out of memory *)

(** [m] returns a result that satisfies [P], or the process exits
    because the operating system has no memory left. *)
Definition ok_or_exit {A} (P : A -> Prop) (m : outcome A) : Prop :=
  match m with
  | Ok a => P a
  | Err (Exited _) => True
  | Err _ => False
  end.

Lemma ok_or_exit_bind {A B} (P : A -> Prop) (Q : B -> Prop) m (k : A -> outcome B) :
  ok_or_exit P m -> (forall a, P a -> ok_or_exit Q (k a)) -> ok_or_exit Q (obind m k).
Proof. destruct m as [a|[]]; cbn; auto. Qed.

Lemma ok_or_exit_impl {A} (P Q : A -> Prop) m :
  ok_or_exit P m -> (forall a, P a -> Q a) -> ok_or_exit Q m.
Proof. destruct m as [a|[]]; cbn; auto. Qed.

Lemma ok_or_exit_ok {A} (P : A -> Prop) m a : ok_or_exit P m -> m = Ok a -> P a.
Proof. by intros H ->. Qed.

(** ** Free lists *)

Inductive free_list (bs : gmap Z Block) : Z -> list Z -> Prop :=
| fl_nil : free_list bs 0 []
| fl_cons b d l :
    b <> 0 -> bs !! b = Some d -> b_free d = b_start d ->
    free_list bs (b_link d) l -> free_list bs b (b :: l).

Lemma free_list_frame bs bs' b l :
  (forall x, x ∈ l -> bs' !! x = bs !! x) -> free_list bs b l -> free_list bs' b l.
Proof.
  intros Hs Hf. induction Hf as [|b d l Hb Hd Hfr Hf IH]; [constructor|].
  econstructor; [done| |done|].
  - rewrite Hs by (by left). done.
  - apply IH. intros x Hx. apply Hs. by right.
Qed.

Lemma free_list_zero bs l : free_list bs 0 l -> l = [].
Proof. by inversion 1. Qed.

Lemma free_list_some bs b l x : free_list bs b l -> x ∈ l -> is_Some (bs !! x).
Proof.
  induction 1; intros Hx; [by apply not_elem_of_nil in Hx|].
  apply elem_of_cons in Hx as [->|]; eauto.
Qed.

(** ** The invariant *)

Definition word_kind (k : Contents) : bool :=
  match k with kClosures | kStaticClosures | kInfoTables => true | _ => false end.

(** A descriptor describes its own part of an existing region. *)
Definition block_ok (rs : gmap Z Region) (b : Z) (d : Block) : Prop :=
  exists r i, b = block_addr r i /\ 0 <= i < kBlocksPerRegion /\ region_addr_ok r
    /\ (exists rd, rs !! r = Some rd /\ isSmallObjectRegion rd = true)
    /\ b_start d = b_start (fresh_block r i) /\ b_end d = b_end (fresh_block r i)
    /\ b_start d <= b_free d <= b_end d
    /\ (word_kind (b_contents d) = true -> b_free d mod 8 = 0).

Section invariant.
(** Addresses that belong to others: the stacks of threads. *)
Context (foreign : Z -> Prop).

Definition region_ok (r : Z) : Prop :=
  region_addr_ok r /\ forall a, foreign a -> a < r \/ r + kRegionSize <= a.

Record mm_inv (h : MemoryManager) (used : list Z) : Prop := mk_inv {
  inv_regions : forall r, is_Some (regions h !! r) -> region_ok r;
  inv_blocks : forall b d, blocks h !! b = Some d -> block_ok (regions h) b d;
  inv_used : forall b, b ∈ used -> is_Some (blocks h !! b);
  inv_free : exists fl rl nf link,
    free_list (blocks h) (free_ h) fl
    /\ regions h !! region_ h = Some (mkRegion link (SmallObjectRegion nf))
    /\ free_list (blocks h) nf rl /\ NoDup (used ++ fl ++ rl)
}.

(** The block variables hold blocks of their own kind. *)
Definition var_contents (v : BlockVar) : Contents :=
  match v with
  | V_info_tables => kInfoTables
  | V_static_closures => kStaticClosures
  | V_closures => kClosures
  | V_strings => kStrings
  | V_bytecode => kBytecode
  end.
Definition vars_ok (h : MemoryManager) (used : list Z) : Prop :=
  forall v, get_var h v ∈ used
    /\ exists d, blocks h !! get_var h v = Some d /\ b_contents d = var_contents v.

Lemma block_addr_bound r i :
  0 <= i < kBlocksPerRegion -> r < block_addr r i < r + kRegionSize.
Proof.
  rewrite kBlocksPerRegion_eq. unfold block_addr. change kRegionSize with 1048576.
  unfold sizeof_RegionHeader, sizeof_Block. lia.
Qed.

Lemma fresh_block_bounds r i :
  region_addr_ok r -> 0 <= i < kBlocksPerRegion ->
  r + kBlockSize * i <= b_start (fresh_block r i)
  /\ min_block <= b_end (fresh_block r i) - b_start (fresh_block r i)
  /\ b_end (fresh_block r i) = r + kBlockSize * (i + 1)
  /\ b_start (fresh_block r i) mod 8 = 0 /\ b_end (fresh_block r i) mod 8 = 0.
Proof.
  intros [Ha Hr] Hi. unfold fresh_block, min_block. cbn [b_start b_end].
  change kBlockSize with 32768. change sizeof_SmallObjectRegionData with 1312.
  change kRegionSize with 1048576 in Ha.
  apply Z.mod_divide in Ha as [k ->]; [|done].
  split_and!; [destruct (Z.eqb_spec i 0); lia..| |].
  - destruct (Z.eqb_spec i 0).
    + replace (k * 1048576 + 1312) with ((k * 131072 + 164) * 8) by lia. by apply Z.mod_mul.
    + replace (k * 1048576 + 32768 * i) with ((k * 131072 + 4096 * i) * 8) by lia. by apply Z.mod_mul.
  - replace (k * 1048576 + 32768 * (i + 1)) with ((k * 131072 + 4096 * (i + 1)) * 8) by lia.
    by apply Z.mod_mul.
Qed.

Lemma NoDup_app_r {A} (l k : list A) : NoDup (l ++ k) -> NoDup k.
Proof. by intros (_ & _ & ?)%NoDup_app. Qed.

Section inv.
Context (h : MemoryManager) (used : list Z) (Hinv : mm_inv h used).

(** Every address inside a block leads back to its descriptor. *)
Lemma blockFromPointer_ok b d p :
  blocks h !! b = Some d -> b_start d <= p < b_end d -> blockFromPointer h p = Ok b.
Proof using Hinv.
  intros Hb Hp. destruct (inv_blocks _ _ Hinv b d Hb)
    as (r & i & -> & Hi & Hr & (rd & Hrd & Hsm) & Hs & He & _).
  destruct (fresh_block_bounds r i Hr Hi) as (Hlo & _ & Hhi & _).
  rewrite Hs, He in Hp.
  destruct (block_index_spec r i p Hr Hi ltac:(lia)) as [H1 H2].
  unfold blockFromPointer. rewrite H1, H2. unfold region_at. rewrite Hrd. cbn [of_option obind].
  by rewrite Hsm.
Qed.

(** So distinct blocks are disjoint. *)
Lemma blocks_disjoint b d b' d' p :
  blocks h !! b = Some d -> blocks h !! b' = Some d' ->
  b_start d <= p < b_end d -> b_start d' <= p < b_end d' -> b = b'.
Proof using Hinv.
  intros Hb Hb' Hp Hp'. pose proof (blockFromPointer_ok _ _ _ Hb Hp) as H1.
  pose proof (blockFromPointer_ok _ _ _ Hb' Hp') as H2. rewrite H1 in H2. by injection H2.
Qed.

Lemma block_nonzero b d : blocks h !! b = Some d -> b <> 0.
Proof using Hinv.
  intros Hb. destruct (inv_blocks _ _ Hinv b d Hb) as (r & i & -> & Hi & [_ Hr] & _).
  pose proof (block_addr_bound r i Hi). lia.
Qed.

Lemma block_bounds b d :
  blocks h !! b = Some d -> b_start d <= b_free d <= b_end d /\ min_block <= b_end d - b_start d
    /\ b_end d mod 8 = 0 /\ b_start d mod 8 = 0.
Proof using Hinv.
  intros Hb. destruct (inv_blocks _ _ Hinv b d Hb)
    as (r & i & -> & Hi & Hr & _ & Hs & He & Hf & _).
  destruct (fresh_block_bounds r i Hr Hi) as (Hlo & Hsz & Hhi & ? & ?).
  rewrite Hs, He in *. done.
Qed.
End inv.

(** ** The operating system *)

(** What [mmap] promises: a mapping of the given size below the end of
    user space that overlaps nothing mapped before. *)
Definition mmap_ok (mmap : gset Z -> Z -> Z -> Z) : Prop :=
  forall mapped hint size, 0 < size -> let p := mmap mapped hint size in
    p <> MAP_FAILED -> 0 < p /\ p + size < 2 ^ 47
      /\ (forall r, r ∈ mapped -> p + size <= r \/ r + kRegionSize <= p)
      /\ forall a, foreign a -> a < p \/ p + size <= a.

Section os.
Context (mmap : gset Z -> Z -> Z -> Z) (Hmmap : mmap_ok mmap).

Lemma newRegion_loop_spec tries mapped hint size :
  kRegionSize <= size < 2 ^ 40 ->
  ok_or_exit (fun '(r, _) => region_ok r
      /\ forall r', r' ∈ mapped -> r + kRegionSize <= r' \/ r' + kRegionSize <= r)
    (newRegion_loop mmap tries mapped hint size).
Proof using Hmmap.
  revert hint size. induction tries as [|tries IH]; intros hint size Hsize; [done|].
  cbn [newRegion_loop]. change kRegionSize with 1048576 in *. cbv zeta.
  pose proof (Hmmap mapped hint size ltac:(lia)) as Hp. cbv zeta in Hp.
  change kRegionSize with 1048576 in Hp.
  set (p := mmap mapped hint size) in *.
  assert (Hretry : forall hint' size', 1048576 <= size' < 2 ^ 40 ->
    ok_or_exit (fun '(r, _) => region_ok r
        /\ forall r', r' ∈ mapped -> r + 1048576 <= r' \/ r' + 1048576 <= r)
      (if (0 <? tries)%nat && (kMMapRegionEnd <=? hint') then Err (Exited 134)
       else newRegion_loop mmap tries mapped hint' size')).
  { intros hint' size' ?. case_match; [done|]. by apply IH. }
  destruct (Z.eqb_spec p MAP_FAILED) as [|Hne]; [by apply Hretry|].
  destruct (Hp Hne) as (Hpos & Hmax & Hdis & Hfor).
  change kRegionSize with 1048576 in *.
  destruct (isAlignedAtPowerOf2 kRegionSizeLog2 p) eqn:Ea.
  - cbn [ok_or_exit]. rewrite isAlignedAtPowerOf2_spec in Ea by done.
    split; [split; [split; [by apply Z.eqb_eq in Ea|lia]|]|].
    + intros a Ha. specialize (Hfor a Ha). change kRegionSize with 1048576. lia.
    + intros r' Hr'. specialize (Hdis r' Hr'). lia.
  - unfold alignToRegionBoundary. change kRegionSizeLog2 with 20.
    destruct (roundUpToPowerOf2_least 20 p) as (Hle & Hal & _); [lia..|]. cbv zeta in Hle, Hal.
    change (2 ^ 20) with 1048576 in Hle.
    destruct (Z.leb_spec (roundUpToPowerOf2 20 p + 1048576) (p + size)); [|apply Hretry; lia].
    cbn [ok_or_exit]. rewrite isAlignedAtPowerOf2_spec in Hal by done.
    split; [split; [split; [by apply Z.eqb_eq in Hal|lia]|]|].
    + intros a Ha. specialize (Hfor a Ha). change kRegionSize with 1048576. lia.
    + intros r' Hr'. specialize (Hdis r' Hr'). lia.
Qed.

Lemma fresh_list r bs n i :
  region_addr_ok r -> 0 <= i -> i + Z.of_nat n = kBlocksPerRegion ->
  (forall j, 0 <= j < kBlocksPerRegion -> bs !! block_addr r j = Some (fresh_block r j)) ->
  exists l, free_list bs (if (0 <? n)%nat then block_addr r i else 0) l
    /\ NoDup l /\ forall b, b ∈ l -> exists j, i <= j < kBlocksPerRegion /\ b = block_addr r j.
Proof using Type.
  intros Hr. revert i. induction n as [|n IH]; intros i Hi Hn Hbs.
  { exists []. split_and!; [constructor|constructor|]. intros b Hb. by apply not_elem_of_nil in Hb. }
  destruct (IH (i + 1)) as (l & Hl & Hnd & Hin); [lia..|done|].
  exists (block_addr r i :: l). split_and!.
  - apply (fl_cons _ _ (fresh_block r i)); [|apply Hbs; lia|done|].
    + pose proof (block_addr_bound r i ltac:(lia)). destruct Hr as [_ Hr]. cbn [Nat.ltb Nat.leb]. lia.
    + unfold fresh_block. cbn [b_link]. destruct n; cbn [Nat.ltb Nat.leb] in *;
        destruct (Z.eqb_spec i (kBlocksPerRegion - 1)); (done || lia).
  - constructor; [|done]. intros (j & Hj & He%block_addr_inj)%Hin. lia.
  - intros b [->|Hb]%elem_of_cons; [exists i; split; [lia|done]|].
    destruct (Hin b Hb) as (j & Hj & ->). exists j. split; [lia|done].
Qed.

Lemma fresh_block_ok rs r j d :
  region_addr_ok r -> 0 <= j < kBlocksPerRegion -> rs !! r = Some d ->
  isSmallObjectRegion d = true -> block_ok rs (block_addr r j) (fresh_block r j).
Proof using Type.
  intros Hr Hj Hrs Hd. exists r, j.
  destruct (fresh_block_bounds r j Hr Hj) as (? & Hsz & ? & ? & ?).
  split_and!; [done|lia|lia|done|eauto|done|done|cbn; lia| |done].
  change (b_free (fresh_block r j)) with (b_start (fresh_block r j)).
  unfold min_block in Hsz. change (kBlockSize - sizeof_SmallObjectRegionData) with 31456 in Hsz. lia.
Qed.

Lemma block_ok_frame rs r d b blk :
  (forall rd, rs !! r = Some rd -> isSmallObjectRegion rd = true -> isSmallObjectRegion d = true) ->
  block_ok rs b blk -> block_ok (<[r := d]> rs) b blk.
Proof using Type.
  intros Hd (r' & i & Hb & Hi & Hr & (rd & Hrd & Hsm) & Hrest).
  exists r', i. refine (conj Hb (conj Hi (conj Hr (conj _ Hrest)))).
  destruct (Z.eq_dec r r') as [->|Hne].
  - exists d. rewrite lookup_insert_eq. eauto.
  - exists rd. by rewrite lookup_insert_ne.
Qed.

(** A new small object region; the manager still has to adopt it. *)
Lemma newRegion_small h used fl :
  (forall r, is_Some (regions h !! r) -> region_ok r) ->
  (forall b d, blocks h !! b = Some d -> block_ok (regions h) b d) ->
  (forall b, b ∈ used -> is_Some (blocks h !! b)) ->
  free_list (blocks h) (free_ h) fl -> NoDup (used ++ fl) ->
  ok_or_exit (fun '(h', r) => exists hint,
      h' = upd_heap h (<[r := mkRegion 0 (SmallObjectRegion (block_addr r 0))]> (regions h))
             (initBlocks r (blocks h)) hint (region_ h) (free_ h)
      /\ (forall b, is_Some (blocks h !! b) -> initBlocks r (blocks h) !! b = blocks h !! b)
      /\ forall link hint',
           mm_inv (upd_heap h (<[r := mkRegion link (SmallObjectRegion (block_addr r 0))]> (regions h))
                     (initBlocks r (blocks h)) hint' r (free_ h)) used)
    (newRegion mmap h kSmallObjectRegion).
Proof using Hmmap.
  intros Hregs Hblks Hused Hfl Hnd. unfold newRegion.
  eapply ok_or_exit_bind; [by apply newRegion_loop_spec|]. intros [r hint] [Hrok Hdis]. pose proof Hrok as [Hr Hfor].
  cbn [ok_or_exit]. exists hint. split; [done|].
  destruct (initBlocks_spec r (blocks h) Hr) as [Hnew Hold].
  assert (Hnone : regions h !! r = None).
  { apply eq_None_not_Some. intros Hs. apply elem_of_dom in Hs. specialize (Hdis r Hs).
    change kRegionSize with 1048576 in Hdis. lia. }
  assert (Hfar : forall b, is_Some (blocks h !! b) ->
            forall j, 0 <= j < kBlocksPerRegion -> b <> block_addr r j).
  { intros b [d Hb] j Hj ->. destruct (Hblks _ _ Hb) as (r' & i & He & Hi & Hr' & (rd & Hrd & _) & _).
    pose proof (block_addr_bound r j Hj). pose proof (block_addr_bound r' i Hi).
    destruct (Hdis r'); [apply elem_of_dom; eauto|lia..]. }
  assert (Hsame : forall b, is_Some (blocks h !! b) -> initBlocks r (blocks h) !! b = blocks h !! b).
  { intros b Hb. apply Hold. by apply Hfar. }
  split; [done|]. intros link hint'.
  destruct (fresh_list r (initBlocks r (blocks h)) 32 0) as (rl & Hrl & Hndr & Hin); [done..|].
  constructor; cbn [upd_heap regions blocks free_ region_].
  - intros r' [d Hd]. destruct (Z.eq_dec r r') as [<-|]; [done|].
    rewrite lookup_insert_ne in Hd by done. apply Hregs. eauto.
  - intros b d Hb. destruct (decide (is_Some (blocks h !! b))) as [Hs|Hs].
    + rewrite Hsame in Hb by done. apply block_ok_frame; [by rewrite Hnone|]. by apply Hblks.
    + pose proof (eq_refl ((b - block_addr r 0) / sizeof_Block)) as Ej.
      set (j := (b - block_addr r 0) / sizeof_Block) in Ej at 2. clearbody j.
      destruct (decide (0 <= j < kBlocksPerRegion /\ b = block_addr r j)) as [(Hj & ->)|Hno].
      * rewrite Hnew in Hb by done. injection Hb as <-.
        eapply fresh_block_ok; [done..|apply lookup_insert_eq|done].
      * rewrite Hold in Hb; [by destruct Hs|]. intros k Hk ->. apply Hno.
        assert (j = k) as ->; [|done]. rewrite <- Ej. unfold block_addr.
        replace (_ - _) with (k * sizeof_Block) by lia. by apply Z.div_mul.
  - intros b Hb. rewrite Hsame; auto.
  - exists fl, rl, (block_addr r 0), link. split_and!.
    + eapply free_list_frame; [|done]. intros x Hx. apply Hsame. by eapply free_list_some.
    + apply lookup_insert_eq.
    + done.
    + rewrite app_assoc. apply NoDup_app. split_and!; [done| |done].
      intros x Hx (j & Hj & ->)%Hin. eapply Hfar; [|done|done].
      apply elem_of_app in Hx as [Hx|Hx]; [auto|by eapply free_list_some].
Qed.

(** ** Grabbing a block *)

(** [h'] is [h] after the block [b] was taken from the free ones. *)
Record grabbed (h : MemoryManager) (used : list Z) (h' : MemoryManager) (b : Z) : Prop := {
  gr_inv : mm_inv h' (b :: used);
  gr_fresh : exists d, blocks h' !! b = Some d /\ b_free d = b_start d /\ b_link d = 0;
  gr_old : forall b', b' ∈ used -> blocks h' !! b' = blocks h !! b';
  gr_rest : h' = upd_heap h (regions h') (blocks h') (alloc_hint h') (region_ h') (free_ h')
}.

Lemma upd_heap_id h : upd_heap h (regions h) (blocks h) (alloc_hint h) (region_ h) (free_ h) = h.
Proof using Type. by destruct h. Qed.

Lemma inv_ext h h' used :
  regions h' = regions h -> blocks h' = blocks h -> region_ h' = region_ h -> free_ h' = free_ h ->
  mm_inv h used -> mm_inv h' used.
Proof using Type.
  intros E1 E2 E3 E4 [? ? ? Hf]. constructor; rewrite ?E1, ?E2, ?E3, ?E4; done.
Qed.

(** Rewriting the descriptor of a block in use. *)
Lemma inv_set_block h used b d d' :
  mm_inv h used -> b ∈ used -> blocks h !! b = Some d ->
  b_start d' = b_start d -> b_end d' = b_end d -> b_start d <= b_free d' <= b_end d ->
  (word_kind (b_contents d') = true -> b_free d' mod 8 = 0) ->
  mm_inv (set_block h b d') used.
Proof using Type.
  intros [Hr Hb Hu Hf] Hin Hd Hs He Hfr Hal. constructor; cbn.
  - done.
  - intros x dx Hx. destruct (Z.eq_dec b x) as [<-|].
    + rewrite lookup_insert_eq in Hx. injection Hx as <-.
      destruct (Hb _ _ Hd) as (r & i & H1 & H2 & H3 & H4 & Hs' & He' & _).
      exists r, i. refine (conj H1 (conj H2 (conj H3 (conj H4 _)))).
      rewrite Hs, He. done.
    + rewrite lookup_insert_ne in Hx by done. by apply Hb.
  - intros x Hx. destruct (Z.eq_dec b x) as [<-|].
    + rewrite lookup_insert_eq. eauto.
    + rewrite lookup_insert_ne by done. auto.
  - destruct Hf as (fl & rl & nf & link & Hfl & Hreg & Hrl & Hnd).
    exists fl, rl, nf, link. pose proof (proj1 (NoDup_app _ _) Hnd) as (_ & Hsep & _).
    assert (Hfree : forall l c, (forall x, x ∈ l -> x ∈ fl ++ rl) -> free_list (blocks h) c l ->
              free_list (<[b:=d']> (blocks h)) c l).
    { intros l c Hl. apply free_list_frame. intros x Hx. apply lookup_insert_ne.
      intros <-. by apply (Hsep b Hin), Hl. }
    split_and!; [|done| |done]; (apply Hfree; [|done]); intros x Hx; apply elem_of_app; auto.
Qed.

(** Taking the head of a free list out: the rest is unchanged. *)
Lemma free_list_pop bs b d d' l :
  free_list bs b l -> b <> 0 -> bs !! b = Some d -> NoDup l ->
  exists l', l = b :: l' /\ free_list (<[b := d']> bs) (b_link d) l' /\ b_free d = b_start d.
Proof using Type.
  intros Hf Hb Hd Hnd. inversion Hf as [|? d0 l' _ Hd0 Hfr Hl']; [done|]. simplify_eq.
  apply NoDup_cons in Hnd as [Hni Hnd]. exists l'. split_and!; [done| |done].
  eapply free_list_frame; [|done]. intros x Hx. apply lookup_insert_ne. by intros <-.
Qed.

(** The free descriptor that leaves a list joins the used ones. *)
Lemma blocks_ok_pop h used b d d' rs :
  mm_inv h used -> blocks h !! b = Some d -> b_free d = b_start d ->
  (forall x dx, block_ok (regions h) x dx -> block_ok rs x dx) ->
  b_start d' = b_start d -> b_end d' = b_end d -> b_free d' = b_free d ->
  (forall x dx, <[b := d']> (blocks h) !! x = Some dx -> block_ok rs x dx).
Proof using Type.
  intros Hinv Hd Hfr Hrs Hs He Hf x dx Hx.
  destruct (Z.eq_dec b x) as [<-|]; [|rewrite lookup_insert_ne in Hx by done;
    by apply Hrs, (inv_blocks _ _ Hinv)].
  rewrite lookup_insert_eq in Hx. injection Hx as <-.
  destruct (block_bounds _ _ Hinv _ _ Hd) as (Hbnd & _ & _ & Hal).
  destruct (Hrs _ _ (inv_blocks _ _ Hinv _ _ Hd)) as (r & i & K1 & K2 & K3 & K4 & Hs' & He' & _).
  exists r, i. refine (conj K1 (conj K2 (conj K3 (conj K4 _)))).
  rewrite Hs, He, Hf, Hfr. split_and!; [done|done|lia|lia|done].
Qed.

Lemma region_grab_spec h used :
  mm_inv h used ->
  match region_grab h (region_ h) with
  | Ok (Some (h', b)) => grabbed h used h' b
  | Ok None => exists link, regions h !! region_ h = Some (mkRegion link (SmallObjectRegion 0))
  | Err _ => False
  end.
Proof using Type.
  intros Hinv. pose proof Hinv as [Hr Hb Hu (fl & rl & nf & link & Hfl & Hreg & Hrl & Hnd)].
  unfold region_grab, region_at. rewrite Hreg. cbn [of_option obind region_data region_link].
  destruct (Z.eqb_spec nf 0) as [->|Hnf]; [by exists link|].
  pose proof (NoDup_app_r _ _ (NoDup_app_r _ _ Hnd)) as Hnd'.
  pose proof Hrl as Hrl0. inversion Hrl0 as [|? d l' _ Hd Hfr _]; [done|]. subst. clear Hrl0.
  unfold block_at. rewrite Hd. cbn [of_option obind].
  destruct (free_list_pop _ _ _ (with_link d 0) _ Hrl Hnf Hd Hnd') as (? & [= <-] & Hl & _).
  assert (Hmv : nf :: (used ++ fl ++ l') ≡ₚ used ++ fl ++ nf :: l') by solve_Permutation.
  rewrite <- Hmv in Hnd. apply NoDup_cons in Hnd as [Hni Hnd].
  rewrite !elem_of_app in Hni.
  constructor; cbn [upd_heap regions blocks alloc_hint region_ free_].
  - constructor; cbn [upd_heap regions blocks alloc_hint region_ free_].
    + intros r [d' Hd']. apply Hr. destruct (Z.eq_dec (region_ h) r) as [<-|]; [eauto|].
      rewrite lookup_insert_ne in Hd' by done. eauto.
    + eapply blocks_ok_pop; [done..| | | |]; [|done..].
      intros x dx Hx. by apply block_ok_frame.
    + intros x [->|Hx]%elem_of_cons; [rewrite lookup_insert_eq; eauto|].
      rewrite lookup_insert_ne by (intros <-; tauto). auto.
    + exists fl, l', (b_link d), link. split_and!; [|apply lookup_insert_eq|done|].
      * eapply free_list_frame; [|done]. intros x Hx. apply lookup_insert_ne. intros <-. tauto.
      * cbn [app]. constructor; [rewrite !elem_of_app; tauto|done].
  - exists (with_link d 0). by rewrite lookup_insert_eq.
  - intros x Hx. apply lookup_insert_ne. intros <-. tauto.
  - done.
Qed.

Lemma grab_region_spec h used n :
  mm_inv h used -> (0 < n)%nat ->
  ok_or_exit (fun '(h', b) => grabbed h used h' b) (grab_region mmap n h).
Proof using Hmmap.
  intros Hinv Hn. destruct n as [|n]; [lia|]. cbn [grab_region].
  pose proof (region_grab_spec h used Hinv) as Hg.
  destruct (region_grab h (region_ h)) as [[[h' b]|]|]; [done| |done].
  destruct Hg as [link Hreg]. cbn [obind].
  pose proof Hinv as [Hr Hb Hu (fl & rl & nf & link' & Hfl & Hreg' & Hrl & Hnd)].
  rewrite Hreg in Hreg'. injection Hreg' as <- <-. apply free_list_zero in Hrl as ->.
  rewrite app_nil_r in Hnd.
  eapply ok_or_exit_bind; [by apply (newRegion_small h used fl)|].
  intros [h1 r] (hint & -> & Hsame & Hadopt). unfold region_at. cbn [upd_heap regions].
  rewrite lookup_insert_eq. cbn [of_option obind region_data blocks alloc_hint free_].
  rewrite insert_insert_eq. specialize (Hadopt (region_ h) hint).
  set (h2 := upd_heap h _ _ hint r (free_ h)) in Hadopt.
  change (upd_heap _ _ _ _ _ _) with h2.
  assert (Hg : match region_grab h2 (region_ h2) with
               | Ok (Some (h', b)) => grabbed h2 used h' b | _ => False end).
  { pose proof (region_grab_spec h2 used Hadopt) as Hg.
    destruct (region_grab h2 (region_ h2)) as [[[h' b]|]|]; [done| |done].
    destruct Hg as [l Hl]. cbn in Hl. rewrite lookup_insert_eq in Hl.
    injection Hl as _ Hz. destruct (inv_regions _ _ Hadopt r) as [[_ Hpos] _].
    { cbn. rewrite lookup_insert_eq. eauto. }
    pose proof (block_addr_bound r 0 ltac:(done)). lia. }
  destruct n; cbn [grab_region];
    (destruct (region_grab h2 (region_ h2)) as [[[h' b]|]|]; [|done..]);
    cbn [obind ok_or_exit]; destruct Hg as [Hgi Hgf Hgo Hgr];
    (constructor; [done|done| |by rewrite Hgr]);
    intros b' Hb'; rewrite Hgo by done; apply Hsame; auto.
Qed.

Lemma grabFreeBlock_spec h used k :
  mm_inv h used ->
  ok_or_exit (fun '(h', b) => grabbed h used h' b
      /\ exists d, blocks h' !! b = Some d /\ b_contents d = k /\ b_free d = b_start d)
    (grabFreeBlock mmap h k).
Proof using Hmmap.
  intros Hinv. unfold grabFreeBlock. destruct (Z.eqb_spec (free_ h) 0) as [Hz|Hnz]; cbn [negb].
  - eapply ok_or_exit_bind; [by apply (grab_region_spec h used 1); [|lia]|].
    intros [h1 b] [Hi (d & Hd & Hfr & Hl) Hold Hrest].
    unfold block_at. rewrite Hd. cbn [of_option obind ok_or_exit].
    assert (Hni : b ∉ used).
    { destruct (inv_free _ _ Hi) as (fl & rl & ? & ? & _ & _ & _ & Hnd).
      by apply NoDup_cons in Hnd as [Hni _]; rewrite elem_of_app in Hni; auto. }
    destruct (block_bounds _ _ Hi _ _ Hd) as (? & ? & ? & ?).
    split; [constructor|].
    + eapply inv_set_block; [done|by left|done|done|done| |]; cbn; rewrite Hfr; [lia|done].
    + exists (with_flags d k). cbn. by rewrite lookup_insert_eq.
    + intros x Hx. cbn. rewrite lookup_insert_ne by (by intros <-). auto.
    + rewrite Hrest. done.
    + exists (with_flags d k). cbn. by rewrite lookup_insert_eq.
  - pose proof Hinv as [Hr Hb Hu (fl & rl & nf & link & Hfl & Hreg & Hrl & Hnd)].
    pose proof Hfl as Hfl0. inversion Hfl0 as [|? d l' _ Hd Hfr Htl]; [done|]. subst. clear Hfl0.
    unfold block_at. rewrite Hd. cbn [of_option obind ok_or_exit].
    set (d' := with_flags (with_link d 0) k).
    assert (Hmv : free_ h :: (used ++ l' ++ rl) ≡ₚ used ++ (free_ h :: l') ++ rl)
      by solve_Permutation.
    rewrite <- Hmv in Hnd. apply NoDup_cons in Hnd as [Hni Hnd'].
    rewrite !elem_of_app in Hni.
    split; [constructor|]; cbn.
    + constructor; cbn.
      * done.
      * by apply (blocks_ok_pop h used _ d).
      * intros x [->|Hx]%elem_of_cons; [rewrite lookup_insert_eq; eauto|].
        rewrite lookup_insert_ne by (intros <-; tauto). auto.
      * exists l', rl, nf, link. split_and!; [|done| |].
        -- eapply free_list_frame; [|done]. intros x Hx. apply lookup_insert_ne. intros <-. tauto.
        -- eapply free_list_frame; [|done]. intros x Hx. apply lookup_insert_ne. intros <-. tauto.
        -- cbn [app]. constructor; [rewrite !elem_of_app; tauto|done].
    + exists d'. by rewrite lookup_insert_eq.
    + intros x Hx. apply lookup_insert_ne. intros <-. tauto.
    + done.
    + exists d'. by rewrite lookup_insert_eq.
Qed.

(** ** Allocation *)

Lemma var_contents_inj v w : var_contents v = var_contents w -> v = w.
Proof using Type. by destruct v, w. Qed.

Lemma get_set_var h v w b : get_var (set_var h v b) w = if decide (v = w) then b else get_var h w.
Proof using Type. by destruct v, w. Qed.

(** The state after [blockFull(&v)]: an empty block in front. *)
Lemma blockFull_spec h used v :
  mm_inv h used -> vars_ok h used ->
  ok_or_exit (fun h' => exists b d, mm_inv h' (b :: used) /\ vars_ok h' (b :: used)
      /\ get_var h' v = b /\ blocks h' !! b = Some d /\ b_free d = b_start d
      /\ b_link d = get_var h v /\ b_contents d = var_contents v
      /\ (forall b', b' ∈ used -> blocks h' !! b' = blocks h !! b')
      /\ h' = set_var (upd_heap h (regions h') (blocks h') (alloc_hint h') (region_ h') (free_ h')) v b)
    (blockFull mmap h v).
Proof using Hmmap.
  intros Hinv Hvars. unfold blockFull, block_at.
  destruct (Hvars v) as (Hin & d & Hd & Hk). rewrite Hd. cbn [of_option obind].
  eapply ok_or_exit_bind; [by apply grabFreeBlock_spec|].
  intros [h1 b] [[Hi _ Hold Hrest] (e & He & Hke & Hfe)]. rewrite He. cbn [of_option obind ok_or_exit].
  assert (Hni : b ∉ used).
  { destruct (inv_free _ _ Hi) as (fl & rl & ? & ? & _ & _ & _ & Hnd).
    by apply NoDup_cons in Hnd as [Hni _]; rewrite elem_of_app in Hni; auto. }
  destruct (block_bounds _ _ Hi _ _ He) as (Hb1 & _ & _ & Hb4).
  assert (Hbl : forall x, blocks (set_var (set_block h1 b (with_link e (get_var h v))) v b) !! x
            = <[b := with_link e (get_var h v)]> (blocks h1) !! x) by done.
  exists b, (with_link e (get_var h v)). split_and!.
  - eapply inv_ext; [..|eapply (inv_set_block h1 _ b e (with_link e (get_var h v)))]; try done;
      [by left|cbn; by rewrite Hfe].
  - intros w. rewrite get_set_var. case_decide as Hvw.
    + subst w. split; [by left|]. eexists. rewrite Hbl, lookup_insert_eq. split; [done|].
      cbn. by rewrite Hke.
    + assert (Hg : get_var (set_block h1 b (with_link e (get_var h v))) w = get_var h w)
        by (rewrite Hrest; by destruct w).
      rewrite Hg. destruct (Hvars w) as (Hw & dw & Hdw & Hkw). split; [by right|].
      exists dw. rewrite Hbl, lookup_insert_ne by (by intros ->). by rewrite Hold.
  - rewrite get_set_var. by case_decide.
  - rewrite Hbl. apply lookup_insert_eq.
  - done.
  - done.
  - cbn. by rewrite Hke.
  - intros x Hx. rewrite Hbl, lookup_insert_ne by (by intros <-). by apply Hold.
  - by rewrite Hrest.
Qed.

(** What a successful allocation of [bytes] bytes at [p] through the
    variable [v] means: the new range lies in the current block of the
    kind of [v] and overlaps nothing that was allocated before. *)
Record allocated (h : MemoryManager) (used : list Z) (v : BlockVar) (bytes : Z)
    (h' : MemoryManager) (p : Z) : Prop := {
  al_inv : exists used', mm_inv h' used' /\ vars_ok h' used' /\ used ⊆ used';
  al_range : exists d, blocks h' !! get_var h' v = Some d /\ b_contents d = var_contents v
    /\ b_start d <= p /\ p + bytes = b_free d;
  al_disjoint : forall b d a, b ∈ used -> blocks h !! b = Some d ->
    b_start d <= a < b_free d -> ~ p <= a < p + bytes;
  al_old : forall b, b ∈ used -> b <> get_var h' v -> blocks h' !! b = blocks h !! b;
  al_grow : forall b d, b ∈ used -> blocks h !! b = Some d ->
    exists d', blocks h' !! b = Some d' /\ b_start d' = b_start d /\ b_free d <= b_free d'
}.

Lemma block_alloc_Some d bytes d' p :
  block_alloc d bytes = Some (d', p) ->
  p = b_free d /\ d' = with_free d (b_free d + bytes) /\ b_free d + bytes <= b_end d.
Proof using Type.
  unfold block_alloc. destruct (Z.ltb_spec (b_end d) (b_free d + bytes)); [done|].
  by intros [= <- <-].
Qed.

Lemma alloc_step h used v d d' bytes p :
  mm_inv h used -> vars_ok h used -> 0 <= bytes ->
  (word_kind (var_contents v) = true -> bytes mod 8 = 0) ->
  blocks h !! get_var h v = Some d -> block_alloc d bytes = Some (d', p) ->
  allocated h used v bytes (set_block h (get_var h v) d') p.
Proof using Type.
  intros Hinv Hvars Hby Hal Hd (-> & -> & Hle)%block_alloc_Some.
  pose proof (block_bounds _ _ Hinv _ _ Hd) as ([Hsf Hfe] & _).
  destruct (Hvars v) as (Hin & d1 & Hd1 & Hk). simplify_eq.
  assert (Hg : forall w, get_var (set_block h (get_var h v) (with_free d (b_free d + bytes))) w
                         = get_var h w) by by intros [].
  constructor.
  - exists used. split_and!; [|intros w|done].
    + eapply inv_set_block; [done..| |]; cbn; [lia|]. rewrite Hk. intros Hw.
      destruct (inv_blocks _ _ Hinv _ _ Hd) as (r & i & _ & _ & _ & _ & _ & _ & _ & Hfal).
      rewrite Hk in Hfal. rewrite Z.add_mod, (Hfal Hw), (Hal Hw) by done. done.
    + rewrite Hg. destruct (Hvars w) as (Hw & dw & Hdw & Hkw). split; [done|]. cbn.
      destruct (Z.eq_dec (get_var h v) (get_var h w)) as [E|].
      * rewrite E in *. rewrite lookup_insert_eq. eexists; split; [done|]. cbn. congruence.
      * rewrite lookup_insert_ne by done. eauto.
  - rewrite Hg. cbn. rewrite lookup_insert_eq. eexists; split; [done|]. cbn. split_and!; [done|lia|lia].
  - intros b d2 a Hb Hd2 Ha Hp.
    pose proof (block_bounds _ _ Hinv _ _ Hd2) as ([? ?] & _).
    assert (b = get_var h v) as -> by (eapply (blocks_disjoint _ _ Hinv b d2 _ d a); [done|done|lia|lia]).
    simplify_eq. lia.
  - intros b Hb. rewrite Hg. cbn. intros Hne. by apply lookup_insert_ne.
  - intros b d2 Hb Hd2. cbn. destruct (Z.eq_dec (get_var h v) b) as [<-|].
    + rewrite lookup_insert_eq. simplify_eq. eexists; split; [done|]. cbn. split; [done|lia].
    + rewrite lookup_insert_ne by done. exists d2. split_and!; [done|done|lia].
Qed.

(** Two rounds of the loop are enough for any request that fits into
    the smallest block. *)
Lemma allocInto_loop_spec fuel h used v bytes :
  mm_inv h used -> vars_ok h used -> 0 <= bytes <= min_block -> (2 <= fuel)%nat ->
  (word_kind (var_contents v) = true -> bytes mod 8 = 0) ->
  ok_or_exit (fun '(h', p) => allocated h used v bytes h' p) (allocInto_loop mmap fuel h v bytes).
Proof using Hmmap.
  intros Hinv Hvars Hby Hf Hal. destruct fuel as [|[|fuel]]; [lia..|]. cbn [allocInto_loop].
  unfold block_at at 1. destruct (Hvars v) as (Hin & d & Hd & Hk). rewrite Hd. cbn [of_option obind].
  destruct (block_alloc d bytes) as [[d' p]|] eqn:Ea.
  { cbn [ok_or_exit]. eapply alloc_step; (done || lia). }
  eapply ok_or_exit_bind; [by apply blockFull_spec|].
  intros h1 (b & e & Hi & Hv & Hg & He & Hfr & _ & _ & Hold & _).
  unfold block_at. rewrite Hg, He. cbn [of_option obind].
  destruct (block_bounds _ _ Hi _ _ He) as (_ & Hmin & _).
  destruct (block_alloc e bytes) as [[d' p]|] eqn:Ee.
  2: { unfold block_alloc in Ee. destruct (Z.ltb_spec (b_end e) (b_free e + bytes)); [lia|done]. }
  cbn [ok_or_exit]. rewrite <- Hg in *.
  destruct (alloc_step h1 _ v e d' bytes p Hi Hv ltac:(lia) Hal He Ee) as [(u & Hu1 & Hu2 & Hu3) K2 K3 K4 K5].
  constructor.
  - exists u. split_and!; [done..|]. intros x Hx. apply Hu3. by right.
  - done.
  - intros x dx a Hx Hdx. eapply K3; [by right|]. by rewrite Hold.
  - intros x Hx Hne. rewrite K4 by (done || by right). by apply Hold.
  - intros x dx Hx Hdx. apply K5; [by right|]. by rewrite Hold.
Qed.

(** Allocation through any block variable preserves the invariant and
    returns memory inside one block of the right kind that overlaps
    nothing allocated before; it only fails when the system has no
    memory left. *)
Lemma allocInto_sound fuel h used v bytes :
  mm_inv h used -> vars_ok h used -> 0 <= bytes <= min_block -> (2 <= fuel)%nat ->
  (word_kind (var_contents v) = true -> bytes mod 8 = 0) ->
  ok_or_exit (fun '(h', p) => allocated h used v bytes h' p) (allocInto mmap fuel h v bytes).
Proof using Hmmap.
  intros Hinv Hvars Hby Hf Hal. unfold allocInto.
  eapply ok_or_exit_bind; [by apply (allocInto_loop_spec fuel h used)|].
  intros [h1 p] [(u & ? & ? & ?) Hr ? ? ?]. cbn [ok_or_exit].
  assert (Hg : forall n w, get_var (add_allocated h1 n) w = get_var h1 w) by by intros ? [].
  constructor; [|by rewrite Hg|done|intros ? ?; rewrite Hg; auto|done].
  exists u. split_and!; [by apply (inv_ext h1)| |done]. intros w. by rewrite Hg.
Qed.

(** ** The constructor *)

Definition holds (h : MemoryManager) (used : list Z) (v : BlockVar) : Prop :=
  get_var h v ∈ used
  /\ exists d, blocks h !! get_var h v = Some d /\ b_contents d = var_contents v.

Lemma grab_var h used v :
  mm_inv h used ->
  ok_or_exit (fun '(h', b) => let h2 := set_var h' v b in
      mm_inv h2 (b :: used) /\ holds h2 (b :: used) v
      /\ forall w, w <> v -> holds h used w -> holds h2 (b :: used) w)
    (grabFreeBlock mmap h (var_contents v)).
Proof using Hmmap.
  intros Hinv. eapply ok_or_exit_impl; [by apply grabFreeBlock_spec|].
  intros [h1 b] [[Hi _ Hold Hrest] (d & Hd & Hk & _)] h2.
  split_and!; [by apply (inv_ext h1)| |].
  - unfold holds, h2. rewrite get_set_var. case_decide; [|done]. split; [by left|eauto].
  - intros w Hw (Hin & dw & Hdw & Hkw). unfold holds, h2. rewrite get_set_var.
    case_decide; [congruence|].
    assert (get_var h1 w = get_var h w) as -> by (rewrite Hrest; by destruct w).
    split; [by right|]. exists dw. split; [|done]. cbn. rewrite <- Hdw. by apply Hold.
Qed.

(** With no block on the free list, the region's own list is used in
    order. *)
Lemma grab_from_region h k link nf d :
  free_ h = 0 -> regions h !! region_ h = Some (mkRegion link (SmallObjectRegion nf)) ->
  nf <> 0 -> blocks h !! nf = Some d ->
  exists h', grabFreeBlock mmap h k = Ok (h', nf) /\ free_ h' = 0 /\ region_ h' = region_ h
    /\ regions h' !! region_ h = Some (mkRegion link (SmallObjectRegion (b_link d)))
    /\ blocks h' = <[nf := with_flags (with_link d 0) k]> (<[nf := with_link d 0]> (blocks h)).
Proof using Type.
  intros Hf Hreg Hnz Hd. unfold grabFreeBlock. rewrite Hf. cbn [Z.eqb negb grab_region].
  unfold region_grab, region_at. rewrite Hreg. cbn [of_option obind region_data region_link].
  apply Z.eqb_neq in Hnz. rewrite Hnz. unfold block_at. rewrite Hd. cbn [of_option obind].
  cbn [blocks upd_heap]. rewrite lookup_insert_eq. cbn [of_option obind].
  eexists. split; [done|]. cbn. by rewrite lookup_insert_eq.
Qed.

Lemma block1_page_aligned r : region_addr_ok r -> isPageAligned (b_start (fresh_block r 1)) = true.
Proof using Type.
  intros [Ha Hr]. unfold isPageAligned, fresh_block. cbn [Z.eqb Pos.eqb b_start].
  change 0xfff with (Z.ones 12). rewrite Z.land_ones by lia.
  change kRegionSize with (2 ^ 20) in Ha. apply Z.mod_divide in Ha as [k ->]; [|done].
  change kBlockSize with (2 ^ 15).
  replace (k * 2 ^ 20 + 2 ^ 15 * 1) with ((k * 2 ^ 8 + 2 ^ 3) * 2 ^ 12) by lia.
  by rewrite Z.mod_mul.
Qed.

(** The rest of the constructor, once the blocks of static closures and
    info tables are there. *)
Lemma grab_dynamic h used :
  mm_inv h used -> holds h used V_info_tables -> holds h used V_static_closures ->
  ok_or_exit (fun h => exists used, mm_inv h used /\ vars_ok h used)
    (let! '(h, b) := grabFreeBlock mmap h kClosures in
     let h := set_var h V_closures b in
     let! '(h, b) := grabFreeBlock mmap h kStrings in
     let h := set_var h V_strings b in
     let! '(h, b) := grabFreeBlock mmap h kBytecode in
     Ok (set_var h V_bytecode b)).
Proof using Hmmap.
  intros I3 V3 W3.
  eapply ok_or_exit_bind; [by apply (grab_var h used V_closures)|].
  intros [h4 b4] (I4 & V4 & K4). eapply ok_or_exit_bind; [eapply (grab_var _ _ V_strings), I4|].
  intros [h5 b5] (I5 & V5 & K5). eapply ok_or_exit_bind; [eapply (grab_var _ _ V_bytecode), I5|].
  intros [h6 b6] (I6 & V6 & K6). cbn [ok_or_exit]. eexists. split; [exact I6|].
  intros []; [..|exact V6]; (apply K6; [done|]); [..|exact V5]; (apply K5; [done|]);
    [..|exact V4]; by apply K4.
Qed.

(** The constructor establishes the invariant; in particular its
    assertion that the info tables can be protected holds. *)
Lemma new_MemoryManager_inv :
  ok_or_exit (fun h => exists used, mm_inv h used /\ vars_ok h used) (new_MemoryManager mmap).
Proof using Hmmap.
  unfold new_MemoryManager.
  eapply ok_or_exit_bind; [apply (newRegion_small initial_mm [] []); cbn|].
  { intros r [d Hd]. by rewrite lookup_empty in Hd. }
  { intros b d Hd. by rewrite lookup_empty in Hd. }
  { intros b Hb. by apply not_elem_of_nil in Hb. }
  { constructor. }
  { constructor. }
  intros [h0 r] (hint & -> & _ & Hadopt). specialize (Hadopt 0 hint).
  cbn [regions blocks alloc_hint free_ upd_heap]. cbn [blocks initial_mm regions free_] in *.
  set (h := upd_heap _ _ _ _ r 0). change (upd_heap _ _ _ _ r 0) with h in Hadopt.
  assert (Hr : region_addr_ok r).
  { apply (inv_regions _ _ Hadopt). cbn. rewrite lookup_insert_eq. eauto. }
  destruct (initBlocks_spec r ∅ Hr) as [Hnew _].
  pose proof (block_addr_bound r 0 ltac:(done)) as Hb0.
  pose proof (block_addr_bound r 1 ltac:(done)) as Hb1.
  destruct Hr as [Hr0 Hr].
  destruct (grab_from_region h kStaticClosures 0 (block_addr r 0) (fresh_block r 0))
    as (h1 & E1 & Hf1 & Hr1 & Hreg1 & Hbl1);
    [done|apply lookup_insert_eq|lia|by apply Hnew|].
  pose proof (grab_var h [] V_static_closures Hadopt) as G1. cbn [var_contents] in G1.
  rewrite E1 in G1 |- *. cbn [ok_or_exit obind] in G1 |- *. cbv zeta in G1.
  set (h1' := set_var h1 _ _) in G1 |- *. destruct G1 as (I1 & V1 & _).
  destruct (grab_from_region h1' kInfoTables 0 (block_addr r 1) (fresh_block r 1))
    as (h2 & E2 & _ & _ & _ & Hbl2); [done| |lia| |].
  { cbn. rewrite Hr1. exact Hreg1. }
  { cbn. rewrite Hbl1, !lookup_insert_ne by (intros ?%block_addr_inj; lia). by apply Hnew. }
  pose proof (grab_var h1' _ V_info_tables I1) as G2. cbn [var_contents] in G2.
  rewrite E2 in G2 |- *. cbn [ok_or_exit obind] in G2 |- *. cbv zeta in G2.
  set (h2' := set_var h2 _ _) in G2 |- *. destruct G2 as (I2 & V2 & W2).
  specialize (W2 V_static_closures ltac:(done) V1).
  unfold markBlock at 1, block_at at 1.
  assert (E3 : blocks h2' !! info_tables_ h2' = Some (with_flags (with_link (fresh_block r 1) 0) kInfoTables)).
  { change (blocks h2') with (blocks h2). rewrite Hbl2. apply lookup_insert_eq. }
  rewrite E3. cbn [of_option obind with_flags with_link b_start].
  rewrite block1_page_aligned by done. cbn [obind].
  apply (grab_dynamic _ [block_addr r 1; block_addr r 0]); [by apply (inv_ext h2')|exact V2|exact W2].
Qed.

(** ** Sequences of allocations *)

(** Carrying out requests one after the other; the ranges returned. *)
Fixpoint alloc_all (fuel : nat) (h : MemoryManager) (reqs : list (BlockVar * Z))
  : outcome (MemoryManager * list (Z * Z)) :=
  match reqs with
  | [] => Ok (h, [])
  | (v, n) :: reqs' =>
      let! '(h, p) := allocInto mmap fuel h v n in
      let! '(h, ps) := alloc_all fuel h reqs' in
      Ok (h, (p, n) :: ps)
  end.

Definition apart_ranges (x y : Z * Z) : Prop :=
  forall a, ~ (x.1 <= a < x.1 + x.2 /\ y.1 <= a < y.1 + y.2).
Definition request_ok (q : BlockVar * Z) : Prop :=
  0 <= q.2 <= min_block /\ (word_kind (var_contents q.1) = true -> q.2 mod 8 = 0).

(** The range lies in the allocated part of a block in use. *)
Definition covers (h : MemoryManager) (used : list Z) (x : Z * Z) : Prop :=
  exists b d, b ∈ used /\ blocks h !! b = Some d /\ b_start d <= x.1 /\ x.1 + x.2 <= b_free d.

Lemma covers_step h used v n h' used' p x :
  allocated h used v n h' p -> used ⊆ used' -> covers h used x -> covers h' used' x.
Proof using Type.
  intros Ha Hsub (b & d & Hb & Hd & H1 & H2).
  destruct (al_grow _ _ _ _ _ _ Ha b d Hb Hd) as (d' & Hd' & Hs & Hf).
  exists b, d'. split_and!; [by apply Hsub|done|lia|lia].
Qed.

Lemma alloc_all_spec fuel h used reqs :
  mm_inv h used -> vars_ok h used -> (2 <= fuel)%nat -> Forall request_ok reqs ->
  ok_or_exit (fun '(_, ps) => map snd ps = map snd reqs
      /\ (forall x y, covers h used x -> y ∈ ps -> apart_ranges x y)
      /\ ForallOrdPairs apart_ranges ps)
    (alloc_all fuel h reqs).
Proof using Hmmap.
  intros Hinv Hvars Hfuel Hreqs. revert h used Hinv Hvars.
  induction Hreqs as [|[v n] reqs [Hn Hal] _ IH]; intros h used Hinv Hvars; cbn [alloc_all].
  { split_and!; [done|by intros ? ? ? ?%not_elem_of_nil|constructor]. }
  eapply ok_or_exit_bind; [by apply (allocInto_sound fuel h used)|]. intros [h1 p] Ha.
  pose proof Ha as [(u & Hi & Hv & Hsub) (d & Hd & _ & Hs & Hf) Hdis _ _].
  eapply ok_or_exit_bind; [by apply (IH h1 u)|]. intros [h2 ps] (Hlen & Hcov & Hps).
  cbn [ok_or_exit map]. split_and!; [by rewrite Hlen| |].
  - intros x y Hx [->|Hy]%elem_of_cons; [|by apply Hcov; [eapply covers_step|]].
    destruct Hx as (b & dx & Hb & Hdx & H1 & H2). intros a [Hax Hay].
    cbn in Hay. apply (Hdis b dx a Hb Hdx); lia.
  - constructor; [|done]. apply List.Forall_forall. intros y Hy%list_elem_of_In.
    apply Hcov; [|done]. exists (get_var h1 v), d. split_and!; [apply Hv|done|done|cbn; lia].
Qed.

(** C23: From the constructor on, the ranges that a sequence of requests
    is given are pairwise disjoint, whatever mix of info tables,
    strings, code and closures is asked for; the only failure is the
    exit when the system has no memory left.  A request is for at most
    [min_block] bytes (31456, what the smallest block has room for), and for a
    multiple of 8 in blocks of words ([request_ok]); the allocator does
    not check either. *)
Theorem allocations_disjoint fuel reqs :
  (2 <= fuel)%nat -> Forall request_ok reqs ->
  ok_or_exit (fun '(_, ps) => map snd ps = map snd reqs /\ ForallOrdPairs apart_ranges ps)
    (let! h := new_MemoryManager mmap in alloc_all fuel h reqs).
Proof using Hmmap.
  intros Hf Hreqs. eapply ok_or_exit_bind; [apply new_MemoryManager_inv|].
  intros h (used & Hi & Hv). eapply ok_or_exit_impl; [by apply (alloc_all_spec fuel h used)|].
  intros [h' ps] (? & _ & ?). done.
Qed.

(** ** The bump allocator *)

Lemma isWordAligned_spec p : isWordAligned p = (p mod 8 =? 0).
Proof using Type. unfold isWordAligned. by rewrite isAlignedAtPowerOf2_spec. Qed.

(** [heap] is a valid allocation pointer into the block [d]. *)
Definition heap_in (d : Block) (heap heaplim : Z) : Prop :=
  b_free d <= heap <= b_end d /\ heap mod 8 = 0 /\ (heaplim = 0 \/ heaplim = b_end d).

Lemma sync_spec h used d heap heaplim :
  mm_inv h used -> vars_ok h used -> blocks h !! closures_ h = Some d ->
  heap_in d heap heaplim ->
  exists n, sync h heap heaplim
      = Ok (set_block (add_allocated h n) (closures_ h) (with_free d heap))
    /\ mm_inv (set_block (add_allocated h n) (closures_ h) (with_free d heap)) used
    /\ vars_ok (set_block (add_allocated h n) (closures_ h) (with_free d heap)) used.
Proof using Type.
  intros Hinv Hvars Hd (Hh & Hal & Hlim). exists (heap - b_free d).
  unfold sync, block_at. rewrite Hd. cbn [of_option obind].
  assert ((heaplim =? 0) || (heaplim =? b_end d) = true) as ->
    by (destruct Hlim as [->| ->]; rewrite Z.eqb_refl; [done|apply orb_true_r]).
  rewrite (proj2 (Z.leb_le _ _)), (proj2 (Z.leb_le _ _)) by lia. cbn [andb].
  pose proof (block_bounds _ _ Hinv _ _ Hd) as ([? ?] & _).
  destruct (Hvars V_closures) as (Hin & d1 & Hd1 & Hk). cbn in Hin, Hd1. simplify_eq.
  split_and!; [done| |].
  - eapply inv_set_block; [by apply (inv_ext h)|done|done|done|done|cbn; lia|done].
  - intros v. destruct (Hvars v) as (Hw & dw & Hdw & Hkw). split; [by destruct v|].
    change (get_var _ v) with (get_var h v). cbn.
    destruct (Z.eq_dec (closures_ h) (get_var h v)) as [E|].
    + rewrite <- E in *. rewrite lookup_insert_eq. eexists; split; [done|]. cbn. congruence.
    + rewrite lookup_insert_ne by done. eauto.
Qed.

(** A block ready for the bump allocator: [hp, lim) is free. *)
Definition bump_bounds (h : MemoryManager) (hp lim : Z) : Prop :=
  hp + min_block <= lim /\ hp mod 8 = 0 /\ lim mod 8 = 0
  /\ exists d, blocks h !! closures_ h = Some d /\ heap_in d hp lim.

Lemma bounds_of_empty h used d :
  mm_inv h used -> blocks h !! closures_ h = Some d -> b_free d = b_start d ->
  getBumpAllocatorBounds h = Ok (b_free d, b_end d) /\ bump_bounds h (b_free d) (b_end d).
Proof using Type.
  intros Hinv Hd Hf. destruct (block_bounds _ _ Hinv _ _ Hd) as (? & ? & He & Hs).
  unfold getBumpAllocatorBounds, block_at. rewrite Hd. cbn [of_option obind].
  rewrite !isWordAligned_spec, He, Hf, Hs. split; [done|].
  split_and!; [lia|done|done|]. exists d. split; [done|]. split_and!; [lia..|done|by right].
Qed.

(** C37: When the current block is used up, [bumpAllocatorFullNoGC]
    counts down the collection trigger; unless that was the last block
    allowed it hands out a word-aligned empty block of at least 31456
    bytes, records how far the old one was filled and keeps the
    invariant; otherwise it asks for a collection and leaves the trigger
    at one. *)
Theorem bumpAllocatorFullNoGC_spec h used d heap heaplim :
  mm_inv h used -> vars_ok h used -> blocks h !! closures_ h = Some d ->
  heap_in d heap heaplim -> 0 < nextGC_ h < 2 ^ 32 ->
  ok_or_exit (fun '(h', r) => match r with
      | None => nextGC_ h = 1 /\ nextGC_ h' = 1 /\ mm_inv h' used /\ vars_ok h' used
      | Some (hp, lim) => nextGC_ h' = nextGC_ h - 1 /\ nextGC_ h' <> 0
          /\ bump_bounds h' hp lim
          /\ blocks h' !! closures_ h = Some (with_free d heap)
          /\ exists b, (b ∉ used) /\ closures_ h' = b /\ mm_inv h' (b :: used) /\ vars_ok h' (b :: used)
      end)
    (bumpAllocatorFullNoGC mmap h heap heaplim).
Proof using Hmmap.
  intros Hinv Hvars Hd Hheap Hgc. unfold bumpAllocatorFullNoGC.
  destruct (sync_spec h used d heap heaplim) as (n & -> & Hi & Hv); [done..|]. cbn [obind].
  set (h1 := set_block (add_allocated h n) (closures_ h) (with_free d heap)) in *.
  set (h2 := set_nextGC h1 (nextGC_ h1 - 1)).
  assert (Hi2 : mm_inv h2 used) by by apply (inv_ext h1).
  assert (Hv2 : vars_ok h2 used) by (intros v; by destruct (Hv v); destruct v).
  assert (Hn2 : nextGC_ h2 = nextGC_ h - 1) by (apply to_u_id; cbn; lia).
  destruct (Z.eqb_spec (nextGC_ h2) 0) as [Hz|Hz].
  - cbn [ok_or_exit]. split_and!; [lia| |by apply (inv_ext h1)|intros v; by destruct (Hv v); destruct v].
    cbn [set_nextGC set_counts nextGC_]. rewrite Hz. done.
  - eapply ok_or_exit_bind; [by apply (blockFull_spec h2 used V_closures)|].
    intros h3 (b & e & Hi3 & Hv3 & Hg3 & He & Hfe & _ & _ & Hold & Hrest). cbn in Hg3.
    destruct (bounds_of_empty h3 (b :: used) e) as [-> Hbb]; [done|by rewrite Hg3|done|].
    cbn [obind ok_or_exit].
    assert (Hcl : closures_ h ∈ used) by apply (Hvars V_closures).
    assert (Hne : nextGC_ h3 = nextGC_ h2) by (rewrite Hrest; done).
    split_and!; [lia|lia|done| |].
    + rewrite Hold by done. cbn. apply lookup_insert_eq.
    + exists b. split_and!; [|done..].
      destruct (inv_free _ _ Hi3) as (fl & rl & ? & ? & _ & _ & _ & Hnd).
      apply NoDup_cons in Hnd as [Hni _]. rewrite elem_of_app in Hni. auto.
Qed.

(** A request that exceeds the size of a block is never satisfied:
    however often the loop of [allocInto] runs, it never returns, and
    there is no check on the size before it. *)
Theorem allocInto_too_large fuel h used v bytes h' p :
  mm_inv h used -> vars_ok h used -> kBlockSize < bytes ->
  allocInto mmap fuel h v bytes <> Ok (h', p).
Proof using Hmmap.
  intros Hinv Hvars Hby. unfold allocInto. intros Hok. inv_ok.
  match goal with H : allocInto_loop _ _ _ _ _ = Ok _ |- _ => revert H end.
  revert h used Hinv Hvars. induction fuel as [|fuel IH]; intros h used Hinv Hvars; [done|].
  cbn [allocInto_loop]. unfold block_at. destruct (Hvars v) as (Hin & d & Hd & Hk). rewrite Hd.
  cbn [of_option obind].
  assert (block_alloc d bytes = None) as ->.
  { destruct (inv_blocks _ _ Hinv _ _ Hd) as (r & i & _ & Hi & Hr & _ & Hs & He & Hf & _).
    destruct (fresh_block_bounds r i Hr Hi) as (Hlo & _ & Hhi & _).
    unfold block_alloc. rewrite (proj2 (Z.ltb_lt _ _)); [done|].
    change kBlockSize with 32768 in *. lia. }
  pose proof (blockFull_spec h used v Hinv Hvars) as Hbf.
  destruct (blockFull mmap h v) as [h1|]; cbn [obind]; [|done].
  destruct Hbf as (b & e & Hi & Hv & _). by eapply IH.
Qed.

(** When the next block that is free does not start on a page
    boundary, [allocInfoTable] does not skip it as it means to: the retry
    first protects the unaligned block, which fails, and the assertion
    on it stops the program. *)
Theorem allocInfoTable_unaligned fuel h nwords d h1 e :
  0 < beginAllocInfoTableLevel_ h -> blocks h !! info_tables_ h = Some d ->
  b_end d < b_free d + nwords * 8 -> isPageAligned (b_start d) = true ->
  (blockFull mmap (set_protection h ({[info_tables_ h]} ∪ readonly h) (beginAllocInfoTableLevel_ h))
    V_info_tables) = Ok h1 ->
  blocks h1 !! info_tables_ h1 = Some e -> isPageAligned (b_start e) = false ->
  allocInfoTable mmap (S (S fuel)) h nwords = Err AssertFailed.
Proof using Type.
  intros Hl Hd Hfull Hal Hbf He Hun. unfold allocInfoTable.
  rewrite (proj2 (Z.ltb_lt _ _)) by done. unfold block_at at 1. rewrite Hd. cbn [of_option obind].
  unfold block_alloc. change sizeof_Word with 8. rewrite (proj2 (Z.ltb_lt _ _)) by lia.
  cbn [allocInfoTable_loop]. unfold markBlock at 1, block_at at 1. rewrite Hd.
  cbn [of_option obind]. rewrite Hal. cbn [obind]. rewrite Hbf. cbn [obind].
  unfold block_at at 1. rewrite He. cbn [of_option obind]. rewrite Hun. cbn [negb].
  unfold markBlock, block_at. rewrite He. cbn [of_option obind]. by rewrite Hun.
Qed.
End os.
End invariant.
