(* ===== verification/GC.v ===== *)
(** * The garbage collector ([memorymanager.cc], from line 512)

    A copying collector: [evacuate] moves an object into the current
    closure block and leaves a forwarding pointer, the [scavenge]
    functions call it on every root and on every pointer of a copied
    object.  The stack is read through the frames' liveness bitmaps.
    Loops that follow data take fuel; the [DLOG] and [dout] output is
    left out. *)

From S2P Require Import Prelude Words Bytecode Bitmaps Objects HeapInterface MemoryManager.
Import BcIns (Opcode(..)).

(** ** Forwarding pointers *)
Definition isForwardingPointer (info : Z) : bool := negb (Z.land info 1 =? 0).
Definition getForwardingPointer (info : Z) : Z := Z.lxor info 1.
Definition makeForwardingPointer (p : Z) : Z := Z.lor p 1.

(** The shift [1UL << size]. *)
Definition shl1 (size : Z) : outcome Z :=
  if size <? 64 then Ok (Z.shiftl 1 size) else Err UndefinedOp.

(** The bitmap of a frame: in the bytecode segment, or the array that
    [scavengeStack] fills for the top frame. *)
Inductive bitmask :=
| in_code (a : Z)
| dummy_mask (l : list Z).
Definition read_chunk (m : memory) (b : bitmask) (i : Z) : outcome Z :=
  match b with
  | in_code a => load_ins_u2 m (a + 2 * i)
  | dummy_mask l => of_option WildAccess (l !! Z.to_nat i)
  end.

Definition offset_bitmask (m : memory) (pc : Z) : outcome (option bitmask) :=
  let! raw := load_ins m pc in
  Ok (option_map in_code (BcIns.offsetToBitmask pc raw)).

Definition topFrameBitmask (m : memory) (pc : Z) : outcome (option bitmask) :=
  let! ins := load_ins m pc in
  match BcIns.opcode ins with
  | Some kALLOC1 => offset_bitmask m (pc + 4)
  | Some kALLOC => offset_bitmask m (pc + 4 + 4 * BcIns.BC_ROUND (BcIns.c ins))
  | Some kALLOCAP => offset_bitmask m (pc + 4 + 4 * BcIns.BC_ROUND (BcIns.c ins + 1))
  | _ => Err (Exited 1)
  end.

(** ** Large objects *)

Definition evacuateLarge (h : MemoryManager) (m : memory) (c : Z)
  : outcome (MemoryManager * memory) :=
  let q := largeObjectFromClosure c in
  let! marked := getMark m q in
  if marked : bool then Ok (h, m)
  else
    let! m := setMark m q in
    let! '(m, list) := unlinkLargeObject m q (largeObjects_ h) in
    let m := store m (q + LO_next) (evacuatedLargeObjects_ h) in
    let m := store m (q + LO_prev) 0 in
    Ok (set_large h list q (scavengedLargeObjects_ h) (freeLargeRegions_ h), m).

Fixpoint scavengeLarge (fuel : nat) (h : MemoryManager) (m : memory)
  : outcome (MemoryManager * memory) :=
  match fuel with
  | O => Err OutOfFuel
  | S fuel' =>
      let obj := evacuatedLargeObjects_ h in
      if obj =? 0 then Ok (h, m)
      else
        let! next := load m (obj + LO_next) in
        let m := store m (obj + LO_next) (scavengedLargeObjects_ h) in
        scavengeLarge fuel' (set_large h (largeObjects_ h) next obj (freeLargeRegions_ h)) m
  end.

(** [while (p->next_ != NULL) p = p->next_;] *)
Fixpoint last_object (fuel : nat) (m : memory) (p : Z) : outcome Z :=
  match fuel with
  | O => Err OutOfFuel
  | S fuel' =>
      let! next := load m (p + LO_next) in
      if next =? 0 then Ok p else last_object fuel' m next
  end.
(** The second loop of [sweepLargeObjects]: the new head of the list. *)
Fixpoint relink_objects (fuel : nat) (m : memory) (p list : Z) : outcome (memory * Z) :=
  match fuel with
  | O => Err OutOfFuel
  | S fuel' =>
      if p =? 0 then Ok (m, list)
      else
        let! n := load m (p + LO_next) in
        let '(m, list) := linkLargeObject m p list in
        let! m := clearMark m p in
        relink_objects fuel' m n list
  end.
Definition sweepLargeObjects (fuel : nat) (h : MemoryManager) (m : memory)
  : outcome (MemoryManager * memory) :=
  let! '(m, list, freed) :=
    (if negb (largeObjects_ h =? 0) then
       if negb (freeLargeRegions_ h =? 0) then
         let! p := last_object fuel m (largeObjects_ h) in
         let m := store m (freeLargeRegions_ h + LO_prev) p in
         let m := store m (p + LO_next) (freeLargeRegions_ h) in
         Ok (m, 0, p)
       else Ok (m, 0, largeObjects_ h)
     else Ok (m, largeObjects_ h, freeLargeRegions_ h)) in
  let! '(m, list) := relink_objects fuel m (scavengedLargeObjects_ h) list in
  Ok (set_large h list (evacuatedLargeObjects_ h) (scavengedLargeObjects_ h) freed, m).

Section gc.
Context (mmap : gset Z -> Z -> Z -> Z) (fuel : nat).

(** ** Evacuation *)

(** The payload loop of [copy]. *)
Fixpoint copy_payload (n : nat) (m : memory) (from to i : Z) : outcome memory :=
  match n with
  | O => Ok m
  | S n' =>
      let! v := payload m from i in
      copy_payload n' (setPayload m to i v) from to (i + 1)
  end.

Definition copy (h : MemoryManager) (m : memory) (src info payloadSize : Z)
  : outcome (MemoryManager * memory) :=
  let! from := load m src in
  let! '(h, m, to) := allocClosure mmap fuel h m info payloadSize in
  let m := store m src to in
  let! m := copy_payload (Z.to_nat payloadSize) m from to 0 in
  Ok (h, setInfo m from (makeForwardingPointer to)).

(** [evacuate(p)] from the label [loop] on; each round after the first
    follows one indirection. *)
Fixpoint evacuate_loop (n : nat) (h : MemoryManager) (m : memory) (p q : Z)
  : outcome (MemoryManager * memory) :=
  match n with
  | O => Err OutOfFuel
  | S n' =>
      let! info := closure_info_addr m q in
      if isForwardingPointer info then Ok (h, store m p (getForwardingPointer info))
      else
        let! k := block_contents h q in
        if negb (bool_decide (k = kClosures)) then Ok (h, m)
        else
          let! itbl := info_at m info in
          match it_type itbl with
          | CONSTR | THUNK | FUN => copy h m p info (it_size itbl)
          | IND =>
              let! q := payload m q 0 in
              evacuate_loop n' h (store m p q) p q
          | PAP =>
              let! nargs := pap_nargs m q in
              copy h m p info (nargs + wordsof_PapClosure - wordsof_ClosureHeader)
          | LARGE => evacuateLarge h m q
          | _ => Err (Exited 44)
          end
  end.
Definition evacuate (h : MemoryManager) (m : memory) (p : Z) : outcome (MemoryManager * memory) :=
  let! q := load m p in
  assert! negb (q =? 0) in
  evacuate_loop fuel h m p q.

(** ** Scavenging *)

(** The loop over the pointer mask of an object, which [CONSTR], [FUN],
    [THUNK] and [PAP] share: [a] is the address of field [i]. *)
Fixpoint scavenge_fields (n : nat) (h : MemoryManager) (m : memory) (bitmap a : Z)
  : outcome (MemoryManager * memory) :=
  match n with
  | O => Ok (h, m)
  | S n' =>
      if bitmap =? 0 then Ok (h, m)
      else
        let! '(h, m) := (if negb (Z.land bitmap 1 =? 0) then evacuate h m a else Ok (h, m)) in
        scavenge_fields n' h m (Z.shiftr bitmap 1) (a + 8)
  end.

(** One object of [scavengeBlock]: the address behind it. *)
Definition scavenge_object (h : MemoryManager) (m : memory) (p : Z)
  : outcome (MemoryManager * memory * Z) :=
  let! info := closure_info_addr m p in
  assert! negb (isForwardingPointer info) in
  let! itbl := info_at m info in
  match it_type itbl with
  | CONSTR | THUNK | FUN =>
      let bitmap := it_bitmap itbl in
      let size := it_size itbl in
      let! lim := shl1 size in
      assert! (bitmap <? lim) in
      let! '(h, m) := scavenge_fields (Z.to_nat size) h m bitmap (p + 8) in
      Ok (h, m, p + (wordsof_ClosureHeader + size) * sizeof_Word)
  | PAP =>
      let! bitmap := pap_pointerMask m p in
      let! size := pap_nargs m p in
      let! '(h, m) := evacuate h m (p + PAP_FUNCTION_OFFSET) in
      let! lim := shl1 size in
      assert! (bitmap <? lim) in
      let! '(h, m) := scavenge_fields (Z.to_nat size) h m bitmap (p + PAP_PAYLOAD_OFFSET) in
      Ok (h, m, p + (wordsof_PapClosure + size) * sizeof_Word)
  | _ => Err (Exited 43)
  end.
Fixpoint scavengeBlock_loop (n : nat) (h : MemoryManager) (m : memory) (block p : Z)
  : outcome (MemoryManager * memory) :=
  match n with
  | O => Err OutOfFuel
  | S n' =>
      let! d := block_at h block in
      if p <? b_free d then
        let! '(h, m, p) := scavenge_object h m p in
        scavengeBlock_loop n' h m block p
      else Ok (set_block h block (with_scavenged d true), m)
  end.
Definition scavengeBlock (h : MemoryManager) (m : memory) (block : Z)
  : outcome (MemoryManager * memory) :=
  let! d := block_at h block in
  scavengeBlock_loop fuel h m block (b_start d).

(** [scavengeFrame]: the [for] loop over one chunk, then the
    [do .. while] over the chunks. *)
Fixpoint scavenge_chunk (n : nat) (h : MemoryManager) (m : memory) (base slots bitmap slot : Z)
  : outcome (MemoryManager * memory * Z * Z) :=
  match n with
  | O => Ok (h, m, bitmap, slot)
  | S n' =>
      if bitmap =? 0 then Ok (h, m, bitmap, slot)
      else
        let! '(h, m) :=
          (if negb (Z.land bitmap 1 =? 0) then
             assert! (slot <? slots) in evacuate h m (base + 8 * slot)
           else Ok (h, m)) in
        scavenge_chunk n' h m base slots (Z.shiftr bitmap 1) (slot + 1)
  end.
Fixpoint scavenge_chunks (n : nat) (h : MemoryManager) (m : memory) (base slots : Z)
    (bitmaps : bitmask) (i slot : Z) : outcome (MemoryManager * memory) :=
  match n with
  | O => Err OutOfFuel
  | S n' =>
      let! bitmap := read_chunk m bitmaps i in
      let! '(h, m, bitmap, slot) := scavenge_chunk 15 h m base slots bitmap slot in
      if bitmap =? 0 then Ok (h, m)
      else scavenge_chunks n' h m base slots bitmaps (i + 1) slot
  end.
Definition scavengeFrame (h : MemoryManager) (m : memory) (base top : Z) (bitmaps : option bitmask)
  : outcome (MemoryManager * memory) :=
  let! '(h, m) := evacuate h m (base - 8) in
  match bitmaps with
  | None => Ok (h, m)
  | Some b => scavenge_chunks fuel h m base ((top - base) / 8) b 0 0
  end.

Definition top_bitmask (h : MemoryManager) (m : memory) (pc : Z) : outcome (option bitmask) :=
  if negb (topOfStackMask_ h =? kNoMask) then
    Ok (Some (dummy_mask (topOfStack_chunks (topOfStackMask_ h))))
  else topFrameBitmask m pc.

(** The [while (base)] loop of [scavengeStack]. *)
Fixpoint scavenge_frames (n : nat) (h : MemoryManager) (m : memory) (base top pc : Z)
  : outcome (MemoryManager * memory) :=
  match n with
  | O => Err OutOfFuel
  | S n' =>
      if base =? 0 then Ok (h, m)
      else
        let! b := offset_bitmask m (pc - 4) in
        let! '(h, m) := scavengeFrame h m base top b in
        let! pc := load m (base - 16) in
        let! prev := load m (base - 24) in
        scavenge_frames n' h m prev (base - 24) pc
  end.
Definition scavengeStack (h : MemoryManager) (m : memory) (base top pc : Z)
  : outcome (MemoryManager * memory) :=
  let! b := top_bitmask h m pc in
  let! '(h, m) := scavengeFrame h m base top b in
  let! pc := load m (base - 16) in
  let! prev := load m (base - 24) in
  scavenge_frames fuel h m prev (base - 24) pc.

Fixpoint scavengeStaticRoots (n : nat) (h : MemoryManager) (m : memory) (cl : Z)
  : outcome (MemoryManager * memory) :=
  match n with
  | O => Err OutOfFuel
  | S n' =>
      if cl =? 0 then Ok (h, m)
      else
        let! '(h, m) := evacuate h m (cl + 8) in
        let! next := payload m cl 1 in
        scavengeStaticRoots n' h m next
  end.

(** ** Sanity checking

    The functions return whether the check succeeded and the set
    [seen] of closures visited. *)

(** The loop over a pointer mask, with the check of one closure as
    parameter. *)
Fixpoint sanity_fields (chk : gset Z -> Z -> outcome (bool * gset Z)) (m : memory)
    (n : nat) (bitmap a : Z) (seen : gset Z) : outcome (bool * gset Z) :=
  match n with
  | O => Ok (true, seen)
  | S n' =>
      if bitmap =? 0 then Ok (true, seen)
      else
        let! '(ok, seen) :=
          (if negb (Z.land bitmap 1 =? 0) then
             let! cl := load m a in chk seen cl
           else Ok (true, seen)) in
        if ok : bool then sanity_fields chk m n' (Z.shiftr bitmap 1) (a + 8) seen
        else Ok (false, seen)
  end.

Fixpoint sanityCheckClosure (n : nat) (h : MemoryManager) (m : memory) (seen : gset Z) (cl : Z)
  : outcome (bool * gset Z) :=
  match n with
  | O => Err OutOfFuel
  | S n' =>
      if bool_decide (cl ∈ seen) then Ok (true, seen)
      else
        let! looks := looksLikeClosure h m cl in
        if negb looks then Ok (false, seen)
        else
          let seen := {[cl]} ∪ seen in
          let! info := closure_info_addr m cl in
          if isForwardingPointer info then Ok (false, seen)
          else
            let! itbl := info_at m info in
            match it_type itbl with
            | CONSTR | THUNK | CAF | FUN =>
                let! lim := shl1 (it_size itbl) in
                if negb (it_bitmap itbl <? lim) then Ok (false, seen)
                else sanity_fields (sanityCheckClosure n' h m) m (Z.to_nat (it_size itbl))
                       (it_bitmap itbl) (cl + 8) seen
            | IND =>
                let! next := payload m cl 0 in sanityCheckClosure n' h m seen next
            | UPDATE_FRAME | AP_CONT => Ok (true, seen)
            | PAP =>
                let! bitmap := pap_pointerMask m cl in
                let! size := pap_nargs m cl in
                let! fn := pap_fun m cl in
                let! '(ok, seen) := sanityCheckClosure n' h m seen fn in
                if negb ok then Ok (false, seen)
                else
                  let! lim := shl1 size in
                  if negb (bitmap <? lim) then Ok (false, seen)
                  else sanity_fields (sanityCheckClosure n' h m) m (Z.to_nat size)
                         bitmap (cl + PAP_PAYLOAD_OFFSET) seen
            | _ => Ok (false, seen)
            end
  end.

Fixpoint sanity_chunk (n : nat) (h : MemoryManager) (m : memory) (base slots bitmap slot : Z)
    (seen : gset Z) : outcome (bool * gset Z * Z * Z) :=
  match n with
  | O => Ok (true, seen, bitmap, slot)
  | S n' =>
      if bitmap =? 0 then Ok (true, seen, bitmap, slot)
      else
        let! '(ok, seen) :=
          (if negb (Z.land bitmap 1 =? 0) then
             if negb (slot <? slots) then Ok (false, seen)
             else let! cl := load m (base + 8 * slot) in sanityCheckClosure fuel h m seen cl
           else Ok (true, seen)) in
        if ok : bool then sanity_chunk n' h m base slots (Z.shiftr bitmap 1) (slot + 1) seen
        else Ok (false, seen, bitmap, slot)
  end.
Fixpoint sanity_chunks (n : nat) (h : MemoryManager) (m : memory) (base slots : Z)
    (bitmaps : bitmask) (i slot : Z) (seen : gset Z) : outcome (bool * gset Z) :=
  match n with
  | O => Err OutOfFuel
  | S n' =>
      let! bitmap := read_chunk m bitmaps i in
      let! '(ok, seen, bitmap, slot) := sanity_chunk 15 h m base slots bitmap slot seen in
      if negb ok then Ok (false, seen)
      else if bitmap =? 0 then Ok (true, seen)
      else sanity_chunks n' h m base slots bitmaps (i + 1) slot seen
  end.
Definition sanityCheckFrame (h : MemoryManager) (m : memory) (base top : Z)
    (bitmaps : option bitmask) (seen : gset Z) : outcome (bool * gset Z) :=
  let! node := load m (base - 8) in
  let! '(ok, seen) := sanityCheckClosure fuel h m seen node in
  if negb ok then Ok (false, seen)
  else
    match bitmaps with
    | None => Ok (false, seen)
    | Some b => sanity_chunks fuel h m base ((top - base) / 8) b 0 0 seen
    end.

Fixpoint sanity_frames (n : nat) (h : MemoryManager) (m : memory) (base top pc : Z)
    (seen : gset Z) : outcome (bool * gset Z) :=
  match n with
  | O => Err OutOfFuel
  | S n' =>
      if base =? 0 then Ok (true, seen)
      else
        let! b := offset_bitmask m (pc - 4) in
        let! '(ok, seen) := sanityCheckFrame h m base top b seen in
        if negb ok then Ok (false, seen)
        else
          let! pc := load m (base - 16) in
          let! prev := load m (base - 24) in
          sanity_frames n' h m prev (base - 24) pc seen
  end.
Definition sanityCheckStack (h : MemoryManager) (m : memory) (base top pc : Z) (seen : gset Z)
  : outcome (bool * gset Z) :=
  let! b := top_bitmask h m pc in
  let! '(ok, seen) := sanityCheckFrame h m base top b seen in
  if negb ok then Ok (false, seen)
  else
    let! pc := load m (base - 16) in
    let! prev := load m (base - 24) in
    sanity_frames fuel h m prev (base - 24) pc seen.

Fixpoint sanityCheckStaticRoots (n : nat) (h : MemoryManager) (m : memory) (cl : Z)
    (seen : gset Z) : outcome (bool * gset Z) :=
  match n with
  | O => Err OutOfFuel
  | S n' =>
      if cl =? 0 then Ok (true, seen)
      else
        let! root := payload m cl 0 in
        let! '(ok, seen) := sanityCheckClosure fuel h m seen root in
        if negb ok then Ok (false, seen)
        else let! next := payload m cl 1 in sanityCheckStaticRoots n' h m next seen
  end.

Definition sanityCheckHeap (h : MemoryManager) (m : memory) (T : Thread) (staticRoots : Z)
  : outcome (gset Z) :=
  let! '(ok, seen) := sanityCheckStack h m (t_base T) (t_top T) (t_pc T) ∅ in
  let! '(ok, seen) := (if ok : bool then sanityCheckStaticRoots fuel h m staticRoots seen
                       else Ok (false, seen)) in
  if ok : bool then Ok seen else Err (Exited 42).

(** ** A collection *)

(** The inner [while] of [performGC]. *)
Fixpoint scavenge_list (n : nat) (h : MemoryManager) (m : memory) (block : Z)
  : outcome (MemoryManager * memory) :=
  match n with
  | O => Err OutOfFuel
  | S n' =>
      if block =? 0 then Ok (h, m)
      else
        let! d := block_at h block in
        if b_scavenged d then Ok (h, m)
        else
          let! '(h, m) := scavengeBlock h m block in
          let! d := block_at h block in
          scavenge_list n' h m (b_link d)
  end.
(** The [for (;;)] around it: the first block is left for last. *)
Fixpoint scavenge_all (n : nat) (h : MemoryManager) (m : memory)
  : outcome (MemoryManager * memory) :=
  match n with
  | O => Err OutOfFuel
  | S n' =>
      let block := closures_ h in
      if block =? 0 then Ok (h, m)
      else
        let! d := block_at h block in
        if b_scavenged d then Ok (h, m)
        else
          let! block :=
            (if b_link d =? 0 then Ok block
             else
               let! e := block_at h (b_link d) in
               Ok (if b_scavenged e then block else b_link d)) in
          let! '(h, m) := scavenge_list fuel h m block in
          scavenge_all n' h m
  end.

(** Clearing the scavenged flags; the number of blocks. *)
Fixpoint clear_scavenged (n : nat) (h : MemoryManager) (block fullBlocks : Z)
  : outcome (MemoryManager * Z) :=
  match n with
  | O => Err OutOfFuel
  | S n' =>
      if block =? 0 then Ok (h, fullBlocks)
      else
        let! d := block_at h block in
        clear_scavenged n' (set_block h block (with_scavenged d false)) (b_link d) (fullBlocks + 1)
  end.

(** [memset(p, 0, 8 * n)] *)
Fixpoint zero_words (n : nat) (m : memory) (p : Z) : memory :=
  match n with
  | O => m
  | S n' => zero_words n' (store m p 0) (p + 8)
  end.
(** [Block::markAsFree], with the [memset] of a build with assertions. *)
Definition markAsFree (m : memory) (d : Block) : memory * Block :=
  (zero_words (Z.to_nat (block_size d / 8)) m (b_start d),
   mkBlock (b_start d) (b_end d) (b_start d) (b_link d) kUninitialized false).

Fixpoint free_blocks (n : nat) (h : MemoryManager) (m : memory) (block : Z)
  : outcome (MemoryManager * memory) :=
  match n with
  | O => Err OutOfFuel
  | S n' =>
      if block =? 0 then Ok (h, m)
      else
        let! d := block_at h block in
        let '(m, d) := markAsFree m d in
        let h := set_free (set_block h block (with_link d (free_ h))) block in
        free_blocks n' h m (b_link d)
  end.

(** [performGC]; [sanity] is [DEBUG_SANITY_CHECK_GC]. *)
Context (sanity : bool).
Definition performGC (h : MemoryManager) (m : memory) (T : Thread) (staticRoots : Z)
  : outcome (MemoryManager * memory) :=
  let! _ := (if sanity then sanityCheckHeap h m T staticRoots else Ok ∅) in
  let h := set_counts h (nextGC_ h) (allocated_ h) (num_gcs_ h + 1) in
  assert! (old_heap_ h =? 0) in
  let! d := block_at h (closures_ h) in
  let h := set_old_heap h (closures_ h) in
  let! '(h, b) := grabFreeBlock mmap h (b_contents d) in
  let! e := block_at h b in
  let h := set_var (set_block h b (with_link e 0)) V_closures b in
  let! '(h, m) := scavengeStack h m (t_base T) (t_top T) (t_pc T) in
  let! '(h, m) := scavengeStaticRoots fuel h m staticRoots in
  let! '(h, m) := scavenge_all fuel h m in
  let! '(h, fullBlocks) := clear_scavenged fuel h (closures_ h) 0 in
  let! '(h, m) := free_blocks fuel h m (old_heap_ h) in
  let h := set_old_heap h 0 in
  let h := set_nextGC h (Z.max fullBlocks (minHeapSize_ h) + 1) in
  let! _ := (if sanity then sanityCheckHeap h m T staticRoots else Ok ∅) in
  Ok (h, m).

(** [bumpAllocatorFull] *)
Definition bumpAllocatorFull (h : MemoryManager) (m : memory) (T : Thread)
    (staticRoots heap heaplim : Z) : outcome (MemoryManager * memory * Z * Z) :=
  let! h := sync h heap heaplim in
  let h := set_nextGC h (nextGC_ h - 1) in
  let! '(h, m) := (if nextGC_ h =? 0 then performGC h m T staticRoots
                   else let! h := blockFull mmap h V_closures in Ok (h, m)) in
  let! '(hp, lim) := getBumpAllocatorBounds h in
  Ok (h, m, hp, lim).

(** ** The memory manager as the interpreter sees it

    A failing assertion inside [looksLikeClosure], which is itself only
    called in assertions, counts as [false]. *)
Instance MemoryManager_ops : HeapOps MemoryManager := {
  h_beginAllocInfoTable := beginAllocInfoTable;
  h_endAllocInfoTable := endAllocInfoTable;
  h_allocInfoTable := allocInfoTable mmap fuel;
  h_allocString := allocString mmap fuel;
  h_allocCode := allocCode mmap fuel;
  h_allocStaticClosure := allocStaticClosure mmap fuel;
  h_allocLarge := allocLarge mmap;
  h_bumpAllocatorFull := bumpAllocatorFull;
  h_bumpAllocatorFullNoGC := bumpAllocatorFullNoGC mmap;
  h_getBumpAllocatorBounds := getBumpAllocatorBounds;
  h_sync := sync;
  h_setTopOfStackMask := setTopOfStackMask;
  h_looksLikeClosure h m p := match looksLikeClosure h m p with Ok b => b | Err _ => false end
}.

Lemma MemoryManager_laws : HeapLaws MemoryManager.
Proof using Type.
  constructor. intros h m m' p Hl Hi. cbn. unfold looksLikeClosure, closure_info_addr.
  by rewrite Hl.
Qed.
End gc.
