(* ===== verification/GCProofs.v ===== *)
(** * What the garbage collector guarantees

    Evacuation moves an object without changing it and at most once,
    whatever is scavenged is what the bitmaps say, and a heap that passes
    the sanity check is closed under reachability. *)

From S2P Require Import Prelude Words Bytecode Bitmaps Objects HeapInterface WordCopy.
From S2P Require Import MemoryManager HeapInv GC.

(** ** Forwarding pointers *)

Lemma forward_roundtrip to :
  0 <= to -> to mod 8 = 0 ->
  isForwardingPointer (makeForwardingPointer to) = true
  /\ getForwardingPointer (makeForwardingPointer to) = to.
Proof.
  intros Hto Hal. unfold isForwardingPointer, getForwardingPointer, makeForwardingPointer.
  assert (Hodd : Z.testbit to 0 = false).
  { apply Z.mod_divide in Hal as [k ->]; [|done]. rewrite Z.bit0_odd, Z.odd_mul. by apply andb_false_r. }
  split.
  - rewrite land_1_testbit, Z.lor_spec. rewrite orb_true_r. done.
  - apply Z.bits_inj'. intros i Hi. rewrite Z.lxor_spec, Z.lor_spec.
    destruct (Z.eq_dec i 0) as [->|]; [by rewrite Hodd|].
    change 1 with (2 ^ 0). rewrite Z.pow2_bits_false by done.
    by rewrite orb_false_r, xorb_false_r.
Qed.

Section gc.
Context (foreign : Z -> Prop).
Context (mmap : gset Z -> Z -> Z -> Z) (Hmmap : mmap_ok foreign mmap).
Context (fuel : nat).

(** ** New objects *)

(** An address the collector may hold a pointer in: a stack slot or an
    allocated word of the heap. *)
Definition stable (h : MemoryManager) (used : list Z) (a : Z) : Prop :=
  is_aligned a 8 = true /\ (foreign a \/ covers h used (a, 8)).

Lemma range_in_region h used b d a :
  mm_inv foreign h used -> blocks h !! b = Some d -> b_start d <= a < b_end d -> ~ foreign a.
Proof using Type.
  intros Hinv Hb Ha Hf.
  destruct (inv_blocks _ _ _ Hinv b d Hb) as (r & i & -> & Hi & Hr & (rd & Hrd & _) & Hs & He & _).
  destruct (fresh_block_bounds r i Hr Hi) as (Hlo & _ & Hhi & _).
  destruct (inv_regions _ _ _ Hinv r ltac:(eauto)) as [_ Hnf]. specialize (Hnf a Hf).
  rewrite Hs, He, Hhi in *. rewrite kBlocksPerRegion_eq in Hi.
  change kBlockSize with 32768 in *. change kRegionSize with 1048576 in Hnf. lia.
Qed.

(** A new range does not touch an address that was in use. *)
Lemma allocated_apart h used v n h' p a k :
  allocated foreign h used v n h' p -> (foreign a /\ k = 1) \/ covers h used (a, k) ->
  forall x, a <= x < a + k -> ~ p <= x < p + n.
Proof using Type.
  intros Ha Hst x Hx Hp. destruct Ha as [(u & Hi & _ & _) (d & Hd & _ & Hs & Hf) Hdis _ _].
  destruct Hst as [[Hst ->]|(b & dx & Hb & Hdx & H1 & H2)].
  - assert (x = a) as -> by lia.
    destruct (block_bounds _ _ _ Hi _ _ Hd) as (? & _).
    eapply (range_in_region h' u); [done|done| |done]. lia.
  - cbn in H1, H2. eapply (Hdis b dx x); [done|done|lia|done].
Qed.

Lemma allocated_aligned h used v n h' p :
  allocated foreign h used v n h' p -> word_kind (var_contents v) = true -> n mod 8 = 0 ->
  is_aligned p 8 = true /\ p mod 8 = 0 /\ 0 <= p.
Proof using Type.
  intros [(u & Hi & _ & _) (d & Hd & Hk & Hs & Hf) _ _ _] Hw Hn.
  destruct (inv_blocks _ _ _ Hi _ _ Hd) as (r & i & _ & Hri & Hr & _ & Hst & _ & _ & Hal).
  rewrite Hk in Hal. specialize (Hal Hw).
  destruct (fresh_block_bounds r i Hr Hri) as (Hlo & _). destruct Hr as [_ Hr].
  rewrite kBlocksPerRegion_eq in Hri. change kBlockSize with 32768 in Hlo.
  assert (p mod 8 = 0) as Hp.
  { replace p with (b_free d - n) by lia. by rewrite Zminus_mod, Hal, Hn. }
  split_and!; [|done|lia]. unfold is_aligned. by rewrite Hp.
Qed.

Lemma copy_payload_words n m from to i :
  copy_payload n m from to i = copy_words n m (from + 8 + 8 * i) (to + 8 + 8 * i).
Proof using Type.
  revert m i. induction n as [|n IH]; intros m i; cbn [copy_payload copy_words]; [done|].
  unfold payload, setPayload. destruct (load m (from + 8 + 8 * i)); cbn [obind]; [|done].
  rewrite IH. f_equal; lia.
Qed.

(** ** Copying *)

(** The object at [q]: its words are [info :: vs], they lie in the
    allocated part of a closure block in use. *)
Record object_at (h : MemoryManager) (used : list Z) (m : memory) (q info : Z) (vs : list Z)
    : Prop := {
  ob_words : words_at m q (info :: vs);
  ob_block : exists b d, b ∈ used /\ blocks h !! b = Some d /\ b_contents d = kClosures
    /\ b_start d <= q /\ q + 8 * (1 + Z.of_nat (length vs)) <= b_free d;
  ob_size : 8 * (1 + Z.of_nat (length vs)) <= min_block
}.

Lemma object_covers h used m q info vs :
  object_at h used m q info vs -> covers h used (q, 8 * (1 + Z.of_nat (length vs))).
Proof using Type. intros [_ (b & d & ? & ? & _ & ? & ?) _]. by exists b, d. Qed.

(** What [copy] leaves behind: the object at [to], its address at [p]
    and the forwarding pointer at [q]; nothing else changes. *)
Record copied (h : MemoryManager) (used : list Z) (m : memory) (p q info : Z) (vs : list Z)
    (h' : MemoryManager) (m' : memory) (to : Z) : Prop := {
  cp_alloc : allocated foreign h used V_closures (8 * (1 + Z.of_nat (length vs))) h' to;
  cp_slot : load m' p = Ok to;
  cp_forward : load m' q = Ok (makeForwardingPointer to);
  cp_object : words_at m' to (info :: vs);
  cp_rest : forall a, a <> p -> a <> q ->
    ~ to <= a < to + 8 * (1 + Z.of_nat (length vs)) -> load m' a = load m a;
  cp_code : itbls m' = itbls m /\ bytecode m' = bytecode m
}.

Lemma copy_spec h used m p q info vs :
  (2 <= fuel)%nat ->
  mm_inv foreign h used -> vars_ok h used -> stable h used p -> load m p = Ok q ->
  object_at h used m q info vs ->
  ~ q <= p < q + 8 * (1 + Z.of_nat (length vs)) ->
  ok_or_exit (fun '(h', m') => exists to, copied h used m p q info vs h' m' to)
    (copy mmap fuel h m p info (Z.of_nat (length vs))).
Proof using Hmmap.
  intros Hfuel Hinv Hvars [Hpal Hp] Hq Hob Hpq. pose proof Hob as [Hw _ Hsz].
  pose proof (object_covers _ _ _ _ _ _ Hob) as Hcov.
  set (n := 8 * (1 + Z.of_nat (length vs))) in *.
  assert (Hn : n mod 8 = 0) by (unfold n; rewrite Z.mul_comm; by apply Z.mod_mul).
  unfold copy, allocClosure, wordsof_ClosureHeader, sizeof_Word. rewrite Hq. cbn [obind].
  replace ((1 + Z.of_nat (length vs)) * 8) with n by lia.
  rewrite obind_assoc. eapply ok_or_exit_bind.
  { apply (allocInto_sound foreign mmap Hmmap fuel h used V_closures n);
      [done|done|unfold n in *; lia|done|done]. }
  intros [h' to] Ha. cbn [obind]. unfold setInfo at 1.
  destruct (allocated_aligned _ _ _ _ _ _ Ha eq_refl Hn) as (Hto & Htm & Htp).
  pose proof (allocated_apart _ _ _ _ _ _ _ _ Ha (or_intror Hcov)) as Hqa.
  assert (Hpa : ~ to <= p < to + n).
  { destruct Hp as [Hf|Hc]; [eapply (allocated_apart _ _ _ _ _ _ p 1); [done|by left|lia]|].
    eapply (allocated_apart _ _ _ _ _ _ p 8); [done|by right|lia]. }
  assert (Hqn : to + n <= q \/ q + n <= to).
  { destruct (Z_lt_le_dec q (to + n)); [|lia]. destruct (Z_lt_le_dec to (q + n)); [|lia].
    exfalso. destruct (Z_lt_le_dec q to); [apply (Hqa to)|apply (Hqa q)]; unfold n in *; lia. }
  rewrite Nat2Z.id, copy_payload_words, !Z.mul_0_r, !Z.add_0_r.
  apply words_at_cons in Hw as [Hqi Hvs].
  destruct (copy_words_spec (store (store m to info) p to) (q + 8) (to + 8) vs)
    as (m' & -> & Hvs' & Hs).
  { by apply aligned_8. }
  { intros i w Hi. apply lookup_lt_Some in Hi as Hlt. unfold n in *.
    rewrite !load_store_ne by lia. by apply Hvs. }
  { unfold n in *. lia. }
  cbn [obind ok_or_exit]. exists to. unfold setInfo. unfold n in *.
  assert (Hqal : is_aligned q 8 = true) by (by eapply load_aligned).
  constructor.
  - exact Ha.
  - rewrite load_store_ne by lia. rewrite (same_load _ _ _ _ p Hs) by lia.
    by apply load_store_eq.
  - by apply load_store_eq.
  - apply words_at_cons. split.
    + rewrite load_store_ne by lia. rewrite (same_load _ _ _ _ to Hs) by lia.
      rewrite load_store_ne by lia. by apply load_store_eq.
    + intros i w Hi. apply lookup_lt_Some in Hi as Hlt.
      rewrite load_store_ne by lia. by apply Hvs'.
  - intros a Hap Haq Hat. rewrite load_store_ne by done.
    rewrite (same_load _ _ _ _ a Hs) by lia. by rewrite !load_store_ne by lia.
  - by destruct Hs as (_ & ? & ?).
Qed.

(** ** Evacuating an object *)

(** The payload size with which an object of this type is copied. *)
Definition evac_size (itbl : InfoTable) (m : memory) (q n : Z) : Prop :=
  match it_type itbl with
  | CONSTR | THUNK | FUN => n = it_size itbl
  | PAP => exists nargs, pap_nargs m q = Ok nargs /\ n = nargs + 2
  | _ => False
  end.

(** From [q] a chain of [k] indirections leads to [q']; the slot [p] is
    not part of it. *)
Inductive chases (h : MemoryManager) (m : memory) (p : Z) : Z -> nat -> Z -> Prop :=
| chases_here q : chases h m p q 0 q
| chases_step q info itbl q1 k q' :
    p <> q -> p <> q + 8 -> load m q = Ok info -> isForwardingPointer info = false ->
    block_contents h q = Ok kClosures -> info_at m info = Ok itbl -> it_type itbl = IND ->
    payload m q 0 = Ok q1 -> chases h m p q1 k q' -> chases h m p q (S k) q'.

Lemma store_same m p v : load m p = Ok v -> store m p v = m.
Proof using Type.
  unfold load, store. case_match; [|done]. rewrite of_option_ok. intros Hl.
  rewrite insert_id by done. by destruct m.
Qed.

Lemma store_store m p v w : store (store m p v) p w = store m p w.
Proof using Type. unfold store. cbn. by rewrite insert_insert_eq. Qed.

Lemma chases_store h m p q k q' v : chases h m p q k q' -> chases h (store m p v) p q k q'.
Proof using Type.
  induction 1 as [|q info itbl q1 k q' H1 H2 H3 H4 H5 H6 H7 H8 _ IH]; [constructor|].
  unfold payload in *. eapply (chases_step _ _ _ _ info itbl q1); try done.
  - by rewrite load_store_ne.
  - unfold payload. rewrite load_store_ne by lia. done.
Qed.

Lemma evacuate_chase h m p q k q' n :
  chases h m p q k q' -> load m p = Ok q ->
  evacuate_loop mmap fuel (k + n) h m p q = evacuate_loop mmap fuel n h (store m p q') p q'.
Proof using Type.
  intros Hc. revert m Hc. induction k as [|k IH] in q |- *; intros m Hc Hp.
  { inversion Hc; subst. by rewrite store_same. }
  inversion Hc as [|? info itbl q1 ? ? H1 H2 H3 H4 H5 H6 H7 H8 H9]; subst.
  cbn [evacuate_loop Nat.add]. unfold closure_info_addr. rewrite H3. cbn [obind].
  rewrite H4, H5. cbn [obind]. rewrite bool_decide_eq_true_2 by done. cbn [negb].
  rewrite H6. cbn [obind]. rewrite H7, H8. cbn [obind].
  rewrite (IH q1 (store m p q1)); [by rewrite store_store|by apply chases_store|].
  apply load_store_eq. by eapply load_aligned.
Qed.

Lemma object_contents h used m q info vs :
  mm_inv foreign h used -> object_at h used m q info vs -> block_contents h q = Ok kClosures.
Proof using Type.
  intros Hinv [_ (b & d & Hb & Hd & Hk & Hs & He) _]. unfold block_contents.
  destruct (block_bounds _ _ _ Hinv _ _ Hd) as ([? ?] & _).
  rewrite (blockFromPointer_ok _ _ _ Hinv b d) by (done || lia). cbn [obind].
  unfold block_at. rewrite Hd. cbn [of_option obind]. by rewrite Hk.
Qed.

Lemma object_store h used m p q info vs v :
  object_at h used m q info vs -> ~ q <= p < q + 8 * (1 + Z.of_nat (length vs)) ->
  object_at h used (store m p v) q info vs.
Proof using Type.
  intros [Hw Hb Hs] Hp. split; [|done..]. intros i w Hi.
  apply lookup_lt_Some in Hi as Hlt. cbn [length] in Hlt. rewrite load_store_ne by lia. by apply Hw.
Qed.

Lemma evacuate_object h used m p q0 k q info itbl vs :
  (2 <= fuel)%nat -> (k < fuel)%nat -> q0 <> 0 ->
  mm_inv foreign h used -> vars_ok h used -> stable h used p -> load m p = Ok q0 ->
  chases h m p q0 k q -> object_at h used m q info vs -> isForwardingPointer info = false ->
  info_at m info = Ok itbl -> evac_size itbl m q (Z.of_nat (length vs)) ->
  ~ q <= p < q + 8 * (1 + Z.of_nat (length vs)) ->
  ok_or_exit (fun '(h', m') => exists to, copied h used m p q info vs h' m' to)
    (evacuate mmap fuel h m p).
Proof using Hmmap.
  intros Hf Hk Hq0 Hinv Hvars Hst Hp Hch Hob Hnf Hi Hsz Hpq.
  unfold evacuate. rewrite Hp. cbn [obind]. rewrite (proj2 (Z.eqb_neq _ _)) by done. cbn [negb].
  replace (evacuate_loop mmap fuel fuel) with (evacuate_loop mmap fuel (k + S (fuel - k - 1)))
    by (f_equal; lia).
  rewrite (evacuate_chase _ _ _ _ _ _ _ Hch Hp). clear Hch.
  pose proof (object_store _ _ _ _ _ _ _ q Hob Hpq) as Hob'.
  cbn [evacuate_loop]. pose proof Hob' as [Hw _ _]. apply words_at_cons in Hw as [Hqi _].
  unfold closure_info_addr. rewrite Hqi. cbn [obind]. rewrite Hnf.
  rewrite (object_contents _ _ _ _ _ _ Hinv Hob). cbn [obind].
  rewrite bool_decide_eq_true_2 by done. cbn [negb].
  change (info_at (store m p q) info) with (info_at m info). rewrite Hi. cbn [obind].
  assert (Hcopy : ok_or_exit (fun '(h', m') => exists to, copied h used m p q info vs h' m' to)
            (copy mmap fuel h (store m p q) p info (Z.of_nat (length vs)))).
  { eapply ok_or_exit_impl.
    - apply (copy_spec h used _ p q info vs); try done.
      apply load_store_eq. by destruct Hst.
    - intros [h' m'] (to & [? ? ? ? Hr ?]). exists to. constructor; [done..| |done].
      intros a Ha Haq Hat. rewrite Hr by done. by apply load_store_ne. }
  unfold evac_size in Hsz. destruct (it_type itbl); try done; try (by rewrite <- Hsz).
  destruct Hsz as (nargs & Hna & Hsz).
  assert (Hna' : pap_nargs (store m p q) q = Ok nargs).
  { unfold pap_nargs, PAP_INFO_OFFSET in *. rewrite load_store_ne; [done|].
    assert (0 <= nargs) by (inv_ok; apply (to_u_bound 32); lia). lia. }
  rewrite Hna'. cbn [obind]. unfold wordsof_PapClosure, wordsof_ClosureHeader.
  replace (nargs + 3 - 1) with (Z.of_nat (length vs)) by lia. done.
Qed.

(** C14: Evacuation copies an object faithfully: after following any
    indirections, the slot points to a new object with the same info
    table and the same payload, in memory that nothing else occupies;
    the old object holds a forwarding pointer that decodes to the new
    one, and no other word changes. *)
Theorem evacuate_copies h used m p q0 k q info itbl vs :
  (2 <= fuel)%nat -> (k < fuel)%nat -> q0 <> 0 ->
  mm_inv foreign h used -> vars_ok h used -> stable h used p -> load m p = Ok q0 ->
  chases h m p q0 k q -> object_at h used m q info vs -> isForwardingPointer info = false ->
  info_at m info = Ok itbl -> evac_size itbl m q (Z.of_nat (length vs)) ->
  ~ q <= p < q + 8 * (1 + Z.of_nat (length vs)) ->
  ok_or_exit (fun '(h', m') => exists to w,
      copied h used m p q info vs h' m' to
      /\ load m' q = Ok w /\ isForwardingPointer w = true /\ getForwardingPointer w = to)
    (evacuate mmap fuel h m p).
Proof using Hmmap.
  intros. eapply ok_or_exit_impl; [by apply (evacuate_object h used m p q0 k q info itbl vs)|].
  intros [h' m'] (to & Hc). exists to, (makeForwardingPointer to). pose proof Hc as [Ha ? ? ? ? ?].
  assert (Hn : 8 * (1 + Z.of_nat (length vs)) mod 8 = 0) by (rewrite Z.mul_comm; by apply Z.mod_mul).
  destruct (allocated_aligned _ _ _ _ _ _ Ha eq_refl Hn) as (_ & Hto & Hpos).
  destruct (forward_roundtrip to) as [? ?]; [done..|]. done.
Qed.

(** C16: Sharing is preserved: two slots that point to one object point to
    one copy afterwards, and memory for one object was allocated. *)
Theorem evacuate_shares h used m p1 p2 q info itbl vs :
  (2 <= fuel)%nat -> q <> 0 -> p1 <> p2 ->
  mm_inv foreign h used -> vars_ok h used -> stable h used p1 -> stable h used p2 ->
  load m p1 = Ok q -> load m p2 = Ok q ->
  object_at h used m q info vs -> isForwardingPointer info = false ->
  info_at m info = Ok itbl -> evac_size itbl m q (Z.of_nat (length vs)) ->
  ~ q <= p1 < q + 8 * (1 + Z.of_nat (length vs)) ->
  ~ q <= p2 < q + 8 * (1 + Z.of_nat (length vs)) ->
  ok_or_exit (fun '(h', m') => exists to,
      load m' p1 = Ok to /\ load m' p2 = Ok to
      /\ allocated foreign h used V_closures (8 * (1 + Z.of_nat (length vs))) h' to)
    (let! '(h, m) := evacuate mmap fuel h m p1 in evacuate mmap fuel h m p2).
Proof using Hmmap.
  intros Hf Hq Hne Hinv Hvars Hs1 [Ha2 Hs2] Hp1 Hp2 Hob Hnf Hi Hsz Ho1 Ho2.
  eapply ok_or_exit_bind.
  { apply (evacuate_object h used m p1 q 0 q info itbl vs); try done; [lia|constructor]. }
  intros [h' m'] (to & [Hal Hslot Hfw Hobj Hrest Hcode]).
  assert (Hn : 8 * (1 + Z.of_nat (length vs)) mod 8 = 0) by (rewrite Z.mul_comm; by apply Z.mod_mul).
  destruct (allocated_aligned _ _ _ _ _ _ Hal eq_refl Hn) as (_ & Hto & Hpos).
  destruct (forward_roundtrip to) as [Hfwd Hget]; [done..|].
  assert (Hp2' : load m' p2 = Ok q).
  { rewrite Hrest; [done|by intros ->|lia|].
    destruct Hs2 as [Hfo|Hc]; [eapply (allocated_apart _ _ _ _ _ _ p2 1); [done|by left|lia]|].
    eapply (allocated_apart _ _ _ _ _ _ p2 8); [done|by right|lia]. }
  unfold evacuate. rewrite Hp2'. cbn [obind]. rewrite (proj2 (Z.eqb_neq _ _)) by done. cbn [negb].
  destruct fuel as [|n]; [lia|]. cbn [evacuate_loop].
  unfold closure_info_addr. rewrite Hfw. cbn [obind]. rewrite Hfwd. cbn [ok_or_exit].
  rewrite Hget. exists to. split_and!; [|by apply load_store_eq|done].
  by rewrite load_store_ne.
Qed.

(** ** Scavenging visits what the bitmaps say *)

Fixpoint evacuate_all (h : MemoryManager) (m : memory) (ps : list Z)
  : outcome (MemoryManager * memory) :=
  match ps with
  | [] => Ok (h, m)
  | p :: ps' => let! '(h, m) := evacuate mmap fuel h m p in evacuate_all h m ps'
  end.

Lemma evacuate_all_app h m l1 l2 :
  evacuate_all h m (l1 ++ l2) = (let! '(h, m) := evacuate_all h m l1 in evacuate_all h m l2).
Proof using Type.
  revert h m. induction l1 as [|p l1 IH]; intros h m; cbn; [done|].
  destruct (evacuate mmap fuel h m p) as [[h' m']|]; cbn; [apply IH|done].
Qed.

Lemma bits_from_succ n b z : bits_from n b (z + 1) = map (Z.add 1) (bits_from n b z).
Proof using Type.
  revert b z. induction n as [|n IH]; intros b z; [done|].
  rewrite !bits_from_S, map_app, IH. f_equal. destruct (Z.testbit b 0); [|done].
  cbn. by rewrite Z.add_comm.
Qed.

Lemma scavenge_fields_spec n h m bitmap a :
  scavenge_fields mmap fuel n h m bitmap a
  = evacuate_all h m (map (fun i => a + 8 * i) (bits_from n bitmap 0)).
Proof using Type.
  revert h m bitmap a. induction n as [|n IH]; intros h m bitmap a; [done|].
  cbn [scavenge_fields]. destruct (Z.eqb_spec bitmap 0) as [->|_]; [by rewrite bits_from_zero|].
  rewrite bits_from_S, map_app, evacuate_all_app.
  assert (E : map (fun i => a + 8 * i) (bits_from n (Z.shiftr bitmap 1) (0 + 1))
              = map (fun i => a + 8 + 8 * i) (bits_from n (Z.shiftr bitmap 1) 0)).
  { rewrite bits_from_succ, map_map. apply map_ext. intros i. lia. }
  rewrite E, land_1_testbit, negb_involutive. destruct (Z.testbit bitmap 0); cbn [map evacuate_all].
  - rewrite Z.mul_0_r, Z.add_0_r.
    destruct (evacuate mmap fuel h m a) as [[h' m']|]; cbn [obind]; [apply IH|done].
  - cbn [obind]. apply IH.
Qed.

(** C36: Scavenging a constructor, thunk or function
    evacuates exactly the fields that its pointer mask names, in order, and
    moves on by the size of the object. *)
Theorem scavenge_object_fields h m p info itbl :
  load m p = Ok info -> isForwardingPointer info = false -> info_at m info = Ok itbl ->
  it_type itbl = CONSTR \/ it_type itbl = FUN \/ it_type itbl = THUNK ->
  0 <= it_size itbl < 64 -> it_bitmap itbl < 2 ^ it_size itbl ->
  scavenge_object mmap fuel h m p
  = (let! '(h, m) := evacuate_all h m
       (map (fun i => p + 8 + 8 * i) (bits_from (Z.to_nat (it_size itbl)) (it_bitmap itbl) 0)) in
     Ok (h, m, p + 8 * (1 + it_size itbl))).
Proof using Type.
  intros Hl Hf Hi Hty Hs Hb. unfold scavenge_object, closure_info_addr. rewrite Hl. cbn [obind].
  rewrite Hf. cbn [negb]. rewrite Hi. cbn [obind]. unfold shl1.
  rewrite (proj2 (Z.ltb_lt (it_size itbl) 64)) by lia. cbn [obind].
  rewrite Z.shiftl_1_l, (proj2 (Z.ltb_lt _ _)) by done. rewrite scavenge_fields_spec.
  destruct Hty as [->|[->| ->]]; (destruct (evacuate_all _ _ _) as [[h' m']|]; [|done]);
    cbn [obind]; unfold wordsof_ClosureHeader, sizeof_Word; do 2 f_equal; lia.
Qed.

(** The code segment is out of the collector's reach. *)
Definition chunks_at (m : memory) (b : bitmask) (i : Z) (l : list Z) : Prop :=
  forall k c, l !! k = Some c -> read_chunk m b (i + Z.of_nat k) = Ok c.

Lemma scavenge_chunk_spec n h m base slots bitmap slot vis rest slot' :
  frame_chunk n bitmap slot = (vis, rest, slot') -> Forall (fun s => s < slots) vis ->
  scavenge_chunk mmap fuel n h m base slots bitmap slot
  = (let! '(h, m) := evacuate_all h m (map (fun s => base + 8 * s) vis) in
     Ok (h, m, rest, slot')).
Proof using Type.
  revert h m bitmap slot vis. induction n as [|n IH]; intros h m bitmap slot vis Hc Hv;
    cbn [frame_chunk scavenge_chunk] in *; [by injection Hc as <- <- <-|].
  destruct (bitmap =? 0) eqn:Ez; [by injection Hc as <- <- <-|].
  destruct (frame_chunk n (Z.shiftr bitmap 1) (slot + 1)) as [[vis1 rest1] slot1] eqn:E.
  destruct (Z.land bitmap 1 =? 0); injection Hc as <- <- <-; cbn [negb obind].
  - by apply IH.
  - apply Forall_cons in Hv as [Hs Hv]. rewrite (proj2 (Z.ltb_lt _ _)) by done.
    cbn [map evacuate_all].
    destruct (evacuate mmap fuel h m (base + 8 * slot)) as [[h' m']|]; cbn [obind]; [|done].
    by apply IH.
Qed.

(** ** The collector does not touch code *)

Definition same_code (m m' : memory) : Prop := itbls m' = itbls m /\ bytecode m' = bytecode m.

Lemma copy_payload_code n m from to i m' :
  copy_payload n m from to i = Ok m' -> same_code m m'.
Proof using Type.
  revert m i. induction n as [|n IH]; intros m i; cbn [copy_payload]; [by intros [= <-]|].
  intros Hc. inv_ok. by apply IH in Hc as [? ?].
Qed.

Lemma copy_code h m src info n h' m' :
  copy mmap fuel h m src info n = Ok (h', m') -> same_code m m'.
Proof using Type.
  unfold copy, allocClosure. intros Hc. inv_ok.
  match goal with Hcp : copy_payload _ _ _ _ _ = Ok _ |- _ =>
    by apply copy_payload_code in Hcp as [? ?] end.
Qed.

Lemma evacuateLarge_code h m c h' m' :
  evacuateLarge h m c = Ok (h', m') -> same_code m m'.
Proof using Type.
  unfold evacuateLarge, getMark, setMark, unlinkLargeObject. intros He. inv_ok.
  case_match; inv_ok; [done|]. repeat (case_match; inv_ok; try done).
Qed.

Lemma evacuate_code h m p h' m' :
  evacuate mmap fuel h m p = Ok (h', m') -> same_code m m'.
Proof using Type.
  unfold evacuate. intros He. inv_ok. revert He. generalize fuel at 2 as n. intros n.
  match goal with |- evacuate_loop _ _ _ _ _ _ ?q = _ -> _ => generalize q end.
  assert (Hgen : forall n m q h' m', evacuate_loop mmap fuel n h m p q = Ok (h', m') -> same_code m m').
  { clear. induction n as [|n IH]; intros m q h' m'; cbn [evacuate_loop]; [done|].
    intros He. inv_ok. case_match; inv_ok; [done|]. case_match; inv_ok; [done|].
    case_match; inv_ok; try done; try (by eapply copy_code); try (by eapply evacuateLarge_code).
    by apply IH in He. }
  intros q He. by apply Hgen in He.
Qed.

Lemma evacuate_all_code h m ps h' m' :
  evacuate_all h m ps = Ok (h', m') -> same_code m m'.
Proof using Type.
  revert h m. induction ps as [|p ps IH]; intros h m; cbn [evacuate_all]; [by intros [= <- <-]|].
  intros He. inv_ok.
  match goal with H : evacuate _ _ _ _ _ = _ |- _ => apply evacuate_code in H as [E1 E2] end.
  apply IH in He as [? ?]. split; congruence.
Qed.

Lemma chunks_at_code m m' b i l : same_code m m' -> chunks_at m b i l -> chunks_at m' b i l.
Proof using Type.
  intros [_ E] Hc k c Hk. specialize (Hc k c Hk). destruct b; [|done].
  cbn in *. unfold load_ins_u2, load_ins in *. by rewrite E.
Qed.

Lemma scavenge_chunks_spec n h m base slots b i slot l vis :
  chunks_at m b i l -> frame_slots l slot = Ok vis -> (length l <= n)%nat ->
  Forall (fun s => s < slots) vis ->
  scavenge_chunks mmap fuel n h m base slots b i slot
  = evacuate_all h m (map (fun s => base + 8 * s) vis).
Proof using Type.
  revert h m i slot vis n. induction l as [|c l IH]; intros h m i slot vis n Hc Hf Hn Hv; [done|].
  destruct n as [|n]; cbn [length] in Hn; [lia|]. cbn [scavenge_chunks frame_slots] in *.
  pose proof (Hc 0%nat c eq_refl) as Hc0. rewrite Z.add_0_r in Hc0. rewrite Hc0. cbn [obind].
  destruct (frame_chunk 15 c slot) as [[vis1 rest] slot1] eqn:E.
  destruct (Z.eqb_spec rest 0) as [Hz|Hz].
  - injection Hf as <-. rewrite (scavenge_chunk_spec _ _ _ _ _ _ _ _ _ _ E Hv).
    destruct (evacuate_all h m _) as [[h' m']|] eqn:Ev; cbn [obind]; [|done].
    by rewrite (proj2 (Z.eqb_eq _ _)).
  - inv_ok. apply Forall_app in Hv as [Hv1 Hv2].
    rewrite (scavenge_chunk_spec _ _ _ _ _ _ _ _ _ _ E Hv1), map_app, evacuate_all_app.
    destruct (evacuate_all h m _) as [[h' m']|] eqn:Ev; cbn [obind]; [|done].
    rewrite (proj2 (Z.eqb_neq _ _)) by done. eapply IH; [|done|lia|done].
    apply evacuate_all_code in Ev. eapply chunks_at_code; [done|].
    intros k ch Hk. specialize (Hc (S k) ch Hk). by replace (i + 1 + Z.of_nat k)
      with (i + Z.of_nat (S k)) by lia.
Qed.

Lemma load_u2_list_chunks m a l :
  load_u2_list m a (length l) = Ok l -> chunks_at m (in_code a) 0 l.
Proof using Type.
  revert a. induction l as [|c l IH]; intros a Hl k x Hk; [done|].
  cbn [length load_u2_list] in Hl. inv_ok. destruct k as [|k]; cbn in Hk.
  - simplify_eq. cbn [read_chunk]. by rewrite Z.mul_0_r, Z.add_0_r.
  - specialize (IH _ H0 k x Hk). cbn [read_chunk] in *.
    by replace (a + 2 * (0 + Z.of_nat (S k))) with (a + 2 + 2 * (0 + Z.of_nat k)) by lia.
Qed.

(** A bitmap in either form that stands for the 32-bit pointer mask. *)
Definition mask_bitmap (m : memory) (b : bitmask) (mask : Z) : Prop :=
  match b with
  | in_code a => load_u2_list m a (bitmapSize mask) = Ok (encodeBitmask mask)
  | dummy_mask l => l = topOfStack_chunks mask
  end.

(** C31: Scavenging a frame evacuates its node and exactly the slots whose
    bit is set in the pointer mask, whether the mask was encoded by the
    loader or by the run-time system into the code, or is the 32-bit
    mask of the top frame. *)
Theorem scavengeFrame_mask h m base top b mask :
  0 <= mask < 2 ^ 32 -> (3 <= fuel)%nat ->
  Forall (fun s => s < (top - base) / 8) (set_bits mask) ->
  mask_bitmap m b mask ->
  scavengeFrame mmap fuel h m base top (Some b)
  = evacuate_all h m ((base - 8) :: map (fun s => base + 8 * s) (set_bits mask)).
Proof using Type.
  intros Hm Hf Hv Hb. unfold scavengeFrame. cbn [evacuate_all].
  destruct (evacuate mmap fuel h m (base - 8)) as [[h' m']|] eqn:Ev; cbn [obind]; [|done].
  apply evacuate_code in Ev. destruct b as [a|l]; cbn [mask_bitmap] in Hb.
  - rewrite <- length_encodeBitmask in Hb.
    eapply scavenge_chunks_spec; [by eapply chunks_at_code, load_u2_list_chunks| | |done].
    + rewrite <- (app_nil_r (encodeBitmask mask)). by apply encodeBitmask_frame.
    + rewrite length_encodeBitmask. pose proof (bitmapSize_le mask). lia.
  - subst l. eapply scavenge_chunks_spec; [|by apply topOfStack_frame|done|done].
    intros k c Hk. cbn [read_chunk]. rewrite Z.add_0_l, Nat2Z.id. by rewrite Hk.
Qed.
End gc.

(** ** Large objects *)

(** A large object, such as a byte array, cannot be evacuated: the
    collector asks for its block before it looks at its type, and that
    question is an assertion that the address is in a region of small
    objects. *)
Theorem evacuate_large_fails mmap fuel h m p q info rd :
  (0 < fuel)%nat -> load m p = Ok q -> q <> 0 -> load m q = Ok info ->
  isForwardingPointer info = false ->
  regions h !! regionFromPointer q = Some rd -> isLargeObjectRegion rd = true ->
  evacuate mmap fuel h m p = Err AssertFailed.
Proof.
  intros Hf Hp Hq Hi Hfw Hr Hl. unfold evacuate. rewrite Hp. cbn [obind].
  rewrite (proj2 (Z.eqb_neq _ _)) by done. cbn [negb]. destruct fuel as [|n]; [lia|].
  cbn [evacuate_loop]. unfold closure_info_addr. rewrite Hi. cbn [obind]. rewrite Hfw.
  unfold block_contents, blockFromPointer, region_at. rewrite Hr. cbn [of_option obind].
  unfold isLargeObjectRegion in Hl. by destruct (isSmallObjectRegion rd).
Qed.

(** [allocLarge] puts a new object in front of the list of large
    objects without setting the back pointer of the previous first one;
    evacuating that one therefore resets the head of the list to its
    successor, and the new object is no longer in the list. *)
Theorem allocLarge_forgotten mmap h m o next n h1 m1 c h2 m2 :
  largeObjects_ h = o -> load m (o + LO_prev) = Ok 0 -> load m (o + LO_next) = Ok next ->
  getMark m o = Ok false ->
  allocLarge mmap h m n = Ok (h1, m1, c) ->
  sizeof_LargeObject <= Z.abs (largeObjectFromClosure c - o) ->
  evacuateLarge h1 m1 (closureFromLargeObject o) = Ok (h2, m2) ->
  largeObjects_ h1 = largeObjectFromClosure c /\ largeObjects_ h2 = next.
Proof.
  intros Ho Hprev Hnext Hmark Hal Hap Hev.
  unfold allocLarge in Hal. case_match; [done|].
  apply obind_ok in Hal as (got & _ & Hal). apply obind_ok in Hal as ([h0 obj] & _ & Hal).
  inv_ok. unfold closureFromLargeObject, largeObjectFromClosure in *.
  replace (obj + LO_header - LO_header) with obj in * by lia.
  split; [done|]. unfold evacuateLarge, largeObjectFromClosure in Hev.
  replace (largeObjects_ h + LO_header - LO_header) with (largeObjects_ h) in Hev by lia.
  set (o := largeObjects_ h) in *. unfold sizeof_LargeObject in Hap.
  set (m1 := store (store (store (store m _ _) _ _) _ _) _ _) in Hev.
  assert (Hsame : forall k, 0 <= k < 32 -> load m1 (o + k) = load m (o + k)).
  { intros k Hk. unfold m1, LO_prev, LO_next, LO_flags, LO_payloadSize in *.
    by rewrite !load_store_ne by lia. }
  unfold getMark, setMark in *. rewrite Hsame in Hev by done.
  destruct (load m (o + LO_flags)) as [f|]; [|done]. cbn [obind] in *.
  injection Hmark as Hmark. rewrite Hmark in Hev.
  unfold unlinkLargeObject, LO_prev, LO_next, LO_flags in *.
  rewrite !(load_store_ne _ (o + 16)), !Hsame in Hev by lia.
  rewrite Hprev, Hnext in Hev. cbn [obind Z.eqb negb] in Hev.
  rewrite ?(load_store_ne _ (o + 16)), ?Hsame, ?Hnext in Hev by lia. cbn [obind] in Hev.
  destruct (negb (next =? 0)); rewrite ?(load_store_ne _ (o + 16)), ?Hsame, ?Hprev in Hev by lia;
    by inv_ok.
Qed.

