(* ===== verification/Sanity.v ===== *)
(** * The heap sanity check

    [sanityCheckClosure] is a depth-first search.  When it succeeds, the
    set of closures it has seen is closed under the pointers of its
    members, so everything reachable is well-formed. *)

From S2P Require Import Prelude Words Bytecode Bitmaps Objects HeapInterface MemoryManager GC.

(** ** The sanity check *)

(** A pointer inside a closure, as the sanity check reads them. *)
Inductive points_to (m : memory) (c c' : Z) : Prop :=
| pt_field info itbl i :
    load m c = Ok info -> info_at m info = Ok itbl ->
    it_type itbl = CONSTR \/ it_type itbl = THUNK \/ it_type itbl = CAF \/ it_type itbl = FUN ->
    0 <= i < it_size itbl -> Z.testbit (it_bitmap itbl) i = true ->
    load m (c + 8 + 8 * i) = Ok c' -> points_to m c c'
| pt_ind info itbl :
    load m c = Ok info -> info_at m info = Ok itbl -> it_type itbl = IND ->
    payload m c 0 = Ok c' -> points_to m c c'
| pt_fun info itbl :
    load m c = Ok info -> info_at m info = Ok itbl -> it_type itbl = PAP ->
    pap_fun m c = Ok c' -> points_to m c c'
| pt_arg info itbl bitmap nargs i :
    load m c = Ok info -> info_at m info = Ok itbl -> it_type itbl = PAP ->
    pap_pointerMask m c = Ok bitmap -> pap_nargs m c = Ok nargs -> 0 <= i < nargs ->
    Z.testbit bitmap i = true -> load m (c + PAP_PAYLOAD_OFFSET + 8 * i) = Ok c' ->
    points_to m c c'.

Lemma points_to_inv m c c' info itbl :
  load m c = Ok info -> info_at m info = Ok itbl -> points_to m c c' ->
  match it_type itbl with
  | CONSTR | THUNK | CAF | FUN =>
      exists i, 0 <= i < it_size itbl /\ Z.testbit (it_bitmap itbl) i = true
        /\ load m (c + 8 + 8 * i) = Ok c'
  | IND => payload m c 0 = Ok c'
  | PAP => pap_fun m c = Ok c'
      \/ exists bitmap nargs i, pap_pointerMask m c = Ok bitmap /\ pap_nargs m c = Ok nargs
           /\ 0 <= i < nargs /\ Z.testbit bitmap i = true
           /\ load m (c + PAP_PAYLOAD_OFFSET + 8 * i) = Ok c'
  | _ => False
  end.
Proof.
  intros Hl Hi Hp.
  destruct Hp as [? ? i Hl' Hi' Hty|? ? Hl' Hi' Hty|? ? Hl' Hi' Hty|? ? bm n i Hl' Hi' Hty];
    rewrite Hl in Hl'; injection Hl' as <-; rewrite Hi in Hi'; injection Hi' as <-.
  - destruct Hty as [->|[->|[->| ->]]]; eauto.
  - by rewrite Hty.
  - rewrite Hty. by left.
  - rewrite Hty. right. eauto 10.
Qed.

Definition closure_ok (h : MemoryManager) (m : memory) (c : Z) : Prop :=
  looksLikeClosure h m c = Ok true
  /\ exists info itbl, load m c = Ok info /\ isForwardingPointer info = false
     /\ info_at m info = Ok itbl
     /\ it_type itbl <> INVALID_OBJECT /\ it_type itbl <> LARGE
     /\ it_type itbl <> STATIC_IND /\ it_type itbl <> BLACKHOLE.

(** [seen'] extends [seen] by well-formed closures whose pointers stay
    inside [seen']. *)
Definition extends (h : MemoryManager) (m : memory) (seen seen' : gset Z) : Prop :=
  seen ⊆ seen'
  /\ forall c, c ∈ seen' -> c ∉ seen -> closure_ok h m c
       /\ forall c', points_to m c c' -> c' ∈ seen'.

Lemma extends_refl h m seen : extends h m seen seen.
Proof. split; [done|]. intros c Hc Hn. done. Qed.

Lemma extends_trans h m s1 s2 s3 : extends h m s1 s2 -> extends h m s2 s3 -> extends h m s1 s3.
Proof.
  intros [Hs1 Hc1] [Hs2 Hc2]. split; [by etrans|]. intros c Hc Hn.
  destruct (decide (c ∈ s2)) as [Hin|Hin]; [|by apply Hc2].
  destruct (Hc1 c Hin Hn) as [Hok Hpt]. split; [done|]. intros c' Hp. apply Hs2. auto.
Qed.

Section fields.
Context (h : MemoryManager) (m : memory) (chk : gset Z -> Z -> outcome (bool * gset Z)).
Context (Hchk : forall s c s', chk s c = Ok (true, s') -> extends h m s s' /\ c ∈ s').

Lemma sanity_fields_spec n bitmap a s s' :
  sanity_fields chk m n bitmap a s = Ok (true, s') ->
  extends h m s s'
  /\ forall i c, 0 <= i < Z.of_nat n -> Z.testbit bitmap i = true ->
       load m (a + 8 * i) = Ok c -> c ∈ s'.
Proof using Hchk.
  revert bitmap a s. induction n as [|n IH]; intros bitmap a s; cbn [sanity_fields].
  { intros [= <-]. split; [apply extends_refl|lia]. }
  destruct (Z.eqb_spec bitmap 0) as [->|_].
  { intros [= <-]. split; [apply extends_refl|]. intros i c _ Hb. by rewrite Z.testbit_0_l in Hb. }
  rewrite land_1_testbit, negb_involutive. intros Hs. apply obind_ok in Hs as ([ok s1] & Hfst & Hs).
  destruct ok; [|done]. apply IH in Hs as [Hext Hall].
  assert (H1 : extends h m s s1 /\ (Z.testbit bitmap 0 = true ->
                 forall c, load m a = Ok c -> c ∈ s1)).
  { destruct (Z.testbit bitmap 0); [|injection Hfst as <-; split; [apply extends_refl|done]].
    inv_ok. apply Hchk in Hfst as [? ?]. split; [done|]. intros _ c Hc. congruence. }
  destruct H1 as [Hext1 Hfirst]. split; [by eapply extends_trans|].
  intros i c Hi Hb Hl. destruct (Z.eq_dec i 0) as [->|].
  - rewrite Z.mul_0_r, Z.add_0_r in Hl. apply (proj1 Hext). by apply Hfirst.
  - apply (Hall (i - 1)); [lia| |by replace (a + 8 + 8 * (i - 1)) with (a + 8 * i) by lia].
    rewrite Z.shiftr_spec by lia. by replace (i - 1 + 1) with i by lia.
Qed.
End fields.

(** Adding a node whose pointers the search has followed. *)
Lemma extends_node h m s s' c :
  extends h m ({[c]} ∪ s) s' -> (forall c', points_to m c c' -> c' ∈ s') -> closure_ok h m c ->
  extends h m s s' /\ c ∈ s'.
Proof.
  intros [Hsub Hrest] Hpt Hok. split; [|by apply Hsub, elem_of_union_l, elem_of_singleton].
  split; [intros x Hx; by apply Hsub, elem_of_union_r|]. intros x Hx Hns.
  destruct (Z.eq_dec x c) as [->|]; [done|]. apply Hrest; [done|].
  by intros [->%elem_of_singleton|]%elem_of_union.
Qed.

Lemma sanityCheckClosure_extends n h m s c s' :
  sanityCheckClosure n h m s c = Ok (true, s') -> extends h m s s' /\ c ∈ s'.
Proof.
  revert s c s'. induction n as [|n IH]; intros s c s'; cbn [sanityCheckClosure]; [done|].
  case_bool_decide as Hin; [intros [= <-]; split; [apply extends_refl|done]|].
  intros Hs. apply obind_ok in Hs as (looks & Hlooks & Hs). destruct looks; [|done].
  cbn [negb] in Hs. apply obind_ok in Hs as (info & Hinfo & Hs).
  unfold closure_info_addr in Hinfo.
  destruct (isForwardingPointer info) eqn:Hfw; [done|].
  apply obind_ok in Hs as (itbl & Hitbl & Hs).
  assert (Hpt := fun c' => points_to_inv m c c' info itbl Hinfo Hitbl).
  assert (Hnode : extends h m ({[c]} ∪ s) s' ->
     (forall c', points_to m c c' -> c' ∈ s') ->
     it_type itbl <> INVALID_OBJECT /\ it_type itbl <> LARGE
       /\ it_type itbl <> STATIC_IND /\ it_type itbl <> BLACKHOLE ->
     extends h m s s' /\ c ∈ s').
  { intros Hext Hin' Hty. eapply extends_node; [done|done|]. split; [done|]. eauto 10. }
  assert (Hfields : extends h m ({[c]} ∪ s) s' -> forall size bitmap a,
     (forall i c', 0 <= i < Z.of_nat (Z.to_nat size) -> Z.testbit bitmap i = true ->
       load m (a + 8 * i) = Ok c' -> c' ∈ s') -> forall c' i,
     0 <= i < size -> Z.testbit bitmap i = true -> load m (a + 8 * i) = Ok c' -> c' ∈ s').
  { intros _ size bitmap a Hall c' i Hi. apply Hall. lia. }
  destruct (it_type itbl) eqn:Ety; try discriminate Hs.
  1,2,3,5: apply obind_ok in Hs as (lim & _ & Hs); destruct (negb _); [discriminate Hs|];
    apply (sanity_fields_spec h m _ IH) in Hs as [Hext Hall]; apply Hnode; [done| |done];
    intros c' (i & Hi & Hb & Hl)%Hpt; by eapply Hfields.
  - apply obind_ok in Hs as (next & Hnx & Hs). apply IH in Hs as [Hext Hin'].
    apply Hnode; [done| |done]. intros c' Hp%Hpt. congruence.
  - apply obind_ok in Hs as (bitmap & Hb & Hs). apply obind_ok in Hs as (size & Hsz & Hs).
    apply obind_ok in Hs as (fn & Hfn & Hs). apply obind_ok in Hs as ([ok s1] & Hs1 & Hs).
    destruct ok; [|discriminate Hs]. cbn [negb] in Hs. apply IH in Hs1 as [Hext1 Hfn1].
    apply obind_ok in Hs as (lim & _ & Hs). destruct (negb _); [discriminate Hs|].
    apply (sanity_fields_spec h m _ IH) in Hs as [Hext Hall].
    apply Hnode; [by eapply extends_trans| |done].
    intros c' [Hp|(bm & n' & i & Hbm & Hn & Hi & Ht & Hl)]%Hpt.
    + apply (proj1 Hext). congruence.
    + rewrite Hb in Hbm. injection Hbm as <-. rewrite Hsz in Hn. injection Hn as <-.
      eapply Hfields; [by eapply extends_trans|done..].
  - injection Hs as <-. apply Hnode; [apply extends_refl| |done]. by intros c' ?%Hpt.
  - injection Hs as <-. apply Hnode; [apply extends_refl| |done]. by intros c' ?%Hpt.
Qed.

(** C33: When the sanity check of a closure succeeds, every closure that
    can be reached from it looks like a closure, has a proper info table
    of a type the collector knows and is not a forwarding pointer. *)
Theorem sanityCheckClosure_reachable n h m c seen c' :
  sanityCheckClosure n h m ∅ c = Ok (true, seen) -> rtc (points_to m) c c' ->
  c' ∈ seen /\ closure_ok h m c'.
Proof.
  intros Hs Hr. apply sanityCheckClosure_extends in Hs as [[_ Hall] Hin].
  assert (c' ∈ seen) as Hin'.
  { induction Hr as [c|c x c' Hp _ IH]; [done|]. apply IH. by apply (Hall c Hin (not_elem_of_empty c)). }
  split; [done|]. by apply Hall; [|apply not_elem_of_empty].
Qed.
