(* ===== verification/HeapExamples.v ===== *)
(** * Concrete heaps

    An operating system whose [mmap] grants any hint that is free, the
    heap the constructor builds over it, and small object graphs on
    which the theorems about allocation and collection are applied. *)

From S2P Require Import Prelude Words Bytecode Bitmaps Objects HeapInterface WordCopy.
From S2P Require Import MemoryManager HeapInv GC GCProofs Sanity.

(** ** An operating system *)

(** Everything below 4 GB belongs to others. *)
Definition low (a : Z) : Prop := a < kMMapRegionStart.

Definition os_mmap (mapped : gset Z) (hint size : Z) : Z :=
  if (kMMapRegionStart <=? hint) && (hint + size <? 2 ^ 47)
     && forallb (fun r => (hint + size <=? r) || (r + kRegionSize <=? hint)) (elements mapped)
  then hint else MAP_FAILED.

Lemma os_mmap_ok : mmap_ok low os_mmap.
Proof.
  intros mapped hint size Hs p Hp. subst p. unfold os_mmap in *.
  destruct (_ && _) eqn:E; [|done]. apply andb_true_iff in E as [[E1 E2]%andb_true_iff E3].
  apply Z.leb_le in E1. apply Z.ltb_lt in E2. unfold kMMapRegionStart, low in *.
  split_and!; [lia|lia| |intros a Ha; unfold kMMapRegionStart in Ha; lia].
  intros r Hr. rewrite forallb_forall in E3.
  specialize (E3 r (proj1 (list_elem_of_In _ _) (proj2 (elem_of_elements _ _) Hr))).
  apply orb_true_iff in E3 as [E3|E3]; apply Z.leb_le in E3; lia.
Qed.

Definition get_ok {A} (d : A) (o : outcome A) : A := match o with Ok a => a | Err _ => d end.

(** ** The first heap *)
Definition heap0 : MemoryManager := get_ok initial_mm (new_MemoryManager os_mmap).

(** Conversion unfolds the concrete heaps last. *)
Strategy 1000 [heap0].

Lemma heap0_eq : new_MemoryManager os_mmap = Ok heap0.
Proof. vm_compute. reflexivity. Qed.

Lemma heap0_inv : exists used, mm_inv low heap0 used /\ vars_ok heap0 used.
Proof. exact (ok_or_exit_ok _ _ _ (new_MemoryManager_inv low os_mmap os_mmap_ok) heap0_eq). Qed.

Lemma alloc_keeps h v n h' p :
  (exists used, mm_inv low h used /\ vars_ok h used) -> 0 <= n <= min_block -> n mod 8 = 0 ->
  allocInto os_mmap 2 h v n = Ok (h', p) -> exists used, mm_inv low h' used /\ vars_ok h' used.
Proof.
  intros (used & Hi & Hv) Hn Hal Heq.
  pose proof (allocInto_sound low os_mmap os_mmap_ok 2 h used v n Hi Hv Hn (le_n 2) (fun _ => Hal))
    as Ha.
  apply (ok_or_exit_ok _ _ _ Ha) in Heq as [(u & ? & ? & _) _ _ _ _]. by exists u.
Qed.

(** One object of three words. *)
Definition alloc1 : outcome (MemoryManager * Z) := allocInto os_mmap 2 heap0 V_closures 24.
Definition heap1 : MemoryManager := fst (get_ok (initial_mm, 0) alloc1).
Definition obj : Z := snd (get_ok (initial_mm, 0) alloc1).

Strategy 1000 [heap1 obj].

Lemma heap1_eq : allocInto os_mmap 2 heap0 V_closures 24 = Ok (heap1, obj).
Proof. vm_compute. reflexivity. Qed.

Lemma heap1_inv : exists used, mm_inv low heap1 used /\ vars_ok heap1 used.
Proof.
  assert (H24 : 0 <= 24 <= min_block) by (split; vm_compute; discriminate).
  exact (alloc_keeps _ _ _ _ _ heap0_inv H24 eq_refl heap1_eq).
Qed.

(** The slots are at [0x800000]; the info table is that of a
    constructor with a pointer and a number. *)
Definition slot_a : Z := 0x800000.
Definition slot_b : Z := 0x800008.
Definition con_info : InfoTable := mkInfoTable CONSTR 2 1 1 "sample_con" None.
Definition info_addr : Z := b_start (default (mkBlock 0 0 0 0 kUninitialized false)
                                      (blocks heap1 !! info_tables_ heap1)).
Definition graph : memory :=
  mkMemory (list_to_map [(slot_a, obj); (slot_b, obj); (obj, info_addr); (obj + 8, obj);
                         (obj + 16, 7); (slot_a - 8, obj)])
    (list_to_map [(info_addr, con_info)]) ∅.

Strategy 1000 [info_addr graph].

Definition no_block : Block := mkBlock 0 0 0 0 kUninitialized false.
Definition block1 : Block := default no_block (blocks heap1 !! closures_ heap1).
Strategy 1000 [block1].
Lemma block1_eq : blocks heap1 !! closures_ heap1 = Some block1.
Proof. vm_compute. reflexivity. Qed.

Lemma obj_object used :
  vars_ok heap1 used -> object_at heap1 used graph obj info_addr [obj; 7].
Proof.
  intros Hv. constructor.
  - repeat (apply words_at_cons; split; [vm_compute; reflexivity|]). apply words_at_nil.
  - destruct (Hv V_closures) as (Hin & _). exists (closures_ heap1), block1.
    split_and!; [exact Hin|exact block1_eq|vm_compute; reflexivity|vm_compute; discriminate..].
  - vm_compute. discriminate.
Qed.

Lemma low_stable h used a : is_aligned a 8 = true -> a < kMMapRegionStart -> stable low h used a.
Proof. intros Ha Hl. split; [done|by left]. Qed.

(** ** Witnesses *)

Ltac evaluate := vm_compute; first [reflexivity | discriminate].

Lemma evacuate_copies_witness :
  exists used, ok_or_exit (fun '(h', m') => exists to w,
      copied low heap1 used graph slot_a obj info_addr [obj; 7] h' m' to
      /\ load m' obj = Ok w /\ isForwardingPointer w = true /\ getForwardingPointer w = to)
    (evacuate os_mmap 2 heap1 graph slot_a).
Proof.
  destruct heap1_inv as (used & Hi & Hv). exists used.
  apply (evacuate_copies low os_mmap os_mmap_ok 2 heap1 used graph slot_a obj 0 obj info_addr
           con_info [obj; 7]).
  - lia.
  - lia.
  - evaluate.
  - exact Hi.
  - exact Hv.
  - by apply low_stable.
  - evaluate.
  - exact (chases_here _ _ _ _).
  - exact (obj_object used Hv).
  - evaluate.
  - evaluate.
  - evaluate.
  - intros [H _]. revert H. vm_compute. by intros H; apply H.
Defined.

Lemma evacuate_shares_witness :
  exists used, ok_or_exit (fun '(h', m') => exists to,
      load m' slot_a = Ok to /\ load m' slot_b = Ok to
      /\ allocated low heap1 used V_closures 24 h' to)
    (let! '(h, m) := evacuate os_mmap 2 heap1 graph slot_a in evacuate os_mmap 2 h m slot_b).
Proof.
  destruct heap1_inv as (used & Hi & Hv). exists used.
  apply (evacuate_shares low os_mmap os_mmap_ok 2 heap1 used graph slot_a slot_b obj info_addr
           con_info [obj; 7]).
  - lia.
  - evaluate.
  - evaluate.
  - exact Hi.
  - exact Hv.
  - by apply low_stable.
  - by apply low_stable.
  - evaluate.
  - evaluate.
  - exact (obj_object used Hv).
  - evaluate.
  - evaluate.
  - evaluate.
  - intros [H _]. revert H. vm_compute. by intros H; apply H.
  - intros [H _]. revert H. vm_compute. by intros H; apply H.
Defined.

Lemma allocations_disjoint_witness :
  ok_or_exit (fun '(_, ps) => map snd ps = [24; 100; 48; 31456; 8] /\ ForallOrdPairs apart_ranges ps)
    (let! h := new_MemoryManager os_mmap in
     alloc_all os_mmap 2 h [(V_closures, 24); (V_strings, 100); (V_info_tables, 48);
                            (V_closures, 31456); (V_closures, 8)]).
Proof.
  apply (allocations_disjoint low os_mmap os_mmap_ok 2 [(V_closures, 24); (V_strings, 100);
    (V_info_tables, 48); (V_closures, 31456); (V_closures, 8)]); [lia|].
  repeat (apply Forall_cons; split;
    [split; [split; vm_compute; discriminate|
             intros Hk; first [discriminate Hk | vm_compute; reflexivity]]|]).
  by apply Forall_nil.
Defined.

Lemma bumpAllocatorFullNoGC_spec_witness :
  exists used, ok_or_exit (fun '(h', r) => match r with
      | None => nextGC_ heap1 = 1 /\ nextGC_ h' = 1 /\ mm_inv low h' used /\ vars_ok h' used
      | Some (hp, lim) => nextGC_ h' = nextGC_ heap1 - 1 /\ nextGC_ h' <> 0
          /\ bump_bounds h' hp lim
          /\ blocks h' !! closures_ heap1 = Some (with_free block1 (obj + 48))
          /\ exists b, (b ∉ used) /\ closures_ h' = b /\ mm_inv low h' (b :: used)
               /\ vars_ok h' (b :: used)
      end)
    (bumpAllocatorFullNoGC os_mmap heap1 (obj + 48) (b_end block1)).
Proof.
  destruct heap1_inv as (used & Hi & Hv). exists used.
  apply (bumpAllocatorFullNoGC_spec low os_mmap os_mmap_ok heap1 used block1 (obj + 48) (b_end block1)).
  - exact Hi.
  - exact Hv.
  - exact block1_eq.
  - split; [|split]; [split; vm_compute; discriminate|vm_compute; reflexivity|by right].
  - split; vm_compute; reflexivity.
Defined.

Lemma allocInto_too_large_witness : is_ok (allocInto os_mmap 7 heap1 V_strings 40000) = false.
Proof.
  destruct (allocInto os_mmap 7 heap1 V_strings 40000) as [[h' p]|] eqn:E; [exfalso|reflexivity].
  destruct heap1_inv as (used & Hi & Hv).
  apply (allocInto_too_large low os_mmap os_mmap_ok 7 heap1 used V_strings 40000 h' p);
    [exact Hi|exact Hv|vm_compute; reflexivity|exact E].
Defined.

(** A region with all its blocks handed out, and a full block of info
    tables. *)
Fixpoint fill (n : nat) (h : MemoryManager) : MemoryManager :=
  match n with
  | O => h
  | S n' => fill n' (get_ok h (blockFull os_mmap h V_closures))
  end.
Definition heap_full : MemoryManager :=
  let h := get_ok heap0 (beginAllocInfoTable (fill 27 heap0)) in
  fst (get_ok (h, 0) (allocInfoTable os_mmap 2 h 4096)).
Strategy 1000 [heap_full].
Definition protected_full : MemoryManager :=
  set_protection heap_full ({[info_tables_ heap_full]} ∪ readonly heap_full)
    (beginAllocInfoTableLevel_ heap_full).
Definition heap_next : MemoryManager :=
  get_ok heap_full (blockFull os_mmap protected_full V_info_tables).
Strategy 1000 [protected_full heap_next].

Lemma allocInfoTable_unaligned_witness : allocInfoTable os_mmap 2 heap_full 5 = Err AssertFailed.
Proof.
  apply (allocInfoTable_unaligned os_mmap 0 heap_full 5
           (default no_block (blocks heap_full !! info_tables_ heap_full)) heap_next
           (default no_block (blocks heap_next !! info_tables_ heap_next)));
    vm_compute; reflexivity.
Defined.

(** *** Scavenging *)

Lemma scavenge_object_fields_witness :
  scavenge_object os_mmap 2 heap1 graph obj
  = (let! '(h, m) := evacuate_all os_mmap 2 heap1 graph (map (fun i => obj + 8 + 8 * i) [0]) in
     Ok (h, m, obj + 24)).
Proof.
  apply (scavenge_object_fields os_mmap 2 heap1 graph obj info_addr con_info).
  - evaluate.
  - evaluate.
  - evaluate.
  - by left.
  - by split.
  - evaluate.
Defined.

(** The frame at [slot_a] has the mask 3: both slots are pointers. *)
Definition code_mask : Z := 0x500000.
Definition frame_memory : memory := store_u2_list graph code_mask (encodeBitmask 3).

Lemma scavengeFrame_mask_witness :
  scavengeFrame os_mmap 3 heap1 frame_memory slot_a (slot_a + 16) (Some (in_code code_mask))
  = evacuate_all os_mmap 3 heap1 frame_memory [slot_a - 8; slot_a; slot_b]
  /\ is_ok (evacuate_all os_mmap 3 heap1 frame_memory [slot_a - 8; slot_a; slot_b]) = true.
Proof.
  split; [|vm_compute; reflexivity].
  apply (scavengeFrame_mask os_mmap 3 heap1 frame_memory slot_a (slot_a + 16) (in_code code_mask) 3).
  - by split.
  - lia.
  - repeat (apply Forall_cons; split; [vm_compute; reflexivity|]). by apply Forall_nil.
  - evaluate.
Defined.

Lemma sanityCheckClosure_reachable_witness : exists seen,
  sanityCheckClosure 2 heap1 graph ∅ obj = Ok (true, seen) /\ obj ∈ seen
  /\ closure_ok heap1 graph obj.
Proof.
  eexists. split; [vm_compute; reflexivity|].
  apply (sanityCheckClosure_reachable 2 heap1 graph obj _ obj); [vm_compute; reflexivity|].
  apply rtc_refl.
Defined.

(** *** Large objects *)

Definition large_alloc (n : Z) (hm : MemoryManager * memory) : MemoryManager * memory * Z :=
  get_ok (hm, 0) (allocLarge os_mmap hm.1 hm.2 n).
Definition heap_l1 : MemoryManager * memory * Z := large_alloc 64 (heap1, graph).
Definition heap_l2 : MemoryManager * memory * Z := large_alloc 64 heap_l1.1.
Definition older : Z := largeObjects_ heap_l1.1.1.
Strategy 1000 [heap_l1 heap_l2 older].

(** The slot holds the older object, whose header is a [LARGE] info
    table. *)
Definition large_memory : memory :=
  store (store heap_l1.1.2 slot_a (older + 32)) (older + 32) info_addr.

Lemma evacuate_large_fails_witness :
  evacuate os_mmap 2 heap_l1.1.1 large_memory slot_a = Err AssertFailed.
Proof.
  apply (evacuate_large_fails os_mmap 2 heap_l1.1.1 large_memory slot_a (older + 32) info_addr
           (default (mkRegion 0 (SmallObjectRegion 0))
              (regions heap_l1.1.1 !! regionFromPointer (older + 32)))).
  - lia.
  - evaluate.
  - evaluate.
  - evaluate.
  - evaluate.
  - evaluate.
  - evaluate.
Defined.

Lemma allocLarge_forgotten_witness : exists h2 m2,
  evacuateLarge heap_l2.1.1 heap_l2.1.2 (older + 32) = Ok (h2, m2)
  /\ largeObjects_ heap_l2.1.1 = heap_l2.2 - 32 /\ largeObjects_ h2 = 0.
Proof.
  destruct (evacuateLarge heap_l2.1.1 heap_l2.1.2 (older + 32)) as [[h2 m2]|] eqn:E;
    [|exfalso; revert E; vm_compute; discriminate].
  exists h2, m2. split; [reflexivity|].
  apply (allocLarge_forgotten os_mmap heap_l1.1.1 heap_l1.1.2 older 0 64 heap_l2.1.1 heap_l2.1.2
           heap_l2.2 h2 m2).
  - evaluate.
  - evaluate.
  - evaluate.
  - evaluate.
  - evaluate.
  - evaluate.
  - exact E.
Defined.

(** A region filled to the last byte of its mapping. *)
Definition heap_l3 : MemoryManager * memory * Z := large_alloc 1048496 (heap1, graph).
Strategy 1000 [heap_l3].


(** *** A whole collection

    The two slots and the frame node hold the object, which points to
    itself; a second, unreachable object follows it.  The collection,
    with the sanity checks on, keeps one copy and the cycle, and the old
    block becomes free. *)
Definition gc_memory : memory :=
  store (store graph (slot_a - 24) 0) (slot_a - 16) 0.
Definition gc_heap : MemoryManager :=
  setTopOfStackMask (fst (get_ok (heap1, 0) (allocInto os_mmap 2 heap1 V_closures 16))) 3.
Definition gc_thread : Thread := mkThread 0x500000 64 slot_a (slot_a + 16) (slot_a - 24).
Definition gc_result : outcome (MemoryManager * memory) :=
  performGC os_mmap 10 true gc_heap gc_memory gc_thread 0.

Example performGC_keeps_cycle :
  match gc_result with
  | Ok (h, m) =>
      let to := match load m slot_a with Ok v => v | Err _ => 0 end in
      to <> obj /\ load m slot_b = Ok to /\ load m (slot_a - 8) = Ok to
      /\ load m to = Ok info_addr /\ load m (to + 8) = Ok to /\ load m (to + 16) = Ok 7
      /\ load m obj = Ok 0 /\ free_ h = closures_ gc_heap
      /\ option_map (fun d => b_free d - b_start d) (blocks h !! closures_ h) = Some 24
  | Err _ => False
  end.
Proof. vm_compute. split_and!; first [reflexivity | discriminate]. Qed.
