(* ===== verification/IR.v ===== *)
(** * The intermediate representation of traces ([ir.hh], [ir.cc])

    Instructions live in one buffer: the references from [REF_BIAS] up
    are instructions, those below are literals.  The file models the
    buffer with its literals, chains and snapshots, the abstract stack
    and the abstract heap; the fold engine is in [Fold.v].  The address
    [stg_IND_info] that [reset] stores as a literal is a parameter. *)

From S2P Require Import Prelude Words Objects.

(** ** Opcodes: the table [IRDEF] *)
Inductive Opcode :=
| kLT | kGE | kLE | kGT | kEQ | kNE | kLTU | kGEU | kLEU | kGTU | kEQRET | kEQINFO
| kNEINFO | kHEAPCHK | kNOP | kBASE | kFRAME | kRET | kLOOP | kPHI | kRENAME | kKINT
| kKWORD | kKWORDHI | kKBASEO | kBNOT | kBAND | kBOR | kBXOR | kBSHL | kBSHR | kBSAR
| kBROL | kBROR | kADD | kSUB | kMUL | kDIV | kREM | kNEG | kFREF | kFLOAD | kSLOAD
| kILOAD | kRLOAD | kPLOAD | kNEW | kFSTORE | kUPDATE | kSAVE | k_MAX.

#[export] Instance Opcode_eq_dec : EqDecision Opcode.
Proof. solve_decision. Defined.

Definition Opcode_num (op : Opcode) : Z :=
  match op with
  | kLT => 0 | kGE => 1 | kLE => 2 | kGT => 3 | kEQ => 4 | kNE => 5 | kLTU => 6 | kGEU => 7
  | kLEU => 8 | kGTU => 9 | kEQRET => 10 | kEQINFO => 11 | kNEINFO => 12 | kHEAPCHK => 13
  | kNOP => 14 | kBASE => 15 | kFRAME => 16 | kRET => 17 | kLOOP => 18 | kPHI => 19
  | kRENAME => 20 | kKINT => 21 | kKWORD => 22 | kKWORDHI => 23 | kKBASEO => 24
  | kBNOT => 25 | kBAND => 26 | kBOR => 27 | kBXOR => 28 | kBSHL => 29 | kBSHR => 30
  | kBSAR => 31 | kBROL => 32 | kBROR => 33 | kADD => 34 | kSUB => 35 | kMUL => 36
  | kDIV => 37 | kREM => 38 | kNEG => 39 | kFREF => 40 | kFLOAD => 41 | kSLOAD => 42
  | kILOAD => 43 | kRLOAD => 44 | kPLOAD => 45 | kNEW => 46 | kFSTORE => 47 | kUPDATE => 48
  | kSAVE => 49 | k_MAX => 50
  end.

(** Operand kinds and the flags column. *)
Definition IRMref : Z := 0.
Definition IRMlit : Z := 1.
Definition IRMcst : Z := 2.
Definition IRMnone : Z := 3.
Definition IRM_N : Z := 0x00.
Definition IRM_R : Z := IRM_N.
Definition IRM_C : Z := 0x10.
Definition IRM_A : Z := 0x20.
Definition IRM_L : Z := 0x40.
Definition IRM_S : Z := 0x60.
Definition IRM_G : Z := 0x80.

Definition irmode (flags left right : Z) : Z :=
  Z.lor (Z.lor left (Z.shiftl right 2)) flags.

(** The table [mode_] *)
Definition mode (op : Opcode) : Z :=
  match op with
  | kLT | kGE | kLE | kGT | kEQ | kNE | kLTU | kGEU | kLEU | kGTU | kEQRET | kEQINFO
  | kNEINFO => irmode IRM_G IRMref IRMref
  | kHEAPCHK => irmode IRM_S IRMlit IRMnone
  | kNOP | kLOOP => irmode IRM_N IRMnone IRMnone
  | kBASE => irmode IRM_N IRMlit IRMlit
  | kFRAME | kRET | kSAVE => irmode IRM_S IRMlit IRMlit
  | kPHI | kBSHL | kBSHR | kBSAR | kBROL | kBROR | kSUB | kDIV | kREM => irmode IRM_N IRMref IRMref
  | kRENAME => irmode IRM_S IRMref IRMlit
  | kKINT | kKWORD | kKWORDHI | kKBASEO => irmode IRM_N IRMcst IRMnone
  | kBNOT | kNEG => irmode IRM_N IRMref IRMnone
  | kBAND | kBOR | kBXOR | kADD | kMUL => irmode IRM_C IRMref IRMref
  | kFREF => irmode IRM_R IRMref IRMlit
  | kFLOAD | kILOAD => irmode IRM_L IRMref IRMnone
  | kSLOAD => irmode IRM_L IRMlit IRMlit
  | kRLOAD => irmode IRM_L IRMnone IRMnone
  | kPLOAD => irmode IRM_L IRMref IRMref
  | kNEW => irmode IRM_A IRMref IRMlit
  | kFSTORE | kUPDATE => irmode IRM_S IRMref IRMref
  | k_MAX => 0
  end.

(** ** Types: the table [IRTDEF] *)
Inductive IRType :=
| IRT_UNKNOWN | IRT_VOID | IRT_I64 | IRT_U64 | IRT_I32 | IRT_U32 | IRT_I16 | IRT_U16
| IRT_I8 | IRT_U8 | IRT_F64 | IRT_F32 | IRT_CHR | IRT_CLOS | IRT_INFO | IRT_PC | IRT_PTR.

#[export] Instance IRType_eq_dec : EqDecision IRType.
Proof. solve_decision. Defined.

Definition IRType_num (t : IRType) : Z :=
  match t with
  | IRT_UNKNOWN => 0 | IRT_VOID => 1 | IRT_I64 => 2 | IRT_U64 => 3 | IRT_I32 => 4
  | IRT_U32 => 5 | IRT_I16 => 6 | IRT_U16 => 7 | IRT_I8 => 8 | IRT_U8 => 9 | IRT_F64 => 10
  | IRT_F32 => 11 | IRT_CHR => 12 | IRT_CLOS => 13 | IRT_INFO => 14 | IRT_PC => 15
  | IRT_PTR => 16
  end.

Definition IRType_of_num (n : Z) : option IRType :=
  list_find (fun t => IRType_num t = n)
    [IRT_UNKNOWN; IRT_VOID; IRT_I64; IRT_U64; IRT_I32; IRT_U32; IRT_I16; IRT_U16; IRT_I8;
     IRT_U8; IRT_F64; IRT_F32; IRT_CHR; IRT_CLOS; IRT_INFO; IRT_PC; IRT_PTR] ≫= Some ∘ snd.

(** Flags in the type byte. *)
Definition IRT_MARK : Z := 0x20.
Definition IRT_ISPHI : Z := 0x40.
Definition IRT_GUARD : Z := 0x80.
Definition IRT_TYPE : Z := 0x1f.

Definition type_bit (t : IRType) : Z := Z.shiftl 1 (IRType_num t).
Definition type_set (l : list IRType) : Z := fold_right (fun t acc => Z.lor (type_bit t) acc) 0 l.
Definition kOpIsSigned : Z := type_set [IRT_I64; IRT_I32; IRT_I16; IRT_I8].
Definition kOpIsInteger : Z :=
  type_set [IRT_CHR; IRT_U64; IRT_U32; IRT_U16; IRT_U8; IRT_I64; IRT_I32; IRT_I16; IRT_I8].
Definition kOpIsFloat : Z := type_set [IRT_F32; IRT_F64].

(** The predicates take the type as the number in the low five bits. *)
Definition in_type_set (s t : Z) : bool := negb (Z.land s (u4 (Z.shiftl 1 t)) =? 0).
Definition isIntegerType (t : Z) : bool := in_type_set kOpIsInteger t.
Definition isSigned (t : Z) : bool := in_type_set kOpIsSigned t.
Definition isFloatType (t : Z) : bool := in_type_set kOpIsFloat t.

Definition isCommutative (op : Opcode) : bool := negb (Z.land (mode op) IRM_C =? 0).
Definition hasSideEffect (op : Opcode) : bool := negb (Z.land (mode op) IRM_S =? 0).
Definition irmode_left (mode : Z) : Z := Z.land mode 3.
Definition irmode_right (mode : Z) : Z := Z.land (Z.shiftr mode 2) 3.

(** ** References *)
Definition REF_BIAS : Z := 0x8000.
Definition REF_BASE : Z := REF_BIAS.
Definition REF_FIRST : Z := REF_BIAS + 1.
Definition REF_IND : Z := REF_BIAS - 1.
Definition irref_islit (ref : Z) : bool := ref <? REF_BIAS.

(** ** Instructions: [union _IRInsRaw]

    The operands share a 32-bit word with the literal. *)
Record IR := mkIR { ir_o : Opcode; ir_t : Z; op12 : Z; ir_prev : Z }.
Definition zero_ir : IR := mkIR kLT 0 0 0.

Definition ir_type (i : IR) : Z := Z.land (ir_t i) IRT_TYPE.
Definition op1 (i : IR) : Z := u2 (op12 i).
Definition op2 (i : IR) : Z := u2 (Z.shiftr (op12 i) 16).
Definition i32 (i : IR) : Z := i4 (op12 i).
Definition u32 (i : IR) : Z := u4 (op12 i).
Definition isGuard (i : IR) : bool := negb (Z.land (ir_t i) IRT_GUARD =? 0).
Definition pack (a b : Z) : Z := u2 a + Z.shiftl (u2 b) 16.
Definition setOpcode (i : IR) (o : Opcode) : IR := mkIR o (ir_t i) (op12 i) (ir_prev i).
Definition setOp1 (i : IR) (a : Z) : IR := mkIR (ir_o i) (ir_t i) (pack a (op2 i)) (ir_prev i).
Definition setOp2 (i : IR) (b : Z) : IR := mkIR (ir_o i) (ir_t i) (pack (op1 i) b) (ir_prev i).

(** How a trace ends: the first operand of [SAVE]. *)
Definition IR_SAVE_FALLTHROUGH : Z := 0.
Definition IR_SAVE_LOOP : Z := 1.
Definition IR_SAVE_LINK : Z := 2.

(** ** Tagged references *)
Module TRef.
Definition make (ref type : Z) : Z := ref + Z.shiftl type 24.
Definition none : Z := 0.
Definition ref (raw : Z) : Z := u2 raw.
Definition t (raw : Z) : Z := u1 (Z.shiftr raw 24).
Definition isNone (raw : Z) : bool := raw =? 0.
Definition isLiteral (raw : Z) : bool := ref raw <? REF_BASE.
Definition kWritten : Z := 0x10000.
Definition markWritten (raw : Z) : Z := Z.lor raw kWritten.
Definition isWritten (raw : Z) : bool := negb (Z.land raw kWritten =? 0).
End TRef.

(** ** Snapshots: the assembler sets [mcode_]; 0 stands for the pointer
    before that. *)

Definition HOT_SIDE_EXIT_THRESHOLD : Z := 7.

Record Snapshot := mkSnap {
  sn_ref : Z;
  sn_mapofs : Z;
  sn_relbase : Z;
  sn_entries : Z;
  sn_framesize : Z;
  sn_exitCounter : Z;
  sn_steps : Z;
  sn_lastHeapEntry : Z;
  sn_pc : Z;
  sn_mcode : Z
}.

Definition bumpExitCounter (s : Snapshot) : Snapshot * bool :=
  let c := u2 (sn_exitCounter s - 1) in
  let hot := c =? 0 in
  (mkSnap (sn_ref s) (sn_mapofs s) (sn_relbase s) (sn_entries s) (sn_framesize s)
     (if hot then HOT_SIDE_EXIT_THRESHOLD else c) (sn_steps s) (sn_lastHeapEntry s) (sn_pc s)
     (sn_mcode s), hot).

(** [SnapshotData]: the entries [data_[0 .. index_)]; what [resize] adds
    behind them is overwritten before it is read. *)
Definition SnapshotData : Type := list Z.
Definition slotId (d : SnapshotData) (index : Z) : outcome Z :=
  let! w := of_option WildAccess (d !! Z.to_nat index) in Ok (Z.shiftr (i4 w) 16).
Definition slotRef (d : SnapshotData) (index : Z) : outcome Z :=
  let! w := of_option WildAccess (d !! Z.to_nat index) in Ok (u2 w).

(** [Snapshot::slot]: binary search over the entries. *)
Fixpoint slot_search (fuel : nat) (d : SnapshotData) (n lo hi : Z) : outcome Z :=
  match fuel with
  | O => Err OutOfFuel
  | S fuel' =>
      if lo <=? hi then
        let mid := Z.shiftr (lo + hi) 1 in
        let! data := of_option WildAccess (d !! Z.to_nat mid) in
        let slot := Z.shiftr data 16 in
        if slot <? n then slot_search fuel' d n (mid + 1) hi
        else if n <? slot then slot_search fuel' d n lo (mid - 1)
        else Ok (u2 data)
      else Ok 0
  end.
Definition Snapshot_slot (s : Snapshot) (n : Z) (d : SnapshotData) : outcome Z :=
  slot_search (S (Z.to_nat (sn_entries s))) d n (sn_mapofs s) (sn_mapofs s + sn_entries s - 1).

(** ** The abstract stack *)

Definition kSlots : Z := 500.
Definition kInitialBase : Z := 250.

Record AbstractStack := mkAS {
  as_slots : list Z;
  as_base : Z;
  as_top : Z;
  as_low : Z;
  as_high : Z;
  as_realOrigBase : Z
}.

Module AbstractStack.
Definition reset (base top : Z) : outcome AbstractStack :=
  assert! (base <=? top) in
  let t := kInitialBase + (top - base) / 8 in
  assert! (t <? kSlots) in
  Ok (mkAS (replicate (Z.to_nat kSlots) 0) kInitialBase t kInitialBase t base).

Definition inRange (s : AbstractStack) (n : Z) : bool :=
  (0 <=? as_base s + n) && (as_base s + n <? kSlots).
Definition get (s : AbstractStack) (n : Z) : outcome Z :=
  assert! inRange s n in
  of_option WildAccess (as_slots s !! Z.to_nat (as_base s + n)).
Definition clear (s : AbstractStack) (n : Z) : outcome AbstractStack :=
  assert! inRange s n in
  Ok (mkAS (<[Z.to_nat (as_base s + n) := TRef.none]> (as_slots s)) (as_base s) (as_top s)
        (as_low s) (as_high s) (as_realOrigBase s)).
Definition set (s : AbstractStack) (n value : Z) : outcome AbstractStack :=
  assert! inRange s n in
  let slot := as_base s + n in
  Ok (mkAS (<[Z.to_nat slot := value]> (as_slots s)) (as_base s) (as_top s)
        (Z.min slot (as_low s)) (Z.max slot (as_high s)) (as_realOrigBase s)).
Definition absolute (s : AbstractStack) (n : Z) : Z := as_base s + n - kInitialBase.
Definition getAbsolute (s : AbstractStack) (n : Z) : outcome Z :=
  of_option WildAccess (as_slots s !! Z.to_nat (kInitialBase + n)).
Definition baseOffset (s : AbstractStack) (p : Z) : Z := (p - as_realOrigBase s) / 8.
Definition highestSlot (s : AbstractStack) : Z := as_high s - kInitialBase.

(** [frame]: [false] on underflow, where nothing has changed yet, and
    on overflow. *)
Definition frame (s : AbstractStack) (base top : Z) : AbstractStack * bool :=
  let new_base := kInitialBase + (base - as_realOrigBase s) / 8 in
  if new_base <? 3 then (s, false)
  else
    let t := new_base + (top - base) / 8 in
    (mkAS (as_slots s) new_base t (Z.min (as_low s) new_base) (Z.max (as_high s) (t - 1))
       (as_realOrigBase s), negb (kSlots - 4 <=? t)).

(** The loop of [snapshot] over the slots from [slot] on: the entries
    it appends. *)
Fixpoint snapshot_entries (slots : list Z) (slot : Z) : list Z :=
  match slots with
  | [] => []
  | tr :: slots' =>
      (if TRef.isWritten tr
       then [Z.lor (u4 (Z.shiftl (u4 (i2 (slot - kInitialBase))) 16)) (TRef.ref tr)] else [])
      ++ snapshot_entries slots' (slot + 1)
  end.
Definition snapshot (s : AbstractStack) (d : SnapshotData) (ref pc : Z) : Snapshot * SnapshotData :=
  let range := take (Z.to_nat (as_high s - as_low s + 1)) (drop (Z.to_nat (as_low s)) (as_slots s)) in
  let es := snapshot_entries range (as_low s) in
  (mkSnap ref (u2 (Z.of_nat (length d))) (i2 (as_base s - kInitialBase))
     (u1 (Z.of_nat (length es))) (u1 (as_top s - as_base s)) HOT_SIDE_EXIT_THRESHOLD 0 0 pc 0,
   d ++ es).
End AbstractStack.

(** ** The abstract heap *)

Definition MAX_HEAP_ENTRIES : Z := 300.

Record AbstractHeapEntry := mkHE {
  he_ref : Z; he_size : Z; he_ofs : Z; he_hpofs : Z; he_overallocated : Z; he_fwdref : Z
}.

(** The arrays with the sizes they were allocated with. *)
Record AbstractHeap := mkAH {
  ah_entries : list AbstractHeapEntry;
  ah_nentries : Z;
  hd_data : gmap Z Z;
  hd_size : Z;
  hd_next : Z;
  ah_reserved : Z
}.

Module AbstractHeap.
Definition empty : AbstractHeap := mkAH [] 0 ∅ 0 0 0.

(** [grow] *)
Definition grow (n : Z) : outcome Z :=
  if n <? 32 then Ok 64
  else if MAX_HEAP_ENTRIES <=? n then Err (Exited 2)
  else Ok (Z.min (2 * n) MAX_HEAP_ENTRIES).
(** [HeapSnapData::growTop] *)
Definition growTop (size : Z) : outcome Z :=
  if 50000 <? size then Err (Exited 2)
  else Ok (if 2 * size <? 32 then 32 else 2 * size).
(** [HeapSnapData::reserve] *)
Fixpoint reserve_loop (fuel : nat) (next n size : Z) : outcome Z :=
  match fuel with
  | O => Err OutOfFuel
  | S fuel' =>
      if size <=? next + n then let! size := growTop size in reserve_loop fuel' next n size
      else Ok size
  end.
(** [HeapSnapData::at] and [HeapSnapData::set] *)
Definition data_at (h : AbstractHeap) (idx : Z) : outcome Z :=
  assert! (idx <? hd_size h) in of_option WildAccess (hd_data h !! idx).
Definition data_set (h : AbstractHeap) (n ref : Z) : outcome AbstractHeap :=
  assert! (n <? hd_next h) in
  Ok (mkAH (ah_entries h) (ah_nentries h) (<[n := u2 ref]> (hd_data h)) (hd_size h) (hd_next h)
        (ah_reserved h)).

Definition nextentry (h : AbstractHeap) : Z := Z.of_nat (length (ah_entries h)).
Definition entry (h : AbstractHeap) (n : Z) : outcome AbstractHeapEntry :=
  assert! (n <? nextentry h) in
  of_option WildAccess (ah_entries h !! Z.to_nat n).
Definition set_entry (h : AbstractHeap) (n : Z) (e : AbstractHeapEntry) : AbstractHeap :=
  mkAH (<[Z.to_nat n := e]> (ah_entries h)) (ah_nentries h) (hd_data h) (hd_size h) (hd_next h)
    (ah_reserved h).
Definition heapCheck (h : AbstractHeap) (nwords : Z) : AbstractHeap :=
  mkAH (ah_entries h) (ah_nentries h) (hd_data h) (hd_size h) (hd_next h) (ah_reserved h + nwords).

(** [newEntry] *)
Definition newEntry (h : AbstractHeap) (ref nfields : Z) : outcome (AbstractHeap * Z) :=
  let! cap := (if ah_nentries h <=? nextentry h then grow (ah_nentries h) else Ok (ah_nentries h)) in
  assert! (nfields + 1 <=? ah_reserved h) in
  let! size := reserve_loop 20 (hd_next h) nfields (hd_size h) in
  let e := mkHE (u2 ref) (u2 nfields) (u2 (hd_next h)) (i2 (- ah_reserved h)) 0 0 in
  Ok (mkAH (ah_entries h ++ [e]) cap (hd_data h) size (hd_next h + nfields)
        (ah_reserved h - (nfields + 1)), nextentry h).
End AbstractHeap.

(** [HeapSnapData::compactCopyInto] and [AbstractHeap::compactCopyInto]:
    the arrays are copied at their exact sizes. *)
Definition compactCopyInto (src : AbstractHeap) : AbstractHeap :=
  mkAH (ah_entries src) (AbstractHeap.nextentry src)
    (filter (fun '(k, _) => 0 <= k < hd_next src) (hd_data src)) (hd_next src) (hd_next src) 0.

(** ** The buffer *)

Record FoldState := mkFold { f_ins : IR; f_left : IR; f_right : IR; f_literal : Z }.

(** The instructions and the chains of equal opcodes. *)
Record IRCode := mkCode {
  c_buffer : gmap Z IR;
  c_bufmin : Z;
  c_bufmax : Z;
  c_bufstart : Z;
  c_bufend : Z;
  c_chain : gmap Z Z
}.

Record IRBuffer := mkIRB {
  b_code : IRCode;
  b_flags : Z;
  b_fold : FoldState;
  b_slots : AbstractStack;
  b_snapmap : SnapshotData;
  b_snaps : list Snapshot;
  b_heap : AbstractHeap;
  b_steps : Z;
  b_pc : Z
}.

Definition kOptCSE : Z := 0.
Definition kOptFold : Z := 1.

Definition set_code (b : IRBuffer) (c : IRCode) : IRBuffer :=
  mkIRB c (b_flags b) (b_fold b) (b_slots b) (b_snapmap b) (b_snaps b) (b_heap b) (b_steps b) (b_pc b).
Definition set_fold (b : IRBuffer) (f : FoldState) : IRBuffer :=
  mkIRB (b_code b) (b_flags b) f (b_slots b) (b_snapmap b) (b_snaps b) (b_heap b) (b_steps b) (b_pc b).
Definition set_slots (b : IRBuffer) (s : AbstractStack) : IRBuffer :=
  mkIRB (b_code b) (b_flags b) (b_fold b) s (b_snapmap b) (b_snaps b) (b_heap b) (b_steps b) (b_pc b).
Definition set_snaps (b : IRBuffer) (d : SnapshotData) (l : list Snapshot) : IRBuffer :=
  mkIRB (b_code b) (b_flags b) (b_fold b) (b_slots b) d l (b_heap b) (b_steps b) (b_pc b).
Definition set_heap (b : IRBuffer) (h : AbstractHeap) : IRBuffer :=
  mkIRB (b_code b) (b_flags b) (b_fold b) (b_slots b) (b_snapmap b) (b_snaps b) h (b_steps b) (b_pc b).
Definition set_fins (b : IRBuffer) (i : IR) : IRBuffer :=
  set_fold b (mkFold i (f_left (b_fold b)) (f_right (b_fold b)) (f_literal (b_fold b))).

Definition fins (b : IRBuffer) : IR := f_ins (b_fold b).
Definition fleft (b : IRBuffer) : IR := f_left (b_fold b).
Definition fright (b : IRBuffer) : IR := f_right (b_fold b).

(** [buffer_[ref]]: fresh entries are zero. *)
Definition raw_ir (c : IRCode) (ref : Z) : IR := default zero_ir (c_buffer c !! ref).
Definition ir (c : IRCode) (ref : Z) : outcome IR :=
  assert! (c_bufmin c <=? ref) && (ref <=? c_bufmax c) in Ok (raw_ir c ref).
Definition set_ir (c : IRCode) (ref : Z) (i : IR) : IRCode :=
  mkCode (<[ref := i]> (c_buffer c)) (c_bufmin c) (c_bufmax c) (c_bufstart c) (c_bufend c) (c_chain c).
Definition chain (c : IRCode) (op : Opcode) : Z := default 0 (c_chain c !! Opcode_num op).
Definition set_chain (c : IRCode) (op : Opcode) (ref : Z) : IRCode :=
  mkCode (c_buffer c) (c_bufmin c) (c_bufmax c) (c_bufstart c) (c_bufend c)
    (<[Opcode_num op := u2 ref]> (c_chain c)).

(** [nextIns] and [nextLit]; growing the buffer is not implemented and
    exits. *)
Definition nextIns (c : IRCode) : outcome (IRCode * Z) :=
  let ref := c_bufmax c in
  if c_bufend c <=? ref then Err (Exited 3)
  else Ok (mkCode (c_buffer c) (c_bufmin c) (ref + 1) (c_bufstart c) (c_bufend c) (c_chain c), ref).
Definition nextLit (c : IRCode) : outcome (IRCode * Z) :=
  let ref := c_bufmin c in
  if ref <=? c_bufstart c then Err (Exited 3)
  else Ok (mkCode (c_buffer c) (ref - 1) (c_bufmax c) (c_bufstart c) (c_bufend c) (c_chain c), ref - 1).

(** Putting a literal behind the chain of its opcode. *)
Definition put_literal (c : IRCode) (ref : Z) (op : Opcode) (ty word : Z) : IRCode :=
  set_chain (set_ir c ref (mkIR op ty word (chain c op))) op ref.

(** Following [prev] links from [ref] until one satisfies [p] (or 0). *)
Fixpoint chain_find (fuel : nat) (c : IRCode) (p : Z -> IR -> bool) (ref : Z) : outcome Z :=
  match fuel with
  | O => Err OutOfFuel
  | S fuel' =>
      if ref =? 0 then Ok 0
      else if p ref (raw_ir c ref) then Ok ref
      else chain_find fuel' c p (ir_prev (raw_ir c ref))
  end.
Definition chain_fuel (c : IRCode) : nat := S (Z.to_nat (c_bufmax c - c_bufmin c)).

(** [literal] *)
Definition literal (c : IRCode) (ty lit : Z) : outcome (IRCode * Z) :=
  if checki32 lit then
    let k := i4 lit in
    let! ref := chain_find (chain_fuel c) c (fun _ i => (i32 i =? k) && (ir_type i =? ty))
                  (chain c kKINT) in
    if negb (ref =? 0) then Ok (c, TRef.make ref ty)
    else
      let! '(c, ref) := nextLit c in
      Ok (put_literal c ref kKINT ty (u4 k), TRef.make ref ty)
  else
    let klo := u4 lit in
    let khi := u4 (Z.shiftr lit 32) in
    let! ref := chain_find (chain_fuel c) c
                  (fun ref i => (ir_type i =? ty) && (u32 i =? klo)
                                && (u32 (raw_ir c (ref - 1)) =? khi)) (chain c kKWORD) in
    if negb (ref =? 0) then Ok (c, TRef.make ref ty)
    else
      let! '(c, reflo) := nextLit c in
      let! '(c, refhi) := nextLit c in
      assert! (refhi =? reflo - 1) in
      let c := put_literal c reflo kKWORD ty klo in
      Ok (put_literal c refhi kKWORDHI ty khi, TRef.make reflo ty).

(** [baseLiteral] *)
Definition baseLiteral (c : IRCode) (s : AbstractStack) (p : Z) : outcome (IRCode * Z) :=
  let offset := AbstractStack.baseOffset s p in
  let! ref := chain_find (chain_fuel c) c (fun _ i => i32 i =? offset) (chain c kKBASEO) in
  if negb (ref =? 0) then Ok (c, TRef.make ref (IRType_num IRT_PTR))
  else
    let! '(c, ref) := nextLit c in
    Ok (put_literal c ref kKBASEO (IRType_num IRT_PTR) (u4 offset),
        TRef.make ref (IRType_num IRT_PTR)).

(** [literalValue] *)
Definition literalValue (c : IRCode) (s : AbstractStack) (ref : Z) : outcome Z :=
  let! tir := ir c ref in
  match ir_o tir with
  | kKINT => Ok (if in_type_set kOpIsSigned (ir_type tir) then u8 (i32 tir) else u4 (i32 tir))
  | kKWORD => let! hi := ir c (ref - 1) in Ok (Z.lor (u32 tir) (Z.shiftl (u32 hi) 32))
  | kKBASEO => Ok (u8 (as_realOrigBase s + 8 * i32 tir))
  | _ => Err AssertFailed
  end.

(** [IRBuffer::snapshot] *)
Definition buf_snapshot (b : IRBuffer) (ref pc : Z) : outcome IRBuffer :=
  let '(sn, d) := AbstractStack.snapshot (b_slots b) (b_snapmap b) ref pc in
  let new := chain (b_code b) kNEW in
  let! last := (if negb (new =? 0) then let! i := ir (b_code b) new in Ok (i2 (op2 i)) else Ok (-1)) in
  let sn := mkSnap (sn_ref sn) (sn_mapofs sn) (sn_relbase sn) (sn_entries sn) (sn_framesize sn)
              (sn_exitCounter sn) (u2 (b_steps b - 1)) last (sn_pc sn) (sn_mcode sn) in
  Ok (set_snaps b d (b_snaps b ++ [sn])).

(** [IRBuffer::snapshot(pc)]: a snapshot at the end of the buffer; its
    number. *)
Definition snapshot_here (b : IRBuffer) (pc : Z) : outcome (IRBuffer * Z) :=
  let! b := buf_snapshot b (c_bufmax (b_code b)) pc in
  Ok (b, u2 (Z.of_nat (length (b_snaps b)) - 1)).

(** [emit()]: the instruction in the fold state goes to the end of the
    buffer. *)
Definition emit_ins (b : IRBuffer) : outcome (IRBuffer * Z) :=
  let! '(c, ref) := nextIns (b_code b) in
  let op := ir_o (fins b) in
  let i := mkIR op (ir_t (fins b)) (op12 (fins b)) (chain c op) in
  let b := set_code b (set_chain (set_ir c ref i) op ref) in
  let! b := (if isGuard (fins b) then buf_snapshot b ref (b_pc b) else Ok b) in
  Ok (b, TRef.make ref (ir_t (fins b))).

(** [set] and [emitRaw] *)
Definition set_ins (b : IRBuffer) (op : Opcode) (t a1 a2 : Z) : IRBuffer :=
  set_fins b (mkIR op t (pack a1 a2) (ir_prev (fins b))).
Definition emitRaw (b : IRBuffer) (op : Opcode) (t a1 a2 : Z) : outcome (IRBuffer * Z) :=
  emit_ins (set_ins b op t a1 a2).

(** [optCSE] *)
Fixpoint cse_find (fuel : nat) (c : IRCode) (word lim ref : Z) : outcome (option Z) :=
  match fuel with
  | O => Err OutOfFuel
  | S fuel' =>
      if lim <? ref then
        let! i := ir c ref in
        if op12 i =? word then Ok (Some ref) else cse_find fuel' c word lim (ir_prev i)
      else Ok None
  end.
Definition optCSE (b : IRBuffer) : outcome (IRBuffer * Z) :=
  if Flags32.get (b_flags b) kOptCSE then
    let c := b_code b in
    let word := op1 (fins b) + Z.shiftl (op2 (fins b)) 16 in
    let lim := Z.max (op1 (fins b)) (op2 (fins b)) in
    let! found := cse_find (chain_fuel c) c word lim (chain c (ir_o (fins b))) in
    match found with
    | Some ref => let! i := ir c ref in Ok (b, TRef.make ref (ir_t i))
    | None => emit_ins b
    end
  else emit_ins b.

(** [slot] and [setSlot] *)
Definition buf_slot (b : IRBuffer) (n : Z) : outcome (IRBuffer * Z) :=
  let! s := AbstractStack.get (b_slots b) n in
  if TRef.isNone s then
    let! '(b, tr) := emitRaw b kSLOAD (IRType_num IRT_UNKNOWN)
                       (AbstractStack.absolute (b_slots b) n) 0 in
    let! sl := AbstractStack.set (b_slots b) n tr in
    Ok (set_slots b sl, tr)
  else Ok (b, s).
Definition buf_setSlot (b : IRBuffer) (n tr : Z) : outcome IRBuffer :=
  let tr := if negb (TRef.ref tr =? 0) then TRef.markWritten tr else tr in
  let! sl := AbstractStack.set (b_slots b) n tr in
  Ok (set_slots b sl).

(** ** Allocations on the trace *)

(** [emitNEW]: the reference and the heap entry. *)
Definition emitNEW (b : IRBuffer) (itblref nfields : Z) : outcome (IRBuffer * Z * Z) :=
  let! '(b, tref) := emitRaw b kNEW (IRType_num IRT_CLOS) itblref 0 in
  let ref := TRef.ref tref in
  let! '(h, entry) := AbstractHeap.newEntry (b_heap b) ref nfields in
  let! i := ir (b_code b) ref in
  Ok (set_code (set_heap b h) (set_ir (b_code b) ref (setOp2 i entry)), tref, entry).

Definition kInvalidHeapEntry : Z := -1.
Definition getHeapEntry (c : IRCode) (ref : Z) : outcome Z :=
  let! i := ir c ref in
  Ok (if bool_decide (ir_o i = kNEW) then op2 i else kInvalidHeapEntry).
Definition heap_entry (h : AbstractHeap) (n : Z) : outcome AbstractHeapEntry :=
  of_option WildAccess (ah_entries h !! Z.to_nat n).
Definition setField (h : AbstractHeap) (entry field ref : Z) : outcome AbstractHeap :=
  let! e := heap_entry h entry in AbstractHeap.data_set h (he_ofs e + field) ref.
Definition getField (h : AbstractHeap) (entry field : Z) : outcome Z :=
  let! e := heap_entry h entry in AbstractHeap.data_at h (he_ofs e + field).
Definition numFields (h : AbstractHeap) (entry : Z) : outcome Z :=
  let! e := heap_entry h entry in Ok (he_size e).
Definition update_entry (h : AbstractHeap) (entry fwdref : Z) : outcome AbstractHeap :=
  let! e := heap_entry h entry in
  Ok (AbstractHeap.set_entry h entry
        (mkHE (he_ref e) (he_size e) (he_ofs e) (he_hpofs e) (he_overallocated e) (u2 fwdref))).
Definition isIndirection (h : AbstractHeap) (entry : Z) : outcome Z :=
  let! e := heap_entry h entry in Ok (he_fwdref e).

(** [Snapshot::overallocated] *)
Definition overallocated (s : Snapshot) (h : AbstractHeap) : outcome Z :=
  if sn_lastHeapEntry s <? 0 then Ok 0
  else let! e := AbstractHeap.entry h (sn_lastHeapEntry s) in Ok (he_overallocated e).

(** [setHeapOffsets]: the inner loop over heap checks behind [cur], then
    the walk over the allocations from the last to the first. *)
Fixpoint heap_checks (fuel : nat) (c : IRCode) (chkref cur offset n : Z) : outcome (Z * Z * Z) :=
  match fuel with
  | O => Err OutOfFuel
  | S fuel' =>
      if cur <? chkref then
        let! i := ir c chkref in
        assert! (op1 i =? - offset) in
        heap_checks fuel' c (ir_prev i) cur 0 (n + 1)
      else Ok (chkref, offset, n)
  end.
Fixpoint heap_offsets (fuel : nat) (c : IRCode) (h : AbstractHeap) (cur chkref offset n : Z)
  : outcome (AbstractHeap * Z) :=
  match fuel with
  | O => Err OutOfFuel
  | S fuel' =>
      let! '(chkref, offset, n) := heap_checks (chain_fuel c) c chkref cur offset n in
      if cur =? 0 then assert! (offset =? 0) in Ok (h, n)
      else
        let! i := ir c cur in
        let! e := AbstractHeap.entry h (op2 i) in
        let sz := he_size e + 1 in
        assert! (offset <=? 0) in
        let h := AbstractHeap.set_entry h (op2 i)
                   (mkHE (he_ref e) (he_size e) (he_ofs e) (i2 (offset - sz)) (u2 (- offset))
                      (he_fwdref e)) in
        heap_offsets fuel' c h (ir_prev i) chkref (offset - sz) n
  end.
Definition setHeapOffsets (b : IRBuffer) : outcome (IRBuffer * Z) :=
  let c := b_code b in
  let! '(h, n) := heap_offsets (chain_fuel c) c (b_heap b) (chain c kNEW) (chain c kHEAPCHK) 0 0 in
  Ok (set_heap b h, n).

(** [reset] *)
Definition reset (stg_IND_info base top : Z) : outcome IRBuffer :=
  let! s := AbstractStack.reset base top in
  let size := 1024 in
  let bufstart := REF_BIAS - size / 4 in
  let c := mkCode ∅ REF_BIAS REF_BASE bufstart (bufstart + size) ∅ in
  let flags := Flags32.set (Flags32.set 0 kOptCSE) kOptFold in
  let b := mkIRB c flags (mkFold zero_ir zero_ir zero_ir 0) s [] [] AbstractHeap.empty 0 0 in
  let! '(b, _) := emitRaw b kBASE (IRType_num IRT_PTR) 0 0 in
  let! '(c, tr) := literal (b_code b) (IRType_num IRT_INFO) stg_IND_info in
  assert! (TRef.ref tr =? REF_IND) in
  Ok (set_code b c).
