(* ===== verification/IRInv.v ===== *)
(** * The invariant of the instruction buffer

    [code_ok] says that the chains link instructions of one opcode, the
    newest first, and that arithmetic has operands in the buffer;
    [models] gives every reference the 64-bit word it stands for.
    The file proves that literals, common subexpression elimination and
    [emit] keep both. *)

From S2P Require Import Prelude Words Objects IR.

Definition wordsize : Z := 18446744073709551616.
Lemma u8_eq x : u8 x = x mod wordsize.
Proof. done. Qed.
Ltac word_lia :=
  unfold u8, to_u in *; change (2 ^ 64) with wordsize in *; unfold wordsize in *;
  Z.to_euclidean_division_equations; lia.

(** ** Results or a full buffer

    [returns P m]: the operation ends in a result that satisfies [P], or
    the process exits because the buffer is full. *)
Definition returns {A} (P : A -> Prop) (m : outcome A) : Prop :=
  match m with
  | Ok a => P a
  | Err e => e = Exited 3
  end.

Lemma returns_bind {A B} (P : A -> Prop) (Q : B -> Prop) m k :
  returns P m -> (forall a, P a -> returns Q (k a)) -> returns Q (obind m k).
Proof. destruct m; cbn; auto. Qed.
Lemma returns_mono {A} (P Q : A -> Prop) m : returns P m -> (forall a, P a -> Q a) -> returns Q m.
Proof. destruct m; cbn; auto. Qed.

(** ** Well-formed buffers *)

Definition valid (c : IRCode) (r : Z) : Prop := c_bufmin c <= r < c_bufmax c.
Definition I64 : Z := IRType_num IRT_I64.

Definition is_literal_op (op : Opcode) : bool :=
  match op with kKINT | kKWORD | kKWORDHI | kKBASEO => true | _ => false end.

(** An operand of arithmetic: the upper half of a literal is not a
    value. *)
Definition operand (c : IRCode) (r : Z) : Prop :=
  valid c r /\ ir_o (raw_ir c r) <> kKWORDHI.
Definition is_unary (op : Opcode) : bool := match op with kNEG | kBNOT => true | _ => false end.
Definition operands (c : IRCode) (i : IR) : Prop :=
  match ir_o i with
  | kADD | kSUB | kMUL | kBAND | kBOR | kBXOR
  | kLT | kGE | kLE | kGT | kEQ | kNE | kLTU | kGEU | kLEU | kGTU =>
      operand c (op1 i) /\ operand c (op2 i)
  | kNEG | kBNOT => operand c (op1 i)
  | _ => True
  end.

(** The next link of a chain: literals grow downwards, instructions
    upwards. *)
Definition link_ok (c : IRCode) (r p : Z) : Prop :=
  p = 0 \/ (valid c p /\ ir_o (raw_ir c p) = ir_o (raw_ir c r)
            /\ (if irref_islit r then r < p < REF_BIAS else REF_BIAS <= p < r)).

Record chains_ok (c : IRCode) : Prop := {
  ok_bounds : MAX_HEAP_ENTRIES < c_bufstart c <= c_bufmin c /\ c_bufmin c <= REF_BIAS
              /\ REF_BIAS <= c_bufmax c <= c_bufend c /\ c_bufend c <= 65536;
  ok_chain : forall op, chain c op = 0 \/
               (valid c (chain c op) /\ ir_o (raw_ir c (chain c op)) = op);
  ok_link : forall r, valid c r -> link_ok c r (ir_prev (raw_ir c r));
  ok_lit : forall r, valid c r -> is_literal_op (ir_o (raw_ir c r)) = irref_islit r;
  ok_operands : forall r, valid c r -> operands c (raw_ir c r)
}.

(** Both halves of a 64-bit literal are there. *)
Record code_ok (c : IRCode) : Prop := {
  ok_chains :> chains_ok c;
  ok_kword : forall r, valid c r -> ir_o (raw_ir c r) = kKWORD -> valid c (r - 1)
}.

(** A buffer that has grown. *)
Record code_ext (c c' : IRCode) : Prop := {
  ext_valid : forall r, valid c r -> valid c' r;
  ext_ir : forall r, valid c r -> raw_ir c' r = raw_ir c r
}.
#[export] Instance code_ext_preorder : PreOrder code_ext.
Proof.
  split; [by split|]. intros c c' c'' [V E] [V' E'].
  split; intros r Hr; [auto|]. rewrite E' by auto. auto.
Qed.

Lemma operand_ext c c' r : code_ext c c' -> operand c r -> operand c' r.
Proof.
  intros [V E] (Hv & Ho). split; [auto|]. by rewrite E.
Qed.
Lemma operands_ext c c' i : code_ext c c' -> operands c i -> operands c' i.
Proof.
  unfold operands. intros E Ho.
  destruct (ir_o i); try done; 
    try match type of Ho with _ /\ operand _ _ => destruct Ho; split end; eauto using operand_ext.
Qed.
Lemma link_ext c c' r p : code_ext c c' -> valid c r -> link_ok c r p -> link_ok c' r p.
Proof.
  intros [V E] Hr [->|(Hv & Ho & Hl)]; [by left|right]. rewrite !E by done. auto.
Qed.

Lemma ir_valid c r : valid c r -> ir c r = Ok (raw_ir c r).
Proof.
  unfold valid, ir. intros. by rewrite (proj2 (Z.leb_le _ _)), (proj2 (Z.leb_le _ _)) by lia.
Qed.

(** ** Values *)

(** What an arithmetic instruction computes, and the condition a guard
    on two words tests. *)
Definition arith (op : Opcode) (x y : Z) : option Z :=
  match op with
  | kADD => Some (u8 (x + y))
  | kSUB => Some (u8 (x - y))
  | kMUL => Some (u8 (x * y))
  | kBAND => Some (u8 (Z.land x y))
  | kBOR => Some (u8 (Z.lor x y))
  | kBXOR => Some (u8 (Z.lxor x y))
  | kNEG => Some (u8 (- x))
  | kBNOT => Some (u8 (Z.lnot x))
  | _ => None
  end.
Definition condition (op : Opcode) (x y : Z) : option bool :=
  match op with
  | kLT => Some (i8 x <? i8 y)
  | kGE => Some (i8 y <=? i8 x)
  | kLE => Some (i8 x <=? i8 y)
  | kGT => Some (i8 y <? i8 x)
  | kEQ => Some (x =? y)
  | kNE => Some (negb (x =? y))
  | kLTU => Some (x <? y)
  | kGEU => Some (y <=? x)
  | kLEU => Some (x <=? y)
  | kGTU => Some (y <? x)
  | _ => None
  end.
Definition meaning (val : Z -> Z) (i : IR) : option Z := arith (ir_o i) (val (op1 i)) (val (op2 i)).
Definition holds (val : Z -> Z) (i : IR) : option bool := condition (ir_o i) (val (op1 i)) (val (op2 i)).

(** The guards hold: the trace has been executed to its end. *)
Record models (c : IRCode) (s : AbstractStack) (val : Z -> Z) : Prop := {
  val_word : forall r, valid c r -> 0 <= val r < 2 ^ 64;
  val_literal : forall r v, valid c r -> literalValue c s r = Ok v -> val r = v;
  val_arith : forall r v, valid c r -> meaning val (raw_ir c r) = Some v -> val r = v;
  val_guard : forall r t, valid c r -> holds val (raw_ir c r) = Some t -> t = true
}.

Definition agree (c : IRCode) (val val' : Z -> Z) : Prop := forall r, valid c r -> val' r = val r.

Lemma meaning_agree c val val' i :
  operands c i -> agree c val val' -> meaning val' i = meaning val i /\ holds val' i = holds val i.
Proof.
  unfold operands, meaning, holds, arith, condition, operand. intros Ho Ha.
  case_match; try done;
    try (destruct Ho as [[H1 _] [H2 _]]; rewrite (Ha _ H1), (Ha _ H2); done);
    destruct Ho as [H1 _]; rewrite (Ha _ H1); done.
Qed.

Lemma literalValue_ext c c' s r :
  code_ok c -> code_ext c c' -> valid c r -> literalValue c' s r = literalValue c s r.
Proof.
  intros Hc [V E] Hr. unfold literalValue.
  rewrite (ir_valid c r), (ir_valid c' r), E by auto. cbn.
  destruct (ir_o (raw_ir c r)) eqn:Eo; try done.
  assert (Hr1 : valid c (r - 1)) by by eapply ok_kword.
  by rewrite (ir_valid c _ Hr1), (ir_valid c' _ (V _ Hr1)), (E _ Hr1).
Qed.

(** Giving values to what was added. *)
Definition extend (c : IRCode) (val new : Z -> Z) (r : Z) : Z :=
  if (c_bufmin c <=? r) && (r <? c_bufmax c) then val r else new r.
Lemma extend_agree c val new : agree c val (extend c val new).
Proof.
  intros r [??]. unfold extend. by rewrite (proj2 (Z.leb_le _ _)), (proj2 (Z.ltb_lt _ _)) by lia.
Qed.
Lemma extend_new c val new r : ~ valid c r -> extend c val new r = new r.
Proof.
  unfold valid, extend. intros. destruct (Z.leb_spec (c_bufmin c) r); [|done].
  destruct (Z.ltb_spec r (c_bufmax c)); [lia|done].
Qed.

Lemma valid_dec c r : {valid c r} + {~ valid c r}.
Proof.
  unfold valid. destruct (Z_le_dec (c_bufmin c) r), (Z_lt_dec r (c_bufmax c));
    (left; lia) || (right; lia).
Qed.

Lemma models_extend c c' s val new :
  code_ok c -> code_ext c c' -> models c s val ->
  (forall r, valid c' r -> ~ valid c r ->
     0 <= new r < 2 ^ 64
     /\ (forall v, literalValue c' s r = Ok v -> new r = v)
     /\ (forall v, meaning (extend c val new) (raw_ir c' r) = Some v -> new r = v)
     /\ (forall t, holds (extend c val new) (raw_ir c' r) = Some t -> t = true)) ->
  models c' s (extend c val new).
Proof.
  intros Hc Hext [Hw Hl Ha Hg] Hnew.
  split; intros r; (destruct (valid_dec c r) as [Hv|Hv];
    [rewrite ?(extend_agree c val new r Hv)|rewrite ?(extend_new c val new r Hv)]).
  - auto.
  - intros Hv'. by apply Hnew.
  - intros v _. rewrite (literalValue_ext c) by done. auto.
  - intros v Hv' E. destruct (Hnew r Hv' Hv) as (_ & H & _). auto.
  - intros v _. rewrite (ext_ir _ _ Hext) by done. intros E. apply Ha; try done.
    rewrite <- E. symmetry. apply (meaning_agree c); [by apply (ok_operands c Hc)|apply extend_agree].
  - intros v Hv' E. destruct (Hnew r Hv' Hv) as (_ & _ & H & _). auto.
  - intros t _. rewrite (ext_ir _ _ Hext) by done. intros E. apply (Hg r); try done.
    rewrite <- E. symmetry. apply (meaning_agree c); [by apply (ok_operands c Hc)|apply extend_agree].
  - intros t Hv' E. destruct (Hnew r Hv' Hv) as (_ & _ & _ & H). auto.
Qed.

(** ** Growing the buffer *)

Lemma nextIns_spec c :
  returns (fun '(c', r) =>
    r = c_bufmax c /\ r < c_bufend c
    /\ c' = mkCode (c_buffer c) (c_bufmin c) (r + 1) (c_bufstart c) (c_bufend c) (c_chain c))
    (nextIns c).
Proof.
  unfold nextIns. destruct (Z.leb_spec (c_bufend c) (c_bufmax c)); cbn; auto.
Qed.

Lemma nextLit_spec c :
  returns (fun '(c', r) =>
    r = c_bufmin c - 1 /\ c_bufstart c <= r
    /\ c' = mkCode (c_buffer c) r (c_bufmax c) (c_bufstart c) (c_bufend c) (c_chain c))
    (nextLit c).
Proof.
  unfold nextLit. destruct (Z.leb_spec (c_bufmin c) (c_bufstart c)); cbn; [done|].
  split_and!; (lia || done).
Qed.

(** Writing an entry at the new reference [r] and putting it in front of
    the chain of its opcode. *)
Definition add_entry (c : IRCode) (lo hi r : Z) (i : IR) : IRCode :=
  mkCode (<[r := i]> (c_buffer c)) lo hi (c_bufstart c) (c_bufend c)
    (<[Opcode_num (ir_o i) := u2 r]> (c_chain c)).

Lemma Opcode_num_inj op op' : Opcode_num op = Opcode_num op' -> op = op'.
Proof. destruct op, op'; cbn; (done || lia). Qed.
Lemma chain_add c lo hi r i op :
  chain (add_entry c lo hi r i) op = if decide (op = ir_o i) then u2 r else chain c op.
Proof.
  unfold chain, add_entry. cbn. case_decide as E.
  - subst. by rewrite lookup_insert_eq.
  - rewrite lookup_insert_ne; [done|]. intros E'. apply E. symmetry. by apply Opcode_num_inj.
Qed.
Lemma raw_ir_add c lo hi r i x :
  raw_ir (add_entry c lo hi r i) x = if decide (x = r) then i else raw_ir c x.
Proof.
  unfold raw_ir, add_entry. cbn. case_decide as E.
  - subst. by rewrite lookup_insert_eq.
  - by rewrite lookup_insert_ne.
Qed.

(** The conditions under which one entry more keeps the invariant. *)
Definition next_to (c : IRCode) (lo hi r : Z) : Prop :=
  (lo = r /\ r = c_bufmin c - 1 /\ c_bufstart c <= r /\ hi = c_bufmax c)
  \/ (lo = c_bufmin c /\ r = c_bufmax c /\ r < c_bufend c /\ hi = r + 1).

Lemma valid_add c lo hi r i x :
  chains_ok c -> next_to c lo hi r -> valid (add_entry c lo hi r i) x <-> x = r \/ valid c x.
Proof.
  intros Hc Hn. unfold valid, add_entry. cbn. pose proof (ok_bounds c Hc).
  destruct Hn; lia.
Qed.
Lemma add_entry_ext c lo hi r i :
  chains_ok c -> next_to c lo hi r -> code_ext c (add_entry c lo hi r i).
Proof.
  intros Hc Hn. split; intros x Hx.
  - apply valid_add; auto.
  - rewrite raw_ir_add, decide_False; [done|]. unfold valid in Hx. destruct Hn; lia.
Qed.

Lemma add_entry_ok c lo hi r i :
  chains_ok c -> next_to c lo hi r ->
  ir_prev i = chain c (ir_o i) ->
  is_literal_op (ir_o i) = irref_islit r ->
  operands c i ->
  chains_ok (add_entry c lo hi r i).
Proof.
  intros Hc Hn Hp Hlit Hops. pose proof (ok_bounds c Hc) as Hb.
  pose proof (add_entry_ext c lo hi r i Hc Hn) as Hext.
  assert (Hfresh : ~ valid c r) by (unfold valid; destruct Hn; lia).
  assert (Hu : u2 r = r) by (apply to_u_id; unfold MAX_HEAP_ENTRIES in *; destruct Hn; lia).
  split.
  - cbn. unfold next_to in Hn. lia.
  - intros op. rewrite chain_add, valid_add, raw_ir_add by done. case_decide as Eo.
    + right. rewrite Hu, decide_True by done. auto.
    + destruct (ok_chain c Hc op) as [H|[Hv H]]; [by left|right].
      rewrite decide_False by congruence. auto.
  - intros x Hx. apply (valid_add c) in Hx as [->|Hx]; [| |done..].
    2: { rewrite (ext_ir _ _ Hext) by done. eapply link_ext, ok_link; done. }
    unfold link_ok. rewrite (raw_ir_add c lo hi r i r), decide_True, Hp by done.
    destruct (ok_chain c Hc (ir_o i)) as [H|[Hv H]]; [by left|right].
    rewrite (ext_ir _ _ Hext), H by done. split; [by apply (ext_valid _ _ Hext)|]. split; [done|].
    assert (Hl : irref_islit (chain c (ir_o i)) = irref_islit r)
      by (rewrite <- Hlit, <- (ok_lit c Hc) by done; by rewrite H).
    unfold valid, irref_islit in *. rewrite <- Hl.
    destruct (Z.ltb_spec (chain c (ir_o i)) REF_BIAS), (Z.ltb_spec r REF_BIAS);
      try discriminate Hl; destruct Hn; lia.
  - intros x Hx. apply (valid_add c) in Hx as [->|Hx]; [| |done..].
    + by rewrite raw_ir_add, decide_True.
    + rewrite (ext_ir _ _ Hext) by done. by apply ok_lit.
  - intros x Hx. apply (valid_add c) in Hx as [->|Hx]; [| |done..].
    + rewrite raw_ir_add, decide_True by done. apply (operands_ext c); auto.
    + rewrite (ext_ir _ _ Hext) by done. apply (operands_ext c); [done|].
      by apply (ok_operands c Hc).
Qed.

(** ** Literals *)

Lemma ref_make c r t : chains_ok c -> valid c r -> TRef.ref (TRef.make r t) = r.
Proof.
  intros Hc Hr. pose proof (ok_bounds c Hc). unfold valid, MAX_HEAP_ENTRIES in *.
  unfold TRef.ref, TRef.make, u2, to_u. rewrite Z.shiftl_mul_pow2 by lia.
  replace (t * 2 ^ 24) with (t * 2 ^ 8 * 2 ^ 16) by lia.
  rewrite Z.mod_add by lia. apply Z.mod_small. lia.
Qed.

Lemma chain_find_spec c p op fuel ref :
  chains_ok c -> is_literal_op op = true ->
  ref = 0 \/ (valid c ref /\ ir_o (raw_ir c ref) = op /\ REF_BIAS - ref < Z.of_nat fuel) ->
  (0 < fuel)%nat ->
  exists r, chain_find fuel c p ref = Ok r /\
    (r = 0 \/ valid c r /\ ir_o (raw_ir c r) = op /\ p r (raw_ir c r) = true).
Proof.
  intros Hc Hop. revert ref. induction fuel as [|fuel IH]; intros ref Href Hf; [lia|].
  cbn [chain_find]. destruct (Z.eqb_spec ref 0) as [->|Hn]; [eauto|].
  destruct Href as [|(Hv & Ho & Hl)]; [done|].
  destruct (p ref (raw_ir c ref)) eqn:Hp; [eauto 10|].
  assert (Hb : irref_islit ref = true) by (rewrite <- (ok_lit c Hc), Ho; done).
  destruct (ok_link c Hc ref Hv) as [Hz|(Hv' & Ho' & Hlt)].
  - rewrite Hz. apply IH; [by left|]. unfold irref_islit in Hb. lia.
  - rewrite Hb in Hlt. apply IH; [right|lia]. rewrite Ho'. split_and!; (done || lia).
Qed.

Lemma literal_chain_find c p op :
  chains_ok c -> is_literal_op op = true ->
  exists r, chain_find (chain_fuel c) c p (chain c op) = Ok r /\
    (r = 0 \/ valid c r /\ ir_o (raw_ir c r) = op /\ p r (raw_ir c r) = true).
Proof.
  intros Hc Hop. apply chain_find_spec; [done..| |unfold chain_fuel; lia].
  destruct (ok_chain c Hc op) as [|[Hv Ho]]; [by left|right]. split_and!; [done..|].
  pose proof (ok_bounds c Hc). unfold chain_fuel, valid in *. lia.
Qed.

(** The buffer [c'] is [c] with literals added. *)
Record literals_added (c c' : IRCode) : Prop := {
  la_ok : code_ok c';
  la_ext : code_ext c c';
  la_new : forall r, valid c' r -> ~ valid c r -> is_literal_op (ir_o (raw_ir c' r)) = true;
  la_max : c_bufmax c' = c_bufmax c
}.

(** The reference [r] is a literal of type [ty] and value [v]. *)
Definition literal_is (c : IRCode) (s : AbstractStack) (ty v r : Z) : Prop :=
  valid c r /\ irref_islit r = true /\ ir_type (raw_ir c r) = ty
  /\ ir_o (raw_ir c r) <> kKWORDHI /\ literalValue c s r = Ok v.

Lemma halves lit :
  0 <= lit < 2 ^ 64 -> Z.lor (u4 lit) (Z.shiftl (u4 (Z.shiftr lit 32)) 32) = lit.
Proof.
  intros H. rewrite shiftl_lor_add by (try apply to_u_bound; lia).
  rewrite Z.shiftr_div_pow2 by lia. unfold u4.
  rewrite (to_u_id 32 (lit / 2 ^ 32)).
  - unfold to_u. pose proof (Z.div_mod lit (2 ^ 32)). lia.
  - split; [apply Z.div_pos; lia|]. apply Z.div_lt_upper_bound; lia.
Qed.

Lemma add_literal c i r :
  chains_ok c -> r = c_bufmin c - 1 -> c_bufstart c <= r ->
  is_literal_op (ir_o i) = true -> ir_prev i = chain c (ir_o i) ->
  let c' := add_entry c r (c_bufmax c) r i in
  chains_ok c' /\ code_ext c c' /\ (forall x, valid c' x <-> x = r \/ valid c x) /\ raw_ir c' r = i.
Proof.
  intros Hc -> Hr Ho Hp c'. pose proof (ok_bounds c Hc).
  assert (Hn : next_to c (c_bufmin c - 1) (c_bufmax c) (c_bufmin c - 1)) by (left; lia).
  split_and!.
  - apply add_entry_ok; try done.
    + rewrite Ho. unfold irref_islit. symmetry. apply Z.ltb_lt. lia.
    + unfold operands. by destruct (ir_o i).
  - by apply add_entry_ext.
  - intros x. by apply valid_add.
  - unfold c'. by rewrite raw_ir_add, decide_True.
Qed.

(** Literals read back: signed types, and below 2^63 all types. *)
Definition readable (ty lit : Z) : Prop := isSigned ty = true \/ lit < 2 ^ 63.
Lemma kint_value ty lit :
  0 <= lit < 2 ^ 64 -> readable ty lit -> checki32 lit = true ->
  (if isSigned ty then u8 (i4 lit) else u4 (i4 lit)) = lit.
Proof.
  unfold checki32, readable. intros Hl Hr Hc. apply Z.eqb_eq in Hc.
  destruct (isSigned ty); [done|]. destruct Hr as [|Hr]; [done|].
  pose proof (to_s_bound 32 ltac:(lia) lit) as Hb. fold i4 in Hb.
  assert (0 <= i4 lit) by (unfold i4, u8, to_u in *; Z.to_euclidean_division_equations; lia).
  rewrite Hc at 2. unfold u4, u8. rewrite !to_u_id; unfold i4 in *; lia.
Qed.

(** A 32-bit literal. *)
Lemma new_kint c s ty lit r :
  code_ok c -> r = c_bufmin c - 1 -> c_bufstart c <= r ->
  Z.land ty IRT_TYPE = ty -> 0 <= lit < 2 ^ 64 -> readable ty lit -> checki32 lit = true ->
  let c' := add_entry c r (c_bufmax c) r (mkIR kKINT ty (u4 (i4 lit)) (chain c kKINT)) in
  literals_added c c' /\ literal_is c' s ty lit r.
Proof.
  intros Hc Hr Hs Hty Hl64 Hsg Hlit c'.
  destruct (add_literal c (mkIR kKINT ty (u4 (i4 lit)) (chain c kKINT)) r
              Hc Hr Hs eq_refl eq_refl) as (Hok & Hext & Hv & Hi). fold c' in Hok, Hext, Hv, Hi. pose proof (ok_bounds c Hc) as Hb.
  split; [split; [split| | |]|]; try done.
  - intros x Hx. apply Hv in Hx as [->|Hx]; [by rewrite Hi|].
    rewrite (ext_ir _ _ Hext) by done. intros Ho. apply Hv. right. by apply (ok_kword c Hc).
  - intros x Hx Hnx. apply Hv in Hx as [->|]; [by rewrite Hi|done].
  - assert (Hvr : valid c' r) by (apply Hv; by left).
    unfold literal_is. rewrite Hi. unfold ir_type. cbn [ir_t ir_o]. rewrite Hty. split_and!; try done.
    + unfold irref_islit. apply Z.ltb_lt. lia.
    + unfold literalValue. rewrite ir_valid, Hi by done. cbn [obind ir_o]. unfold ir_type. cbn [ir_t].
      rewrite Hty. fold (isSigned ty). f_equal. rewrite <- (kint_value ty lit Hl64 Hsg Hlit) at 3.
      unfold i32, i4, u4. cbn [op12].
      by rewrite to_s_to_u, to_s_id by (try apply (to_s_bound 32); lia).
Qed.

(** A 64-bit literal. *)
Lemma new_kword c s ty lit r :
  code_ok c -> r = c_bufmin c - 1 -> c_bufstart c < r ->
  Z.land ty IRT_TYPE = ty -> 0 <= lit < 2 ^ 64 ->
  let c1 := add_entry c r (c_bufmax c) r (mkIR kKWORD ty (u4 lit) (chain c kKWORD)) in
  let c2 := add_entry c1 (r - 1) (c_bufmax c) (r - 1)
              (mkIR kKWORDHI ty (u4 (Z.shiftr lit 32)) (chain c1 kKWORDHI)) in
  literals_added c c2 /\ literal_is c2 s ty lit r.
Proof.
  intros Hc Hr Hs Hty Hlit c1 c2. pose proof (ok_bounds c Hc) as Hb.
  destruct (add_literal c (mkIR kKWORD ty (u4 lit) (chain c kKWORD)) r
              Hc Hr ltac:(lia) eq_refl eq_refl) as (Hok & Hext & Hv & Hi). fold c1 in Hok, Hext, Hv, Hi.
  set (ihi := mkIR kKWORDHI ty (u4 (Z.shiftr lit 32)) (chain c1 kKWORDHI)) in c2.
  assert (chains_ok c2 /\ code_ext c1 c2 /\ (forall x, valid c2 x <-> x = r - 1 \/ valid c1 x)
          /\ raw_ir c2 (r - 1) = ihi) as (Hok' & Hext' & Hv' & Hi')
    by exact (add_literal c1 ihi (r - 1) Hok eq_refl ltac:(cbn; lia) eq_refl eq_refl).
  assert (Hvr : valid c1 r) by (apply Hv; by left).
  assert (Hvr' : valid c2 r) by (apply Hv'; by right).
  assert (Hvh : valid c2 (r - 1)) by (apply Hv'; by left).
  assert (Hi2 : raw_ir c2 r = mkIR kKWORD ty (u4 lit) (chain c kKWORD))
    by by rewrite (ext_ir _ _ Hext').
  split; [split; [split| | |]|]; try done.
  - intros x Hx. apply Hv' in Hx as [->|Hx]; [by rewrite Hi'|]. apply Hv in Hx as [->|Hx]; [done|].
    rewrite (ext_ir _ _ Hext'), (ext_ir _ _ Hext) by (try apply Hv; auto).
    intros Ho. apply Hv'. right. apply Hv. right. by apply (ok_kword c Hc).
  - by transitivity c1.
  - intros x Hx Hnx. apply Hv' in Hx as [->|Hx]; [by rewrite Hi'|].
    apply Hv in Hx as [->|]; [by rewrite Hi2|done].
  - unfold literal_is. rewrite Hi2. unfold ir_type. cbn [ir_t ir_o]. rewrite Hty. split_and!; try done.
    + unfold irref_islit. apply Z.ltb_lt. lia.
    + unfold literalValue. rewrite (ir_valid c2 r), Hi2 by done. cbn [obind ir_o].
      rewrite ir_valid, Hi' by done. cbn [obind]. f_equal. unfold u32. cbn [op12 ihi].
      unfold u4. rewrite !to_u_idemp by lia. by apply (halves lit).
Qed.

Lemma literals_added_refl c : code_ok c -> literals_added c c.
Proof. intros Hc. split; [done|reflexivity| |done]. intros r Hr Hn. by destruct Hn. Qed.

(** A literal found on its chain. *)
Lemma found_literal c s ty v op r :
  code_ok c -> valid c r -> ir_o (raw_ir c r) = op -> is_literal_op op = true -> op <> kKWORDHI ->
  ir_type (raw_ir c r) = ty -> literalValue c s r = Ok v ->
  literals_added c c /\ literal_is c s ty v (TRef.ref (TRef.make r ty)).
Proof.
  intros Hc Hv Ho Hop Hhi Ht Hl. split; [by apply literals_added_refl|].
  rewrite (ref_make c r ty Hc Hv). split_and!; try done; [by rewrite <- (ok_lit c Hc), Ho|by rewrite Ho].
Qed.
(** A literal just added. *)
Lemma made_literal c c' s ty v r :
  literals_added c c' /\ literal_is c' s ty v r ->
  literals_added c c' /\ literal_is c' s ty v (TRef.ref (TRef.make r ty)).
Proof.
  intros [Hla Hli]. rewrite (ref_make c' r ty); [by split|apply Hla|apply Hli].
Qed.

(** [literal] answers with a reference to a literal of that value. *)
Lemma literal_spec c s ty lit :
  code_ok c -> Z.land ty IRT_TYPE = ty -> readable ty lit -> 0 <= lit < 2 ^ 64 ->
  returns (fun '(c', tr) => literals_added c c' /\ literal_is c' s ty lit (TRef.ref tr))
    (literal c ty lit).
Proof.
  intros Hc Hty Hsg Hlit. unfold literal. destruct (checki32 lit) eqn:Hck.
  - destruct (literal_chain_find c (fun _ i => (i32 i =? i4 lit) && (ir_type i =? ty)) kKINT Hc eq_refl)
      as (r & -> & Hr). cbn [obind].
    destruct (Z.eqb_spec r 0) as [->|Hn]; cbn [negb].
    + eapply returns_bind; [apply nextLit_spec|]. intros [c' x] (Er & Hs & ->).
      apply made_literal.
      exact (new_kint c s ty lit x Hc Er Hs Hty Hlit Hsg Hck).
    + destruct Hr as [|(Hv & Ho & Hp)]; [done|]. apply andb_prop in Hp as [Hk Ht].
      apply Z.eqb_eq in Hk, Ht. eapply found_literal; try done.
      unfold literalValue. rewrite ir_valid by done. cbn [obind]. rewrite Ho, Ht. fold (isSigned ty).
      rewrite Hk. f_equal. by apply kint_value.
  - destruct (literal_chain_find c (fun ref i => (ir_type i =? ty) && (u32 i =? u4 lit)
                  && (u32 (raw_ir c (ref - 1)) =? u4 (Z.shiftr lit 32))) kKWORD Hc eq_refl)
      as (r & -> & Hr). cbn [obind].
    destruct (Z.eqb_spec r 0) as [->|Hn]; cbn [negb].
    + eapply returns_bind; [apply nextLit_spec|]. intros [c' x] (Er & Hs & ->).
      eapply returns_bind; [apply nextLit_spec|]. intros [c' y] (Ey & Hs' & ->).
      cbn in Ey, Hs'. subst y. rewrite Z.eqb_refl. apply made_literal.
      exact (new_kword c s ty lit x Hc Er ltac:(lia) Hty Hlit).
    + destruct Hr as [|(Hv & Ho & Hp)]; [done|].
      apply andb_prop in Hp as [Hp Hhi]. apply andb_prop in Hp as [Ht Hlo].
      apply Z.eqb_eq in Hhi, Hlo, Ht. eapply found_literal; try done.
      assert (Hv1 : valid c (r - 1)) by by eapply ok_kword.
      unfold literalValue. rewrite ir_valid by done. cbn [obind]. rewrite Ho.
      rewrite ir_valid by done. cbn [obind]. rewrite Hlo, Hhi. f_equal. by apply halves.
Qed.

Lemma literalValue_bound c s r v : literalValue c s r = Ok v -> 0 <= v < 2 ^ 64.
Proof.
  unfold literalValue. intros H. inv_ok. destruct (ir_o _); try discriminate H; inv_ok.
  - case_match; [apply to_u_bound; lia|]. pose proof (to_u_bound 32 ltac:(lia) (i32 x)). unfold u4. lia.
  - apply lor_bound; [lia|pose proof (to_u_bound 32 ltac:(lia) (op12 x)); unfold u32, u4; lia|].
    rewrite Z.shiftl_mul_pow2 by lia.
    pose proof (to_u_bound 32 ltac:(lia) (op12 x0)). unfold u32, u4. lia.
  - apply to_u_bound. lia.
Qed.

(** New literals get their values. *)
Lemma models_literals c c' s val :
  code_ok c -> literals_added c c' -> models c s val ->
  exists val', agree c val val' /\ models c' s val'.
Proof.
  intros Hc Hla Hm.
  exists (extend c val (fun r => match literalValue c' s r with Ok v => v | Err _ => 0 end)).
  split; [apply extend_agree|]. apply models_extend; try done; [apply Hla|].
  intros r Hr Hnr. pose proof (la_new _ _ Hla r Hr Hnr) as Hl. unfold meaning, holds. split_and!.
  - case_match eqn:E; [|lia]. apply literalValue_bound in E. lia.
  - case_match eqn:E; [|lia]. apply literalValue_bound in E. lia.
  - by intros v ->.
  - intros v. by destruct (ir_o (raw_ir c' r)).
  - intros t. by destruct (ir_o (raw_ir c' r)).
Qed.

(** ** Emitting an instruction *)

(** The answer [tr] denotes the value [v]; references from before keep
    their values. *)
Definition produces (b : IRBuffer) (val : Z -> Z) (v : Z) (a : IRBuffer * Z) : Prop :=
  exists val',
    code_ok (b_code a.1) /\ code_ext (b_code b) (b_code a.1) /\ b_slots a.1 = b_slots b
    /\ agree (b_code b) val val' /\ models (b_code a.1) (b_slots a.1) val'
    /\ operand (b_code a.1) (TRef.ref a.2) /\ val' (TRef.ref a.2) = v.

(** The instruction in the fold state is a 64-bit operation with the
    value [v]. *)
Record pending (b : IRBuffer) (val : Z -> Z) (v : Z) : Prop := {
  pend_code : code_ok (b_code b);
  pend_models : models (b_code b) (b_slots b) val;
  pend_type : ir_type (fins b) = I64;
  pend_guard : isGuard (fins b) = false;
  pend_operands : operands (b_code b) (fins b);
  pend_meaning : meaning val (fins b) = Some v
}.

Lemma meaning_bound val i v : meaning val i = Some v -> 0 <= v < 2 ^ 64.
Proof. unfold meaning, arith. intros E. case_match; simplify_eq; apply to_u_bound; lia. Qed.
Lemma meaning_op val i v :
  meaning val i = Some v -> is_literal_op (ir_o i) = false /\ ir_o i <> kKWORDHI.
Proof. unfold meaning, arith. by destruct (ir_o i). Qed.
Lemma meaning_holds val val' i v : meaning val i = Some v -> holds val' i = None.
Proof. unfold meaning, holds, arith. by destruct (ir_o i). Qed.

Lemma new_ins c i r :
  code_ok c -> r = c_bufmax c -> r < c_bufend c ->
  is_literal_op (ir_o i) = false -> ir_prev i = chain c (ir_o i) -> operands c i ->
  let c' := add_entry c (c_bufmin c) (r + 1) r i in
  code_ok c' /\ code_ext c c' /\ (forall x, valid c' x <-> x = r \/ valid c x) /\ raw_ir c' r = i.
Proof.
  intros Hc -> Hr Hlit Hp Hops c'. pose proof (ok_bounds _ Hc) as Hb. unfold c'.
  set (r := c_bufmax c) in *.
  assert (Hn : next_to c (c_bufmin c) (r + 1) r) by (right; lia).
  pose proof (add_entry_ext c _ _ r i Hc Hn) as Hext.
  pose proof (fun x => valid_add c _ _ r i x Hc Hn) as Hval.
  assert (Hi : raw_ir (add_entry c (c_bufmin c) (r + 1) r i) r = i)
    by by rewrite raw_ir_add, decide_True.
  split; [split|by split_and!].
  - apply (add_entry_ok c _ _ r i Hc Hn); try done.
    rewrite Hlit. unfold irref_islit. symmetry. apply Z.ltb_ge. lia.
  - intros x Hx. apply Hval in Hx as [->|Hx]; [rewrite Hi; intros E; by rewrite E in Hlit|].
    rewrite (ext_ir _ _ Hext) by done. intros E. apply Hval. right. by apply (ok_kword c Hc).
Qed.

(** [emit()] for any instruction whose operands are in the buffer. *)
Definition ins_added (b : IRBuffer) (a : IRBuffer * Z) : Prop :=
  let r := c_bufmax (b_code b) in
  code_ok (b_code a.1) /\ code_ext (b_code b) (b_code a.1) /\ b_slots a.1 = b_slots b
  /\ (forall x, valid (b_code a.1) x <-> x = r \/ valid (b_code b) x) /\ TRef.ref a.2 = r
  /\ ir_o (raw_ir (b_code a.1) r) = ir_o (fins b) /\ op12 (raw_ir (b_code a.1) r) = op12 (fins b).

Lemma emit_ins_code b :
  code_ok (b_code b) -> is_literal_op (ir_o (fins b)) = false -> operands (b_code b) (fins b) ->
  returns (ins_added b) (emit_ins b).
Proof.
  intros Hc Hlit Ho. unfold emit_ins.
  eapply returns_bind; [apply nextIns_spec|]. intros [c1 r] (Er & Hr & ->). cbv zeta.
  set (i := mkIR (ir_o (fins b)) (ir_t (fins b)) (op12 (fins b)) (chain (b_code b) (ir_o (fins b)))).
  set (c := b_code b) in *.
  destruct (new_ins c i r Hc Er Hr Hlit eq_refl Ho) as (Hok & Hext & Hval & Hi).
  set (c' := add_entry c (c_bufmin c) (r + 1) r i) in *.
  match goal with |- context [set_code b ?x] => change x with c' end.
  assert (Hrv : valid c' r) by (apply Hval; by left).
  assert (Hdone : forall b', b_code b' = c' -> b_slots b' = b_slots b ->
                    ins_added b (b', TRef.make r (ir_t (fins b)))).
  { intros b' Ec Es. unfold ins_added. cbn [fst snd]. fold c. rewrite Ec, <- Er, Hi.
    rewrite (ref_make c' r _ Hok Hrv). by split_and!. }
  match goal with |- context [isGuard ?x] => destruct (isGuard x) end; cbn [obind returns].
  2: { by apply Hdone. }
  unfold buf_snapshot. case_match. cbn [b_code set_code].
  destruct (negb (chain c' kNEW =? 0)) eqn:Hnew; cbn [obind returns].
  2: { by apply Hdone. }
  destruct (ok_chain c' Hok kNEW) as [E|[Hnv _]]; [by rewrite E in Hnew|].
  rewrite ir_valid by done. cbn [obind returns]. by apply Hdone.
Qed.

(** [v] is a value for the instruction in the fold state. *)
Record value_of (b : IRBuffer) (val : Z -> Z) (v : Z) : Prop := {
  vo_code : code_ok (b_code b);
  vo_models : models (b_code b) (b_slots b) val;
  vo_op : is_literal_op (ir_o (fins b)) = false;
  vo_operands : operands (b_code b) (fins b);
  vo_word : 0 <= v < 2 ^ 64;
  vo_meaning : forall w, meaning val (fins b) = Some w -> v = w;
  vo_holds : forall t, holds val (fins b) = Some t -> t = true
}.

Lemma emit_ins_value b val v : value_of b val v -> returns (produces b val v) (emit_ins b).
Proof.
  intros [Hc Hm Hlit Ho Hv Hmean Hh]. pose proof (ok_bounds _ Hc) as Hb.
  assert (Hhi : ir_o (fins b) <> kKWORDHI) by (intros E; by rewrite E in Hlit).
  eapply returns_mono; [by apply emit_ins_code|].
  intros [b' tr] (Hok & Hext & Hs & Hval & Hr & Hop & Hw). cbn [fst snd] in *.
  set (r := c_bufmax (b_code b)) in *.
  assert (Hfresh : ~ valid (b_code b) r) by (unfold valid; lia).
  assert (Hrv : valid (b_code b') r) by (apply Hval; by left).
  exists (extend (b_code b) val (fun _ => v)). cbn [fst snd].
  rewrite Hr, Hs, extend_new by done.
  split_and!; try done; [apply extend_agree| |].
  2: { split; [done|by rewrite Hop]. }
  destruct (meaning_agree (b_code b) val (extend (b_code b) val (fun _ => v)) (fins b) Ho) as [Em Eh];
    [apply extend_agree|].
  apply models_extend; try done. intros x Hx Hnx. apply Hval in Hx as [->|]; [|done].
  assert (E : meaning (extend (b_code b) val (fun _ => v)) (raw_ir (b_code b') r) = meaning val (fins b)
              /\ holds (extend (b_code b) val (fun _ => v)) (raw_ir (b_code b') r) = holds val (fins b)).
  { rewrite <- Em, <- Eh. unfold meaning, holds, op1, op2. by rewrite Hop, Hw. }
  destruct E as [-> ->]. split; [done|]. split; [|by split].
  intros w. unfold literalValue. rewrite ir_valid by done. cbn [obind]. rewrite Hop.
  by destruct (ir_o (fins b)).
Qed.

Lemma pending_value b val v : pending b val v -> value_of b val v.
Proof.
  intros [Hc Hm Ht Hg Ho Hv]. destruct (meaning_op _ _ _ Hv) as [Hlit _].
  split; try done; [by eapply meaning_bound|congruence|].
  intros t. by rewrite (meaning_holds _ _ _ _ Hv).
Qed.
Lemma emit_ins_spec b val v : pending b val v -> returns (produces b val v) (emit_ins b).
Proof. intros. by apply emit_ins_value, pending_value. Qed.

(** ** Common subexpressions *)

Lemma pack_ops o t a b p :
  0 <= a < 2 ^ 16 -> 0 <= b < 2 ^ 16 ->
  op1 (mkIR o t (a + Z.shiftl b 16) p) = a /\ op2 (mkIR o t (a + Z.shiftl b 16) p) = b.
Proof.
  intros Ha Hb. unfold op1, op2, u2, to_u. cbn [op12].
  rewrite Z.shiftl_mul_pow2, Z.shiftr_div_pow2, Z.mod_add, Z.div_add by lia.
  rewrite (Z.div_small a) by lia. cbn [Z.add]. by rewrite !Z.mod_small by lia.
Qed.
Lemma op1_bound i : 0 <= op1 i < 2 ^ 16.
Proof. apply to_u_bound. lia. Qed.
Lemma op2_bound i : 0 <= op2 i < 2 ^ 16.
Proof. apply to_u_bound. lia. Qed.

Lemma cse_find_spec c word lim op fuel ref :
  chains_ok c -> is_literal_op op = false -> 0 <= lim ->
  ref = 0 \/ (valid c ref /\ ir_o (raw_ir c ref) = op /\ ref - REF_BIAS < Z.of_nat fuel - 1) ->
  (0 < fuel)%nat ->
  exists o, cse_find fuel c word lim ref = Ok o /\
    forall r, o = Some r -> valid c r /\ lim < r /\ ir_o (raw_ir c r) = op /\ op12 (raw_ir c r) = word.
Proof.
  intros Hc Hop Hlim. revert ref. induction fuel as [|fuel IH]; intros ref Href Hf; [lia|].
  cbn [cse_find]. destruct (Z.ltb_spec lim ref) as [Hl|Hl]; [|by eexists].
  destruct Href as [->|(Hv & Ho & Hd)]; [lia|].
  rewrite ir_valid by done. cbn [obind].
  destruct (Z.eqb_spec (op12 (raw_ir c ref)) word) as [Hw|Hw].
  { eexists. split; [done|]. intros r [= <-]. auto. }
  assert (Hb : irref_islit ref = false) by (rewrite <- (ok_lit c Hc), Ho; done).
  assert (REF_BIAS <= ref) by (unfold irref_islit in Hb; lia).
  destruct (ok_link c Hc ref Hv) as [Hz|(Hv' & Ho' & Hlt)].
  - rewrite Hz. apply IH; [by left|lia].
  - rewrite Hb in Hlt. apply IH; [right|lia]. rewrite Ho'. split_and!; (done || lia).
Qed.

(** An equal instruction has the same value, if its opcode says which. *)
Lemma optCSE_value b val v :
  value_of b val v ->
  returns (fun a => exists v', produces b val v' a /\ forall w, meaning val (fins b) = Some w -> v' = w)
    (optCSE b).
Proof.
  intros Hp. unfold optCSE.
  assert (Hemit : returns (fun a => exists v', produces b val v' a
                    /\ forall w, meaning val (fins b) = Some w -> v' = w) (emit_ins b)).
  { eapply returns_mono; [by apply emit_ins_value|]. intros a Ha. exists v. split; [done|]. apply Hp. }
  case_match; [|done]. pose proof Hp as [Hc Hm Hlit Ho _ _ _]. pose proof (ok_bounds _ Hc) as Hb.
  assert (Hhi : ir_o (fins b) <> kKWORDHI) by (intros E; by rewrite E in Hlit).
  pose proof (op1_bound (fins b)) as H1. pose proof (op2_bound (fins b)) as H2.
  destruct (cse_find_spec (b_code b) (op1 (fins b) + Z.shiftl (op2 (fins b)) 16)
              (Z.max (op1 (fins b)) (op2 (fins b))) (ir_o (fins b)) (chain_fuel (b_code b))
              (chain (b_code b) (ir_o (fins b)))) as (o & -> & Hfound); try (done || lia).
  { apply Hc. }
  { destruct (ok_chain _ Hc (ir_o (fins b))) as [|[Hr Hop]]; [by left|right].
    split_and!; try done. unfold chain_fuel, valid in *. lia. }
  { unfold chain_fuel. lia. }
  cbn [obind]. destruct o as [r|]; [|done].
  destruct (Hfound r eq_refl) as (Hr & _ & Hop & Hw). rewrite ir_valid by done. cbn [obind returns].
  destruct (pack_ops (ir_o (fins b)) (ir_t (raw_ir (b_code b) r)) (op1 (fins b)) (op2 (fins b))
              (ir_prev (raw_ir (b_code b) r)) H1 H2) as [E1 E2].
  exists (val r). split.
  - exists val. cbn [fst snd]. rewrite (ref_make _ _ _ Hc Hr). split_and!; try done.
    split; [done|congruence].
  - intros w Hv. apply (val_arith _ _ _ Hm r w Hr). rewrite <- Hv. unfold meaning. rewrite Hop.
    unfold op1, op2 in *. cbn [op12] in *. by rewrite Hw, E1, E2.
Qed.
Lemma optCSE_spec b val v : pending b val v -> returns (produces b val v) (optCSE b).
Proof.
  intros Hp. eapply returns_mono; [by apply (optCSE_value b val v), pending_value|].
  intros a (v' & Ha & Hv). by rewrite <- (Hv v) by apply Hp.
Qed.

(** ** The empty buffer *)

Lemma chain_find_0 fuel c p : (0 < fuel)%nat -> chain_find fuel c p 0 = Ok 0.
Proof. by destruct fuel; [lia|]. Qed.

(** The first literal of a buffer is the one below [REF_BIAS]. *)
Lemma literal_first c ty lit :
  chain c kKINT = 0 -> chain c kKWORD = 0 -> c_bufstart c + 2 <= c_bufmin c ->
  exists c', literal c ty lit = Ok (c', TRef.make (c_bufmin c - 1) ty).
Proof.
  intros H1 H2 Hb. assert (Hf : (0 < chain_fuel c)%nat) by (unfold chain_fuel; lia).
  assert (Hlit : forall c, c_bufstart c < c_bufmin c ->
    nextLit c = Ok (mkCode (c_buffer c) (c_bufmin c - 1) (c_bufmax c) (c_bufstart c) (c_bufend c)
                      (c_chain c), c_bufmin c - 1)).
  { intros c0 H0. unfold nextLit. by rewrite (proj2 (Z.leb_gt _ _)) by lia. }
  unfold literal. rewrite H1, H2, !chain_find_0 by done.
  destruct (checki32 lit); cbn [obind Z.eqb negb]; rewrite Hlit by lia; cbn [obind]; [by eexists|].
  rewrite Hlit by (cbn; lia). cbn [obind c_bufmin]. rewrite Z.eqb_refl. by eexists.
Qed.

(** A literal is not in the chain of the base instruction. *)
Lemma literal_chain_base c ty lit c' tr : literal c ty lit = Ok (c', tr) -> chain c' kBASE = chain c kBASE.
Proof.
  assert (Hn : forall c c' r, nextLit c = Ok (c', r) -> chain c' kBASE = chain c kBASE).
  { intros c0 c1 r. unfold nextLit. destruct (_ <=? _); [done|]. by intros [= <- _]. }
  assert (Hp : forall c r op w, op <> kBASE -> chain (put_literal c r op ty w) kBASE = chain c kBASE).
  { intros c0 r op w Ho. unfold put_literal, chain. cbn. rewrite lookup_insert_ne; [done|]. intros E. by apply Ho, Opcode_num_inj. }
  unfold literal. destruct (checki32 lit); (destruct (chain_find _ _ _ _) as [ref|]; [|done]); cbn [obind];
    (destruct (negb _); [by intros [= <- _]|]).
  - destruct (nextLit c) as [[c1 r]|] eqn:E; [|done]. cbn [obind]. intros [= <- _]. by rewrite Hp, (Hn _ _ _ E).
  - destruct (nextLit c) as [[c1 r]|] eqn:E1; [|done]. cbn [obind].
    destruct (nextLit c1) as [[c2 r2]|] eqn:E2; [|done]. cbn [obind]. destruct (_ =? _); [|done]. cbn [obind].
    intros [= <- _]. by rewrite !Hp, (Hn _ _ _ E2), (Hn _ _ _ E1).
Qed.

(** The buffer [reset] starts from. *)
Definition empty_code (size : Z) : IRCode :=
  mkCode ∅ REF_BIAS REF_BASE (REF_BIAS - size / 4) (REF_BIAS - size / 4 + size) ∅.
Lemma empty_code_ok : code_ok (empty_code 1024).
Proof.
  assert (Hv : forall r, ~ valid (empty_code 1024) r) by (intros r; unfold valid; cbn; unfold REF_BASE; lia).
  split; [split|]; try (intros r Hr; by destruct (Hv r Hr)).
  - by vm_compute.
  - intros op. left. unfold chain. cbn. by rewrite lookup_empty.
Qed.

(** The base instruction is in the buffer, and it is the only one. *)
Definition base_only (c : IRCode) : Prop :=
  valid c REF_BASE /\ raw_ir c REF_BASE = mkIR kBASE (IRType_num IRT_PTR) 0 0 /\ chain c kBASE = REF_BASE
  /\ c_bufmax c = REF_FIRST.
Lemma reset_spec info base top :
  0 <= info < 2 ^ 63 -> base <= top -> (top - base) / 8 < kSlots - kInitialBase ->
  exists b, reset info base top = Ok b /\ code_ok (b_code b)
    /\ (forall r, valid (b_code b) r -> r = REF_BASE \/ is_literal_op (ir_o (raw_ir (b_code b) r)) = true)
    /\ literalValue (b_code b) (b_slots b) REF_IND = Ok info
    /\ base_only (b_code b) /\ AbstractStack.reset base top = Ok (b_slots b).
Proof.
  intros Hi Hbt Ht. unfold reset, AbstractStack.reset. cbv zeta.
  assert (Ht' : (kInitialBase + (top - base) / 8 <? kSlots) = true) by (apply Z.ltb_lt; lia).
  rewrite (proj2 (Z.leb_le _ _) Hbt), Ht'. cbn [obind]. fold (empty_code 1024). unfold emitRaw.
  set (b0 := set_ins _ _ _ _ _).
  pose proof (emit_ins_code b0 empty_code_ok eq_refl I) as He.
  destruct (emit_ins b0) as [[b1 tr]|e] eqn:E; [|by vm_compute in E].
  destruct He as (Hc & Hext & Hs & Hv & _ & Hop & _). cbn [fst snd obind] in *.
  assert (b_code b1 = add_entry (empty_code 1024) REF_BIAS (REF_BASE + 1) REF_BASE
                        (mkIR kBASE (IRType_num IRT_PTR) 0 0)) as Ec by (by injection E as <- _).
  destruct (literal_first (b_code b1) (IRType_num IRT_INFO) info) as [c' Hlit];
    [by rewrite Ec..|by rewrite Ec|].
  pose proof (literal_spec (b_code b1) (b_slots b1) (IRType_num IRT_INFO) info Hc eq_refl
                ltac:(right; lia) ltac:(lia)) as Hl.
  rewrite Hlit in Hl |- *. cbn [returns obind] in *. destruct Hl as [Hla (Hr & _ & _ & _ & Hval)].
  assert (Hmin : c_bufmin (b_code b1) = REF_BIAS) by by rewrite Ec.
  rewrite Hmin in *. change (TRef.ref (TRef.make (REF_BIAS - 1) (IRType_num IRT_INFO))) with REF_IND in *.
  rewrite Z.eqb_refl. eexists. split; [done|]. cbn [b_code b_slots set_code].
  split; [apply Hla|]. split; [|split; [done|split]].
  2: { assert (Hvb : valid (b_code b1) REF_BASE) by (apply Hv; by left). destruct (la_ext _ _ Hla) as [Ev Eq].
       split; [by apply Ev|]. split; [by rewrite Eq, Ec|]. split; [|by rewrite (la_max _ _ Hla), Ec].
       by rewrite (literal_chain_base _ _ _ _ _ Hlit), Ec. }
  2: by rewrite Hs.
  intros r Hrv.
  destruct (valid_dec (b_code b1) r) as [Hv1|Hv1]; [|right; by apply (la_new _ _ Hla)].
  left. apply Hv in Hv1 as [->|[? ?]]; [done|]. cbn in *. unfold REF_BASE in *. lia.
Qed.

(** ** Claims *)

(** C29: [literal] followed by [literalValue] gives the value back, for
    signed types and for all values below 2^63, and no older literal
    changes its value. *)
Theorem literal_reads_back c s ty lit :
  code_ok c -> Z.land ty IRT_TYPE = ty -> readable ty lit -> 0 <= lit < 2 ^ 64 ->
  returns (fun '(c', tr) =>
      literalValue c' s (TRef.ref tr) = Ok lit /\ ir_type (raw_ir c' (TRef.ref tr)) = ty
      /\ code_ok c'
      /\ forall r, valid c r -> literalValue c' s r = literalValue c s r)
    (literal c ty lit).
Proof.
  intros Hc Hty Hr Hl. eapply returns_mono; [by apply literal_spec|].
  intros [c' tr] [Hla (_ & _ & Ht & _ & Hv)]. split_and!; try done; [apply Hla|].
  intros r Hvr. apply literalValue_ext; try done. apply Hla.
Qed.

(** C40: [reset] leaves a well-formed buffer with the base instruction, of
    type PTR and without operands, at [REF_BASE] and in its chain, no
    other instruction, and the literal of [stg_IND_info] at [REF_IND]. *)
Theorem reset_well_formed info base top :
  0 <= info < 2 ^ 63 -> base <= top -> (top - base) / 8 < kSlots - kInitialBase ->
  exists b, reset info base top = Ok b /\ code_ok (b_code b)
    /\ valid (b_code b) REF_BASE /\ raw_ir (b_code b) REF_BASE = mkIR kBASE (IRType_num IRT_PTR) 0 0
    /\ chain (b_code b) kBASE = REF_BASE /\ c_bufmax (b_code b) = REF_FIRST
    /\ (forall r, valid (b_code b) r ->
          r = REF_BASE \/ is_literal_op (ir_o (raw_ir (b_code b) r)) = true)
    /\ literalValue (b_code b) (b_slots b) REF_IND = Ok info.
Proof.
  intros. destruct (reset_spec info base top) as (b & ? & ? & ? & ? & (? & ? & ? & ?) & _); [done..|]. by exists b.
Qed.
