(* ===== verification/Registers.v ===== *)
(** * Registers, register sets, spill slots and costs ([assembler.hh])

    The sets are bit masks, as in the code.  A [SpillSet] has 256 slots
    in four words; slot 0 is never handed out. *)

From S2P Require Import Prelude Words IR.

(** ** Register numbers *)
Definition RID_EAX : Z := 0.
Definition RID_ECX : Z := 1.
Definition RID_EDX : Z := 2.
Definition RID_EBX : Z := 3.
Definition RID_ESP : Z := 4.
Definition RID_EBP : Z := 5.
Definition RID_ESI : Z := 6.
Definition RID_EDI : Z := 7.
Definition RID_R12D : Z := 12.
Definition RID_MIN_GPR : Z := RID_EAX.
Definition RID_MAX_GPR : Z := 16.
Definition RID_MAX : Z := 32.
Definition RID_MRM : Z := RID_MAX.
Definition RID_BASE : Z := RID_EBP.
Definition RID_HP : Z := RID_R12D.

(** A register field is a register, or [RID_NONE] with a hint. *)
Definition RID_NONE : Z := 0x80.
Definition RID_MASK : Z := 0x7f.
Definition RID_INIT : Z := Z.lor RID_NONE RID_MASK.
Definition isNoReg (r : Z) : bool := negb (Z.land r RID_NONE =? 0).
Definition isReg (r : Z) : bool := Z.land r RID_NONE =? 0.
Definition hasHint (r : Z) : bool := negb (r =? RID_INIT).
(** The declared result type is [bool]: the hint is 0 or 1. *)
Definition getHint (r : Z) : Z := if Z.land r RID_MASK =? 0 then 0 else 1.
Definition sameHint (r1 r2 : Z) : bool := getHint (Z.lxor r1 r2) =? 0.

(** The register and spill fields of an instruction share its [prev]. *)
Definition REGSP (r s : Z) : Z := r + Z.shiftl s 8.
Definition REGSP_HINT (r : Z) : Z := Z.lor r RID_NONE.
Definition REGSP_INIT : Z := REGSP RID_INIT 0.
Definition regsp_reg (rs : Z) : Z := Z.land rs 0xff.
Definition regsp_spill (rs : Z) : Z := Z.shiftr rs 8.
Definition ir_reg (i : IR) : Z := u1 (ir_prev i).
Definition ir_spill (i : IR) : Z := u1 (Z.shiftr (ir_prev i) 8).
Definition setPrev (i : IR) (p : Z) : IR := mkIR (ir_o i) (ir_t i) (op12 i) (u2 p).
Definition setReg (i : IR) (r : Z) : IR := setPrev i (REGSP (u1 r) (ir_spill i)).
Definition setSpill (i : IR) (s : Z) : IR := setPrev i (REGSP (ir_reg i) (u1 s)).
Definition setHint (i : IR) (r : Z) : IR := setReg i (Z.lor r RID_NONE).
Definition hasRegOrSpill (i : IR) : bool := isReg (ir_reg i) || negb (ir_spill i =? 0).

(** ** Bit positions: [__builtin_ctz] and [bsr] for arguments that are not 0 *)
Fixpoint pos_ctz (p : positive) : Z :=
  match p with xO p' => 1 + pos_ctz p' | _ => 0 end.
Definition lc_ffs (x : Z) : Z := match x with Zpos p => pos_ctz p | _ => 0 end.
Definition lc_fls (x : Z) : Z := Z.log2 x.

(** ** [class RegSet]: a 32-bit mask *)
Module RegSet.
Definition empty : Z := 0.
Definition bit (r : Z) : Z := u4 (Z.shiftl 1 r).
Definition fromReg (r : Z) : Z := bit r.
Definition range (lo hi : Z) : Z := u4 (Z.shiftl (u4 (Z.shiftl 1 (hi - lo) - 1)) lo).
Definition test (s r : Z) : bool := Z.land (Z.shiftr s r) 1 =? 1.
Definition isEmpty (s : Z) : bool := s =? 0.
Definition include (s r : Z) : Z := Z.lor s (bit r).
Definition exclude (s r : Z) : Z := Z.land s (u4 (Z.lnot (bit r))).
(** [set] and [clear] are [include] and [exclude] in place. *)
Definition set (s r : Z) : Z := include s r.
Definition clear (s r : Z) : Z := exclude s r.
Definition pickTop (s : Z) : Z := lc_fls s.
Definition pickBot (s : Z) : Z := lc_ffs s.
Definition intersect (s t : Z) : Z := Z.land s t.
Definition setunion (s t : Z) : Z := Z.lor s t.
Definition complement (s : Z) : Z := u4 (Z.lnot s).
End RegSet.

Definition kGPR : Z :=
  RegSet.exclude (RegSet.exclude (RegSet.exclude (RegSet.range RID_MIN_GPR RID_MAX_GPR) RID_ESP)
                    RID_BASE) RID_HP.

(** ** [class SpillSet]: a 1 bit is a slot that is available *)
Module SpillSet.
Definition ones : Z := u8 (Z.lnot 0).
Definition reset : list Z := [u8 (Z.lnot 1); ones; ones; ones].

(** [allocSpillHigh]: the first of the other words, from number [i] on,
    with a slot; [exit] when all are taken. *)
Fixpoint allocSpillHigh (l : list Z) (i : Z) : outcome (list Z * Z) :=
  match l with
  | [] => Err (Exited 1)
  | avail :: l' =>
      if negb (avail =? 0) then
        let slot := lc_ffs avail in
        Ok (Z.lxor avail (Z.shiftl 1 slot) :: l', i * 64 + slot)
      else let! '(l', slot) := allocSpillHigh l' (i + 1) in Ok (avail :: l', slot)
  end.
Definition alloc (d : list Z) : outcome (list Z * Z) :=
  match d with
  | [] => Err WildAccess
  | avail :: l =>
      if avail =? 0 then let! '(l, slot) := allocSpillHigh l 1 in Ok (avail :: l, slot)
      else
        let slot := lc_ffs avail in
        Ok (Z.lxor avail (Z.shiftl 1 slot) :: l, slot)
  end.
Definition block (d : list Z) (slot : Z) : outcome (list Z) :=
  assert! (0 <? slot) && (slot <? 256) in
  let i := Z.shiftr slot 6 in
  let bit := Z.land slot 63 in
  let! w := of_option WildAccess (d !! Z.to_nat i) in
  Ok (<[Z.to_nat i := Z.land w (u8 (Z.lnot (Z.shiftl 1 bit)))]> d).
Definition free (d : list Z) (slot : Z) : outcome (list Z) :=
  assert! (0 <? slot) && (slot <? 256) in
  let i := Z.shiftr slot 6 in
  let bit := Z.land slot 63 in
  let! w := of_option WildAccess (d !! Z.to_nat i) in
  Ok (<[Z.to_nat i := Z.lor w (Z.shiftl 1 bit)]> d).

(** Whether [slot] is available. *)
Definition avail (d : list Z) (slot : Z) : bool :=
  Z.testbit (default 0 (d !! Z.to_nat (slot / 64))) (slot mod 64).
End SpillSet.

(** ** [class RegCost]: the reference in the low half, the cost above it *)
Module RegCost.
Definition kPhiWeight : Z := 64.
Definition init : Z := 0xffff0000.
Definition make (r t : Z) : Z :=
  let other_cost := u4 (Z.land t IRT_ISPHI * (Z.shiftl kPhiWeight 16 / IRT_ISPHI)) in
  u4 (u4 (Z.shiftl (u2 r) 16) + u2 r + other_cost).
Definition maxCost : Z := u4 (Z.lnot 0).
Definition ref (raw : Z) : Z := u2 raw.
End RegCost.

(** ** Members of sets *)
Module RegSetProofs.
Import RegSet.

Lemma ctz_spec p : 0 <= pos_ctz p /\ Z.testbit (Zpos p) (pos_ctz p) = true.
Proof.
  induction p as [p IH|p IH|]; cbn [pos_ctz]; [done| |done].
  destruct IH as [IH1 IH2]. split; [lia|].
  replace (1 + pos_ctz p) with (Z.succ (pos_ctz p)) by lia.
  rewrite Pos2Z.inj_xO, Z.double_bits_succ. done.
Qed.

Lemma lc_ffs_spec x : 0 < x -> 0 <= lc_ffs x /\ Z.testbit x (lc_ffs x) = true.
Proof. destruct x; try lia. intros _. apply ctz_spec. Qed.

Lemma test_testbit s r : 0 <= r -> test s r = Z.testbit s r.
Proof.
  intros Hr. unfold test. change 1 with (Z.ones 1). rewrite Z.land_ones by lia. change (2 ^ 1) with 2.
  rewrite Z.testbit_odd, <- Z.bit0_odd. pose proof (Z.bit0_mod (Z.shiftr s r)) as H. rewrite <- H.
  by destruct (Z.testbit _ 0).
Qed.
Lemma testbit_bit q r : 0 <= q < 32 -> 0 <= r -> Z.testbit (bit q) r = (r =? q).
Proof.
  intros Hq Hr. unfold bit, u4, to_u. rewrite <- Z.land_ones, Z.land_spec, Z.testbit_ones_nonneg by lia.
  rewrite Z.shiftl_1_l. destruct (Z.eqb_spec r q) as [->|Hne].
  - rewrite Z.pow2_bits_true by lia. lia.
  - rewrite Z.pow2_bits_false by lia. done.
Qed.
Lemma testbit_u4_lnot s r : 0 <= r < 32 -> Z.testbit (u4 (Z.lnot s)) r = negb (Z.testbit s r).
Proof.
  intros Hr. unfold u4, to_u. rewrite <- Z.land_ones, Z.land_spec, Z.testbit_ones_nonneg, Z.lnot_spec by lia.
  replace (r <? 32) with true by lia. apply andb_true_r.
Qed.

Lemma test_include s q r : 0 <= q < 32 -> 0 <= r -> test (include s q) r = test s r || (r =? q).
Proof. intros. unfold include. by rewrite !test_testbit, Z.lor_spec, testbit_bit by lia. Qed.
Lemma test_exclude s q r : 0 <= q < 32 -> 0 <= r < 32 -> test (exclude s q) r = test s r && negb (r =? q).
Proof.
  intros. unfold exclude. by rewrite !test_testbit, Z.land_spec, testbit_u4_lnot, testbit_bit by lia.
Qed.
Lemma test_intersect s t r : 0 <= r -> test (intersect s t) r = test s r && test t r.
Proof. intros. unfold intersect. by rewrite !test_testbit, Z.land_spec by lia. Qed.
Lemma test_setunion s t r : 0 <= r -> test (setunion s t) r = test s r || test t r.
Proof. intros. unfold setunion. by rewrite !test_testbit, Z.lor_spec by lia. Qed.
Lemma test_complement s r : 0 <= r < 32 -> test (complement s) r = negb (test s r).
Proof. intros. unfold complement. by rewrite !test_testbit, testbit_u4_lnot by lia. Qed.

(** A set that is not empty has the members that are picked. *)
Lemma pickBot_spec s : 0 <= s -> isEmpty s = false -> 0 <= pickBot s /\ test s (pickBot s) = true.
Proof.
  intros Hs He%Z.eqb_neq. destruct (lc_ffs_spec s ltac:(lia)) as [H1 H2].
  split; [done|]. by rewrite test_testbit.
Qed.
Lemma pickTop_spec s : 0 <= s -> isEmpty s = false -> 0 <= pickTop s /\ test s (pickTop s) = true.
Proof.
  intros Hs He%Z.eqb_neq. split; [apply Z.log2_nonneg|].
  unfold pickTop, lc_fls. rewrite test_testbit by apply Z.log2_nonneg. apply Z.bit_log2. lia.
Qed.
Lemma isEmpty_spec s r : isEmpty s = true -> test s r = false.
Proof. intros ->%Z.eqb_eq. unfold test. by rewrite Z.shiftr_0_l. Qed.
Lemma not_empty s : 0 <= s -> isEmpty s = false -> exists r, 0 <= r /\ test s r = true.
Proof. intros. exists (pickBot s). by apply pickBot_spec. Qed.
Lemma intersect_nonneg s t : 0 <= t -> 0 <= intersect s t.
Proof. intros. apply Z.land_nonneg. auto. Qed.

(** The allocatable registers. *)
Definition in_gpr (r : Z) : Prop := 0 <= r /\ test kGPR r = true.
Lemma gpr_list r : in_gpr r ->
  r = 0 \/ r = 1 \/ r = 2 \/ r = 3 \/ r = 6 \/ r = 7 \/ r = 8 \/ r = 9 \/ r = 10 \/ r = 11 \/ r = 13
  \/ r = 14 \/ r = 15.
Proof.
  intros [H0 Ht]. assert (Hr : r < 16).
  { rewrite test_testbit in Ht by done. destruct (Z_lt_le_dec r 16); [done|].
    rewrite (testbit_high kGPR 16) in Ht; [done|vm_compute; split; discriminate || done|done]. }
  assert (Hall : forallb (fun r => implb (test kGPR r) (negb (r =? 4) && negb (r =? 5) && negb (r =? 12)))
    (seqZ 0 16) = true) by (vm_compute; reflexivity).
  rewrite forallb_forall in Hall. specialize (Hall r ltac:(apply list_elem_of_In, elem_of_seqZ; lia)).
  rewrite Ht in Hall. cbn in Hall. lia.
Qed.
Lemma gpr_range r : in_gpr r -> 0 <= r < 16 /\ r <> 4 /\ r <> 5 /\ r <> 12.
Proof. intros H%gpr_list. lia. Qed.
End RegSetProofs.

(** ** Spill slots *)
Module SpillProofs.
Import SpillSet RegSetProofs.

(** Four words, and slot 0 is never available. *)
Definition wf (d : list Z) : Prop :=
  length d = 4%nat /\ Forall (fun w => 0 <= w < 2 ^ 64) d /\ avail d 0 = false.

Lemma wf_reset : wf reset.
Proof. split_and!; [done| |done]. repeat constructor; try (vm_compute; done). Qed.

(** Taking the lowest slot of a word. *)
Lemma take_slot w :
  0 < w < 2 ^ 64 ->
  0 <= lc_ffs w < 64 /\ Z.testbit w (lc_ffs w) = true
  /\ 0 <= Z.lxor w (Z.shiftl 1 (lc_ffs w)) < 2 ^ 64
  /\ (forall b, 0 <= b -> Z.testbit (Z.lxor w (Z.shiftl 1 (lc_ffs w))) b
                = Z.testbit w b && negb (b =? lc_ffs w)).
Proof.
  intros Hw. destruct (lc_ffs_spec w ltac:(lia)) as [H0 Ht].
  assert (Hlt : lc_ffs w < 64).
  { destruct (Z_lt_le_dec (lc_ffs w) 64); [done|]. by rewrite (testbit_high w 64) in Ht by lia. }
  split; [done|]. split; [done|]. split.
  - apply lxor_bound; [lia|lia|]. rewrite Z.shiftl_1_l. split; [lia|]. apply Z.pow_lt_mono_r; lia.
  - intros b Hb. rewrite Z.lxor_spec, Z.shiftl_1_l. destruct (Z.eqb_spec b (lc_ffs w)) as [->|Hne].
    + by rewrite Z.pow2_bits_true, Ht by done.
    + rewrite Z.pow2_bits_false by done. by rewrite xorb_false_r, andb_true_r.
Qed.

(** A slot by word and bit. *)
Lemma avail_word d i b :
  0 <= b < 64 -> avail d (Z.of_nat i * 64 + b) = Z.testbit (default 0 (d !! i)) b.
Proof.
  intros Hb. unfold avail. replace ((Z.of_nat i * 64 + b) / 64) with (Z.of_nat i)
    by (Z.to_euclidean_division_equations; lia).
  replace ((Z.of_nat i * 64 + b) mod 64) with b by (Z.to_euclidean_division_equations; lia).
  by rewrite Nat2Z.id.
Qed.
Lemma slot_split s : 0 <= s -> exists i b, s = Z.of_nat i * 64 + b /\ 0 <= b < 64.
Proof.
  intros Hs. exists (Z.to_nat (s / 64)), (s mod 64).
  rewrite Z2Nat.id by (apply Z.div_pos; lia). Z.to_euclidean_division_equations. lia.
Qed.

(** What [alloc] does to the words: one bit of one word is cleared. *)
Definition took (d d' : list Z) (s : Z) : Prop :=
  exists i b, s = Z.of_nat i * 64 + b /\ 0 <= b < 64 /\ (i < length d)%nat /\ length d' = length d
    /\ Forall (fun w => 0 <= w < 2 ^ 64) d'
    /\ Z.testbit (default 0 (d !! i)) b = true
    /\ forall j c, 0 <= c -> Z.testbit (default 0 (d' !! j)) c
                 = Z.testbit (default 0 (d !! j)) c && negb (bool_decide (j = i) && (c =? b)).

Lemma took_high l k l' s :
  Forall (fun w => 0 <= w < 2 ^ 64) l -> allocSpillHigh l (Z.of_nat k) = Ok (l', s) ->
  took l l' (s - Z.of_nat k * 64).
Proof.
  revert k l' s. induction l as [|w l IH]; intros k l' s Hl; cbn [allocSpillHigh]; [done|].
  apply Forall_cons in Hl as [Hw Hl]. destruct (Z.eqb_spec w 0) as [->|Hne]; cbn [negb].
  - intros ([l2 s2] & H & [= <- <-])%obind_ok. replace (Z.of_nat k + 1) with (Z.of_nat (S k)) in H by lia.
    destruct (IH _ _ _ Hl H) as (i & b & Hs & Hb & Hi & Hlen & Hf & Ht & Hr).
    exists (S i), b. cbn. split_and!; [lia..| | |done|].
    + lia.
    + by constructor.
    + intros [|j] c Hc; cbn; [by rewrite Z.testbit_0_l|]. rewrite Hr by done. f_equal. f_equal. f_equal.
      apply bool_decide_ext. lia.
  - intros [= <- <-]. destruct (take_slot w ltac:(lia)) as (Hb & Ht & Hbound & Hr).
    exists 0%nat, (lc_ffs w). cbn. split_and!; [lia..|done| |done|].
    + by constructor.
    + intros [|j] c Hc; cbn; [by rewrite Hr|]. by rewrite andb_true_r.
Qed.

Lemma alloc_took d d' s : wf d -> alloc d = Ok (d', s) -> took d d' s.
Proof.
  intros (Hlen & Hf & H0). destruct d as [|w l]; [done|]. unfold alloc.
  apply Forall_cons in Hf as [Hw Hl]. destruct (Z.eqb_spec w 0) as [->|Hne].
  - intros ([l2 s2] & H & [= <- <-])%obind_ok. pose proof (took_high l 1 _ _ Hl H) as (i & b & Hs & Hb & Hi & Hlen' & Hf & Ht & Hr).
    exists (S i), b. cbn. split_and!; [lia..| | |done|].
    + lia.
    + by constructor.
    + intros [|j] c Hc; cbn; [by rewrite Z.testbit_0_l|]. rewrite Hr by done. f_equal. f_equal. f_equal.
      apply bool_decide_ext. lia.
  - intros [= <- <-]. destruct (take_slot w ltac:(lia)) as (Hb & Ht & Hbound & Hr).
    exists 0%nat, (lc_ffs w). cbn. split_and!; [lia..|done| |done|].
    + by constructor.
    + intros [|j] c Hc; cbn; [by rewrite Hr|]. by rewrite andb_true_r.
Qed.

Lemma took_avail d d' s t :
  took d d' s -> 0 <= t -> avail d' t = avail d t && negb (t =? s).
Proof.
  intros (i & b & -> & Hb & _ & _ & _ & _ & Hr) Ht.
  destruct (slot_split t Ht) as (j & c & -> & Hc). rewrite !avail_word, Hr by lia. f_equal. f_equal.
  destruct (Z.eqb_spec (Z.of_nat j * 64 + c) (Z.of_nat i * 64 + b)).
  - assert (j = i) by lia. subst. rewrite bool_decide_eq_true_2 by done. lia.
  - destruct (bool_decide_reflect (j = i)) as [->|]; [|done]. lia.
Qed.

(** A fresh slot: between 1 and 255, available before, and the only one
    that is not available any more. *)
Lemma alloc_spec d d' s :
  wf d -> alloc d = Ok (d', s) ->
  0 < s < 256 /\ avail d s = true /\ wf d' /\ forall t, 0 <= t -> avail d' t = avail d t && negb (t =? s).
Proof.
  intros Hwf Ha. pose proof (alloc_took _ _ _ Hwf Ha) as Ht.
  assert (Hav : forall t, 0 <= t -> avail d' t = avail d t && negb (t =? s)) by (intros; by apply took_avail).
  destruct Ht as (i & b & -> & Hb & Hi & Hlen & Hf & Hbit & _). destruct Hwf as (Hl & _ & H0).
  assert (Hs : avail d (Z.of_nat i * 64 + b) = true) by by rewrite avail_word.
  split_and!; [|lia|done| |done].
  - destruct (Z.eq_dec (Z.of_nat i * 64 + b) 0) as [E|]; [|lia]. rewrite E in Hs. congruence.
  - split_and!; [congruence|done|]. rewrite Hav by done. by rewrite H0.
Qed.

(** It exits when no slot is available, and then only. *)
Lemma alloc_exits d e :
  wf d -> alloc d = Err e -> e = Exited 1 /\ forall t, 0 <= t -> avail d t = false.
Proof.
  intros (Hlen & Hf & H0). assert (Hhigh : forall l i e, allocSpillHigh l i = Err e -> e = Exited 1 /\ Forall (fun w => w = 0) l).
  { induction l as [|w l IH]; intros i x; cbn [allocSpillHigh]; [by intros [= <-]|].
    destruct (Z.eqb_spec w 0) as [->|]; cbn [negb]; [|done].
    destruct (allocSpillHigh l (i + 1)) as [[??]|x'] eqn:E; cbn; [done|].
    intros [= <-]. destruct (IH _ _ E). by split; [|constructor]. }
  destruct d as [|w l]; [done|]. unfold alloc. destruct (Z.eqb_spec w 0) as [->|]; [|done].
  destruct (allocSpillHigh l 1) as [[??]|x'] eqn:E; cbn; [done|]. intros [= <-].
  destruct (Hhigh _ _ _ E) as [-> Hall]. split; [done|]. intros t Ht.
  destruct (slot_split t Ht) as (i & b & -> & Hb). rewrite avail_word by done.
  destruct i as [|i]; cbn; [apply Z.testbit_0_l|]. destruct (l !! i) as [x|] eqn:Hx; cbn; [|apply Z.testbit_0_l].
  rewrite Forall_lookup in Hall. rewrite (Hall _ _ Hx). apply Z.testbit_0_l.
Qed.

Lemma block_spec d d' s :
  wf d -> block d s = Ok d' ->
  0 < s < 256 /\ wf d' /\ forall t, 0 <= t -> avail d' t = avail d t && negb (t =? s).
Proof.
  intros (Hlen & Hf & H0) H. unfold block in H. destruct ((0 <? s) && (s <? 256)) eqn:Hs; [|done].
  assert (Hr : 0 < s < 256) by lia. apply obind_ok in H as (w & Hw & [= <-]). apply of_option_ok in Hw.
  destruct (slot_split s ltac:(lia)) as (i & b & -> & Hb).
  assert (Ei : Z.shiftr (Z.of_nat i * 64 + b) 6 = Z.of_nat i).
  { rewrite Z.shiftr_div_pow2 by lia. change (2 ^ 6) with 64. Z.to_euclidean_division_equations. lia. }
  assert (Eb : Z.land (Z.of_nat i * 64 + b) 63 = b).
  { change 63 with (Z.ones 6). rewrite Z.land_ones by lia. change (2 ^ 6) with 64.
    Z.to_euclidean_division_equations. lia. }
  rewrite Ei, Eb, Nat2Z.id in *.
  assert (Hwb : 0 <= w < 2 ^ 64) by (rewrite Forall_lookup in Hf; by eapply Hf).
  assert (Hav : forall t, 0 <= t ->
     avail (<[i := Z.land w (u8 (Z.lnot (Z.shiftl 1 b)))]> d) t = avail d t && negb (t =? Z.of_nat i * 64 + b)).
  { intros t Ht. destruct (slot_split t Ht) as (j & c & -> & Hc). rewrite !avail_word by done.
    destruct (decide (j = i)) as [->|Hne].
    - rewrite list_lookup_insert_eq by (by eapply lookup_lt_Some). rewrite Hw. change (default 0 (Some ?x)) with x.
      rewrite Z.land_spec. f_equal. unfold u8, to_u.
      rewrite <- Z.land_ones, Z.land_spec, Z.testbit_ones_nonneg, Z.lnot_spec, Z.shiftl_1_l by lia.
      replace (c <? 64) with true by lia. rewrite andb_true_r. f_equal.
      destruct (Z.eqb_spec (Z.of_nat i * 64 + c) (Z.of_nat i * 64 + b)).
      + replace c with b by lia. apply Z.pow2_bits_true. lia.
      + apply Z.pow2_bits_false. lia.
    - rewrite list_lookup_insert_ne by done.
      destruct (Z.eqb_spec (Z.of_nat j * 64 + c) (Z.of_nat i * 64 + b)); [lia|]. by rewrite andb_true_r. }
  split; [done|]. split; [|done]. split_and!; [by rewrite length_insert| |].
  - apply Forall_insert; [done|]. rewrite Z.land_comm. apply land_bound; lia.
  - rewrite Hav by done. by rewrite H0.
Qed.
End SpillProofs.
