(* ===== verification/X86.v ===== *)
(** * Emitting x86 code ([assembler.hh], [assembler.cc])

    Registers, opcodes and the encoders of single instructions.  Code is
    written downwards: an encoder stores the bytes of an instruction
    below the pointer [mcp] and moves the pointer to their start.  The
    bytes of the process are a map; a store below the reserved area is
    not checked here (the code has no check either), [MachineCode::commit]
    rejects the pointer afterwards. *)

From S2P Require Import Prelude Words Registers.

(** ** Opcodes: the length, negated and less one, is in the low byte. *)
Definition XO_ (o : Z) : Z := 0x0000fe + Z.shiftl o 24.
Definition XO_0f (o : Z) : Z := 0x0f00fd + Z.shiftl o 24.
Definition XO_66 (o : Z) : Z := 0x6600fd + Z.shiftl o 24.
Definition XO_f20f (o : Z) : Z := 0x0ff2fc + Z.shiftl o 24.

Definition XI_CALL : Z := 0xe8.
Definition XI_CDQ : Z := 0x99.
Definition XI_JMP : Z := 0xe9.
Definition XI_JMPs : Z := 0xeb.
Definition XI_PUSH : Z := 0x50.
Definition XI_POP : Z := 0x58.
Definition XI_JCCn : Z := 0x80.
Definition XI_MOVri : Z := 0xb8.
Definition XI_ARITHi : Z := 0x81.
Definition XI_ARITHi8 : Z := 0x83.
Definition XI_PUSHi8 : Z := 0x6a.
Definition XI_RET : Z := 0xc3.
Definition XI_MOVmi : Z := 0xc7.

Definition XO_MOV : Z := XO_ 0x8b.
Definition XO_MOVto : Z := XO_ 0x89.
Definition XO_MOVmi : Z := XO_ 0xc7.
Definition XO_LEA : Z := XO_ 0x8d.
Definition XO_SHIFTi : Z := XO_ 0xc1.
Definition XO_SHIFT1 : Z := XO_ 0xd1.
Definition XO_SHIFTcl : Z := XO_ 0xd3.
Definition XO_IMUL : Z := XO_0f 0xaf.
Definition XO_IMULi : Z := XO_ 0x69.
Definition XO_IMULi8 : Z := XO_ 0x6b.
Definition XO_CMP : Z := XO_ 0x3b.
Definition XO_GROUP3 : Z := XO_ 0xf7.
Definition XO_MOVZXb : Z := XO_0f 0xb6.
Definition XO_MOVSD : Z := XO_f20f 0x10.
Definition XO_MOVSDto : Z := XO_f20f 0x11.
Definition XO_MOVAPS : Z := XO_0f 0x28.

(** Arithmetic, one-operand and shift groups. *)
Inductive x86Arith := XOg_ADD | XOg_OR | XOg_ADC | XOg_SBB | XOg_AND | XOg_SUB | XOg_XOR | XOg_CMP
| XOg_X_IMUL.
Definition x86Arith_num (a : x86Arith) : Z :=
  match a with
  | XOg_ADD => 0 | XOg_OR => 1 | XOg_ADC => 2 | XOg_SBB => 3 | XOg_AND => 4 | XOg_SUB => 5
  | XOg_XOR => 6 | XOg_CMP => 7 | XOg_X_IMUL => 8
  end.
Definition XOg_NOT : Z := 2.
Definition XOg_NEG : Z := 3.
Definition XOg_DIV : Z := 6.
Definition XOg_IDIV : Z := 7.
Definition XOg_SHL : Z := 4.
Definition XOg_SHR : Z := 5.
Definition XOg_SAR : Z := 7.

(** [XG_ARITHi], [XG_TOXOi], [XG_TOXOi8], [XO_ARITH] *)
Definition XG_ARITHi (g : Z) : Z := Z.shiftl XI_ARITHi8 16 + Z.shiftl XI_ARITHi 8 + g.
Definition XG_TOXOi (xg : Z) : Z := 0xfe + Z.land (u4 (Z.shiftl xg 16)) 0xff000000.
Definition XG_TOXOi8 (xg : Z) : Z := 0xfe + Z.land (u4 (Z.shiftl xg 8)) 0xff000000.
Definition XO_ARITH (a : x86Arith) : Z := 0x030000fe + Z.shiftl (x86Arith_num a) 27.

(** Modes of the ModRM byte. *)
Definition XM_OFS0 : Z := 0x00.
Definition XM_OFS8 : Z := 0x40.
Definition XM_OFS32 : Z := 0x80.
Definition XM_REG : Z := 0xc0.
Definition XM_SCALE1 : Z := 0x00.
Definition MODRM (mode r1 r2 : Z) : Z :=
  u1 (mode + Z.shiftl (Z.land r1 7) 3 + Z.land r2 7).

(** Condition codes. *)
Definition CC_B : Z := 2.
Definition CC_AE : Z := 3.
Definition CC_E : Z := 4.
Definition CC_NE : Z := 5.
Definition CC_BE : Z := 6.
Definition CC_A : Z := 7.
Definition CC_L : Z := 12.
Definition CC_GE : Z := 13.
Definition CC_LE : Z := 14.
Definition CC_G : Z := 15.

Definition FORCE_REX : Z := 0x200.
Definition REX_64 : Z := Z.lor FORCE_REX 0x080000.

(** The pseudo operand [RID_MRM]. *)
Record x86ModRM := mkMRM { mrm_ofs : Z; mrm_base : Z; mrm_idx : Z; mrm_scale : Z }.

Definition checki8 (x : Z) : bool := x =? to_s 8 x.
Definition checku32 (x : Z) : bool := x =? u4 x.

(** ** Code memory *)

Record Code := mkBytes { bytes : gmap Z Z; mcp : Z }.

(** [n] bytes of [v] at [p], the low one first. *)
Fixpoint put_le (n : nat) (m : gmap Z Z) (p v : Z) : gmap Z Z :=
  match n with
  | O => m
  | S n' => put_le n' (<[p := u1 v]> m) (p + 1) (Z.shiftr v 8)
  end.
Definition push (n : nat) (v : Z) (m : gmap Z Z) (p : Z) : gmap Z Z * Z :=
  let p := p - Z.of_nat n in (put_le n m p v, p).

(** [emit_i8] and [emit_i32] *)
Definition emit_i8 (i : Z) (c : Code) : Code :=
  let '(m, p) := push 1 i (bytes c) (mcp c) in mkBytes m p.
Definition emit_i32 (i : Z) (c : Code) : Code :=
  let '(m, p) := push 4 i (bytes c) (mcp c) in mkBytes m p.

(** [emit_op]: the four bytes of [xo] are stored although only the upper
    ones are part of the instruction; the others lie below the new
    pointer. *)
Definition emit_op (xo rr rb rx : Z) (m : gmap Z Z) (p delta : Z) : gmap Z Z * Z :=
  let n := to_s 8 xo in
  let m := put_le 4 m (p + delta - 5) xo in
  let p := p + (n + delta) in
  let rex := 0x40 + Z.land (Z.shiftr rr 1) (4 + Z.shiftr FORCE_REX 1)
             + Z.land (Z.shiftr rx 2) 2 + Z.land (Z.shiftr rb 3) 1 in
  if rex =? 0x40 then (m, p)
  else
    let rex := Z.lor rex (Z.shiftr rr 16) in
    let '(m, rex) :=
      (if n =? -4 then (<[p := u1 rex]> m, u1 (Z.shiftr xo 8))
       else if Z.land xo 0xffffff =? 0x6600fd then (<[p := u1 rex]> m, 0x66)
       else (m, rex)) in
    (<[p - 1 := u1 rex]> m, p - 1).

(** [emit_opm] and [emit_opmx] *)
Definition emit_opm (xo mode rr rb : Z) (m : gmap Z Z) (p delta : Z) : gmap Z Z * Z :=
  emit_op xo rr rb 0 (<[p + delta - 1 := MODRM mode rr rb]> m) p delta.
Definition emit_opmx (xo mode scale rr rb rx : Z) (m : gmap Z Z) (p : Z) : gmap Z Z * Z :=
  emit_op xo rr rb rx
    (<[p - 2 := MODRM mode rr RID_ESP]> (<[p - 1 := MODRM scale rx rb]> m)) p (-1).

Definition to_code (r : gmap Z Z * Z) : Code := let '(m, p) := r in mkBytes m p.

Definition emit_rr (xo r1 r2 : Z) (c : Code) : Code :=
  to_code (emit_opm xo XM_REG r1 r2 (bytes c) (mcp c) 0).

(** The offset of a memory operand: mode and what it adds below [p]. *)
Definition push_offset (rb offset : Z) (m : gmap Z Z) (p : Z) : gmap Z Z * Z * Z :=
  if (offset =? 0) && negb (Z.land rb 7 =? RID_EBP) then (m, p, XM_OFS0)
  else if checki8 offset then (push 1 offset m p, XM_OFS8)
  else (push 4 offset m p, XM_OFS32).

(** ** Encoders *)

Definition SPILL_SP_OFFS : Z := 40.
Definition F_ID_OFFS : Z := 32.
Definition SPLIM_SP_OFFS : Z := 8.
Definition HPLIM_SP_OFFS : Z := 0.

(** [op r, [rb + offset]]; without a base register the offset is an
    absolute address. *)
Definition emit_rmro (xo rr rb offset : Z) (c : Code) : Code :=
  let '(m, p, rb, mode) :=
    (if isReg rb then
       let '(m, p, mode) := push_offset rb offset (bytes c) (mcp c) in
       let '(m, p) := (if Z.land rb 7 =? RID_ESP
                       then push 1 (MODRM XM_SCALE1 RID_ESP RID_ESP) m p else (m, p)) in
       (m, p, rb, mode)
     else
       let m := put_le 4 (bytes c) (mcp c - 4) offset in
       (<[mcp c - 5 := MODRM XM_SCALE1 RID_ESP RID_EBP]> m, mcp c - 5, RID_ESP, XM_OFS0)) in
  to_code (emit_opm xo mode rr rb m p 0).

(** [op r, [rb + rx * scale + ofs]] *)
Definition emit_rmrxo (xo rr rb rx scale ofs : Z) (c : Code) : Code :=
  let '(m, p, mode) := push_offset rb ofs (bytes c) (mcp c) in
  to_code (emit_opmx xo mode scale rr rb rx m p).

(** [op r, rm]: a register, or the operand [mrm_]. *)
Definition emit_mrm (mrm : x86ModRM) (xo rr rb : Z) (c : Code) : Code :=
  let m := bytes c in
  let p := mcp c in
  to_code
    (if rb =? RID_MRM then
       let rb := mrm_base mrm in
       if rb =? RID_NONE then
         let '(m, p) := push 4 (mrm_ofs mrm) m p in
         if negb (mrm_idx mrm =? RID_NONE) then
           emit_opmx xo XM_OFS0 (mrm_scale mrm) rr RID_EBP (mrm_idx mrm) m p
         else
           let '(m, p) := push 1 (MODRM XM_SCALE1 RID_ESP RID_EBP) m p in
           emit_opm xo XM_OFS0 rr RID_ESP m p 0
       else
         let '(m, p, mode) := push_offset rb (mrm_ofs mrm) m p in
         if negb (mrm_idx mrm =? RID_NONE) then
           emit_opmx xo mode (mrm_scale mrm) rr rb (mrm_idx mrm) m p
         else
           let '(m, p) := (if Z.land rb 7 =? RID_ESP
                           then push 1 (MODRM XM_SCALE1 RID_ESP RID_ESP) m p else (m, p)) in
           emit_opm xo mode rr rb m p 0
     else emit_opm xo XM_REG rr rb m p 0).

(** [op r, i] and [op rm, i] *)
Definition emit_gri (xg rb i : Z) (c : Code) : Code :=
  let rr := Z.lor (Z.land xg 7) (Z.land rb REX_64) in
  if checki8 i then
    let '(m, p) := push 1 i (bytes c) (mcp c) in to_code (emit_opm (XG_TOXOi8 xg) XM_REG rr rb m p 0)
  else
    let '(m, p) := push 4 i (bytes c) (mcp c) in to_code (emit_opm (XG_TOXOi xg) XM_REG rr rb m p 0).
Definition emit_gmrmi (mrm : x86ModRM) (xg rb i : Z) (c : Code) : Code :=
  let rr := Z.lor (Z.land xg 7) (Z.land rb REX_64) in
  let rm := Z.land rb (u4 (Z.lnot REX_64)) in
  if checki8 i then emit_mrm mrm (XG_TOXOi8 xg) rr rm (emit_i8 i c)
  else emit_mrm mrm (XG_TOXOi xg) rr rm (emit_i32 i c).

(** [move] *)
Definition move (dst src : Z) (c : Code) : Code :=
  if dst <? RID_MAX_GPR then emit_rr XO_MOV (Z.lor REX_64 dst) (Z.lor REX_64 src) c
  else emit_rr XO_MOVAPS dst src c.

(** Loading a constant. *)
Definition emit_rex (rr rb : Z) (m : gmap Z Z) (p : Z) : gmap Z Z * Z :=
  let rex := u1 (0x40 + Z.land (Z.shiftr rr 1) 4 + Z.land (Z.shiftr rb 3) 1) in
  if rex =? 0x40 then (m, p) else (<[p - 1 := rex]> m, p - 1).
Definition loadi_u32 (dst i : Z) (c : Code) : Code :=
  let p := mcp c in
  let m := <[p - 5 := u1 (XI_MOVri + Z.land dst 7)]> (put_le 4 (bytes c) (p - 4) i) in
  to_code (emit_rex 0 dst m (p - 5)).
Definition loadi_i32 (dst i : Z) (c : Code) : Code :=
  if 0 <=? i then loadi_u32 dst i c
  else
    let p := mcp c in
    to_code (emit_opm XO_MOVmi XM_REG REX_64 dst (put_le 4 (bytes c) (p - 4) i) p (-4)).
Definition loadi_u64 (dst i : Z) (c : Code) : Code :=
  if checku32 i then loadi_u32 dst (u4 i) c
  else if checki32 i then loadi_i32 dst (i4 i) c
  else
    let p := mcp c in
    let m := <[p - 9 := u1 (XI_MOVri + Z.land dst 7)]> (put_le 8 (bytes c) (p - 8) i) in
    mkBytes (<[p - 10 := u1 (0x48 + Z.land (Z.shiftr dst 3) 1)]> m) (p - 10).

Definition ret (c : Code) : Code := emit_i8 XI_RET c.

(** [mov dst, [base + offset]], [mov [base + offset], src] and
    [mov [base + offset], imm32] *)
Definition load_u64 (dst base offset : Z) (c : Code) : Code :=
  if dst <? RID_MAX_GPR then emit_rmro XO_MOV (Z.lor REX_64 dst) base offset c
  else emit_rmro XO_MOVSD dst base offset c.
Definition store_u64 (base offset src : Z) (c : Code) : Code :=
  if src <? RID_MAX_GPR then emit_rmro XO_MOVto (Z.lor REX_64 src) base offset c
  else emit_rmro XO_MOVSDto src base offset c.
Definition storei_u64 (base offset i : Z) (c : Code) : Code :=
  emit_rmro XO_MOVmi (Z.lor REX_64 0) base offset (emit_i32 i c).

(** [emit_shifti] *)
Definition emit_shifti (xg r i : Z) (c : Code) : Code := emit_rr XO_SHIFTi xg r (emit_i8 i c).

(** ** Jumps: the target is relative to the end of the instruction. *)
Definition jmprel (p target : Z) : outcome Z :=
  let delta := target - p in
  if delta =? i4 delta then Ok delta else Err AssertFailed.
(** A relative jump with the opcode bytes [op], the last one first. *)
Definition emit_rel (op : list Z) (target : Z) (c : Code) : outcome Code :=
  let p := mcp c in
  let! d := jmprel p target in
  Ok (fold_left (fun c b => emit_i8 b c) op (mkBytes (put_le 4 (bytes c) (p - 4) d) (p - 4))).
Definition emit_jmp (target : Z) (c : Code) : outcome Code := emit_rel [XI_JMP] target c.
Definition emit_call (target : Z) (c : Code) : outcome Code := emit_rel [XI_CALL] target c.
Definition emit_jcc (cc target : Z) (c : Code) : outcome Code :=
  emit_rel [u1 (XI_JCCn + Z.land cc 15); 0x0f] target c.

(** [incrementCounter]: [inc qword ptr [rip + d]] *)
Definition incrementCounter (counterAddr : Z) (c : Code) : outcome Code :=
  emit_rel [0x05; 0xff; 0x48] counterAddr c.

(** [emitSetTraceId]: [movl traceId, F_ID_OFFS(rsp)] *)
Definition emitSetTraceId (traceId : Z) (c : Code) : Code :=
  let p := mcp c in
  let m := put_le 4 (bytes c) (p - 4) (i4 traceId) in
  let m := <[p - 8 := XI_MOVmi]> (<[p - 7 := 0x44]> (<[p - 6 := 0x24]> (<[p - 5 := u1 F_ID_OFFS]> m))) in
  mkBytes m (p - 8).
