(* ===== verification/X86Sem.v ===== *)
(** * What the emitted bytes do

    A decoder for the instructions that the assembler emits and their
    effect on registers and memory, after the Intel manual.  This is the
    side of the processor: nothing here is code of the repository. *)

From S2P Require Import Prelude Words.

(** ** Instructions *)

(** A register, or memory at [base + index + disp]. *)
Inductive operand := OReg (r : Z) | OMem (base : Z) (idx : option Z) (disp : Z).

(** [w] selects 64-bit operands, otherwise 32 bits. *)
Inductive instr :=
| IMovRM (w : bool) (r : Z) (x : operand)
| IMovMR (w : bool) (x : operand) (r : Z)
| IMovMI (w : bool) (x : operand) (i : Z)
| IMovI (w : bool) (r i : Z)
| ILea (w : bool) (r : Z) (x : operand)
| IArith (w : bool) (op r : Z) (x : operand)
| IArithI (w : bool) (op : Z) (x : operand) (i : Z)
| IImul (w : bool) (r : Z) (x : operand)
| IImulI (w : bool) (r : Z) (x : operand) (i : Z)
| IShiftI (w : bool) (op : Z) (x : operand) (k : Z)
| IShiftCl (w : bool) (op : Z) (x : operand)
| IGroup3 (w : bool) (op : Z) (x : operand)
| IMovzxb (w : bool) (r : Z) (x : operand)
| ICqo (w : bool)
| IJcc (cc target : Z)
| IJmp (target : Z)
| ICall (target : Z)
| IPushI (i : Z)
| IPushR (r : Z)
| IPopR (r : Z)
| IRet.

(** ** Decoding *)

Notation "'do' x <- m ; k" := (match m with Some x => k | None => None end)
  (at level 10, x pattern, m at level 100, k at level 200) : vm_scope.

(** The value of little-endian bytes. *)
Fixpoint le (l : list Z) : Z := match l with [] => 0 | b :: l' => b + 256 * le l' end.
Definition take_le (n : nat) (l : list Z) : option (Z * list Z) :=
  if (n <=? length l)%nat then Some (le (take n l), drop n l) else None.
Definition take_s (n : nat) (l : list Z) : option (Z * list Z) :=
  do (v, l) <- take_le n l; Some (to_s (8 * Z.of_nat n) v, l).

(** REX prefix: the flags W, R, X, B; what follows. *)
Definition parse_rex (l : list Z) : Z * list Z :=
  match l with
  | b :: l' => if (0x40 <=? b) && (b <? 0x50) then (b - 0x40, l') else (0, l)
  | [] => (0, [])
  end.
Definition rex_bit (rex n : Z) : Z := if Z.testbit rex n then 8 else 0.

(** The ModRM byte and what belongs to it: the register operand and the
    other one. *)
Definition parse_disp (mode : Z) (l : list Z) : option (Z * list Z) :=
  if mode =? 0 then Some (0, l) else if mode =? 1 then take_s 1 l else take_s 4 l.
Definition parse_rm (rex : Z) (l : list Z) : option (Z * operand * list Z) :=
  match l with
  | [] => None
  | b :: l =>
      let mode := b / 64 in
      let reg := b / 8 mod 8 + rex_bit rex 2 in
      let rm := b mod 8 in
      if mode =? 3 then Some (reg, OReg (rm + rex_bit rex 0), l)
      else if rm =? 4 then
        match l with
        | [] => None
        | s :: l =>
            let base := s mod 8 in
            let idx := s / 8 mod 8 + rex_bit rex 1 in
            if (base =? 5) && (mode =? 0) || negb (s / 64 =? 0) then None
            else
              do (d, l) <- parse_disp mode l;
              Some (reg, OMem (base + rex_bit rex 0) (if idx =? 4 then None else Some idx) d, l)
        end
      else if (rm =? 5) && (mode =? 0) then None
      else
        do (d, l) <- parse_disp mode l;
        Some (reg, OMem (rm + rex_bit rex 0) None d, l)
  end.

(** One instruction; the target of a jump is relative here. *)
Definition parse_op (rex op : Z) (l : list Z) : option (instr * list Z) :=
  let w := Z.testbit rex 3 in
  if op =? 0x8b then do (r, x, l) <- parse_rm rex l; Some (IMovRM w r x, l)
  else if op =? 0x89 then do (r, x, l) <- parse_rm rex l; Some (IMovMR w x r, l)
  else if op =? 0xc7 then
    do (r, x, l) <- parse_rm rex l;
    do (i, l) <- take_s 4 l;
    if r mod 8 =? 0 then Some (IMovMI w x i, l) else None
  else if op =? 0x8d then do (r, x, l) <- parse_rm rex l; Some (ILea w r x, l)
  else if (op mod 8 =? 3) && (op <? 0x40) then
    do (r, x, l) <- parse_rm rex l; Some (IArith w (op / 8) r x, l)
  else if op =? 0x81 then
    do (r, x, l) <- parse_rm rex l; do (i, l) <- take_s 4 l; Some (IArithI w (r mod 8) x i, l)
  else if op =? 0x83 then
    do (r, x, l) <- parse_rm rex l; do (i, l) <- take_s 1 l; Some (IArithI w (r mod 8) x i, l)
  else if op =? 0x69 then
    do (r, x, l) <- parse_rm rex l; do (i, l) <- take_s 4 l; Some (IImulI w r x i, l)
  else if op =? 0x6b then
    do (r, x, l) <- parse_rm rex l; do (i, l) <- take_s 1 l; Some (IImulI w r x i, l)
  else if op =? 0xc1 then
    do (r, x, l) <- parse_rm rex l; do (k, l) <- take_le 1 l; Some (IShiftI w (r mod 8) x k, l)
  else if op =? 0xd1 then do (r, x, l) <- parse_rm rex l; Some (IShiftI w (r mod 8) x 1, l)
  else if op =? 0xd3 then do (r, x, l) <- parse_rm rex l; Some (IShiftCl w (r mod 8) x, l)
  else if op =? 0xf7 then do (r, x, l) <- parse_rm rex l; Some (IGroup3 w (r mod 8) x, l)
  else if op =? 0x99 then Some (ICqo w, l)
  else if op =? 0xe9 then do (d, l) <- take_s 4 l; Some (IJmp d, l)
  else if op =? 0xeb then do (d, l) <- take_s 1 l; Some (IJmp d, l)
  else if op =? 0xe8 then do (d, l) <- take_s 4 l; Some (ICall d, l)
  else if op =? 0x6a then do (i, l) <- take_s 1 l; Some (IPushI i, l)
  else if op =? 0xc3 then Some (IRet, l)
  else if (0xb8 <=? op) && (op <? 0xc0) then
    do (i, l) <- take_le (if w then 8 else 4)%nat l; Some (IMovI w (op - 0xb8 + rex_bit rex 0) i, l)
  else if (0x50 <=? op) && (op <? 0x58) then Some (IPushR (op - 0x50 + rex_bit rex 0), l)
  else if (0x58 <=? op) && (op <? 0x60) then Some (IPopR (op - 0x58 + rex_bit rex 0), l)
  else if op =? 0x0f then
    match l with
    | b :: l =>
        if b =? 0xaf then do (r, x, l) <- parse_rm rex l; Some (IImul w r x, l)
        else if b =? 0xb6 then do (r, x, l) <- parse_rm rex l; Some (IMovzxb w r x, l)
        else if (0x80 <=? b) && (b <? 0x90) then
          do (d, l) <- take_s 4 l; Some (IJcc (b - 0x80) d, l)
        else None
    | [] => None
    end
  else None.
Definition parse (l : list Z) : option (instr * list Z) :=
  let '(rex, l) := parse_rex l in
  match l with op :: l => parse_op rex op l | [] => None end.

(** The bytes at [p], up to the longest instruction. *)
Fixpoint fetch (n : nat) (m : gmap Z Z) (p : Z) : list Z :=
  match n with
  | O => []
  | S n' => match m !! p with Some b => b :: fetch n' m (p + 1) | None => [] end
  end.
Definition absolute (q : Z) (i : instr) : instr :=
  match i with
  | IJcc cc d => IJcc cc (q + d)
  | IJmp d => IJmp (q + d)
  | ICall d => ICall (q + d)
  | _ => i
  end.
(** The instruction at [p] and the address behind it. *)
Definition decode (m : gmap Z Z) (p : Z) : option (instr * Z) :=
  let l := fetch 15 m p in
  do (i, rest) <- parse l;
  let q := p + Z.of_nat (length l - length rest) in Some (absolute q i, q).

(** ** Effect *)

(** Registers, memory by words at aligned addresses, and the operands of
    the comparison that the flags come from; they are not known after
    other arithmetic. *)
Record mach := mkMach { gpr : Z -> Z; mmem : Z -> option Z; cmpd : option (Z * Z) }.
Definition upd {A} (k : Z) (v : A) (f : Z -> A) (x : Z) : A := if x =? k then v else f x.
Definition set_gpr (r v : Z) (m : mach) : mach := mkMach (upd r v (gpr m)) (mmem m) (cmpd m).
Definition set_mem (a v : Z) (m : mach) : mach := mkMach (gpr m) (upd a (Some v) (mmem m)) (cmpd m).
Definition set_flags (f : option (Z * Z)) (m : mach) : mach := mkMach (gpr m) (mmem m) f.

Definition ea (m : mach) (base : Z) (idx : option Z) (disp : Z) : Z :=
  u8 (gpr m base + match idx with Some x => gpr m x | None => 0 end + disp).
Definition rd_mem (m : mach) (a : Z) : option Z := if a mod 8 =? 0 then mmem m a else None.
Definition rd (w : bool) (m : mach) (x : operand) : option Z :=
  match x with
  | OReg r => Some (if w then gpr m r else u4 (gpr m r))
  | OMem b i d => do v <- rd_mem m (ea m b i d); Some (if w then v else u4 v)
  end.
(** A 32-bit result clears the upper half of a register, and leaves the
    upper half of a word in memory. *)
Definition wr (w : bool) (m : mach) (x : operand) (v : Z) : option mach :=
  match x with
  | OReg r => Some (set_gpr r (if w then v else u4 v) m)
  | OMem b i d =>
      let a := ea m b i d in
      do old <- rd_mem m a;
      Some (set_mem a (if w then v else Z.lor (Z.shiftl (Z.shiftr old 32) 32) (u4 v)) m)
  end.

(** The conditions of [jcc] from the flags of the comparison of [x]
    with [y]. *)
Definition ZF (x y : Z) : bool := u8 (x - y) =? 0.
Definition CF (x y : Z) : bool := x <? y.
Definition SF (x y : Z) : bool := Z.testbit (u8 (x - y)) 63.
Definition OF (x y : Z) : bool := negb (i8 x - i8 y =? i8 (i8 x - i8 y)).
Definition cond (cc x y : Z) : option bool :=
  do b <- (match cc / 2 with
           | 0 => Some (OF x y)
           | 1 => Some (CF x y)
           | 2 => Some (ZF x y)
           | 3 => Some (CF x y || ZF x y)
           | 4 => Some (SF x y)
           | 6 => Some (xorb (SF x y) (OF x y))
           | 7 => Some (ZF x y || xorb (SF x y) (OF x y))
           | _ => None
           end);
  Some (xorb b (Z.odd cc)).

Definition arith_op (op x y : Z) : option Z :=
  match op with
  | 0 => Some (u8 (x + y))
  | 1 => Some (Z.lor x y)
  | 4 => Some (Z.land x y)
  | 5 => Some (u8 (x - y))
  | 6 => Some (Z.lxor x y)
  | _ => None
  end.
(** The counts are less than 64. *)
Definition shift_op (op x k : Z) : option Z :=
  match op with
  | 4 => Some (u8 (Z.shiftl x k))
  | 5 => Some (Z.shiftr x k)
  | 7 => Some (u8 (Z.shiftr (i8 x) k))
  | _ => None
  end.

Inductive result := Next (m : mach) | Goto (target : Z) (m : mach).

Definition arith64 (op : Z) (dst : operand) (x y : Z) (m : mach) : option result :=
  if op =? 7 then Some (Next (set_flags (Some (x, y)) m))
  else do v <- arith_op op x y; do m <- wr true m dst v; Some (Next (set_flags None m)).

(** Signed division of RDX:RAX by [y]; an error when the quotient does
    not fit. *)
Definition idiv (m : mach) (y : Z) : option result :=
  let n := i8 (gpr m 2) * 2 ^ 64 + gpr m 0 in
  let q := Z.quot n (i8 y) in
  if (y =? 0) || negb (q =? i8 q) then None
  else Some (Next (set_flags None (set_gpr 2 (u8 (Z.rem n (i8 y))) (set_gpr 0 (u8 q) m)))).

(** The stack pointer is register 4. *)
Definition push_word (v : Z) (m : mach) : option mach :=
  let a := u8 (gpr m 4 - 8) in
  do _ <- rd_mem m a;
  Some (set_gpr 4 a (set_mem a v m)).
Definition pop_word (m : mach) : option (Z * mach) :=
  do v <- rd_mem m (gpr m 4);
  Some (v, set_gpr 4 (u8 (gpr m 4 + 8)) m).

Definition exec (i : instr) (m : mach) : option result :=
  match i with
  | IMovRM w r x => do v <- rd w m x; Some (Next (set_gpr r v m))
  | IMovMR w x r => do m <- wr w m x (gpr m r); Some (Next m)
  | IMovMI w x k => do m <- wr w m x (u8 k); Some (Next m)
  | IMovI w r k => Some (Next (set_gpr r k m))
  | ILea true r (OMem b x d) => Some (Next (set_gpr r (ea m b x d) m))
  | IArith true op r x => do y <- rd true m x; arith64 op (OReg r) (gpr m r) y m
  | IArithI true op x k => do v <- rd true m x; arith64 op x v (u8 k) m
  | IImul true r x => do y <- rd true m x; Some (Next (set_flags None (set_gpr r (u8 (gpr m r * y)) m)))
  | IImulI true r x k => do y <- rd true m x; Some (Next (set_flags None (set_gpr r (u8 (y * k)) m)))
  | IShiftI true op x k =>
      do v <- rd true m x;
      do v <- shift_op op v (Z.land k 63);
      do m <- wr true m x v;
      Some (Next (set_flags None m))
  | IShiftCl true op x =>
      do v <- rd true m x;
      do v <- shift_op op v (Z.land (gpr m 1) 63);
      do m <- wr true m x v;
      Some (Next (set_flags None m))
  | IGroup3 true 2 x => do v <- rd true m x; do m <- wr true m x (u8 (Z.lnot v)); Some (Next m)
  | IGroup3 true 3 x =>
      do v <- rd true m x; do m <- wr true m x (u8 (- v)); Some (Next (set_flags None m))
  | IGroup3 true 7 x => do v <- rd true m x; idiv m v
  | IMovzxb _ r (OMem b x d) =>
      let a := ea m b x d in
      do v <- mmem m (a - a mod 8);
      Some (Next (set_gpr r (Z.land (Z.shiftr v (8 * (a mod 8))) 0xff) m))
  | ICqo true => Some (Next (set_gpr 2 (if i8 (gpr m 0) <? 0 then u8 (-1) else 0) m))
  | IJcc cc t =>
      do (x, y) <- cmpd m; do b <- cond cc x y; Some (if b : bool then Goto t m else Next m)
  | IJmp t => Some (Goto t m)
  | IPushI k => do m <- push_word (u8 k) m; Some (Next m)
  | IPushR r => do m <- push_word (gpr m r) m; Some (Next m)
  | IPopR r => do (v, m) <- pop_word m; Some (Next (set_gpr r v m))
  | IRet => do (v, m) <- pop_word m; Some (Goto v m)
  | _ => None
  end.

(** Straight-line code, up to the first jump that is taken. *)
Fixpoint exec_list (l : list instr) (m : mach) : option result :=
  match l with
  | [] => Some (Next m)
  | i :: l' =>
      match exec i m with
      | Some (Next m') => exec_list l' m'
      | r => r
      end
  end.

(** Code in memory: [l] from [p] up to [q]. *)
Inductive code_at (m : gmap Z Z) : Z -> list instr -> Z -> Prop :=
| code_nil p : code_at m p [] p
| code_cons p i p' l q : decode m p = Some (i, p') -> code_at m p' l q -> code_at m p (i :: l) q.

(** A call pushes the address behind it, [q]. *)
Definition exec_at (q : Z) (i : instr) (m : mach) : option result :=
  match i with ICall t => do m <- push_word q m; Some (Goto t m) | _ => exec i m end.
Lemma exec_at_exec q i m r : exec i m = Some r -> exec_at q i m = Some r.
Proof. by destruct i. Qed.

(** The processor: one instruction at the address [rip]. *)
Definition step (b : gmap Z Z) (s : Z * mach) : option (Z * mach) :=
  do (i, q) <- decode b s.1;
  do r <- exec_at q i s.2;
  Some (match r with Next m => (q, m) | Goto t m => (t, m) end).
Definition steps (b : gmap Z Z) : Z * mach -> Z * mach -> Prop := rtc (fun s s' => step b s = Some s').

Lemma exec_list_app l1 l2 m :
  exec_list (l1 ++ l2) m
  = match exec_list l1 m with Some (Next m') => exec_list l2 m' | r => r end.
Proof.
  revert m. induction l1 as [|i l1 IH]; intros m; cbn; [done|].
  destruct (exec i m) as [[m'|]|]; [apply IH|done..].
Qed.

Lemma code_at_app b p l1 q l2 q' : code_at b p l1 q -> code_at b q l2 q' -> code_at b p (l1 ++ l2) q'.
Proof. induction 1; cbn; [done|]. intros. econstructor; eauto. Qed.

(** Executing the list is what the processor does. *)
Lemma code_runs b p l q m r :
  code_at b p l q -> exec_list l m = Some r ->
  steps b (p, m) (match r with Next m' => (q, m') | Goto t m' => (t, m') end).
Proof.
  intros Hc. revert m r. induction Hc as [p|p i p' l q Hd _ IH]; intros m r; cbn.
  { intros [= <-]. reflexivity. }
  destruct (exec i m) as [[m'|t m']|] eqn:He; [|intros [= <-]|done].
  - intros Hr. eapply rtc_l; [|by apply IH]. unfold step. cbn [fst snd]. rewrite Hd. by rewrite (exec_at_exec _ _ _ _ He).
  - apply rtc_once. unfold step. cbn [fst snd]. rewrite Hd. by rewrite (exec_at_exec _ _ _ _ He).
Qed.

(** ** Words stay mapped *)

Definition machine_of (r : result) : mach := match r with Next m => m | Goto _ m => m end.
Definition keeps_mapped (m m' : mach) : Prop := forall x, is_Some (mmem m x) -> is_Some (mmem m' x).
Lemma set_mem_mapped a v m : keeps_mapped m (set_mem a v m).
Proof. intros x H. cbn. unfold upd. case_match; [by eexists|done]. Qed.
Lemma wr_mapped w m o v m' : wr w m o v = Some m' -> keeps_mapped m m'.
Proof.
  destruct o as [r|b i d]; cbn [wr]; [by intros [= <-] x|].
  destruct (rd_mem m _); [|done]. intros [= <-]. apply set_mem_mapped.
Qed.
Lemma push_mapped v m m' : push_word v m = Some m' -> keeps_mapped m m'.
Proof.
  unfold push_word. destruct (rd_mem m _); [|done]. intros [= <-]. exact (set_mem_mapped _ v m).
Qed.
Lemma pop_mapped m v m' : pop_word m = Some (v, m') -> keeps_mapped m m'.
Proof. unfold pop_word. destruct (rd_mem m _); [|done]. by intros [= _ <-] x. Qed.
Lemma arith64_mapped op o x y m r : arith64 op o x y m = Some r -> keeps_mapped m (machine_of r).
Proof.
  unfold arith64. destruct (op =? 7); [by intros [= <-] q|]. destruct (arith_op op x y) as [v|]; [|done]. cbn [obind].
  destruct (wr true m o v) as [m'|] eqn:E; [|done]. intros [= <-]. exact (wr_mapped _ _ _ _ _ E).
Qed.
Lemma exec_mapped i m r : exec i m = Some r -> keeps_mapped m (machine_of r).
Proof.
  assert (Hid : keeps_mapped m m) by (by intros x).
  destruct i; cbn [exec]; try done; unfold idiv;
    repeat (match goal with |- context [match ?e with _ => _ end] => destruct e eqn:? end; try done);
    first [apply arith64_mapped | intros [= <-]; first [exact Hid | eauto using wr_mapped, push_mapped, pop_mapped]].
  all: intros q Hq; first [eapply (wr_mapped _ _ _ _ _ ltac:(eassumption)) in Hq|eapply (pop_mapped _ _ _ ltac:(eassumption)) in Hq]; exact Hq.
Qed.
Lemma exec_list_mapped l m r : exec_list l m = Some r -> keeps_mapped m (machine_of r).
Proof.
  revert m. induction l as [|i l IH]; intros m; cbn [exec_list]; [by intros [= <-] x|].
  destruct (exec i m) as [[m'|t m']|] eqn:E; [|intros [= <-]|done].
  - intros Hl x Hx. by apply (IH _ Hl), (exec_mapped _ _ _ E).
  - exact (exec_mapped _ _ _ E).
Qed.

(** A 32-bit store does not touch the upper half of a word. *)
Lemma low_half old v : u4 (Z.lor (Z.shiftl (Z.shiftr old 32) 32) (u4 v)) = u4 v.
Proof.
  rewrite Z.lor_comm, shiftl_lor_add by (try apply to_u_bound; lia).
  unfold u4, to_u. rewrite Z_mod_plus_full. by apply Z.mod_mod.
Qed.
