(* ===== verification/X86Proofs.v ===== *)
(** * The encoders emit the instruction they name

    For each encoder of [X86.v]: the bytes below the old pointer decode
    to one instruction, the one the assembler meant, that ends where the
    code so far begins, and the code so far is unchanged. *)

From S2P Require Import Prelude Words Registers X86 X86Sem.

(** ** Bytes written below a pointer *)

(** From [m] with pointer [p] to [m'] with pointer [p']: the bytes [l]
    were put in between, nothing changed from [p] on. *)
Definition wrote (m : gmap Z Z) (p : Z) (r : gmap Z Z * Z) (l : list Z) : Prop :=
  r.2 = p - Z.of_nat (length l)
  /\ (forall q, p <= q -> r.1 !! q = m !! q)
  /\ (forall i b, l !! i = Some b -> r.1 !! (r.2 + Z.of_nat i) = Some b).

Lemma wrote_nil m p : wrote m p (m, p) [].
Proof. split; cbn; [lia|]. split; [done|]. intros i b. by rewrite lookup_nil. Qed.

Lemma wrote_app m p r1 l1 r2 l2 :
  wrote m p r1 l1 -> wrote r1.1 r1.2 r2 l2 -> wrote m p r2 (l2 ++ l1).
Proof.
  intros (E1 & F1 & B1) (E2 & F2 & B2). split; [rewrite length_app; lia|]. split.
  - intros q Hq. rewrite F2 by lia. auto.
  - intros i b [Hi|[Hlen Hi]]%lookup_app_Some; [by apply B2|].
    pose proof (lookup_lt_Some _ _ _ Hi). specialize (B1 _ _ Hi).
    rewrite F2 by lia. rewrite <- B1. f_equal. lia.
Qed.

(** The lower bytes do not belong to the code. *)
Lemma wrote_suffix m p m' p' l1 l2 :
  wrote m p (m', p') (l1 ++ l2) -> wrote m p (m', p' + Z.of_nat (length l1)) l2.
Proof.
  intros (E & F & B). cbn in *. rewrite length_app in E. split; [cbn; lia|]. split; [done|].
  intros i b Hi. cbn. specialize (B (length l1 + i)%nat b). rewrite lookup_app_r in B by lia.
  replace (length l1 + i - length l1)%nat with i in B by lia.
  rewrite <- (B Hi). f_equal. lia.
Qed.

Lemma wrote_one m p b : wrote m p (<[p - 1 := b]> m, p - 1) [b].
Proof.
  split; cbn; [lia|]. split.
  - intros q Hq. by rewrite lookup_insert_ne by lia.
  - intros [|i] x; cbn; [|by destruct i]. intros [= <-]. rewrite Z.add_0_r. apply lookup_insert_eq.
Qed.

Lemma wrote_next m0 p0 m p q l b :
  wrote m0 p0 (m, p) l -> q = p - 1 -> wrote m0 p0 (<[q := b]> m, q) (b :: l).
Proof. intros Hw ->. change (b :: l) with ([b] ++ l). eapply (wrote_app _ _ (m, p)); [done|]. apply wrote_one. Qed.

(** Little-endian numbers *)
Fixpoint le_bytes (n : nat) (v : Z) : list Z :=
  match n with O => [] | S n' => u1 v :: le_bytes n' (Z.shiftr v 8) end.
Lemma le_bytes_length n v : length (le_bytes n v) = n.
Proof. revert v. induction n; cbn; auto. Qed.
Lemma le_le_bytes n v : le (le_bytes n v) = to_u (8 * Z.of_nat n) v.
Proof.
  revert v. induction n as [|n IH]; intros v; cbn [le_bytes le].
  { unfold to_u. cbn. by rewrite Z.mod_1_r. }
  rewrite IH. unfold u1, to_u. rewrite Z.shiftr_div_pow2 by lia. change (2 ^ 8) with 256.
  replace (8 * Z.of_nat (S n)) with (8 + 8 * Z.of_nat n) by lia.
  rewrite Z.pow_add_r by lia. change (2 ^ 8) with 256.
  pose proof (pow2_pos (8 * Z.of_nat n) ltac:(lia)).
  rewrite Z.rem_mul_r by lia. lia.
Qed.

Lemma put_le_other n m p v q : q < p -> put_le n m p v !! q = m !! q.
Proof.
  revert m p v. induction n as [|n IH]; intros m p v Hq; cbn [put_le]; [done|].
  rewrite IH by lia. by rewrite lookup_insert_ne by lia.
Qed.
Lemma put_le_above n m p v q : p + Z.of_nat n <= q -> put_le n m p v !! q = m !! q.
Proof.
  revert m p v. induction n as [|n IH]; intros m p v Hq; cbn [put_le]; [done|].
  rewrite IH by lia. by rewrite lookup_insert_ne by lia.
Qed.
Lemma put_le_at n m p v i b : le_bytes n v !! i = Some b -> put_le n m p v !! (p + Z.of_nat i) = Some b.
Proof.
  revert m p v i. induction n as [|n IH]; intros m p v i; cbn [put_le le_bytes]; [by destruct i|].
  destruct i as [|i]; cbn.
  - intros [= <-]. rewrite put_le_other by lia. rewrite Z.add_0_r. apply lookup_insert_eq.
  - intros Hi. rewrite <- (IH (<[p := u1 v]> m) (p + 1) (Z.shiftr v 8) i Hi). f_equal. lia.
Qed.

Lemma wrote_put_le n m p v : wrote m (p + Z.of_nat n) (put_le n m p v, p) (le_bytes n v).
Proof.
  split; cbn; [rewrite le_bytes_length; lia|]. split.
  - intros q Hq. by apply put_le_above.
  - apply put_le_at.
Qed.
Lemma wrote_push n v m p : wrote m p (push n v m p) (le_bytes n v).
Proof.
  unfold push. replace p with (p - Z.of_nat n + Z.of_nat n) at 1 by lia. apply wrote_put_le.
Qed.

(** ** Opcode and prefix *)

Definition rex_of (rr rb rx : Z) : Z :=
  0x40 + Z.land (Z.shiftr rr 1) (4 + Z.shiftr FORCE_REX 1) + Z.land (Z.shiftr rx 2) 2
  + Z.land (Z.shiftr rb 3) 1.
Definition rex_bytes (rr rb rx : Z) : list Z :=
  if rex_of rr rb rx =? 0x40 then [] else [u1 (Z.lor (rex_of rr rb rx) (Z.shiftr rr 16))].

(** One- and two-byte opcodes *)
Inductive opcode_bytes : Z -> list Z -> Prop :=
| ob_one o : 0 <= o < 256 -> opcode_bytes (XO_ o) [o]
| ob_two o : 0 <= o < 256 -> opcode_bytes (XO_0f o) [0x0f; o].

Lemma emit_op_spec xo rr rb rx m p delta l :
  opcode_bytes xo l ->
  wrote m (p + delta - 1) (emit_op xo rr rb rx m p delta) (rex_bytes rr rb rx ++ l).
Proof.
  intros Ho. unfold emit_op.
  assert (Hb : exists pre, le_bytes 4 xo = pre ++ l /\ length pre = (4 - length l)%nat
            /\ to_s 8 xo = -1 - Z.of_nat (length l)
            /\ (to_s 8 xo =? -4) = false /\ (Z.land xo 0xffffff =? 0x6600fd) = false).
  { destruct Ho as [o Hr|o Hr].
    - exists [0xfe; 0; 0]. assert (Hall : forallb (fun o => bool_decide (le_bytes 4 (XO_ o) = [0xfe; 0; 0; o])
          && (to_s 8 (XO_ o) =? -2) && (negb (Z.land (XO_ o) 0xffffff =? 0x6600fd))) (seqZ 0 256) = true)
        by (vm_compute; reflexivity).
      rewrite forallb_forall in Hall. specialize (Hall o ltac:(apply list_elem_of_In, elem_of_seqZ; lia)).
      apply andb_true_iff in Hall as [[H1%bool_decide_eq_true_1 H2%Z.eqb_eq]%andb_true_iff H3%negb_true_iff].
      rewrite H1, H2. done.
    - exists [0xfd; 0]. assert (Hall : forallb (fun o => bool_decide (le_bytes 4 (XO_0f o) = [0xfd; 0; 0x0f; o])
          && (to_s 8 (XO_0f o) =? -3) && (negb (Z.land (XO_0f o) 0xffffff =? 0x6600fd))) (seqZ 0 256) = true)
        by (vm_compute; reflexivity).
      rewrite forallb_forall in Hall. specialize (Hall o ltac:(apply list_elem_of_In, elem_of_seqZ; lia)).
      apply andb_true_iff in Hall as [[H1%bool_decide_eq_true_1 H2%Z.eqb_eq]%andb_true_iff H3%negb_true_iff].
      rewrite H1, H2. done. }
  destruct Hb as (pre & Hb & Hpre & Hn & Hn4 & H66). rewrite Hn4, H66.
  assert (Hw : wrote m (p + delta - 1) (put_le 4 m (p + delta - 5) xo, p + (to_s 8 xo + delta)) l).
  { pose proof (wrote_put_le 4 m (p + delta - 5) xo) as Hw.
    replace (p + delta - 5 + Z.of_nat 4) with (p + delta - 1) in Hw by lia. rewrite Hb in Hw.
    apply wrote_suffix in Hw. rewrite Hpre, Hn in *.
    assert (length l <= 4)%nat by (destruct Ho; cbn; lia).
    replace (p + (-1 - Z.of_nat (length l) + delta)) with (p + delta - 5 + Z.of_nat (4 - length l)) by lia.
    done. }
  unfold rex_bytes, rex_of in *. destruct (_ =? 0x40); [done|].
  eapply (wrote_app _ _ _ _ _ [_]); [exact Hw|]. apply wrote_one.
Qed.

Lemma emit_opm_spec xo mode rr rb m p delta l :
  opcode_bytes xo l ->
  wrote m (p + delta) (emit_opm xo mode rr rb m p delta) (rex_bytes rr rb 0 ++ l ++ [MODRM mode rr rb]).
Proof.
  intros Ho. unfold emit_opm. rewrite app_assoc. eapply wrote_app; [apply wrote_one|].
  by apply emit_op_spec.
Qed.
Lemma emit_opmx_spec xo mode scale rr rb rx m p l :
  opcode_bytes xo l ->
  wrote m p (emit_opmx xo mode scale rr rb rx m p)
    (rex_bytes rr rb rx ++ l ++ [MODRM mode rr RID_ESP; MODRM scale rx rb]).
Proof.
  intros Ho. unfold emit_opmx.
  pose proof (wrote_app _ _ _ _ _ _ (wrote_one m p (MODRM scale rx rb))
                (wrote_one _ _ (MODRM mode rr RID_ESP))) as Hw.
  cbn [fst snd] in Hw. replace (p - 1 - 1) with (p - 2) in Hw by lia.
  rewrite app_assoc. change [MODRM mode rr RID_ESP; ?x] with ([MODRM mode rr RID_ESP] ++ [x]).
  eapply wrote_app; [exact Hw|]. cbn [fst snd]. replace (p - 2) with (p + -1 - 1) by lia.
  by apply emit_op_spec.
Qed.

(** ** Code that was emitted *)

(** From [c] to [c'] the instructions [l] were put in front of the code;
    they can be read in every memory that has the same bytes there. *)
Definition emits (c c' : Code) (l : list instr) : Prop :=
  mcp c' <= mcp c
  /\ (forall q, mcp c <= q -> bytes c' !! q = bytes c !! q)
  /\ (forall b, (forall q, mcp c' <= q < mcp c -> b !! q = bytes c' !! q) ->
        code_at b (mcp c') l (mcp c)).

Lemma emits_nil c : emits c c [].
Proof. split; [lia|]. split; [done|]. intros. constructor. Qed.
Lemma emits_app c c' c'' l l' : emits c c' l -> emits c' c'' l' -> emits c c'' (l' ++ l).
Proof.
  intros (H1 & F1 & C1) (H2 & F2 & C2). split; [lia|]. split.
  - intros q Hq. rewrite F2 by lia. auto.
  - intros b Hb. eapply code_at_app.
    + apply C2. intros q Hq. apply Hb. lia.
    + apply C1. intros q Hq. rewrite Hb by lia. apply F2. lia.
Qed.

Lemma fetch_app n m p l :
  (forall i b, l !! i = Some b -> m !! (p + Z.of_nat i) = Some b) -> (length l <= n)%nat ->
  fetch n m p = l ++ fetch (n - length l) m (p + Z.of_nat (length l)).
Proof.
  revert n p. induction l as [|b l IH]; intros n p Hl Hn; cbn [app length].
  { rewrite Z.add_0_r. by rewrite Nat.sub_0_r. }
  destruct n as [|n]; [cbn in Hn; lia|]. cbn [fetch].
  pose proof (Hl O b eq_refl) as H0. rewrite Z.add_0_r in H0. rewrite H0. f_equal.
  rewrite IH; [|intros i x Hi; rewrite <- (Hl (S i) x Hi); f_equal; lia|cbn in Hn; lia].
  f_equal. cbn. f_equal. lia.
Qed.

Lemma emits_one c r l i :
  wrote (bytes c) (mcp c) r l -> (length l <= 15)%nat ->
  (forall rest, parse (l ++ rest) = Some (i, rest)) ->
  emits c (to_code r) [absolute (mcp c) i].
Proof.
  destruct r as [m p]. intros (E & F & B) Hlen Hp. cbn in *. split; [cbn; lia|]. split; [done|].
  intros b Hb. cbn in *. eapply code_cons; [|constructor]. unfold decode.
  rewrite (fetch_app 15 b p l); [|intros j x Hj|done].
  - rewrite Hp, length_app. do 2 f_equal; [f_equal; lia|lia].
  - rewrite Hb; [by apply B|]. apply lookup_lt_Some in Hj. lia.
Qed.

(** ** Parsing what was written *)

(** A property of all registers is checked by computation. *)
Lemma reg_forall (f : Z -> bool) r : forallb f (seqZ 0 16) = true -> 0 <= r < 16 -> f r = true.
Proof. rewrite forallb_forall. intros Hf Hr. apply Hf, list_elem_of_In, elem_of_seqZ. lia. Qed.

(** The prefix [0x40 + rexb w r b x]. *)
Definition rexb (w r b x : Z) : Z := 8 * w + 4 * (r / 8) + 2 * (x / 8) + b / 8.
(** A register number with or without the bits of [REX_64]. *)
Definition is_gpr (r : Z) : Prop := 0 <= r < 16.
Definition as_reg (r' r : Z) : Prop := is_gpr r /\ (r' = r \/ r' = Z.lor r REX_64).

Lemma rex_bytes_64 r b b' x :
  is_gpr r -> as_reg b' b -> is_gpr x ->
  rex_bytes (Z.lor r REX_64) b' x = [0x40 + rexb 1 r b x].
Proof.
  intros Hr [Hb Hb'] Hx.
  assert (Hall : forallb (fun r => forallb (fun b => forallb (fun x =>
      bool_decide (rex_bytes (Z.lor r REX_64) b x = [0x40 + rexb 1 r b x])
      && bool_decide (rex_bytes (Z.lor r REX_64) (Z.lor b REX_64) x = [0x40 + rexb 1 r b x]))
      (seqZ 0 16)) (seqZ 0 16)) (seqZ 0 16) = true) by (vm_compute; reflexivity).
  pose proof (reg_forall _ x (reg_forall _ b (reg_forall _ r Hall Hr) Hb) Hx) as E. cbn beta in E.
  apply andb_true_iff in E as [E1%bool_decide_eq_true_1 E2%bool_decide_eq_true_1].
  by destruct Hb' as [-> | ->].
Qed.

Lemma rexb_bits w r b x :
  is_gpr r -> is_gpr b -> is_gpr x -> (w = 0 \/ w = 1) ->
  Z.testbit (rexb w r b x) 3 = (w =? 1)
  /\ r mod 8 + rex_bit (rexb w r b x) 2 = r
  /\ x mod 8 + rex_bit (rexb w r b x) 1 = x
  /\ b mod 8 + rex_bit (rexb w r b x) 0 = b
  /\ 0 <= rexb w r b x < 16.
Proof.
  intros Hr Hb Hx Hw.
  assert (Hall : forallb (fun r => forallb (fun b => forallb (fun x => forallb (fun w =>
      eqb (Z.testbit (rexb w r b x) 3) (w =? 1)
      && (r mod 8 + rex_bit (rexb w r b x) 2 =? r) && (x mod 8 + rex_bit (rexb w r b x) 1 =? x)
      && (b mod 8 + rex_bit (rexb w r b x) 0 =? b)
      && (0 <=? rexb w r b x) && (rexb w r b x <? 16)) [0; 1])
      (seqZ 0 16)) (seqZ 0 16)) (seqZ 0 16) = true) by (vm_compute; reflexivity).
  pose proof (reg_forall _ x (reg_forall _ b (reg_forall _ r Hall Hr) Hb) Hx) as E. cbn beta in E.
  rewrite forallb_forall in E. specialize (E w ltac:(cbn; intuition)).
  rewrite !andb_true_iff, eqb_true_iff, !Z.eqb_eq, Z.leb_le, Z.ltb_lt in E. tauto.
Qed.

Lemma parse_rex_prefix w r b x l :
  is_gpr r -> is_gpr b -> is_gpr x -> (w = 0 \/ w = 1) ->
  parse_rex ((0x40 + rexb w r b x) :: l) = (rexb w r b x, l).
Proof.
  intros Hr Hb Hx Hw. destruct (rexb_bits w r b x Hr Hb Hx Hw) as (_ & _ & _ & _ & H).
  unfold parse_rex. rewrite (proj2 (Z.leb_le _ _)), (proj2 (Z.ltb_lt _ _)) by lia.
  cbn [andb]. f_equal. lia.
Qed.

Lemma land_7 r : Z.land r 7 = r mod 8.
Proof. change 7 with (Z.ones 3). by rewrite Z.land_ones by lia. Qed.
Lemma modrm_eq k r1 r2 : 0 <= k < 4 -> MODRM (64 * k) r1 r2 = 64 * k + 8 * (r1 mod 8) + r2 mod 8.
Proof.
  intros Hk. unfold MODRM. rewrite !land_7, Z.shiftl_mul_pow2 by lia. change (2 ^ 3) with 8.
  pose proof (Z.mod_pos_bound r1 8). pose proof (Z.mod_pos_bound r2 8).
  unfold u1. rewrite (to_u_id 8) by lia. lia.
Qed.
Lemma modrm_fields k r1 r2 : 0 <= k < 4 ->
  MODRM (64 * k) r1 r2 / 64 = k /\ MODRM (64 * k) r1 r2 / 8 mod 8 = r1 mod 8
  /\ MODRM (64 * k) r1 r2 mod 8 = r2 mod 8.
Proof.
  intros Hk. rewrite modrm_eq by done. Z.to_euclidean_division_equations. lia.
Qed.

Lemma take_le_bytes n v l : take_le n (le_bytes n v ++ l) = Some (to_u (8 * Z.of_nat n) v, l).
Proof.
  unfold take_le. rewrite length_app, le_bytes_length, (proj2 (Nat.leb_le _ _)) by lia.
  rewrite take_app_length', drop_app_length', le_le_bytes by (symmetry; apply le_bytes_length). done.
Qed.
Lemma take_s_bytes n v l :
  (0 < n)%nat -> take_s n (le_bytes n v ++ l) = Some (to_s (8 * Z.of_nat n) v, l).
Proof. intros Hn. unfold take_s. rewrite take_le_bytes. by rewrite to_s_to_u by lia. Qed.

Definition is_i32 (i : Z) : Prop := - 2 ^ 31 <= i < 2 ^ 31.
Lemma i32_id i : is_i32 i -> to_s 32 i = i.
Proof. apply (to_s_id 32). lia. Qed.

(** Operands: a register, *)
Lemma parse_rm_reg rex rr rb l :
  parse_rm rex (MODRM XM_REG rr rb :: l)
  = Some (rr mod 8 + rex_bit rex 2, OReg (rb mod 8 + rex_bit rex 0), l).
Proof.
  unfold parse_rm. destruct (modrm_fields 3 rr rb ltac:(lia)) as (E1 & E2 & E3).
  change XM_REG with (64 * 3). by rewrite E1, E2, E3.
Qed.

(** and memory at a register and an offset: *)
Definition offset_mode (rb offset : Z) : Z :=
  if (offset =? 0) && negb (rb mod 8 =? 5) then 0 else if checki8 offset then 1 else 2.
Definition offset_bytes (rb offset : Z) : list Z :=
  if (offset =? 0) && negb (rb mod 8 =? 5) then []
  else if checki8 offset then le_bytes 1 offset else le_bytes 4 offset.
Definition sib_bytes (rb : Z) : list Z := if rb mod 8 =? 4 then [0x24] else [].

Lemma push_offset_spec rb offset m p :
  wrote m p (push_offset rb offset m p).1 (offset_bytes rb offset)
  /\ (push_offset rb offset m p).2 = 64 * offset_mode rb offset.
Proof.
  unfold push_offset, offset_mode, offset_bytes. rewrite land_7. change RID_EBP with 5.
  destruct (_ && _); [split; [apply wrote_nil|done]|].
  destruct (checki8 offset); (split; [apply wrote_push|done]).
Qed.

Lemma parse_disp_spec rb offset l :
  is_i32 offset -> parse_disp (offset_mode rb offset) (offset_bytes rb offset ++ l) = Some (offset, l).
Proof.
  intros Ho. unfold parse_disp, offset_mode, offset_bytes.
  destruct ((offset =? 0) && _) eqn:E0.
  { apply andb_true_iff in E0 as [->%Z.eqb_eq _]. done. }
  destruct (checki8 offset) eqn:E8.
  - change (1 =? 0) with false. change (1 =? 1) with true. cbn iota.
    rewrite take_s_bytes by lia. apply Z.eqb_eq in E8. change (8 * Z.of_nat 1) with 8. by rewrite <- E8.
  - change (2 =? 0) with false. change (2 =? 1) with false. cbn iota.
    rewrite take_s_bytes by lia. change (8 * Z.of_nat 4) with 32. by rewrite i32_id.
Qed.

Lemma parse_rm_mem rex rr rb offset l :
  is_i32 offset -> rex_bit rex 1 = 0 ->
  parse_rm rex (MODRM (64 * offset_mode rb offset) rr rb
                  :: sib_bytes rb ++ offset_bytes rb offset ++ l)
  = Some (rr mod 8 + rex_bit rex 2, OMem (rb mod 8 + rex_bit rex 0) None offset, l).
Proof.
  intros Ho Hx. assert (Hm : 0 <= offset_mode rb offset < 3).
  { unfold offset_mode. destruct (_ && _); [lia|]. destruct (checki8 offset); lia. }
  unfold parse_rm. destruct (modrm_fields (offset_mode rb offset) rr rb ltac:(lia)) as (E1 & E2 & E3).
  rewrite E1, E2, E3. destruct (Z.eqb_spec (offset_mode rb offset) 3) as [|_]; [lia|].
  unfold sib_bytes. destruct (Z.eqb_spec (rb mod 8) 4) as [E4|N4].
  - cbn [app]. change (36 / 8 mod 8) with 4. change (36 mod 8) with 4. change (36 / 64 =? 0) with true.
    rewrite Hx. cbn [negb orb]. change (4 =? 5) with false. cbn [andb orb].
    rewrite parse_disp_spec by done. change (4 + 0 =? 4) with true. cbn iota. by rewrite E4.
  - cbn [app]. destruct ((rb mod 8 =? 5) && (offset_mode rb offset =? 0)) eqn:E5.
    { apply andb_true_iff in E5 as [E5%Z.eqb_eq E6%Z.eqb_eq]. unfold offset_mode in E6.
      rewrite E5 in E6. change (negb (5 =? 5)) with false in E6. rewrite andb_false_r in E6.
      by destruct (checki8 offset). }
    rewrite parse_disp_spec by done. done.
Qed.

(** ** One instruction with a ModRM byte *)

(** The register operand as the callers pass it. *)
Definition wide (rr r : Z) : Prop := is_gpr r /\ rr = Z.lor r REX_64.
Lemma wide_r r : is_gpr r -> wide (Z.lor r REX_64) r.
Proof. done. Qed.
Lemma wide_l r : is_gpr r -> wide (Z.lor REX_64 r) r.
Proof. split; [done|apply Z.lor_comm]. Qed.
Lemma as_reg_id r : is_gpr r -> as_reg r r.
Proof. by split; [|left]. Qed.
Lemma as_reg_wide rr r : wide rr r -> as_reg rr r.
Proof. intros [? ->]. by split; [|right]. Qed.

Lemma as_reg_mod r' r : as_reg r' r -> r' mod 8 = r mod 8.
Proof.
  intros [Hr [-> | ->]]; [done|].
  assert (Hall : forallb (fun r => Z.lor r REX_64 mod 8 =? r mod 8) (seqZ 0 16) = true)
    by (vm_compute; reflexivity).
  apply Z.eqb_eq, (reg_forall _ r Hall Hr).
Qed.

Section operands.
Context (rr r rb b : Z).
Hypotheses (Hw : wide rr r) (Hb : as_reg rb b).

Lemma gpr_0 : is_gpr 0.
Proof using Type. unfold is_gpr. lia. Qed.
Lemma rex_w : Z.testbit (rexb 1 r b 0) 3 = true.
Proof using Hb Hw. apply (rexb_bits 1 r b 0); [apply Hw|apply Hb|apply gpr_0|auto]. Qed.

Lemma parse_rm_reg_64 l :
  parse_rm (rexb 1 r b 0) (MODRM XM_REG rr rb :: l) = Some (r, OReg b, l).
Proof using Hb Hw.
  rewrite parse_rm_reg, (as_reg_mod rr r), (as_reg_mod rb b) by auto using as_reg_wide.
  destruct (rexb_bits 1 r b 0) as (_ & E1 & _ & E2 & _); [apply Hw|apply Hb|apply gpr_0|auto|].
  by rewrite E1, E2.
Qed.
Lemma parse_rm_mem_64 offset l :
  is_i32 offset ->
  parse_rm (rexb 1 r b 0) (MODRM (64 * offset_mode rb offset) rr rb
                             :: sib_bytes rb ++ offset_bytes rb offset ++ l)
  = Some (r, OMem b None offset, l).
Proof using Hb Hw.
  intros Ho. destruct (rexb_bits 1 r b 0) as (_ & E1 & E & E2 & _); [apply Hw|apply Hb|apply gpr_0|auto|].
  change (0 mod 8) with 0 in E. rewrite parse_rm_mem by (done || lia).
  rewrite (as_reg_mod rr r), (as_reg_mod rb b) by auto using as_reg_wide. by rewrite E1, E2.
Qed.

(** The parts behind the opcode bytes [l] are [post]. *)
Definition parse_oplist (rex : Z) (l tail : list Z) : option (instr * list Z) :=
  match l with op :: l' => parse_op rex op (l' ++ tail) | [] => None end.

Lemma emit_opm_emits xo l c m p delta post mode i :
  wrote (bytes c) (mcp c) (m, p + delta) post -> opcode_bytes xo l -> (length post <= 11)%nat ->
  (forall rest, parse_oplist (rexb 1 r b 0) l (MODRM mode rr rb :: post ++ rest) = Some (i, rest)) ->
  emits c (to_code (emit_opm xo mode rr rb m p delta)) [absolute (mcp c) i].
Proof using Hb Hw.
  intros Hp Ho Hlen Hparse. assert (Hex : rex_bytes rr rb 0 = [0x40 + rexb 1 r b 0]).
  { destruct Hw as [Hr ->]. by apply rex_bytes_64; [| |apply gpr_0]. }
  pose proof (emit_opm_spec xo mode rr rb m p delta l Ho) as Hs. rewrite Hex in Hs.
  eapply emits_one; [eapply wrote_app; [exact Hp|exact Hs]|..].
  - rewrite !length_app. cbn. destruct Ho; cbn; lia.
  - intros rest. rewrite <- (Hparse rest). unfold parse. cbn [app].
    rewrite parse_rex_prefix by (apply Hw || apply Hb || apply gpr_0 || auto).
    destruct Ho; cbn [app parse_oplist]; by rewrite ?app_assoc.
Qed.
End operands.

(** [rmro]: memory at a register and an offset. *)
Lemma emit_rmro_emits xo l rr r rb b offset c m0 p0 imm i :
  wide rr r -> as_reg rb b -> is_i32 offset -> opcode_bytes xo l -> (length imm <= 4)%nat ->
  wrote (bytes c) (mcp c) (m0, p0) imm ->
  (forall rest, parse_oplist (rexb 1 r b 0) l
     (MODRM (64 * offset_mode rb offset) rr rb :: sib_bytes rb ++ offset_bytes rb offset ++ imm ++ rest)
     = Some (i, rest)) ->
  emits c (emit_rmro xo rr rb offset (mkBytes m0 p0)) [absolute (mcp c) i].
Proof.
  intros Hw Hb Ho Hop Hlen Himm Hparse. unfold emit_rmro.
  assert (Hreg : isReg rb = true).
  { assert (Hall : forallb (fun r => isReg r && isReg (Z.lor r REX_64)) (seqZ 0 16) = true)
      by (vm_compute; reflexivity).
    destruct Hb as [Hb Hb']. pose proof (reg_forall _ b Hall Hb) as E. apply andb_true_iff in E as [E1 E2].
    by destruct Hb' as [-> | ->]. }
  rewrite Hreg. cbn [bytes mcp].
  destruct (push_offset_spec rb offset m0 p0) as [Hof Hmode].
  destruct (push_offset rb offset m0 p0) as [[m1 p1] mode]. cbn [fst snd] in *. subst mode.
  assert (Hsib : exists m2 p2,
      (if Z.land rb 7 =? RID_ESP then push 1 (MODRM XM_SCALE1 RID_ESP RID_ESP) m1 p1 else (m1, p1)) = (m2, p2)
      /\ wrote m1 p1 (m2, p2) (sib_bytes rb)).
  { rewrite land_7. unfold sib_bytes. change RID_ESP with 4 at 1. destruct (rb mod 8 =? 4).
    - do 2 eexists. split; [reflexivity|].
      exact (wrote_push 1 (MODRM XM_SCALE1 RID_ESP RID_ESP) m1 p1).
    - do 2 eexists. split; [reflexivity|]. apply wrote_nil. }
  destruct Hsib as (m2 & p2 & -> & Hsib).
  eapply (emit_opm_emits _ r _ b Hw Hb _ _ _ _ _ _ (sib_bytes rb ++ offset_bytes rb offset ++ imm)); [|done| |].
  - rewrite Z.add_0_r. eapply (wrote_app _ _ (m1, p1)); [|exact Hsib].
    by eapply (wrote_app _ _ (m0, p0)).
  - rewrite !length_app.
    assert (length (sib_bytes rb) <= 1)%nat by (unfold sib_bytes; case_match; cbn; lia).
    assert (length (offset_bytes rb offset) <= 4)%nat by (unfold offset_bytes; repeat case_match; cbn; lia).
    lia.
  - intros rest. rewrite <- Hparse. by rewrite <- !app_assoc.
Qed.

(** ** The encoders *)

Lemma gpr_small r : is_gpr r -> (r <? RID_MAX_GPR) = true.
Proof. intros [??]. apply Z.ltb_lt. change RID_MAX_GPR with 16. lia. Qed.
Lemma wrote_imm c n i m p : wrote m p (bytes c, mcp c) [] -> wrote m p (push n i (bytes c) (mcp c)) (le_bytes n i).
Proof. intros Hw. rewrite <- (app_nil_r (le_bytes n i)). eapply wrote_app; [exact Hw|]. apply wrote_push. Qed.
Lemma code_eta c : c = mkBytes (bytes c) (mcp c).
Proof. by destruct c. Qed.

(** Arguments of one instruction: the decoder's branch for the opcode,
    then the operands. *)
Ltac parse_mem Hw Hb :=
  intros ?; cbn [parse_oplist app]; unfold parse_op; cbn [Z.eqb Pos.eqb];
  rewrite (parse_rm_mem_64 _ _ _ _ Hw Hb) by done; rewrite ?(rex_w _ _ _ _ Hw Hb); reflexivity.
Ltac parse_reg Hw Hb :=
  intros ?; cbn [parse_oplist app]; unfold parse_op; cbn [Z.eqb Pos.eqb];
  rewrite (parse_rm_reg_64 _ _ _ _ Hw Hb); rewrite ?(rex_w _ _ _ _ Hw Hb); reflexivity.

Lemma emit_rr_emits xo l rr r rb b c i :
  wide rr r -> as_reg rb b -> opcode_bytes xo l ->
  (forall rest, parse_oplist (rexb 1 r b 0) l (MODRM XM_REG rr rb :: rest) = Some (i, rest)) ->
  emits c (emit_rr xo rr rb c) [absolute (mcp c) i].
Proof.
  intros Hw Hb Ho Hp. unfold emit_rr.
  eapply (emit_opm_emits _ r _ b Hw Hb _ _ _ _ _ _ []); [|done|cbn; lia|exact Hp].
  rewrite Z.add_0_r. apply wrote_nil.
Qed.

Lemma move_emits dst src c :
  is_gpr dst -> is_gpr src -> emits c (move dst src c) [IMovRM true dst (OReg src)].
Proof.
  intros Hd Hs. unfold move. rewrite gpr_small by done.
  pose proof (wide_l _ Hd) as Hw. pose proof (as_reg_wide _ _ (wide_l _ Hs)) as Hb.
  eapply (emit_rr_emits XO_MOV _ _ dst _ src _ (IMovRM true dst (OReg src)));
    [done..|apply ob_one; lia|parse_reg Hw Hb].
Qed.

Lemma load_emits dst base ofs c :
  is_gpr dst -> is_gpr base -> is_i32 ofs ->
  emits c (load_u64 dst base ofs c) [IMovRM true dst (OMem base None ofs)].
Proof.
  intros Hd Hs Ho. unfold load_u64. rewrite gpr_small by done.
  pose proof (wide_l _ Hd) as Hw. pose proof (as_reg_id _ Hs) as Hb. rewrite (code_eta c) at 2.
  eapply (emit_rmro_emits XO_MOV _ _ dst _ base _ _ _ _ [] (IMovRM true dst (OMem base None ofs)));
    [done..|apply ob_one; lia|cbn; lia|apply wrote_nil|parse_mem Hw Hb].
Qed.

Lemma store_emits base ofs src c :
  is_gpr src -> is_gpr base -> is_i32 ofs ->
  emits c (store_u64 base ofs src c) [IMovMR true (OMem base None ofs) src].
Proof.
  intros Hd Hs Ho. unfold store_u64. rewrite gpr_small by done.
  pose proof (wide_l _ Hd) as Hw. pose proof (as_reg_id _ Hs) as Hb. rewrite (code_eta c) at 2.
  eapply (emit_rmro_emits XO_MOVto _ _ src _ base _ _ _ _ [] (IMovMR true (OMem base None ofs) src));
    [done..|apply ob_one; lia|cbn; lia|apply wrote_nil|parse_mem Hw Hb].
Qed.

Lemma lea_emits rr r rb b ofs c :
  wide rr r -> as_reg rb b -> is_i32 ofs ->
  emits c (emit_rmro XO_LEA rr rb ofs c) [ILea true r (OMem b None ofs)].
Proof.
  intros Hw Hb Ho. rewrite (code_eta c) at 2.
  eapply (emit_rmro_emits XO_LEA _ _ r _ b _ _ _ _ [] (ILea true r (OMem b None ofs)));
    [done..|apply ob_one; lia|cbn; lia|apply wrote_nil|parse_mem Hw Hb].
Qed.

Lemma cmp_mem_emits rr r rb b ofs c :
  wide rr r -> as_reg rb b -> is_i32 ofs ->
  emits c (emit_rmro XO_CMP rr rb ofs c) [IArith true 7 r (OMem b None ofs)].
Proof.
  intros Hw Hb Ho. rewrite (code_eta c) at 2.
  eapply (emit_rmro_emits XO_CMP _ _ r _ b _ _ _ _ [] (IArith true 7 r (OMem b None ofs)));
    [done..|apply ob_one; lia|cbn; lia|apply wrote_nil|parse_mem Hw Hb].
Qed.

Lemma storei_emits base ofs i c :
  is_gpr base -> is_i32 ofs -> is_i32 i ->
  emits c (storei_u64 base ofs i c) [IMovMI true (OMem base None ofs) i].
Proof.
  intros Hs Ho Hi. unfold storei_u64, emit_i32.
  pose proof (wide_l 0 gpr_0) as Hw. pose proof (as_reg_id _ Hs) as Hb.
  destruct (push 4 i (bytes c) (mcp c)) as [m p] eqn:E.
  eapply (emit_rmro_emits XO_MOVmi _ _ 0 _ base _ _ _ _ (le_bytes 4 i) (IMovMI true (OMem base None ofs) i));
    [done..|apply ob_one; lia|cbn; lia|rewrite <- E; apply wrote_push|].
  intros rest. cbn [parse_oplist app]. unfold parse_op. cbn [Z.eqb Pos.eqb].
  rewrite (parse_rm_mem_64 _ _ _ _ Hw Hb) by done. rewrite take_s_bytes by lia.
  rewrite (rex_w _ _ _ _ Hw Hb). change (8 * Z.of_nat 4) with 32. by rewrite i32_id.
Qed.

(** [emit_mrm] is [emit_rr] or [emit_rmro]. *)
Lemma emit_mrm_reg mrm xo rr rb b c :
  as_reg rb b -> emit_mrm mrm xo rr rb c = emit_rr xo rr rb c.
Proof.
  intros [Hb Hb']. unfold emit_mrm, emit_rr.
  assert (Hall : forallb (fun r => negb (r =? RID_MRM) && negb (Z.lor r REX_64 =? RID_MRM)) (seqZ 0 16) = true)
    by (vm_compute; reflexivity).
  pose proof (reg_forall _ b Hall Hb) as E.
  apply andb_true_iff in E as [E1%negb_true_iff E2%negb_true_iff].
  destruct Hb' as [-> | ->]; by rewrite ?E1, ?E2.
Qed.
Lemma emit_mrm_mem mrm xo rr c :
  is_gpr (mrm_base mrm) -> mrm_idx mrm = RID_NONE ->
  emit_mrm mrm xo rr RID_MRM c = emit_rmro xo rr (mrm_base mrm) (mrm_ofs mrm) c.
Proof.
  intros Hb Hi. unfold emit_mrm, emit_rmro. rewrite Z.eqb_refl.
  assert (Hall : forallb (fun r => isReg r && negb (r =? RID_NONE)) (seqZ 0 16) = true)
    by (vm_compute; reflexivity).
  pose proof (reg_forall _ _ Hall Hb) as E. apply andb_true_iff in E as [-> E2%negb_true_iff].
  rewrite E2, Hi. change (negb (RID_NONE =? RID_NONE)) with false. cbn iota.
  destruct (push_offset _ _ _ _) as [[m p] mode]. by destruct (Z.land _ 7 =? RID_ESP).
Qed.

(** Arithmetic; [op] 7 is a comparison. *)
Definition arith_xo (op : Z) : Z := 0x030000fe + Z.shiftl op 27.
Lemma arith_xo_bytes op : 0 <= op < 8 -> opcode_bytes (arith_xo op) [8 * op + 3].
Proof.
  intros Ho. replace (arith_xo op) with (XO_ (8 * op + 3)); [apply ob_one; lia|].
  unfold arith_xo, XO_. rewrite !Z.shiftl_mul_pow2 by lia. lia.
Qed.
Lemma parse_arith rex op l :
  0 <= op < 8 -> parse_op rex (8 * op + 3) l
  = do (r, x, l) <- parse_rm rex l; Some (IArith (Z.testbit rex 3) op r x, l).
Proof.
  intros Ho. assert (Hc : op = 0 \/ op = 1 \/ op = 2 \/ op = 3 \/ op = 4 \/ op = 5 \/ op = 6 \/ op = 7) by lia.
  destruct Hc as [-> | [-> | [-> | [-> | [-> | [-> | [-> | ->]]]]]]]; reflexivity.
Qed.

Lemma arith_emits mrm op rr r rb b c :
  wide rr r -> as_reg rb b -> 0 <= op < 8 ->
  emits c (emit_mrm mrm (arith_xo op) rr rb c) [IArith true op r (OReg b)].
Proof.
  intros Hw Hb Ho. rewrite (emit_mrm_reg _ _ _ _ _ _ Hb).
  eapply (emit_rr_emits _ _ _ r _ b _ (IArith true op r (OReg b))); [done..|by apply arith_xo_bytes|].
  intros rest. cbn [parse_oplist app]. rewrite parse_arith by done.
  by rewrite (parse_rm_reg_64 _ _ _ _ Hw Hb), (rex_w _ _ _ _ Hw Hb).
Qed.
Lemma arith_mem_emits mrm op rr r c :
  wide rr r -> is_gpr (mrm_base mrm) -> mrm_idx mrm = RID_NONE -> is_i32 (mrm_ofs mrm) -> 0 <= op < 8 ->
  emits c (emit_mrm mrm (arith_xo op) rr RID_MRM c)
    [IArith true op r (OMem (mrm_base mrm) None (mrm_ofs mrm))].
Proof.
  intros Hw Hb Hi Hofs Ho. rewrite emit_mrm_mem by done. rewrite (code_eta c) at 2.
  pose proof (as_reg_id _ Hb) as Hb'.
  eapply (emit_rmro_emits _ _ _ r _ (mrm_base mrm) _ _ _ _ [] (IArith true op r (OMem (mrm_base mrm) None (mrm_ofs mrm))));
    [done..|by apply arith_xo_bytes|cbn; lia|apply wrote_nil|].
  intros rest. cbn [parse_oplist app]. rewrite parse_arith by done.
  by rewrite (parse_rm_mem_64 _ _ _ _ Hw Hb'), (rex_w _ _ _ _ Hw Hb').
Qed.

Lemma imul_emits mrm rr r rb b c :
  wide rr r -> as_reg rb b -> emits c (emit_mrm mrm XO_IMUL rr rb c) [IImul true r (OReg b)].
Proof.
  intros Hw Hb. rewrite (emit_mrm_reg _ _ _ _ _ _ Hb).
  eapply (emit_rr_emits _ _ _ r _ b _ (IImul true r (OReg b))); [done..|apply ob_two; lia|parse_reg Hw Hb].
Qed.

(** Shifts, negation, division *)
Lemma group3_emits xg rb b c :
  0 <= xg < 8 -> as_reg rb b ->
  emits c (emit_rr XO_GROUP3 (Z.lor REX_64 xg) rb c) [IGroup3 true xg (OReg b)].
Proof.
  intros Hx Hb. assert (Hg : is_gpr xg) by (unfold is_gpr; lia). pose proof (wide_l _ Hg) as Hw.
  eapply (emit_rr_emits _ _ _ xg _ b _ (IGroup3 true xg (OReg b))); [done..|apply ob_one; lia|].
  intros ?. cbn [parse_oplist app]. unfold parse_op. cbn [Z.eqb Pos.eqb].
  rewrite (parse_rm_reg_64 _ _ _ _ Hw Hb), (rex_w _ _ _ _ Hw Hb). by rewrite (Z.mod_small xg 8) by lia.
Qed.
Lemma shift1_emits xs rb b c :
  0 <= xs < 8 -> as_reg rb b ->
  emits c (emit_rr XO_SHIFT1 (Z.lor xs REX_64) rb c) [IShiftI true xs (OReg b) 1].
Proof.
  intros Hx Hb. assert (Hg : is_gpr xs) by (unfold is_gpr; lia). pose proof (wide_r _ Hg) as Hw.
  eapply (emit_rr_emits _ _ _ xs _ b _ (IShiftI true xs (OReg b) 1)); [done..|apply ob_one; lia|].
  intros ?. cbn [parse_oplist app]. unfold parse_op. cbn [Z.eqb Pos.eqb].
  rewrite (parse_rm_reg_64 _ _ _ _ Hw Hb), (rex_w _ _ _ _ Hw Hb). by rewrite (Z.mod_small xs 8) by lia.
Qed.
Lemma shifti_emits xs rb b k c :
  0 <= xs < 8 -> as_reg rb b -> 0 <= k < 64 ->
  emits c (emit_shifti (Z.lor xs REX_64) rb k c) [IShiftI true xs (OReg b) k].
Proof.
  intros Hx Hb Hk. assert (Hg : is_gpr xs) by (unfold is_gpr; lia). pose proof (wide_r _ Hg) as Hw.
  unfold emit_shifti, emit_rr, emit_i8.
  destruct (push 1 k (bytes c) (mcp c)) as [m p] eqn:E. cbn [bytes mcp].
  eapply (emit_opm_emits _ xs _ b Hw Hb _ _ _ _ _ _ (le_bytes 1 k) _ (IShiftI true xs (OReg b) k));
    [rewrite Z.add_0_r, <- E; apply wrote_push|apply ob_one; lia|cbn; lia|].
  intros rest. cbn [parse_oplist app]. unfold parse_op. cbn [Z.eqb Pos.eqb].
  rewrite (parse_rm_reg_64 _ _ _ _ Hw Hb), (rex_w _ _ _ _ Hw Hb). cbn [app].
  change (u1 k :: [] ++ rest) with (le_bytes 1 k ++ rest). rewrite take_le_bytes.
  change (8 * Z.of_nat 1) with 8. rewrite (Z.mod_small xs 8) by lia. by rewrite (to_u_id 8) by lia.
Qed.

Lemma cqo_emits c : emits c (emit_i8 0x48 (emit_i8 XI_CDQ c)) [ICqo true].
Proof.
  eapply (emits_one c (push 1 0x48 (bytes (emit_i8 XI_CDQ c)) (mcp (emit_i8 XI_CDQ c))) [0x48; 0x99] (ICqo true));
    [|cbn; lia|done].
  eapply (wrote_app _ _ (push 1 XI_CDQ (bytes c) (mcp c)) [0x99] _ [0x48]);
    [exact (wrote_push 1 XI_CDQ _ _)|exact (wrote_push 1 0x48 _ _)].
Qed.

(** ** Immediates *)

Lemma checki8_id i : checki8 i = true -> to_s 8 i = i.
Proof. intros E. symmetry. by apply Z.eqb_eq. Qed.

(** [emit_gri] and [emit_gmrmi] *)
Lemma group1_ops g : 0 <= g < 8 ->
  Z.land (XG_ARITHi g) 7 = g /\ XG_TOXOi8 (XG_ARITHi g) = XO_ 0x83 /\ XG_TOXOi (XG_ARITHi g) = XO_ 0x81.
Proof.
  intros Hg. assert (Hall : forallb (fun g => (Z.land (XG_ARITHi g) 7 =? g)
      && (XG_TOXOi8 (XG_ARITHi g) =? XO_ 0x83) && (XG_TOXOi (XG_ARITHi g) =? XO_ 0x81)) (seqZ 0 8) = true)
    by (vm_compute; reflexivity).
  rewrite forallb_forall in Hall. specialize (Hall g ltac:(apply list_elem_of_In, elem_of_seqZ; lia)).
  rewrite !andb_true_iff, !Z.eqb_eq in Hall. tauto.
Qed.
Lemma wide_flags rr r :
  wide rr r -> Z.land rr REX_64 = REX_64 /\ Z.land rr (u4 (Z.lnot REX_64)) = r.
Proof.
  intros [Hr ->]. assert (Hall : forallb (fun r => (Z.land (Z.lor r REX_64) REX_64 =? REX_64)
      && (Z.land (Z.lor r REX_64) (u4 (Z.lnot REX_64)) =? r)) (seqZ 0 16) = true) by (vm_compute; reflexivity).
  pose proof (reg_forall _ r Hall Hr) as E. by rewrite andb_true_iff, !Z.eqb_eq in E.
Qed.

Lemma gri_emits g rr r i c :
  0 <= g < 8 -> wide rr r -> is_i32 i ->
  emits c (emit_gri (XG_ARITHi g) rr i c) [IArithI true g (OReg r) i].
Proof.
  intros Hg Hwr Hi. unfold emit_gri. destruct (group1_ops g Hg) as (E1 & E2 & E3).
  destruct (wide_flags _ _ Hwr) as [E4 _]. rewrite E1, E2, E3, E4.
  assert (Hgg : is_gpr g) by (unfold is_gpr; lia).
  pose proof (wide_r _ Hgg) as Hw. pose proof (as_reg_wide _ _ Hwr) as Hb.
  destruct (checki8 i) eqn:E8.
  - destruct (push 1 i (bytes c) (mcp c)) as [m p] eqn:E.
    eapply (emit_opm_emits _ g _ r Hw Hb _ _ _ _ _ _ (le_bytes 1 i) _ (IArithI true g (OReg r) i));
      [rewrite Z.add_0_r, <- E; apply wrote_push|apply ob_one; lia|cbn; lia|].
    intros rest. cbn [parse_oplist]. change ([] ++ ?x) with x. unfold parse_op. cbn [Z.eqb Pos.eqb].
    rewrite (parse_rm_reg_64 _ _ _ _ Hw Hb), (rex_w _ _ _ _ Hw Hb), take_s_bytes by lia.
    change (8 * Z.of_nat 1) with 8. rewrite checki8_id by done. by rewrite (Z.mod_small g 8) by lia.
  - destruct (push 4 i (bytes c) (mcp c)) as [m p] eqn:E.
    eapply (emit_opm_emits _ g _ r Hw Hb _ _ _ _ _ _ (le_bytes 4 i) _ (IArithI true g (OReg r) i));
      [rewrite Z.add_0_r, <- E; apply wrote_push|apply ob_one; lia|cbn; lia|].
    intros rest. cbn [parse_oplist]. change ([] ++ ?x) with x. unfold parse_op. cbn [Z.eqb Pos.eqb].
    rewrite (parse_rm_reg_64 _ _ _ _ Hw Hb), (rex_w _ _ _ _ Hw Hb), take_s_bytes by lia.
    change (8 * Z.of_nat 4) with 32. rewrite i32_id by done. by rewrite (Z.mod_small g 8) by lia.
Qed.

(** The immediate of these instructions: one byte when it fits. *)
Lemma emit_imm n i c : exists m p,
  push n i (bytes c) (mcp c) = (m, p) /\ wrote (bytes c) (mcp c) (m, p) (le_bytes n i).
Proof. destruct (push n i (bytes c) (mcp c)) as [m p] eqn:E. exists m, p. split; [done|]. rewrite <- E. apply wrote_push. Qed.

Lemma gmrmi_emits g mrm rr r i c :
  0 <= g < 8 -> wide rr r -> is_i32 i ->
  emits c (emit_gmrmi mrm (XG_ARITHi g) rr i c) [IArithI true g (OReg r) i].
Proof.
  intros Hg Hwr Hi. pose proof (gri_emits g rr r i c Hg Hwr Hi) as He. unfold emit_gri in He.
  unfold emit_gmrmi. destruct (group1_ops g Hg) as (E1 & E2 & E3).
  destruct (wide_flags _ _ Hwr) as [E4 E5]. rewrite E1, E2, E3, E4, E5 in *.
  destruct Hwr as [Hr ->]. unfold emit_i8, emit_i32.
  assert (Em : forall xo m p, to_code (emit_opm xo XM_REG (Z.lor g REX_64) (Z.lor r REX_64) m p 0)
                            = emit_mrm mrm xo (Z.lor g REX_64) r (mkBytes m p)).
  { intros xo m p. rewrite (emit_mrm_reg _ _ _ _ r) by by apply as_reg_id. unfold emit_rr, emit_opm, emit_op.
    cbn [bytes mcp]. assert (Hm : MODRM XM_REG (Z.lor g REX_64) (Z.lor r REX_64) = MODRM XM_REG (Z.lor g REX_64) r).
    { change XM_REG with (64 * 3). rewrite !modrm_eq by lia.
      by rewrite (as_reg_mod (Z.lor r REX_64) r) by by apply as_reg_wide, wide_r. }
    rewrite Hm. assert (Hall : forallb (fun r => Z.land (Z.shiftr (Z.lor r REX_64) 3) 1 =? Z.land (Z.shiftr r 3) 1)
      (seqZ 0 16) = true) by (vm_compute; reflexivity).
    pose proof (reg_forall _ r Hall Hr) as E%Z.eqb_eq. cbn beta in E. by rewrite E. }
  destruct (checki8 i).
  - destruct (push 1 i (bytes c) (mcp c)) as [m p]. by rewrite Em in He.
  - destruct (push 4 i (bytes c) (mcp c)) as [m p]. by rewrite Em in He.
Qed.

Lemma gmrmi_mem_emits g mrm i c :
  0 <= g < 8 -> is_gpr (mrm_base mrm) -> mrm_idx mrm = RID_NONE -> is_i32 (mrm_ofs mrm) -> is_i32 i ->
  emits c (emit_gmrmi mrm (XG_ARITHi g) (Z.lor RID_MRM REX_64) i c)
    [IArithI true g (OMem (mrm_base mrm) None (mrm_ofs mrm)) i].
Proof.
  intros Hg Hb Hx Ho Hi. unfold emit_gmrmi. destruct (group1_ops g Hg) as (E1 & E2 & E3).
  change (Z.land (Z.lor RID_MRM REX_64) REX_64) with REX_64.
  change (Z.land (Z.lor RID_MRM REX_64) (u4 (Z.lnot REX_64))) with RID_MRM.
  rewrite E1, E2, E3. unfold emit_i8, emit_i32.
  assert (Hgg : is_gpr g) by (unfold is_gpr; lia).
  pose proof (wide_r _ Hgg) as Hw. pose proof (as_reg_id _ Hb) as Hb'.
  destruct (checki8 i) eqn:E8.
  - destruct (emit_imm 1 i c) as (m & p & -> & Himm). rewrite emit_mrm_mem by done.
    eapply (emit_rmro_emits _ _ _ g _ _ _ _ _ _ (le_bytes 1 i) (IArithI true g (OMem (mrm_base mrm) None (mrm_ofs mrm)) i));
      [done..|apply ob_one; lia|cbn; lia|exact Himm|].
    intros rest. cbn [parse_oplist]. change ([] ++ ?x) with x. unfold parse_op. cbn [Z.eqb Pos.eqb].
    rewrite (parse_rm_mem_64 _ _ _ _ Hw Hb'), (rex_w _ _ _ _ Hw Hb'), take_s_bytes by (done || lia).
    change (8 * Z.of_nat 1) with 8. rewrite checki8_id by done. by rewrite (Z.mod_small g 8) by lia.
  - destruct (emit_imm 4 i c) as (m & p & -> & Himm). rewrite emit_mrm_mem by done.
    eapply (emit_rmro_emits _ _ _ g _ _ _ _ _ _ (le_bytes 4 i) (IArithI true g (OMem (mrm_base mrm) None (mrm_ofs mrm)) i));
      [done..|apply ob_one; lia|cbn; lia|exact Himm|].
    intros rest. cbn [parse_oplist]. change ([] ++ ?x) with x. unfold parse_op. cbn [Z.eqb Pos.eqb].
    rewrite (parse_rm_mem_64 _ _ _ _ Hw Hb'), (rex_w _ _ _ _ Hw Hb'), take_s_bytes by (done || lia).
    change (8 * Z.of_nat 4) with 32. rewrite i32_id by done. by rewrite (Z.mod_small g 8) by lia.
Qed.

Definition emit_imul_imm (mrm : x86ModRM) (dest left k : Z) (c : Code) : Code :=
  if checki8 k then emit_mrm mrm XO_IMULi8 (Z.lor REX_64 dest) left (emit_i8 k c)
  else emit_mrm mrm XO_IMULi (Z.lor REX_64 dest) left (emit_i32 k c).
Lemma imuli_emits mrm dest lreg k c :
  is_gpr dest -> is_gpr lreg -> is_i32 k ->
  emits c (emit_imul_imm mrm dest lreg k c) [IImulI true dest (OReg lreg) k].
Proof.
  intros Hd Hl Hk. pose proof (wide_l _ Hd) as Hw. pose proof (as_reg_id _ Hl) as Hb.
  unfold emit_imul_imm, emit_i8, emit_i32. destruct (checki8 k) eqn:E8.
  - destruct (emit_imm 1 k c) as (m & p & -> & Himm). rewrite (emit_mrm_reg _ _ _ _ _ _ Hb). unfold emit_rr.
    eapply (emit_opm_emits _ dest _ lreg Hw Hb _ _ _ _ _ _ (le_bytes 1 k) _ (IImulI true dest (OReg lreg) k));
      [by rewrite Z.add_0_r|apply ob_one; lia|cbn; lia|].
    intros rest. cbn [parse_oplist]. change ([] ++ ?x) with x. unfold parse_op. cbn [Z.eqb Pos.eqb].
    rewrite (parse_rm_reg_64 _ _ _ _ Hw Hb), (rex_w _ _ _ _ Hw Hb), take_s_bytes by lia.
    change (8 * Z.of_nat 1) with 8. by rewrite checki8_id by done.
  - destruct (emit_imm 4 k c) as (m & p & -> & Himm). rewrite (emit_mrm_reg _ _ _ _ _ _ Hb). unfold emit_rr.
    eapply (emit_opm_emits _ dest _ lreg Hw Hb _ _ _ _ _ _ (le_bytes 4 k) _ (IImulI true dest (OReg lreg) k));
      [by rewrite Z.add_0_r|apply ob_one; lia|cbn; lia|].
    intros rest. cbn [parse_oplist]. change ([] ++ ?x) with x. unfold parse_op. cbn [Z.eqb Pos.eqb].
    rewrite (parse_rm_reg_64 _ _ _ _ Hw Hb), (rex_w _ _ _ _ Hw Hb), take_s_bytes by lia.
    change (8 * Z.of_nat 4) with 32. by rewrite i32_id by done.
Qed.

(** ** Constants *)

(** A code whose single instruction sets [r] to [v]. *)
Definition sets (c c' : Code) (r v : Z) : Prop :=
  exists i, emits c c' [i] /\ (forall m, exec i m = Some (Next (set_gpr r v m))).

Lemma movri_fields r : is_gpr r ->
  (0xb8 <=? u1 (XI_MOVri + Z.land r 7)) = true /\ (u1 (XI_MOVri + Z.land r 7) <? 0xc0) = true
  /\ u1 (XI_MOVri + Z.land r 7) - 0xb8 = r mod 8
  /\ (forall rex l, parse_op rex (u1 (XI_MOVri + Z.land r 7)) l
      = do (i, l) <- take_le (if Z.testbit rex 3 then 8 else 4)%nat l;
        Some (IMovI (Z.testbit rex 3) (r mod 8 + rex_bit rex 0) i, l)).
Proof.
  intros Hr. rewrite land_7. change XI_MOVri with 184.
  pose proof (Z.mod_pos_bound r 8 ltac:(lia)) as Hb. unfold u1. rewrite (to_u_id 8) by lia.
  split_and!; [lia..|]. intros rex l. assert (Hc : r mod 8 = 0 \/ r mod 8 = 1 \/ r mod 8 = 2 \/ r mod 8 = 3
    \/ r mod 8 = 4 \/ r mod 8 = 5 \/ r mod 8 = 6 \/ r mod 8 = 7) by lia.
  destruct Hc as [-> | [-> | [-> | [-> | [-> | [-> | [-> | ->]]]]]]]; reflexivity.
Qed.

Lemma loadi_u32_sets dst i c : is_gpr dst -> 0 <= i < 2 ^ 32 -> sets c (loadi_u32 dst i c) dst i.
Proof.
  intros Hd Hi. destruct (movri_fields dst Hd) as (_ & _ & _ & Hp). unfold loadi_u32, emit_rex.
  set (op := u1 (XI_MOVri + Z.land dst 7)) in *.
  assert (Hw : wrote (bytes c) (mcp c) (<[mcp c - 5 := op]> (put_le 4 (bytes c) (mcp c - 4) i), mcp c - 5)
                 (op :: le_bytes 4 i)).
  { change (op :: ?x) with ([op] ++ x).
    eapply (wrote_app _ _ (put_le 4 (bytes c) (mcp c - 4) i, mcp c - 4)).
    - pose proof (wrote_put_le 4 (bytes c) (mcp c - 4) i) as Hw.
      by replace (mcp c - 4 + Z.of_nat 4) with (mcp c) in Hw by lia.
    - replace (mcp c - 5) with (mcp c - 4 - 1) by lia. apply wrote_one. }
  assert (Hv : to_u (8 * Z.of_nat 4) i = i) by (apply (to_u_id 32); done).
  exists (IMovI false dst i). split; [|done].
  assert (Hrex : u1 (0x40 + Z.land (Z.shiftr 0 1) 4 + Z.land (Z.shiftr dst 3) 1) = 0x40 + rexb 0 0 dst 0
                 /\ (rexb 0 0 dst 0 = 0 -> dst mod 8 = dst)).
  { assert (Hall : forallb (fun r => (u1 (0x40 + Z.land (Z.shiftr 0 1) 4 + Z.land (Z.shiftr r 3) 1) =? 0x40 + rexb 0 0 r 0)
      && implb (rexb 0 0 r 0 =? 0) (r mod 8 =? r)) (seqZ 0 16) = true) by (vm_compute; reflexivity).
    pose proof (reg_forall _ dst Hall Hd) as E. cbn beta in E. apply andb_true_iff in E as [E1%Z.eqb_eq E2].
    split; [done|]. intros E3. rewrite E3 in E2. by apply Z.eqb_eq in E2. }
  destruct Hrex as [-> Hlow]. destruct (Z.eqb_spec (64 + rexb 0 0 dst 0) 64) as [E|N].
  - eapply (emits_one c _ (op :: le_bytes 4 i) (IMovI false dst i)); [exact Hw|cbn; lia|].
    intros rest. unfold parse. cbn [app]. assert (Hnr : parse_rex (op :: le_bytes 4 i ++ rest) = (0, op :: le_bytes 4 i ++ rest)).
    { unfold parse_rex. destruct (movri_fields dst Hd) as (H1 & _). fold op in H1.
      destruct (Z.ltb_spec op 0x50) as [Hlt|_]; [lia|]. by rewrite andb_false_r. }
    change (u1 i :: ?x) with (le_bytes 4 i ++ rest). rewrite Hnr, Hp. cbn [Z.testbit].
    rewrite take_le_bytes, Hv. rewrite Hlow by lia. unfold rex_bit. cbn [Z.testbit]. by rewrite Z.add_0_r.
  - eapply (emits_one c _ ([0x40 + rexb 0 0 dst 0] ++ op :: le_bytes 4 i) (IMovI false dst i)); [|cbn; lia|].
    + eapply wrote_app; [exact Hw|]. apply wrote_one.
    + intros rest. unfold parse. cbn [app]. rewrite parse_rex_prefix by (auto using gpr_0).
      destruct (rexb_bits 0 0 dst 0) as (E3 & _ & _ & E0 & _); [auto using gpr_0..|].
      rewrite Hp, E3. change (u1 i :: ?x) with (le_bytes 4 i ++ rest). cbn iota. change (0 =? 1) with false. cbn iota.
      rewrite take_le_bytes, Hv. by rewrite E0.
Qed.

Lemma loadi_i32_sets dst i c : is_gpr dst -> is_i32 i -> sets c (loadi_i32 dst i c) dst (u8 i).
Proof.
  intros Hd Hi. unfold loadi_i32. destruct (Z.leb_spec 0 i) as [Hp|Hn].
  - unfold is_i32 in Hi. assert (Hu : u8 i = i) by (apply (to_u_id 64); lia). rewrite Hu.
    apply loadi_u32_sets; [done|lia].
  - exists (IMovMI true (OReg dst) i). split; [|done].
    pose proof (wide_r _ gpr_0) as Hw. pose proof (as_reg_id _ Hd) as Hb.
    change REX_64 with (Z.lor 0 REX_64).
    eapply (emit_opm_emits _ 0 _ dst Hw Hb _ _ _ _ _ _ (le_bytes 4 i) _ (IMovMI true (OReg dst) i));
      [|apply ob_one; lia|cbn; lia|].
    + pose proof (wrote_put_le 4 (bytes c) (mcp c - 4) i) as H4.
      by replace (mcp c - 4 + Z.of_nat 4) with (mcp c) in H4 by lia.
    + intros rest. cbn [parse_oplist]. change ([] ++ ?x) with x. unfold parse_op. cbn [Z.eqb Pos.eqb].
      rewrite (parse_rm_reg_64 _ _ _ _ Hw Hb), (rex_w _ _ _ _ Hw Hb), take_s_bytes by lia.
      change (8 * Z.of_nat 4) with 32. by rewrite i32_id by done.
Qed.

Lemma loadi_u64_sets dst k c : is_gpr dst -> 0 <= k < 2 ^ 64 -> sets c (loadi_u64 dst k c) dst k.
Proof.
  intros Hd Hk. unfold loadi_u64. destruct (checku32 k) eqn:E32.
  { apply Z.eqb_eq in E32. rewrite <- E32. apply loadi_u32_sets; [done|].
    rewrite E32. apply (to_u_bound 32). lia. }
  destruct (checki32 k) eqn:Ei.
  { apply Z.eqb_eq in Ei. rewrite Ei at 2. apply loadi_i32_sets; [done|]. apply (to_s_bound 32). lia. }
  destruct (movri_fields dst Hd) as (_ & _ & _ & Hp). set (op := u1 (XI_MOVri + Z.land dst 7)) in *.
  exists (IMovI true dst k). split; [|done].
  assert (Hrex : u1 (0x48 + Z.land (Z.shiftr dst 3) 1) = 0x40 + rexb 1 0 dst 0).
  { assert (Hall : forallb (fun r => u1 (0x48 + Z.land (Z.shiftr r 3) 1) =? 0x40 + rexb 1 0 r 0) (seqZ 0 16) = true)
      by (vm_compute; reflexivity).
    by pose proof (reg_forall _ dst Hall Hd) as E%Z.eqb_eq. }
  rewrite Hrex.
  eapply (emits_one c (<[mcp c - 10:=_]> _, mcp c - 10) ([0x40 + rexb 1 0 dst 0] ++ [op] ++ le_bytes 8 k) (IMovI true dst k));
    [|cbn; lia|].
  - eapply (wrote_app _ _ (<[mcp c - 9:=op]> (put_le 8 (bytes c) (mcp c - 8) k), mcp c - 9)).
    + eapply (wrote_app _ _ (put_le 8 (bytes c) (mcp c - 8) k, mcp c - 8)).
      * pose proof (wrote_put_le 8 (bytes c) (mcp c - 8) k) as Hw.
        by replace (mcp c - 8 + Z.of_nat 8) with (mcp c) in Hw by lia.
      * replace (mcp c - 9) with (mcp c - 8 - 1) by lia. apply wrote_one.
    + replace (mcp c - 10) with (mcp c - 9 - 1) by lia. apply wrote_one.
  - intros rest. unfold parse. rewrite <- !app_assoc. cbn [app]. rewrite parse_rex_prefix by (auto using gpr_0).
    destruct (rexb_bits 1 0 dst 0) as (E3 & _ & _ & E0 & _); [auto using gpr_0..|].
    rewrite Hp, E3. change (1 =? 1) with true. cbn iota. rewrite take_le_bytes.
    rewrite (to_u_id (8 * Z.of_nat 8)) by done. by rewrite E0.
Qed.

(** ** Jumps *)

Lemma jmprel_ok p target d : jmprel p target = Ok d -> d = target - p /\ is_i32 d.
Proof.
  unfold jmprel. intros H. inv_ok. split; [done|]. rename E into Hd. apply Z.eqb_eq in Hd. rewrite Hd.
  apply (to_s_bound 32). lia.
Qed.

Lemma emit_ops_wrote op m0 p0 m p post :
  Forall (fun b => u1 b = b) op -> wrote m0 p0 (m, p) post ->
  exists r, fold_left (fun c b => emit_i8 b c) op (mkBytes m p) = to_code r
    /\ wrote m0 p0 r (rev op ++ post).
Proof.
  intros Hall. revert m p post. induction Hall as [|b op Hb _ IH]; intros m p post Hw; cbn [fold_left rev].
  { exists (m, p). by split. }
  unfold emit_i8 at 2. destruct (push 1 b m p) as [m' p'] eqn:E. cbn [bytes mcp] in *. rewrite E.
  rewrite <- app_assoc. apply IH.
  eapply (wrote_app _ _ (m, p)); [done|]. rewrite <- E. pose proof (wrote_push 1 b m p) as H1. cbn in H1.
  by rewrite Hb in H1.
Qed.

Lemma emit_rel_emits op l target c c' f :
  emit_rel op target c = Ok c' -> rev op = l -> Forall (fun b => u1 b = b) op -> (length l <= 4)%nat ->
  (forall d rest, is_i32 d -> parse (l ++ le_bytes 4 d ++ rest) = Some (f d, rest)) ->
  emits c c' [absolute (mcp c) (f (target - mcp c))].
Proof.
  intros (d & H & H')%obind_ok <- Hall Hlen Hp. destruct (jmprel_ok _ _ _ H) as [-> Hi].
  assert (Hw : wrote (bytes c) (mcp c) (put_le 4 (bytes c) (mcp c - 4) (target - mcp c), mcp c - 4)
                 (le_bytes 4 (target - mcp c))).
  { pose proof (wrote_put_le 4 (bytes c) (mcp c - 4) (target - mcp c)) as Hw.
    by replace (mcp c - 4 + Z.of_nat 4) with (mcp c) in Hw by lia. }
  destruct (emit_ops_wrote _ _ _ _ _ _ Hall Hw) as (r & Hr & Hwr). rewrite Hr in H'.
  apply (f_equal (fun o => match o with Ok x => x | Err _ => c end)) in H'. cbn beta iota in H'. subst c'.
  eapply emits_one; [exact Hwr| |].
  - rewrite length_app, le_bytes_length. lia.
  - intros rest. rewrite <- app_assoc. by apply Hp.
Qed.

Lemma jcc_emits cc target c c' :
  0 <= cc < 16 -> emit_jcc cc target c = Ok c' -> emits c c' [IJcc cc target].
Proof.
  intros Hcc H.
  assert (Hall : forallb (fun cc => (u1 (u1 (XI_JCCn + Z.land cc 15)) =? u1 (XI_JCCn + Z.land cc 15))
      && (u1 (XI_JCCn + Z.land cc 15) - 0x80 =? cc)) (seqZ 0 16) = true) by (vm_compute; reflexivity).
  pose proof (reg_forall _ cc Hall Hcc) as E. apply andb_true_iff in E as [E1%Z.eqb_eq E2%Z.eqb_eq].
  set (b := u1 (XI_JCCn + Z.land cc 15)) in *.
  pose proof (emit_rel_emits _ [0x0f; b] _ _ _ (IJcc cc) H eq_refl) as He.
  cbn [absolute] in He. replace (mcp c + (target - mcp c)) with target in He by lia. apply He.
  - repeat constructor. done.
  - cbn. lia.
  - intros d rest Hd. unfold parse. cbn [app parse_rex]. change ((64 <=? 15) && (15 <? 80)) with false. cbn iota.
    unfold parse_op. cbn [Z.eqb Pos.eqb]. change ((15 mod 8 =? 3) && (15 <? 64)) with false.
    change ((184 <=? 15) && (15 <? 192)) with false. change ((80 <=? 15) && (15 <? 88)) with false.
    change ((88 <=? 15) && (15 <? 96)) with false. cbn iota.
    destruct (Z.eqb_spec b 175) as [|_]; [lia|]. destruct (Z.eqb_spec b 182) as [|_]; [lia|].
    rewrite (proj2 (Z.leb_le 128 b)), (proj2 (Z.ltb_lt b 144)) by lia. cbn [andb].
    change (u1 d :: ?x) with (le_bytes 4 d ++ rest). rewrite take_s_bytes by lia.
    change (8 * Z.of_nat 4) with 32. rewrite i32_id by done. by rewrite E2.
Qed.

Lemma jmp_emits target c c' : emit_jmp target c = Ok c' -> emits c c' [IJmp target].
Proof.
  intros H. pose proof (emit_rel_emits _ [0xe9] _ _ _ IJmp H eq_refl) as He.
  cbn [absolute] in He. replace (mcp c + (target - mcp c)) with target in He by lia. apply He.
  - by repeat constructor.
  - cbn. lia.
  - intros d rest Hd. unfold parse. change ([0xe9] ++ ?x) with (0xe9 :: x). cbn [parse_rex].
    change ((64 <=? 233) && (233 <? 80)) with false. cbn iota.
    change (parse_op 0 233 ?t) with (do (d, l) <- take_s 4 t; Some (IJmp d, l)).
    rewrite take_s_bytes by lia. change (8 * Z.of_nat 4) with 32. by rewrite i32_id by done.
Qed.
Lemma call_emits target c c' : emit_call target c = Ok c' -> emits c c' [ICall target].
Proof.
  intros H. pose proof (emit_rel_emits _ [0xe8] _ _ _ ICall H eq_refl) as He.
  cbn [absolute] in He. replace (mcp c + (target - mcp c)) with target in He by lia. apply He.
  - by repeat constructor.
  - cbn. lia.
  - intros d rest Hd. unfold parse. change ([0xe8] ++ ?x) with (0xe8 :: x). cbn [parse_rex].
    change ((64 <=? 232) && (232 <? 80)) with false. cbn iota.
    change (parse_op 0 232 ?t) with (do (d, l) <- take_s 4 t; Some (ICall d, l)).
    rewrite take_s_bytes by lia. change (8 * Z.of_nat 4) with 32. by rewrite i32_id by done.
Qed.

(** ** A byte load with an index register, and the trace number *)

Lemma rex_bytes_32 r b x : is_gpr r -> is_gpr b -> is_gpr x ->
  rex_bytes r b x = if rexb 0 r b x =? 0 then [] else [0x40 + rexb 0 r b x].
Proof.
  intros Hr Hb Hx.
  assert (Hall : forallb (fun r => forallb (fun b => forallb (fun x =>
      bool_decide (rex_bytes r b x = if rexb 0 r b x =? 0 then [] else [0x40 + rexb 0 r b x]))
      (seqZ 0 16)) (seqZ 0 16)) (seqZ 0 16) = true) by (vm_compute; reflexivity).
  pose proof (reg_forall _ x (reg_forall _ b (reg_forall _ r Hall Hr) Hb) Hx) as E.
  by apply bool_decide_eq_true_1 in E.
Qed.

Lemma parse_rm_index r b x l :
  is_gpr r -> is_gpr b -> is_gpr x -> x <> 4 ->
  parse_rm (rexb 0 r b x) (MODRM (64 * offset_mode b 0) r RID_ESP :: MODRM XM_SCALE1 x b
                             :: offset_bytes b 0 ++ l)
  = Some (r, OMem b (Some x) 0, l).
Proof.
  intros Hr Hb Hx Hne. assert (Hm : 0 <= offset_mode b 0 < 3).
  { unfold offset_mode. destruct (_ && _); [lia|]. destruct (checki8 0); lia. }
  destruct (rexb_bits 0 r b x) as (_ & R1 & R2 & R3 & _); [auto..|].
  unfold parse_rm. destruct (modrm_fields (offset_mode b 0) r RID_ESP ltac:(lia)) as (E1 & E2 & E3).
  destruct (modrm_fields 0 x b ltac:(lia)) as (S1 & S2 & S3). change (64 * 0) with XM_SCALE1 in *.
  rewrite E1, E2, E3. destruct (Z.eqb_spec (offset_mode b 0) 3) as [|_]; [lia|].
  change (RID_ESP mod 8 =? 4) with true. cbn iota. rewrite S1, S2, S3. change (negb (0 =? 0)) with false.
  rewrite orb_false_r. destruct ((b mod 8 =? 5) && (offset_mode b 0 =? 0)) eqn:E5.
  { apply andb_true_iff in E5 as [E5%Z.eqb_eq E6%Z.eqb_eq]. unfold offset_mode in E6.
    rewrite E5 in E6. done. }
  rewrite parse_disp_spec by (unfold is_i32; lia). rewrite R1, R2, R3.
  destruct (Z.eqb_spec x 4); [done|done].
Qed.

Lemma movzx_emits dst ptr ofs c :
  is_gpr dst -> is_gpr ptr -> is_gpr ofs -> ofs <> 4 ->
  emits c (emit_rmrxo XO_MOVZXb dst ptr ofs XM_SCALE1 0 c) [IMovzxb false dst (OMem ptr (Some ofs) 0)].
Proof.
  intros Hd Hp Ho Hne. unfold emit_rmrxo.
  destruct (push_offset_spec ptr 0 (bytes c) (mcp c)) as [Hof Hmode].
  destruct (push_offset ptr 0 (bytes c) (mcp c)) as [[m p] mode]. cbn [fst snd] in *. subst mode.
  pose proof (emit_opmx_spec XO_MOVZXb (64 * offset_mode ptr 0) XM_SCALE1 dst ptr ofs m p [0x0f; 0xb6]
                (ob_two 0xb6 ltac:(lia))) as Hw. rewrite rex_bytes_32 in Hw by done.
  assert (Hlen : (length (offset_bytes ptr 0) <= 4)%nat) by (unfold offset_bytes; repeat case_match; cbn; lia).
  destruct (rexb_bits 0 dst ptr ofs) as (W & _); [auto..|].
  assert (Hop : forall rest, parse_op (rexb 0 dst ptr ofs) 0x0f
      (0xb6 :: MODRM (64 * offset_mode ptr 0) dst RID_ESP :: MODRM XM_SCALE1 ofs ptr :: offset_bytes ptr 0 ++ rest)
      = Some (IMovzxb false dst (OMem ptr (Some ofs) 0), rest)).
  { intros rest. unfold parse_op. cbn [Z.eqb Pos.eqb]. rewrite parse_rm_index by done. by rewrite W. }
  eapply (emits_one _ _ _ (IMovzxb false dst (OMem ptr (Some ofs) 0)));
    [eapply (wrote_app _ _ (m, p)); [exact Hof|exact Hw]|rewrite !length_app; destruct (_ =? 0); cbn; lia|].
  intros rest. rewrite <- (Hop rest). unfold parse.
  destruct (Z.eqb_spec (rexb 0 dst ptr ofs) 0) as [->|_]; cbn [app]; [done|].
  by rewrite parse_rex_prefix by auto.
Qed.

Lemma setTraceId_emits t c :
  emits c (emitSetTraceId t c) [IMovMI false (OMem 4 None 32) (i4 t)].
Proof.
  unfold emitSetTraceId. assert (Ht : is_i32 (i4 t)) by (apply (to_s_bound 32); lia).
  eapply (emits_one c (<[mcp c - 8:=_]> _, mcp c - 8) ([0xc7] ++ [0x44] ++ [0x24] ++ [0x20] ++ le_bytes 4 (i4 t))
    (IMovMI false (OMem 4 None 32) (i4 t))); [|cbn; lia|].
  - pose proof (wrote_put_le 4 (bytes c) (mcp c - 4) (i4 t)) as Hw.
    replace (mcp c - 4 + Z.of_nat 4) with (mcp c) in Hw by lia.
    do 4 (eapply wrote_next; [|shelve]). exact Hw.
    Unshelve. all: lia.
  - intros rest. rewrite <- !app_assoc. unfold parse. cbn [app parse_rex].
    change ((64 <=? 199) && (199 <? 80)) with false. cbn iota.
    change (u1 (i4 t) :: ?x) with (le_bytes 4 (i4 t) ++ rest).
    change (parse_op 0 199 (68 :: 36 :: 32 :: ?t)) with
      (do (i, l) <- take_s 4 t; Some (IMovMI false (OMem 4 None 32) i, l)).
    rewrite take_s_bytes by lia. change (8 * Z.of_nat 4) with 32. by rewrite i32_id by done.
Qed.
