(* ===== verification/Fold.v ===== *)
(** * The fold engine ([ir_fold.cc])

    Every rule works on the instruction in the fold state and answers
    with one of the codes below or with a reference whose value the
    instruction has.  [doFold] tries the rules of the opcode in order and
    starts over after [RETRYFOLD], at most 130 times.  The info pointer
    of a literal closure is read from the memory [m]. *)

From S2P Require Import Prelude Words Objects IR.

Definition NEXTFOLD : Z := 0.
Definition RETRYFOLD : Z := 1.
Definition KLITFOLD : Z := 2.
Definition FAILFOLD : Z := 3.
Definition DROPFOLD : Z := 4.
Definition MAX_FOLD : Z := 5.

Definition fold_answer : Type := outcome (IRBuffer * Z).

(** [LITFOLD(val)] *)
Definition LITFOLD (b : IRBuffer) (val : Z) : fold_answer :=
  Ok (set_fold b (mkFold (fins b) (fleft b) (fright b) (u8 val)), KLITFOLD).

(** [PHIBARRIER(ir)]: true when the rule must not go on. *)
Definition PHIBARRIER (i : IR) : bool := negb (Z.land (ir_t i) IRT_ISPHI =? 0).

Definition lit_value (b : IRBuffer) (ref : Z) : outcome Z := literalValue (b_code b) (b_slots b) ref.
(** [buf->literal(type, k)] used as a reference. *)
Definition lit_ref (b : IRBuffer) (ty k : Z) : outcome (IRBuffer * Z) :=
  let! '(c, tr) := literal (b_code b) ty (u8 k) in Ok (set_code b c, TRef.ref tr).

Definition is_i64 (i : IR) : bool := ir_type i =? IRType_num IRT_I64.
Definition not_float (i : IR) : bool := negb (isFloatType (ir_type i)).

(** ** The rules *)

(** [kfold_intop]: 64-bit arithmetic that wraps around. *)
Definition kfold_intop (k1 k2 : Z) (op : Opcode) : outcome Z :=
  match op with
  | kADD => Ok (u8 (k1 + k2))
  | kSUB => Ok (u8 (k1 - k2))
  | kMUL => Ok (u8 (k1 * k2))
  | kNEG => Ok (u8 (- k1))
  | _ => Err AssertFailed
  end.

Definition kfold_arith (b : IRBuffer) : fold_answer :=
  if is_i64 (fins b) then
    let! k1 := lit_value b (op1 (fins b)) in
    let! k2 := lit_value b (op2 (fins b)) in
    let! k := kfold_intop k1 k2 (ir_o (fins b)) in
    LITFOLD b k
  else Ok (b, NEXTFOLD).

Definition simplify_intadd_k (b : IRBuffer) : fold_answer :=
  if is_i64 (fins b) then
    let! k := lit_value b (op2 (fins b)) in
    Ok (b, if k =? 0 then op1 (fins b) else NEXTFOLD)
  else Ok (b, NEXTFOLD).

Definition comm_swap (b : IRBuffer) : fold_answer :=
  let i := fins b in
  if op1 i <? op2 i then Ok (set_fins b (setOp2 (setOp1 i (op2 i)) (op1 i)), RETRYFOLD)
  else Ok (b, NEXTFOLD).

Definition reassoc_int_arith (b : IRBuffer) : fold_answer :=
  if is_i64 (fins b) && irref_islit (op2 (fleft b)) then
    let! k1 := lit_value b (op2 (fleft b)) in
    let! k2 := lit_value b (op2 (fins b)) in
    let! k := kfold_intop k1 k2 (ir_o (fins b)) in
    if k =? k1 then Ok (b, op1 (fins b))
    else if PHIBARRIER (fleft b) then Ok (b, NEXTFOLD)
    else
      let b := set_fins b (setOp1 (fins b) (op1 (fleft b))) in
      let! '(b, ref) := lit_ref b (ir_type (fins b)) k in
      Ok (set_fins b (setOp2 (fins b) ref), RETRYFOLD)
  else Ok (b, NEXTFOLD).

Definition simplify_sub_k (b : IRBuffer) : fold_answer :=
  if isIntegerType (ir_type (fins b)) then
    let! k := lit_value b (op2 (fins b)) in
    if k =? 0 then Ok (b, op1 (fins b))
    else
      let! '(b, ref) := lit_ref b (ir_type (fins b)) (- k) in
      Ok (set_fins b (setOp2 (setOpcode (fins b) kADD) ref), RETRYFOLD)
  else Ok (b, NEXTFOLD).

Definition simplify_intsub_kleft (b : IRBuffer) : fold_answer :=
  if isIntegerType (ir_type (fins b)) then
    let! k := lit_value b (op1 (fins b)) in
    if k =? 0 then
      let i := setOpcode (fins b) kNEG in
      Ok (set_fins b (setOp1 i (op2 i)), RETRYFOLD)
    else Ok (b, NEXTFOLD)
  else Ok (b, NEXTFOLD).

Definition simplify_intsub (b : IRBuffer) : fold_answer :=
  if (op1 (fins b) =? op2 (fins b)) && not_float (fins b) then LITFOLD b 0
  else Ok (b, NEXTFOLD).

Definition simplify_intsubadd_leftcancel (b : IRBuffer) : fold_answer :=
  if not_float (fins b) then
    if op2 (fins b) =? op1 (fleft b) then Ok (b, op2 (fleft b))
    else if op2 (fins b) =? op2 (fleft b) then Ok (b, op1 (fleft b))
    else Ok (b, NEXTFOLD)
  else Ok (b, NEXTFOLD).

(** Writing [0 - ref] into the fold state. *)
Definition zero_minus (b : IRBuffer) (ref : Z) : fold_answer :=
  let! '(b, z) := lit_ref b (ir_type (fins b)) 0 in
  Ok (set_fins b (setOp2 (setOp1 (fins b) z) ref), RETRYFOLD).

Definition simplify_intsubsub_leftcancel (b : IRBuffer) : fold_answer :=
  if not_float (fins b) then
    if PHIBARRIER (fleft b) then Ok (b, NEXTFOLD)
    else if op1 (fleft b) =? op2 (fins b) then zero_minus b (op2 (fleft b))
    else Ok (b, NEXTFOLD)
  else Ok (b, NEXTFOLD).

Definition simplify_intsubsub_rightcancel (b : IRBuffer) : fold_answer :=
  if not_float (fins b) then
    if PHIBARRIER (fleft b) then Ok (b, NEXTFOLD)
    else if op1 (fins b) =? op1 (fright b) then Ok (b, op2 (fright b))
    else Ok (b, NEXTFOLD)
  else Ok (b, NEXTFOLD).

Definition simplify_intsubadd_rightcancel (b : IRBuffer) : fold_answer :=
  if not_float (fins b) then
    if PHIBARRIER (fright b) then Ok (b, NEXTFOLD)
    else if op1 (fins b) =? op1 (fright b) then zero_minus b (op2 (fright b))
    else if op1 (fins b) =? op2 (fright b) then zero_minus b (op1 (fright b))
    else Ok (b, NEXTFOLD)
  else Ok (b, NEXTFOLD).

Definition set_ops (b : IRBuffer) (x y : Z) : fold_answer :=
  Ok (set_fins b (setOp2 (setOp1 (fins b) x) y), RETRYFOLD).
Definition simplify_intsubaddadd_cancel (b : IRBuffer) : fold_answer :=
  if not_float (fins b) then
    let l := fleft b in
    let r := fright b in
    if PHIBARRIER l || PHIBARRIER r then Ok (b, NEXTFOLD)
    else if op1 l =? op1 r then set_ops b (op2 l) (op2 r)
    else if op1 l =? op2 r then set_ops b (op2 l) (op1 r)
    else if op2 l =? op1 r then set_ops b (op1 l) (op2 r)
    else if op2 l =? op2 r then set_ops b (op1 l) (op1 r)
    else Ok (b, NEXTFOLD)
  else Ok (b, NEXTFOLD).

(** [foldHeapcheck]: the new check is added to the last one. *)
Definition foldHeapcheck (b : IRBuffer) : fold_answer :=
  let ref := chain (b_code b) kHEAPCHK in
  if negb (ref =? 0) then
    let! hpchk := ir (b_code b) ref in
    let nwords := u2 (op1 hpchk + op1 (fins b)) in
    Ok (set_code b (set_ir (b_code b) ref (setOp1 hpchk nwords)), DROPFOLD)
  else Ok (b, NEXTFOLD).

Section fold.
Context (m : memory).

Definition kfold_eqinfo (b : IRBuffer) : fold_answer :=
  let! cl := lit_value b (op1 (fins b)) in
  let! itbl := lit_value b (op2 (fins b)) in
  let! info := closure_info_addr m cl in
  let same := info =? itbl in
  Ok (b, if (if bool_decide (ir_o (fins b) = kEQINFO) then same else negb same)
         then DROPFOLD else FAILFOLD).

Definition kfold_cmp (b : IRBuffer) : fold_answer :=
  let! k1 := lit_value b (op1 (fins b)) in
  let! k2 := lit_value b (op2 (fins b)) in
  match ir_o (fins b) with
  | kEQ => Ok (b, if k1 =? k2 then DROPFOLD else FAILFOLD)
  | kNE => Ok (b, if negb (k1 =? k2) then DROPFOLD else FAILFOLD)
  | _ => Err (Exited 3)
  end.

Definition load_fwd (b : IRBuffer) : fold_answer :=
  assert! bool_decide (ir_o (fleft b) = kFREF) in
  let! entry := getHeapEntry (b_code b) (op1 (fleft b)) in
  if negb (entry =? kInvalidHeapEntry) then
    let field_id := op2 (fleft b) - 1 in
    let! ind := isIndirection (b_heap b) entry in
    if negb (ind =? 0) then assert! (field_id =? 0) in Ok (b, ind)
    else let! field := getField (b_heap b) entry field_id in Ok (b, field)
  else Ok (b, NEXTFOLD).

Definition kfold_update_new (b : IRBuffer) : fold_answer :=
  let! entry := getHeapEntry (b_code b) (op1 (fins b)) in
  assert! negb (entry =? kInvalidHeapEntry) in
  let! h := update_entry (b_heap b) entry (op2 (fins b)) in
  Ok (set_heap b h, NEXTFOLD).

Definition kfold_eqinfo_new (b : IRBuffer) : fold_answer :=
  let b := set_fins b (setOpcode (fins b)
             (if bool_decide (ir_o (fins b) = kEQINFO) then kEQ else kNE)) in
  let! entry := getHeapEntry (b_code b) (op1 (fins b)) in
  assert! negb (entry =? kInvalidHeapEntry) in
  let! ind := isIndirection (b_heap b) entry in
  let r := if negb (ind =? 0) then REF_IND else op1 (fleft b) in
  Ok (set_fins b (setOp1 (fins b) r), RETRYFOLD).

(** ** The engine *)

(** The patterns: a literal reference, or the opcode of the operand's
    instruction. *)
Inductive pattern := any | lit | isop (op : Opcode).
Definition matches (p : pattern) (ref : Z) (i : IR) : bool :=
  match p with
  | any => true
  | lit => irref_islit ref
  | isop op => bool_decide (ir_o i = op)
  end.
Definition rule : Type := pattern * pattern * (IRBuffer -> fold_answer).

(** The [PATTERN] lines of one [case]. *)
Fixpoint try_rules (rules : list rule) (lref rref : Z) (b : IRBuffer) : fold_answer :=
  match rules with
  | [] => Ok (b, NEXTFOLD)
  | (p1, p2, handler) :: rules' =>
      if matches p1 lref (fleft b) && matches p2 rref (fright b) then
        let! '(b, ref) := handler b in
        if negb (ref =? NEXTFOLD) then Ok (b, ref) else try_rules rules' lref rref b
      else try_rules rules' lref rref b
  end.

(** The [switch] of [doFold]. *)
Definition rules_of (op : Opcode) : list rule :=
  match op with
  | kADD => [(lit, lit, kfold_arith); (isop kADD, lit, reassoc_int_arith);
             (any, lit, simplify_intadd_k); (any, any, comm_swap)]
  | kSUB => [(lit, lit, kfold_arith); (any, lit, simplify_sub_k);
             (lit, any, simplify_intsub_kleft); (any, any, simplify_intsub);
             (isop kADD, any, simplify_intsubadd_leftcancel);
             (isop kSUB, any, simplify_intsubsub_leftcancel);
             (any, isop kSUB, simplify_intsubsub_rightcancel);
             (any, isop kADD, simplify_intsubadd_rightcancel);
             (isop kADD, isop kADD, simplify_intsubaddadd_cancel)]
  | kUPDATE => [(isop kNEW, any, kfold_update_new)]
  | kEQINFO | kNEINFO => [(lit, lit, kfold_eqinfo); (isop kNEW, lit, kfold_eqinfo_new)]
  | kHEAPCHK => [(any, any, foldHeapcheck)]
  | kEQ | kNE => [(lit, lit, kfold_cmp)]
  | kFLOAD => [(any, any, load_fwd)]
  | _ => []
  end.

(** Loading the operands into the fold state. *)
Definition load_operands (b : IRBuffer) : outcome (IRBuffer * Z * Z) :=
  let md := mode (ir_o (fins b)) in
  let lref := if irmode_left md =? IRMref then op1 (fins b) else 0 in
  let rref := if irmode_right md =? IRMref then op2 (fins b) else 0 in
  let! l := (if negb (lref =? 0) then ir (b_code b) lref else Ok (fleft b)) in
  let! r := (if negb (rref =? 0) then ir (b_code b) rref else Ok (fright b)) in
  Ok (set_fold b (mkFold (fins b) l r (f_literal (b_fold b))), lref, rref).

(** One round, and the rounds: [retries] are left before the engine
    gives up and has the instruction emitted as it is. *)
Definition fold_round (b : IRBuffer) : fold_answer :=
  let! '(b, lref, rref) := load_operands b in
  try_rules (rules_of (ir_o (fins b))) lref rref b.
Fixpoint fold_rounds (retries : nat) (b : IRBuffer) : fold_answer :=
  let! '(b, ref) := fold_round b in
  if ref =? RETRYFOLD then
    match retries with
    | O => Ok (b, NEXTFOLD)
    | S n => fold_rounds n b
    end
  else Ok (b, ref).
Definition doFold (b : IRBuffer) : fold_answer := fold_rounds 129 b.

(** [optFold]: the tagged reference, or the exception thrown for a guard
    that always fails. *)
Inductive opt_result := Emitted (tr : Z) | FailingGuard.

Definition optFold (b : IRBuffer) : outcome (IRBuffer * opt_result) :=
  let op := ir_o (fins b) in
  let done (r : outcome (IRBuffer * Z)) := let! '(b, tr) := r in Ok (b, Emitted tr) in
  if bool_decide (op = kSAVE) then done (emit_ins b)
  else
    let! '(b, ref) := (if Flags32.get (b_flags b) kOptFold then doFold b else Ok (b, NEXTFOLD)) in
    if ref =? NEXTFOLD then
      if Z.land (mode op) IRM_S =? IRM_N then done (optCSE b) else done (emit_ins b)
    else if MAX_FOLD <=? ref then
      let! i := ir (b_code b) ref in Ok (b, Emitted (TRef.make ref (ir_t i)))
    else if ref =? KLITFOLD then
      let! '(c, tr) := literal (b_code b) (ir_type (fins b)) (f_literal (b_fold b)) in
      Ok (set_code b c, Emitted tr)
    else if ref =? FAILFOLD then Ok (b, FailingGuard)
    else assert! (ref =? DROPFOLD) in Ok (b, Emitted TRef.none).

(** [emit(o, t, op1, op2)] *)
Definition emit (b : IRBuffer) (op : Opcode) (t a1 a2 : Z) : outcome (IRBuffer * opt_result) :=
  optFold (set_ins b op t a1 a2).

(** [emitHeapCheck] *)
Definition emitHeapCheck (b : IRBuffer) (nwords : Z) : outcome (IRBuffer * opt_result) :=
  let! '(b, r) := emit b kHEAPCHK (Z.lor (IRType_num IRT_VOID) IRT_GUARD) nwords 0 in
  Ok (set_heap b (AbstractHeap.heapCheck (b_heap b) nwords), r).
End fold.
