(* ===== verification/FoldProofs.v ===== *)
(** * Soundness of the fold engine

    Every rule for 64-bit additions and subtractions preserves the value
    of the instruction: [rule_sound], one lemma per rule.  The rounds of
    [doFold] and [emit] inherit it. *)

From S2P Require Import Prelude Words Objects IR IRInv Fold.

(** ** Instructions with new operands *)

Lemma op1_pack o t a b p : op1 (mkIR o t (pack a b) p) = u2 a.
Proof. apply pack_ops; apply to_u_bound; lia. Qed.
Lemma op2_pack o t a b p : op2 (mkIR o t (pack a b) p) = u2 b.
Proof. apply pack_ops; apply to_u_bound; lia. Qed.
Lemma u2_op1 i : u2 (op1 i) = op1 i.
Proof. apply to_u_idemp. lia. Qed.
Lemma u2_op2 i : u2 (op2 i) = op2 i.
Proof. apply to_u_idemp. lia. Qed.
Lemma op1_setOp1 i a : op1 (setOp1 i a) = u2 a.
Proof. apply op1_pack. Qed.
Lemma op2_setOp1 i a : op2 (setOp1 i a) = op2 i.
Proof. unfold setOp1. by rewrite op2_pack, u2_op2. Qed.
Lemma op1_setOp2 i a : op1 (setOp2 i a) = op1 i.
Proof. unfold setOp2. by rewrite op1_pack, u2_op1. Qed.
Lemma op2_setOp2 i a : op2 (setOp2 i a) = u2 a.
Proof. apply op2_pack. Qed.
Lemma op1_setOpcode i o : op1 (setOpcode i o) = op1 i.
Proof. done. Qed.
Lemma op2_setOpcode i o : op2 (setOpcode i o) = op2 i.
Proof. done. Qed.

Create Rewrite HintDb operands.
#[export] Hint Rewrite op1_setOp1 op2_setOp1 op1_setOp2 op2_setOp2 op1_setOpcode op2_setOpcode
  u2_op1 u2_op2 : operands.

Lemma operand_u2 c r : chains_ok c -> operand c r -> u2 r = r.
Proof.
  intros Hc [Hv _]. pose proof (ok_bounds c Hc). apply to_u_id.
  unfold valid, MAX_HEAP_ENTRIES in *. lia.
Qed.

(** ** One step of the engine *)

(** Literals may have been added; old references keep their values. *)
Record grown (b b' : IRBuffer) (val val' : Z -> Z) : Prop := {
  gr_code : code_ok (b_code b');
  gr_ext : code_ext (b_code b) (b_code b');
  gr_slots : b_slots b' = b_slots b;
  gr_agree : agree (b_code b) val val';
  gr_models : models (b_code b') (b_slots b') val'
}.

Lemma grown_refl b val v : pending b val v -> grown b b val val.
Proof. intros []. split; try done. Qed.
Lemma grown_trans b b1 b2 val val1 val2 :
  grown b b1 val val1 -> grown b1 b2 val1 val2 -> grown b b2 val val2.
Proof.
  intros [] []. split; try done; [by etransitivity|congruence|].
  intros r Hr. rewrite gr_agree1 by (by apply gr_ext0). auto.
Qed.

(** What an answer of the engine says about the value [v]. *)
Definition verdict (b : IRBuffer) (val : Z -> Z) (v ref : Z) : Prop :=
  ((ref = NEXTFOLD \/ ref = RETRYFOLD) /\ pending b val v)
  \/ (ref = KLITFOLD /\ ir_type (fins b) = I64 /\ f_literal (b_fold b) = v)
  \/ (operand (b_code b) ref /\ val ref = v).

Definition step_ok (b : IRBuffer) (val : Z -> Z) (v : Z) (a : IRBuffer * Z) : Prop :=
  exists val', grown b a.1 val val' /\ verdict a.1 val' v a.2.

(** The operands are in the fold state. *)
Definition loaded (b : IRBuffer) : Prop :=
  fleft b = raw_ir (b_code b) (op1 (fins b)) /\ fright b = raw_ir (b_code b) (op2 (fins b)).

Definition handler_ok (b : IRBuffer) (val : Z -> Z) (v : Z) (a : IRBuffer * Z) : Prop :=
  a = (b, NEXTFOLD) \/ (a.2 <> NEXTFOLD /\ step_ok b val v a).

Definition rule_sound (op : Opcode) (r : rule) : Prop :=
  forall b val v, pending b val v -> loaded b -> ir_o (fins b) = op ->
    matches r.1.1 (op1 (fins b)) (fleft b) = true ->
    matches r.1.2 (op2 (fins b)) (fright b) = true ->
    returns (handler_ok b val v) (r.2 b).

(** *** The ways a rule answers *)

Section rules.
Context (b : IRBuffer) (val : Z -> Z) (v : Z).
Hypothesis Hp : pending b val v.

Lemma valid_large r : valid (b_code b) r -> r <> NEXTFOLD.
Proof using Hp.
  destruct Hp as [Hc]. pose proof (ok_bounds _ Hc).
  unfold valid, MAX_HEAP_ENTRIES, NEXTFOLD in *. lia.
Qed.

Lemma no_fold : returns (handler_ok b val v) (Ok (b, NEXTFOLD)).
Proof using Type. by left. Qed.

Lemma fold_to_ref r :
  operand (b_code b) r -> val r = v -> returns (handler_ok b val v) (Ok (b, r)).
Proof using Hp.
  intros Hr Hv. right. split; [by apply valid_large, Hr|].
  exists val. split; [by eapply grown_refl|]. right. by right.
Qed.

Lemma fold_to_literal k : u8 k = v -> returns (handler_ok b val v) (LITFOLD b k).
Proof using Hp.
  intros Hk. right. split; [done|]. exists val. split; [by destruct Hp; split|].
  right. left. cbn. split_and!; try done. apply Hp.
Qed.

(** Retrying with another instruction. *)
Lemma fold_to_ins b1 val1 i x y :
  grown b b1 val val1 -> ir_t i = ir_t (fins b) ->
  (ir_o i = kADD \/ ir_o i = kSUB) -> op1 i = u2 x -> op2 i = u2 y ->
  operand (b_code b1) x -> operand (b_code b1) y ->
  (if bool_decide (ir_o i = kADD) then u8 (val1 x + val1 y) else u8 (val1 x - val1 y)) = v ->
  returns (handler_ok b val v) (Ok (set_fins b1 i, RETRYFOLD)).
Proof using Hp.
  intros Hg Ht Ho Hx Hy Ox Oy Hm. right. split; [done|]. exists val1.
  pose proof (gr_code _ _ _ _ Hg) as Hc. pose proof Hg as [? ? ? ? Hm1].
  rewrite (operand_u2 _ _ Hc Ox) in Hx. rewrite (operand_u2 _ _ Hc Oy) in Hy.
  split; [by destruct Hg; split|]. left. split; [by right|].
  split; try done; cbn [fst snd].
  - change (ir_type i = I64). unfold ir_type. rewrite Ht. apply Hp.
  - change (isGuard i = false). unfold isGuard. rewrite Ht. apply Hp.
  - change (operands (b_code b1) i). unfold operands. destruct Ho as [-> | ->]; by rewrite Hx, Hy.
  - change (meaning val1 i = Some v). unfold meaning, arith.
    destruct Ho as [Ho|Ho]; rewrite Ho, Hx, Hy; rewrite Ho in Hm; by f_equal.
Qed.

(** *** Operands and literals *)

Lemma operand_literal r :
  operand (b_code b) r -> irref_islit r = true -> lit_value b r = Ok (val r).
Proof using Hp.
  intros [Hv Hhi] Hl. destruct Hp as [Hc Hm _ _ _ _].
  assert (exists k, literalValue (b_code b) (b_slots b) r = Ok k) as [k Hk].
  { unfold literalValue. rewrite ir_valid by done. cbn [obind].
    rewrite <- (ok_lit _ Hc) in Hl by done.
    destruct (ir_o (raw_ir (b_code b) r)) eqn:Ho; try done; [by eexists| |by eexists].
    rewrite ir_valid by (by eapply ok_kword). by eexists. }
  unfold lit_value. rewrite Hk. f_equal. symmetry. by eapply val_literal.
Qed.

(** Whatever is in the fold state when the literal is made. *)
Lemma new_literal b0 k (f : IRBuffer * Z -> fold_answer) Q :
  b_code b0 = b_code b -> b_slots b0 = b_slots b ->
  (forall c' r val', operand c' r -> grown b (set_code b0 c') val val' -> val' r = u8 k ->
     returns Q (f (set_code b0 c', r))) ->
  returns Q (obind (lit_ref b0 I64 k) f).
Proof using Hp.
  intros Ec Es Hf. destruct Hp as [Hc Hm _ _ _ _]. unfold lit_ref. rewrite obind_assoc.
  eapply returns_bind.
  { rewrite Ec. apply (literal_spec _ (b_slots b) I64 (u8 k)); try done; [by left|apply to_u_bound; lia]. }
  intros [c' tr] [Hla (Hv & _ & _ & Hhi & Hl)]. cbn [obind].
  destruct (models_literals _ _ _ _ Hc Hla Hm) as (val' & Ha & Hm').
  apply (Hf c' _ val'); [by split| |by eapply val_literal].
  split; try done; cbn; try apply Hla. by rewrite Es.
Qed.

Lemma val_range r : operand (b_code b) r -> 0 <= val r < 18446744073709551616.
Proof using Hp. intros [Hv _]. by apply (val_word _ _ _ (pend_models _ _ _ Hp)). Qed.

(** The instruction behind an operand. *)
Lemma operand_meaning r w :
  valid (b_code b) r -> meaning val (raw_ir (b_code b) r) = Some w ->
  operands (b_code b) (raw_ir (b_code b) r) /\ val r = w.
Proof using Hp.
  intros Hv Hw. destruct Hp as [Hc Hm _ _ _ _]. split; [by apply (ok_operands _ Hc)|].
  by eapply val_arith.
Qed.
End rules.

Lemma pending_add b val v :
  pending b val v -> ir_o (fins b) = kADD ->
  operand (b_code b) (op1 (fins b)) /\ operand (b_code b) (op2 (fins b))
  /\ v = u8 (val (op1 (fins b)) + val (op2 (fins b))).
Proof.
  intros [_ _ _ _ Ho Hv] Hop. unfold operands, meaning, arith in *. rewrite Hop in *.
  destruct Ho. by simplify_eq.
Qed.
Lemma pending_sub b val v :
  pending b val v -> ir_o (fins b) = kSUB ->
  operand (b_code b) (op1 (fins b)) /\ operand (b_code b) (op2 (fins b))
  /\ v = u8 (val (op1 (fins b)) - val (op2 (fins b))).
Proof.
  intros [_ _ _ _ Ho Hv] Hop. unfold operands, meaning, arith in *. rewrite Hop in *.
  destruct Ho. by simplify_eq.
Qed.

(** An operand that is itself a sum or a difference. *)
Lemma operand_add b val v r :
  pending b val v -> operand (b_code b) r -> ir_o (raw_ir (b_code b) r) = kADD ->
  let i := raw_ir (b_code b) r in
  operand (b_code b) (op1 i) /\ operand (b_code b) (op2 i) /\ val r = u8 (val (op1 i) + val (op2 i)).
Proof.
  intros Hp [Hr _] Ho i. unfold i.
  destruct (operand_meaning b val v Hp r (u8 (val (op1 i) + val (op2 i)))) as [Hops ->]; [done| |].
  - unfold meaning, arith. by rewrite Ho.
  - unfold operands in Hops. rewrite Ho in Hops. by destruct Hops.
Qed.
Lemma operand_sub b val v r :
  pending b val v -> operand (b_code b) r -> ir_o (raw_ir (b_code b) r) = kSUB ->
  let i := raw_ir (b_code b) r in
  operand (b_code b) (op1 i) /\ operand (b_code b) (op2 i) /\ val r = u8 (val (op1 i) - val (op2 i)).
Proof.
  intros Hp [Hr _] Ho i. unfold i.
  destruct (operand_meaning b val v Hp r (u8 (val (op1 i) - val (op2 i)))) as [Hops ->]; [done| |].
  - unfold meaning, arith. by rewrite Ho.
  - unfold operands in Hops. rewrite Ho in Hops. by destruct Hops.
Qed.

(** ** The rules, one by one *)

(** The instruction's operands as [H1] and [H2], its value as [Hv]. *)
Ltac add_rule :=
  intros b val v Hp [Hll Hlr] Hop Hm1 Hm2; cbn [fst snd matches] in *;
  destruct (pending_add b val v Hp Hop) as (H1 & H2 & Hv).
Ltac sub_rule :=
  intros b val v Hp [Hll Hlr] Hop Hm1 Hm2; cbn [fst snd matches] in *;
  destruct (pending_sub b val v Hp Hop) as (H1 & H2 & Hv).
Ltac ranges Hp :=
  repeat match goal with
  | H : operand (b_code ?b) ?r |- _ =>
      lazymatch goal with
      | _ : 0 <= ?val r < 18446744073709551616 |- _ => fail
      | _ => pose proof (val_range _ _ _ Hp r H)
      end
  end.
Ltac word_arith Hp :=
  ranges Hp; subst; repeat match goal with H : ?val ?r = u8 _ |- _ => rewrite H in *; clear H end;
  word_lia.

(** Both sides are a linear expression, truncated here and there. *)
Ltac word_ring := unfold u8; autorewrite with words; f_equal; lia.

Lemma pending_is_i64 b val v : pending b val v -> is_i64 (fins b) = true.
Proof. intros Hp. unfold is_i64. by rewrite (pend_type _ _ _ Hp). Qed.
Lemma pending_not_float b val v : pending b val v -> not_float (fins b) = true.
Proof. intros Hp. unfold not_float. by rewrite (pend_type _ _ _ Hp). Qed.
Lemma pending_integer b val v : pending b val v -> isIntegerType (ir_type (fins b)) = true.
Proof. intros Hp. by rewrite (pend_type _ _ _ Hp). Qed.

Lemma u8_u8 x : u8 (u8 x) = u8 x.
Proof. apply to_u_idemp. lia. Qed.

Lemma kfold_arith_add : rule_sound kADD (lit, lit, kfold_arith).
Proof.
  add_rule. unfold kfold_arith. rewrite (pending_is_i64 _ _ _ Hp).
  rewrite !(operand_literal _ _ _ Hp) by done. cbn [obind]. rewrite Hop. cbn [kfold_intop obind].
  apply (fold_to_literal _ _ _ Hp). by rewrite u8_u8.
Qed.
Lemma kfold_arith_sub : rule_sound kSUB (lit, lit, kfold_arith).
Proof.
  sub_rule. unfold kfold_arith. rewrite (pending_is_i64 _ _ _ Hp).
  rewrite !(operand_literal _ _ _ Hp) by done. cbn [obind]. rewrite Hop. cbn [kfold_intop obind].
  apply (fold_to_literal _ _ _ Hp). by rewrite u8_u8.
Qed.

Lemma simplify_intadd_k_sound : rule_sound kADD (any, lit, simplify_intadd_k).
Proof.
  add_rule. unfold simplify_intadd_k. rewrite (pending_is_i64 _ _ _ Hp).
  rewrite (operand_literal _ _ _ Hp) by done. cbn [obind].
  destruct (Z.eqb_spec (val (op2 (fins b))) 0) as [E|]; [|apply no_fold].
  apply (fold_to_ref _ _ _ Hp); [apply H1|]. rewrite E in Hv. word_arith Hp.
Qed.

Lemma comm_swap_sound : rule_sound kADD (any, any, comm_swap).
Proof.
  add_rule. unfold comm_swap. case_match; [|apply no_fold].
  apply (fold_to_ins b val v Hp b val _ (op2 (fins b)) (op1 (fins b))); try done.
  - by eapply grown_refl.
  - by left.
  - by autorewrite with operands.
  - by autorewrite with operands.
  - cbn. rewrite Hop. cbn. by rewrite Z.add_comm.
Qed.

Lemma operand_grown b b' val val' r :
  grown b b' val val' -> operand (b_code b) r -> operand (b_code b') r /\ val' r = val r.
Proof.
  intros [] Hr. split; [by eapply operand_ext|]. apply gr_agree0, Hr.
Qed.

Lemma reassoc_int_arith_sound : rule_sound kADD (isop kADD, lit, reassoc_int_arith).
Proof.
  add_rule. apply bool_decide_eq_true in Hm1. rewrite Hll in Hm1.
  destruct (operand_add _ _ _ _ Hp H1 Hm1) as (L1 & L2 & HL).
  unfold reassoc_int_arith. rewrite (pending_is_i64 _ _ _ Hp), Hll.
  destruct (irref_islit (op2 (raw_ir (b_code b) (op1 (fins b))))) eqn:Hl; [|apply no_fold].
  rewrite !(operand_literal _ _ _ Hp) by done. cbn [obind andb]. rewrite Hop.
  cbn [kfold_intop obind]. case_match eqn:Ek; [|case_match; [apply no_fold|]].
  - apply Z.eqb_eq in Ek. apply (fold_to_ref _ _ _ Hp); [apply H1|]. ranges Hp.
    assert (E : val (op2 (fins b)) = 0) by word_lia. rewrite E in Hv. word_arith Hp.
  - change (ir_type (fins (set_fins b ?i))) with (ir_type (fins b)).
    rewrite (pend_type _ _ _ Hp). apply (new_literal b val v Hp); try done.
    intros c' r val' Hr Hg Ev. cbn [obind].
    destruct (operand_grown _ _ _ _ _ Hg L1) as [L1' E1].
    eapply (fold_to_ins b val v Hp _ val'); [|done|by left; rewrite <- Hop| | |exact L1'|exact Hr|].
    + by destruct Hg; split.
    + cbn. by autorewrite with operands.
    + cbn. by autorewrite with operands.
    + cbn. rewrite Hop. cbn. rewrite E1, Ev, Hv, HL. word_ring.
Qed.

Lemma simplify_sub_k_sound : rule_sound kSUB (any, lit, simplify_sub_k).
Proof.
  sub_rule. unfold simplify_sub_k. rewrite (pending_integer _ _ _ Hp).
  rewrite (operand_literal _ _ _ Hp) by done. cbn [obind].
  destruct (Z.eqb_spec (val (op2 (fins b))) 0) as [E|].
  { apply (fold_to_ref _ _ _ Hp); [apply H1|]. rewrite E in Hv. word_arith Hp. }
  rewrite (pend_type _ _ _ Hp). apply (new_literal b val v Hp); try done.
  intros c' r val' Hr Hg Ev. cbn [obind].
  destruct (operand_grown _ _ _ _ _ Hg H1) as [H1' E1].
  eapply (fold_to_ins b val v Hp _ val'); [|done|by left| | |exact H1'|exact Hr|].
  - by destruct Hg; split.
  - cbn. by autorewrite with operands.
  - cbn. by autorewrite with operands.
  - cbn. rewrite E1, Ev, Hv. word_ring.
Qed.

Lemma simplify_intsub_sound : rule_sound kSUB (any, any, simplify_intsub).
Proof.
  sub_rule. unfold simplify_intsub. rewrite (pending_not_float _ _ _ Hp).
  destruct (Z.eqb_spec (op1 (fins b)) (op2 (fins b))) as [E|]; [|apply no_fold].
  apply (fold_to_literal _ _ _ Hp). by rewrite Hv, E, Z.sub_diag.
Qed.

Lemma simplify_intsub_kleft_sound : rule_sound kSUB (lit, any, simplify_intsub_kleft).
Proof.
  sub_rule. unfold simplify_intsub_kleft. rewrite (pending_integer _ _ _ Hp).
  rewrite (operand_literal _ _ _ Hp) by done. cbn [obind].
  destruct (Z.eqb_spec (val (op1 (fins b))) 0) as [E|]; [|apply no_fold].
  right. split; [done|]. exists val. pose proof Hp as [Hc Hm Ht Hg Ho Hmean].
  assert (Hop1 : op1 (setOp1 (setOpcode (fins b) kNEG) (op2 (fins b))) = op2 (fins b)).
  { rewrite op1_setOp1. eapply operand_u2; [apply Hc|done]. }
  split; [by split|]. left. split; [by right|]. split; try done.
  - change (operand (b_code b) (op1 (setOp1 (setOpcode (fins b) kNEG) (op2 (fins b))))).
    by rewrite Hop1.
  - change (Some (u8 (- val (op1 (setOp1 (setOpcode (fins b) kNEG) (op2 (fins b)))))) = Some v).
    by rewrite Hop1, Hv, E.
Qed.

Lemma simplify_intsubadd_leftcancel_sound :
  rule_sound kSUB (isop kADD, any, simplify_intsubadd_leftcancel).
Proof.
  sub_rule. apply bool_decide_eq_true in Hm1. rewrite Hll in Hm1.
  destruct (operand_add _ _ _ _ Hp H1 Hm1) as (L1 & L2 & HL).
  unfold simplify_intsubadd_leftcancel. rewrite (pending_not_float _ _ _ Hp), Hll.
  destruct (Z.eqb_spec (op2 (fins b)) (op1 (raw_ir (b_code b) (op1 (fins b))))) as [E|].
  { apply (fold_to_ref _ _ _ Hp); [apply L2|]. rewrite E in Hv. word_arith Hp. }
  destruct (Z.eqb_spec (op2 (fins b)) (op2 (raw_ir (b_code b) (op1 (fins b))))) as [E|].
  { apply (fold_to_ref _ _ _ Hp); [apply L1|]. rewrite E in Hv. word_arith Hp. }
  apply no_fold.
Qed.

(** Replacing the instruction by [0 - r]. *)
Lemma zero_minus_sound b val v r :
  pending b val v -> ir_o (fins b) = kSUB -> operand (b_code b) r -> v = u8 (- val r) ->
  returns (handler_ok b val v) (zero_minus b r).
Proof.
  intros Hp Hop Hr Hv. unfold zero_minus. rewrite (pend_type _ _ _ Hp).
  apply (new_literal b val v Hp); try done. intros c' z val' Hz Hg Ev.
  destruct (operand_grown _ _ _ _ _ Hg Hr) as [Hr' E1].
  eapply (fold_to_ins b val v Hp _ val'); [|done|by right| | |exact Hz|exact Hr'|].
  - by destruct Hg; split.
  - cbn. by autorewrite with operands.
  - cbn. by autorewrite with operands.
  - change (bool_decide _) with (bool_decide (ir_o (fins b) = kADD)).
    rewrite Hop, E1, Ev, Hv. cbn. word_ring.
Qed.

Lemma simplify_intsubsub_leftcancel_sound :
  rule_sound kSUB (isop kSUB, any, simplify_intsubsub_leftcancel).
Proof.
  sub_rule. apply bool_decide_eq_true in Hm1. rewrite Hll in Hm1.
  destruct (operand_sub _ _ _ _ Hp H1 Hm1) as (L1 & L2 & HL).
  unfold simplify_intsubsub_leftcancel. rewrite (pending_not_float _ _ _ Hp), Hll.
  case_match; [apply no_fold|].
  destruct (Z.eqb_spec (op1 (raw_ir (b_code b) (op1 (fins b)))) (op2 (fins b))) as [E|];
    [|apply no_fold].
  apply zero_minus_sound; try done. rewrite Hv, HL, <- E. word_ring.
Qed.

Lemma simplify_intsubsub_rightcancel_sound :
  rule_sound kSUB (any, isop kSUB, simplify_intsubsub_rightcancel).
Proof.
  sub_rule. apply bool_decide_eq_true in Hm2. rewrite Hlr in Hm2.
  destruct (operand_sub _ _ _ _ Hp H2 Hm2) as (R1 & R2 & HR).
  unfold simplify_intsubsub_rightcancel. rewrite (pending_not_float _ _ _ Hp), Hlr.
  case_match; [apply no_fold|].
  destruct (Z.eqb_spec (op1 (fins b)) (op1 (raw_ir (b_code b) (op2 (fins b))))) as [E|];
    [|apply no_fold].
  apply (fold_to_ref _ _ _ Hp); [apply R2|]. rewrite E in Hv. word_arith Hp.
Qed.

Lemma simplify_intsubadd_rightcancel_sound :
  rule_sound kSUB (any, isop kADD, simplify_intsubadd_rightcancel).
Proof.
  sub_rule. apply bool_decide_eq_true in Hm2. rewrite Hlr in Hm2.
  destruct (operand_add _ _ _ _ Hp H2 Hm2) as (R1 & R2 & HR).
  unfold simplify_intsubadd_rightcancel. rewrite (pending_not_float _ _ _ Hp), Hlr.
  case_match; [apply no_fold|].
  destruct (Z.eqb_spec (op1 (fins b)) (op1 (raw_ir (b_code b) (op2 (fins b))))) as [E|].
  { apply zero_minus_sound; try done. rewrite Hv, HR, E. word_ring. }
  destruct (Z.eqb_spec (op1 (fins b)) (op2 (raw_ir (b_code b) (op2 (fins b))))) as [E|];
    [|apply no_fold].
  apply zero_minus_sound; try done. rewrite Hv, HR, E. word_ring.
Qed.

Lemma set_ops_sound b val v x y :
  pending b val v -> ir_o (fins b) = kSUB -> operand (b_code b) x -> operand (b_code b) y ->
  v = u8 (val x - val y) -> returns (handler_ok b val v) (set_ops b x y).
Proof.
  intros Hp Hop Hx Hy Hv.
  apply (fold_to_ins b val v Hp b val _ x y); try done; [by eapply grown_refl|by right| | |].
  - by autorewrite with operands.
  - by autorewrite with operands.
  - cbn. by rewrite Hop.
Qed.

Lemma simplify_intsubaddadd_cancel_sound :
  rule_sound kSUB (isop kADD, isop kADD, simplify_intsubaddadd_cancel).
Proof.
  sub_rule. apply bool_decide_eq_true in Hm1, Hm2. rewrite Hll in Hm1. rewrite Hlr in Hm2.
  destruct (operand_add _ _ _ _ Hp H1 Hm1) as (L1 & L2 & HL).
  destruct (operand_add _ _ _ _ Hp H2 Hm2) as (R1 & R2 & HR).
  unfold simplify_intsubaddadd_cancel. rewrite (pending_not_float _ _ _ Hp), Hll, Hlr.
  set (l := raw_ir (b_code b) (op1 (fins b))) in *. set (r := raw_ir (b_code b) (op2 (fins b))) in *.
  rewrite HL, HR in Hv. clear HL HR. case_match; [apply no_fold|].
  repeat (case_match eqn:E; [apply Z.eqb_eq in E; apply set_ops_sound; try done;
                             rewrite Hv, ?E; word_ring|clear E]).
  apply no_fold.
Qed.

(** ** The engine *)

Definition is_arith (op : Opcode) : bool := bool_decide (is_Some (arith op 0 0)).

Section engine.
Context (m : memory).

Lemma rules_sound op :
  is_arith op = true -> Forall (rule_sound op) (rules_of m op).
Proof.
  destruct op; try done; intros _; cbn [rules_of];
    repeat (apply Forall_cons; split); try apply Forall_nil;
    auto using kfold_arith_add, reassoc_int_arith_sound, simplify_intadd_k_sound, comm_swap_sound,
      kfold_arith_sub, simplify_sub_k_sound, simplify_intsub_kleft_sound, simplify_intsub_sound,
      simplify_intsubadd_leftcancel_sound, simplify_intsubsub_leftcancel_sound,
      simplify_intsubsub_rightcancel_sound, simplify_intsubadd_rightcancel_sound,
      simplify_intsubaddadd_cancel_sound.
Qed.

Lemma try_rules_sound rules b val v :
  Forall (rule_sound (ir_o (fins b))) rules -> pending b val v -> loaded b ->
  returns (step_ok b val v) (try_rules rules (op1 (fins b)) (op2 (fins b)) b).
Proof.
  intros Hr Hp Hl. induction Hr as [|[[p1 p2] h] rules Hh _ IH]; cbn [try_rules].
  { exists val. split; [by eapply grown_refl|]. left. split; [by left|done]. }
  case_match eqn:Em; [|done]. apply andb_prop in Em as [Hm1 Hm2].
  eapply returns_bind; [by apply (Hh b val v)|].
  intros [b' ref] [[= -> ->]|[Hn Hs]]; [done|]. cbn in Hn.
  rewrite (proj2 (Z.eqb_neq _ _) Hn). done.
Qed.

Lemma pending_ops b val v : pending b val v -> is_arith (ir_o (fins b)) = true.
Proof. intros [_ _ _ _ _ Hm]. unfold meaning, arith in Hm. by destruct (ir_o (fins b)). Qed.

(** Changing the loaded operands does not matter. *)
Definition same_buffer (b b' : IRBuffer) : Prop :=
  b_code b' = b_code b /\ b_slots b' = b_slots b /\ fins b' = fins b.
Lemma pending_same b b' val v : same_buffer b b' -> pending b val v -> pending b' val v.
Proof. intros (Ec & Es & Ei) []. split; rewrite ?Ec, ?Es, ?Ei; done. Qed.
Lemma step_ok_same b b' val v a : same_buffer b b' -> step_ok b' val v a -> step_ok b val v a.
Proof.
  intros (Ec & Es & Ei) (val' & [] & Hv). exists val'. split; [|done].
  split; rewrite <- ?Ec, <- ?Es; done.
Qed.

Lemma load_operands_ok b val v :
  pending b val v ->
  returns (fun '(b', l, r) => same_buffer b b'
             /\ (is_unary (ir_o (fins b)) = false -> loaded b' /\ l = op1 (fins b) /\ r = op2 (fins b)))
    (load_operands b).
Proof.
  intros Hp. pose proof (pend_code _ _ _ Hp) as Hc. pose proof (ok_bounds _ Hc) as Hb.
  assert (Hload : forall r, operand (b_code b) r ->
            (r =? 0) = false /\ ir (b_code b) r = Ok (raw_ir (b_code b) r)).
  { intros r [Hr _]. split; [|by apply ir_valid]. apply Z.eqb_neq.
    unfold valid, MAX_HEAP_ENTRIES in *. lia. }
  pose proof (pend_operands _ _ _ Hp) as Ho. unfold operands in Ho. unfold load_operands.
  pose proof (pending_ops _ _ _ Hp) as Hop.
  destruct (ir_o (fins b)) eqn:Eop; try done;
    match goal with |- context [mode ?op] =>
      change (irmode_left (mode op) =? IRMref) with true;
      let b := eval vm_compute in (irmode_right (mode op) =? IRMref) in
      change (irmode_right (mode op) =? IRMref) with b end;
    cbn [obind negb Z.eqb]; try match type of Ho with _ /\ operand _ _ => destruct Ho end;
    repeat match goal with H : operand _ ?r |- _ =>
             let E1 := fresh in let E2 := fresh in
             destruct (Hload r H) as [E1 E2]; rewrite E1, E2; clear H end; cbn [negb obind returns];
    by split.
Qed.

Lemma unary_rules op : is_unary op = true -> rules_of m op = [].
Proof. by destruct op. Qed.

Lemma fold_round_sound b val v :
  pending b val v -> returns (step_ok b val v) (fold_round m b).
Proof.
  intros Hp. unfold fold_round. eapply returns_bind; [by eapply load_operands_ok|].
  intros [[b' l] r] [Hs Hl]. pose proof (pending_same _ _ _ _ Hs Hp) as Hp'.
  pose proof Hs as (_ & _ & Ei).
  eapply returns_mono; [|intros a; by apply step_ok_same].
  destruct (is_unary (ir_o (fins b))) eqn:Hun.
  - rewrite Ei, unary_rules by done. cbn. exists val. split; [by eapply grown_refl|].
    left. split; [by left|done].
  - destruct (Hl eq_refl) as (Hld & -> & ->). rewrite <- Ei.
    apply try_rules_sound; try done. apply rules_sound. by eapply pending_ops.
Qed.

Lemma step_ok_trans b b1 val val1 v a :
  grown b b1 val val1 -> step_ok b1 val1 v a -> step_ok b val v a.
Proof. intros Hg (val2 & Hg2 & Hv). exists val2. split; [by eapply grown_trans|done]. Qed.

Lemma fold_rounds_sound n b val v :
  pending b val v ->
  returns (fun a => a.2 <> RETRYFOLD /\ step_ok b val v a) (fold_rounds m n b).
Proof.
  revert b val. induction n as [|n IH]; intros b val Hp; cbn [fold_rounds];
    (eapply returns_bind; [by apply fold_round_sound|]); intros [b' ref] (val' & Hg & Hv);
    (destruct (Z.eqb_spec ref RETRYFOLD) as [->|Hn]; [|by split; [|exists val']]);
    assert (Hp' : pending b' val' v)
      by (destruct Hv as [[_ ?]|[[? _]|[[Hr _] _]]]; [done|done|];
          pose proof (ok_bounds _ (gr_code _ _ _ _ Hg)); cbn [fst snd] in *;
          unfold valid, MAX_HEAP_ENTRIES, RETRYFOLD in *; lia).
  - split; [done|]. exists val'. split; [done|]. left. split; [by left|done].
  - eapply returns_mono; [by apply IH|]. intros a [Hr Hs]. split; [done|].
    by eapply step_ok_trans.
Qed.

(** ** Emitting *)

Lemma produces_grown b b1 val val1 v a :
  grown b b1 val val1 -> produces b1 val1 v a -> produces b val v a.
Proof.
  intros [] (val2 & Hc & He & Hs & Ha & Hm & Hv & Hval). exists val2.
  split_and!; try done; [by etransitivity|congruence|].
  intros r Hr. rewrite Ha by (by apply gr_ext0). auto.
Qed.

Definition emitted (b : IRBuffer) (val : Z -> Z) (v : Z) (a : IRBuffer * opt_result) : Prop :=
  exists tr, a.2 = Emitted tr /\ produces b val v (a.1, tr).

Lemma emitted_done b val v r :
  returns (produces b val v) r ->
  returns (emitted b val v) (let! '(b, tr) := r in Ok (b, Emitted tr)).
Proof. intros Hr. eapply returns_bind; [done|]. intros [b' tr] Hp. by exists tr. Qed.

(** Nothing was folded: look for a common subexpression. *)
Lemma unfolded b val v op :
  pending b val v -> is_arith op = true ->
  returns (emitted b val v)
    (if Z.land (mode op) IRM_S =? IRM_N
     then let! '(b, tr) := optCSE b in Ok (b, Emitted tr)
     else let! '(b, tr) := emit_ins b in Ok (b, Emitted tr)).
Proof.
  intros Hp Hop.
  replace (Z.land (mode op) IRM_S =? IRM_N) with true by (by destruct op).
  by apply emitted_done, optCSE_spec.
Qed.

Lemma optFold_sound b val v :
  pending b val v -> returns (emitted b val v) (optFold m b).
Proof.
  intros Hp. pose proof (pending_ops _ _ _ Hp) as Hop. unfold optFold.
  rewrite bool_decide_eq_false_2 by (by destruct (ir_o (fins b))).
  destruct (Flags32.get (b_flags b) kOptFold); [|by apply unfolded].
  eapply returns_bind; [by apply fold_rounds_sound|]. intros [b' ref] [Hnr (val' & Hg & Hv)].
  cbn [snd fst] in *. eapply (returns_mono (emitted b' val' v)).
  2: { intros a (tr & Ha & Hpr). exists tr. split; [done|]. by eapply produces_grown. }
  pose proof (gr_code _ _ _ _ Hg) as Hc. cbn in Hc. pose proof (ok_bounds _ Hc) as Hb.
  destruct Hv as [[[-> | ->] Hp']|[(-> & Ht & Hl)|[[Hr Hhi] Hval]]].
  - by apply unfolded.
  - done.
  - cbn -[literal]. rewrite Ht, Hl. eapply returns_bind.
    { apply (literal_spec _ (b_slots b') I64 v Hc); try done; [by left|].
      eapply meaning_bound, (pend_meaning _ _ _ Hp). }
    intros [c' tr] [Hla (Hvr & _ & _ & Hnhi & Hlv)]. cbn.
    destruct (models_literals _ _ _ _ Hc Hla (gr_models _ _ _ _ Hg)) as (val2 & Ha & Hm2).
    exists tr. split; [done|]. exists val2. cbn [fst snd].
    split_and!; try done; try apply Hla. by eapply val_literal.
  - assert (Hlarge : MAX_FOLD <= ref) by (unfold valid, MAX_HEAP_ENTRIES, MAX_FOLD in *; cbn in *; lia).
    replace (ref =? NEXTFOLD) with false by (unfold MAX_FOLD, NEXTFOLD in *; lia).
    rewrite (proj2 (Z.leb_le _ _) Hlarge), ir_valid by done. cbn [obind returns].
    eexists. split; [done|]. exists val'. cbn [fst snd]. rewrite (ref_make _ _ _ Hc Hr).
    split_and!; try done. apply Hg.
Qed.
End engine.

(** ** What the recorder relies on *)

Section emission.
Context (m : memory).

Lemma set_ins_ops b op t a1 a2 :
  ir_o (fins (set_ins b op t a1 a2)) = op /\ ir_t (fins (set_ins b op t a1 a2)) = t
  /\ op1 (fins (set_ins b op t a1 a2)) = u2 a1 /\ op2 (fins (set_ins b op t a1 a2)) = u2 a2.
Proof. split_and!; try done; [apply op1_pack|apply op2_pack]. Qed.

Lemma set_ins_pending b val op a1 a2 v :
  code_ok (b_code b) -> models (b_code b) (b_slots b) val ->
  operand (b_code b) a1 -> (is_unary op = false -> operand (b_code b) a2) ->
  arith op (val a1) (val a2) = Some v ->
  pending (set_ins b op I64 a1 a2) val v.
Proof.
  intros Hc Hm H1 H2 Hv. destruct (set_ins_ops b op I64 a1 a2) as (Eo & Et & E1 & E2).
  rewrite (operand_u2 _ _ Hc H1) in E1.
  assert (E2' : is_unary op = false -> op2 (fins (set_ins b op I64 a1 a2)) = a2).
  { intros Hun. by rewrite E2, (operand_u2 _ _ Hc (H2 Hun)). }
  split; try done.
  - change (operands (b_code b) (fins (set_ins b op I64 a1 a2))).
    unfold operands. rewrite Eo, E1. destruct op; try done; rewrite E2' by done; auto.
  - unfold meaning, arith. rewrite Eo, E1. destruct op; try done; rewrite E2' by done; auto.
Qed.

Lemma emit_arith b val op a1 a2 v :
  code_ok (b_code b) -> models (b_code b) (b_slots b) val ->
  operand (b_code b) a1 -> (is_unary op = false -> operand (b_code b) a2) ->
  arith op (val a1) (val a2) = Some v ->
  returns (emitted b val v) (emit m b op I64 a1 a2).
Proof.
  intros Hc Hm H1 H2 Hv. unfold emit.
  pose proof (optFold_sound m _ _ _ (set_ins_pending b val op a1 a2 v Hc Hm H1 H2 Hv)) as H.
  eapply returns_mono; [exact H|]. intros a (tr & Ha & Hp). by exists tr.
Qed.

(** A fold of one round. *)
Lemma optFold_one_round b op t a1 a2 ref b1 b2 :
  let b0 := set_ins b op t a1 a2 in
  op <> kSAVE -> Flags32.get (b_flags b) kOptFold = true ->
  load_operands b0 = Ok (b1, u2 a1, u2 a2) -> fins b1 = fins b0 ->
  try_rules (rules_of m op) (u2 a1) (u2 a2) b1 = Ok (b2, ref) -> ref <> RETRYFOLD ->
  doFold m b0 = Ok (b2, ref).
Proof.
  intros b0 Hs Hf Hl Hi Ht Hr. unfold doFold. cbn [fold_rounds]. unfold fold_round.
  rewrite Hl. cbn [obind]. rewrite Hi. unfold b0.
  rewrite (proj1 (set_ins_ops b op t a1 a2)), Ht. cbn [obind].
  by rewrite (proj2 (Z.eqb_neq _ _) Hr).
Qed.

(** Loading two operands of a fresh instruction. *)
Lemma load_two b op t a1 a2 :
  code_ok (b_code b) -> valid (b_code b) a1 -> valid (b_code b) a2 ->
  irmode_left (mode op) = IRMref -> irmode_right (mode op) = IRMref ->
  let b0 := set_ins b op t a1 a2 in
  load_operands b0
  = Ok (set_fold b0 (mkFold (fins b0) (raw_ir (b_code b) a1) (raw_ir (b_code b) a2)
                            (f_literal (b_fold b0))), a1, a2).
Proof.
  intros Hc H1 H2 Ml Mr b0. pose proof (ok_bounds _ Hc) as Hb. unfold load_operands.
  destruct (set_ins_ops b op t a1 a2) as (Eo & _ & E1 & E2). fold b0 in Eo, E1, E2.
  assert (Hr : forall r, valid (b_code b) r -> u2 r = r /\ (r =? 0) = false).
  { intros r Hv. unfold valid, MAX_HEAP_ENTRIES in *. split; [apply to_u_id; lia|]. apply Z.eqb_neq. lia. }
  destruct (Hr _ H1) as [U1 N1], (Hr _ H2) as [U2 N2].
  rewrite Eo, E1, E2, U1, U2, Ml, Mr. cbn [Z.eqb IRMref]. rewrite N1, N2. cbn [negb].
  change (b_code b0) with (b_code b). by rewrite !ir_valid by done.
Qed.

Lemma literal_operand b val r :
  code_ok (b_code b) -> models (b_code b) (b_slots b) val ->
  operand (b_code b) r -> irref_islit r = true -> lit_value b r = Ok (val r).
Proof.
  intros Hc Hm Hr Hl.
  apply (operand_literal (set_ins b kADD I64 r r) val (u8 (val r + val r))); try done.
  by apply set_ins_pending.
Qed.

Lemma emit_guard b val op t a1 a2 :
  code_ok (b_code b) -> models (b_code b) (b_slots b) val ->
  Flags32.get (b_flags b) kOptFold = true -> op = kEQ \/ op = kNE ->
  operand (b_code b) a1 -> irref_islit a1 = true ->
  operand (b_code b) a2 -> irref_islit a2 = true ->
  exists b', b_code b' = b_code b /\
    emit m b op t a1 a2
    = Ok (b', if (if bool_decide (op = kEQ) then val a1 =? val a2 else negb (val a1 =? val a2))
              then Emitted TRef.none else FailingGuard).
Proof.
  intros Hc Hm Hf Hop H1 L1 H2 L2. set (b0 := set_ins b op t a1 a2).
  destruct (set_ins_ops b op t a1 a2) as (Eo & _ & E1 & E2). fold b0 in Eo, E1, E2.
  rewrite (operand_u2 _ _ Hc H1) in E1. rewrite (operand_u2 _ _ Hc H2) in E2.
  pose proof (load_two b op t a1 a2 Hc (proj1 H1) (proj1 H2)
                ltac:(by destruct Hop as [-> | ->]) ltac:(by destruct Hop as [-> | ->])) as Hl.
  cbv zeta in Hl. fold b0 in Hl. set (b1 := set_fold b0 _) in Hl.
  set (holds := if bool_decide (op = kEQ) then val a1 =? val a2 else negb (val a1 =? val a2)).
  assert (Hk : kfold_cmp b1 = Ok (b1, if holds then DROPFOLD else FAILFOLD)).
  { unfold kfold_cmp. change (fins b1) with (fins b0). rewrite E1, E2.
    rewrite (literal_operand b1 val a1 Hc Hm H1 L1), (literal_operand b1 val a2 Hc Hm H2 L2).
    cbn [obind]. rewrite Eo. unfold holds. by destruct Hop as [-> | ->]. }
  assert (Hd : doFold m b0 = Ok (b1, if holds then DROPFOLD else FAILFOLD)).
  { apply (optFold_one_round b op t a1 a2 _ b1 b1); try done; [by destruct Hop as [-> | ->]|..].
    - by rewrite (operand_u2 _ _ Hc H1), (operand_u2 _ _ Hc H2).
    - rewrite (operand_u2 _ _ Hc H1), (operand_u2 _ _ Hc H2).
      destruct Hop as [-> | ->]; cbn [rules_of try_rules matches]; rewrite L1, L2; cbn [andb];
        rewrite Hk; cbn [obind]; by destruct holds.
    - by destruct holds. }
  exists b1. split; [done|]. unfold emit, optFold. fold b0. rewrite Eo.
  rewrite bool_decide_eq_false_2 by (by destruct Hop as [-> | ->]).
  change (b_flags b0) with (b_flags b). rewrite Hf, Hd. cbn [obind]. by destruct holds.
Qed.

(** Loads from a closure allocated on the trace. *)
Lemma emit_load b fr n e field t x he :
  code_ok (b_code b) -> Flags32.get (b_flags b) kOptFold = true ->
  valid (b_code b) fr -> ir_o (raw_ir (b_code b) fr) = kFREF ->
  op1 (raw_ir (b_code b) fr) = n -> op2 (raw_ir (b_code b) fr) = field + 1 ->
  valid (b_code b) n -> ir_o (raw_ir (b_code b) n) = kNEW -> op2 (raw_ir (b_code b) n) = e ->
  ah_entries (b_heap b) !! Z.to_nat e = Some he -> he_fwdref he = 0 ->
  he_ofs he + field < hd_size (b_heap b) ->
  hd_data (b_heap b) !! (he_ofs he + field) = Some x -> valid (b_code b) x ->
  exists b' tr, emit m b kFLOAD t fr 0 = Ok (b', Emitted tr) /\ b_code b' = b_code b /\ TRef.ref tr = x.
Proof.
  intros Hc Hf Hfr Hfo Hf1 Hf2 Hn Hno Hn2 Hhe Hfwd Hsz Hx Hvx.
  pose proof (ok_bounds _ Hc) as Hb. set (b0 := set_ins b kFLOAD t fr 0).
  destruct (set_ins_ops b kFLOAD t fr 0) as (Eo & _ & E1 & _). fold b0 in Eo, E1.
  assert (Hu : u2 fr = fr) by (apply to_u_id; unfold valid, MAX_HEAP_ENTRIES in *; lia).
  set (b1 := set_fold b0 (mkFold (fins b0) (raw_ir (b_code b) fr) (fright b0) (f_literal (b_fold b0)))).
  assert (Hl : load_operands b0 = Ok (b1, fr, 0)).
  { unfold load_operands. rewrite Eo, E1, Hu.
    change (irmode_left (mode kFLOAD) =? IRMref) with true.
    change (irmode_right (mode kFLOAD) =? IRMref) with false. cbv iota.
    rewrite (proj2 (Z.eqb_neq fr 0)) by (unfold valid, MAX_HEAP_ENTRIES in *; lia).
    cbn [negb Z.eqb]. change (b_code b0) with (b_code b). by rewrite ir_valid. }
  assert (Hload : load_fwd b1 = Ok (b1, x)).
  { unfold load_fwd. change (fleft b1) with (raw_ir (b_code b) fr). rewrite Hfo, Hf1, Hf2.
    rewrite bool_decide_eq_true_2 by done. unfold getHeapEntry. change (b_code b1) with (b_code b).
    rewrite ir_valid by done. cbn [obind]. rewrite Hno, bool_decide_eq_true_2, Hn2 by done.
    rewrite (proj2 (Z.eqb_neq e kInvalidHeapEntry))
      by (rewrite <- Hn2; pose proof (op2_bound (raw_ir (b_code b) n)); unfold kInvalidHeapEntry; lia).
    cbn [negb]. unfold isIndirection, getField, heap_entry. change (b_heap b1) with (b_heap b).
    rewrite Hhe. cbn [of_option obind]. rewrite Hfwd. cbn [negb Z.eqb].
    rewrite Z.add_simpl_r. unfold AbstractHeap.data_at. by rewrite (proj2 (Z.ltb_lt _ _) Hsz), Hx. }
  assert (Hlarge : MAX_FOLD <= x) by (unfold valid, MAX_HEAP_ENTRIES, MAX_FOLD in *; lia).
  assert (Hd : doFold m b0 = Ok (b1, x)).
  { unfold doFold. cbn [fold_rounds]. unfold fold_round. rewrite Hl. cbn [obind].
    change (fins b1) with (fins b0). rewrite Eo. cbn [rules_of try_rules matches andb].
    rewrite Hload. cbn [obind]. unfold NEXTFOLD, RETRYFOLD, MAX_FOLD in *.
    rewrite (proj2 (Z.eqb_neq x 0)) by lia. cbn [negb obind].
    by rewrite (proj2 (Z.eqb_neq x 1)) by lia. }
  exists b1, (TRef.make x (ir_t (raw_ir (b_code b) x))). unfold emit, optFold. fold b0. rewrite Eo.
  rewrite bool_decide_eq_false_2 by done. change (b_flags b0) with (b_flags b). rewrite Hf, Hd.
  cbn [obind]. unfold NEXTFOLD, MAX_FOLD in *. rewrite (proj2 (Z.eqb_neq x 0)) by lia.
  rewrite (proj2 (Z.leb_le _ _) Hlarge). change (b_code b1) with (b_code b). rewrite ir_valid by done.
  split; [done|]. split; [done|]. exact (ref_make (b_code b) x _ Hc Hvx).
Qed.
(** A guard whose condition holds: it is emitted, found or dropped. *)
Definition is_condition (op : Opcode) : bool := bool_decide (is_Some (condition op 0 0)).

Lemma condition_round b val op t a1 a2 :
  code_ok (b_code b) -> models (b_code b) (b_slots b) val ->
  Flags32.get (b_flags b) kOptFold = true ->
  operand (b_code b) a1 -> operand (b_code b) a2 -> condition op (val a1) (val a2) = Some true ->
  exists b1 ref, doFold m (set_ins b op t a1 a2) = Ok (b1, ref)
    /\ same_buffer (set_ins b op t a1 a2) b1 /\ (ref = NEXTFOLD \/ ref = DROPFOLD).
Proof.
  intros Hc Hm Hf H1 H2 Hcond. assert (Hop : is_condition op = true) by by destruct op.
  set (b0 := set_ins b op t a1 a2).
  destruct (set_ins_ops b op t a1 a2) as (Eo & _ & E1 & E2). fold b0 in Eo, E1, E2.
  rewrite (operand_u2 _ _ Hc H1) in E1. rewrite (operand_u2 _ _ Hc H2) in E2.
  pose proof (load_two b op t a1 a2 Hc (proj1 H1) (proj1 H2)
                ltac:(by destruct op) ltac:(by destruct op)) as Hl.
  cbv zeta in Hl. fold b0 in Hl. set (b1 := set_fold b0 _) in Hl.
  assert (Hk : op = kEQ \/ op = kNE -> irref_islit a1 = true -> irref_islit a2 = true ->
               kfold_cmp b1 = Ok (b1, DROPFOLD)).
  { intros Hop' L1 L2. unfold kfold_cmp. change (fins b1) with (fins b0). rewrite E1, E2.
    rewrite (literal_operand b1 val a1 Hc Hm H1 L1), (literal_operand b1 val a2 Hc Hm H2 L2).
    cbn [obind]. rewrite Eo. destruct Hop' as [-> | ->]; cbn in Hcond; simplify_eq; by rewrite Hcond. }
  assert (Ht : exists ref, try_rules (rules_of m op) a1 a2 b1 = Ok (b1, ref)
                 /\ (ref = NEXTFOLD \/ ref = DROPFOLD)).
  { destruct op; try done; cbn [rules_of try_rules matches]; eauto;
      (destruct (irref_islit a1 && irref_islit a2) eqn:L; [|eauto]);
      apply andb_prop in L as [L1 L2]; rewrite Hk by auto; cbn [obind negb Z.eqb]; eauto. }
  destruct Ht as (ref & Ht & Href). exists b1, ref. split; [|by split].
  apply (optFold_one_round b op t a1 a2 _ b1 b1); try done; [by destruct op|..].
  - by rewrite (operand_u2 _ _ Hc H1), (operand_u2 _ _ Hc H2).
  - by rewrite (operand_u2 _ _ Hc H1), (operand_u2 _ _ Hc H2).
  - by destruct Href as [-> | ->].
Qed.

Lemma produces_grows b val v a : produces b val v a -> exists val', grown b a.1 val val'.
Proof. intros (val' & ?). exists val'. by split; destruct_and!. Qed.

Lemma emit_condition b val op t a1 a2 :
  code_ok (b_code b) -> models (b_code b) (b_slots b) val ->
  operand (b_code b) a1 -> operand (b_code b) a2 -> condition op (val a1) (val a2) = Some true ->
  returns (fun a => (exists tr, a.2 = Emitted tr) /\ exists val', grown b a.1 val val')
    (emit m b op t a1 a2).
Proof.
  intros Hc Hm H1 H2 Hcond. set (b0 := set_ins b op t a1 a2).
  destruct (set_ins_ops b op t a1 a2) as (Eo & _ & E1 & E2). fold b0 in Eo, E1, E2.
  rewrite (operand_u2 _ _ Hc H1) in E1. rewrite (operand_u2 _ _ Hc H2) in E2.
  assert (Hcse : forall b1, same_buffer b0 b1 ->
    returns (fun a => (exists tr, a.2 = Emitted tr) /\ exists val', grown b a.1 val val')
      (let! '(b, tr) := optCSE b1 in Ok (b, Emitted tr))).
  { intros b1 (Ec & Es & Ei). eapply returns_bind.
    - apply (optCSE_value b1 val 0). split; rewrite ?Ec, ?Es, ?Ei; try done.
      + rewrite Eo. by destruct op.
      + unfold operands. rewrite Eo, E1, E2. by destruct op.
      + unfold meaning. rewrite Eo. by destruct op.
      + intros t'. unfold holds. rewrite Eo, E1, E2, Hcond. by intros [= <-].
    - intros a (v' & Hp & _). destruct (produces_grows _ _ _ _ Hp) as (val' & []).
      rewrite Ec, Es in *. destruct a. split; [by eexists|]. exists val'. by split. }
  unfold emit, optFold. fold b0. rewrite Eo.
  rewrite bool_decide_eq_false_2 by by destruct op.
  replace (Z.land (mode op) IRM_S =? IRM_N) with true by (by destruct op).
  destruct (Flags32.get (b_flags b0) kOptFold) eqn:Hf; cbn [obind].
  2: { cbn [Z.eqb NEXTFOLD]. by apply Hcse. }
  destruct (condition_round b val op t a1 a2 Hc Hm Hf H1 H2 Hcond) as (b1 & ref & Hd & Hs & Href).
  fold b0 in Hd, Hs. rewrite Hd. cbn [obind]. destruct Href as [-> | ->]; [by apply Hcse|].
  destruct Hs as (Ec & Es & _). cbn. split; [by eexists|]. exists val. split; rewrite ?Ec, ?Es; done.
Qed.
End emission.

(** C12: emitting a 64-bit addition, subtraction, multiplication, bitwise
    operation, negation or complement, with all folding and common subexpression elimination, returns a reference
    that has the value of the instruction; every older reference keeps
    its value and the buffer stays well-formed. *)
Theorem emit_arith_sound m b val op a1 a2 v :
  code_ok (b_code b) -> models (b_code b) (b_slots b) val ->
  operand (b_code b) a1 -> (is_unary op = false -> operand (b_code b) a2) ->
  arith op (val a1) (val a2) = Some v ->
  returns (emitted b val v) (emit m b op I64 a1 a2).
Proof. apply emit_arith. Qed.

(** an equality guard on two literals is dropped when it holds and
    reported as failing when it does not. *)
Theorem literal_guard_decided m b val op t a1 a2 :
  code_ok (b_code b) -> models (b_code b) (b_slots b) val ->
  Flags32.get (b_flags b) kOptFold = true -> op = kEQ \/ op = kNE ->
  operand (b_code b) a1 -> irref_islit a1 = true ->
  operand (b_code b) a2 -> irref_islit a2 = true ->
  exists b', b_code b' = b_code b /\
    emit m b op t a1 a2
    = Ok (b', if (if bool_decide (op = kEQ) then val a1 =? val a2 else negb (val a1 =? val a2))
              then Emitted TRef.none else FailingGuard).
Proof. apply emit_guard. Qed.

(** C28: a load of a field of a closure allocated on the trace is
    replaced by the reference last stored in the field. *)
Theorem load_forwarding m b h fr e field t x he :
  code_ok (b_code b) -> Flags32.get (b_flags b) kOptFold = true ->
  valid (b_code b) fr -> ir_o (raw_ir (b_code b) fr) = kFREF ->
  op2 (raw_ir (b_code b) fr) = field + 1 ->
  let n := op1 (raw_ir (b_code b) fr) in
  valid (b_code b) n -> ir_o (raw_ir (b_code b) n) = kNEW -> op2 (raw_ir (b_code b) n) = e ->
  ah_entries (b_heap b) !! Z.to_nat e = Some he -> he_fwdref he = 0 ->
  hd_next (b_heap b) <= hd_size (b_heap b) -> valid (b_code b) x ->
  setField (b_heap b) e field x = Ok h ->
  exists b' tr, emit m (set_heap b h) kFLOAD t fr 0 = Ok (b', Emitted tr) /\ TRef.ref tr = x.
Proof.
  intros Hc Hf Hfr Hfo Hf2 n Hn Hno Hn2 Hhe Hfwd Hsz Hx Hset.
  unfold setField, heap_entry in Hset. rewrite Hhe in Hset. cbn [of_option obind] in Hset.
  unfold AbstractHeap.data_set in Hset. case_match eqn:Hlt; [|done]. injection Hset as <-.
  apply Z.ltb_lt in Hlt. pose proof (ok_bounds _ Hc) as Hb.
  assert (Hu : u2 x = x) by (apply to_u_id; unfold valid, MAX_HEAP_ENTRIES in *; lia).
  match goal with |- context [set_heap b ?h] => set (b1 := set_heap b h) end.
  destruct (emit_load m b1 fr n e field t x he) as (b' & tr & He & _ & Hr); try done.
  - cbn. lia.
  - cbn. by rewrite lookup_insert_eq, Hu.
  - by exists b', tr.
Qed.
