(* ===== verification/Snapshots.v ===== *)
(** * Snapshots of the abstract stack

    [AbstractStack.snapshot] lists the written slots in ascending order;
    [Snapshot_slot] finds them again by binary search.  The search
    compares slot numbers as unsigned 16-bit values, so it is correct for
    the slots from the base of the trace up. *)

From Stdlib Require Import Sorting.Sorted.
From S2P Require Import Prelude Words Objects IR.

(** ** Binary search *)

Definition entry_slot (w : Z) : Z := Z.shiftr w 16.

(** The order on indices. *)
Definition ascending (d : SnapshotData) (lo hi : Z) : Prop :=
  forall i j a b, lo <= i < j -> j <= hi -> d !! Z.to_nat i = Some a -> d !! Z.to_nat j = Some b ->
    entry_slot a < entry_slot b.

Lemma slot_search_spec (d : SnapshotData) n fuel lo hi :
  0 <= lo -> hi < Z.of_nat (length d) -> Z.max 0 (hi - lo + 1) < Z.of_nat fuel -> ascending d lo hi ->
  exists r, slot_search fuel d n lo hi = Ok r /\
    ((exists i w, lo <= i <= hi /\ d !! Z.to_nat i = Some w /\ entry_slot w = n /\ r = u2 w)
     \/ (r = 0 /\ forall i w, lo <= i <= hi -> d !! Z.to_nat i = Some w -> entry_slot w <> n)).
Proof.
  revert lo hi. induction fuel as [|fuel IH]; intros lo hi Hlo Hhi Hf Hs; [lia|].
  cbn [slot_search]. destruct (Z.leb_spec lo hi) as [Hle|Hgt].
  2: { eexists. split; [done|]. right. split; [done|]. intros. lia. }
  set (mid := Z.shiftr (lo + hi) 1).
  assert (Hmid : lo <= mid <= hi).
  { unfold mid. rewrite Z.shiftr_div_pow2 by lia. change (2 ^ 1) with 2.
    Z.to_euclidean_division_equations. lia. }
  assert (exists w, d !! Z.to_nat mid = Some w) as [w Hw] by (apply lookup_lt_is_Some_2; lia).
  rewrite Hw. cbn [of_option obind]. fold (entry_slot w).
  destruct (Z.ltb_spec (entry_slot w) n) as [Hlt|Hge]; [|destruct (Z.ltb_spec n (entry_slot w)) as [Hlt|Hge']].
  - destruct (IH (mid + 1) hi) as (r & E & Hr); [lia..| |].
    { intros i j a b Hi Hj. apply Hs; lia. }
    exists r. split; [done|]. destruct Hr as [(i & x & Hi & Hr)|[-> Hr]]; [left; exists i, x; split; [lia|done]|].
    right. split; [done|]. intros i x Hi Hx. destruct (Z_le_dec i mid) as [Hle'|]; [|apply (Hr i); (done || lia)].
    destruct (Z.eq_dec i mid) as [->|]; [rewrite Hw in Hx; simplify_eq; lia|].
    pose proof (Hs i mid x w ltac:(lia) ltac:(lia) Hx Hw). lia.
  - destruct (IH lo (mid - 1)) as (r & E & Hr); [lia..| |].
    { intros i j a b Hi Hj. apply Hs; lia. }
    exists r. split; [done|]. destruct Hr as [(i & x & Hi & Hr)|[-> Hr]]; [left; exists i, x; split; [lia|done]|].
    right. split; [done|]. intros i x Hi Hx. destruct (Z_le_dec mid i) as [Hle'|]; [|apply (Hr i); (done || lia)].
    destruct (Z.eq_dec i mid) as [->|]; [rewrite Hw in Hx; simplify_eq; lia|].
    pose proof (Hs mid i w x ltac:(lia) ltac:(lia) Hw Hx). lia.
  - eexists. split; [done|]. left. exists mid, w. split; [done|]. split; [done|]. split; [lia|done].
Qed.

(** ** The entries *)

(** [bc << 16 | ref] as an unsigned word: the slot in the upper half is
    read back unsigned by the search and signed by an exit. *)
Definition slot_entry (slot tr : Z) : Z :=
  Z.lor (u4 (Z.shiftl (u4 (i2 (slot - kInitialBase))) 16)) (TRef.ref tr).
Definition signed_slot (w : Z) : Z := Z.shiftr (i4 w) 16.

Lemma slot_entry_value slot tr :
  - 2 ^ 15 <= slot - kInitialBase < 2 ^ 15 ->
  slot_entry slot tr = ((slot - kInitialBase) mod 2 ^ 16) * 2 ^ 16 + TRef.ref tr /\ 0 <= TRef.ref tr < 2 ^ 16.
Proof.
  intros Hk. assert (Hr : 0 <= TRef.ref tr < 2 ^ 16) by (apply to_u_bound; lia). split; [|done].
  unfold slot_entry, i2, u4. rewrite (to_s_id 16) by lia. rewrite (Z.lor_comm (to_u 32 _)).
  set (k := slot - kInitialBase) in *.
  replace (to_u 32 (Z.shiftl (to_u 32 k) 16)) with (Z.shiftl (k mod 2 ^ 16) 16).
  - rewrite shiftl_lor_add by lia. lia.
  - rewrite !Z.shiftl_mul_pow2 by lia. rewrite to_u_mul by lia. unfold to_u.
    change (2 ^ 32) with (2 ^ 16 * 2 ^ 16). by rewrite Z.mul_mod_distr_r by lia.
Qed.
Lemma slot_entry_ref slot tr :
  - 2 ^ 15 <= slot - kInitialBase < 2 ^ 15 -> u2 (slot_entry slot tr) = TRef.ref tr.
Proof.
  intros Hk. destruct (slot_entry_value slot tr Hk) as [-> Hr]. unfold u2, to_u.
  rewrite Z.add_comm, Z.mod_add by lia. by apply Z.mod_small.
Qed.
Lemma entry_slot_entry slot tr :
  0 <= slot - kInitialBase < 2 ^ 15 -> entry_slot (slot_entry slot tr) = slot - kInitialBase.
Proof.
  intros Hk. destruct (slot_entry_value slot tr) as [-> Hr]; [lia|]. unfold entry_slot.
  rewrite Z.mod_small, Z.shiftr_div_pow2 by lia. rewrite Z.div_add_l by lia. rewrite Z.div_small; lia.
Qed.
Lemma signed_slot_entry slot tr :
  - 2 ^ 15 <= slot - kInitialBase < 2 ^ 15 -> signed_slot (slot_entry slot tr) = slot - kInitialBase.
Proof.
  intros Hk. destruct (slot_entry_value slot tr Hk) as [-> Hr]. set (k := slot - kInitialBase) in *.
  unfold signed_slot, i4. replace (to_s 32 _) with (k * 2 ^ 16 + TRef.ref tr).
  - rewrite Z.shiftr_div_pow2, Z.div_add_l, Z.div_small by lia. lia.
  - rewrite <- (to_s_id 32) at 1 by lia. apply to_s_eq. unfold to_u. rewrite (Z.mod_eq k) by lia.
    replace ((k - 2 ^ 16 * (k / 2 ^ 16)) * 2 ^ 16 + TRef.ref tr)
      with (k * 2 ^ 16 + TRef.ref tr + (- (k / 2 ^ 16)) * 2 ^ 32) by ring.
    by rewrite Z.mod_add by done.
Qed.

Section entries.
(** [sl] reads the slot of an entry, for the slots from [lo] up. *)
Context (sl : Z -> Z) (lo : Z).
Hypothesis Hlo : - kInitialBase <= lo.
Hypothesis sl_entry : forall slot tr, lo <= slot - kInitialBase < 2 ^ 15 ->
  sl (slot_entry slot tr) = slot - kInitialBase.

(** A list of entries for slots from [slot] up. *)
Lemma snapshot_entries_spec slots slot :
  kInitialBase + lo <= slot -> slot + Z.of_nat (length slots) <= kInitialBase + 2 ^ 15 ->
  let es := AbstractStack.snapshot_entries slots slot in
  (forall k r, (exists w, w ∈ es /\ sl w = k /\ u2 w = r) <->
     exists i tr, slots !! i = Some tr /\ TRef.isWritten tr = true
                  /\ k = slot + Z.of_nat i - kInitialBase /\ r = TRef.ref tr)
  /\ StronglySorted (fun a b => sl a < sl b) es.
Proof using Hlo sl_entry.
  cbv zeta. revert slot. induction slots as [|tr slots IH]; intros slot Hs Hl; cbn [length] in Hl.
  { cbn. split; [|constructor]. intros k r. split; [intros (w & Hw & _); by apply elem_of_nil in Hw|].
    intros (i & tr & Hi & _). by rewrite lookup_nil in Hi. }
  destruct (IH (slot + 1)) as [IHe IHs]; [lia..|].
  pose proof (sl_entry slot tr ltac:(lia)) as Hk.
  pose proof (slot_entry_ref slot tr ltac:(unfold kInitialBase in *; lia)) as Hu.
  cbn [AbstractStack.snapshot_entries]. split.
  - intros k r. split.
    + intros (w & Hw & <- & <-). apply elem_of_app in Hw as [Hw|Hw].
      * case_match eqn:E; [|by apply elem_of_nil in Hw]. apply list_elem_of_singleton in Hw as ->.
        exists O, tr. fold (slot_entry slot tr). rewrite Hk, Hu. split_and!; (done || lia).
      * destruct (proj1 (IHe (sl w) (u2 w))) as (i & t & Hi & Ht & E & Er); [by exists w|].
        exists (S i), t. split_and!; (done || lia).
    + intros ([|i] & t & Hi & Ht & -> & ->); cbn in Hi.
      * simplify_eq. exists (slot_entry slot t). rewrite Ht. split; [by left|].
        rewrite Hk, Hu. split; (done || lia).
      * destruct (proj2 (IHe (slot + Z.of_nat (S i) - kInitialBase) (TRef.ref t))) as (w & Hw & E & Er).
        { exists i, t. split_and!; (done || lia). }
        exists w. split; [|done]. apply elem_of_app. by right.
  - case_match; [|done]. cbn. constructor; [done|]. apply Forall_forall. intros w Hw.
    fold (slot_entry slot tr). rewrite Hk.
    destruct (proj1 (IHe (sl w) (u2 w))) as (i & t & _ & _ & E & _); [by exists w|]. lia.
Qed.

Lemma StronglySorted_lookup {A} (R : A -> A -> Prop) l i j a b :
  StronglySorted R l -> (i < j)%nat -> l !! i = Some a -> l !! j = Some b -> R a b.
Proof using Type.
  intros Hs. revert i j. induction Hs as [|x l Hs IH Hx]; intros i j Hij Hi Hj; [done|].
  destruct j as [|j]; [lia|]. destruct i as [|i]; cbn in *.
  - simplify_eq. rewrite Forall_forall in Hx. apply Hx. by eapply list_elem_of_lookup_2.
  - apply (IH i j); (done || lia).
Qed.

(** ** Finding a slot *)

(** The reference a snapshot must hold for slot [n]. *)
Definition written_ref (s : AbstractStack) (n : Z) : Z :=
  if (as_low s <=? kInitialBase + n) && (kInitialBase + n <=? as_high s) then
    match as_slots s !! Z.to_nat (kInitialBase + n) with
    | Some tr => if TRef.isWritten tr then TRef.ref tr else 0
    | None => 0
    end
  else 0.

(** The part of the stack a snapshot looks at. *)
Definition snapshot_range (s : AbstractStack) : list Z :=
  take (Z.to_nat (as_high s - as_low s + 1)) (drop (Z.to_nat (as_low s)) (as_slots s)).

Record slots_from (s : AbstractStack) : Prop := {
  sf_length : length (as_slots s) = Z.to_nat kSlots;
  sf_low : kInitialBase + lo <= as_low s <= kSlots;
  sf_high : as_high s < kSlots
}.

Lemma snapshot_range_lookup s i tr :
  slots_from s ->
  snapshot_range s !! i = Some tr <->
  as_slots s !! Z.to_nat (as_low s + Z.of_nat i) = Some tr /\ as_low s + Z.of_nat i <= as_high s.
Proof using Hlo.
  intros [Hl ? ?]. unfold snapshot_range, kInitialBase in *. rewrite lookup_take_Some, lookup_drop.
  replace (Z.to_nat (as_low s) + i)%nat with (Z.to_nat (as_low s + Z.of_nat i)) by lia.
  split; intros [? ?]; (split; [done|lia]).
Qed.

Lemma snapshot_range_length s :
  slots_from s -> as_low s + Z.of_nat (length (snapshot_range s)) <= kSlots.
Proof using Hlo.
  intros [Hl ? ?]. unfold snapshot_range. rewrite length_take, length_drop.
  unfold kSlots, kInitialBase in *. lia.
Qed.

Lemma snapshot_entries_length slots slot :
  (length (AbstractStack.snapshot_entries slots slot) <= length slots)%nat.
Proof using Type.
  revert slot. induction slots as [|tr slots IH]; intros slot; cbn; [done|].
  specialize (IH (slot + 1)). case_match; cbn; lia.
Qed.

(** The entries are exactly the written slots. *)
Lemma written_ref_entries s n :
  slots_from s ->
  let es := AbstractStack.snapshot_entries (snapshot_range s) (as_low s) in
  StronglySorted (fun a b => sl a < sl b) es
  /\ (forall w, w ∈ es -> sl w = n -> written_ref s n = u2 w)
  /\ ((forall w, w ∈ es -> sl w <> n) -> written_ref s n = 0).
Proof using Hlo sl_entry.
  intros Hs es. pose proof (snapshot_range_length s Hs) as Hlen.
  pose proof Hs as [Hl [Hlow Hlow'] Hhigh]. unfold kSlots in *.
  destruct (snapshot_entries_spec (snapshot_range s) (as_low s)) as [He Hsort];
    [lia|unfold kInitialBase; lia|].
  fold es in He, Hsort. split; [done|]. unfold written_ref. split.
  - intros w Hw Hn. destruct (proj1 (He n (u2 w))) as (j & tr & Hj & Ht & E & Er); [by exists w|].
    apply snapshot_range_lookup in Hj as [Hj Hle]; [|done].
    replace (kInitialBase + n) with (as_low s + Z.of_nat j) by lia.
    rewrite Hj, Ht, Er. by rewrite !(proj2 (Z.leb_le _ _)) by lia.
  - intros Hno. destruct (_ && _) eqn:Hb; [|done].
    apply andb_prop in Hb as [Hb1 Hb2]. apply Z.leb_le in Hb1, Hb2.
    destruct (as_slots s !! Z.to_nat (kInitialBase + n)) as [tr|] eqn:Htr; [|done].
    destruct (TRef.isWritten tr) eqn:Ht; [exfalso|done].
    destruct (proj2 (He n (TRef.ref tr))) as (w & Hw & Hn & _); [|by apply (Hno w)].
    exists (Z.to_nat (kInitialBase + n - as_low s)), tr.
    unfold kInitialBase in *. split; [|split_and!; (done || lia)].
    apply snapshot_range_lookup; [done|]. rewrite Z2Nat.id by lia.
    by replace (as_low s + _) with (250 + n) by lia.
Qed.
End entries.

(** The slots of the frame the trace started in and above it. *)
Abbreviation above_base := (slots_from 0).
Lemma frame_entries s n :
  above_base s ->
  let es := AbstractStack.snapshot_entries (snapshot_range s) (as_low s) in
  StronglySorted (fun a b => entry_slot a < entry_slot b) es
  /\ (forall w, w ∈ es -> entry_slot w = n -> written_ref s n = u2 w)
  /\ ((forall w, w ∈ es -> entry_slot w <> n) -> written_ref s n = 0).
Proof. apply (written_ref_entries _ 0 ltac:(done) entry_slot_entry). Qed.

(** All slots. *)
Abbreviation any_slots := (slots_from (- kInitialBase)).
Lemma all_entries s n :
  any_slots s ->
  let es := AbstractStack.snapshot_entries (snapshot_range s) (as_low s) in
  StronglySorted (fun a b => signed_slot a < signed_slot b) es
  /\ (forall w, w ∈ es -> signed_slot w = n -> written_ref s n = u2 w)
  /\ ((forall w, w ∈ es -> signed_slot w <> n) -> written_ref s n = 0).
Proof.
  apply (written_ref_entries _ (- kInitialBase)); [done|]. intros. apply signed_slot_entry.
  unfold kInitialBase in *. lia.
Qed.

Lemma snapshot_finds s d ref pc n :
  above_base s -> Z.of_nat (length d) + kSlots < 2 ^ 16 ->
  let '(sn, d') := AbstractStack.snapshot s d ref pc in
  Snapshot_slot sn n d' = Ok (written_ref s n).
Proof.
  intros Hs Hd. unfold AbstractStack.snapshot. fold (snapshot_range s).
  pose proof (snapshot_range_length 0 ltac:(done) s Hs) as Hlen. pose proof Hs as [Hl [Hlow Hlow'] Hhigh].
  destruct (frame_entries s n Hs) as (Hsort & Hfound & Hnone).
  set (es := AbstractStack.snapshot_entries (snapshot_range s) (as_low s)) in *.
  assert (Hes : (length es <= length (snapshot_range s))%nat) by apply snapshot_entries_length.
  unfold Snapshot_slot, kInitialBase, kSlots in *. cbn [sn_entries sn_mapofs].
  unfold u1, u2. rewrite !to_u_id by lia. fold u2.
  assert (Hlk : forall i w, Z.of_nat (length d) <= i -> (d ++ es) !! Z.to_nat i = Some w ->
            es !! (Z.to_nat i - length d)%nat = Some w).
  { intros i w Hi Hw. rewrite lookup_app_r in Hw by lia. done. }
  destruct (slot_search_spec (d ++ es) n (S (Z.to_nat (Z.of_nat (length es))))
              (Z.of_nat (length d)) (Z.of_nat (length d) + Z.of_nat (length es) - 1))
    as (r & -> & Hr); [lia|rewrite length_app; lia|lia| |].
  { intros i j a b Hi Hj Ha Hb. apply Hlk in Ha, Hb; [|lia..].
    refine (StronglySorted_lookup _ es _ _ a b Hsort _ Ha Hb). lia. }
  f_equal. symmetry. destruct Hr as [(i & w & Hi & Hw & Hn & ->)|[-> Hno]].
  - apply Hfound; [|done]. eapply list_elem_of_lookup_2, Hlk; [|done]. lia.
  - apply Hnone. intros w Hw Hn.
    apply list_elem_of_lookup in Hw as [j Hj]. pose proof (lookup_lt_Some _ _ _ Hj).
    apply (Hno (Z.of_nat (length d + j)) w); [lia| |done].
    rewrite Nat2Z.id. etransitivity; [apply (lookup_app_r d es); lia|].
    by rewrite Nat.add_sub_swap, Nat.sub_diag by lia.
Qed.

(** C21: a snapshot holds for every slot of the frame and above it the
    reference last written to the slot, and 0 for slots not written,
    provided that no slot below the base has been written ([above_base]);
    [snapshot_slot_below_base] is what happens otherwise. *)
Theorem snapshot_roundtrip s d ref pc n :
  above_base s -> Z.of_nat (length d) + kSlots < 2 ^ 16 ->
  let '(sn, d') := AbstractStack.snapshot s d ref pc in
  Snapshot_slot sn n d' = Ok (written_ref s n).
Proof. apply snapshot_finds. Qed.
