(* ===== verification/CallStack.v ===== *)
(** * False loop filtering: the abstract call stack and the branch
    target buffer ([ir.hh], [ir.cc])

    The recorder keeps the call stacks of all possible loop entries in
    one tree whose nodes point to their callers.  The file models
    [CallStack] and [BranchTargetBuffer] and proves that the tree
    implements stacks of return addresses whose bottom is not known yet. *)

From S2P Require Import Prelude Words Hotness.

Definition STACK_NO_REF : Z := 0xffff.
Definition EXIT_FAILURE : Z := 1.

Record CallStackNode := mkNode { nd_parent : Z; nd_address : Z }.

(** The nodes [buf_[0 .. next_)] and the allocated size. *)
Record CallStack := mkCS { cs_nodes : list CallStackNode; cs_size : Z; cs_curr : Z }.

Module CallStack.
Definition next (s : CallStack) : Z := Z.of_nat (length (cs_nodes s)).
Definition node (s : CallStack) (n : Z) : outcome CallStackNode :=
  assert! (n <? next s) in of_option WildAccess (cs_nodes s !! Z.to_nat n).
Definition parent (s : CallStack) (n : Z) : outcome Z := let! d := node s n in Ok (nd_parent d).
Definition address (s : CallStack) (n : Z) : outcome Z := let! d := node s n in Ok (nd_address d).
Definition set_node (s : CallStack) (n : Z) (d : CallStackNode) : CallStack :=
  mkCS (<[Z.to_nat n := d]> (cs_nodes s)) (cs_size s) (cs_curr s).
Definition setParent (s : CallStack) (n p : Z) : outcome CallStack :=
  let! d := node s n in Ok (set_node s n (mkNode (u2 p) (nd_address d))).
Definition setAddress (s : CallStack) (n r : Z) : outcome CallStack :=
  let! d := node s n in Ok (set_node s n (mkNode (nd_parent d) (u2 r))).
Definition set_curr (s : CallStack) (n : Z) : CallStack := mkCS (cs_nodes s) (cs_size s) n.

Definition growBuffer (size : Z) : outcome Z :=
  if 1024 <? size then Err (Exited EXIT_FAILURE)
  else let size := Z.shiftl size 1 in Ok (if size <? 32 then 32 else size).

Definition createNode (s : CallStack) (p addr : Z) : outcome (CallStack * Z) :=
  let! size := (if cs_size s <=? next s then growBuffer (cs_size s) else Ok (cs_size s)) in
  Ok (mkCS (cs_nodes s ++ [mkNode (u2 p) (u2 addr)]) size (cs_curr s), next s).

Definition reset : outcome CallStack :=
  let! '(s, n) := createNode (mkCS [] 0 0) STACK_NO_REF 0 in Ok (set_curr s n).

Definition returnTo (s : CallStack) (ret_addr : Z) : outcome CallStack :=
  let! p := parent s (cs_curr s) in
  let! s :=
    (if p =? STACK_NO_REF then
       let! s := setAddress s (cs_curr s) ret_addr in
       let! '(s, newp) := createNode s STACK_NO_REF 0 in
       setParent s (cs_curr s) newp
     else Ok s) in
  let! a := address s (cs_curr s) in
  assert! (a =? ret_addr) in
  let! p := parent s (cs_curr s) in
  Ok (set_curr s p).

Definition pushFrame (s : CallStack) (ret_addr : Z) : outcome CallStack :=
  let! '(s, n) := createNode s (cs_curr s) ret_addr in Ok (set_curr s n).

Fixpoint depth_loop (fuel : nat) (s : CallStack) (ref d : Z) : outcome Z :=
  match fuel with
  | O => Err OutOfFuel
  | S fuel' =>
      if ref =? STACK_NO_REF then Ok d
      else let! p := parent s ref in depth_loop fuel' s p (d + 1)
  end.
Definition depth (s : CallStack) (ref : Z) : outcome Z :=
  depth_loop (S (length (cs_nodes s))) s ref 0.

Fixpoint compare_loop (fuel : nat) (s : CallStack) (n1 n2 d : Z) : outcome Z :=
  match fuel with
  | O => Err OutOfFuel
  | S fuel' =>
      if n1 =? n2 then Ok (-1)
      else if (n1 =? STACK_NO_REF) || (n2 =? STACK_NO_REF) then Ok d
      else
        let! a1 := address s n1 in
        let! a2 := address s n2 in
        if negb (a1 =? a2) then Ok d
        else
          let! p1 := parent s n1 in
          let! p2 := parent s n2 in
          compare_loop fuel' s p1 p2 (d + 1)
  end.
Definition compare (s : CallStack) (n1 n2 : Z) : outcome Z :=
  compare_loop (S (length (cs_nodes s))) s n1 n2 0.
End CallStack.

(** ** The branch target buffer *)

Record BTEntry := mkBT { bt_addr : Z; bt_stack : Z }.
Record BranchTargetBuffer := mkBTB { btb_entries : list BTEntry; btb_size : Z }.

Module BTB.
Definition growBuffer (size : Z) : outcome Z :=
  if 256 <? size then Err (Exited EXIT_FAILURE)
  else let size := Z.shiftl size 1 in Ok (if size <? 16 then 16 else size).

Definition emit (b : BranchTargetBuffer) (s : CallStack) (pc : Z) : outcome BranchTargetBuffer :=
  let next := Z.of_nat (length (btb_entries b)) in
  let! size := (if btb_size b <=? next then growBuffer (btb_size b) else Ok (btb_size b)) in
  Ok (mkBTB (btb_entries b ++ [mkBT pc (u2 (cs_curr s))]) size).

Definition reset (s : CallStack) (entryPc : Z) : outcome BranchTargetBuffer :=
  assert! (cs_curr s =? 0) in emit (mkBTB [] 0) s entryPc.

(** The depth of the shallowest stack among [es], at most [m]. *)
Fixpoint min_depth (s : CallStack) (es : list BTEntry) (m : Z) : outcome Z :=
  match es with
  | [] => Ok m
  | e :: es' => let! d := CallStack.depth s (bt_stack e) in min_depth s es' (if d <? m then d else m)
  end.

(** The loop of [isTrueLoop] from entry [i] on. *)
Fixpoint true_loop (s : CallStack) (pc : Z) (es : list BTEntry) (i : Z) : outcome Z :=
  match es with
  | [] => Ok (-1)
  | e :: es' =>
      if bt_addr e =? pc then
        let! n := CallStack.compare s (bt_stack e) (cs_curr s) in
        if n =? -1 then Ok i
        else
          let! k1 := CallStack.depth s (bt_stack e) in
          let! k2 := CallStack.depth s (cs_curr s) in
          let! m := min_depth s es k1 in
          let k := i4 (Z.min (u4 (k1 - m)) (u4 (k2 - m))) in
          if k <=? n then Ok i else true_loop s pc es' (i + 1)
      else true_loop s pc es' (i + 1)
  end.
Definition isTrueLoop (b : BranchTargetBuffer) (s : CallStack) (pc : Z) : outcome Z :=
  true_loop s pc (btb_entries b) 0.

(** [resetDominatedCounters]: a target below the one before it gets its
    counter back. *)
Fixpoint reset_dominated (es : list BTEntry) (tgt : Z) (h : HotCounters.t) : HotCounters.t :=
  match es with
  | [] => h
  | e :: es' =>
      reset_dominated es' (bt_addr e)
        (if bt_addr e <? tgt then HotCounters.reset h (bt_addr e) else h)
  end.
Definition resetDominatedCounters (b : BranchTargetBuffer) (h : HotCounters.t) : HotCounters.t :=
  reset_dominated (btb_entries b) 0 h.
End BTB.

(** ** Stacks of return addresses

    [path s n l]: the node [n] stands for the stack [l], top first, on an
    unknown bottom. *)
Inductive path (s : CallStack) : Z -> list Z -> Prop :=
| path_bottom n d :
    0 <= n -> cs_nodes s !! Z.to_nat n = Some d -> nd_parent d = STACK_NO_REF -> path s n []
| path_frame n d l :
    0 <= n -> cs_nodes s !! Z.to_nat n = Some d -> nd_parent d <> STACK_NO_REF ->
    path s (nd_parent d) l -> path s n (nd_address d :: l).

Record stack_ok (s : CallStack) : Prop := {
  so_size : CallStack.next s <= cs_size s <= 2048;
  so_curr : 0 <= cs_curr s < CallStack.next s;
  so_path : forall n, 0 <= n < CallStack.next s -> exists l, path s n l;
  so_root : forall n m d e, cs_nodes s !! n = Some d -> cs_nodes s !! m = Some e ->
              nd_parent d = STACK_NO_REF -> nd_parent e = STACK_NO_REF -> n = m;
  so_root_address : forall n d, cs_nodes s !! n = Some d -> nd_parent d = STACK_NO_REF ->
              nd_address d = 0;
  so_address : forall n d, cs_nodes s !! n = Some d -> nd_parent d <> STACK_NO_REF ->
              nd_address d <> 0
}.

Lemma path_range s n l : path s n l -> 0 <= n < CallStack.next s.
Proof.
  assert (H : forall d, 0 <= n -> cs_nodes s !! Z.to_nat n = Some d -> 0 <= n < CallStack.next s).
  { intros d Hn Hd. apply lookup_lt_Some in Hd. unfold CallStack.next. lia. }
  destruct 1; eauto.
Qed.

Lemma path_inv s n l :
  path s n l ->
  exists d, cs_nodes s !! Z.to_nat n = Some d /\ CallStack.node s n = Ok d /\
    ((l = [] /\ nd_parent d = STACK_NO_REF)
     \/ exists l', l = nd_address d :: l' /\ nd_parent d <> STACK_NO_REF /\ path s (nd_parent d) l').
Proof.
  intros Hp. pose proof (path_range _ _ _ Hp) as Hr.
  assert (H : forall d, cs_nodes s !! Z.to_nat n = Some d -> CallStack.node s n = Ok d).
  { intros d Hd. unfold CallStack.node. rewrite (proj2 (Z.ltb_lt _ _)), Hd by lia. done. }
  destruct Hp as [n d ? Hd ?|n d l ? Hd ? ?]; exists d; eauto 10.
Qed.

Lemma path_fun s n l l' : path s n l -> path s n l' -> l = l'.
Proof.
  intros H. revert l'. induction H as [n d ? Hd Hp|n d l ? Hd Hp _ IH]; intros l' H';
    destruct (path_inv _ _ _ H') as (d' & Hd' & _ & Hc); simplify_eq;
    destruct Hc as [[-> ?]|(l'' & -> & ? & ?)]; try done. f_equal. auto.
Qed.

(** A stack is not deeper than the tree has nodes. *)
Lemma path_nodes s n l :
  path s n l -> exists ns, length ns = S (length l) /\ NoDup ns
    /\ Forall (fun m => exists k, path s m k /\ (length k <= length l)%nat) ns.
Proof.
  induction 1 as [n d ? Hd Hp|n d l ? Hd Hp Hpath (ns & Hl & Hnd & Hall)].
  - exists [n]. split; [done|]. split; [apply NoDup_singleton|].
    apply Forall_singleton. exists []. split; [by eapply path_bottom|done].
  - exists (n :: ns). assert (Hn : path s n (nd_address d :: l)) by by eapply path_frame.
    split; [cbn; lia|]. split.
    + apply NoDup_cons. split; [|done]. intros Hin. rewrite Forall_forall in Hall.
      destruct (Hall n Hin) as (k & Hk & Hlen). rewrite (path_fun _ _ _ _ Hk Hn) in Hlen. cbn in Hlen. lia.
    + constructor; [by exists (nd_address d :: l)|].
      eapply Forall_impl; [done|]. intros m (k & Hk & Hlen). exists k. split; [done|]. cbn. lia.
Qed.
Lemma path_length s n l : path s n l -> (length l < length (cs_nodes s))%nat.
Proof.
  intros H. destruct (path_nodes _ _ _ H) as (ns & Hl & Hnd & Hall).
  assert (Hsub : map Z.to_nat ns ⊆ seq 0 (length (cs_nodes s))).
  { intros x Hx. apply list_elem_of_fmap in Hx as (m & -> & Hm). rewrite Forall_forall in Hall.
    destruct (Hall m Hm) as (k & Hk & _). apply path_range in Hk. unfold CallStack.next in Hk.
    apply elem_of_seq. lia. }
  assert (Hnd' : NoDup (map Z.to_nat ns)).
  { apply NoDup_fmap_2_strong; [|done]. intros x y Hx Hy. rewrite Forall_forall in Hall.
    destruct (Hall x Hx) as (k & Hk & _), (Hall y Hy) as (k' & Hk' & _).
    apply path_range in Hk, Hk'. lia. }
  pose proof (submseteq_length _ _ (NoDup_submseteq _ _ Hnd' Hsub)) as Hle.
  rewrite length_map, length_seq in Hle. lia.
Qed.

(** ** Depth and comparison *)

Lemma node_parent s n d : CallStack.node s n = Ok d -> CallStack.parent s n = Ok (nd_parent d).
Proof. unfold CallStack.parent. by intros ->. Qed.
Lemma node_address s n d : CallStack.node s n = Ok d -> CallStack.address s n = Ok (nd_address d).
Proof. unfold CallStack.address. by intros ->. Qed.

Lemma path_ref s n l : stack_ok s -> path s n l -> (n =? STACK_NO_REF) = false.
Proof.
  intros [Hs _ _ _ _ _] Hp. apply path_range in Hp. apply Z.eqb_neq. unfold STACK_NO_REF. lia.
Qed.

Lemma depth_loop_spec s n l fuel d :
  stack_ok s -> path s n l -> (S (length l) < fuel)%nat ->
  CallStack.depth_loop fuel s n d = Ok (d + Z.of_nat (S (length l))).
Proof.
  intros Hs Hp. revert fuel d. induction Hp as [n e Hn Hd Hb|n e l Hn Hd Hb Hp IH]; intros fuel d Hf;
    (destruct fuel as [|fuel]; [cbn in Hf; lia|]); cbn [CallStack.depth_loop].
  - assert (Hp : path s n []) by by eapply path_bottom.
    destruct (path_inv _ _ _ Hp) as (e' & He & Hnode & _).
    rewrite (path_ref s n [] Hs Hp), (node_parent _ _ _ Hnode). cbn [obind]. simplify_eq.
    rewrite Hb. destruct fuel; [cbn in Hf; lia|]. done.
  - assert (Hp' : path s n (nd_address e :: l)) by by eapply path_frame.
    destruct (path_inv _ _ _ Hp') as (e' & He & Hnode & _).
    rewrite (path_ref s n _ Hs Hp'), (node_parent _ _ _ Hnode). cbn [obind]. simplify_eq.
    rewrite IH by (cbn in Hf; lia). cbn [length]. f_equal. lia.
Qed.

Lemma depth_spec s n l :
  stack_ok s -> path s n l -> CallStack.depth s n = Ok (Z.of_nat (S (length l))).
Proof.
  intros Hs Hp. unfold CallStack.depth. rewrite (depth_loop_spec s n l) by
    (done || (pose proof (path_length _ _ _ Hp); lia)). f_equal.
Qed.

(** The first position where two stacks differ; a stack that ends
    differs from one that goes on. *)
Fixpoint first_diff (l1 l2 : list Z) : option nat :=
  match l1, l2 with
  | [], [] => None
  | a :: l1', b :: l2' => if decide (a = b) then S <$> first_diff l1' l2' else Some O
  | _, _ => Some O
  end.
Definition diff_result (o : option nat) (d : Z) : Z :=
  match o with Some k => d + Z.of_nat k | None => -1 end.

Lemma first_diff_refl l : first_diff l l = None.
Proof. induction l; cbn; [done|]. by rewrite decide_True, IHl. Qed.
Lemma first_diff_none l1 l2 : first_diff l1 l2 = None <-> l1 = l2.
Proof.
  split; [|intros ->; apply first_diff_refl]. revert l2.
  induction l1 as [|a l1 IH]; intros [|b l2]; cbn; try done. case_decide; [|done].
  intros E. apply fmap_None in E. f_equal; auto.
Qed.
Lemma first_diff_take l1 l2 k n :
  first_diff l1 l2 = Some n -> (k <= n)%nat -> take k l1 = take k l2.
Proof.
  revert l2 k n. induction l1 as [|a l1 IH]; intros [|b l2] k n; cbn; intros E Hk; simplify_eq.
  - by replace k with O by lia.
  - by replace k with O by lia.
  - case_decide; [|simplify_eq; by replace k with O by lia].
    apply fmap_Some in E as (n' & E & ->). subst. destruct k; cbn; [done|]. f_equal.
    apply (IH _ _ n'); [done|lia].
Qed.

Lemma compare_loop_spec s n1 l1 n2 l2 fuel d :
  stack_ok s -> path s n1 l1 -> path s n2 l2 ->
  (S (length l1) < fuel)%nat -> (S (length l2) < fuel)%nat ->
  CallStack.compare_loop fuel s n1 n2 d = Ok (diff_result (first_diff l1 l2) d).
Proof.
  intros Hs H1. revert n2 l2 fuel d.
  induction H1 as [n1 d1 Hn1 Hd1 Hb1|n1 d1 l1 Hn1 Hd1 Hb1 H1 IH]; intros n2 l2 fuel d H2 Hf1 Hf2.
  all: destruct fuel as [|fuel]; [cbn in *; lia|]; cbn [CallStack.compare_loop].
  all: pose proof (path_ref s n2 l2 Hs H2) as Hr2; destruct (path_inv _ _ _ H2) as (d2 & Hd2 & Hnode2 & Hc).
  - assert (H1 : path s n1 []) by by eapply path_bottom. pose proof (path_ref s n1 _ Hs H1) as Hr1.
    destruct (path_inv _ _ _ H1) as (d1' & Hd1' & Hnode1 & _). simplify_eq.
    destruct (Z.eqb_spec n1 n2) as [->|Hne].
    { destruct Hc as [[-> ?]|(? & -> & ? & ?)]; [done|]. simplify_eq. }
    rewrite Hr1, Hr2. cbn [orb]. rewrite (node_address _ _ _ Hnode1), (node_address _ _ _ Hnode2).
    cbn [obind]. destruct Hc as [[-> Hb2]|(l2' & -> & Hb2 & _)].
    + exfalso. apply Hne. pose proof (so_root _ Hs _ _ _ _ Hd1 Hd2 Hb1 Hb2).
      apply path_range in H2. lia.
    + rewrite (so_root_address _ Hs _ _ Hd1 Hb1).
      rewrite (proj2 (Z.eqb_neq 0 (nd_address d2))) by
        (intros E; by apply (so_address _ Hs _ _ Hd2 Hb2)).
      cbn. f_equal. lia.
  - assert (H1' : path s n1 (nd_address d1 :: l1)) by by eapply path_frame.
    pose proof (path_ref s n1 _ Hs H1') as Hr1.
    destruct (path_inv _ _ _ H1') as (d1' & Hd1' & Hnode1 & _). simplify_eq.
    destruct (Z.eqb_spec n1 n2) as [->|Hne].
    { by rewrite (path_fun _ _ _ _ H2 H1'), first_diff_refl. }
    rewrite Hr1, Hr2. cbn [orb]. rewrite (node_address _ _ _ Hnode1), (node_address _ _ _ Hnode2).
    cbn [obind]. destruct Hc as [[-> Hb2]|(l2' & -> & Hb2 & H2')].
    + rewrite (so_root_address _ Hs _ _ Hd2 Hb2).
      rewrite (proj2 (Z.eqb_neq (nd_address d1) 0)) by (by apply (so_address _ Hs _ _ Hd1)).
      cbn. f_equal. lia.
    + cbn [first_diff]. case_decide as E.
      2: { rewrite (proj2 (Z.eqb_neq _ _) E). cbn. f_equal. lia. }
      rewrite E, Z.eqb_refl. cbn [negb].
      rewrite (node_parent _ _ _ Hnode1), (node_parent _ _ _ Hnode2). cbn [obind].
      rewrite (IH _ l2') by (done || (cbn in *; lia)). f_equal.
      destruct (first_diff l1 l2'); cbn; lia.
Qed.

Lemma compare_spec s n1 l1 n2 l2 :
  stack_ok s -> path s n1 l1 -> path s n2 l2 ->
  CallStack.compare s n1 n2 = Ok (diff_result (first_diff l1 l2) 0).
Proof.
  intros Hs H1 H2. pose proof (path_length _ _ _ H1). pose proof (path_length _ _ _ H2).
  apply compare_loop_spec; (done || lia).
Qed.

(** ** Pushing and returning *)

Lemma path_ext s s' n l :
  (forall i d, cs_nodes s !! i = Some d -> cs_nodes s' !! i = Some d) -> path s n l -> path s' n l.
Proof.
  intros He. induction 1 as [n d ? Hd Hp|n d l ? Hd Hp _ IH];
    [eapply path_bottom|eapply path_frame]; eauto.
Qed.

(** A new node, or the process exits: there are 2048 nodes at most. *)
Definition exits_or {A} (P : A -> Prop) (m : outcome A) : Prop :=
  match m with Ok a => P a | Err e => e = Exited EXIT_FAILURE end.
Lemma exits_or_bind {A B} (P : A -> Prop) (Q : B -> Prop) m k :
  exits_or P m -> (forall a, P a -> exits_or Q (k a)) -> exits_or Q (obind m k).
Proof. destruct m; cbn; auto. Qed.

Lemma createNode_spec s p a :
  CallStack.next s <= cs_size s <= 2048 ->
  exits_or (fun '(s', n) => n = CallStack.next s /\ cs_curr s' = cs_curr s
      /\ cs_nodes s' = cs_nodes s ++ [mkNode (u2 p) (u2 a)]
      /\ CallStack.next s' = CallStack.next s + 1 /\ CallStack.next s' <= cs_size s' <= 2048)
    (CallStack.createNode s p a).
Proof.
  intros Hs. unfold CallStack.createNode.
  assert (Hn : forall size, CallStack.next (mkCS (cs_nodes s ++ [mkNode (u2 p) (u2 a)]) size (cs_curr s))
                  = CallStack.next s + 1).
  { intros. unfold CallStack.next. cbn. rewrite length_app. cbn. lia. }
  assert (Hpos : 0 <= CallStack.next s) by (unfold CallStack.next; lia).
  eapply (exits_or_bind (fun size => CallStack.next s + 1 <= size <= 2048)).
  2: { intros size Hsize. cbn [exits_or]. rewrite Hn. cbn. split_and!; (done || lia). }
  destruct (Z.leb_spec (cs_size s) (CallStack.next s)); cbn [exits_or]; [|lia].
  unfold CallStack.growBuffer. destruct (Z.ltb_spec 1024 (cs_size s)); cbn [exits_or]; [done|].
  rewrite Z.shiftl_mul_pow2 by lia. destruct (Z.ltb_spec (cs_size s * 2 ^ 1) 32); lia.
Qed.

Lemma node_lookup s n d :
  0 <= n -> cs_nodes s !! Z.to_nat n = Some d -> CallStack.node s n = Ok d.
Proof.
  intros Hn Hd. unfold CallStack.node. pose proof (lookup_lt_Some _ _ _ Hd).
  unfold CallStack.next. rewrite (proj2 (Z.ltb_lt _ _)), Hd by lia. done.
Qed.

Lemma u2_next s : stack_ok s -> u2 (CallStack.next s) = CallStack.next s.
Proof. intros [Hs _ _ _ _ _]. apply to_u_id. unfold CallStack.next in *. lia. Qed.

(** Looking up a node behind the old ones. *)
Lemma snoc_lookup {A} (l : list A) x i y :
  (l ++ [x]) !! i = Some y -> l !! i = Some y \/ (i = length l /\ y = x).
Proof.
  intros H. apply lookup_app_Some in H as [H|[Hi H]]; [by left|right].
  apply list_lookup_singleton_Some in H as [? ->]. split; [lia|done].
Qed.

Lemma pushFrame_spec s l a :
  stack_ok s -> path s (cs_curr s) l -> 0 < a < 2 ^ 16 ->
  exits_or (fun s' => stack_ok s' /\ path s' (cs_curr s') (a :: l)
              /\ forall n k, path s n k -> path s' n k) (CallStack.pushFrame s a).
Proof.
  intros Hs Hl Ha. unfold CallStack.pushFrame. pose proof Hs as [Hsize Hcurr Hpath Hroot Hra Hadr].
  eapply exits_or_bind; [by apply createNode_spec|].
  intros [s1 n] (-> & Hc & Hn & Hnx & Hs1). cbn [exits_or].
  assert (Ea : u2 a = a) by (apply to_u_id; lia).
  assert (Ec : u2 (cs_curr s) = cs_curr s) by (apply to_u_id; lia). rewrite Ea, Ec in Hn.
  set (s' := CallStack.set_curr s1 (CallStack.next s)).
  assert (Hext : forall m k, path s m k -> path s' m k).
  { intros m k. apply path_ext. intros i d Hd. cbn. rewrite Hn. by apply lookup_app_l_Some. }
  assert (Hnew : cs_nodes s' !! Z.to_nat (CallStack.next s) = Some (mkNode (cs_curr s) a)).
  { cbn. rewrite Hn. unfold CallStack.next. rewrite Nat2Z.id. by apply list_lookup_middle. }
  assert (Hfr : path s' (CallStack.next s) (a :: l)).
  { eapply path_frame in Hnew; [done|unfold CallStack.next; lia| |by apply Hext].
    cbn. unfold STACK_NO_REF. lia. }
  split; [|done]. split; cbn [cs_curr cs_size s' CallStack.set_curr cs_nodes].
  - done.
  - change (CallStack.next s') with (CallStack.next s1). unfold CallStack.next in *. lia.
  - intros m Hm. change (CallStack.next s') with (CallStack.next s1) in Hm.
    destruct (Z.eq_dec m (CallStack.next s)) as [->|]; [by eexists|].
    destruct (Hpath m) as [k Hk]; [lia|]. exists k. by apply Hext.
  - intros i j d e. rewrite Hn. intros Hd He Hpd Hpe.
    apply snoc_lookup in Hd as [Hd|[-> ->]], He as [He|[-> ->]]; try done;
      [by apply (Hroot i j d e)|cbn in *; unfold STACK_NO_REF in *; lia..].
  - intros i d. rewrite Hn. intros Hd Hpd.
    apply snoc_lookup in Hd as [Hd|[-> ->]]; [by eapply Hra|cbn in *; unfold STACK_NO_REF in *; lia].
  - intros i d. rewrite Hn. intros Hd Hpd.
    apply snoc_lookup in Hd as [Hd|[-> ->]]; [by eapply Hadr|cbn; lia].
Qed.

Lemma set_curr_ok s n :
  stack_ok s -> 0 <= n < CallStack.next s -> stack_ok (CallStack.set_curr s n).
Proof.
  intros [Hsize Hcurr Hpath Hroot Hra Hadr] Hn. split; try done.
  intros m Hm. destruct (Hpath m Hm) as [k Hk]. exists k. by apply (path_ext s).
Qed.

(** Returning from a frame the tree knows. *)
Lemma returnTo_known s b l a :
  stack_ok s -> path s (cs_curr s) (b :: l) ->
  if a =? b
  then exists s', CallStack.returnTo s a = Ok s' /\ stack_ok s' /\ path s' (cs_curr s') l
         /\ cs_nodes s' = cs_nodes s
  else CallStack.returnTo s a = Err AssertFailed.
Proof.
  intros Hs Hp. destruct (path_inv _ _ _ Hp) as (d & Hd & Hnode & Hc).
  destruct Hc as [[? _]|(l' & E & Hpd & Hl)]; [done|]. simplify_eq.
  unfold CallStack.returnTo. rewrite (node_parent _ _ _ Hnode). cbn [obind].
  rewrite (proj2 (Z.eqb_neq _ _) Hpd). cbn [obind]. rewrite (node_address _ _ _ Hnode). cbn [obind].
  rewrite (Z.eqb_sym (nd_address d) a). destruct (Z.eqb_spec a (nd_address d)); [|done].
  rewrite (node_parent _ _ _ Hnode). cbn [obind]. eexists. split; [done|].
  split; [apply set_curr_ok; [done|by eapply path_range]|]. split; [|done]. cbn.
  by apply (path_ext s).
Qed.

(** The tree with the bottom pushed down by one frame. *)
Definition learn (s : CallStack) (a size : Z) : CallStack :=
  mkCS (<[Z.to_nat (cs_curr s) := mkNode (CallStack.next s) a]> (cs_nodes s)
          ++ [mkNode STACK_NO_REF 0]) size (CallStack.next s).

Lemma learn_lookup s a size i d :
  stack_ok s ->
  cs_nodes (learn s a size) !! i = Some d <->
  (i = Z.to_nat (cs_curr s) /\ d = mkNode (CallStack.next s) a)
  \/ (i <> Z.to_nat (cs_curr s) /\ cs_nodes s !! i = Some d)
  \/ (i = length (cs_nodes s) /\ d = mkNode STACK_NO_REF 0).
Proof.
  intros [_ Hcurr _ _ _ _]. unfold CallStack.next in Hcurr. cbn. split.
  - intros H. apply snoc_lookup in H as [H|[-> ->]]; [|right; right; by rewrite length_insert].
    destruct (decide (i = Z.to_nat (cs_curr s))) as [->|Hne].
    + rewrite list_lookup_insert_eq in H by lia. simplify_eq. by left.
    + rewrite list_lookup_insert_ne in H by done. auto.
  - intros [[-> ->]|[[Hne Hd]|[-> ->]]].
    + apply lookup_app_l_Some, list_lookup_insert_eq. lia.
    + apply lookup_app_l_Some. by rewrite list_lookup_insert_ne.
    + apply list_lookup_middle. by rewrite length_insert.
Qed.

Lemma learn_ok s a size :
  stack_ok s -> path s (cs_curr s) [] -> 0 < a < 2 ^ 16 -> CallStack.next s + 1 <= size <= 2048 ->
  stack_ok (learn s a size) /\ path (learn s a size) (cs_curr (learn s a size)) []
  /\ forall n k, path s n k -> path (learn s a size) n (k ++ [a]).
Proof.
  intros Hs Hp Ha Hsize. pose proof (fun i d => learn_lookup s a size i d Hs) as Hlk.
  pose proof Hs as [Hs1 Hcurr Hpath Hroot Hra Hadr].
  destruct (path_inv _ _ _ Hp) as (c & Hc & _ & [[_ Hpc]|(? & ? & _)]); [|done].
  assert (Hnx : CallStack.next s = Z.of_nat (length (cs_nodes s))) by done.
  assert (Hbot : path (learn s a size) (CallStack.next s) []).
  { eapply (path_bottom _ _ (mkNode STACK_NO_REF 0)); [lia| |done]. apply Hlk. right. right.
    split; [lia|done]. }
  assert (Hext : forall n k, path s n k -> path (learn s a size) n (k ++ [a])).
  { induction 1 as [n d Hn Hd Hb|n d l Hn Hd Hb _ IH]; cbn.
    - assert (n = cs_curr s) as -> by (pose proof (Hroot _ _ _ _ Hd Hc Hb Hpc); lia).
      eapply (path_frame _ _ (mkNode (CallStack.next s) a)); [done| | |done].
      + apply Hlk. by left.
      + cbn. unfold STACK_NO_REF. lia.
    - eapply (path_frame _ _ d); [done| |done..]. apply Hlk. right. left. split; [|done].
      intros E. rewrite E in Hd. simplify_eq. }
  assert (Hlen : CallStack.next (learn s a size) = CallStack.next s + 1).
  { unfold CallStack.next. cbn. rewrite length_app, length_insert. cbn. lia. }
  split; [|done]. split; rewrite ?Hlen; cbn [cs_curr cs_size learn].
  - lia.
  - lia.
  - intros n Hn. destruct (Z.eq_dec n (CallStack.next s)) as [->|]; [by eexists|].
    destruct (Hpath n) as [k Hk]; [lia|]. eauto.
  - intros n m d e Hd He Hpd Hpe. apply Hlk in Hd, He.
    destruct Hd as [[-> ->]|[[Hne Hd]|[-> ->]]], He as [[-> ->]|[[Hne' He]|[-> ->]]];
      cbn in *; unfold STACK_NO_REF in *; (done || lia || exfalso);
      try (by apply Hne; eapply Hroot); try (by apply Hne'; eapply Hroot).
  - intros n d Hd Hpd. apply Hlk in Hd as [[-> ->]|[[Hne Hd]|[-> ->]]];
      [cbn in *; unfold STACK_NO_REF in *; lia|by eapply Hra|done].
  - intros n d Hd Hpd. apply Hlk in Hd as [[-> ->]|[[Hne Hd]|[-> ->]]]; [cbn; lia|by eapply Hadr|done].
Qed.

(** Returning below the bottom: every stack turns out to have had the
    frame at its end. *)
Lemma returnTo_bottom s a :
  stack_ok s -> path s (cs_curr s) [] -> 0 < a < 2 ^ 16 ->
  exits_or (fun s' => stack_ok s' /\ path s' (cs_curr s') []
              /\ forall n k, path s n k -> path s' n (k ++ [a])) (CallStack.returnTo s a).
Proof.
  intros Hs Hp Ha. destruct (path_inv _ _ _ Hp) as (c & Hc & Hnode & [[_ Hpc]|(? & ? & _)]); [|done].
  pose proof Hs as [Hsize Hcurr _ _ _ _]. pose proof (u2_next s Hs) as Enx.
  assert (Ea : u2 a = a) by (apply to_u_id; lia).
  unfold CallStack.returnTo. rewrite (node_parent _ _ _ Hnode). cbn [obind]. rewrite Hpc, Z.eqb_refl.
  unfold CallStack.setAddress. rewrite Hnode. cbn [obind]. rewrite Ea.
  set (s1 := CallStack.set_node s (cs_curr s) _).
  assert (Hnx1 : CallStack.next s1 = CallStack.next s)
    by (unfold CallStack.next; cbn; by rewrite length_insert).
  rewrite obind_assoc. eapply exits_or_bind; [apply createNode_spec; rewrite Hnx1; cbn; lia|].
  intros [s2 n] (-> & Hc2 & Hn2 & _ & Hs2).
  assert (Hlt : (Z.to_nat (cs_curr s) < length (cs_nodes s))%nat) by by eapply lookup_lt_Some.
  assert (Hd2 : CallStack.node s2 (cs_curr s) = Ok (mkNode (nd_parent c) a)).
  { apply node_lookup; [lia|]. rewrite Hn2. apply lookup_app_l_Some. by apply list_lookup_insert_eq. }
  rewrite Hc2. change (cs_curr s1) with (cs_curr s). unfold CallStack.setParent. rewrite Hd2.
  cbn [obind nd_address]. rewrite Hnx1, Enx.
  set (s3 := CallStack.set_node s2 (cs_curr s) _).
  assert (E3 : cs_nodes s3 = <[Z.to_nat (cs_curr s) := mkNode (CallStack.next s) a]> (cs_nodes s)
                  ++ [mkNode STACK_NO_REF 0]).
  { cbn. rewrite Hn2, insert_app_l by (cbn; rewrite length_insert; lia). cbn.
    by rewrite list_insert_insert_eq. }
  assert (Hd3 : CallStack.node s3 (cs_curr s) = Ok (mkNode (CallStack.next s) a)).
  { apply node_lookup; [lia|]. rewrite E3. apply lookup_app_l_Some. by apply list_lookup_insert_eq. }
  change (cs_curr s3) with (cs_curr s2). rewrite Hc2. change (cs_curr s1) with (cs_curr s).
  rewrite (node_address _ _ _ Hd3). cbn [obind nd_address]. rewrite Z.eqb_refl.
  rewrite (node_parent _ _ _ Hd3). cbn [obind nd_parent exits_or].
  replace (CallStack.set_curr s3 (CallStack.next s)) with (learn s a (cs_size s2)).
  - apply learn_ok; try done. unfold CallStack.next in *. rewrite Hn2, length_app in Hs2. cbn in Hs2.
    rewrite length_insert in Hs2. lia.
  - unfold learn, CallStack.set_curr. by rewrite E3.
Qed.

Lemma path_ext_nodes s s' n l : cs_nodes s' = cs_nodes s -> path s n l -> path s' n l.
Proof. intros E. apply path_ext. by rewrite E. Qed.

(** ** Loop detection on stacks *)

(** The depth of the shallowest of the stacks. *)
Definition shallowest (l : list Z) (ls : list (Z * list Z)) : nat :=
  foldr (fun e m => Nat.min (S (length e.2)) m) (S (length l)) ls.

(** How many frames [isTrueLoop] compares: those above the shallowest
    stack since the entry, or all of the entry's when the current stack
    is shallower still. *)
Definition frames_compared (l curr : list Z) (ls : list (Z * list Z)) : nat :=
  let m := shallowest l ls in
  if decide (S (length curr) < m)%nat then (S (length l) - m)%nat
  else Nat.min (S (length l) - m) (S (length curr) - m).

(** [isTrueLoop] on stacks: the first entry for [pc] with the same top
    frames. *)
Fixpoint true_loop_ref (pc : Z) (curr : list Z) (ls : list (Z * list Z)) (i : Z) : Z :=
  match ls with
  | [] => -1
  | (addr, l) :: ls' =>
      if (addr =? pc)
         && bool_decide (take (frames_compared l curr ls) l = take (frames_compared l curr ls) curr)
      then i else true_loop_ref pc curr ls' (i + 1)
  end.

Lemma same_top l1 l2 k :
  take k l1 = take k l2 <->
  match first_diff l1 l2 with None => True | Some n => (k <= n)%nat end.
Proof.
  destruct (first_diff l1 l2) as [n|] eqn:E.
  2: { apply first_diff_none in E as ->. done. }
  split; [|by apply first_diff_take]. revert l2 k n E.
  induction l1 as [|a l1 IH]; intros [|b l2] [|k] n E H; cbn in *; simplify_eq; try lia.
  rewrite decide_True in E by done. apply fmap_Some in E as (n' & E & ->).
  enough (k <= n')%nat by lia. by eapply IH.
Qed.

Lemma shallowest_le l ls : (1 <= shallowest l ls <= S (length l))%nat.
Proof. unfold shallowest. induction ls as [|e ls IH]; cbn [foldr]; lia. Qed.

Definition entry_stack (s : CallStack) (e : BTEntry) (p : Z * list Z) : Prop :=
  bt_addr e = p.1 /\ path s (bt_stack e) p.2.

Lemma min_depth_foldr ls m :
  foldr (fun e m => Nat.min (S (length (e : Z * list Z).2)) m) m ls
  = foldr Nat.min m (map (fun e => S (length e.2)) ls).
Proof. induction ls as [|e ls IH]; cbn [foldr map]; [done|by rewrite IH]. Qed.

Lemma foldr_min_cons x m (l : list nat) :
  Nat.min x (foldr Nat.min m l) = foldr Nat.min (Nat.min x m) l.
Proof. induction l as [|y l IH]; cbn [foldr]; lia. Qed.

Lemma min_depth_spec s es ls m :
  stack_ok s -> Forall2 (entry_stack s) es ls ->
  BTB.min_depth s es (Z.of_nat m)
  = Ok (Z.of_nat (foldr (fun e m => Nat.min (S (length e.2)) m) m ls)).
Proof.
  intros Hs Hes. revert m. induction Hes as [|e p es ls [_ Hp] _ IH]; intros m; [done|].
  cbn [BTB.min_depth]. rewrite (depth_spec s _ _ Hs Hp). cbn [obind foldr].
  replace (if _ <? _ then _ else _) with (Z.of_nat (Nat.min (S (length p.2)) m))
    by (destruct (Z.ltb_spec (Z.of_nat (S (length p.2))) (Z.of_nat m)); lia).
  rewrite IH. do 2 f_equal. by rewrite !min_depth_foldr, foldr_min_cons.
Qed.

Lemma frames_compared_word l curr ls :
  (length l < 2048)%nat -> (length curr < 2048)%nat ->
  let m := Z.of_nat (shallowest l ls) in
  i4 (Z.min (u4 (Z.of_nat (S (length l)) - m)) (u4 (Z.of_nat (S (length curr)) - m)))
  = Z.of_nat (frames_compared l curr ls).
Proof.
  intros Hl Hc. cbv zeta. pose proof (shallowest_le l ls) as Hm.
  set (sh := shallowest l ls) in *. unfold frames_compared, u4. fold sh.
  assert (Hle : (Z.of_nat (S (length l)) - Z.of_nat sh) < 2 ^ 32) by lia.
  rewrite (to_u_id 32 (Z.of_nat (S (length l)) - Z.of_nat sh)) by lia.
  case_decide as Hd.
  - assert (to_u 32 (Z.of_nat (S (length curr)) - Z.of_nat sh) = Z.of_nat (S (length curr)) - Z.of_nat sh + 2 ^ 32) as ->.
    { unfold to_u. rewrite <- (Z.mod_add _ 1), Z.mul_1_l by lia. apply Z.mod_small. lia. }
    rewrite Z.min_l by lia. unfold i4. rewrite to_s_id by lia. lia.
  - rewrite to_u_id by lia. unfold i4. rewrite to_s_id by lia. lia.
Qed.

Lemma isTrueLoop_ref b s pc ls curr :
  stack_ok s -> Forall2 (entry_stack s) (btb_entries b) ls -> path s (cs_curr s) curr ->
  BTB.isTrueLoop b s pc = Ok (true_loop_ref pc curr ls 0).
Proof.
  intros Hs Hes Hc. unfold BTB.isTrueLoop. generalize 0. generalize dependent (btb_entries b).
  intros es Hes.
  assert (Hbound : forall n l, path s n l -> (length l < 2048)%nat).
  { intros n l Hp. apply path_length in Hp. pose proof (so_size _ Hs). unfold CallStack.next in *. lia. }
  induction Hes as [|e p es ls He Hes IH]; intros i; [done|]. pose proof He as [Ha Hp].
  destruct p as [addr l]. cbn [fst snd] in *. cbn [BTB.true_loop true_loop_ref]. rewrite Ha.
  destruct (addr =? pc); cbn [andb]; [|apply IH].
  rewrite (compare_spec s _ _ _ _ Hs Hp Hc). cbn [obind].
  set (k := frames_compared l curr ((addr, l) :: ls)).
  pose proof (same_top l curr k) as Htop.
  destruct (first_diff l curr) as [n|]; cbn [diff_result].
  2: { cbn. by rewrite bool_decide_eq_true_2 by (by apply Htop). }
  rewrite (proj2 (Z.eqb_neq _ _)) by lia.
  rewrite (depth_spec s _ _ Hs Hp), (depth_spec s _ _ Hs Hc). cbn [obind].
  assert (Hes' : Forall2 (entry_stack s) (e :: es) ((addr, l) :: ls)) by by constructor.
  rewrite (min_depth_spec s _ _ _ Hs Hes').
  cbn [obind]. fold (shallowest l ((addr, l) :: ls)).
  rewrite frames_compared_word by eauto. fold k. rewrite Z.add_0_l.
  destruct (Z.leb_spec (Z.of_nat k) (Z.of_nat n)) as [Hle|Hgt].
  - by rewrite bool_decide_eq_true_2 by (apply Htop; lia).
  - rewrite bool_decide_eq_false_2 by (rewrite Htop; lia). apply IH.
Qed.

(** ** Refinement of stacks *)

(** What the recorder reports. *)
Inductive event := Push (a : Z) | Return (a : Z).

Fixpoint run (evs : list event) (s : CallStack) : outcome CallStack :=
  match evs with
  | [] => Ok s
  | ev :: evs' =>
      let! s := (match ev with
                 | Push a => CallStack.pushFrame s a
                 | Return a => CallStack.returnTo s a
                 end) in
      run evs' s
  end.

(** The specification: a stack of known return addresses; a return from
    the empty one is learned about. *)
Fixpoint stack_run (evs : list event) (l : list Z) : option (list Z * list Z) :=
  match evs with
  | [] => Some (l, [])
  | Push a :: evs' => stack_run evs' (a :: l)
  | Return a :: evs' =>
      match l with
      | b :: l' => if decide (a = b) then stack_run evs' l' else None
      | [] => prod_map id (cons a) <$> stack_run evs' []
      end
  end.

Definition address_ok (ev : event) : Prop :=
  match ev with Push a | Return a => 0 < a < 2 ^ 16 end.

(** How the tree relates to a run of the specification. *)
Definition refines (s : CallStack) (l learned : list Z) (s' : CallStack) : Prop :=
  stack_ok s' /\ path s' (cs_curr s') l /\ forall n k, path s n k -> path s' n (k ++ learned).

Definition run_refines (evs : list event) (s : CallStack) (l : list Z) : Prop :=
  match stack_run evs l with
  | Some (l', learned) => exits_or (refines s l' learned) (run evs s)
  | None => run evs s = Err AssertFailed \/ run evs s = Err (Exited EXIT_FAILURE)
  end.

Lemma refines_trans s s1 s' l learned k :
  (forall n q, path s n q -> path s1 n (q ++ learned)) -> refines s1 l k s' ->
  refines s l (learned ++ k) s'.
Proof.
  intros Hp (Hs & Hl & Hk). split_and!; try done.
  intros n q Hq. rewrite app_assoc. auto.
Qed.

Lemma exits_or_mono {A} (P Q : A -> Prop) m : exits_or P m -> (forall a, P a -> Q a) -> exits_or Q m.
Proof. destruct m; cbn; auto. Qed.

(** One step that learns [learned], then the rest. *)
Lemma run_refines_step evs s l1 learned (step : outcome CallStack) :
  exits_or (fun s1 => stack_ok s1 /\ path s1 (cs_curr s1) l1
                      /\ forall n q, path s n q -> path s1 n (q ++ learned)) step ->
  (forall s1, stack_ok s1 -> path s1 (cs_curr s1) l1 -> run_refines evs s1 l1) ->
  match prod_map id (app learned) <$> stack_run evs l1 with
  | Some (l', k) => exits_or (refines s l' k) (obind step (run evs))
  | None => obind step (run evs) = Err AssertFailed
            \/ obind step (run evs) = Err (Exited EXIT_FAILURE)
  end.
Proof.
  intros Hstep Hrest. unfold run_refines in Hrest.
  destruct step as [s1|e]; cbn in Hstep |- *.
  2: { subst e. destruct (stack_run evs l1) as [[l' k]|]; cbn; [done|by right]. }
  destruct Hstep as (Hs1 & Hp1 & Hext). specialize (Hrest s1 Hs1 Hp1).
  destruct (stack_run evs l1) as [[l' k]|]; cbn; [|done].
  eapply exits_or_mono; [done|]. intros s' Hr. by eapply refines_trans.
Qed.

Lemma run_refines_all evs s l :
  stack_ok s -> path s (cs_curr s) l -> Forall address_ok evs -> run_refines evs s l.
Proof.
  intros Hs Hp Hevs. revert s l Hs Hp. induction Hevs as [|ev evs Ha Hevs IH]; intros s l Hs Hp.
  { cbn. split_and!; try done. intros n k. by rewrite app_nil_r. }
  assert (Hnil : stack_run evs l = prod_map id (app []) <$> stack_run evs l)
    by (by destruct (stack_run evs l) as [[]|]).
  destruct ev as [a|a]; cbn in Ha; unfold run_refines; cbn [run stack_run].
  - pose proof (run_refines_step evs s (a :: l) [] (CallStack.pushFrame s a)) as H.
    replace (stack_run evs (a :: l)) with (prod_map id (app []) <$> stack_run evs (a :: l))
      by (by destruct (stack_run evs (a :: l)) as [[]|]).
    apply H; [|by intros; apply IH]. eapply exits_or_mono; [by apply pushFrame_spec|].
    intros s1 (Hs1 & Hp1 & Hk). split_and!; try done. intros n q. rewrite app_nil_r. auto.
  - destruct l as [|b l].
    + apply (run_refines_step evs s [] [a] (CallStack.returnTo s a)); [|by intros; apply IH].
      by apply returnTo_bottom.
    + pose proof (returnTo_known s b l a Hs Hp) as Hk. case_decide as Hab.
      * subst b. rewrite Z.eqb_refl in Hk. destruct Hk as (s1 & E & Hs1 & Hp1 & Hn).
        replace (stack_run evs l) with (prod_map id (app []) <$> stack_run evs l)
          by (by destruct (stack_run evs l) as [[]|]).
        apply (run_refines_step evs s l [] (CallStack.returnTo s a)); [|by intros; apply IH].
        rewrite E. cbn. split_and!; try done. intros n q Hq. rewrite app_nil_r.
        by eapply path_ext_nodes.
      * rewrite (proj2 (Z.eqb_neq _ _) Hab) in Hk. rewrite Hk. by left.
Qed.

Lemma reset_ok : exists s, CallStack.reset = Ok s /\ stack_ok s /\ path s (cs_curr s) [].
Proof.
  eexists. split; [reflexivity|]. set (s := CallStack.set_curr _ _).
  assert (Hp : path s 0 []) by by eapply path_bottom.
  assert (Hone : forall n d, cs_nodes s !! n = Some d -> n = O /\ d = mkNode STACK_NO_REF 0).
  { intros n d Hd. by apply list_lookup_singleton_Some in Hd as [-> <-]. }
  split; [|done]. split.
  - done.
  - done.
  - intros n Hn. replace n with 0 by (change (CallStack.next s) with 1 in Hn; lia). by eexists.
  - intros n m d e Hd He _ _. apply Hone in Hd as [-> _], He as [-> _]. done.
  - intros n d Hd _. by apply Hone in Hd as [_ ->].
  - intros n d Hd Hne. by apply Hone in Hd as [_ ->].
Qed.

(** C15: from [reset] on the tree of call stacks implements a stack whose
    bottom is unknown: after any sequence of calls and returns the
    current node stands for the stack of the specification, and every
    node from before for its stack with the frames learned since at its
    end; a return to another address fails the assertion. *)
Theorem callstack_refines evs :
  Forall address_ok evs ->
  match stack_run evs [] with
  | Some (l, _) =>
      exits_or (fun s => path s (cs_curr s) l /\
                  forall evs', Forall address_ok evs' -> run_refines evs' s l)
        (obind CallStack.reset (run evs))
  | None => obind CallStack.reset (run evs) = Err AssertFailed
            \/ obind CallStack.reset (run evs) = Err (Exited EXIT_FAILURE)
  end.
Proof.
  intros He. destruct reset_ok as (s0 & -> & Hs0 & Hp0). cbn [obind].
  pose proof (run_refines_all evs s0 [] Hs0 Hp0 He) as H. unfold run_refines in H.
  destruct (stack_run evs []) as [[l k]|]; [|done].
  eapply exits_or_mono; [done|]. intros s (Hs & Hp & _). split; [done|].
  intros evs' He'. by apply run_refines_all.
Qed.

(** C27: [isTrueLoop] finds the first entry for the program counter whose
    call stack has the same top frames as the current one, down to the
    shallowest stack in between, and -1 when there is none. *)
Theorem isTrueLoop_equiv b s pc ls curr :
  stack_ok s -> Forall2 (entry_stack s) (btb_entries b) ls -> path s (cs_curr s) curr ->
  BTB.isTrueLoop b s pc = Ok (true_loop_ref pc curr ls 0).
Proof. apply isTrueLoop_ref. Qed.
