(* ===== verification/Recorder.v ===== *)
(** * The trace recorder ([jit.hh], [jit.cc])

    The recorder follows the interpreter through one path of the program
    and emits the instructions of [IR.v].  [Jit] is the class of the same
    name; a fragment is known by its trace number, the index in
    [fragments_], which the code asserts.  The assembler is a type [A]
    with the operations of [AsmOps].

    A function of the recorder works on the capability it belongs to and
    may be left by the exception for a guard that always fails ([Throw]);
    what it changed before stays changed. *)

From S2P Require Import Prelude Words Bytecode Objects Hotness HeapInterface MiscClosures.
From S2P Require Import Capability.
From S2P Require Import IR Registers.
From S2P Require Import Fold.
From S2P Require Import CallStack.

(** ** Fragments *)

Record Fragment := mkFragment {
  fr_traceId : Z;
  fr_startPc : Z;
  fr_parent : option Z;
  fr_targets : list Z;
  fr_firstconstant : Z;
  fr_nextins : Z;
  fr_buffer : gmap Z IR;
  fr_frameSize : Z;
  fr_snaps : list Snapshot;
  fr_snapmap : SnapshotData;
  fr_heap : AbstractHeap;
  fr_mcode : Z
}.

Module Fragment.
Definition ir (F : Fragment) (ref : Z) : outcome IR := of_option WildAccess (fr_buffer F !! ref).
Definition nsnaps (F : Fragment) : Z := u2 (Z.of_nat (length (fr_snaps F))).
Definition snap (F : Fragment) (n : Z) : outcome Snapshot :=
  assert! (n <? nsnaps F) in of_option WildAccess (fr_snaps F !! Z.to_nat n).
Definition set_snap (F : Fragment) (n : Z) (s : Snapshot) : Fragment :=
  mkFragment (fr_traceId F) (fr_startPc F) (fr_parent F) (fr_targets F) (fr_firstconstant F)
    (fr_nextins F) (fr_buffer F) (fr_frameSize F) (<[Z.to_nat n := s]> (fr_snaps F)) (fr_snapmap F)
    (fr_heap F) (fr_mcode F).

(** [literalValue] *)
Definition literalValue (F : Fragment) (ref base : Z) : outcome Z :=
  let! ins := ir F ref in
  match ir_o ins with
  | kKINT => Ok (if in_type_set kOpIsSigned (ir_type ins) then u8 (i32 ins) else u4 (i32 ins))
  | kKWORD => let! hi := ir F (ref - 1) in Ok (Z.lor (u32 ins) (Z.shiftl (u32 hi) 32))
  | kKBASEO => Ok (u8 (base + 8 * i32 ins))
  | _ => Ok 0
  end.
End Fragment.

(** ** The state of the recorder *)

Inductive TraceType := TT_ROOT | TT_FALLTHROUGH | TT_SIDE.
#[export] Instance TraceType_eq_dec : EqDecision TraceType.
Proof. solve_decision. Defined.

Inductive AbortReason :=
| AR_ABSTRACT_STACK_OVERFLOW | AR_KNOWN_TO_FAIL_GUARD | AR_TRACE_TOO_LONG
| AR_INTERPRETER_REQUEST | AR_NYI.
Definition AbortReason_num (r : AbortReason) : nat :=
  match r with
  | AR_ABSTRACT_STACK_OVERFLOW => 0 | AR_KNOWN_TO_FAIL_GUARD => 1 | AR_TRACE_TOO_LONG => 2
  | AR_INTERPRETER_REQUEST => 3 | AR_NYI => 4
  end%nat.

(** Bits of [flags_]. *)
Definition kLastInsWasBranch : Z := 0.
Definition kIsReturnTrace : Z := 1.




Definition IR_SLOAD_INHERIT : Z := 1.

(** The fields of [IRBuffer] that only the recorder and the assembler
    use; a pointer to a fragment is its trace number. *)
Record Inherited := mkInh {
  stopins : Z;
  parentmap : list Z;
  buf_parent : option Z;
  parentHeapReserved : Z;
  entry_relbase : Z
}.
Definition no_inherited : Inherited := mkInh REF_FIRST [] None 0 0.

(** [recording] says that [cap_] is set; it then points to the
    capability the recorder is part of. *)
Record Jit {A : Type} := mkJit {
  recording : bool;
  startPc : Z;
  startBase : Z;
  parent : option Z;
  parentExitNo : Z;
  jflags : Z;
  traceType : TraceType;
  targets : list Z;
  shouldAbort : bool;
  asm : A;
  buf : IRBuffer;
  inherited : Inherited;
  callStack : CallStack;
  btb : BranchTargetBuffer;
  fragmentMap : gmap Z Z;
  fragments : list Fragment;
  record_aborts : Z;
  record_abort_reasons : list Z
}.
Arguments Jit : clear implicits.
Arguments mkJit {A}.

(** What the recorder uses of the assembler: compiling the buffer (which
    assigns registers and spill slots to its instructions), the entry
    point of the code last assembled, and patching the exits of older
    fragments. *)
Class AsmOps (A : Type) := {
  asm_assemble : Jit A -> outcome (A * IRBuffer);
  asm_mcp : A -> Z;
  asm_patchGuard : A -> Fragment -> Z -> Z -> outcome A;
  asm_patchFallthrough : A -> Fragment -> Z -> Fragment -> outcome A
}.

Section updates.
Context {A : Type}.
Implicit Types (j : Jit A).

(** [resetRecorderState] *)
Definition resetRecorderState j : Jit A :=
  mkJit false (startPc j) (startBase j) (parent j) (parentExitNo j) 0 (traceType j) [] false
    (asm j) (buf j) (inherited j) (callStack j) (btb j) (fragmentMap j) (fragments j)
    (record_aborts j) (record_abort_reasons j).
Definition set_jflags j (f : Z) : Jit A :=
  mkJit (recording j) (startPc j) (startBase j) (parent j) (parentExitNo j) f (traceType j)
    (targets j) (shouldAbort j) (asm j) (buf j) (inherited j) (callStack j) (btb j)
    (fragmentMap j) (fragments j) (record_aborts j) (record_abort_reasons j).
(** [requestAbort] *)
Definition requestAbort j : Jit A :=
  mkJit (recording j) (startPc j) (startBase j) (parent j) (parentExitNo j) (jflags j) (traceType j)
    (targets j) true (asm j) (buf j) (inherited j) (callStack j) (btb j)
    (fragmentMap j) (fragments j) (record_aborts j) (record_abort_reasons j).
Definition set_root j (r : bool) (pc base : Z) (p : option Z) (e : Z) (t : TraceType) : Jit A :=
  mkJit r pc base p e (jflags j) t (targets j) (shouldAbort j) (asm j) (buf j) (inherited j)
    (callStack j) (btb j) (fragmentMap j) (fragments j) (record_aborts j) (record_abort_reasons j).
Definition set_asm j (a : A) : Jit A :=
  mkJit (recording j) (startPc j) (startBase j) (parent j) (parentExitNo j) (jflags j) (traceType j)
    (targets j) (shouldAbort j) a (buf j) (inherited j) (callStack j) (btb j)
    (fragmentMap j) (fragments j) (record_aborts j) (record_abort_reasons j).
Definition set_buf j (b : IRBuffer) : Jit A :=
  mkJit (recording j) (startPc j) (startBase j) (parent j) (parentExitNo j) (jflags j) (traceType j)
    (targets j) (shouldAbort j) (asm j) b (inherited j) (callStack j) (btb j)
    (fragmentMap j) (fragments j) (record_aborts j) (record_abort_reasons j).
Definition set_inherited j (i : Inherited) : Jit A :=
  mkJit (recording j) (startPc j) (startBase j) (parent j) (parentExitNo j) (jflags j) (traceType j)
    (targets j) (shouldAbort j) (asm j) (buf j) i (callStack j) (btb j)
    (fragmentMap j) (fragments j) (record_aborts j) (record_abort_reasons j).
Definition set_callStack j (s : CallStack) : Jit A :=
  mkJit (recording j) (startPc j) (startBase j) (parent j) (parentExitNo j) (jflags j) (traceType j)
    (targets j) (shouldAbort j) (asm j) (buf j) (inherited j) s (btb j)
    (fragmentMap j) (fragments j) (record_aborts j) (record_abort_reasons j).
Definition set_btb j (b : BranchTargetBuffer) : Jit A :=
  mkJit (recording j) (startPc j) (startBase j) (parent j) (parentExitNo j) (jflags j) (traceType j)
    (targets j) (shouldAbort j) (asm j) (buf j) (inherited j) (callStack j) b
    (fragmentMap j) (fragments j) (record_aborts j) (record_abort_reasons j).
Definition set_fragments j (m : gmap Z Z) (l : list Fragment) : Jit A :=
  mkJit (recording j) (startPc j) (startBase j) (parent j) (parentExitNo j) (jflags j) (traceType j)
    (targets j) (shouldAbort j) (asm j) (buf j) (inherited j) (callStack j) (btb j)
    m l (record_aborts j) (record_abort_reasons j).
(** [++record_aborts] and [++record_abort_reasons[r]] *)
Definition count_abort j : Jit A :=
  mkJit (recording j) (startPc j) (startBase j) (parent j) (parentExitNo j) (jflags j) (traceType j)
    (targets j) (shouldAbort j) (asm j) (buf j) (inherited j) (callStack j) (btb j)
    (fragmentMap j) (fragments j) (u8 (record_aborts j + 1)) (record_abort_reasons j).
Definition count_reason j (r : AbortReason) : Jit A :=
  mkJit (recording j) (startPc j) (startBase j) (parent j) (parentExitNo j) (jflags j) (traceType j)
    (targets j) (shouldAbort j) (asm j) (buf j) (inherited j) (callStack j) (btb j)
    (fragmentMap j) (fragments j) (record_aborts j)
    (alter (fun n => u8 (n + 1)) (AbortReason_num r) (record_abort_reasons j)).

(** ** Fragments by trace number and by address *)

Definition traceById j (id : Z) : outcome Fragment :=
  assert! (id <? Z.of_nat (length (fragments j))) in
  of_option WildAccess (fragments j !! Z.to_nat id).
Definition pc_index (pc : Z) : Z := Z.shiftr pc 2.

(** [traceAt] and [lookupFragment]: the trace number; [operator[]]
    enters 0 for an address without a trace. *)
Definition traceAt j (pc : Z) : option Z := fragmentMap j !! pc_index pc.
Definition lookupFragment j (pc : Z) : Jit A * Z :=
  let id := default 0 (fragmentMap j !! pc_index pc) in
  (set_fragments j (<[pc_index pc := id]> (fragmentMap j)) (fragments j), id).

Definition registerFragment j (pc : Z) (F : Fragment) (isSideTrace : bool) : outcome (Jit A) :=
  assert! (fr_traceId F =? Z.of_nat (length (fragments j))) in
  Ok (set_fragments j
        (if isSideTrace then fragmentMap j else <[pc_index pc := fr_traceId F]> (fragmentMap j))
        (fragments j ++ [F])).

(** [saveFragment] *)
Definition saveFragment `{AsmOps A} j : outcome Fragment :=
  let b := buf j in
  let c := b_code b in
  assert! (0 <=? AbstractStack.highestSlot (b_slots b)) in
  Ok (mkFragment (Z.of_nat (length (fragments j))) (startPc j) (parent j) (targets j)
        (c_bufmin c) (c_bufmax c)
        (filter (fun '(r, _) => c_bufmin c <= r < c_bufmax c) (c_buffer c))
        (u2 (AbstractStack.highestSlot (b_slots b)))
        (b_snaps b) (b_snapmap b) (compactCopyInto (b_heap b)) (asm_mcp (asm j))).

(** [resetFragments] *)
Definition resetFragments j : Jit A := set_fragments j ∅ [].
End updates.

(** ** Recorder functions *)

Inductive result (X : Type) := Val (x : X) | Throw.
Arguments Val {X} x.
Arguments Throw {X}.

Definition RM (H A X : Type) : Type :=
  Capability H (Jit A) -> outcome (Capability H (Jit A) * result X).

Definition rret {H A X} (x : X) : RM H A X := fun c => Ok (c, Val x).
Definition rbind {H A X Y} (m : RM H A X) (k : X -> RM H A Y) : RM H A Y :=
  fun c =>
    let! '(c, r) := m c in
    match r with Val x => k x c | Throw => Ok (c, Throw) end.
Definition lift {H A X} (f : Capability H (Jit A) -> outcome X) : RM H A X :=
  fun c => let! x := f c in Ok (c, Val x).
Definition rfail {H A X} (e : fault) : RM H A X := fun _ => Err e.

Declare Scope rec_scope.
Delimit Scope rec_scope with rec.
Notation "'let*' x := m 'in' k" := (rbind m (fun x => k))
  (at level 10, x binder, m at level 100, k at level 200) : rec_scope.
Notation "'let*' ' p := m 'in' k" := (rbind m (fun x => match x with p => k end))
  (at level 10, p pattern, m at level 100, k at level 200) : rec_scope.
Notation "'require*' b 'in' k" := (if b then k else rfail AssertFailed)
  (at level 10, b at level 100, k at level 200) : rec_scope.
Notation "m ;* k" := (rbind m (fun _ => k)) (at level 99, right associativity) : rec_scope.
#[local] Open Scope rec_scope.

Section emission.
Context {H A : Type}.
Abbreviation M := (RM H A).

Definition get_jit : M (Jit A) := fun c => Ok (c, Val (jit c)).
Definition mod_jit (f : Jit A -> Jit A) : M () := fun c => Ok (set_cap_jit c (f (jit c)), Val ()).
Definition get_mem : M memory := fun c => Ok (c, Val (mem c)).

(** An operation on the buffer, and one that may throw. *)
Definition on_buf {X} (f : IRBuffer -> outcome (IRBuffer * X)) : M X := fun c =>
  let! '(b, x) := f (buf (jit c)) in Ok (set_cap_jit c (set_buf (jit c) b), Val x).
Definition on_buf_unit (f : IRBuffer -> outcome IRBuffer) : M () := fun c =>
  let! b := f (buf (jit c)) in Ok (set_cap_jit c (set_buf (jit c) b), Val ()).
Definition on_buf_throw (f : memory -> IRBuffer -> outcome (IRBuffer * opt_result)) : M Z := fun c =>
  let! '(b, r) := f (mem c) (buf (jit c)) in
  Ok (set_cap_jit c (set_buf (jit c) b), match r with Emitted tr => Val tr | FailingGuard => Throw end).

Definition r_emit (op : Opcode) (t a1 a2 : Z) : M Z := on_buf_throw (fun m b => emit m b op t a1 a2).
Definition r_emitRaw (op : Opcode) (t a1 a2 : Z) : M Z := on_buf (fun b => emitRaw b op t a1 a2).
Definition r_emitHeapCheck (n : Z) : M Z := on_buf_throw (fun m b => emitHeapCheck m b n).
Definition r_slot (n : Z) : M Z := on_buf (fun b => buf_slot b n).
Definition r_setSlot (n tr : Z) : M () := on_buf_unit (fun b => buf_setSlot b n tr).
Definition r_literal (ty : IRType) (v : Z) : M Z :=
  on_buf (fun b => let! '(c, tr) := literal (b_code b) (IRType_num ty) v in Ok (set_code b c, tr)).
Definition r_baseLiteral (p : Z) : M Z :=
  on_buf (fun b => let! '(c, tr) := baseLiteral (b_code b) (b_slots b) p in Ok (set_code b c, tr)).
Definition r_emitNEW (itbl nfields : Z) : M (Z * Z) :=
  on_buf (fun b => let! '(b, tr, e) := emitNEW b itbl nfields in Ok (b, (tr, e))).
Definition r_setField (entry field ref : Z) : M () :=
  on_buf_unit (fun b => let! h := setField (b_heap b) entry field (TRef.ref ref) in Ok (set_heap b h)).
(** [buf_.slots_.top()], and [buf_.slots_.frame(base, top)] *)
Definition r_top : M Z := lift (fun c => Ok (as_top (b_slots (buf (jit c))) - as_base (b_slots (buf (jit c))))).
Definition r_frame (base top : Z) : M bool :=
  on_buf (fun b => let '(s, ok) := AbstractStack.frame (b_slots b) base top in Ok (set_slots b s, ok)).
Definition r_callStack (f : CallStack -> outcome CallStack) : M () := fun c =>
  let! s := f (callStack (jit c)) in Ok (set_cap_jit c (set_callStack (jit c) s), Val ()).
(** [++record_abort_reasons[r]; return false;] *)
Definition abort_with {X} (r : AbortReason) (x : X) : M X :=
  mod_jit (fun j => count_reason j r);* rret x.

Definition GUARD : Z := Z.lor (IRType_num IRT_VOID) IRT_GUARD.

Fixpoint rseq (l : list (M ())) : M () :=
  match l with [] => rret () | m :: l' => m;* rseq l' end.
(** [for (i = start; i < end; ++i)] *)
Definition r_for (start stop : Z) (body : Z -> M ()) : M () :=
  rseq (map body (seqZ start (stop - start))).

(** ** Conditions and types *)

Definition littypeToIRType (littype : Z) : IRType :=
  match [LIT_INT; LIT_STRING; LIT_CHAR; LIT_WORD; LIT_FLOAT; LIT_CLOSURE; LIT_INFO; LIT_PC]
          !! Z.to_nat littype with
  | Some LIT_INT => IRT_I64
  | Some LIT_CHAR => IRT_CHR
  | Some LIT_STRING => IRT_PTR
  | Some LIT_WORD => IRT_U64
  | Some LIT_CLOSURE => IRT_CLOS
  | Some LIT_INFO => IRT_INFO
  | Some LIT_PC => IRT_PC
  | _ => IRT_UNKNOWN
  end.

(** The comparison with the number [n]. *)
Definition comparison (n : Z) : option Opcode :=
  [kLT; kGE; kLE; kGT; kEQ; kNE; kLTU; kGEU; kLEU; kGTU] !! Z.to_nat n.
Definition bcCond2irCond (bc : BcIns.Opcode) (invert : bool) : Z :=
  u1 (Z.lxor (Opcode_num kLT + (BcIns.opcode_num bc - BcIns.opcode_num BcIns.kISLT))
        (if invert then 1 else 0)).

Definition evalCond (opc : BcIns.Opcode) (left right : Z) : outcome bool :=
  match opc with
  | BcIns.kISLT => Ok (i8 left <? i8 right)
  | BcIns.kISGE => Ok (i8 right <=? i8 left)
  | BcIns.kISLE => Ok (i8 left <=? i8 right)
  | BcIns.kISGT => Ok (i8 right <? i8 left)
  | BcIns.kISEQ => Ok (i8 left =? i8 right)
  | BcIns.kISNE => Ok (negb (i8 left =? i8 right))
  | BcIns.kISLTU => Ok (u8 left <? u8 right)
  | BcIns.kISGEU => Ok (u8 right <=? u8 left)
  | BcIns.kISLEU => Ok (u8 left <=? u8 right)
  | BcIns.kISGTU => Ok (u8 right <? u8 left)
  | _ => Err (Exited 2)
  end.

(** ** Specialisation *)

Definition loadField (noderef offset : Z) (type : IRType) : M Z :=
  let* refref := r_emit kFREF (IRType_num IRT_PTR) noderef offset in
  r_emit kFLOAD (IRType_num type) refref 0.

Definition specialiseOnInfoTable (noderef node : Z) : M Z :=
  let* info := lift (fun c => closure_info_addr (mem c) node) in
  let* inforef := r_literal IRT_INFO info in
  r_emit kEQINFO GUARD noderef inforef;* rret noderef.

Definition specialiseOnPapShape (papref pap : Z) : M () :=
  let* papinforef := loadField papref (PAP_INFO_OFFSET / sizeof_Word) IRT_I64 in
  let* combined := lift (fun c => load (mem c) (pap + PAP_INFO_OFFSET)) in
  let* expected := r_literal IRT_I64 combined in
  r_emit kEQ GUARD papinforef expected;* rret ().

Definition followIndirection (slot tnode : Z) : M Z :=
  let* s := r_slot slot in
  let* noderef := specialiseOnInfoTable s tnode in
  let* newnoderef := loadField noderef 1 IRT_CLOS in
  r_setSlot slot newnoderef;*
  lift (fun c => payload (mem c) tnode 0).

(** [while (clos->isIndirection()) clos = followIndirection(...)] *)
Fixpoint r_followIndirections (fuel : nat) (slot cl : Z) : M Z :=
  match fuel with
  | O => rfail OutOfFuel
  | S fuel' =>
      let* ind := lift (fun c => Objects.isIndirection (mem c) cl) in
      if ind : bool then
        let* cl := followIndirection slot cl in r_followIndirections fuel' slot cl
      else rret cl
  end.

Definition clearSlots (start stop : Z) : M () := r_for start stop (fun i => r_setSlot i TRef.none).

Definition argAt (args : list Z) (i : Z) : M Z := lift (fun _ => of_option WildAccess (args !! Z.to_nat i)).
Definition papOrDirectArg (arg pap_args : Z) (args : list Z) (pap_ref : Z) : M Z :=
  if pap_args <=? arg then argAt args (arg - pap_args)
  else loadField pap_ref (PAP_PAYLOAD_OFFSET / sizeof_Word + arg) IRT_UNKNOWN.

(** [Jit::pushFrame]: the new base. *)
Definition r_pushFrame (base returnPc noderef framesize : Z) : M (option Z) :=
  let* topslot := r_top in
  let* ret_ref := r_literal IRT_PC returnPc in
  r_callStack (fun s => CallStack.pushFrame s (TRef.ref ret_ref));*
  let* base_ref := r_baseLiteral base in
  r_setSlot (topslot + 0) base_ref;*
  r_setSlot (topslot + 1) ret_ref;*
  r_setSlot (topslot + 2) noderef;*
  let newbase := base + 8 * (topslot + 3) in
  let* ok := r_frame newbase (newbase + 8 * framesize) in
  if ok : bool then rret (Some newbase) else abort_with AR_ABSTRACT_STACK_OVERFLOW None.

Definition map_jit {X} (f : Jit A -> outcome (Jit A * X)) : M X := fun c =>
  let! '(j, x) := f (jit c) in Ok (set_cap_jit c j, Val x).
End emission.

Section recorder.
Context {H : Type} `{HeapOps H} {A : Type} `{AsmOps A} (fuel : nat).
Abbreviation M := (RM H A).

(** [MiscClosures::getApCont] and [getApInfo] *)
Definition r_getApCont (nargs pointerMask : Z) : M ApContInfo := fun c =>
  let! '(h, m, ms, apk) := Misc.getApCont (mm c) (mem c) (misc c) nargs pointerMask in
  Ok (set_cap_misc c m h ms, Val apk).
Definition r_getApInfo (nargs pointerMask : Z) : M Z := fun c =>
  let! '(h, m, ms, info) := Misc.getApInfo (mm c) (mem c) (misc c) nargs pointerMask in
  Ok (set_cap_misc c m h ms, Val info).
Definition r_type (cl : Z) : M ClosureType :=
  let* info := lift (fun c => closure_info (mem c) cl) in rret (it_type info).
Definition r_code (cl : Z) : M Code :=
  lift (fun c => let! info := closure_info (mem c) cl in of_option WildAccess (it_code info)).

(** ** Calls: [recordGenericApply2]

    [returnPc] is present for CALL and absent for CALLT. *)

(** The frame of the call: a new one, or the current one with a new
    size. *)
Definition enter_frame (base : Z) (returnPc : option Z) (noderef framesize : Z) : M (option Z) :=
  match returnPc with
  | Some pc => r_pushFrame base pc noderef framesize
  | None =>
      let* ok := r_frame base (base + 8 * framesize) in
      if ok : bool then r_setSlot (-1) noderef;* rret (Some base)
      else abort_with AR_ABSTRACT_STACK_OVERFLOW None
  end.

Definition apply_thunk (base fnode_ref fnode direct_args pointer_mask : Z) (args : list Z)
    (returnPc : option Z) : M bool :=
  specialiseOnInfoTable fnode_ref fnode;*
  let* apk := r_getApCont direct_args pointer_mask in
  let apk_framesize := Misc.apContFrameSize direct_args in
  let* apk_closure_ref := r_literal IRT_CLOS (apk_closure apk) in
  let* base := enter_frame base returnPc apk_closure_ref apk_framesize in
  match base with
  | None => rret false
  | Some base =>
      r_for 0 direct_args (fun i => let* a := argAt args i in r_setSlot i a);*
      clearSlots direct_args apk_framesize;*
      let* upd := lift (fun c => Ok (stg_UPD_closure_addr (misc c))) in
      let* upd_clos_lit := r_literal IRT_CLOS upd in
      let* newbase := r_pushFrame base (apk_returnAddr apk) upd_clos_lit Misc.UPD_frame_size in
      match newbase with
      | None => rret false
      | Some newbase =>
          r_setSlot 0 fnode_ref;*
          r_setSlot 1 TRef.none;*
          let* code := r_code fnode in
          let* ret := lift (fun c => Ok (stg_UPD_return_pc (misc c))) in
          let* newbase := r_pushFrame newbase ret fnode_ref (framesize code) in
          rret (bool_decide (is_Some newbase))
      end
  end.

(** The function of a call: the node itself, or the one inside the
    partial application. *)
Definition function_ref (pap : option Z) (fnode_ref : Z) : M Z :=
  match pap with
  | None => rret fnode_ref
  | Some _ => loadField fnode_ref (PAP_FUNCTION_OFFSET / sizeof_Word) IRT_CLOS
  end.

(** Exact application. *)
Definition apply_exact (base fnode_ref fnode direct_args : Z) (pap : option Z) (pap_args : Z)
    (args : list Z) (returnPc : option Z) : M bool :=
  let* funref := function_ref pap fnode_ref in
  specialiseOnInfoTable funref fnode;*
  let* code := r_code fnode in
  let* entered :=
    (match returnPc with
     | Some pc =>
         let* base := r_pushFrame base pc funref (framesize code) in
         rret (bool_decide (is_Some base))
     | None =>
         r_setSlot (-1) funref;*
         let* ok := r_frame base (base + 8 * framesize code) in
         if ok : bool then rret true else abort_with AR_ABSTRACT_STACK_OVERFLOW false
     end) in
  if entered : bool then
    (if bool_decide (is_Some pap) then
       r_for 0 pap_args (fun i =>
         let* x := loadField fnode_ref (PAP_PAYLOAD_OFFSET / sizeof_Word + i) IRT_UNKNOWN in
         r_setSlot i x)
     else rret ());*
    r_for 0 direct_args (fun i => let* a := argAt args i in r_setSlot (pap_args + i) a);*
    clearSlots (u4 (direct_args + pap_args)) (framesize code);*
    rret true
  else rret false.

(** Over-application; with a partial application the process exits after
    some debugging output. *)
Definition apply_over (base fnode_ref fnode direct_args pointer_mask : Z) (pap : option Z)
    (pap_args : Z) (args : list Z) (returnPc : option Z) : M bool :=
  let* funref := function_ref pap fnode_ref in
  specialiseOnInfoTable funref fnode;*
  let* code := r_code fnode in
  let extra_args := u4 (direct_args + pap_args) - arity code in
  let apk_framesize := Misc.apContFrameSize extra_args in
  if 32 <=? arity code then rfail UndefinedOp else
  let* apk := r_getApCont extra_args (Z.shiftr pointer_mask (arity code)) in
  let* apk_closure_ref := r_literal IRT_CLOS (apk_closure apk) in
  let* base := enter_frame base returnPc apk_closure_ref apk_framesize in
  match base with
  | None => rret false
  | Some base =>
      r_for 0 extra_args (fun i =>
        let* ref := papOrDirectArg (arity code + i) pap_args args fnode_ref in r_setSlot i ref);*
      clearSlots extra_args apk_framesize;*
      let* newbase := r_pushFrame base (apk_returnAddr apk) funref (framesize code) in
      if bool_decide (is_Some newbase) then
        r_for 0 (arity code) (fun i =>
          let* ref := papOrDirectArg i pap_args args fnode_ref in r_setSlot i ref);*
        clearSlots (arity code) (framesize code);*
        if bool_decide (is_Some pap) then rfail (Exited 1) else rret true
      else rret false
  end.

(** A return to the frame below: [callStack_.returnTo] and the switch to
    the caller's frame, whose base is in the current frame. *)
Definition return_guard (base : Z) : M Z :=
  let* retref := r_slot (-2) in
  let* ret := lift (fun c => load (mem c) (base - 16)) in
  let* expected := r_literal IRT_PC ret in
  r_emit kEQ GUARD retref expected;* rret expected.
Definition return_frame (base : Z) : M bool :=
  let* newbase := lift (fun c => load (mem c) (base - 24)) in
  let* ok := r_frame newbase (base - 24) in
  if ok : bool then rret true else abort_with AR_ABSTRACT_STACK_OVERFLOW false.
Definition return_to (expected : Z) : M () :=
  r_callStack (fun s => CallStack.returnTo s (TRef.ref expected)).

(** Partial application: a new PAP.  [new_pap_fields] has 66 elements. *)
Definition pap_fields (total_args pap_args : Z) (args : list Z) (fnode_ref : Z) : M (list Z) :=
  let fix go (n : nat) (i : Z) : M (list Z) :=
    match n with
    | O => rret []
    | S n' =>
        let* x := papOrDirectArg i pap_args args fnode_ref in
        if 66 <=? PAP_PAYLOAD_OFFSET / sizeof_Word - 1 + i then rfail WildAccess
        else let* xs := go n' (i + 1) in rret (x :: xs)
    end in go (Z.to_nat total_args) 0.
Fixpoint set_fields (entry i : Z) (fields : list Z) : M () :=
  match fields with
  | [] => rret ()
  | x :: xs => r_setField entry i x;* set_fields entry (i + 1) xs
  end.

Definition apply_partial (base fnode_ref fnode direct_args pointer_mask : Z) (pap : option Z)
    (pap_args : Z) (args : list Z) (returnPc : option Z) : M bool :=
  let* funref := function_ref pap fnode_ref in
  specialiseOnInfoTable funref fnode;*
  let* expectedReturnPc :=
    (match returnPc with Some _ => rret TRef.none | None => return_guard base end) in
  let total_args := u4 (direct_args + pap_args) in
  let new_pap_size := wordsof_PapClosure + total_args in
  r_emitHeapCheck new_pap_size;*
  let* payload := pap_fields total_args pap_args args fnode_ref in
  let* pointer_mask :=
    (match pap with
     | None => rret pointer_mask
     | Some p =>
         if 32 <=? pap_args then rfail UndefinedOp
         else
           let* pm := lift (fun c => pap_pointerMask (mem c) p) in
           rret (Z.lor (u4 (Z.shiftl pointer_mask pap_args)) pm)
     end) in
  let* info_ref := r_literal IRT_I64 (Z.lor (u4 total_args) (Z.shiftl (u4 pointer_mask) 32)) in
  let* pap_info := lift (fun c => Ok (stg_PAP_info (misc c))) in
  let* pap_itbl := r_literal IRT_INFO pap_info in
  let* '(new_pap, entry) := r_emitNEW pap_itbl (new_pap_size - 1) in
  set_fields entry 0 (info_ref :: funref :: payload);*
  match returnPc with
  | Some _ =>
      let* top := r_top in
      r_setSlot (top + FRAME_SIZE) new_pap;* rret true
  | None =>
      let* top := r_top in
      clearSlots (-3) top;*
      r_setSlot 0 new_pap;*
      require* negb (TRef.isNone expectedReturnPc) in
      return_to expectedReturnPc;*
      return_frame base
  end.

Definition recordGenericApply2 (call_info base fnode_ref fnode : Z) (args : list Z)
    (returnPc : option Z) : M bool :=
  let direct_args := Z.land call_info 0xff in
  let pointer_mask := Z.shiftr call_info 8 in
  let* type := r_type fnode in
  let apply_fun (fnode : Z) (pap : option Z) (pap_args : Z) : M bool :=
    let* type := r_type fnode in
    require* bool_decide (type = FUN) in
    let total_args := u4 (direct_args + pap_args) in
    let* code := r_code fnode in
    if arity code =? total_args then
      apply_exact base fnode_ref fnode direct_args pap pap_args args returnPc
    else if arity code <? total_args then
      apply_over base fnode_ref fnode direct_args pointer_mask pap pap_args args returnPc
    else
      apply_partial base fnode_ref fnode direct_args pointer_mask pap pap_args args returnPc in
  match type with
  | PAP =>
      let* pap_args := lift (fun c => pap_nargs (mem c) fnode) in
      specialiseOnInfoTable fnode_ref fnode;*
      specialiseOnPapShape fnode_ref fnode;*
      let* fn := lift (fun c => pap_fun (mem c) fnode) in
      apply_fun fn (Some fnode) pap_args
  | THUNK | CAF => apply_thunk base fnode_ref fnode direct_args pointer_mask args returnPc
  | _ => apply_fun fnode None 0
  end.

(** ** Beginning a trace *)

Definition set_heap_reserved (h : AbstractHeap) (n : Z) : AbstractHeap :=
  IR.mkAH (ah_entries h) (ah_nentries h) (hd_data h) (hd_size h) (hd_next h) n.

Definition initRecording (cap : Capability H (Jit A)) (base pc : Z) : outcome (Jit A) :=
  let j := resetRecorderState (jit cap) in
  let j := set_root j true pc base None (u4 (-1)) (traceType j) in
  let! b := reset (stg_IND_info (misc cap)) base (t_top (currentThread cap)) in
  let! s := CallStack.reset in
  let! t := BTB.reset s pc in
  Ok (set_btb (set_callStack (set_inherited (set_buf j b) no_inherited) s) t).

Definition beginRecording (cap : Capability H (Jit A)) (pc base : Z) (isReturn : bool)
  : outcome (Capability H (Jit A)) :=
  assert! negb (recording (jit cap)) in
  assert! bool_decide (targets (jit cap) = []) in
  let! j := initRecording cap base pc in
  let j := set_jflags j (if isReturn then Flags32.set (jflags j) kIsReturnTrace
                         else Flags32.clear (jflags j) kIsReturnTrace) in
  Ok (set_cap_jit cap (set_root j true pc base (parent j) (parentExitNo j) TT_ROOT)).

Definition setFallthroughParent (j : Jit A) (F snapno : Z) : Jit A :=
  let i := inherited j in
  set_root (set_inherited j (mkInh (stopins i) (parentmap i) (Some F) (parentHeapReserved i)
                               (entry_relbase i)))
    (recording j) (startPc j) (startBase j) (Some F) snapno TT_FALLTHROUGH.

(** ** Side traces: the frames of the parent's exit are loaded *)

(** [dedupSnapshotRef]: the entries from [i] up to the limit. *)
Fixpoint dedup_from (es : list Z) (relbase ref : Z) : M Z :=
  match es with
  | [] => rret TRef.none
  | w :: es' =>
      if u2 w =? ref then r_slot (Z.shiftr (i4 w) 16 - relbase) else dedup_from es' relbase ref
  end.

Definition inherit_info (i : IR) : Z :=
  let spill := Z.shiftr (ir_prev i) 8 in
  if negb (spill =? 0) then Z.lor RID_INIT (Z.shiftl spill 8) else u1 (ir_prev i).

(** [buf_.parentmap_[numInheritedSlots++] = inherit_info] *)
Definition add_inherited (info : Z) (j : Jit A) : Jit A :=
  let i := inherited j in
  set_inherited j (mkInh (stopins i) (parentmap i ++ [info]) (buf_parent i) (parentHeapReserved i)
                     (entry_relbase i)).
(** The assignments behind the loop of [replaySnapshot]. *)
Definition end_inherited (relbase : Z) (j : Jit A) : Jit A :=
  let i := inherited j in
  set_inherited j (mkInh (REF_FIRST + Z.of_nat (length (parentmap i))) (parentmap i) (buf_parent i)
                     (parentHeapReserved i) relbase).

(** The reference a literal or an inherited value gets in the new
    buffer. *)
Definition inherit_ref (F : Fragment) (base relbase slot ref : Z) : M Z :=
  let* ins := lift (fun _ => Fragment.ir F ref) in
  if irref_islit ref then
    let* k := lift (fun _ => Fragment.literalValue F ref (base - 8 * relbase)) in
    if bool_decide (ir_o ins = kKBASEO) then r_baseLiteral k
    else
      on_buf (fun b => let! '(c, tr) := literal (b_code b) (ir_type ins) k in Ok (set_code b c, tr))
  else
    let* abs := lift (fun c => Ok (AbstractStack.absolute (b_slots (buf (jit c))) slot)) in
    let* tref := r_emitRaw kSLOAD (ir_type ins) abs IR_SLOAD_INHERIT in
    let* j := get_jit in
    if 200 <=? Z.of_nat (length (parentmap (inherited j))) then rfail WildAccess
    else mod_jit (add_inherited (inherit_info ins));* rret tref.

(** The loop of [replaySnapshot]: [before] are the entries already
    replayed, [es] the others. *)
Fixpoint replay_entries (F : Fragment) (base relbase : Z) (before es : list Z) (seen : Z) : M () :=
  match es with
  | [] => rret ()
  | w :: es' =>
      let slot := Z.shiftr (i4 w) 16 - relbase in
      let ref := u2 w in
      let* dup := (if bloomtest seen ref then dedup_from before relbase ref else rret TRef.none) in
      (if negb (dup =? TRef.none) then
         r_setSlot slot dup;* replay_entries F base relbase (before ++ [w]) es' seen
       else
         let* tref := inherit_ref F base relbase slot ref in
         r_setSlot slot tref;* replay_entries F base relbase (before ++ [w]) es' (bloomset seen ref))
  end.

Definition replaySnapshot (F : Fragment) (snapno base : Z) : M () :=
  let* snap := lift (fun _ => Fragment.snap F snapno) in
  let relbase := sn_relbase snap in
  let es := take (Z.to_nat (sn_entries snap)) (drop (Z.to_nat (sn_mapofs snap)) (fr_snapmap F)) in
  if negb (Z.of_nat (length es) =? sn_entries snap) then rfail WildAccess else
  replay_entries F base relbase [] es 0;*
  mod_jit (end_inherited relbase).

Definition beginSideTrace (cap : Capability H (Jit A)) (base F snapno : Z)
  : outcome (Capability H (Jit A)) :=
  assert! negb (recording (jit cap)) in
  assert! bool_decide (targets (jit cap) = []) in
  let! Fr := of_option WildAccess (fragments (jit cap) !! Z.to_nat F) in
  let! snap := Fragment.snap Fr snapno in
  let! j := initRecording cap base (sn_pc snap) in
  let j := set_root j true (sn_pc snap) base (Some F) snapno TT_SIDE in
  let! n := overallocated snap (fr_heap Fr) in
  let j := set_buf j (set_heap (buf j) (set_heap_reserved (b_heap (buf j)) n)) in
  let j := set_inherited j (mkInh (stopins (inherited j)) [] (Some F) n (entry_relbase (inherited j))) in
  let! '(cap, r) := replaySnapshot Fr snapno base (set_cap_jit cap j) in
  match r with Val _ => Ok cap | Throw => Err UndefinedOp end.

(** ** Finishing a trace *)

(** [finishRecording], without timing and dumps; [LC_CLEAR_DOM_COUNTERS]
    is defined. *)
Definition jit_finishRecording (cap : Capability H (Jit A)) : outcome (Capability H (Jit A)) :=
  let j := jit cap in
  let! '(a, b) := asm_assemble j in
  let j := set_asm (set_buf j b) a in
  let tno := Z.of_nat (length (fragments j)) in
  let! F := saveFragment j in
  let! j := registerFragment j (startPc j) F (bool_decide (traceType j = TT_SIDE)) in
  let! j :=
    (match parent j with
     | Some p =>
         let! P := of_option WildAccess (fragments j !! Z.to_nat p) in
         let! a := asm_patchGuard (asm j) P (parentExitNo j) (fr_mcode F) in
         Ok (set_asm j a)
     | None => Ok j
     end) in
  let patch := negb (bool_decide (traceType j = TT_SIDE)) && negb (Flags32.get (jflags j) kIsReturnTrace) in
  let m := if patch then store_ins (mem cap) (startPc j) (BcIns.ad BcIns.kJFUNC 0 tno) else mem cap in
  let k := BTB.resetDominatedCounters (btb j) (counters cap) in
  Ok (set_cap_jit (set_cap_counters (set_cap_mem cap m) k) (resetRecorderState j)).

(** ** Recording one instruction *)

(** How the body of [recordIns] ends: with [return false] after the
    switch, with [return true] after [finishRecording], or at the label
    [abort_recording]. *)
Inductive ins_end := Recorded | Finished | Aborted.

Definition r_finish (save link : Z) : M ins_end :=
  r_emit kSAVE GUARD save link;*
  (fun c => let! c := jit_finishRecording c in Ok (c, Val Finished)).
Definition set_branch : M () := mod_jit (fun j => set_jflags j (Flags32.set (jflags j) kLastInsWasBranch)).
Definition r_reg (base n : Z) : M Z := lift (fun c => load (mem c) (base + 8 * n)).
(** [goto abort_recording] unless [m] returns true. *)
Definition or_abort (m : M bool) : M ins_end :=
  let* ok := m in if ok : bool then set_branch;* rret Recorded else rret Aborted.

(** The detection of loops at the start of [recordIns]; [None]: go on
    with the instruction. *)
Definition check_loop (ins : Z) : M (option ins_end) :=
  let* upd := lift (fun c => Ok (stg_UPD_return_pc (misc c))) in
  let* j := get_jit in
  let* loopentry := (if negb (ins =? upd) then lift (fun _ => BTB.isTrueLoop (btb j) (callStack j) ins)
                     else rret (-1)) in
  if loopentry =? -1 then
    let* b := lift (fun _ => BTB.emit (btb j) (callStack j) ins) in
    mod_jit (fun j => set_btb j b);*
    if 100 <? Z.of_nat (length (btb_entries b)) then abort_with AR_TRACE_TOO_LONG (Some Aborted)
    else rret None
  else if loopentry =? 0 then let* e := r_finish IR_SAVE_LOOP 0 in rret (Some e)
  else
    let* w := lift (fun c => load_ins (mem c) ins) in
    if negb (bool_decide (BcIns.opcode w = Some BcIns.kIFUNC)) then
      let* e := r_finish IR_SAVE_FALLTHROUGH 0 in rret (Some e)
    else rret None.

Definition rec_LOADK (code_info a d : Z) : M ins_end :=
  let* code := lift (fun c => let! i := info_at (mem c) code_info in of_option WildAccess (it_code i)) in
  let* k := lift (fun c => load (mem c) (lits code + 8 * d)) in
  let* ty := lift (fun _ => of_option WildAccess (littypes code !! Z.to_nat d)) in
  let* litref := r_literal (littypeToIRType ty) k in
  r_setSlot a litref;* rret Recorded.

Definition rec_cond (op : BcIns.Opcode) (base a d : Z) : M ins_end :=
  let* x := r_reg base a in
  let* y := r_reg base d in
  let* taken := lift (fun _ => evalCond op x y) in
  let* aref := r_slot a in
  let* bref := r_slot d in
  let* iropc := lift (fun _ => of_option UndefinedOp (comparison (bcCond2irCond op (negb taken)))) in
  r_emit iropc GUARD aref bref;* rret Recorded.

(** [ARITH_OP_RRR] and [ARITH_OP_RR] *)
Definition rec_rrr (irop : Opcode) (a b c : Z) : M ins_end :=
  let* bref := r_slot b in
  let* cref := r_slot c in
  let* aref := r_emit irop (IRType_num IRT_I64) bref cref in
  r_setSlot a aref;* rret Recorded.
Definition rec_rr (irop : Opcode) (a d : Z) : M ins_end :=
  let* dref := r_slot d in
  let* aref := r_emit irop (IRType_num IRT_I64) dref TRef.none in
  r_setSlot a aref;* rret Recorded.
Definition arith_op (op : BcIns.Opcode) : option Opcode :=
  match op with
  | BcIns.kADDRR => Some kADD | BcIns.kSUBRR => Some kSUB | BcIns.kMULRR => Some kMUL
  | BcIns.kREMRR => Some kREM | BcIns.kDIVRR => Some kDIV | BcIns.kBAND => Some kBAND
  | BcIns.kBXOR => Some kBXOR | BcIns.kBOR => Some kBOR | BcIns.kBSHL => Some kBSHL
  | BcIns.kBSHR => Some kBSHR
  | _ => None
  end.

Definition rec_PTROFSC (a b c : Z) : M ins_end :=
  let* ptrref := r_slot b in
  let* ofsref := r_slot c in
  let* aref := r_emit kPLOAD (IRType_num IRT_I64) ptrref ofsref in
  r_setSlot a aref;* rret Recorded.

(** [for (i = 0; i < n; ++i) args[i] = buf_.slot(...)] into an array of
    32 elements. *)
Fixpoint slots (ns : list Z) : M (list Z) :=
  match ns with
  | [] => rret []
  | n :: ns' => let* x := r_slot n in let* xs := slots ns' in rret (x :: xs)
  end.

(** The operand bytes behind an instruction. *)
Definition arg_bytes (p n : Z) : M (list Z) :=
  lift (fun c => fold_right (fun i acc => let! b := load_ins_u1 (mem c) (p + i) in
                                          let! l := acc in Ok (b :: l)) (Ok []) (seqZ 0 n)).

Definition rec_CALLT (ins base a c : Z) : M ins_end :=
  let* clos := r_reg base a in
  let* clos := r_followIndirections fuel a clos in
  require* c <=? 32 in
  let* args := slots (seqZ 0 c) in
  let* node_ref := r_slot a in
  let* ptr_mask := lift (fun k => load_ins (mem k) (ins + 4)) in
  or_abort (recordGenericApply2 (Z.lor c (u4 (Z.shiftl ptr_mask 8))) base node_ref clos args None).

Definition rec_CALL (ins base a c : Z) : M ins_end :=
  let* clos := r_reg base a in
  let* clos := r_followIndirections fuel a clos in
  let* fnode_ref := r_slot a in
  require* c <? 32 in
  let* ptr_mask := lift (fun k => load_ins (mem k) (ins + 4)) in
  let* regs := arg_bytes (ins + 8) c in
  let* args := slots regs in
  let returnPc := ins + 8 + 4 * BcIns.BC_ROUND c + 4 in
  or_abort (recordGenericApply2 (Z.lor c (u4 (Z.shiftl ptr_mask 8))) base fnode_ref clos args
              (Some returnPc)).

Definition rec_EVAL (ins base a : Z) : M ins_end :=
  let* tnode := r_reg base a in
  let* tnode := r_followIndirections fuel a tnode in
  let* noderef := r_slot a in
  specialiseOnInfoTable noderef tnode;*
  let* hnf := lift (fun c => isHNF (mem c) tnode) in
  let* topslot := lift (fun c => Ok ((t_top (currentThread c) - base) / 8)) in
  if hnf : bool then r_setSlot (topslot + FRAME_SIZE) noderef;* rret Recorded
  else
    let* top := r_top in
    require* top =? topslot in
    let* code := r_code tnode in
    let* upd := lift (fun c => Ok (stg_UPD_closure_addr (misc c))) in
    let* upd_clos_lit := r_literal IRT_CLOS upd in
    let* newbase := r_pushFrame base (ins + 8) upd_clos_lit Misc.UPD_frame_size in
    match newbase with
    | None => rret Aborted
    | Some newbase =>
        r_setSlot 0 noderef;*
        r_setSlot 1 TRef.none;*
        let* ret := lift (fun c => Ok (stg_UPD_return_pc (misc c))) in
        let* newbase := r_pushFrame newbase ret noderef (framesize code) in
        match newbase with
        | None => rret Aborted
        | Some _ => clearSlots 0 (framesize code);* set_branch;* rret Recorded
        end
    end.

Definition rec_RET1 (base a : Z) : M ins_end :=
  let* expected := return_guard base in
  return_to expected;*
  let* resultref := r_slot a in
  let* top := r_top in
  clearSlots (-3) top;*
  r_setSlot 0 resultref;*
  or_abort (return_frame base).

Definition rec_RETN (base a : Z) : M ins_end :=
  let* expected := return_guard base in
  return_to expected;*
  clearSlots (-3) 0;*
  let* top := r_top in
  clearSlots a top;*
  or_abort (return_frame base).

Definition rec_MOV_RES (a d : Z) : M ins_end :=
  let* topslot := r_top in
  let resultslot := topslot + FRAME_SIZE + d in
  let* result := r_slot resultslot in
  r_setSlot resultslot TRef.none;*
  r_setSlot a result;* rret Recorded.

Definition rec_UPDATE (base a d : Z) : M ins_end :=
  let* oldnode := r_reg base a in
  let* type := r_type oldnode in
  if bool_decide (type = CAF) then abort_with AR_NYI Aborted
  else
    let* oldref := r_slot a in
    let* newref := r_slot d in
    specialiseOnInfoTable oldref oldnode;*
    r_emit kUPDATE (IRType_num IRT_VOID) oldref newref;* rret Recorded.

Definition rec_load (a slot field : Z) : M ins_end :=
  let* rbase := r_slot slot in
  let* res := loadField rbase field IRT_UNKNOWN in
  r_setSlot a res;* rret Recorded.

Definition rec_ALLOC1 (a b c : Z) : M ins_end :=
  let* itbl := r_slot b in
  let* field := r_slot c in
  r_emitHeapCheck 2;*
  let* '(clos, entry) := r_emitNEW itbl 1 in
  r_setField entry 0 field;*
  r_setSlot a clos;* rret Recorded.

(** The end of ALLOC and ALLOCAP. *)
Fixpoint slot_fields (entry i : Z) (regs : list Z) : M () :=
  match regs with
  | [] => rret ()
  | n :: regs' => let* x := r_slot n in r_setField entry i x;* slot_fields entry (i + 1) regs'
  end.
Definition rec_new (itbl a : Z) (regs : list Z) : M ins_end :=
  let* '(clos, entry) := r_emitNEW itbl (Z.of_nat (length regs)) in
  slot_fields entry 0 regs;*
  r_setSlot a clos;* rret Recorded.
Definition rec_ALLOC (ins a b c : Z) : M ins_end :=
  let* itbl := r_slot b in
  r_emitHeapCheck (1 + c);*
  let* regs := arg_bytes (ins + 4) c in
  slots regs;*
  rec_new itbl a regs.
Definition rec_ALLOCAP (ins a b c : Z) : M ins_end :=
  r_emitHeapCheck (1 + (c + 1));*
  let* regs := arg_bytes (ins + 4) (c + 1) in
  slots regs;*
  let* info := r_getApInfo c b in
  let* itbl := r_literal IRT_INFO info in
  rec_new itbl a regs.

Definition rec_CASE (base a : Z) : M ins_end :=
  let* cl := r_reg base a in
  let* clos := r_slot a in
  specialiseOnInfoTable clos cl;* rret Recorded.

(** The loop over the parents ends either way with a link to [F]. *)
Fixpoint parent_loop (n : nat) (fs : list Fragment) (F : Z) (p : option Z) : outcome (option Z) :=
  match n, p with
  | O, _ => Err OutOfFuel
  | S n', Some id =>
      if F =? id then Ok (Some id)
      else let! P := of_option WildAccess (fs !! Z.to_nat id) in parent_loop n' fs F (fr_parent P)
  | S _, None => Ok None
  end.
Definition rec_JFUNC (ins : Z) : M ins_end :=
  let* F := map_jit (fun j => Ok (lookupFragment j ins)) in
  let* j := get_jit in
  let* found := lift (fun _ => parent_loop (S (length (fragments j))) (fragments j) F (parent j)) in
  match found with
  | Some p => r_finish IR_SAVE_LINK p
  | None =>
      let* Fr := lift (fun _ => of_option WildAccess (fragments j !! Z.to_nat F)) in
      require* fr_startPc Fr =? ins in
      r_finish IR_SAVE_LINK (fr_traceId Fr)
  end.

Definition rec_GETTAG (base a d : Z) : M ins_end :=
  let* cl := r_reg base d in
  let* ind := lift (fun c => Objects.isIndirection (mem c) cl) in
  let* hnf := lift (fun c => isHNF (mem c) cl) in
  require* negb ind && hnf in
  let* s := r_slot d in
  specialiseOnInfoTable s cl;*
  let* t := lift (fun c => tag (mem c) cl) in
  let* taglit := r_literal IRT_I64 (u8 (t - 1)) in
  r_setSlot a taglit;* rret Recorded.

(** The [switch] of [recordIns]; the case of JFUNC always returns, so it
    never falls through to GETTAG. *)
Definition rec_switch (w ins base code_info : Z) : M ins_end :=
  let a := BcIns.a w in
  let b := BcIns.b w in
  let c := BcIns.c w in
  let d := BcIns.d w in
  match BcIns.opcode w with
  | None => rret Aborted
  | Some op =>
      match op with
      | BcIns.kIFUNC | BcIns.kFUNC => r_frame base (base + 8 * a);* rret Recorded
      | BcIns.kLOADK => rec_LOADK code_info a d
      | BcIns.kISGT | BcIns.kISLT | BcIns.kISGE | BcIns.kISLE | BcIns.kISGTU | BcIns.kISLTU
      | BcIns.kISGEU | BcIns.kISLEU | BcIns.kISEQ | BcIns.kISNE => rec_cond op base a d
      | BcIns.kADDRR | BcIns.kSUBRR | BcIns.kMULRR | BcIns.kREMRR | BcIns.kDIVRR | BcIns.kBAND
      | BcIns.kBXOR | BcIns.kBOR | BcIns.kBSHL | BcIns.kBSHR =>
          match arith_op op with Some irop => rec_rrr irop a b c | None => rret Aborted end
      | BcIns.kNEG => rec_rr kNEG a d
      | BcIns.kBNOT => rec_rr kBNOT a d
      | BcIns.kPTROFSC => rec_PTROFSC a b c
      | BcIns.kCALLT => rec_CALLT ins base a c
      | BcIns.kCALL => rec_CALL ins base a c
      | BcIns.kMOV => let* x := r_slot d in r_setSlot a x;* rret Recorded
      | BcIns.kLOADSLF => let* x := r_slot (-1) in r_setSlot a x;* rret Recorded
      | BcIns.kEVAL => rec_EVAL ins base a
      | BcIns.kIRET | BcIns.kRET1 => rec_RET1 base a
      | BcIns.kRETN => rec_RETN base a
      | BcIns.kMOV_RES => rec_MOV_RES a d
      | BcIns.kUPDATE => rec_UPDATE base a d
      | BcIns.kLOADF => rec_load a b c
      | BcIns.kLOADFV => rec_load a (-1) d
      | BcIns.kALLOC1 => rec_ALLOC1 a b c
      | BcIns.kALLOC => rec_ALLOC ins a b c
      | BcIns.kALLOCAP => rec_ALLOCAP ins a b c
      | BcIns.kCASE_S | BcIns.kCASE => rec_CASE base a
      | BcIns.kJMP => rret Recorded
      | BcIns.kJFUNC => rec_JFUNC ins
      | BcIns.kGETTAG => rec_GETTAG base a d
      | _ => rret Aborted
      end
  end.

(** The statements before the switch. *)
Definition rec_begin_ins (ins : Z) (j : Jit A) : Jit A :=
  let b := buf j in
  set_buf j (mkIRB (b_code b) (b_flags b) (b_fold b) (b_slots b) (b_snapmap b) (b_snaps b) (b_heap b)
               (u4 (b_steps b + 1)) ins).
Definition recordIns_body (ins base code_info : Z) : M ins_end :=
  let* j := get_jit in
  if shouldAbort j then abort_with AR_INTERPRETER_REQUEST Aborted
  else
    mod_jit (rec_begin_ins ins);*
    let* e := (if Flags32.get (jflags j) kLastInsWasBranch then check_loop ins else rret None) in
    match e with
    | Some e => rret e
    | None =>
        mod_jit (fun j => set_jflags j (Flags32.clear (jflags j) kLastInsWasBranch));*
        let* j := get_jit in
        require* recording j in
        let* w := lift (fun c => load_ins (mem c) ins) in
        rec_switch w ins base code_info
    end.

(** [recordIns]: true when recording has ended. *)
Definition recordIns (cap : Capability H (Jit A)) (ins base code_info : Z)
  : outcome (Capability H (Jit A) * bool) :=
  let! '(c, r) := recordIns_body ins base code_info cap in
  match r with
  | Val Recorded => Ok (c, false)
  | Val Finished => Ok (c, true)
  | Val Aborted => Ok (set_cap_jit c (resetRecorderState (count_abort (jit c))), true)
  | Throw =>
      Ok (set_cap_jit c (resetRecorderState
                           (count_reason (count_abort (jit c)) AR_KNOWN_TO_FAIL_GUARD)), true)
  end.
End recorder.
