(* ===== verification/AsmState.v ===== *)
(** * The assembler: state and register allocation ([assembler.hh], [assembler.cc])

    Code is generated from the last instruction to the first.  A
    register is taken at the last use of a value and given back at its
    definition; a value that loses its register gets a spill slot, is
    reloaded where it lost the register, and stored where it is defined.
    The file has the state of the assembler, a monad of functions on it,
    and the allocator.  In the names of the fields the prefix [mc] of the
    source stays; [bufir] is [ir()]. *)

From S2P Require Import Prelude Words Hotness IR Registers X86.

(** ** State *)

(** The sets, costs and spill slots of the allocator. *)
Record RegAlloc := mkRA {
  freeset : Z;
  modset : Z;
  phiset : Z;
  cost : list Z;
  spills : list Z
}.

(** The pointers into the code area apart from [mcp]; 0 is the null
    pointer. *)
Record CodeArea := mkArea {
  mcend : Z;
  mclim : Z;
  mcbot : Z;
  mctop : Z;
  mcQuickHeapCheck : Z
}.

(** [exitStubGroup] and [options] are fields of [Jit], [mcode] is its
    [MachineCode]. *)
Record Assembler := mkAsm {
  mcode : MachineCode.t;
  code : Code;
  area : CodeArea;
  numHeapChecks : Z;
  abuf : IRBuffer;
  nins : Z;
  curins : Z;
  astopins : Z;
  snapno : Z;
  ra : RegAlloc;
  mrm : x86ModRM;
  exitStubGroup : list Z;
  options : Z
}.

Definition set_mcode (m : MachineCode.t) (a : Assembler) : Assembler :=
  mkAsm m (code a) (area a) (numHeapChecks a) (abuf a) (nins a) (curins a) (astopins a) (snapno a)
    (ra a) (mrm a) (exitStubGroup a) (options a).
Definition set_acode (c : Code) (a : Assembler) : Assembler :=
  mkAsm (mcode a) c (area a) (numHeapChecks a) (abuf a) (nins a) (curins a) (astopins a) (snapno a)
    (ra a) (mrm a) (exitStubGroup a) (options a).
Definition set_area (r : CodeArea) (a : Assembler) : Assembler :=
  mkAsm (mcode a) (code a) r (numHeapChecks a) (abuf a) (nins a) (curins a) (astopins a) (snapno a)
    (ra a) (mrm a) (exitStubGroup a) (options a).
Definition set_abuf (b : IRBuffer) (a : Assembler) : Assembler :=
  mkAsm (mcode a) (code a) (area a) (numHeapChecks a) b (nins a) (curins a) (astopins a) (snapno a)
    (ra a) (mrm a) (exitStubGroup a) (options a).
Definition set_pos (n cur stop checks : Z) (a : Assembler) : Assembler :=
  mkAsm (mcode a) (code a) (area a) checks (abuf a) n cur stop (snapno a)
    (ra a) (mrm a) (exitStubGroup a) (options a).
Definition set_curins (cur : Z) (a : Assembler) : Assembler :=
  mkAsm (mcode a) (code a) (area a) (numHeapChecks a) (abuf a) (nins a) cur (astopins a) (snapno a)
    (ra a) (mrm a) (exitStubGroup a) (options a).
Definition set_snapno (n : Z) (a : Assembler) : Assembler :=
  mkAsm (mcode a) (code a) (area a) (numHeapChecks a) (abuf a) (nins a) (curins a) (astopins a) n
    (ra a) (mrm a) (exitStubGroup a) (options a).
Definition set_ra (r : RegAlloc) (a : Assembler) : Assembler :=
  mkAsm (mcode a) (code a) (area a) (numHeapChecks a) (abuf a) (nins a) (curins a) (astopins a)
    (snapno a) r (mrm a) (exitStubGroup a) (options a).
Definition set_mrm (x : x86ModRM) (a : Assembler) : Assembler :=
  mkAsm (mcode a) (code a) (area a) (numHeapChecks a) (abuf a) (nins a) (curins a) (astopins a)
    (snapno a) (ra a) x (exitStubGroup a) (options a).
Definition set_stubs (l : list Z) (a : Assembler) : Assembler :=
  mkAsm (mcode a) (code a) (area a) (numHeapChecks a) (abuf a) (nins a) (curins a) (astopins a)
    (snapno a) (ra a) (mrm a) l (options a).

(** The constructor. *)
Definition Assembler_init (m : MachineCode.t) (b : IRBuffer) (options : Z) : Assembler :=
  mkAsm m (mkBytes ∅ 0) (mkArea 0 0 0 0 0) 0 b 0 0 0 0 (mkRA 0 0 0 [] []) (mkMRM 0 0 0 0)
    (replicate 16 0) options.

(** ** Functions on the state that may fail *)

Definition M (A : Type) : Type := Assembler -> outcome (A * Assembler).
Definition aret {A} (x : A) : M A := fun a => Ok (x, a).
Definition abind {A B} (m : M A) (k : A -> M B) : M B :=
  fun a => let! '(x, a) := m a in k x a.
Definition get : M Assembler := fun a => Ok (a, a).
Definition modify (f : Assembler -> Assembler) : M () := fun a => Ok (tt, f a).
Definition fail {A} (e : fault) : M A := fun _ => Err e.
Definition alift {A} (m : outcome A) : M A := fun a => let! x := m in Ok (x, a).

Declare Scope asm_scope.
Delimit Scope asm_scope with asm.
Notation "'let*' x := m 'in' k" := (abind m (fun x => k))
  (at level 10, x binder, m at level 100, k at level 200) : asm_scope.
Notation "m ;* k" := (abind m (fun _ => k)) (at level 99, right associativity) : asm_scope.
Open Scope asm_scope.

(** [LC_ASSERT] *)
Definition lc_assert (b : bool) : M () := if b then aret tt else fail AssertFailed.
(** Emitting. *)
Definition emitc (f : Code -> Code) : M () := modify (fun a => set_acode (f (code a)) a).
Definition emito (f : Code -> outcome Code) : M () :=
  fun a => let! c := f (code a) in Ok (tt, set_acode c a).

(** ** Instructions and registers *)
Definition a_ir (a : Assembler) (ref : Z) : IR := raw_ir (b_code (abuf a)) ref.
Definition bufir (ref : Z) : M IR := fun a => Ok (a_ir a ref, a).
Definition upd_a (f : IR -> IR) (ref : Z) (a : Assembler) : Assembler :=
  set_abuf (set_code (abuf a) (set_ir (b_code (abuf a)) ref (f (a_ir a ref)))) a.
Definition upd_ir (f : IR -> IR) (ref : Z) : M () := modify (upd_a f ref).
Definition set_free (f : Z) (a : Assembler) : Assembler :=
  let r := ra a in set_ra (mkRA f (modset r) (phiset r) (cost r) (spills r)) a.
Definition set_mod (s : Z) (a : Assembler) : Assembler :=
  let r := ra a in set_ra (mkRA (freeset r) s (phiset r) (cost r) (spills r)) a.
Definition set_cost (r c : Z) (a : Assembler) : Assembler :=
  let s := ra a in
  set_ra (mkRA (freeset s) (modset s) (phiset s) (<[Z.to_nat r := c]> (cost s)) (spills s)) a.
Definition set_spills (l : list Z) (a : Assembler) : Assembler :=
  let r := ra a in set_ra (mkRA (freeset r) (modset r) (phiset r) (cost r) l) a.
Definition a_cost (a : Assembler) (r : Z) : Z := default RegCost.init (cost (ra a) !! Z.to_nat r).

Definition free_a (r : Z) (a : Assembler) : Assembler := set_free (RegSet.set (freeset (ra a)) r) a.
Definition use_a (r : Z) (a : Assembler) : Assembler := set_free (RegSet.clear (freeset (ra a)) r) a.
Definition mod_a (r : Z) (a : Assembler) : Assembler := set_mod (RegSet.set (modset (ra a)) r) a.
Definition freeReg (r : Z) : M () := modify (free_a r).
Definition useReg (r : Z) : M () := modify (use_a r).
Definition modifiedReg (r : Z) : M () := modify (mod_a r).
Definition hasFreeReg : M bool := fun a => Ok (negb (RegSet.isEmpty (freeset (ra a))), a).

Definition canRemat (ref : Z) : bool := ref <? REF_BIAS.

(** [spillOffset] and [spill] *)
Definition spillOffset (slot : Z) : Z := SPILL_SP_OFFS + 8 * u1 slot.
Definition spills_alloc : M Z :=
  fun a => let! '(l, s) := SpillSet.alloc (spills (ra a)) in Ok (s, set_spills l a).
Definition spill (ref : Z) : M Z :=
  let* ins := bufir ref in
  let* slot := (if ir_spill ins =? 0 then
                  let* s := spills_alloc in
                  upd_ir (fun i => setSpill i s) ref;* aret s
                else aret (ir_spill ins)) in
  aret (spillOffset slot).

(** ** Giving a register back *)

(** [IRBuffer::literalValue] *)
Definition a_literalValue (ref : Z) : M Z :=
  fun a => let! k := literalValue (b_code (abuf a)) (b_slots (abuf a)) ref in Ok (k, a).

Definition rematConstant (ref : Z) : M Z :=
  let* ins := bufir ref in
  let r := ir_reg ins in
  lc_assert (isReg r && (ir_spill ins =? 0));*
  freeReg r;*
  modifiedReg r;*
  upd_ir (fun i => setReg i RID_INIT) ref;*
  (if bool_decide (ir_o ins = kKINT) || bool_decide (ir_o ins = kKWORD) then
     let* k := a_literalValue ref in
     emitc (loadi_u64 r k)
   else
     lc_assert (bool_decide (ir_o ins = kKBASEO));*
     emitc (emit_rmro XO_LEA (Z.lor r REX_64) RID_BASE (i4 (i32 ins * 8))));*
  aret r.

Definition restoreReg (ref : Z) : M Z :=
  if canRemat ref then rematConstant ref
  else
    let* ofs := spill ref in
    let* ins := bufir ref in
    let r := ir_reg ins in
    lc_assert (isReg r);*
    upd_ir (fun i => setHint i r) ref;*
    freeReg r;*
    emitc (load_u64 r RID_ESP ofs);*
    aret r.

(** [evictReg]: the macro [MINCOST] for each general-purpose register. *)
Definition mincost (a : Assembler) (allow : Z) : Z :=
  fold_left (fun c r =>
      if RegSet.test kGPR r && RegSet.test allow r && (a_cost a r <? c) then a_cost a r else c)
    (map Z.of_nat (seq 0 16)) RegCost.maxCost.
Definition evictReg (allow : Z) : M Z :=
  lc_assert (negb (RegSet.isEmpty allow));*
  if allow <? Z.shiftl 1 RID_MAX_GPR then
    let* a := get in restoreReg (RegCost.ref (mincost a allow))
  else fail (Exited 13).

(** A loop over the members of a set, from the lowest on. *)
Fixpoint for_regs (fuel : nat) (work : Z) (f : Z -> M ()) : M () :=
  match fuel with
  | O => fail OutOfFuel
  | S fuel' =>
      if RegSet.isEmpty work then aret tt
      else
        let r := RegSet.pickBot work in
        f r;* for_regs fuel' (RegSet.clear work r) f
  end.
Definition regs_fuel : nat := 33.

Definition evictConstants : M () :=
  let* a := get in
  for_regs regs_fuel (RegSet.intersect (RegSet.complement (freeset (ra a))) kGPR) (fun r =>
    let* a := get in
    let ref := RegCost.ref (a_cost a r) in
    if canRemat ref && irref_islit ref then rematConstant ref;* aret tt else aret tt).

Definition evictSet (drop : Z) : M () :=
  let* a := get in
  let work := RegSet.intersect (RegSet.intersect drop (RegSet.complement (freeset (ra a)))) kGPR in
  for_regs regs_fuel work (fun r =>
    let* a := get in
    restoreReg (RegCost.ref (a_cost a r));* aret tt).

(** ** Taking a register *)

(** The register [allocRef] picks: the hint, when it is free or holds a
    constant, else the lowest free register, else an evicted one. *)
Definition pick_for (ins : IR) (allow : Z) : M Z :=
  let* a := get in
  let pick := RegSet.intersect (freeset (ra a)) allow in
  if negb (RegSet.isEmpty pick) then
    let r := getHint (ir_reg ins) in
    if hasHint (ir_reg ins) && RegSet.test pick r then aret r
    else if hasHint (ir_reg ins) && RegSet.test allow r && canRemat (RegCost.ref (a_cost a r)) then
      rematConstant (RegCost.ref (a_cost a r));* aret r
    else aret (RegSet.pickBot pick)
  else evictReg allow.
Definition allocRef (ref allow : Z) : M Z :=
  let* ins := bufir ref in
  lc_assert (isNoReg (ir_reg ins));*
  let* r := pick_for ins allow in
  upd_ir (fun i => setReg i r) ref;*
  useReg r;*
  modify (set_cost r (RegCost.make ref (ir_t ins)));*
  aret r.

Definition alloc1 (ref allow : Z) : M Z :=
  let* ins := bufir ref in
  if isNoReg (ir_reg ins) then allocRef ref allow else aret (ir_reg ins).

Definition pickReg (allow : Z) : M Z :=
  let* a := get in
  let pick := RegSet.intersect (freeset (ra a)) allow in
  if RegSet.isEmpty pick then evictReg allow else aret (RegSet.pickTop pick).
Definition allocScratchReg (allow : Z) : M Z :=
  let* r := pickReg allow in modifiedReg r;* aret r.

(** [saveReg] and [destReg] *)
Definition saveReg (ref r : Z) : M () :=
  let* ins := bufir ref in emitc (store_u64 RID_ESP (spillOffset (ir_spill ins)) r).
Definition destReg (ref allow : Z) : M Z :=
  let* a := get in
  let dest := ir_reg (a_ir a ref) in
  let* dest :=
    (if isReg dest then freeReg dest;* modifiedReg dest;* aret dest
     else
       let* d := (if hasHint dest
                     && RegSet.test (RegSet.intersect (freeset (ra a)) allow) (getHint dest)
                  then modifiedReg (getHint dest);* aret (getHint dest)
                  else allocScratchReg allow) in
       upd_ir (fun i => setReg i d) ref;* aret d) in
  let* ins := bufir ref in
  (if negb (ir_spill ins =? 0) then saveReg ref dest else aret tt);*
  aret dest.

(** [allocLeft]: the value of [lref] gets into [dest]. *)
Definition allocLeft (dest lref : Z) : M () :=
  let* ins := bufir lref in
  let lreg := ir_reg ins in
  if negb (isReg lreg) && irref_islit lref then
    upd_ir (fun i => setReg i dest) lref;* rematConstant lref;* aret tt
  else
    let* lreg :=
      (if negb (isReg lreg) then
         (if negb (hasHint lreg) then upd_ir (fun i => setHint i dest) lref else aret tt);*
         lc_assert (dest <? RID_MAX_GPR);*
         allocRef lref kGPR
       else aret lreg) in
    if negb (dest =? lreg) then emitc (move dest lreg) else aret tt.

(** [swapOperands] *)
Definition swapOperands (ins : IR) : M bool :=
  let* l := bufir (op1 ins) in
  let* r := bufir (op2 ins) in
  lc_assert (negb (isReg (ir_reg r)));*
  aret (if negb (isCommutative (ir_o ins)) then false
        else if irref_islit (op2 ins) then false
        else isReg (ir_reg l) || sameHint (ir_reg l) (ir_reg r)).

(** [fuseLoad] and [is32BitLiteral] *)
Definition fuseLoad (ref allow : Z) : M Z :=
  let* ins := bufir ref in
  if isReg (ir_reg ins) then
    if negb (RegSet.isEmpty allow) then aret (ir_reg ins)
    else
      let* ofs := spill ref in
      let* a := get in
      modify (set_mrm (mkMRM ofs RID_ESP RID_NONE (mrm_scale (mrm a))));*
      aret RID_MRM
  else allocRef ref allow.
Definition is32BitLiteral (ref : Z) : M (option Z) :=
  let* ins := bufir ref in
  if irref_islit ref && negb (bool_decide (ir_o ins = kKBASEO)) then
    let* k := a_literalValue ref in
    aret (if checki32 k then Some (i4 k) else None)
  else aret None.
