(* ===== verification/AsmInv.v ===== *)
(** * The invariant of the register allocator

    At every point of the backward walk the registers that are not free
    hold exactly the references that have a register, and spill slots
    belong to one reference each.  [agree] relates the state of the
    allocator to a state of the processor at the start of the code that
    has been emitted so far. *)

From S2P Require Import Prelude Words Hotness IR Registers X86 X86Sem X86Proofs AsmState.

(** ** Functions on the state *)

Lemma abind_ok {A B} (m : M A) (k : A -> M B) a r :
  abind m k a = Ok r <-> exists x a1, m a = Ok (x, a1) /\ k x a1 = Ok r.
Proof.
  unfold abind. rewrite obind_ok. split.
  - intros ([x a1] & H1 & H2). eauto.
  - intros (x & a1 & H1 & H2). exists (x, a1). eauto.
Qed.
Lemma lc_assert_ok b a x a' : lc_assert b a = Ok (x, a') -> b = true /\ a' = a.
Proof. unfold lc_assert. destruct b; [|done]. by intros [= _ <-]. Qed.
Lemma alift_ok {A} (m : outcome A) a x a' : alift m a = Ok (x, a') -> m = Ok x /\ a' = a.
Proof. unfold alift. destruct m; cbn; [|done]. by intros [= <- <-]. Qed.
Lemma emito_ok f a x a' : emito f a = Ok (x, a') -> exists c, f (code a) = Ok c /\ a' = set_acode c a.
Proof. unfold emito. destruct (f (code a)); cbn; [|done]. intros [= _ <-]. eauto. Qed.

Lemma aret_ok {A} (x : A) a y a' : aret x a = Ok (y, a') -> y = x /\ a' = a.
Proof. by intros [= -> ->]. Qed.
Lemma get_ok a x a' : get a = Ok (x, a') -> x = a /\ a' = a.
Proof. by intros [= -> ->]. Qed.
Lemma bufir_ok ref a x a' : bufir ref a = Ok (x, a') -> x = a_ir a ref /\ a' = a.
Proof. by intros [= -> ->]. Qed.
Lemma modify_ok f a x a' : modify f a = Ok (x, a') -> x = tt /\ a' = f a.
Proof. by intros [= -> ->]. Qed.
Lemma a_literalValue_ok ref a x a' :
  a_literalValue ref a = Ok (x, a') -> literalValue (b_code (abuf a)) (b_slots (abuf a)) ref = Ok x /\ a' = a.
Proof. unfold a_literalValue. destruct (literalValue _ _ _); cbn; [|done]. by intros [= -> ->]. Qed.

(** Inversion of a computation that ended. *)
Ltac inv_pair H :=
  let H1 := fresh "E" in let H2 := fresh "E" in
  destruct H as [H1 H2];
  lazymatch type of H2 with ?a' = _ => try subst a' end;
  lazymatch type of H1 with ?x = _ => try subst x | _ => idtac end.
Ltac inv_ret H :=
  let H1 := fresh "E" in let H2 := fresh "E" in
  destruct H as [H1 H2];
  lazymatch type of H2 with ?a' = _ => try subst a' end;
  lazymatch type of H1 with ?x = ?y => first [subst y | subst x | idtac] end.
Ltac inv_asm_step :=
  match goal with
  | H : abind _ _ _ = Ok _ |- _ =>
      let x := fresh "x" in let a := fresh "a" in let H1 := fresh "H" in
      apply abind_ok in H; destruct H as (x & a & H1 & H)
  | H : aret _ _ = Ok _ |- _ => apply aret_ok in H; inv_ret H
  | H : get _ = Ok _ |- _ => apply get_ok in H; inv_pair H
  | H : bufir _ _ = Ok _ |- _ => apply bufir_ok in H; inv_pair H
  | H : modify _ _ = Ok _ |- _ => apply modify_ok in H; inv_pair H
  | H : emitc _ _ = Ok _ |- _ => apply modify_ok in H; inv_pair H
  | H : upd_ir _ _ _ = Ok _ |- _ => apply modify_ok in H; inv_pair H
  | H : freeReg _ _ = Ok _ |- _ => apply modify_ok in H; inv_pair H
  | H : useReg _ _ = Ok _ |- _ => apply modify_ok in H; inv_pair H
  | H : modifiedReg _ _ = Ok _ |- _ => apply modify_ok in H; inv_pair H
  | H : fail _ _ = Ok _ |- _ => discriminate H
  | H : lc_assert _ _ = Ok _ |- _ => apply lc_assert_ok in H; inv_pair H
  | H : alift _ _ = Ok _ |- _ => apply alift_ok in H; inv_pair H
  | H : a_literalValue _ _ = Ok _ |- _ => apply a_literalValue_ok in H; inv_pair H
  end.
Ltac inv_asm := repeat (inv_asm_step; cbn beta iota in *).

(** ** Instructions *)

Lemma ir_reg_setReg i r : 0 <= r < 256 -> ir_reg (setReg i r) = r.
Proof.
  intros Hr. unfold ir_reg, setReg, setPrev, REGSP, ir_spill. cbn [ir_prev].
  rewrite Z.shiftl_mul_pow2 by lia. unfold u1, u2, to_u. change (2 ^ 8) with 256. change (2 ^ 16) with 65536.
  Z.to_euclidean_division_equations. lia.
Qed.
Lemma u1_range x : 0 <= u1 x < 256.
Proof. apply (to_u_bound 8). lia. Qed.
Lemma ir_spill_setReg i r : ir_spill (setReg i r) = ir_spill i.
Proof.
  unfold ir_spill at 1, setReg, setPrev, REGSP. cbn [ir_prev].
  pose proof (u1_range r). assert (Hs : 0 <= ir_spill i < 256) by apply u1_range.
  revert Hs H. generalize (ir_spill i) as s, (u1 r) as b. intros s b Hs Hb.
  rewrite Z.shiftl_mul_pow2, Z.shiftr_div_pow2 by lia.
  unfold u1, u2, to_u. change (2 ^ 8) with 256. change (2 ^ 16) with 65536.
  Z.to_euclidean_division_equations. lia.
Qed.
Lemma ir_spill_setSpill i s : 0 <= s < 256 -> ir_spill (setSpill i s) = s.
Proof.
  intros Hr. unfold ir_spill, setSpill, setPrev, REGSP. cbn [ir_prev].
  replace (u1 s) with s by (symmetry; apply (to_u_id 8); lia). assert (Hb : 0 <= ir_reg i < 256) by apply u1_range.
  rewrite Z.shiftl_mul_pow2, Z.shiftr_div_pow2 by lia. unfold u1, u2, to_u. change (2 ^ 8) with 256.
  change (2 ^ 16) with 65536. Z.to_euclidean_division_equations. lia.
Qed.
Lemma ir_reg_setSpill i s : ir_reg (setSpill i s) = ir_reg i.
Proof.
  unfold ir_reg at 1, setSpill, setPrev, REGSP. cbn [ir_prev].
  pose proof (u1_range s). assert (Hb : 0 <= ir_reg i < 256) by apply u1_range.
  rewrite Z.shiftl_mul_pow2 by lia. unfold u1 at 1, u2, to_u. change (2 ^ 8) with 256.
  change (2 ^ 16) with 65536. Z.to_euclidean_division_equations. lia.
Qed.

(** The instruction without its register and spill slot. *)
Definition shape (i : IR) : IR := mkIR (ir_o i) (ir_t i) (op12 i) 0.

Definition reg (a : Assembler) (ref : Z) : Z := ir_reg (a_ir a ref).
Definition spl (a : Assembler) (ref : Z) : Z := ir_spill (a_ir a ref).
Definition free (a : Assembler) (r : Z) : bool := RegSet.test (freeset (ra a)) r.
Definition owner (a : Assembler) (r : Z) : Z := RegCost.ref (a_cost a r).

Lemma a_ir_upd f ref a r : a_ir (upd_a f ref a) r = if r =? ref then f (a_ir a ref) else a_ir a r.
Proof.
  unfold a_ir, upd_a, set_abuf, set_code, set_ir, raw_ir. cbn. destruct (Z.eqb_spec r ref) as [->|Hne].
  - by rewrite lookup_insert_eq.
  - by rewrite lookup_insert_ne.
Qed.
Lemma spl_byte a ref : 0 <= spl a ref < 256.
Proof. apply u1_range. Qed.
Lemma reg_byte a ref : 0 <= reg a ref < 256.
Proof. apply u1_range. Qed.

(** The parts of the state the allocator does not change: all but the
    code, the registers and spill slots, and the branches of snapshots. *)
Definition erase (a : Assembler) : Assembler :=
  let b := abuf a in
  let c := b_code b in
  mkAsm (mcode a) (mkBytes ∅ 0) (area a) (numHeapChecks a)
    (mkIRB (mkCode ∅ (c_bufmin c) (c_bufmax c) (c_bufstart c) (c_bufend c) (c_chain c)) (b_flags b)
       (b_fold b) (b_slots b) (b_snapmap b)
       (map (fun s => mkSnap (sn_ref s) (sn_mapofs s) (sn_relbase s) (sn_entries s) (sn_framesize s)
                        (sn_exitCounter s) (sn_steps s) (sn_lastHeapEntry s) (sn_pc s) 0) (b_snaps b))
       (b_heap b) (b_steps b) (b_pc b))
    (nins a) (curins a) (astopins a) (snapno a) (mkRA 0 0 0 [] []) (mkMRM 0 0 0 0) (exitStubGroup a)
    (options a).

(** ** The invariant *)

Definition bufmin (a : Assembler) : Z := c_bufmin (b_code (abuf a)).
(** References defined before [n]. *)
Definition live (a : Assembler) (n ref : Z) : Prop := bufmin a <= ref < n.
Import RegSetProofs.

Record ra_ok (a : Assembler) (n : Z) : Prop := {
  ro_bounds : 0 < bufmin a /\ n <= nins a <= 65536;
  ro_freeset : 0 <= freeset (ra a);
  ro_free : forall r, 0 <= r -> free a r = true -> in_gpr r;
  ro_used : forall r, in_gpr r -> free a r = false -> live a n (owner a r) /\ reg a (owner a r) = r;
  ro_reg : forall ref, live a n ref -> isReg (reg a ref) = true ->
    in_gpr (reg a ref) /\ free a (reg a ref) = false /\ owner a (reg a ref) = ref /\ ref <> REF_BASE;
  ro_cost : length (cost (ra a)) = 32%nat /\ Forall (fun c => 0 <= c < 2 ^ 32) (cost (ra a));
  ro_spills : SpillProofs.wf (spills (ra a));
  ro_slot : forall ref, live a (nins a) ref -> spl a ref <> 0 ->
    REF_FIRST <= ref /\ SpillSet.avail (spills (ra a)) (spl a ref) = false;
  ro_inj : forall r1 r2, live a (nins a) r1 -> live a (nins a) r2 -> spl a r1 <> 0 ->
    spl a r1 = spl a r2 -> r1 = r2
}.

(** Instructions that have a value, and references that have been given
    a place for it. *)
Definition is_value (op : Opcode) : bool :=
  match op with
  | kKINT | kKWORD | kKBASEO | kBNOT | kBAND | kBOR | kBXOR | kBSHL | kBSHR | kBSAR | kADD | kSUB
  | kMUL | kDIV | kREM | kNEG | kFLOAD | kSLOAD | kPLOAD | kNEW => true
  | _ => false
  end.
Definition placed (a : Assembler) (ref : Z) : Prop := isReg (reg a ref) = true \/ spl a ref <> 0.
Definition value_ref (a : Assembler) (ref : Z) : Prop := is_value (ir_o (a_ir a ref)) = true.

(** What an operation of the allocator leaves alone: the instructions, the
    references from [n] on, spill slots that were given out, and the
    register of a reference that has no spill slot. *)
Record ext (n : Z) (a a' : Assembler) : Prop := {
  ex_erase : erase a' = erase a;
  ex_shape : forall ref, shape (a_ir a' ref) = shape (a_ir a ref);
  ex_above : forall ref, n <= ref -> a_ir a' ref = a_ir a ref;
  ex_spill : forall ref, spl a ref <> 0 -> spl a' ref = spl a ref;
  ex_reg : forall ref, REF_BIAS <= ref -> isReg (reg a ref) = true ->
    reg a' ref = reg a ref \/ spl a' ref <> 0;
  ex_new : forall ref, placed a' ref -> placed a ref \/ value_ref a ref
}.
#[export] Instance ext_preorder n : PreOrder (ext n).
Proof.
  split.
  - intros a. split; auto.
  - intros a b c [E1 S1 A1 P1 R1 N1] [E2 S2 A2 P2 R2 N2]. split.
    + congruence.
    + intros ref. by rewrite S2.
    + intros ref Hr. rewrite A2; auto.
    + intros ref Hr. rewrite P2; [auto|]. by rewrite P1.
    + intros ref Hb Hr. destruct (R1 ref Hb Hr) as [E|E].
      * rewrite <- E in Hr. destruct (R2 ref Hb Hr) as [E'|E']; [left; congruence|by right].
      * right. by rewrite P2.
    + intros ref Hp. destruct (N2 ref Hp) as [?|Hv]; [auto|]. right. unfold value_ref in *.
      pose proof (f_equal ir_o (S1 ref)) as Eo. cbn in Eo. by rewrite <- Eo.
Qed.

Section erase.
Context (a a' : Assembler) (E : erase a' = erase a).
Lemma erase_code : bufmin a' = bufmin a /\ c_bufmax (b_code (abuf a')) = c_bufmax (b_code (abuf a))
  /\ nins a' = nins a.
Proof using E.
  split_and!.
  - exact (f_equal (fun x => c_bufmin (b_code (abuf x))) E).
  - exact (f_equal (fun x => c_bufmax (b_code (abuf x))) E).
  - exact (f_equal nins E).
Qed.
Lemma erase_pos : curins a' = curins a /\ astopins a' = astopins a /\ snapno a' = snapno a
  /\ exitStubGroup a' = exitStubGroup a /\ options a' = options a /\ mcode a' = mcode a /\ area a' = area a.
Proof using E.
  split_and!; [exact (f_equal curins E)|exact (f_equal astopins E)|exact (f_equal snapno E)
    |exact (f_equal exitStubGroup E)|exact (f_equal options E)|exact (f_equal mcode E)|exact (f_equal area E)].
Qed.
Lemma erase_buf : b_slots (abuf a') = b_slots (abuf a) /\ b_heap (abuf a') = b_heap (abuf a)
  /\ b_snapmap (abuf a') = b_snapmap (abuf a) /\ length (b_snaps (abuf a')) = length (b_snaps (abuf a)).
Proof using E.
  split_and!; [exact (f_equal (fun x => b_slots (abuf x)) E)|exact (f_equal (fun x => b_heap (abuf x)) E)
    |exact (f_equal (fun x => b_snapmap (abuf x)) E)|].
  pose proof (f_equal (fun x => length (b_snaps (abuf x))) E) as H. cbn in H. by rewrite !length_map in H.
Qed.
End erase.

Lemma shape_eq i j : shape i = shape j -> ir_o i = ir_o j /\ ir_t i = ir_t j /\ op12 i = op12 j.
Proof. unfold shape. intros [= ? ? ?]. auto. Qed.

Lemma literalValue_shape a a' ref :
  erase a' = erase a -> (forall r, shape (a_ir a' r) = shape (a_ir a r)) ->
  literalValue (b_code (abuf a')) (b_slots (abuf a')) ref = literalValue (b_code (abuf a)) (b_slots (abuf a)) ref.
Proof.
  intros He Hs. destruct (erase_code _ _ He) as (E1 & E2 & _).
  destruct (erase_buf _ _ He) as (E3 & _). unfold literalValue, ir, bufmin in *.
  rewrite E1, E2, E3. destruct (_ && _); [|done]. cbn [obind].
  destruct (shape_eq _ _ (Hs ref)) as (O & T & P).
  change (raw_ir (b_code (abuf a')) ?r) with (a_ir a' r). change (raw_ir (b_code (abuf a)) ?r) with (a_ir a r).
  rewrite O. unfold ir_type, i32, u32. rewrite T, P. destruct (ir_o (a_ir a ref)); try done.
  destruct (_ && _); [|done]. cbn [obind].
  destruct (shape_eq _ _ (Hs (ref - 1))) as (_ & _ & P').
  by rewrite P'.
Qed.

(** ** States of the trace and of the processor *)

(** Values of references, memory outside the frame of the trace, and the
    heap pointer. *)
Record irstate := mkIS { val : Z -> Z; imem : Z -> option Z; ihp : Z }.
Definition set_val (ref v : Z) (st : irstate) : irstate := mkIS (upd ref v (val st)) (imem st) (ihp st).

(** The base pointer and the stack pointer of a trace, and the limits of
    heap and stack at the start of its frame. *)
Class TraceFrame := {
  tf_base : Z;
  tf_sp : Z;
  tf_hplim : Z;
  tf_splim : Z;
  tf_ok : tf_sp mod 8 = 0 /\ 0 <= tf_sp /\ tf_sp + SPILL_SP_OFFS + 8 * 256 <= 2 ^ 64;
  tf_words : 0 <= tf_base < 2 ^ 64 /\ 0 <= tf_hplim < 2 ^ 64 /\ 0 <= tf_splim < 2 ^ 64
}.

Section machine.
Context {TF : TraceFrame}.
Abbreviation B := tf_base.
Abbreviation SP := tf_sp.
Abbreviation HL := tf_hplim.
Abbreviation SL := tf_splim.

Definition slot_addr (s : Z) : Z := SP + SPILL_SP_OFFS + 8 * s.
Definition in_frame (x : Z) : Prop := SP <= x < slot_addr 256.

(** The values of literals: those of [KBASEO] are addresses relative to
    the base. *)
Definition literals_ok (a : Assembler) (st : irstate) : Prop :=
  forall ref, bufmin a <= ref < REF_BIAS ->
    match ir_o (a_ir a ref) with
    | kKINT | kKWORD => literalValue (b_code (abuf a)) (b_slots (abuf a)) ref = Ok (val st ref)
    | kKBASEO => val st ref = u8 (B + 8 * i32 (a_ir a ref)) /\ is_i32 (8 * i32 (a_ir a ref))
    | _ => True
    end.

(** [Sp] gives the spill slot of every reference in the finished trace. *)
Record agree (a : Assembler) (Sp : Z -> Z) (n : Z) (st : irstate) (m : mach) : Prop := {
  ag_reg : forall ref, live a n ref -> isReg (reg a ref) = true -> gpr m (reg a ref) = val st ref;
  ag_slot : forall ref, REF_FIRST <= ref < n -> Sp ref <> 0 -> mmem m (slot_addr (Sp ref)) = Some (val st ref);
  ag_base : gpr m RID_BASE = B;
  ag_sp : gpr m RID_ESP = SP;
  ag_hp : gpr m RID_HP = ihp st;
  ag_mem : forall x, ~ in_frame x -> mmem m x = imem st x;
  ag_frame : (forall s, 0 <= s < 256 -> is_Some (mmem m (slot_addr s)))
             /\ mmem m (SP + HPLIM_SP_OFFS) = Some HL /\ mmem m (SP + SPLIM_SP_OFFS) = Some SL;
  ag_lits : literals_ok a st
}.

Definition slots_ok (Sp : Z -> Z) : Prop :=
  (forall r, 0 <= Sp r < 256) /\ (forall r1 r2, Sp r1 <> 0 -> Sp r1 = Sp r2 -> r1 = r2).
(** The slots given out so far are the final ones. *)
Definition covers (a : Assembler) (Sp : Z -> Z) : Prop :=
  forall ref, live a (nins a) ref -> spl a ref <> 0 -> Sp ref = spl a ref.

(** From [a] to [a'] code was emitted in front that takes every state of
    the processor that agrees with [a'] to one that agrees with [a], and
    keeps the registers in [K]. *)
Definition sim (n : Z) (a a' : Assembler) (K : Z -> Prop) : Prop :=
  exists l, emits (code a) (code a') l /\
    forall Sp st m, covers a' Sp -> agree a' Sp n st m ->
      exists m', exec_list l m = Some (Next m') /\ agree a Sp n st m'
        /\ (forall x, K x -> gpr m' x = gpr m x) /\ mmem m' = mmem m /\ cmpd m' = cmpd m.

Lemma covers_ext n a a' Sp : ext n a a' -> covers a' Sp -> covers a Sp.
Proof using Type.
  intros He Hc ref Hl Hr. rewrite <- (ex_spill _ _ _ He ref Hr). apply Hc; [|by rewrite (ex_spill _ _ _ He)].
  unfold live in *. destruct (erase_code _ _ (ex_erase _ _ _ He)) as (-> & _ & ->). done.
Qed.

Lemma sim_refl n a K : sim n a a K.
Proof using Type. exists []. split; [apply emits_nil|]. intros Sp st m _ Ha. exists m. by split. Qed.
Lemma sim_trans n a a1 a2 K1 K2 :
  ext n a1 a2 -> sim n a a1 K1 -> sim n a1 a2 K2 -> sim n a a2 (fun x => K1 x /\ K2 x).
Proof using Type.
  intros He (l1 & E1 & H1) (l2 & E2 & H2). exists (l2 ++ l1). split; [by eapply emits_app|].
  intros Sp st m Hc Ha. destruct (H2 Sp st m Hc Ha) as (m2 & X2 & A2 & G2 & M2 & C2).
  destruct (H1 Sp st m2 (covers_ext _ _ _ _ He Hc) A2) as (m1 & X1 & A1 & G1 & M1 & C1).
  exists m1. rewrite exec_list_app, X2. split; [done|]. split; [done|]. split; [|split; congruence].
  intros x [? ?]. rewrite G1, G2; auto.
Qed.
Lemma sim_weaken n a a' (K K' : Z -> Prop) : (forall x, K' x -> K x) -> sim n a a' K -> sim n a a' K'.
Proof using Type.
  intros Hk (l & E & H). exists l. split; [done|]. intros Sp st m Hc Ha.
  destruct (H Sp st m Hc Ha) as (m' & ? & ? & G & ? & ?). exists m'. split_and!; auto.
Qed.

Lemma literals_ext n a a' st : ext n a a' -> literals_ok a' st -> literals_ok a st.
Proof using Type.
  intros He Hl ref Hr. destruct (erase_code _ _ (ex_erase _ _ _ He)) as (E1 & _).
  specialize (Hl ref ltac:(rewrite E1; done)).
  destruct (shape_eq _ _ (ex_shape _ _ _ He ref)) as (O & _ & P). rewrite O in Hl. unfold i32 in *. rewrite P in Hl.
  rewrite (literalValue_shape _ _ _ (ex_erase _ _ _ He) (ex_shape _ _ _ He)) in Hl. done.
Qed.
Lemma literals_forth n a a' st : ext n a a' -> literals_ok a st -> literals_ok a' st.
Proof using Type.
  intros He Hl ref Hr. destruct (erase_code _ _ (ex_erase _ _ _ He)) as (E1 & _). rewrite E1 in Hr. specialize (Hl ref Hr).
  destruct (shape_eq _ _ (ex_shape _ _ _ He ref)) as (O & _ & P). rewrite O. unfold i32 in *. rewrite P.
  by rewrite (literalValue_shape _ _ _ (ex_erase _ _ _ He) (ex_shape _ _ _ He)).
Qed.
Lemma live_ext n a a' k ref : ext n a a' -> live a' k ref <-> live a k ref.
Proof using Type. intros He. unfold live. by destruct (erase_code _ _ (ex_erase _ _ _ He)) as (-> & _). Qed.

(** Agreement when only the registers of references differ. *)
Lemma agree_regs k n a a' Sp st m m' :
  ext k a a' -> agree a' Sp n st m -> mmem m' = mmem m ->
  (forall x, ~ in_gpr x -> gpr m' x = gpr m x) ->
  (forall ref, live a n ref -> isReg (reg a ref) = true -> gpr m' (reg a ref) = val st ref) ->
  agree a Sp n st m'.
Proof using Type.
  intros He [A1 A2 A3 A4 A5 A6 A7 A8] Hm Hg Hr.
  assert (Hx : forall x, x = 4 \/ x = 5 \/ x = 12 -> gpr m' x = gpr m x).
  { intros x Hx. apply Hg. intros H%gpr_range. lia. }
  split.
  - done.
  - by rewrite Hm.
  - rewrite Hx; [done|by right; left].
  - rewrite Hx; [done|by left].
  - rewrite Hx; [done|by right; right].
  - by rewrite Hm.
  - by rewrite Hm.
  - by eapply literals_ext.
Qed.

(** ** [spill] *)

Lemma shape_setReg i r : shape (setReg i r) = shape i.
Proof using Type. done. Qed.
Lemma shape_setSpill i s : shape (setSpill i s) = shape i.
Proof using Type. done. Qed.

Lemma spill_spec n a ref ofs a' :
  ra_ok a n -> REF_FIRST <= ref < nins a -> ref < n -> bufmin a <= ref ->
  placed a ref \/ value_ref a ref -> spill ref a = Ok (ofs, a') ->
  ra_ok a' n /\ ext n a a' /\ code a' = code a /\ (forall r, reg a' r = reg a r) /\ spl a' ref <> 0
  /\ ofs = spillOffset (spl a' ref) /\ freeset (ra a') = freeset (ra a) /\ cost (ra a') = cost (ra a).
Proof using Type.
  intros Hok Hr Hn Hmin Hpl H. unfold spill in H. inv_asm. destruct (Z.eqb_spec (ir_spill (a_ir a ref)) 0) as [Hz|Hnz].
  2: { inv_asm. split_and!; try done. }
  inv_asm. unfold spills_alloc in H. apply obind_ok in H as ([l s] & Hal & [= <- <-]).
  destruct (SpillProofs.alloc_spec _ _ _ (ro_spills _ _ Hok) Hal) as (Hs & Hav & Hwf & Hall).
  set (a1 := set_spills l a).
  assert (Hir : forall r, a_ir (upd_a (fun i => setSpill i s) ref a1) r
                = if r =? ref then setSpill (a_ir a ref) s else a_ir a r) by (intros; by rewrite a_ir_upd).
  assert (Hreg : forall r, reg (upd_a (fun i => setSpill i s) ref a1) r = reg a r).
  { intros r. unfold reg. rewrite Hir. destruct (Z.eqb_spec r ref) as [->|]; [apply ir_reg_setSpill|done]. }
  assert (Hspl : forall r, spl (upd_a (fun i => setSpill i s) ref a1) r = if r =? ref then s else spl a r).
  { intros r. unfold spl. rewrite Hir. destruct (r =? ref); [apply ir_spill_setSpill; lia|done]. }
  assert (Hfresh : forall r, live a (nins a) r -> spl a r <> s).
  { intros r Hl E. destruct (ro_slot _ _ Hok r Hl ltac:(lia)) as [_ Hu]. rewrite E in Hu. congruence. }
  assert (Hself : spl (upd_a (fun i => setSpill i s) ref a1) ref = s) by by rewrite Hspl, Z.eqb_refl.
  split_and!; [| |done|exact Hreg|rewrite Hself; lia|by rewrite Hself|done|done].
  - destruct Hok. split; try done.
    + intros r Hg Hf. rewrite Hreg. by apply ro_used0.
    + intros r Hl. rewrite Hreg. by apply ro_reg0.
    + intros r Hl. rewrite Hspl. change (spills (ra (upd_a _ ref a1))) with l.
      destruct (Z.eqb_spec r ref) as [->|Hne]; intros Hsp.
      * split; [lia|]. rewrite Hall by lia. by rewrite Z.eqb_refl, andb_false_r.
      * destruct (ro_slot0 r Hl Hsp) as [? Hu]. split; [done|].
        rewrite Hall by (pose proof (spl_byte a r); lia). by rewrite Hu.
    + intros r1 r2 Hl1 Hl2. rewrite !Hspl.
      destruct (Z.eqb_spec r1 ref) as [->|N1], (Z.eqb_spec r2 ref) as [->|N2]; try done; intros Hsp E.
      * by destruct (Hfresh r2 Hl2).
      * by destruct (Hfresh r1 Hl1).
      * by apply ro_inj0.
  - split.
    + done.
    + intros r. rewrite Hir. destruct (Z.eqb_spec r ref) as [->|]; done.
    + intros r Hge. rewrite Hir. destruct (Z.eqb_spec r ref); [lia|done].
    + intros r Hsp. rewrite Hspl. destruct (Z.eqb_spec r ref) as [->|]; [done|done].
    + intros r _ _. left. apply Hreg.
    + intros r. unfold placed. rewrite Hreg, Hspl. destruct (Z.eqb_spec r ref) as [->|]; auto.
Qed.

(** ** Giving back and taking a register *)

Lemma free_range r : in_gpr r -> 0 <= r < 32.
Proof using Type. intros H%gpr_range. lia. Qed.
Lemma isReg_gpr r : in_gpr r -> isReg r = true.
Proof using Type.
  intros Hr%gpr_range. assert (Hall : forallb isReg (seqZ 0 16) = true) by (vm_compute; reflexivity).
  apply (reg_forall _ r Hall). lia.
Qed.

(** [a'] is [a] with the register field of [ref] set to [x]. *)
Definition reg_set (a a' : Assembler) (ref x : Z) : Prop :=
  erase a' = erase a /\ spills (ra a') = spills (ra a)
  /\ forall r, a_ir a' r = if r =? ref then setReg (a_ir a ref) x else a_ir a r.

Section reg_set.
Context (a a' : Assembler) (ref x : Z).
Hypotheses (Hs : reg_set a a' ref x) (Hx : 0 <= x < 256).
Lemma reg_set_reg r : reg a' r = if r =? ref then x else reg a r.
Proof using Hs Hx.
  destruct Hs as (_ & _ & Hir). unfold reg. rewrite Hir. destruct (r =? ref); [by apply ir_reg_setReg|done].
Qed.
Lemma reg_set_spl r : spl a' r = spl a r.
Proof using Hs.
  destruct Hs as (_ & _ & Hir). unfold spl. rewrite Hir.
  destruct (Z.eqb_spec r ref) as [->|]; [apply ir_spill_setReg|done].
Qed.
Lemma reg_set_ext n :
  ref < n -> (REF_BIAS <= ref -> isReg (reg a ref) = true -> spl a ref <> 0) ->
  (isReg x = true -> placed a ref \/ value_ref a ref) -> ext n a a'.
Proof using Hs Hx.
  intros Hn Hsp Hnew. pose proof Hs as (He & _ & Hir). split; [done| | | | |].
  - intros r. rewrite Hir. destruct (Z.eqb_spec r ref) as [->|]; done.
  - intros r Hr. rewrite Hir. destruct (Z.eqb_spec r ref); [lia|done].
  - intros r _. apply reg_set_spl.
  - intros r Hb Hr. rewrite reg_set_reg, reg_set_spl. destruct (Z.eqb_spec r ref) as [->|]; auto.
  - intros r. unfold placed. rewrite reg_set_reg, reg_set_spl. destruct (Z.eqb_spec r ref) as [->|]; [|auto].
    intros [?|?]; [auto|]. left. by right.
Qed.
Lemma reg_set_slots n : ra_ok a n ->
  (forall r, live a' (nins a') r -> spl a' r <> 0 ->
     REF_FIRST <= r /\ SpillSet.avail (spills (ra a')) (spl a' r) = false)
  /\ (forall r1 r2, live a' (nins a') r1 -> live a' (nins a') r2 -> spl a' r1 <> 0 ->
     spl a' r1 = spl a' r2 -> r1 = r2).
Proof using Hs.
  intros Hok. pose proof Hs as (He & Hsp & _). destruct (erase_code _ _ He) as (E1 & _ & E2).
  unfold live. rewrite E1, E2, Hsp. split.
  - intros r Hl. rewrite reg_set_spl. by apply (ro_slot _ _ Hok).
  - intros r1 r2 H1 H2. rewrite !reg_set_spl. by apply (ro_inj _ _ Hok).
Qed.
End reg_set.

Lemma give_back_ok n a a' ref x :
  ra_ok a n -> live a n ref -> isReg (reg a ref) = true -> isReg x = false -> 0 <= x < 256 ->
  reg_set a a' ref x -> freeset (ra a') = RegSet.set (freeset (ra a)) (reg a ref) ->
  cost (ra a') = cost (ra a) ->
  ra_ok a' n /\ (forall r, 0 <= r -> free a' r = free a r || (r =? reg a ref)).
Proof using Type.
  intros Hok Hl Hr Hnx Hx Hset Hf Hc. pose proof Hset as (He & Hsp & _).
  destruct (ro_reg _ _ Hok ref Hl Hr) as (Hg & Hnf & Ho & Hb).
  assert (Hfree : forall r, 0 <= r -> free a' r = free a r || (r =? reg a ref)).
  { intros r H0. unfold free. rewrite Hf. apply test_include; [by apply free_range|done]. }
  split; [|done]. destruct (erase_code _ _ He) as (E1 & _ & E2).
  destruct (reg_set_slots _ _ _ _ Hset _ Hok) as [Hslot Hinj].
  assert (How : forall r, owner a' r = owner a r) by (intros r; unfold owner, a_cost; by rewrite Hc).
  assert (Hreg := reg_set_reg _ _ _ _ Hset Hx). destruct Hok. split; [by rewrite E1, E2| | | | |by rewrite Hc|by rewrite Hsp|done|done].
  - rewrite Hf. apply Z.lor_nonneg. split; [done|]. apply (to_u_bound 32). lia.
  - intros r H0. rewrite Hfree by done. intros [?|Hq]%orb_true_iff; [auto|].
    apply Z.eqb_eq in Hq. by subst r.
  - intros r Hgr. rewrite Hfree by (apply gpr_range in Hgr; lia). intros [Hf1 Hf2]%orb_false_iff.
    rewrite How. unfold live. rewrite E1, Hreg. destruct (ro_used0 r Hgr Hf1) as [? Hor]. split; [done|].
    destruct (Z.eqb_spec (owner a r) ref) as [Eq|]; [|done]. rewrite Eq in Hor. lia.
  - intros r. unfold live. rewrite E1, Hreg. intros Hlr. destruct (Z.eqb_spec r ref) as [->|Hne]; [congruence|].
    intros Hrr. destruct (ro_reg0 r Hlr Hrr) as (G & F & O & N). split; [done|].
    rewrite Hfree by (apply gpr_range in G; lia). split; [|by rewrite How].
    rewrite F. cbn. apply Z.eqb_neq. intros Eq. rewrite Eq in O. congruence.
Qed.

Lemma cost_ref r t : 0 <= r < 65536 -> RegCost.ref (RegCost.make r t) = r.
Proof using Type.
  intros Hr. unfold RegCost.ref, RegCost.make, RegCost.kPhiWeight, IRT_ISPHI.
  change (Z.shiftl 64 16 / 64) with 65536. replace (u2 r) with r by (symmetry; apply (to_u_id 16); lia).
  rewrite Z.shiftl_mul_pow2 by lia. unfold u2, u4, to_u.
  change (2 ^ 16) with 65536. change (2 ^ 32) with 4294967296.
  generalize (Z.land t 64) as z. intros z. Z.to_euclidean_division_equations. lia.
Qed.

Lemma take_ok n a a' ref r t :
  ra_ok a n -> live a n ref -> ref <> REF_BASE -> isReg (reg a ref) = false ->
  in_gpr r -> free a r = true ->
  reg_set a a' ref r -> freeset (ra a') = RegSet.clear (freeset (ra a)) r ->
  cost (ra a') = <[Z.to_nat r := RegCost.make ref t]> (cost (ra a)) ->
  ra_ok a' n /\ (forall q, 0 <= q < 32 -> free a' q = free a q && negb (q =? r)).
Proof using Type.
  intros Hok Hl Hb Hnr Hg Hfr Hset Hf Hc. pose proof Hset as (He & Hsp & _).
  pose proof (gpr_range _ Hg) as Hrange.
  assert (Hfree : forall q, 0 <= q < 32 -> free a' q = free a q && negb (q =? r)).
  { intros q Hq. unfold free. rewrite Hf. apply test_exclude; lia. }
  split; [|done]. destruct (erase_code _ _ He) as (E1 & _ & E2).
  destruct (reg_set_slots _ _ _ _ Hset _ Hok) as [Hslot Hinj].
  assert (Hreg := reg_set_reg _ _ _ _ Hset ltac:(lia)).
  destruct Hok as [B0 B1 B2 B3 B4 [B5 B5'] B6 B7 B8].
  assert (How : forall q, 0 <= q -> owner a' q = if q =? r then ref else owner a q).
  { intros q Hq. unfold owner, a_cost. rewrite Hc. destruct (Z.eqb_spec q r) as [->|Hne].
    - rewrite list_lookup_insert_eq by lia. cbn. apply cost_ref. unfold live in Hl. lia.
    - by rewrite list_lookup_insert_ne by lia. }
  split; [by rewrite E1, E2| | | | | |by rewrite Hsp|done|done].
  - rewrite Hf. apply Z.land_nonneg. by left.
  - intros q H0 Hq. apply B2; [done|]. unfold free in *. rewrite Hf in Hq. unfold RegSet.clear, RegSet.exclude in Hq.
    rewrite test_testbit, Z.land_spec in Hq by done. rewrite test_testbit by done. by apply andb_true_iff in Hq as [? _].
  - intros q Hgq. pose proof (gpr_range _ Hgq). rewrite Hfree, How by lia. unfold live. rewrite E1.
    destruct (Z.eqb_spec q r) as [->|Hne]; cbn [negb].
    + intros _. split; [done|]. by rewrite Hreg, Z.eqb_refl.
    + rewrite andb_true_r. intros Hq. destruct (B3 q Hgq Hq) as [? Hoq]. split; [done|]. rewrite Hreg.
      destruct (Z.eqb_spec (owner a q) ref) as [Eq|]; [|done]. rewrite Eq in Hoq.
      rewrite Hoq, isReg_gpr in Hnr by done. done.
  - intros q. unfold live. rewrite E1, Hreg. intros Hlq. destruct (Z.eqb_spec q ref) as [->|Hne]; intros Hrq.
    + split; [done|]. rewrite Hfree, How, Z.eqb_refl by lia. by rewrite andb_false_r.
    + destruct (B4 q Hlq Hrq) as (G & F & O & N). pose proof (gpr_range _ G). split; [done|].
      rewrite Hfree, How by lia. destruct (Z.eqb_spec (reg a q) r) as [Eq|]; [congruence|]. by rewrite F.
  - rewrite Hc, length_insert. split; [done|]. apply Forall_insert; [done|]. apply (to_u_bound 32). lia.
Qed.

(** ** Freeing a register *)

(** The owner of [r] has lost it; the code loads [r] with its value. *)
Record freed (n : Z) (a a' : Assembler) (r : Z) : Prop := {
  fr_ok : ra_ok a' n;
  fr_ext : ext n a a';
  fr_gpr : in_gpr r;
  fr_used : free a r = false;
  fr_free : forall q, 0 <= q -> free a' q = free a q || (q =? r);
  fr_regs : forall q, q <> owner a r -> reg a' q = reg a q;
  fr_lost : isReg (reg a' (owner a r)) = false;
  fr_sim : sim n a a' (fun x => x <> r)
}.

Lemma gpr_upd r v m x : gpr (set_gpr r v m) x = if x =? r then v else gpr m x.
Proof using Type. done. Qed.

Lemma distinct_regs n a r1 r2 :
  ra_ok a n -> live a n r1 -> live a n r2 -> isReg (reg a r1) = true -> reg a r1 = reg a r2 -> r1 = r2.
Proof using Type.
  intros Hok H1 H2 Hr E. destruct (ro_reg _ _ Hok r1 H1 Hr) as (_ & _ & O1 & _).
  rewrite E in Hr. destruct (ro_reg _ _ Hok r2 H2 Hr) as (_ & _ & O2 & _). congruence.
Qed.

Lemma freed_intro n a a' ref x i :
  ra_ok a n -> live a n ref -> isReg (reg a ref) = true -> isReg x = false -> 0 <= x < 256 ->
  reg_set a a' ref x -> freeset (ra a') = RegSet.set (freeset (ra a)) (reg a ref) ->
  cost (ra a') = cost (ra a) -> (REF_BIAS <= ref -> spl a ref <> 0) ->
  emits (code a) (code a') [i] ->
  (forall Sp st m, covers a' Sp -> agree a' Sp n st m ->
     exec i m = Some (Next (set_gpr (reg a ref) (val st ref) m))) ->
  freed n a a' (reg a ref).
Proof using Type.
  intros Hok Hl Hr Hnx Hx Hset Hf Hc Hsp Hem Hexec.
  destruct (give_back_ok _ _ _ _ _ Hok Hl Hr Hnx Hx Hset Hf Hc) as [Hok' Hfree].
  destruct (ro_reg _ _ Hok ref Hl Hr) as (Hg & Hnf & Ho & _).
  assert (He : ext n a a') by (apply (reg_set_ext _ _ _ _ Hset Hx); [apply Hl|auto|congruence]).
  split; try done.
  - intros q Hq. rewrite (reg_set_reg _ _ _ _ Hset Hx). destruct (Z.eqb_spec q ref); [congruence|done].
  - by rewrite Ho, (reg_set_reg _ _ _ _ Hset Hx), Z.eqb_refl.
  - exists [i]. split; [done|]. intros Sp st m Hcov Hag. eexists.
    split; [cbn; by rewrite (Hexec Sp st m Hcov Hag)|]. split; [|split; [|done]].
    + eapply agree_regs; [exact He|exact Hag|done| |].
      * intros y Hy. rewrite gpr_upd. destruct (Z.eqb_spec y (reg a ref)) as [->|]; done.
      * intros r2 Hl2 Hr2. rewrite gpr_upd. destruct (Z.eqb_spec (reg a r2) (reg a ref)) as [Eq|Hne].
        { by rewrite (distinct_regs _ _ _ _ Hok Hl2 Hl Hr2 Eq). }
        assert (r2 <> ref) by (intros ->; done).
        rewrite <- (ag_reg _ _ _ _ _ Hag r2).
        { rewrite (reg_set_reg _ _ _ _ Hset Hx). destruct (Z.eqb_spec r2 ref); done. }
        { by apply (live_ext n a a'). }
        { rewrite (reg_set_reg _ _ _ _ Hset Hx). destruct (Z.eqb_spec r2 ref); done. }
    + intros y Hy. rewrite gpr_upd. destruct (Z.eqb_spec y (reg a ref)); done.
Qed.

(** ** [rematConstant] *)

Lemma gpr_base : is_gpr RID_BASE.
Proof using Type. by vm_compute. Qed.
Lemma gpr_esp : is_gpr RID_ESP.
Proof using Type. by vm_compute. Qed.
Lemma gpr_hp : is_gpr RID_HP.
Proof using Type. by vm_compute. Qed.

Lemma literal_bound c s ref k : literalValue c s ref = Ok k -> 0 <= k < 2 ^ 64.
Proof using Type.
  unfold literalValue. intros (i & _ & H)%obind_ok.
  destruct (ir_o i); try done.
  - injection H as <-. destruct (in_type_set _ _); [apply (to_u_bound 64); lia|].
    pose proof (to_u_bound 32 ltac:(lia) (i32 i)). unfold u4. lia.
  - apply obind_ok in H as (hi & _ & [= <-]). pose proof (to_u_bound 32 ltac:(lia) (op12 i)).
    pose proof (to_u_bound 32 ltac:(lia) (op12 hi)). unfold u32, u4. rewrite shiftl_lor_add by lia.
    change (2 ^ 64) with (2 ^ 32 * 2 ^ 32). nia.
  - injection H as <-. apply (to_u_bound 64). lia.
Qed.

Lemma remat_core ref a r a' :
  rematConstant ref a = Ok (r, a') ->
  r = reg a ref /\ isReg r = true /\ spl a ref = 0 /\ reg_set a a' ref RID_INIT
  /\ freeset (ra a') = RegSet.set (freeset (ra a)) r /\ cost (ra a') = cost (ra a)
  /\ (is_gpr r -> bufmin a <= ref < REF_BIAS ->
      exists i, emits (code a) (code a') [i] /\
        forall st m, literals_ok a st -> gpr m RID_BASE = B ->
          exec i m = Some (Next (set_gpr r (val st ref) m))).
Proof using Type.
  intros H. unfold rematConstant in H. inv_asm. apply andb_true_iff in E as [Hr Hs%Z.eqb_eq].
  set (rr := ir_reg (a_ir a ref)) in *.
  set (a1 := upd_a (fun i => setReg i RID_INIT) ref (mod_a rr (free_a rr a))) in *.
  assert (Hset : reg_set a a1 ref RID_INIT).
  { split; [done|]. split; [done|]. intros q. unfold a1. by rewrite a_ir_upd. }
  assert (Hlit : literalValue (b_code (abuf a1)) (b_slots (abuf a1)) ref = literalValue (b_code (abuf a)) (b_slots (abuf a)) ref).
  { apply literalValue_shape; [apply Hset|]. intros q. destruct Hset as (_ & _ & ->).
    by destruct (Z.eqb_spec q ref) as [->|]. }
  destruct (bool_decide (ir_o (a_ir a ref) = kKINT) || bool_decide (ir_o (a_ir a ref) = kKWORD)) eqn:Ek.
  - inv_asm. rename E into Hk. split_and!; try done. intros Hg Hrange.
    rewrite Hlit in Hk. destruct (loadi_u64_sets rr x (code a1) Hg (literal_bound _ _ _ _ Hk)) as (i & Hem & Hex).
    exists i. split; [exact Hem|]. intros st m Hl _. rewrite Hex. specialize (Hl ref Hrange).
    apply orb_true_iff in Ek as [Ek%bool_decide_eq_true_1 | Ek%bool_decide_eq_true_1]; rewrite Ek in Hl; congruence.
  - inv_asm. rename E into Ho. apply bool_decide_eq_true_1 in Ho. split_and!; try done. intros Hg Hrange.
    eexists. split.
    + intros. apply lea_emits; [by apply wide_r|apply as_reg_id, gpr_base|]. apply (to_s_bound 32). lia.
    + intros st m Hl Hbase. specialize (Hl ref Hrange). rewrite Ho in Hl. destruct Hl as [-> Hi]. cbn.
      unfold ea. rewrite Hbase. do 4 f_equal. rewrite Z.mul_comm. unfold i4. rewrite i32_id by done. lia.
Qed.

Lemma remat_freed n a ref r a' :
  ra_ok a n -> live a n ref -> ref < REF_BIAS -> rematConstant ref a = Ok (r, a') ->
  r = reg a ref /\ owner a r = ref /\ freed n a a' r.
Proof using Type.
  intros Hok Hl Hlt H. destruct (remat_core _ _ _ _ H) as (-> & Hr & Hs & Hset & Hf & Hc & Hcode).
  destruct (ro_reg _ _ Hok ref Hl Hr) as (Hg & Hnf & Ho & _). split; [done|]. split; [done|].
  pose proof (gpr_range _ Hg) as Hrange.
  destruct Hcode as (i & Hem & Hex); [unfold is_gpr; lia|unfold live in Hl; lia|].
  apply (freed_intro n a a' ref RID_INIT i); try done; [lia|].
  intros Sp st m _ Ha. apply Hex; [|by apply (ag_base _ _ _ _ _ Ha)].
  pose proof (ag_lits _ _ _ _ _ Ha) as Hla. eapply literals_ext; [|exact Hla].
  apply (reg_set_ext _ _ _ _ Hset); [done|apply Hl|lia|done].
Qed.

(** ** [restoreReg] and [evictReg] *)

Lemma slot_ea s m : 0 <= s < 256 -> gpr m RID_ESP = SP ->
  ea m RID_ESP None (spillOffset s) = slot_addr s /\ slot_addr s mod 8 = 0.
Proof using Type.
  intros Hs Hsp. unfold ea, spillOffset. rewrite Hsp. replace (u1 s) with s by (symmetry; apply (to_u_id 8); lia).
  destruct tf_ok as (H8 & H0 & Hmax). unfold slot_addr, SPILL_SP_OFFS in *. split.
  - unfold u8. rewrite (to_u_id 64) by lia. lia.
  - Z.to_euclidean_division_equations. lia.
Qed.
Lemma spillOffset_i32 s : is_i32 (spillOffset s).
Proof using Type. unfold is_i32, spillOffset, SPILL_SP_OFFS. pose proof (u1_range s). lia. Qed.

Lemma load_slot r s m v :
  0 <= s < 256 -> gpr m RID_ESP = SP -> mmem m (slot_addr s) = Some v ->
  exec (IMovRM true r (OMem RID_ESP None (spillOffset s))) m = Some (Next (set_gpr r v m)).
Proof using Type.
  intros Hs Hsp Hv. destruct (slot_ea s m Hs Hsp) as [Ea Hal]. cbn [exec rd].
  unfold rd_mem. rewrite Ea, Hal. cbn. by rewrite Hv.
Qed.

Lemma sim_same n a a1 a2 K :
  code a1 = code a -> ext n a a1 -> (forall r, reg a1 r = reg a r) -> sim n a1 a2 K -> sim n a a2 K.
Proof using Type.
  intros Hc He Hr (l & Em & H). rewrite Hc in Em. exists l. split; [done|]. intros Sp st m Hcov Ha.
  destruct (H Sp st m Hcov Ha) as (m' & X & A & G & Mm). exists m'. split; [done|]. split; [|done].
  eapply agree_regs; [exact He|exact A|done|done|].
  intros ref Hl Hrr. rewrite <- (ag_reg _ _ _ _ _ A ref); [by rewrite Hr|by apply (live_ext n a a1)|by rewrite Hr].
Qed.

Lemma hint_byte r : in_gpr r -> 0 <= u1 (Z.lor r RID_NONE) < 256 /\ isReg (u1 (Z.lor r RID_NONE)) = false.
Proof using Type.
  intros Hr%gpr_range. split; [apply u1_range|].
  assert (Hall : forallb (fun r => negb (isReg (u1 (Z.lor r RID_NONE)))) (seqZ 0 16) = true) by (vm_compute; reflexivity).
  apply negb_true_iff, (reg_forall _ r Hall). lia.
Qed.

Lemma restore_freed n a ref r a' :
  ra_ok a n -> live a n ref -> ref <> REF_BASE -> isReg (reg a ref) = true -> restoreReg ref a = Ok (r, a') ->
  r = reg a ref /\ owner a r = ref /\ freed n a a' r.
Proof using Type.
  intros Hok Hl Hb Hr H. unfold restoreReg, canRemat in H. destruct (Z.ltb_spec ref REF_BIAS) as [Hlt|Hge].
  { by eapply remat_freed. }
  inv_asm. rename H0 into Hsp. destruct (ro_bounds _ _ Hok) as [Hb1 Hb2].
  assert (HRF : REF_FIRST <= ref < nins a) by (unfold live, REF_BASE, REF_FIRST in *; lia).
  destruct (spill_spec n a ref _ _ Hok HRF ltac:(apply Hl) ltac:(apply Hl) ltac:(by left; left) Hsp)
    as (Hok1 & He1 & Hc1 & Hr1 & Hs1 & -> & Hf1 & Hco1).
  change (ir_reg (a_ir a0 ref)) with (reg a0 ref) in *. rewrite Hr1 in *.
  destruct (ro_reg _ _ Hok ref Hl Hr) as (Hg & Hnf & Ho & _).
  destruct (hint_byte _ Hg) as [Hx Hnx]. pose proof (gpr_range _ Hg) as Hrange.
  set (a2 := free_a (reg a ref) (upd_a (fun i => setHint i (reg a ref)) ref a0)) in *.
  split; [done|]. split; [done|].
  assert (Hl1 : live a0 n ref) by by apply (live_ext n a a0).
  assert (Hfr : freed n a0 (set_acode (load_u64 (reg a ref) RID_ESP (spillOffset (spl a0 ref)) (code a2)) a2) (reg a ref)).
  { rewrite <- (Hr1 ref) at 2.
    apply (freed_intro n a0 _ ref (u1 (Z.lor (reg a ref) RID_NONE)) (IMovRM true (reg a ref) (OMem RID_ESP None (spillOffset (spl a0 ref)))));
      rewrite ?Hr1; try done.
    - split; [done|]. split; [done|]. intros q. unfold a2.
      change (a_ir (set_acode ?c (free_a ?x ?y)) q) with (a_ir y q). rewrite a_ir_upd.
      destruct (q =? ref); [|done]. unfold setHint, setReg. by rewrite (to_u_idemp 8).
    - apply load_emits; [unfold is_gpr; lia|apply gpr_esp|apply spillOffset_i32].
    - intros Sp st m Hcov Ha. pose proof (spl_byte a0 ref).
      assert (Hs2 : spl (set_acode (load_u64 (reg a ref) RID_ESP (spillOffset (spl a0 ref)) (code a2)) a2) ref = spl a0 ref).
      { unfold spl. change (a_ir (set_acode ?c ?y) ref) with (a_ir y ref). unfold a2.
        change (a_ir (free_a ?x ?y) ref) with (a_ir y ref). rewrite a_ir_upd, Z.eqb_refl. apply ir_spill_setReg. }
      apply load_slot; [done|by apply (ag_sp _ _ _ _ _ Ha)|].
      assert (Hlv : live a0 (nins a0) ref).
      { destruct (erase_code _ _ (ex_erase _ _ _ He1)) as (_ & _ & En). unfold live in *. rewrite En. lia. }
      assert (HSp : Sp ref = spl a0 ref) by (rewrite <- Hs2; apply Hcov; [exact Hlv|by rewrite Hs2]).
      rewrite <- HSp. apply (ag_slot _ _ _ _ _ Ha); [unfold live in Hl; lia|by rewrite HSp]. }
  destruct Hfr as [F1 F2 F3 F4 F5 F6 F6' F7].
  assert (Howner : owner a0 (reg a ref) = owner a (reg a ref)) by (unfold owner, a_cost; by rewrite Hco1).
  split; try done.
  - by etransitivity.
  - intros q Hq. rewrite F5 by done. f_equal. unfold free. by rewrite Hf1.
  - intros q Hq. rewrite F6 by congruence. apply Hr1.
  - by rewrite <- Howner.
  - by eapply sim_same.
Qed.

(** The register that is evicted belongs to the set and was in use. *)
Lemma min_fold (P : Z -> bool) (f : Z -> Z) l c0 :
  let c := fold_left (fun c r => if P r && (f r <? c) then f r else c) l c0 in
  (exists r, r ∈ l /\ P r = true /\ c = f r) \/ (c = c0 /\ forall r, r ∈ l -> P r = true -> c0 <= f r).
Proof using Type.
  revert c0. induction l as [|x l IH]; intros c0; cbn [fold_left].
  { right. split; [done|]. intros r Hr. by apply elem_of_nil in Hr. }
  destruct (IH (if P x && (f x <? c0) then f x else c0)) as [(r & Hr & HP & ->)|[-> Hall]].
  - left. exists r. split; [by right|done].
  - destruct (P x && (f x <? c0)) eqn:E.
    + apply andb_true_iff in E as [HP Hlt]. left. exists x. split; [by left|done].
    + right. split; [done|]. intros r [->|Hr]%elem_of_cons HP; [|auto]. rewrite HP in E. cbn in E. lia.
Qed.

Definition allows (allow : Z) : Prop := 0 <= allow /\ forall r, 0 <= r -> RegSet.test allow r = true -> in_gpr r.

Lemma a_cost_bound n a r : ra_ok a n -> 0 <= a_cost a r < 2 ^ 32.
Proof using Type.
  intros Hok. destruct (ro_cost _ _ Hok) as [_ Hf]. unfold a_cost.
  destruct (cost (ra a) !! Z.to_nat r) eqn:E; cbn; [|vm_compute; split; discriminate || done].
  rewrite Forall_lookup in Hf. by eapply Hf.
Qed.

Lemma evict_freed n a allow r a' :
  ra_ok a n -> allows allow -> (forall q, 0 <= q -> RegSet.test allow q = true -> free a q = false) ->
  evictReg allow a = Ok (r, a') ->
  RegSet.test allow r = true /\ freed n a a' r.
Proof using Type.
  intros Hok [H0 Hal] Hused H. unfold evictReg in H. inv_asm. apply negb_true_iff in E.
  destruct (allow <? Z.shiftl 1 RID_MAX_GPR); inv_asm.
  assert (Hmin : exists q, 0 <= q /\ RegSet.test allow q = true /\ RegCost.ref (mincost a allow) = owner a q).
  { destruct (not_empty allow H0 E) as (q0 & Hq0 & Ht0).
    destruct (min_fold (fun r => RegSet.test kGPR r && RegSet.test allow r) (a_cost a)
                (map Z.of_nat (seq 0 16)) RegCost.maxCost) as [(q & Hq & HP & Heq)|[Heq Hall]].
    - exists q. apply andb_true_iff in HP as [_ HP]. apply list_elem_of_fmap in Hq as (k & -> & _).
      split; [lia|]. split; [done|]. unfold mincost. by rewrite Heq.
    - exists q0. split; [done|]. split; [done|]. unfold mincost. rewrite Heq.
      pose proof (Hal q0 Hq0 Ht0) as Hg. pose proof (gpr_range _ Hg).
      assert (Hle : RegCost.maxCost <= a_cost a q0).
      { apply Hall; [|rewrite Ht0; destruct Hg as [_ ->]; done].
        replace q0 with (Z.of_nat (Z.to_nat q0)) by lia.
        apply list_elem_of_fmap. exists (Z.to_nat q0). split; [lia|]. apply elem_of_seq. lia. }
      pose proof (a_cost_bound n a q0 Hok). change RegCost.maxCost with (2 ^ 32 - 1) in *.
      unfold owner. f_equal. lia. }
  destruct Hmin as (q & Hq & Ht & Ho). rewrite Ho in H. pose proof (Hal q Hq Ht) as Hg.
  destruct (ro_used _ _ Hok q Hg (Hused q Hq Ht)) as [Hlive Hreg].
  assert (Hr : isReg (reg a (owner a q)) = true) by (rewrite Hreg; by apply isReg_gpr).
  destruct (ro_reg _ _ Hok _ Hlive Hr) as (_ & _ & _ & Hb).
  destruct (restore_freed _ _ _ _ _ Hok Hlive Hb Hr H) as (-> & _ & Hfr). by rewrite Hreg in *.
Qed.

End machine.
