(* ===== verification/AsmAlloc.v ===== *)
(** * What the allocator's operations guarantee

    [allocRef], [alloc1], [destReg] and [allocLeft]: the invariant is
    kept, the register that comes back belongs to the set that was asked
    for, and the code that was emitted restores what they took away. *)

From S2P Require Import Prelude Words Hotness IR Registers X86 X86Sem X86Proofs AsmState AsmInv.
Import RegSetProofs.

Section machine.
Context {TF : TraceFrame}.
Abbreviation B := tf_base.
Abbreviation SP := tf_sp.
Abbreviation HL := tf_hplim.
Abbreviation SL := tf_splim.

(** ** [allocRef] *)

(** [ref] got the register [r]; at most the owner of [r] lost it. *)
Record alloced (n : Z) (a a' : Assembler) (ref r : Z) : Prop := {
  al_ok : ra_ok a' n;
  al_ext : ext n a a';
  al_gpr : in_gpr r;
  al_reg : reg a' ref = r;
  al_used : free a' r = false;
  al_free : forall q, 0 <= q < 32 -> q <> r -> free a' q = free a q;
  al_other : forall q, q <> ref -> reg a' q = reg a q \/ (isReg (reg a' q) = false /\ free a r = false);
  al_quiet : free a r = true -> code a' = code a;
  al_sim : sim n a a' (fun x => x <> r \/ free a r = true)
}.

(** A register that can be taken: free now, at the price of a load. *)
Record pickable (n : Z) (a a' : Assembler) (r : Z) : Prop := {
  pk_ok : ra_ok a' n;
  pk_ext : ext n a a';
  pk_gpr : in_gpr r;
  pk_now : free a' r = true;
  pk_free : forall q, 0 <= q < 32 -> q <> r -> free a' q = free a q;
  pk_other : forall q, reg a' q = reg a q \/ (isReg (reg a' q) = false /\ free a r = false);
  pk_nospill : forall q, live a n q -> isReg (reg a q) = false -> reg a' q = reg a q;
  pk_quiet : free a r = true -> code a' = code a;
  pk_sim : sim n a a' (fun x => x <> r \/ free a r = true)
}.
Lemma pickable_free n a r : ra_ok a n -> 0 <= r -> free a r = true -> pickable n a a r.
Proof using Type.
  intros Hok H0 Hf. split; try done; [by apply (ro_free _ _ Hok)|auto|apply sim_refl].
Qed.
Lemma freed_pickable n a a' r : ra_ok a n -> freed n a a' r -> pickable n a a' r.
Proof using Type.
  intros Hok [F1 F2 F3 F4 F5 F6 F6' F7]. pose proof (gpr_range _ F3) as Hr.
  destruct (ro_used _ _ Hok r F3 F4) as [Hl Ho].
  split; try done.
  - rewrite F5, Z.eqb_refl by lia. apply orb_true_r.
  - intros q Hq Hne. rewrite F5 by lia. destruct (Z.eqb_spec q r); [done|apply orb_false_r].
  - intros q. destruct (Z.eq_dec q (owner a r)) as [->|Hne]; [by right|left; auto].
  - intros q Hlq Hnr. apply F6. intros ->. rewrite Ho, isReg_gpr in Hnr by done. done.
  - congruence.
  - eapply sim_weaken; [|exact F7]. intros x [?|?]; [done|congruence].
Qed.

Lemma pick_for_spec n a ins allow r a' :
  ra_ok a n -> allows allow -> pick_for ins allow a = Ok (r, a') ->
  RegSet.test allow r = true /\ pickable n a a' r.
Proof using Type.
  intros Hok [H0 Hal] H. unfold pick_for in H. inv_asm.
  set (pick := RegSet.intersect (freeset (ra a)) allow) in *.
  assert (Hmem : forall q, 0 <= q -> RegSet.test pick q = true -> RegSet.test allow q = true /\ pickable n a a q).
  { intros q Hq Ht. unfold pick in Ht. rewrite test_intersect in Ht by done.
    apply andb_true_iff in Ht as [Hf Ht]. split; [done|]. by apply pickable_free. }
  assert (Hh : 0 <= getHint (ir_reg ins)) by (unfold getHint; destruct (_ =? 0); lia).
  destruct (RegSet.isEmpty pick) eqn:Ep; cbn [negb] in H.
  - destruct (evict_freed n a allow r a' Hok (conj H0 Hal)) as [Ht Hf]; [|done|].
    + intros q Hq Ht. pose proof (isEmpty_spec _ q Ep) as He. unfold pick in He.
      rewrite test_intersect, Ht, andb_true_r in He by done. done.
    + split; [done|]. by apply freed_pickable.
  - destruct (hasHint _ && RegSet.test pick _) eqn:E1.
    { inv_asm. apply andb_true_iff in E1 as [_ Ht]. by apply Hmem. }
    destruct (hasHint (ir_reg ins) && RegSet.test allow (getHint (ir_reg ins)) && _) eqn:E2.
    + inv_asm. apply andb_true_iff in E2 as [[Hhint Ht]%andb_true_iff Hc]. set (h := getHint (ir_reg ins)) in *.
      rewrite Hhint in E1. cbn in E1. unfold pick in E1. rewrite test_intersect, Ht, andb_true_r in E1 by done.
      pose proof (Hal h Hh Ht) as Hg. destruct (ro_used _ _ Hok h Hg E1) as [Hl Ho].
      apply Z.ltb_lt in Hc. match goal with Hm : rematConstant _ _ = Ok _ |- _ =>
        destruct (remat_freed n a _ _ _ Hok Hl Hc Hm) as (-> & _ & Hf) end.
      fold (owner a h) in Hf. rewrite Ho in Hf. split; [done|]. by apply freed_pickable.
    + inv_asm. apply Hmem; apply pickBot_spec; try done; by apply intersect_nonneg.
Qed.

(** Taking it emits nothing. *)
Lemma take_sim n a a' ref x :
  reg_set a a' ref x -> 0 <= x < 256 -> ref < n -> isReg (reg a ref) = false -> value_ref a ref ->
  code a' = code a -> sim n a a' (fun _ => True).
Proof using Type.
  intros Hset Hx Hn Hr Hv Hc. exists []. rewrite Hc. split; [apply emits_nil|]. intros Sp st m _ Ha.
  assert (He : ext n a a') by (apply (reg_set_ext _ _ _ _ Hset Hx); [done|congruence|auto]).
  exists m. split; [done|]. split; [|done]. eapply agree_regs; [exact He|exact Ha|done|done|].
  intros q Hl Hq. rewrite <- (ag_reg _ _ _ _ _ Ha q).
  - rewrite (reg_set_reg _ _ _ _ Hset Hx). destruct (Z.eqb_spec q ref) as [->|]; [congruence|done].
  - by apply (live_ext n a a').
  - rewrite (reg_set_reg _ _ _ _ Hset Hx). destruct (Z.eqb_spec q ref) as [->|]; [congruence|done].
Qed.

Lemma allocRef_spec n a ref allow r a' :
  ra_ok a n -> allows allow -> live a n ref -> ref <> REF_BASE -> value_ref a ref ->
  allocRef ref allow a = Ok (r, a') ->
  isReg (reg a ref) = false /\ RegSet.test allow r = true /\ alloced n a a' ref r.
Proof using Type.
  intros Hok Hal Hl Hb Hv H. unfold allocRef in H. inv_asm.
  match goal with Hp : pick_for _ _ _ = Ok (_, ?s) |- _ => rename s into a1, Hp into Hpick end.
  unfold isNoReg in E. assert (Hnr : isReg (reg a ref) = false).
  { unfold isReg. apply negb_true_iff in E. exact E. }
  split; [done|]. destruct (pick_for_spec _ _ _ _ _ _ Hok Hal Hpick) as [Ht [P1 P2 P3 P4 P5 P6 P6' P6q P7]].
  split; [done|]. pose proof (gpr_range _ P3) as Hr.
  set (a' := set_cost _ _ _).
  assert (Hset : reg_set a1 a' ref r).
  { split; [done|]. split; [done|]. intros q. unfold a'.
    change (a_ir (set_cost ?x ?y (use_a ?z ?w)) q) with (a_ir w q). by rewrite a_ir_upd. }
  assert (Hl1 : live a1 n ref) by by apply (live_ext n a a1).
  assert (Hnr1 : isReg (reg a1 ref) = false) by by rewrite P6'.
  destruct (take_ok n a1 a' ref r (ir_t (a_ir a ref)) P1 Hl1 Hb Hnr1 P3 P4 Hset eq_refl eq_refl) as [Hok' Hfree].
  assert (Hreg := reg_set_reg _ _ _ _ Hset ltac:(lia)).
  assert (Hv1 : value_ref a1 ref) by (unfold value_ref; by rewrite (proj1 (shape_eq _ _ (ex_shape _ _ _ P2 ref)))).
  assert (He' : ext n a1 a') by (apply (reg_set_ext _ _ _ _ Hset); [lia|apply Hl|congruence|auto]).
  split; try done.
  - by etransitivity.
  - by rewrite Hreg, Z.eqb_refl.
  - rewrite Hfree, Z.eqb_refl by lia. apply andb_false_r.
  - intros q Hq Hne. rewrite Hfree by done. rewrite P5 by done. destruct (Z.eqb_spec q r); [done|apply andb_true_r].
  - intros q Hne. rewrite Hreg. destruct (Z.eqb_spec q ref); [done|]. apply P6.
  - eapply sim_weaken; [|eapply (sim_trans n a a1 a'); [exact He'|exact P7|]].
    2: { by apply (take_sim n a1 a' ref r); [|lia|apply Hl| | |]. }
    by intros x Hx.
Qed.

Lemma alloc1_spec n a ref allow r a' :
  ra_ok a n -> allows allow -> live a n ref -> ref <> REF_BASE -> value_ref a ref ->
  alloc1 ref allow a = Ok (r, a') ->
  alloced n a a' ref r /\ (isReg (reg a ref) = false -> RegSet.test allow r = true)
  /\ (isReg (reg a ref) = true -> a' = a).
Proof using Type.
  intros Hok Hal Hl Hb Hv H. unfold alloc1 in H. inv_asm.
  unfold isNoReg in H. change (ir_reg (a_ir a ref)) with (reg a ref) in H.
  destruct (Z.land (reg a ref) RID_NONE =? 0) eqn:E; cbn [negb] in H.
  - inv_asm. split; [|split; [|done]].
    + destruct (ro_reg _ _ Hok ref Hl E) as (Hg & Hf & _). split; try done.
      * intros q _. by left.
      * apply sim_refl.
    + unfold isReg. congruence.
  - destruct (allocRef_spec _ _ _ _ _ _ Hok Hal Hl Hb Hv H) as (? & ? & ?). split; [done|]. split; [done|].
    unfold isReg. congruence.
Qed.

Lemma ra_ok_mod n a r : ra_ok a n -> ra_ok (mod_a r a) n.
Proof using Type. intros []. by split. Qed.
Lemma ext_mod n a r : ext n a (mod_a r a).
Proof using Type. split; try done; by left. Qed.
Lemma sim_mod n a a' r K : sim n a a' K -> sim n a (mod_a r a') K.
Proof using Type.
  intros (l & E & H). exists l. split; [done|]. intros Sp st m Hc [A1 A2 A3 A4 A5 A6 A7 A8]. by apply (H Sp st m Hc).
Qed.

Lemma pickReg_spec n a allow r a' :
  ra_ok a n -> allows allow -> allocScratchReg allow a = Ok (r, a') ->
  RegSet.test allow r = true /\ pickable n a a' r.
Proof using Type.
  intros Hok [H0 Hal] H. unfold allocScratchReg in H. inv_asm.
  match goal with Hp : pickReg _ _ = Ok (_, ?s) |- _ => rename s into a1, Hp into Hpick end.
  assert (Hp : RegSet.test allow r = true /\ pickable n a a1 r).
  { unfold pickReg in Hpick. inv_asm. set (pick := RegSet.intersect (freeset (ra a)) allow) in *.
    destruct (RegSet.isEmpty pick) eqn:Ep.
    - destruct (evict_freed n a allow r a1 Hok (conj H0 Hal)) as [Ht Hf]; [|done|].
      + intros q Hq Ht. pose proof (isEmpty_spec _ q Ep) as He. unfold pick in He.
        rewrite test_intersect, Ht, andb_true_r in He by done. done.
      + split; [done|]. by apply freed_pickable.
    - inv_asm. destruct (pickTop_spec pick) as [Hq Ht]; [by apply intersect_nonneg|done|].
      unfold pick in Ht at 1. rewrite test_intersect in Ht by done. apply andb_true_iff in Ht as [Hf Ht].
      split; [done|]. by apply pickable_free. }
  destruct Hp as [Ht [P1 P2 P3 P4 P5 P6 P6' P6q P7]]. split; [done|].
  split; try done.
  - by apply ra_ok_mod.
  - etransitivity; [done|]. apply ext_mod.
  - by apply sim_mod.
Qed.

(** ** [destReg] *)

Lemma agree_extend a Sp ref st m :
  agree a Sp ref st m -> (isReg (reg a ref) = true -> gpr m (reg a ref) = val st ref) ->
  (Sp ref <> 0 -> mmem m (slot_addr (Sp ref)) = Some (val st ref)) -> agree a Sp (ref + 1) st m.
Proof using Type.
  intros [A1 A2 A3 A4 A5 A6 A7 A8] Hr Hs. split; try done.
  - intros q Hl Hq. destruct (Z.eq_dec q ref) as [->|]; [auto|]. apply A1; [|done]. unfold live in *. lia.
  - intros q Hl Hq. destruct (Z.eq_dec q ref) as [->|]; [auto|]. apply A2; [lia|done].
Qed.

Lemma ra_ok_lower a ref : ra_ok a (ref + 1) -> isReg (reg a ref) = false -> ra_ok a ref.
Proof using Type.
  intros [B0 B1 B2 B3 B4 B5 B6 B7 B8] Hr. split; try done.
  - lia.
  - intros r Hg Hf. destruct (B3 r Hg Hf) as [Hl Ho]. split; [|done]. unfold live in *.
    destruct (Z.eq_dec (owner a r) ref) as [E|]; [|lia]. rewrite E in Ho. rewrite Ho, isReg_gpr in Hr by done. done.
  - intros q Hl. apply B4. unfold live in *. lia.
Qed.

Lemma ra_ok_define a ref :
  ra_ok a (ref + 1) -> live a (ref + 1) ref -> isReg (reg a ref) = true ->
  in_gpr (reg a ref) /\ ra_ok (free_a (reg a ref) a) ref
  /\ forall q, 0 <= q -> free (free_a (reg a ref) a) q = free a q || (q =? reg a ref).
Proof using Type.
  intros [B0 B1 B2 B3 B4 B5 B6 B7 B8] Hlref Hr. destruct (B4 ref Hlref Hr) as (Hg & Hf & Ho & Hb).
  pose proof (gpr_range _ Hg).
  assert (Hfree : forall q, 0 <= q -> free (free_a (reg a ref) a) q = free a q || (q =? reg a ref)).
  { intros q Hq. apply test_include; lia. }
  split; [done|]. split; [|done]. split; try done.
  - change (nins (free_a (reg a ref) a)) with (nins a). change (bufmin (free_a (reg a ref) a)) with (bufmin a). lia.
  - apply Z.lor_nonneg. split; [done|]. apply (to_u_bound 32). lia.
  - intros q Hq. rewrite Hfree by done. intros [?|E]%orb_true_iff; [auto|]. apply Z.eqb_eq in E. by subst q.
  - intros q Hgq. pose proof (gpr_range _ Hgq). rewrite Hfree by lia. intros [Hq Hne%Z.eqb_neq]%orb_false_iff.
    destruct (B3 q Hgq Hq) as [Hl Hoq]. split; [|done]. change (owner (free_a (reg a ref) a) q) with (owner a q).
    unfold live in *. change (bufmin (free_a (reg a ref) a)) with (bufmin a).
    destruct (Z.eq_dec (owner a q) ref) as [E|]; [congruence|lia].
  - intros q Hl Hq. destruct (B4 q) as (G & F & O & N); [unfold live in *; change (bufmin (free_a (reg a ref) a)) with (bufmin a) in Hl; lia|done|].
    change (reg (free_a (reg a ref) a) q) with (reg a q) in *. split; [done|]. pose proof (gpr_range _ G).
    rewrite Hfree, F by lia. split; [|done]. cbn. apply Z.eqb_neq. intros E. rewrite E in O. unfold live in Hl. lia.
Qed.

(** A store to the spill slot of [ref]. *)
Lemma store_slot_agree a Sp n st m s ref :
  slots_ok Sp -> Sp ref = s -> s <> 0 -> n <= ref -> agree a Sp n st m ->
  forall r, exists m', exec (IMovMR true (OMem RID_ESP None (spillOffset s)) r) m = Some (Next m')
    /\ agree a Sp n st m' /\ mmem m' (slot_addr s) = Some (gpr m r) /\ gpr m' = gpr m.
Proof using Type.
  intros [Hb Hinj] Hs Hnz Hn Ha r. pose proof (Hb ref) as Hrange. rewrite Hs in Hrange.
  destruct (slot_ea s m Hrange (ag_sp _ _ _ _ _ Ha)) as [Ea Hal].
  destruct (proj1 (ag_frame _ _ _ _ _ Ha) s Hrange) as [old Hold].
  exists (set_mem (slot_addr s) (gpr m r) m). split.
  { cbn [exec wr]. unfold rd_mem. rewrite Ea, Hal. cbn. by rewrite Hold. }
  split; [|split; [|done]].
  2: { cbn. unfold upd. by rewrite Z.eqb_refl. }
  destruct Ha as [A1 A2 A3 A4 A5 A6 A7 A8]. split; try done.
  - intros q Hq Hqs. cbn. unfold upd. destruct (Z.eqb_spec (slot_addr (Sp q)) (slot_addr s)) as [E|].
    + unfold slot_addr in E. assert (E' : Sp q = Sp ref) by lia. apply (Hinj q ref) in E'; [lia|done].
    + by apply A2.
  - intros x Hx. cbn. unfold upd. destruct (Z.eqb_spec x (slot_addr s)) as [->|]; [|auto].
    destruct Hx. unfold in_frame, slot_addr in *. unfold SPILL_SP_OFFS in *. lia.
  - destruct A7 as (F1 & F2 & F3). unfold HPLIM_SP_OFFS, SPLIM_SP_OFFS in *. cbn. split_and!.
    + intros k Hk. unfold upd. destruct (_ =? _); [done|auto].
    + unfold upd. destruct (Z.eqb_spec (SP + 0) (slot_addr s)) as [E|]; [|done].
      unfold slot_addr, SPILL_SP_OFFS in E. lia.
    + unfold upd. destruct (Z.eqb_spec (SP + 8) (slot_addr s)) as [E|]; [|done].
      unfold slot_addr, SPILL_SP_OFFS in E. lia.
Qed.

(** The register of the result of [ref] is free before the instruction;
    when the instruction leaves the value in it, the code behind finds
    the value in the register and in the slot. *)
Record defines (a a' : Assembler) (ref dest allow : Z) : Prop := {
  df_ok : ra_ok a' ref;
  df_ext : ext (ref + 1) a a';
  df_gpr : in_gpr dest;
  df_free : free a' dest = true;
  df_allow : isReg (reg a ref) = false -> RegSet.test allow dest = true;
  df_same : isReg (reg a ref) = true -> dest = reg a ref;
  df_spl : spl a' ref = spl a ref;
  df_keep : forall q, 0 <= q < 32 -> q <> dest -> free a' q = free a q;
  df_other : forall q, q <> ref -> reg a' q = reg a q \/ (isReg (reg a' q) = false /\ isReg (reg a ref) = false);
  df_sim : exists l, emits (code a) (code a') l /\
    forall Sp st m, slots_ok Sp -> covers a' Sp -> Sp ref = spl a' ref -> agree a' Sp ref st m ->
      gpr m dest = val st ref ->
      exists m', exec_list l m = Some (Next m') /\ agree a Sp (ref + 1) st m'
}.

Lemma save_emits a ref dest a' :
  saveReg ref dest a = Ok (tt, a') ->
  a' = set_acode (store_u64 RID_ESP (spillOffset (spl a ref)) dest (code a)) a.
Proof using Type. unfold saveReg. intros H. inv_asm. done. Qed.

(** The end of [destReg], after the register is chosen. *)
Lemma dest_save a a2 ref dest allow :
  ra_ok a2 ref -> ext (ref + 1) a a2 -> in_gpr dest -> free a2 dest = true ->
  (isReg (reg a ref) = false -> RegSet.test allow dest = true) ->
  (isReg (reg a ref) = true -> dest = reg a ref) -> spl a2 ref = spl a ref ->
  (forall q, 0 <= q < 32 -> q <> dest -> free a2 q = free a q) ->
  (forall q, q <> ref -> reg a2 q = reg a q \/ (isReg (reg a2 q) = false /\ isReg (reg a ref) = false)) ->
  (exists l, emits (code a) (code a2) l /\
    forall Sp st m, covers a2 Sp -> agree a2 Sp ref st m -> gpr m dest = val st ref ->
      (Sp ref <> 0 -> mmem m (slot_addr (Sp ref)) = Some (val st ref)) ->
      exists m', exec_list l m = Some (Next m') /\ agree a Sp (ref + 1) st m') ->
  forall a', (if negb (ir_spill (a_ir a2 ref) =? 0) then saveReg ref dest else aret tt) a2 = Ok (tt, a') ->
  defines a a' ref dest allow.
Proof using Type.
  intros H1 H2 H3 H4 H5 H6 H7 H8 H9 (l & Em & Hl) a' H. pose proof (gpr_range _ H3) as Hr.
  change (ir_spill (a_ir a2 ref)) with (spl a2 ref) in H.
  destruct (Z.eqb_spec (spl a2 ref) 0) as [Hz|Hnz]; cbn [negb] in H.
  - inv_asm. split; try done. exists l. split; [done|]. intros Sp st m Hsl Hc Hsp Ha Hd.
    apply Hl; try done. rewrite Hsp, Hz. done.
  - apply save_emits in H as ->.
    set (a' := set_acode _ a2) in *.
    assert (Hag : forall Sp n st m, agree a' Sp n st m -> agree a2 Sp n st m).
    { intros Sp n st m [A1 A2 A3 A4 A5 A6 A7 A8]. by split. }
    split; try done.
    + destruct H1. by split.
    + etransitivity; [exact H2|]. split; try done; by left.
    + exists ([IMovMR true (OMem RID_ESP None (spillOffset (spl a2 ref))) dest] ++ l). split.
      { eapply emits_app; [exact Em|]. apply store_emits; [unfold is_gpr; lia|apply gpr_esp|apply spillOffset_i32]. }
      intros Sp st m Hsl Hc Hsp Ha Hd. apply Hag in Ha. change (spl a' ref) with (spl a2 ref) in Hsp.
      destruct (store_slot_agree a2 Sp ref st m (spl a2 ref) ref Hsl Hsp Hnz ltac:(lia) Ha dest)
        as (m1 & X1 & A1 & M1 & G1).
      destruct (Hl Sp st m1) as (m2 & X2 & A2); try done.
      { by rewrite G1. }
      { intros _. by rewrite Hsp, M1, Hd. }
      exists m2. split; [|done]. rewrite exec_list_app. cbn [exec_list]. by rewrite X1.
Qed.

Lemma hint_pickable n a ins allow r a' :
  ra_ok a n -> allows allow ->
  hasHint ins && RegSet.test (RegSet.intersect (freeset (ra a)) allow) (getHint ins) = true ->
  (modifiedReg (getHint ins);* aret (getHint ins)) a = Ok (r, a') ->
  RegSet.test allow r = true /\ pickable n a a' r.
Proof using Type.
  intros Hok Hal [_ Ht]%andb_true_iff H. inv_asm.
  assert (Hh : 0 <= getHint ins) by (unfold getHint; destruct (_ =? 0); lia).
  rewrite test_intersect in Ht by done. apply andb_true_iff in Ht as [Hf Ht]. split; [done|].
  destruct (pickable_free n a _ Hok Hh Hf) as [P1 P2 P3 P4 P5 P6 P6' P6q P7]. split; try done.
  - by apply ra_ok_mod.
  - apply ext_mod.
  - by apply sim_mod.
Qed.

Lemma destReg_spec a ref allow dest a' :
  ra_ok a (ref + 1) -> allows allow -> live a (ref + 1) ref -> ref <> REF_BASE -> value_ref a ref ->
  destReg ref allow a = Ok (dest, a') -> defines a a' ref dest allow.
Proof using Type.
  intros Hok Hal Hl Hb Hv H. unfold destReg in H. inv_asm.
  change (ir_reg (a_ir a ref)) with (reg a ref) in *. destruct (isReg (reg a ref)) eqn:Hr.
  - inv_asm. destruct (ra_ok_define _ _ Hok Hl Hr) as (Hg & Hok' & Hfree). pose proof (gpr_range _ Hg).
    repeat match goal with u : () |- _ => destruct u end. eapply dest_save; [..|eassumption]; try done.
    + by apply ra_ok_mod.
    + split; try done; by left.
    + change (free (mod_a ?x ?y) ?q) with (free y q). rewrite Hfree, Z.eqb_refl by lia. apply orb_true_r.
    + congruence.
    + intros q Hq Hne. change (free (mod_a ?x ?y) q) with (free y q). rewrite Hfree by lia.
      destruct (Z.eqb_spec q (reg a ref)); [done|apply orb_false_r].
    + by left.
    + exists []. split; [apply emits_nil|]. intros Sp st m _ Ha Hd Hs. exists m. split; [done|].
      assert (Ha' : agree a Sp ref st m) by (destruct Ha as [A1 A2 A3 A4 A5 A6 A7 A8]; by split).
      by apply agree_extend.
  - inv_asm. repeat match goal with u : () |- _ => destruct u end.
    assert (Hok0 := ra_ok_lower _ _ Hok Hr).
    match goal with Hc : (if hasHint _ && _ then _ else _) a = Ok (_, ?s) |- _ =>
      rename s into a1; assert (Hp : RegSet.test allow dest = true /\ pickable ref a a1 dest) by
        (revert Hc; destruct (hasHint _ && _) eqn:Eh; intros Hc; [|by apply (pickReg_spec _ _ _ _ _ Hok0 Hal Hc)];
         by apply (hint_pickable _ _ _ _ _ _ Hok0 Hal Eh Hc)) end.
    destruct Hp as [Ht [P1 P2 P3 P4 P5 P6 P6' P6q P7]]. pose proof (gpr_range _ P3) as Hg.
    set (a2 := upd_a _ ref a1) in *.
    assert (Hset : reg_set a1 a2 ref dest).
    { split; [done|]. split; [done|]. intros q. unfold a2. by rewrite a_ir_upd. }
    assert (Hreg := reg_set_reg _ _ _ _ Hset ltac:(lia)).
    assert (Hspl := reg_set_spl _ _ _ _ Hset).
    eapply (dest_save a a2 ref dest allow); [..|eassumption]; try done.
    + destruct P1 as [B0 B1 B2 B3 B4 B5 B6 B7 B8].
      destruct (reg_set_slots _ _ _ _ Hset ref) as [Hsl Hin]; [by split|]. split; try done.
      * intros r Hgr Hfr. destruct (B3 r Hgr Hfr) as [Hlr Ho]. split; [done|].
        change (owner a2 r) with (owner a1 r). rewrite Hreg. unfold live in Hlr.
        destruct (Z.eqb_spec (owner a1 r) ref); [lia|done].
      * intros q Hlq. rewrite Hreg. unfold live in Hlq. destruct (Z.eqb_spec q ref); [lia|]. by apply B4.
    + destruct P2 as [E1 E2 E3 E4 E5 E6]. destruct Hset as (S1 & S2 & S3). split.
      * by rewrite S1.
      * intros q. rewrite S3. destruct (Z.eqb_spec q ref) as [->|]; [by rewrite shape_setReg|done].
      * intros q Hq. rewrite S3. destruct (Z.eqb_spec q ref); [lia|]. apply E3. lia.
      * intros q Hq. rewrite Hspl. auto.
      * intros q Hbq Hq. rewrite Hreg, Hspl. destruct (Z.eqb_spec q ref) as [->|]; [congruence|auto].
      * intros q. unfold placed in *. rewrite Hreg, Hspl. destruct (Z.eqb_spec q ref) as [->|]; [by right|auto].
    + congruence.
    + rewrite Hspl. unfold spl. by rewrite (ex_above _ _ _ P2) by lia.
    + intros q Hne. rewrite Hreg. destruct (Z.eqb_spec q ref); [done|]. destruct (P6 q) as [?|[? ?]]; auto.
    + destruct P7 as (l & Em & Hsim). exists l. split; [done|]. intros Sp st m Hc Ha Hd Hs.
      assert (Ha1 : agree a1 Sp ref st m).
      { eapply agree_regs; [|exact Ha|done|done|].
        - assert (Hra : reg a1 ref = reg a ref) by (unfold reg; by rewrite (ex_above _ _ _ P2) by lia).
          apply (reg_set_ext _ _ _ _ Hset ltac:(lia) (ref + 1)); [lia|congruence|].
          intros _. right. unfold value_ref. by rewrite (ex_above _ _ _ P2) by lia.
        - intros q Hlq Hq. rewrite <- (ag_reg _ _ _ _ _ Ha q Hlq).
          + rewrite Hreg. unfold live in Hlq. destruct (Z.eqb_spec q ref); [lia|done].
          + rewrite Hreg. unfold live in Hlq. destruct (Z.eqb_spec q ref); [lia|done]. }
      destruct (Hsim Sp st m) as (m' & X & A & _ & Mm & _); [|done|].
      { intros q Hlq Hq. rewrite (Hc q); [apply Hspl|exact Hlq|by rewrite Hspl]. }
      exists m'. split; [done|]. apply agree_extend; [done|congruence|by rewrite Mm].
Qed.

(** ** [allocLeft] *)

(** A free register can be written. *)
Lemma agree_write a Sp n st m r v :
  ra_ok a n -> in_gpr r -> free a r = true -> agree a Sp n st m -> agree a Sp n st (set_gpr r v m).
Proof using Type.
  intros Hok Hg Hf Ha. eapply (agree_regs n n a a Sp st m); [reflexivity|exact Ha|done| |].
  - intros x Hx. rewrite gpr_upd. destruct (Z.eqb_spec x r) as [->|]; done.
  - intros q Hl Hq. rewrite gpr_upd. destruct (Z.eqb_spec (reg a q) r) as [E|].
    + destruct (ro_reg _ _ Hok q Hl Hq) as (_ & F & _). rewrite E in F. congruence.
    + by apply (ag_reg _ _ _ _ _ Ha).
Qed.

(** Changing the hint of a reference without register. *)
Lemma hint_ok n a a' ref x :
  ra_ok a n -> ref < n -> isReg (reg a ref) = false -> isReg x = false -> 0 <= x < 256 -> reg_set a a' ref x ->
  (forall q, 0 <= q -> free a' q = free a q) -> 0 <= freeset (ra a') -> cost (ra a') = cost (ra a) ->
  ra_ok a' n /\ ext n a a'.
Proof using Type.
  intros Hok Hn Hr Hnx Hx Hset Hf H0 Hc. pose proof Hset as (He & Hsp & _).
  destruct (erase_code _ _ He) as (E1 & _ & E2).
  destruct (reg_set_slots _ _ _ _ Hset _ Hok) as [Hslot Hinj].
  assert (How : forall r, owner a' r = owner a r) by (intros r; unfold owner, a_cost; by rewrite Hc).
  assert (Hreg := reg_set_reg _ _ _ _ Hset Hx).
  split; [|apply (reg_set_ext _ _ _ _ Hset Hx); [done|congruence|congruence]].
  destruct Hok as [B0 B1 B2 B3 B4 B5 B6 B7 B8].
  split; [by rewrite E1, E2|done| | | |by rewrite Hc|by rewrite Hsp|done|done].
  - intros r Hr0. rewrite Hf by done. auto.
  - intros r Hg. rewrite Hf, How by (apply gpr_range in Hg; lia). intros Hfr.
    unfold live. rewrite E1. destruct (B3 r Hg Hfr) as [Hl Ho]. split; [done|]. rewrite Hreg.
    destruct (Z.eqb_spec (owner a r) ref) as [E|]; [|done]. rewrite E in Ho.
    rewrite Ho, isReg_gpr in Hr by done. done.
  - intros q. unfold live. rewrite E1, Hreg. destruct (Z.eqb_spec q ref); [congruence|].
    intros Hl Hq. destruct (B4 q Hl Hq) as (G & F & O & N). split; [done|].
    rewrite Hf, How by (apply gpr_range in G; lia). done.
Qed.

(** From [a] to [a'] code was emitted that brings the value of [lref]
    into [dest]. *)
Definition puts (n : Z) (a a' : Assembler) (dest lref : Z) : Prop :=
  ra_ok a' n /\ ext n a a' /\ exists l, emits (code a) (code a') l /\
    forall Sp st m, covers a' Sp -> agree a' Sp n st m ->
      exists m', exec_list l m = Some (Next m') /\ agree a Sp n st m' /\ gpr m' dest = val st lref.

Lemma move_exec dst src m : exec (IMovRM true dst (OReg src)) m = Some (Next (set_gpr dst (gpr m src) m)).
Proof using Type. done. Qed.

Lemma puts_move n a a1 dest lref left :
  ra_ok a n -> in_gpr dest -> free a dest = true -> dest <> left -> alloced n a a1 lref left -> live a n lref ->
  puts n a (set_acode (move dest left (code a1)) a1) dest lref.
Proof using Type.
  intros Hok Hd Hf Hne [A1 A2 A3 A4 A5 A6 A7 A7q (l & Em & Hsim)] Hl.
  pose proof (gpr_range _ Hd). pose proof (gpr_range _ A3).
  split; [by destruct A1|]. split; [etransitivity; [exact A2|]; split; try done; by left|].
  exists ([IMovRM true dest (OReg left)] ++ l). split.
  { eapply emits_app; [exact Em|]. apply move_emits; unfold is_gpr; lia. }
  intros Sp st m Hc Ha. assert (Ha1 : agree a1 Sp n st m) by (destruct Ha as [G1 G2 G3 G4 G5 G6 G7 G8]; by split).
  assert (Hv : gpr m left = val st lref).
  { rewrite <- A4. apply (ag_reg _ _ _ _ _ Ha1); [by apply (live_ext n a a1)|]. rewrite A4. by apply isReg_gpr. }
  destruct (Hsim Sp st (set_gpr dest (gpr m left) m) Hc) as (m' & X & A & G & _).
  { apply agree_write; try done. by rewrite A6 by lia. }
  exists m'. split; [|split; [done|]].
  - rewrite exec_list_app. cbn [exec_list]. by rewrite move_exec.
  - rewrite G by (by left). rewrite gpr_upd, Z.eqb_refl. done.
Qed.

Lemma puts_pre n a a1 a2 dest lref :
  ext n a a1 -> code a1 = code a -> (forall q, isReg (reg a q) = true -> reg a1 q = reg a q) ->
  puts n a1 a2 dest lref -> puts n a a2 dest lref.
Proof using Type.
  intros He Hc Hr (H1 & H2 & l & Em & H3). rewrite Hc in Em. split; [done|]. split; [by etransitivity|].
  exists l. split; [done|]. intros Sp st m Hcov Ha. destruct (H3 Sp st m Hcov Ha) as (m' & X & A & G).
  exists m'. split; [done|]. split; [|done]. eapply agree_regs; [exact He|exact A|done|done|].
  intros q Hl Hq. rewrite <- (ag_reg _ _ _ _ _ A q); [by rewrite Hr|by apply (live_ext n a a1)|by rewrite Hr].
Qed.

Lemma allows_kGPR : allows kGPR.
Proof using Type. split; [by vm_compute|]. intros r H0 Ht. by split. Qed.

(** A literal is loaded into the register directly. *)
Lemma puts_literal n a dest lref r a' :
  ra_ok a n -> in_gpr dest -> free a dest = true -> live a n lref -> lref < REF_BIAS ->
  isReg (reg a lref) = false ->
  rematConstant lref (upd_a (fun i => setReg i dest) lref a) = Ok (r, a') -> puts n a a' dest lref.
Proof using Type.
  intros Hok Hg Hf Hl Hlt Hnr H. pose proof (gpr_range _ Hg) as Hr.
  set (a1 := upd_a _ lref a) in *.
  assert (Hset1 : reg_set a a1 lref dest).
  { split; [done|]. split; [done|]. intros q. unfold a1. by rewrite a_ir_upd. }
  destruct (remat_core _ _ _ _ H) as (E & _ & Hs & Hset2 & Hfr & Hc & Hcode).
  assert (Hd : r = dest) by (rewrite E, (reg_set_reg _ _ _ _ Hset1), Z.eqb_refl by lia; done). subst r.
  rewrite Hd in *. clear Hd.
  assert (Hset : reg_set a a' lref RID_INIT).
  { destruct Hset1 as (S1 & S2 & S3), Hset2 as (T1 & T2 & T3). split; [congruence|]. split; [congruence|].
    intros q. rewrite T3, !S3, Z.eqb_refl. destruct (q =? lref); [|done].
    unfold setReg. f_equal. f_equal. apply ir_spill_setReg. }
  assert (Hfree : forall q, 0 <= q -> free a' q = free a q).
  { intros q Hq. unfold free. rewrite Hfr. unfold RegSet.set. rewrite test_include by lia.
    change (freeset (ra a1)) with (freeset (ra a)). destruct (Z.eqb_spec q dest) as [->|]; [|by rewrite orb_false_r].
    fold (free a dest). rewrite Hf. done. }
  destruct (hint_ok n a a' lref RID_INIT Hok ltac:(apply Hl) Hnr eq_refl ltac:(by vm_compute) Hset Hfree) as [Hok' He].
  { rewrite Hfr. apply Z.lor_nonneg. split; [apply (ro_freeset _ _ Hok)|]. apply (to_u_bound 32). lia. }
  { by rewrite Hc. }
  split; [done|]. split; [done|]. destruct Hcode as (i & Em & Hex); [unfold is_gpr; lia|unfold live in Hl; change (bufmin a1) with (bufmin a); lia|].
  exists [i]. split; [exact Em|]. intros Sp st m Hcov Ha.
  exists (set_gpr dest (val st lref) m). cbn [exec_list]. rewrite (Hex st m).
  - split; [done|]. split; [|by rewrite gpr_upd, Z.eqb_refl]. apply agree_write; try done.
    eapply agree_regs; [exact He|exact Ha|done|done|]. intros q Hlq Hq.
    assert (q <> lref) by congruence.
    rewrite <- (ag_reg _ _ _ _ _ Ha q); rewrite ?(reg_set_reg _ _ _ _ Hset ltac:(by vm_compute));
      (destruct (Z.eqb_spec q lref); [done|]); try done. by apply (live_ext n a a').
  - eapply (literals_ext n a1 a'); [|exact (ag_lits _ _ _ _ _ Ha)].
    apply (reg_set_ext _ _ _ _ Hset2); [by vm_compute|apply Hl|lia|done].
  - by apply (ag_base _ _ _ _ _ Ha).
Qed.

Lemma allocLeft_spec n a dest lref u a' :
  ra_ok a n -> in_gpr dest -> free a dest = true -> live a n lref -> lref <> REF_BASE -> value_ref a lref ->
  allocLeft dest lref a = Ok (u, a') -> puts n a a' dest lref.
Proof using Type.
  intros Hok Hg Hf Hl Hb Hv H. unfold allocLeft in H. inv_asm.
  change (ir_reg (a_ir a lref)) with (reg a lref) in H.
  destruct (isReg (reg a lref)) eqn:Hr; cbn [negb andb] in H.
  - inv_asm. destruct (ro_reg _ _ Hok lref Hl Hr) as (Hgl & Hfl & _).
    destruct (Z.eqb_spec dest (reg a lref)) as [E|Hne]; cbn [negb] in H; [congruence|]. inv_asm.
    apply puts_move; try done. split; try done; [by left|apply sim_refl].
  - destruct (irref_islit lref) eqn:Elit.
    { inv_asm. apply Z.ltb_lt in Elit. by eapply puts_literal. }
    inv_asm.
    match goal with Hx : (if _ then upd_ir _ _ else _) _ = Ok (?u, ?s) |- _ => destruct u; rename s into a1, Hx into Hh end.
    match goal with Hx : allocRef _ _ _ = Ok (?l, ?s) |- _ => rename l into left, s into a2, Hx into Hal end.
    assert (H1 : ra_ok a1 n /\ ext n a a1 /\ code a1 = code a /\ (forall q, isReg (reg a q) = true -> reg a1 q = reg a q)
              /\ (forall q, 0 <= q -> free a1 q = free a q)).
    { destruct (negb (hasHint (reg a lref))); inv_asm; [|by split_and!].
      pose proof (gpr_range _ Hg). destruct (hint_byte dest Hg) as [Hx Hnx].
      assert (Hset : reg_set a (upd_a (fun i => setHint i dest) lref a) lref (u1 (Z.lor dest RID_NONE))).
      { split; [done|]. split; [done|]. intros q. rewrite a_ir_upd. destruct (q =? lref); [|done].
        unfold setHint, setReg. by rewrite (to_u_idemp 8). }
      destruct (hint_ok n a _ lref _ Hok ltac:(apply Hl) Hr Hnx Hx Hset) as [? ?]; [done|apply (ro_freeset _ _ Hok)|done|].
      split_and!; try done. intros q Hq. rewrite (reg_set_reg _ _ _ _ Hset Hx).
      destruct (Z.eqb_spec q lref); [congruence|done]. }
    destruct H1 as (Hok1 & He1 & Hc1 & Hr1 & Hf1). pose proof (gpr_range _ Hg).
    assert (Hl1 : live a1 n lref) by by apply (live_ext n a a1).
    assert (Hv1 : value_ref a1 lref) by (unfold value_ref; by rewrite (proj1 (shape_eq _ _ (ex_shape _ _ _ He1 lref)))).
    destruct (allocRef_spec _ _ _ _ _ _ Hok1 allows_kGPR Hl1 Hb Hv1 Hal) as (_ & _ & Halloc).
    eapply (puts_pre n a a1); [done..|].
    destruct (Z.eqb_spec dest left) as [Eq|Hne]; cbn [negb] in H; inv_asm.
    + destruct Halloc as [A1 A2 A3 A4 A5 A6 A7 A7q (l & Em & Hsim)]. split; [done|]. split; [done|].
      exists l. split; [done|]. intros Sp st m Hcov Ha. destruct (Hsim Sp st m Hcov Ha) as (m' & X & A & G & _).
      exists m'. split; [done|]. split; [done|]. rewrite G by (right; rewrite <- Eq; by rewrite Hf1 by lia).
      rewrite <- A4 in Eq. rewrite Eq. apply (ag_reg _ _ _ _ _ Ha); [by apply (live_ext n a1)|]. rewrite A4. by apply isReg_gpr.
    + apply puts_move; try done. by rewrite Hf1 by lia.
Qed.
End machine.
