(* ===== verification/AsmSelect.v ===== *)
(** * The assembler: instruction selection ([assembler.cc])

    One function per kind of IR instruction; each emits the machine code
    of the instruction the assembler is at ([curins]), in reverse. *)

From S2P Require Import Prelude Words Hotness IR Registers X86.
From S2P Require Import AsmState.

(** The addresses of the functions in [amd64] that compiled code calls. *)
Class RuntimeAddrs := {
  asmExit : Z;
  asmTrace : Z;
  asmHeapOverflow : Z;
  asmStackOverflow : Z
}.

(** Bits of [Jit::options_], and [IRBuffer::setRegsAllocated]. *)
Definition kOptDebugTrace : Z := 0.
Definition kOptFastHeapCheckFail : Z := 1.
Definition getOption (n : Z) : M bool := fun a => Ok (Flags32.get (options a) n, a).

(** ** Arithmetic *)

Definition emit_x86 (xo rr rb : Z) : M () := fun a => emitc (emit_mrm (mrm a) xo rr rb) a.
Definition emit_x86i (xg rb i : Z) : M () := fun a => emitc (emit_gmrmi (mrm a) xg rb i) a.

Definition intArith (ref : Z) (xa : x86Arith) : M () :=
  let* ins := bufir ref in
  let lref := op1 ins in
  let rref := op2 ins in
  let* rins := bufir rref in
  let rreg := ir_reg rins in
  let allow := if isReg rreg then RegSet.clear kGPR rreg else kGPR in
  let* dest := destReg ref allow in
  let* rk :=
    (if isReg rreg then aret (rreg, 0)
     else
       let* k := is32BitLiteral rref in
       match k with
       | Some k => aret (rreg, k)
       | None => let* r := fuseLoad rref (RegSet.clear allow dest) in aret (r, 0)
       end) in
  let rreg := fst rk in
  let k := snd rk in
  match xa with
  | XOg_X_IMUL =>
      if isReg rreg then
        emit_x86 XO_IMUL (Z.lor REX_64 dest) rreg;* allocLeft dest lref
      else
        lc_assert (irref_islit rref);*
        let* lreg := fuseLoad lref kGPR in
        if checki8 k then emitc (emit_i8 k);* emit_x86 XO_IMULi8 (Z.lor REX_64 dest) lreg
        else emitc (emit_i32 k);* emit_x86 XO_IMULi (Z.lor REX_64 dest) lreg
  | _ =>
      (if isReg rreg then emit_x86 (XO_ARITH xa) (Z.lor REX_64 dest) rreg
       else emitc (emit_gri (XG_ARITHi (x86Arith_num xa)) (Z.lor REX_64 dest) k));*
      allocLeft dest lref
  end.

(** A shift by a constant, or by the low byte of ECX. *)
Definition bitshift (ref xs : Z) : M () :=
  let* ins := bufir ref in
  let rref := op2 ins in
  let* rins := bufir rref in
  if irref_islit rref then
    lc_assert (negb (bool_decide (ir_o rins = kKBASEO)));*
    let* k := a_literalValue rref in
    let shift := Z.land k 63 in
    let* dest := destReg ref kGPR in
    (if shift =? 0 then aret tt
     else if shift =? 1 then emitc (emit_rr XO_SHIFT1 (Z.lor xs REX_64) dest)
     else emitc (emit_shifti (Z.lor xs REX_64) dest shift));*
    allocLeft dest (op1 ins)
  else
    let noecx := RegSet.exclude kGPR RID_ECX in
    let* dest := destReg ref noecx in
    let* dest :=
      (if dest =? RID_ECX then
         let* d := allocScratchReg noecx in
         emitc (emit_rr XO_MOV (Z.lor RID_ECX REX_64) d);* aret d
       else aret dest) in
    let* rins := bufir rref in
    let rreg := ir_reg rins in
    let* rreg :=
      (if negb (isReg rreg) then allocRef rref noecx
       else if negb (rreg =? RID_ECX) then
         allocScratchReg (RegSet.fromReg RID_ECX);* aret rreg
       else aret rreg) in
    emitc (emit_rr XO_SHIFTcl (Z.lor xs REX_64) dest);*
    (if negb (rreg =? RID_ECX) then emitc (emit_rr XO_MOV RID_ECX rreg) else aret tt);*
    allocLeft dest (op1 ins).

Definition intNegNot (ref xg : Z) : M () :=
  let* dest := destReg ref kGPR in
  emitc (emit_rr XO_GROUP3 (Z.lor REX_64 xg) dest);*
  let* ins := bufir ref in
  allocLeft dest (op1 ins).

(** Signed division; [isdiv] is [DIVMOD_DIV]. *)
Definition divmod (ref : Z) (isdiv useSigned : bool) : M () :=
  if negb useSigned then fail (Exited 3)
  else
    let resultReg := if isdiv then RID_EAX else RID_EDX in
    let otherReg := if isdiv then RID_EDX else RID_EAX in
    let allow := RegSet.exclude (RegSet.exclude kGPR RID_EAX) RID_EDX in
    evictSet (RegSet.fromReg otherReg);*
    let* dest := destReg ref (RegSet.include allow resultReg) in
    (if negb (dest =? resultReg) then
       evictSet (RegSet.fromReg resultReg);* emitc (move dest resultReg)
     else aret tt);*
    let* ins := bufir ref in
    let* rreg := alloc1 (op2 ins) allow in
    lc_assert (negb (rreg =? RID_EAX) && negb (rreg =? RID_EDX));*
    emitc (emit_rr XO_GROUP3 (Z.lor XOg_IDIV REX_64) rreg);*
    emitc (emit_i8 XI_CDQ);*
    emitc (emit_i8 0x48);*
    allocLeft RID_EAX (op1 ins).

(** ** Guards *)

(** [exitstubAddr] *)
Definition EXITSTUBS_PER_GROUP : Z := 32.
Definition EXITSTUB_SPACING : Z := 2 + 2.
Definition exitstubAddr (exitno : Z) : M Z :=
  fun a =>
    let! group := of_option WildAccess (exitStubGroup a !! Z.to_nat (exitno / EXITSTUBS_PER_GROUP)) in
    assert! negb (group =? 0) in
    Ok (group + EXITSTUB_SPACING * (exitno mod EXITSTUBS_PER_GROUP), a).

(** [snap]: the snapshot of the current guard and the address of its
    branch. *)
Definition asnap (n : Z) : M Snapshot :=
  fun a =>
    let l := b_snaps (abuf a) in
    assert! n <? Z.of_nat (length l) in
    let! s := of_option WildAccess (l !! Z.to_nat n) in Ok (s, a).
Definition set_sn_mcode (s : Snapshot) (p : Z) : Snapshot :=
  mkSnap (sn_ref s) (sn_mapofs s) (sn_relbase s) (sn_entries s) (sn_framesize s) (sn_exitCounter s)
    (sn_steps s) (sn_lastHeapEntry s) (sn_pc s) p.
Definition set_snap_mcode (n p : Z) : M () :=
  let* s := asnap n in
  modify (fun a => set_abuf (set_snaps (abuf a) (b_snapmap (abuf a))
                               (<[Z.to_nat n := set_sn_mcode s p]> (b_snaps (abuf a)))) a).

Definition guardcc (cc : Z) : M () :=
  let* a := get in
  let* target := exitstubAddr (snapno a) in
  asnap (snapno a);*
  emito (emit_jcc cc target);*
  let* a := get in
  set_snap_mcode (snapno a) (mcp (code a)).

(** [asm_compmap]: the condition of the branch that leaves, for signed
    and unsigned comparisons. *)
Definition asm_compmap (op : Opcode) : option Z :=
  match op with
  | kLT => Some CC_GE | kGE => Some CC_L | kLE => Some CC_G | kGT => Some CC_LE
  | kEQ => Some CC_NE | kNE => Some CC_E
  | kLTU => Some CC_AE | kGEU => Some CC_B | kLEU => Some CC_A | kGTU => Some CC_BE
  | _ => None
  end.

Definition compare (ref cc : Z) : M () :=
  let* ins := bufir ref in
  let* lreg := alloc1 (op1 ins) kGPR in
  let* k := is32BitLiteral (op2 ins) in
  match k with
  | Some imm =>
      guardcc cc;*
      emit_x86i (XG_ARITHi (x86Arith_num XOg_CMP)) (Z.lor lreg REX_64) imm
  | None =>
      let* rreg := alloc1 (op2 ins) kGPR in
      guardcc cc;*
      emit_x86 XO_CMP (Z.lor lreg REX_64) (Z.lor rreg REX_64)
  end.

(** [itblGuard]: compares the info pointer of a closure. *)
Definition set_mrm_base (base : Z) : M () :=
  modify (fun a => set_mrm (mkMRM 0 base RID_NONE (mrm_scale (mrm a))) a).
Definition itblGuard (ref : Z) (inverted : bool) : M () :=
  let* ins := bufir ref in
  let itblref := op2 ins in
  lc_assert (irref_islit itblref);*
  let* closreg := alloc1 (op1 ins) kGPR in
  guardcc (if inverted then CC_E else CC_NE);*
  lc_assert (negb (closreg =? RID_ESP) && negb (closreg =? RID_EBP));*
  let* k := is32BitLiteral itblref in
  match k with
  | Some imm =>
      set_mrm_base closreg;*
      emit_x86i (XG_ARITHi (x86Arith_num XOg_CMP)) (Z.lor RID_MRM REX_64) imm
  | None =>
      let* rreg := alloc1 itblref kGPR in
      set_mrm_base closreg;*
      emit_x86 XO_CMP (Z.lor rreg REX_64) RID_MRM
  end.

(** ** Memory *)

Definition emitSLOAD (ref : Z) : M () :=
  let* ins := bufir ref in
  let ofs := 8 * i2 (op1 ins) in
  let* dst := destReg ref kGPR in
  emitc (load_u64 dst RID_BASE ofs).

Definition fieldLoad (ref : Z) : M () :=
  let* ins := bufir ref in
  let fref := op1 ins in
  let* frefins := bufir fref in
  lc_assert (negb (fref =? 0) && bool_decide (ir_o frefins = kFREF));*
  let* dst := destReg ref kGPR in
  let* basereg := alloc1 (op1 frefins) kGPR in
  emitc (load_u64 dst basereg (8 * op2 frefins)).

Definition insPLOAD (ref : Z) : M () :=
  let* ins := bufir ref in
  let* dst := destReg ref kGPR in
  let* ptr := alloc1 (op1 ins) kGPR in
  let* ofs := alloc1 (op2 ins) kGPR in
  emitc (emit_rmrxo XO_MOVZXb dst ptr ofs XM_SCALE1 0).

(** [memstore] *)
Definition memstore (base ofs ref allow : Z) : M () :=
  let* k := (if irref_islit ref then is32BitLiteral ref else aret None) in
  match k with
  | Some k => emitc (storei_u64 base ofs k)
  | None => let* r := alloc1 ref allow in emitc (store_u64 base ofs r)
  end.

(** [adjustHeapPointer] and [adjustBase] *)
Definition adjustHeapPointer (n : Z) : M () :=
  emitc (emit_rmro XO_LEA (Z.lor RID_HP REX_64) (Z.lor RID_HP REX_64) n).
Definition adjustBase (relbase : Z) : M () :=
  emitc (emit_gri (XG_ARITHi (x86Arith_num XOg_ADD)) (Z.lor RID_BASE REX_64) (i4 (relbase * 8))).

(** [heapCheckFailure]: 24 bytes that call the run-time system and go
    back, written upwards at [p]. *)
Definition QUICK_HEAP_CHECK_FAIL_SIZE : Z := 24.
Definition put_bytes (l : list Z) (c : gmap Z Z * Z) : gmap Z Z * Z :=
  fold_left (fun '(m, p) b => (<[p := b]> m, p + 1)) l c.
Definition put_i32 (v : Z) (c : gmap Z Z * Z) : gmap Z Z * Z :=
  let '(m, p) := c in (put_le 4 m p v, p + 4).
(** The operand of a jump or call, relative to its own end. *)
Definition put_rel (target : Z) (c : gmap Z Z * Z) : outcome (gmap Z Z * Z) :=
  let! d := jmprel (snd c + 4) target in Ok (put_i32 d c).

Section codegen.
Context `{RuntimeAddrs}.

Definition heapCheckFailure (snapno retryAddress p n : Z) : M () :=
  fun a =>
    let c := put_bytes [XI_PUSH + RID_EDI; XI_PUSH + RID_ESI; XI_MOVri + RID_EDI] (bytes (code a), p) in
    let c := put_bytes [XI_MOVri + RID_ESI] (put_i32 snapno c) in
    let c := put_bytes [XI_CALL] (put_i32 n c) in
    let! c := put_rel asmHeapOverflow c in
    let c := put_bytes [XI_POP + RID_ESI; XI_POP + RID_EDI; XI_JMP] c in
    let! c := put_rel retryAddress c in
    Ok (tt, set_acode (mkBytes (fst c) (mcp (code a))) a).

Definition heapCheck (ref : Z) : M () :=
  let* ins := bufir ref in
  let n := 8 * op1 ins in
  let cmp := emitc (emit_rmro XO_CMP (Z.lor RID_HP REX_64) (Z.lor RID_ESP REX_64) HPLIM_SP_OFFS) in
  if n =? 0 then aret tt
  else
    let* a := get in
    let quick := mcQuickHeapCheck (area a) in
    if negb (quick =? 0) then
      asnap (snapno a);*
      emito (emit_jcc CC_A quick);*
      set_snap_mcode (snapno a) 0;*
      cmp;*
      adjustHeapPointer n;*
      let* a := get in
      heapCheckFailure (snapno a) (mcp (code a)) quick n;*
      modify (fun a => let r := area a in
                       set_area (mkArea (mcend r) (mclim r) (mcbot r) (mctop r) 0) a)
    else
      guardcc CC_A;*
      cmp;*
      adjustHeapPointer n.

(** The fields of an allocation, from number [i - 1] down. *)
Fixpoint init_fields (eid : Z) (ofs : Z) (i : nat) : M () :=
  match i with
  | O => aret tt
  | S i' =>
      let* a := get in
      let* ref := alift (getField (b_heap (abuf a)) eid (Z.of_nat i')) in
      memstore RID_HP (8 * (ofs + 1 + Z.of_nat i')) ref kGPR;*
      init_fields eid ofs i'
  end.
Definition insNew (ref : Z) : M () :=
  let* ins := bufir ref in
  let eid := op2 ins in
  let* a := get in
  let* entry := alift (AbstractHeap.entry (b_heap (abuf a)) eid) in
  lc_assert (he_ref entry =? ref);*
  let ofs := he_hpofs entry in
  let* dest := destReg ref kGPR in
  emitc (emit_rmro XO_LEA (Z.lor dest REX_64) (Z.lor RID_HP REX_64) (8 * ofs));*
  init_fields eid ofs (Z.to_nat (he_size entry));*
  memstore RID_HP (8 * ofs) (op1 ins) kGPR.

Definition insUpdate (ref : Z) : M () :=
  let* ins := bufir ref in
  let* oldptr := alloc1 (op1 ins) kGPR in
  memstore oldptr 8 (op2 ins) (RegSet.exclude kGPR oldptr);*
  memstore oldptr 0 REF_IND (RegSet.exclude kGPR oldptr).

(** ** Snapshots and the end of the trace *)

(** [snapshotAlloc1] and [snapshotAlloc]: what a snapshot needs gets a
    register, or a spill slot when none is free. *)
Definition snapshotAlloc1 (ref : Z) : M () :=
  let* ins := bufir ref in
  if negb (hasRegOrSpill ins) then
    let* a := get in
    if negb (RegSet.isEmpty (RegSet.intersect (freeset (ra a)) kGPR))
    then allocRef ref kGPR;* aret tt
    else spill ref;* aret tt
  else aret tt.
(** The indices of the entries of a snapshot. *)
Definition snap_range (s : Snapshot) : list Z :=
  map (fun i => sn_mapofs s + Z.of_nat i) (seq 0 (Z.to_nat (sn_entries s))).
Fixpoint snapshotAlloc (d : SnapshotData) (ses : list Z) : M () :=
  match ses with
  | [] => aret tt
  | se :: ses' =>
      let* ref := alift (slotRef d se) in
      (if negb (irref_islit ref) then snapshotAlloc1 ref else aret tt);*
      snapshotAlloc d ses'
  end.

Definition stackCheck : M () :=
  emito (emit_jcc CC_A asmStackOverflow);*
  emitc (emit_rmro XO_CMP (Z.lor RID_BASE REX_64) (Z.lor RID_ESP REX_64) SPLIM_SP_OFFS).

Definition exitTo (n : Z) : M () :=
  let* target := exitstubAddr n in
  asnap n;*
  emito (emit_jmp target);*
  let* a := get in
  set_snap_mcode n (mcp (code a));*
  let* dbg := getOption kOptDebugTrace in
  if dbg : bool then emito (emit_call asmTrace) else aret tt.

(** The stores of [save]. *)
Fixpoint save_slots (d : SnapshotData) (ses : list Z) : M () :=
  match ses with
  | [] => aret tt
  | se :: ses' =>
      let* slot := alift (slotId d se) in
      let* ref := alift (slotRef d se) in
      memstore RID_BASE (8 * slot) ref kGPR;*
      save_slots d ses'
  end.



Definition save (ref : Z) : M () :=
  let* ins := bufir ref in
  let* a := get in
  let* snap := asnap (snapno a) in
  let relbase := sn_relbase snap in
  (if op1 ins =? IR_SAVE_FALLTHROUGH then exitTo (snapno a) else aret tt);*
  (if relbase =? 0 then aret tt
   else
     (if 0 <? relbase then stackCheck else aret tt);*
     adjustBase relbase);*
  save_slots (b_snapmap (abuf a)) (snap_range snap).

(** ** [emit] *)
Definition emit (ref : Z) : M () :=
  let* ins := bufir ref in
  let* a := get in
  let ty := ir_type ins in
  let cmp :=
    let* s := asnap (snapno a) in
    lc_assert (sn_ref s =? curins a);*
    lc_assert (curins a =? ref);*
    match asm_compmap (ir_o ins) with
    | Some cc => compare ref cc
    | None => aret tt
    end in
  match ir_o ins with
  | kSLOAD => emitSLOAD ref
  | kADD => intArith ref XOg_ADD
  | kSUB => intArith ref XOg_SUB
  | kMUL => intArith ref XOg_X_IMUL
  | kDIV => lc_assert (isIntegerType ty);* divmod ref true (isSigned ty)
  | kREM => lc_assert (isIntegerType ty);* divmod ref false (isSigned ty)
  | kNEG => lc_assert (isIntegerType ty);* intNegNot ref XOg_NEG
  | kBNOT => lc_assert (isIntegerType ty);* intNegNot ref XOg_NOT
  | kBAND => intArith ref XOg_AND
  | kBOR => intArith ref XOg_OR
  | kBXOR => intArith ref XOg_XOR
  | kSAVE => save ref
  | kLT | kGE | kLE | kGT | kEQ | kNE | kLTU | kGEU | kLEU | kGTU => cmp
  | kEQINFO => itblGuard ref false
  | kNEINFO => itblGuard ref true
  | kHEAPCHK => heapCheck ref
  | kNEW => insNew ref
  | kFREF => aret tt
  | kFLOAD => fieldLoad ref
  | kUPDATE => insUpdate ref
  | kPLOAD => insPLOAD ref
  | kBSHL => bitshift ref XOg_SHL
  | kBSHR => bitshift ref XOg_SHR
  | kBSAR => bitshift ref XOg_SAR
  | _ => fail (Exited 23)
  end.

End codegen.
