(* ===== verification/AsmSem.v ===== *)
(** * What a trace means, and the steps of the proof that its code does it

    [ir_exec] is the meaning of one IR instruction: the values of
    references, the memory outside the frame of the trace and the heap
    pointer.  The rest of the file composes code: what was emitted later
    runs earlier. *)

From S2P Require Import Prelude Words Hotness IR.
From S2P Require Import IRInv.
From S2P Require Import Registers X86 X86Sem X86Proofs AsmState.
From S2P Require Import AsmInv.
From S2P Require Import AsmAlloc.
From S2P Require Import AsmSelect.
Import RegSetProofs.

(** ** Instructions *)

(** A guard that fails leaves the trace. *)
Inductive ir_result := Fall (st : irstate) | Leave (ref : Z) (st : irstate).

Definition word_at (st : irstate) (x : Z) : option Z := if x mod 8 =? 0 then imem st x else None.
Definition set_imem (x v : Z) (st : irstate) : irstate := mkIS (val st) (upd x (Some v) (imem st)) (ihp st).
Definition set_ihp (x : Z) (st : irstate) : irstate := mkIS (val st) (imem st) x.
(** A store to a word that is there. *)
Definition put_word (x v : Z) (st : irstate) : option irstate :=
  do _ <- word_at st x; Some (set_imem x v st).

(** The fields of an allocation, the first one first. *)
Fixpoint put_fields (st : irstate) (x : Z) (refs : list Z) : option irstate :=
  match refs with
  | [] => Some st
  | r :: l => do st <- put_word (u8 x) (val st r) st; put_fields st (x + 8) l
  end.
Definition fields_of (h : AbstractHeap) (eid : Z) (n : nat) : list Z :=
  map (fun i => match getField h eid (Z.of_nat i) with Ok r => r | Err _ => 0 end) (seq 0 n).

Definition shift_of (op : Opcode) (x k : Z) : option Z :=
  match op with
  | kBSHL => Some (u8 (Z.shiftl x k))
  | kBSHR => Some (Z.shiftr x k)
  | kBSAR => Some (u8 (Z.shiftr (i8 x) k))
  | _ => None
  end.
Definition div_of (op : Opcode) (x y : Z) : option Z :=
  if (y =? 0) || negb (Z.quot (i8 x) (i8 y) =? i8 (Z.quot (i8 x) (i8 y))) then None
  else match op with
       | kDIV => Some (u8 (Z.quot (i8 x) (i8 y)))
       | kREM => Some (u8 (Z.rem (i8 x) (i8 y)))
       | _ => None
       end.
(** The byte at an address, in a word. *)
Definition byte_of (st : irstate) (x : Z) : option Z :=
  do v <- imem st (x - x mod 8); Some (Z.land (Z.shiftr v (8 * (x mod 8))) 0xff).

Section machine.
Context {TF : TraceFrame}.
Abbreviation B := tf_base.
Abbreviation SP := tf_sp.
Abbreviation HL := tf_hplim.
Abbreviation SL := tf_splim.

(** The value an instruction defines. *)
Definition ir_value (a : Assembler) (ref : Z) (st : irstate) : option Z :=
  let i := a_ir a ref in
  let x := val st (op1 i) in
  let y := val st (op2 i) in
  match ir_o i with
  | kADD | kSUB | kMUL | kBAND | kBOR | kBXOR | kNEG | kBNOT => arith (ir_o i) x y
  | kBSHL | kBSHR | kBSAR => shift_of (ir_o i) x (Z.land y 63)
  | kDIV | kREM => div_of (ir_o i) x y
  | kSLOAD => word_at st (u8 (B + 8 * i2 (op1 i)))
  | kFLOAD => let f := a_ir a (op1 i) in word_at st (u8 (val st (op1 f) + 8 * op2 f))
  | kPLOAD => byte_of st (u8 (x + y))
  | _ => None
  end.
(** The test of a guard. *)
Definition ir_test (a : Assembler) (ref : Z) (st : irstate) : option bool :=
  let i := a_ir a ref in
  let x := val st (op1 i) in
  let y := val st (op2 i) in
  match ir_o i with
  | kLT | kGE | kLE | kGT | kEQ | kNE | kLTU | kGEU | kLEU | kGTU => condition (ir_o i) x y
  | kEQINFO => do v <- word_at st x; Some (v =? y)
  | kNEINFO => do v <- word_at st x; Some (negb (v =? y))
  | _ => None
  end.
(** An allocation: info pointer, fields, address. *)
Definition ir_new (a : Assembler) (ref : Z) (st : irstate) : option irstate :=
  let i := a_ir a ref in
  let h := b_heap (abuf a) in
  match AbstractHeap.entry h (op2 i) with
  | Ok e =>
      let x := ihp st + 8 * he_hpofs e in
      do st <- put_fields st x (op1 i :: fields_of h (op2 i) (Z.to_nat (he_size e)));
      Some (set_val ref (u8 x) st)
  | Err _ => None
  end.
Definition ir_exec (a : Assembler) (ref : Z) (st : irstate) : option ir_result :=
  let i := a_ir a ref in
  match ir_o i with
  | kFREF => Some (Fall st)
  | kNEW => do st <- ir_new a ref st; Some (Fall st)
  | kUPDATE =>
      let x := val st (op1 i) in
      do st <- put_word x (val st REF_IND) st;
      do st <- put_word (u8 (x + 8)) (val st (op2 i)) st;
      Some (Fall st)
  | kHEAPCHK =>
      if op1 i =? 0 then Some (Fall st)
      else
        let hp := u8 (ihp st + 8 * op1 i) in
        let st := set_ihp hp st in
        Some (if hp <=? HL then Fall st else Leave ref st)
  | kLT | kGE | kLE | kGT | kEQ | kNE | kLTU | kGEU | kLEU | kGTU | kEQINFO | kNEINFO =>
      do b <- ir_test a ref st; Some (if b : bool then Fall st else Leave ref st)
  | _ => do v <- ir_value a ref st; Some (Fall (set_val ref v st))
  end.
(** The [n] instructions from [ref] on. *)
Fixpoint ir_run (a : Assembler) (ref : Z) (n : nat) (st : irstate) : option ir_result :=
  match n with
  | O => Some (Fall st)
  | S n' =>
      do r <- ir_run a ref n' st;
      match r with Fall st => ir_exec a (ref + Z.of_nat n') st | Leave _ _ => Some r end
  end.

(** ** Words *)

Record st_ok (st : irstate) : Prop := {
  so_val : forall r, 0 <= val st r < 2 ^ 64;
  so_mem : forall x v, imem st x = Some v -> 0 <= v < 2 ^ 64 /\ ~ in_frame x;
  so_hp : 0 <= ihp st < 2 ^ 64
}.

Lemma word_at_ok st x v : st_ok st -> word_at st x = Some v ->
  x mod 8 = 0 /\ imem st x = Some v /\ 0 <= v < 2 ^ 64 /\ ~ in_frame x.
Proof using Type.
  intros Hst. unfold word_at. destruct (Z.eqb_spec (x mod 8) 0); [|done]. intros Hv.
  by destruct (so_mem _ Hst _ _ Hv).
Qed.
Lemma set_val_ok ref v st : st_ok st -> 0 <= v < 2 ^ 64 -> st_ok (set_val ref v st).
Proof using Type.
  intros [H1 H2 H3] Hv. split; [|done..]. intros r. cbn. unfold upd. by destruct (r =? ref).
Qed.
Lemma put_word_ok x v st st' : st_ok st -> 0 <= v < 2 ^ 64 -> put_word x v st = Some st' ->
  st_ok st' /\ st' = set_imem x v st /\ x mod 8 = 0 /\ is_Some (imem st x) /\ ~ in_frame x.
Proof using Type.
  intros Hst Hv. unfold put_word. destruct (word_at st x) as [w|] eqn:Hw; [|done]. intros [= <-].
  destruct (word_at_ok _ _ _ Hst Hw) as (Hal & Hm & _ & Hf). split_and!; try done.
  destruct Hst as [H1 H2 H3]. split; [done| |done]. intros y u. cbn. unfold upd.
  destruct (Z.eqb_spec y x) as [->|]; [|apply H2]. intros [= <-]. done.
Qed.
Lemma put_fields_ok refs st x st' : st_ok st -> put_fields st x refs = Some st' ->
  st_ok st' /\ val st' = val st /\ ihp st' = ihp st.
Proof using Type.
  revert st x. induction refs as [|r l IH]; intros st x Hst; cbn [put_fields].
  { by intros [= <-]. }
  destruct (put_word _ _ st) as [st1|] eqn:E; [|done]. intros H.
  destruct (put_word_ok _ _ _ _ Hst (so_val _ Hst r) E) as (H1 & -> & _).
  destruct (IH _ _ H1 H) as (? & -> & ->). done.
Qed.
Lemma u8_bound x : 0 <= u8 x < 2 ^ 64.
Proof using Type. apply (to_u_bound 64). lia. Qed.

Lemma arith_word op x y v : arith op x y = Some v -> 0 <= v < 2 ^ 64.
Proof using Type. unfold arith. intros H. destruct op; try done; injection H as <-; apply u8_bound. Qed.
Lemma shift_word op x k v : 0 <= x < 2 ^ 64 -> 0 <= k -> shift_of op x k = Some v -> 0 <= v < 2 ^ 64.
Proof using Type.
  intros Hx Hk H. unfold shift_of in H. destruct op; try done; injection H as <-; try apply u8_bound.
  rewrite Z.shiftr_div_pow2 by done. pose proof (Z.pow_pos_nonneg 2 k ltac:(lia) Hk).
  split; [apply Z.div_pos; lia|]. apply Z.div_lt_upper_bound; nia.
Qed.
Lemma div_word op x y v : div_of op x y = Some v -> 0 <= v < 2 ^ 64.
Proof using Type.
  unfold div_of. destruct (_ || _); [done|]. intros H.
  destruct op; try done; injection H as <-; apply u8_bound.
Qed.
Lemma byte_word st x v : byte_of st x = Some v -> 0 <= v < 2 ^ 64.
Proof using Type.
  unfold byte_of. destruct (imem st _) as [w|]; [|done]. intros [= <-]. change 0xff with (Z.ones 8).
  rewrite Z.land_ones by lia. pose proof (Z.mod_pos_bound (Z.shiftr w (8 * (x mod 8))) (2 ^ 8)). lia.
Qed.
Lemma ir_value_word a ref st v : st_ok st -> ir_value a ref st = Some v -> 0 <= v < 2 ^ 64.
Proof using Type.
  intros Hst. unfold ir_value. destruct (ir_o _); try done; cbn beta iota zeta;
    first [apply arith_word | apply div_word | apply byte_word
          | apply shift_word; [apply Hst|apply Z.land_nonneg; lia]
          | intros H; by apply (word_at_ok _ _ _ Hst) in H as (_ & _ & ? & _)].
Qed.

Lemma ir_exec_ok a ref st r : st_ok st -> ir_exec a ref st = Some r ->
  match r with Fall st' | Leave _ st' => st_ok st' end.
Proof using Type.
  intros Hst. unfold ir_exec.
  assert (Hval : forall r', match ir_value a ref st with Some v => Some (Fall (set_val ref v st)) | None => None end
                   = Some r' -> match r' with Fall st' | Leave _ st' => st_ok st' end).
  { intros r'. destruct (ir_value a ref st) as [v|] eqn:E; [|done]. intros [= <-].
    apply set_val_ok; [done|by eapply ir_value_word]. }
  destruct (ir_o (a_ir a ref)) eqn:Eo; try apply Hval.
  all: try (destruct (ir_test a ref st) as [[]|]; [| |done]; intros [= <-]; done).
  - destruct (op1 _ =? 0); [by intros [= <-]|]. destruct Hst as [H1 H2 H3].
    destruct (_ <=? HL); intros [= <-]; split; try done; apply u8_bound.
  - intros [= <-]. done.
  - unfold ir_new. destruct (AbstractHeap.entry _ _) as [e|]; [|done].
    destruct (put_fields _ _ _) as [st'|] eqn:E; [|done]. intros [= <-].
    destruct (put_fields_ok _ _ _ _ Hst E) as (H & _). apply set_val_ok; [done|apply u8_bound].
  - destruct (put_word _ _ st) as [st1|] eqn:E1; [|done]. destruct (put_word _ _ st1) as [st2|] eqn:E2; [|done].
    intros [= <-]. destruct (put_word_ok _ _ _ _ Hst (so_val _ Hst _) E1) as (H1 & E & _).
    apply (put_word_ok _ _ _ _ H1) in E2; [by destruct E2|]. subst st1. apply (so_val _ Hst).
Qed.

Lemma ir_run_ok a ref n st r : st_ok st -> ir_run a ref n st = Some r ->
  match r with Fall st' | Leave _ st' => st_ok st' end.
Proof using Type.
  revert r. induction n as [|n IH]; intros r Hst; cbn [ir_run]; [by intros [= <-]|].
  destruct (ir_run a ref n st) as [[st'|q st']|]; [| |done].
  - apply ir_exec_ok. by apply (IH (Fall st')).
  - intros [= <-]. by apply (IH (Leave q st')).
Qed.
End machine.
