(* ===== verification/AsmSim.v ===== *)
(** * Composition of emitted code

    Judgements on the code that one call of the assembler emits, and the
    lemmas that put them together: [value_code] for code that leaves a
    value in a register, [runs] for code with an effect on memory, and
    [instr_ok] for a whole IR instruction. *)

From S2P Require Import Prelude Words Hotness IR.
From S2P Require Import IRInv.
From S2P Require Import Registers X86 X86Sem X86Proofs AsmState.
From S2P Require Import AsmInv.
From S2P Require Import AsmAlloc.
From S2P Require Import AsmSelect.
From S2P Require Import AsmSem.
Import RegSetProofs.

(** ** States that differ in the code and the branches of snapshots *)

Definition same (a a' : Assembler) : Prop :=
  erase a' = erase a /\ ra a' = ra a /\ forall ref, a_ir a' ref = a_ir a ref.
Lemma asm_same_refl a : same a a.
Proof. done. Qed.
Lemma asm_same_trans a b c : same a b -> same b c -> same a c.
Proof. intros (E1 & R1 & I1) (E2 & R2 & I2). split_and!; [congruence..|]. intros. by rewrite I2. Qed.
Lemma same_code c a : same a (set_acode c a).
Proof. done. Qed.
Lemma same_mrm x a : same a (set_mrm x a).
Proof. done. Qed.

Section same.
Context (a a' : Assembler) (Hs : same a a').
Lemma same_reg r : reg a' r = reg a r.
Proof using Hs. destruct Hs as (_ & _ & Hi). unfold reg. by rewrite Hi. Qed.
Lemma same_spl r : spl a' r = spl a r.
Proof using Hs. destruct Hs as (_ & _ & Hi). unfold spl. by rewrite Hi. Qed.
Lemma same_free r : free a' r = free a r.
Proof using Hs. destruct Hs as (_ & Hr & _). unfold free. by rewrite Hr. Qed.
Lemma same_ext n : ext n a a'.
Proof using Hs.
  destruct Hs as (He & _ & Hi). split; [done|by intros; rewrite Hi..|by intros; rewrite ?same_spl| |].
  - intros ref _ _. left. apply same_reg.
  - intros ref. unfold placed. rewrite same_reg, same_spl. auto.
Qed.
Lemma same_ok n : ra_ok a n -> ra_ok a' n.
Proof using Hs.
  pose proof Hs as (He & Hr & Hi). destruct (erase_code _ _ He) as (E1 & _ & E2).
  intros [B0 B1 B2 B3 B4 B5 B6 B7 B8].
  assert (How : forall r, owner a' r = owner a r) by (intros r; unfold owner, a_cost; by rewrite Hr).
  split; [by rewrite E1, E2|by rewrite Hr| | | |by rewrite Hr|by rewrite Hr| |].
  - intros r. rewrite same_free. apply B2.
  - intros r. rewrite same_free, How, same_reg. unfold live. rewrite E1. apply B3.
  - intros r. rewrite same_reg. unfold live. rewrite E1. intros Hl Hq. rewrite same_free, How. by apply B4.
  - intros r. rewrite same_spl. unfold live. rewrite E1, E2, Hr. apply B7.
  - intros r1 r2. rewrite !same_spl. unfold live. rewrite E1, E2. apply B8.
Qed.
Lemma same_agree {TF : TraceFrame} n Sp st m : agree a' Sp n st m -> agree a Sp n st m.
Proof using Hs.
  intros Ha. eapply agree_regs; [apply (same_ext n)|exact Ha|done|done|].
  intros ref Hl Hr. rewrite <- (ag_reg _ _ _ _ _ Ha ref).
  - by rewrite same_reg.
  - by apply (live_ext n a a'); [apply same_ext|].
  - by rewrite same_reg.
Qed.
End same.
Lemma same_sym a a' : same a a' -> same a' a.
Proof. intros (E & R & I). split_and!; [congruence..|]. intros. by rewrite I. Qed.

(** ** Exit stubs *)

Lemma exitstubAddr_ok n a t a' : exitstubAddr n a = Ok (t, a') -> a' = a.
Proof.
  unfold exitstubAddr. intros (g & _ & H)%obind_ok. by inv_ok.
Qed.
Lemma exitstubAddr_ext k a a' n t :
  ext k a a' -> exitstubAddr n a' = Ok (t, a') -> exitstubAddr n a = Ok (t, a).
Proof.
  intros He. destruct (erase_pos _ _ (ex_erase _ _ _ He)) as (_ & _ & _ & E & _). unfold exitstubAddr. rewrite E.
  destruct (of_option _ _) as [g|]; [|done]. cbn [obind]. destruct (negb (g =? 0)); [|done]. by intros [= <-].
Qed.
(** ** Conditions *)

Lemma u8_zero x y : 0 <= x < 2 ^ 64 -> 0 <= y < 2 ^ 64 -> (u8 (x - y) =? 0) = (x =? y).
Proof.
  intros Hx Hy. unfold u8, to_u. destruct (Z.eqb_spec x y) as [->|Hne].
  - by rewrite Z.sub_diag.
  - apply Z.eqb_neq. Z.to_euclidean_division_equations. lia.
Qed.
Lemma sign_bit z : 0 <= z < 2 ^ 64 -> Z.testbit z 63 = (i8 z <? 0).
Proof.
  intros Hz. rewrite Z.testbit_odd, Z.shiftr_div_pow2 by lia. unfold i8, to_s.
  rewrite (to_u_id 64) by lia. change (64 - 1) with 63.
  destruct (Z.ltb_spec z (2 ^ 63)) as [Hl|Hl].
  - rewrite Z.div_small by lia. symmetry. apply Z.ltb_ge. lia.
  - replace (z / 2 ^ 63) with 1; [symmetry; apply Z.ltb_lt; lia|].
    apply Z.div_unique with (r := z - 2 ^ 63); lia.
Qed.
Lemma i8_shift z : 0 <= z < 2 ^ 64 -> exists k, i8 z = z + k * 2 ^ 64.
Proof.
  intros Hz. unfold i8, to_s. rewrite (to_u_id 64) by lia.
  destruct (_ <? _); [exists 0; lia|exists (-1); lia].
Qed.
Lemma to_s_mod w z z' : to_u w z = to_u w z' -> to_s w z = to_s w z'.
Proof. unfold to_s. by intros ->. Qed.
(** The signed comparison is read off the sign and the overflow. *)
Lemma signed_less x y : 0 <= x < 2 ^ 64 -> 0 <= y < 2 ^ 64 -> xorb (SF x y) (OF x y) = (i8 x <? i8 y).
Proof.
  intros Hx Hy. unfold SF, OF. rewrite sign_bit by (apply (to_u_bound 64); lia).
  assert (E : i8 (u8 (x - y)) = i8 (i8 x - i8 y)).
  { unfold i8 at 1, u8. rewrite to_s_to_u by lia. apply to_s_mod.
    destruct (i8_shift x Hx) as [k ->], (i8_shift y Hy) as [k' ->].
    replace (x + k * 2 ^ 64 - (y + k' * 2 ^ 64)) with (x - y + (k - k') * 2 ^ 64) by lia.
    unfold to_u. by rewrite Z.mod_add by lia. }
  rewrite E. pose proof (to_s_bound 64 ltac:(lia) x). pose proof (to_s_bound 64 ltac:(lia) y).
  change (to_s 64) with i8 in *. revert H H0. generalize (i8 x) as s, (i8 y) as t. clear. intros s t Hs Ht.
  change (64 - 1) with 63 in *. unfold i8, to_s, to_u. change (64 - 1) with 63.
  destruct (Z.ltb_spec ((s - t) mod 2 ^ 64) (2 ^ 63)), (Z.ltb_spec s t);
    repeat match goal with |- context [?x =? ?y] => destruct (Z.eqb_spec x y)
                         | |- context [?x <? ?y] => destruct (Z.ltb_spec x y) end;
    cbn; try done; exfalso; Z.to_euclidean_division_equations; lia.
Qed.

Lemma cond_table x y :
  let lt := xorb (SF x y) (OF x y) in
  cond CC_GE x y = Some (xorb lt true) /\ cond CC_L x y = Some (xorb lt false)
  /\ cond CC_G x y = Some (xorb (ZF x y || lt) true) /\ cond CC_LE x y = Some (xorb (ZF x y || lt) false)
  /\ cond CC_NE x y = Some (xorb (ZF x y) true) /\ cond CC_E x y = Some (xorb (ZF x y) false)
  /\ cond CC_AE x y = Some (xorb (CF x y) true) /\ cond CC_B x y = Some (xorb (CF x y) false)
  /\ cond CC_A x y = Some (xorb (CF x y || ZF x y) true) /\ cond CC_BE x y = Some (xorb (CF x y || ZF x y) false).
Proof. by split_and!. Qed.
Ltac by_order :=
  f_equal;
  repeat match goal with |- context [?x =? ?y] => destruct (Z.eqb_spec x y)
                       | |- context [?x <? ?y] => destruct (Z.ltb_spec x y)
                       | |- context [?x <=? ?y] => destruct (Z.leb_spec x y) end;
  cbn; first [done | exfalso; lia].

(** The branch is taken when the condition does not hold. *)
Lemma cond_compmap op cc b x y :
  asm_compmap op = Some cc -> condition op x y = Some b -> 0 <= x < 2 ^ 64 -> 0 <= y < 2 ^ 64 ->
  cond cc x y = Some (negb b) /\ 0 <= cc < 16.
Proof.
  intros Hc Hb Hx Hy. pose proof (signed_less x y Hx Hy) as Hs. pose proof (u8_zero x y Hx Hy) as Hz.
  assert (Hi : (i8 x =? i8 y) = (x =? y)).
  { unfold i8, to_s. rewrite !(to_u_id 64) by lia. change (64 - 1) with 63.
    destruct (Z.eqb_spec x y) as [->|]; [apply Z.eqb_refl|]. apply Z.eqb_neq.
    destruct (Z.ltb_spec x (2 ^ 63)), (Z.ltb_spec y (2 ^ 63)); lia. }
  destruct (cond_table x y) as (C1 & C2 & C3 & C4 & C5 & C6 & C7 & C8 & C9 & C10).
  unfold asm_compmap in Hc. unfold condition in Hb. split; [|by destruct op; try done; injection Hc as <-].
  destruct op; try done; injection Hc as <-; injection Hb as <-;
    rewrite ?C1, ?C2, ?C3, ?C4, ?C5, ?C6, ?C7, ?C8, ?C9, ?C10; rewrite ?Hs; unfold ZF, CF; rewrite ?Hz;
    try (rewrite <- Hi); by_order.
Qed.

Section machine.
Context {TF : TraceFrame}.
Abbreviation B := tf_base.
Abbreviation SP := tf_sp.
Abbreviation HL := tf_hplim.
Abbreviation SL := tf_splim.

(** ** What does not change *)

(** A register that stays in use stays with its reference. *)
Lemma keeps_gpr n n' a a' x q :
  ra_ok a n -> ra_ok a' n' -> n' <= n -> bufmin a' = bufmin a ->
  (forall p, p <> x -> reg a' p = reg a p \/ isReg (reg a' p) = false) ->
  live a n q -> isReg (reg a q) = true -> free a' (reg a q) = false ->
  (live a' n' x -> reg a' x = reg a q -> x = q) -> reg a' q = reg a q.
Proof using Type.
  intros Hok Hok' Hn Hmin Hother Hl Hr Hf Hx.
  destruct (ro_reg _ _ Hok q Hl Hr) as (Hg & _). destruct (ro_used _ _ Hok' _ Hg Hf) as [Hl' Ho].
  set (p := owner a' (reg a q)) in *. destruct (Z.eq_dec p x) as [E|Hne].
  - rewrite E in Hl', Ho. rewrite (Hx Hl' Ho) in Ho. done.
  - destruct (Hother p Hne) as [E|E]; [|rewrite Ho in E; congruence].
    assert (Hp : q = p); [|by rewrite Hp, Ho, <- Hp].
    apply (distinct_regs n a q p); try done; [|congruence]. unfold live in *. lia.
Qed.
Lemma ext_bufmin n a a' : ext n a a' -> bufmin a' = bufmin a.
Proof using Type. intros He. by destruct (erase_code _ _ (ex_erase _ _ _ He)). Qed.
Lemma ext_weaken n n' a a' : n <= n' -> ext n a a' -> ext n' a a'.
Proof using Type. intros Hn [E1 E2 E3 E4 E5 E6]. split; try done. intros ref Hr. apply E3. lia. Qed.

Lemma alloced_keeps n a a' ref r q :
  ra_ok a n -> alloced n a a' ref r -> live a n q -> isReg (reg a q) = true -> reg a q <> r ->
  reg a' q = reg a q.
Proof using Type.
  intros Hok [A1 A2 A3 A4 A5 A6 A7 A7q A8] Hl Hr Hne.
  destruct (ro_reg _ _ Hok q Hl Hr) as (Hg & Hf & _). pose proof (gpr_range _ Hg).
  apply (keeps_gpr n n a a' ref q); try done; [by eapply ext_bufmin| | |].
  - intros p Hp. destruct (A7 p Hp) as [?|[? _]]; auto.
  - by rewrite A6 by (lia || done).
  - intros _ E. congruence.
Qed.
Lemma defines_keeps a a' ref dest allow q :
  ra_ok a (ref + 1) -> defines a a' ref dest allow -> live a ref q -> isReg (reg a q) = true ->
  reg a q <> dest -> reg a' q = reg a q.
Proof using Type.
  intros Hok [D1 D2 D3 D4 D5 D6 D7 D8 D9 _] Hl Hr Hne.
  assert (Hl' : live a (ref + 1) q) by (unfold live in *; lia).
  destruct (ro_reg _ _ Hok q Hl' Hr) as (Hg & Hf & _). pose proof (gpr_range _ Hg).
  apply (keeps_gpr (ref + 1) ref a a' ref q); try done; [lia|by eapply ext_bufmin| | |].
  - intros p Hp. destruct (D9 p Hp) as [?|[? _]]; auto.
  - by rewrite D8 by (lia || done).
  - unfold live. lia.
Qed.

Lemma value_ext n a a' q : ext n a a' -> value_ref a q -> value_ref a' q.
Proof using Type. intros He. unfold value_ref. by rewrite (proj1 (shape_eq _ _ (ex_shape _ _ _ He q))). Qed.
Lemma op_ext n a a' q : ext n a a' ->
  ir_o (a_ir a' q) = ir_o (a_ir a q) /\ op1 (a_ir a' q) = op1 (a_ir a q) /\ op2 (a_ir a' q) = op2 (a_ir a q).
Proof using Type.
  intros He. destruct (shape_eq _ _ (ex_shape _ _ _ He q)) as (-> & _ & E). unfold op1, op2. by rewrite E.
Qed.

(** The register of a live reference holds its value. *)
Lemma reg_val n a Sp st m q r :
  agree a Sp n st m -> live a n q -> reg a q = r -> in_gpr r -> gpr m r = val st q.
Proof using Type. intros Ha Hl <- Hg. apply (ag_reg _ _ _ _ _ Ha); [done|]. by apply isReg_gpr. Qed.

(** The value of a reference that is not defined yet does not matter. *)
Lemma agree_set_val a Sp n st m ref v :
  n <= ref -> REF_BIAS <= ref -> agree a Sp n st m -> agree a Sp n (set_val ref v st) m.
Proof using Type.
  intros Hn Hb [A1 A2 A3 A4 A5 A6 A7 A8].
  assert (Hv : forall q, q < ref -> val (set_val ref v st) q = val st q).
  { intros q Hq. cbn. unfold upd. destruct (Z.eqb_spec q ref); [lia|done]. }
  split; try done.
  - intros q Hl Hr. rewrite Hv by (unfold live in Hl; lia). by apply A1.
  - intros q Hl Hr. rewrite Hv by lia. by apply A2.
  - intros q Hq. specialize (A8 q Hq). rewrite Hv by lia. done.
Qed.

(** ** The judgements *)

(** Code that leaves a value in [dest]. *)
Definition value_code (ref : Z) (a a' : Assembler) (dest : Z) (f : irstate -> option Z) : Prop :=
  ra_ok a' ref /\ ext ref a a' /\ exists l, emits (code a) (code a') l /\
    forall Sp st m v, covers a' Sp -> st_ok st -> f st = Some v -> agree a' Sp ref st m ->
      exists m', exec_list l m = Some (Next m') /\ agree a Sp ref st m' /\ gpr m' dest = v.

(** Code with an effect on memory and the heap pointer. *)
Definition runs (n : Z) (a a' : Assembler) (f : irstate -> option irstate) : Prop :=
  ra_ok a' n /\ ext n a a' /\ exists l, emits (code a) (code a') l /\
    forall Sp st st' m, slots_ok Sp -> covers a' Sp -> st_ok st -> f st = Some st' -> agree a' Sp n st m ->
      exists m', exec_list l m = Some (Next m') /\ agree a Sp n st' m'.

(** The code of an instruction: from agreement before it to agreement
    behind it, or out of the trace, to one of the addresses [E]. *)
Record instr_exit (E : Z -> Prop) (a a' : Assembler) (ref : Z) : Prop := {
  io_ok : ra_ok a' ref;
  io_ext : ext (ref + 1) a a';
  io_code : exists l, emits (code a) (code a') l /\
    forall Sp st m r, slots_ok Sp -> covers a' Sp -> Sp ref = spl a' ref -> st_ok st ->
      ir_exec a ref st = Some r -> agree a' Sp ref st m ->
      match r with
      | Fall st' => exists m', exec_list l m = Some (Next m') /\ agree a Sp (ref + 1) st' m'
      | Leave q st' => q = ref /\ exists a1 t m', E t
          /\ exec_list l m = Some (Goto t m') /\ ext (ref + 1) a a1 /\ ext (ref + 1) a1 a'
          /\ agree a1 Sp ref st' m'
      end
}.

(** The exit stub of the current snapshot. *)
Section exit.
Context {RA : RuntimeAddrs}.
Definition current_stub (a : Assembler) (t : Z) : Prop := exitstubAddr (snapno a) a = Ok (t, a).
Definition instr_ok (a a' : Assembler) (ref : Z) : Prop := instr_exit (current_stub a) a a' ref.
End exit.

(** ** Values *)

Lemma set_flags_agree a Sp n st m fl : agree a Sp n st m -> agree a Sp n st (set_flags fl m).
Proof using Type. intros [A1 A2 A3 A4 A5 A6 A7 A8]. by split. Qed.

(** An instruction that writes a free register. *)
Definition writes (i : instr) (dest v : Z) (m : mach) : Prop :=
  exists fl, exec i m = Some (Next (set_flags fl (set_gpr dest v m))).

Lemma value_left ref a a1 c a' dest lref i f :
  ra_ok a ref -> ra_ok a1 ref -> ext ref a a1 -> in_gpr dest -> free a1 dest = true ->
  sim ref a a1 (fun x => x = dest) ->
  emits (code a1) c [i] -> puts ref (set_acode c a1) a' dest lref ->
  (forall Sp st m v, st_ok st -> f st = Some v -> agree a1 Sp ref st m -> gpr m dest = val st lref ->
     writes i dest v m) ->
  value_code ref a a' dest f.
Proof using Type.
  intros Hok Hok1 He Hg Hfr (l & Em & Hsim) Hi (Hok' & He' & lp & Ep & Hp) Hw.
  assert (Hs := same_code c a1). assert (He1 := same_ext _ _ Hs ref).
  split; [done|]. split; [by etransitivity; [|etransitivity]|].
  exists (lp ++ [i] ++ l). split; [eapply emits_app; [|exact Ep]; by eapply emits_app|].
  intros Sp st m v Hc Hst Hv Ha.
  destruct (Hp Sp st m Hc Ha) as (m1 & X1 & A1 & G1). apply (same_agree _ _ Hs) in A1.
  destruct (Hw Sp st m1 v Hst Hv A1 G1) as [fl X2].
  destruct (Hsim Sp st (set_flags fl (set_gpr dest v m1))) as (m3 & X3 & A3 & G3 & _).
  { eapply covers_ext; [|exact Hc]. by etransitivity. }
  { by apply set_flags_agree, agree_write. }
  exists m3. split; [|split; [done|]].
  - rewrite exec_list_app, X1. cbn [app exec_list]. by rewrite X2.
  - rewrite G3 by done. cbn. unfold upd. by rewrite Z.eqb_refl.
Qed.

Lemma value_one ref a c dest i f :
  ra_ok a ref -> in_gpr dest -> free a dest = true -> emits (code a) c [i] ->
  (forall Sp st m v, st_ok st -> f st = Some v -> agree a Sp ref st m -> writes i dest v m) ->
  value_code ref a (set_acode c a) dest f.
Proof using Type.
  intros Hok Hg Hf Hi Hw. assert (Hs := same_code c a).
  split; [by apply (same_ok a)|]. split; [by apply same_ext|]. exists [i]. split; [done|].
  intros Sp st m v Hc Hst Hv Ha. apply (same_agree _ _ Hs) in Ha.
  destruct (Hw Sp st m v Hst Hv Ha) as [fl X]. eexists. cbn [exec_list]. rewrite X.
  split; [done|]. split; [by apply set_flags_agree, agree_write|]. cbn. unfold upd. by rewrite Z.eqb_refl.
Qed.

(** An operand is allocated, then the instruction reads it; its register
    may be the one of the result. *)
Lemma value_operand ref a a1 c dest q r i f :
  ra_ok a ref -> in_gpr dest -> free a dest = true -> alloced ref a a1 q r -> live a ref q ->
  emits (code a1) c [i] ->
  (forall Sp st m v, st_ok st -> f st = Some v -> agree a1 Sp ref st m -> gpr m r = val st q -> writes i dest v m) ->
  value_code ref a (set_acode c a1) dest f.
Proof using Type.
  intros Hok Hg Hf Hal Hl Hi Hw. pose proof Hal as [A1 A2 A3 A4 A5 A6 A7 A7q (l & Em & Hsim)].
  pose proof (gpr_range _ Hg). assert (Hs := same_code c a1).
  split; [by apply (same_ok a1)|]. split; [etransitivity; [exact A2|by apply same_ext]|].
  assert (Hrd : forall Sp st m, agree a1 Sp ref st m -> gpr m r = val st q).
  { intros Sp st m Ha. eapply reg_val; [exact Ha|by apply (live_ext ref a a1)|done|done]. }
  destruct (Z.eq_dec r dest) as [->|Hne].
  - exists [i]. rewrite (A7q Hf) in *. split; [done|]. intros Sp st m v Hc Hst Hv Ha.
    apply (same_agree _ _ Hs) in Ha. destruct (Hw Sp st m v Hst Hv Ha (Hrd _ _ _ Ha)) as [fl X].
    eexists. cbn [exec_list]. rewrite X. split; [done|]. split; [|cbn; unfold upd; by rewrite Z.eqb_refl].
    apply set_flags_agree. eapply agree_regs; [exact A2|exact Ha|done| |].
    + intros x Hx. rewrite gpr_upd. destruct (Z.eqb_spec x dest) as [->|]; done.
    + intros p Hlp Hp. destruct (ro_reg _ _ Hok p Hlp Hp) as (_ & Hfp & _). rewrite gpr_upd.
      destruct (Z.eqb_spec (reg a p) dest) as [E|Hne]; [congruence|].
      assert (Hrp : reg a1 p = reg a p) by by apply (alloced_keeps ref a a1 q dest p).
      rewrite <- Hrp. apply (ag_reg _ _ _ _ _ Ha); [by apply (live_ext ref a a1)|]. by rewrite Hrp.
  - assert (Hf1 : free a1 dest = true) by by rewrite A6 by (lia || done).
    exists ([i] ++ l). split; [by eapply emits_app|]. intros Sp st m v Hc Hst Hv Ha.
    apply (same_agree _ _ Hs) in Ha. destruct (Hw Sp st m v Hst Hv Ha (Hrd _ _ _ Ha)) as [fl X].
    destruct (Hsim Sp st (set_flags fl (set_gpr dest v m))) as (m3 & X3 & G3a & G3 & _).
    { exact Hc. }
    { by apply set_flags_agree, agree_write. }
    exists m3. split; [|split; [done|]].
    + cbn [app exec_list]. by rewrite X.
    + rewrite G3 by auto. cbn. unfold upd. by rewrite Z.eqb_refl.
Qed.
End machine.
