(* ===== verification/AsmInstr.v ===== *)
(** * The code of arithmetic and loads

    Instruction by instruction: the code that [emit] puts in front makes
    the processor do what [ir_exec] says. *)

From S2P Require Import Prelude Words Hotness IR.
From S2P Require Import IRInv.
From S2P Require Import Registers X86 X86Sem X86Proofs AsmState.
From S2P Require Import AsmInv.
From S2P Require Import AsmAlloc.
From S2P Require Import AsmSelect.
From S2P Require Import AsmSem.
From S2P Require Import AsmSim.
Import RegSetProofs.

(** An operand: a value defined before. *)
Definition operand_ok (a : Assembler) (n q : Z) : bool :=
  (bufmin a <=? q) && (q <? n) && negb (q =? REF_BASE) && is_value (ir_o (a_ir a q)).
Lemma operand_ok_spec a n q :
  operand_ok a n q = true -> live a n q /\ q <> REF_BASE /\ value_ref a q.
Proof.
  unfold operand_ok. rewrite !andb_true_iff, Z.leb_le, Z.ltb_lt, negb_true_iff, Z.eqb_neq.
  intros [[[? ?] ?] ?]. done.
Qed.
Lemma operand_ok_ext k a a' n q : ext k a a' -> operand_ok a' n q = operand_ok a n q.
Proof.
  intros He. unfold operand_ok. rewrite (ext_bufmin _ _ _ He).
  by destruct (op_ext _ _ _ q He) as (-> & _).
Qed.

Lemma emit_x86_ok xo rr rb a x a' :
  emit_x86 xo rr rb a = Ok (x, a') -> a' = set_acode (emit_mrm (mrm a) xo rr rb (code a)) a.
Proof. unfold emit_x86. intros H. by apply modify_ok in H as [_ ->]. Qed.
Lemma emit_x86i_ok xg rb i a x a' :
  emit_x86i xg rb i a = Ok (x, a') -> a' = set_acode (emit_gmrmi (mrm a) xg rb i (code a)) a.
Proof. unfold emit_x86i. intros H. by apply modify_ok in H as [_ ->]. Qed.

Lemma is_gpr_in r : in_gpr r -> is_gpr r.
Proof. intros H%gpr_range. unfold is_gpr. lia. Qed.
Lemma allows_clear allow r : allows allow -> 0 <= r < 32 -> allows (RegSet.clear allow r).
Proof.
  intros [H0 Ha] Hr. split; [apply Z.land_nonneg; by left|]. intros q Hq Ht. apply Ha; [done|].
  unfold RegSet.clear, RegSet.exclude in Ht. rewrite test_testbit, Z.land_spec in Ht by done.
  rewrite test_testbit by done. by apply andb_true_iff in Ht as [? _].
Qed.
Lemma test_clear allow r : 0 <= r < 32 -> RegSet.test (RegSet.clear allow r) r = false.
Proof. intros Hr. unfold RegSet.clear. rewrite test_exclude by lia. rewrite Z.eqb_refl. apply andb_false_r. Qed.

Section machine.
Context {TF : TraceFrame}.
Abbreviation B := tf_base.
Abbreviation SP := tf_sp.
Abbreviation HL := tf_hplim.
Abbreviation SL := tf_splim.

(** ** Literals *)

Lemma is32BitLiteral_spec ref a k a' :
  is32BitLiteral ref a = Ok (k, a') ->
  a' = a /\ match k with
            | Some i => ref < REF_BIAS /\ is_i32 i
                /\ forall st, bufmin a <= ref -> literals_ok a st -> val st ref = u8 i
            | None => True
            end.
Proof using Type.
  unfold is32BitLiteral. intros H. inv_asm.
  destruct (irref_islit ref && _) eqn:El; inv_asm; [|done]. split; [done|].
  apply andb_true_iff in El as [Hlt%Z.ltb_lt Hk%negb_true_iff].
  match goal with Hlit : literalValue _ _ _ = Ok ?v |- _ => rename Hlit into Hl; rename v into w end.
  destruct (checki32 w) eqn:Hc; [|done]. split; [done|]. split; [apply (to_s_bound 32); lia|].
  intros st Hb Hlits. specialize (Hlits ref ltac:(lia)).
  assert (Hw : w = val st ref).
  { pose proof Hl as Hl2. unfold literalValue in Hl2. apply obind_ok in Hl2 as (j & Hj & Hl2).
    unfold ir in Hj. destruct (_ && _); [|done]. cbn in Hj. injection Hj as <-.
    change (raw_ir (b_code (abuf a)) ref) with (a_ir a ref) in Hl2.
    destruct (ir_o (a_ir a ref)) eqn:Eo; try done; congruence. }
  rewrite <- Hw. by apply Z.eqb_eq.
Qed.

(** ** From values to instructions *)

Section exit.
Context {RA : RuntimeAddrs}.

Lemma value_instr a a1 a' ref dest allow f :
  REF_FIRST <= ref -> defines a a1 ref dest allow -> value_code ref a1 a' dest f ->
  (forall st, ir_exec a ref st = do v <- f st; Some (Fall (set_val ref v st))) -> instr_ok a a' ref.
Proof using Type.
  intros Hb Hd (Hok & He & l & Em & Hl) Hir. destruct Hd as [D1 D2 D3 D4 D5 D6 D7 D8 D9 (ld & Ed & Hld)].
  split; [done|by etransitivity; [|eapply ext_weaken; [|exact He]; lia]|].
  exists (l ++ ld). split; [by eapply emits_app|]. intros Sp st m r Hsl Hc Hsp Hst Hr Ha.
  rewrite Hir in Hr. destruct (f st) as [v|] eqn:Hv; [|done]. injection Hr as <-.
  destruct (Hl Sp st m v Hc Hst Hv Ha) as (m1 & X1 & A1 & G1).
  destruct (Hld Sp (set_val ref v st) m1) as (m2 & X2 & A2); [done|by eapply covers_ext| | | |].
  - rewrite Hsp. unfold spl. by rewrite (ex_above _ _ _ He) by lia.
  - apply agree_set_val; [lia|unfold REF_FIRST in *; lia|done].
  - rewrite G1. cbn. unfold upd. by rewrite Z.eqb_refl.
  - exists m2. by rewrite exec_list_app, X1.
Qed.

(** An instruction without a result. *)
Lemma no_result a Sp ref st m a' :
  ext ref a a' -> ~ placed a ref -> Sp ref = spl a' ref -> agree a Sp ref st m -> agree a Sp (ref + 1) st m.
Proof using Type.
  intros He Hp Hsp Ha. apply agree_extend; [done| |].
  - intros Hr. destruct Hp. by left.
  - rewrite Hsp. unfold spl. rewrite (ex_above _ _ _ He) by lia. intros Hs. destruct Hp. by right.
Qed.
Lemma lower_ok a ref : ra_ok a (ref + 1) -> ~ placed a ref -> ra_ok a ref.
Proof using Type.
  intros Hok Hp. apply ra_ok_lower; [done|]. destruct (isReg (reg a ref)) eqn:E; [|done]. destruct Hp. by left.
Qed.
Lemma plain_exit E a a' ref f :
  ~ placed a ref -> runs ref a a' f ->
  (forall st, st_ok st -> ir_exec a ref st = do st' <- f st; Some (Fall st')) -> instr_exit E a a' ref.
Proof using Type.
  intros Hp (Hok & He & l & Em & Hl) Hir. split; [done|eapply ext_weaken; [|exact He]; lia|].
  exists l. split; [done|]. intros Sp st m r Hsl Hc Hsp Hst Hr Ha.
  rewrite Hir in Hr by done. destruct (f st) as [st'|] eqn:Hf; [|done]. injection Hr as <-.
  destruct (Hl Sp st st' m Hsl Hc Hst Hf Ha) as (m1 & X1 & A1). exists m1. split; [done|].
  by eapply no_result.
Qed.
Lemma plain_instr a a' ref f :
  ~ placed a ref -> runs ref a a' f ->
  (forall st, st_ok st -> ir_exec a ref st = do st' <- f st; Some (Fall st')) -> instr_ok a a' ref.
Proof using Type. apply plain_exit. Qed.

(** What an instruction means does not depend on registers, and it may
    come after other code of the allocator. *)
Lemma ir_exec_ext n a a' ref st : ext n a a' -> ir_exec a' ref st = ir_exec a ref st.
Proof using Type.
  intros He. destruct (op_ext _ _ _ ref He) as (E1 & E2 & E3).
  destruct (op_ext _ _ _ (op1 (a_ir a ref)) He) as (_ & F2 & F3).
  destruct (erase_buf _ _ (ex_erase _ _ _ He)) as (_ & Eh & _).
  unfold ir_exec, ir_value, ir_test, ir_new. by rewrite E1, E2, E3, F2, F3, Eh.
Qed.
Lemma instr_prefix a a0 a' ref K :
  ext (ref + 1) a a0 -> sim (ref + 1) a a0 K -> instr_ok a0 a' ref -> instr_ok a a' ref.
Proof using Type.
  intros He (l & Em & Hsim) [Hok He' (l' & Em' & Hl')]. split; [done|by etransitivity|].
  exists (l' ++ l). split; [by eapply emits_app|]. intros Sp st m r Hsl Hc Hsp Hst Hr Ha.
  rewrite <- (ir_exec_ext _ _ _ _ _ He) in Hr. specialize (Hl' Sp st m r Hsl Hc Hsp Hst Hr Ha).
  rewrite exec_list_app. destruct r as [st'|q st'].
  - destruct Hl' as (m1 & -> & A1). destruct (Hsim Sp st' m1 (covers_ext _ _ _ _ He' Hc) A1) as (m2 & X2 & A2 & _).
    by exists m2.
  - destruct Hl' as (-> & a1 & t & m1 & Ht & -> & E1 & E2 & A1). split; [done|]. exists a1, t, m1.
    split_and!; try done; [|by etransitivity].
    unfold current_stub in *. destruct (erase_pos _ _ (ex_erase _ _ _ He)) as (_ & _ & E & _). rewrite <- E.
    exact (exitstubAddr_ext _ _ _ _ _ He Ht).
Qed.

(** ** Arithmetic *)

Lemma land_u8 x y : 0 <= y < 2 ^ 64 -> u8 (Z.land x y) = Z.land x y.
Proof using Type. intros Hy. apply (to_u_id 64), (land_bound _ _ 64); lia. Qed.

(** The two-address instructions. *)
Definition xa_op (xa : x86Arith) : option Opcode :=
  match xa with
  | XOg_ADD => Some kADD | XOg_SUB => Some kSUB | XOg_AND => Some kBAND | XOg_OR => Some kBOR
  | XOg_XOR => Some kBXOR | _ => None
  end.
Lemma arith_xa xa op x y v :
  xa_op xa = Some op -> 0 <= x < 2 ^ 64 -> 0 <= y < 2 ^ 64 -> arith op x y = Some v ->
  arith_op (x86Arith_num xa) x y = Some v /\ 0 <= x86Arith_num xa < 8 /\ x86Arith_num xa <> 7.
Proof using Type.
  intros Hx Bx By. destruct xa; try done; injection Hx as <-; cbn; intros [= <-]; (split; [|lia]); f_equal.
  - symmetry. apply (to_u_id 64). by apply (lor_bound _ _ 64).
  - symmetry. by apply land_u8.
  - symmetry. apply (to_u_id 64). by apply (lxor_bound _ _ 64).
Qed.
Lemma writes_arith xa op dest y v m x :
  xa_op xa = Some op -> 0 <= gpr m dest < 2 ^ 64 -> 0 <= y < 2 ^ 64 -> arith op (gpr m dest) y = Some v ->
  rd true m x = Some y -> writes (IArith true (x86Arith_num xa) dest x) dest v m.
Proof using Type.
  intros Hxa Bx By Hv Hrd. destruct (arith_xa _ _ _ _ _ Hxa Bx By Hv) as (E & _ & Hne).
  exists None. cbn [exec]. rewrite Hrd. unfold arith64. rewrite (proj2 (Z.eqb_neq _ _)) by done. by rewrite E.
Qed.
Lemma writes_arithi xa op dest k v m :
  xa_op xa = Some op -> 0 <= gpr m dest < 2 ^ 64 -> arith op (gpr m dest) (u8 k) = Some v ->
  writes (IArithI true (x86Arith_num xa) (OReg dest) k) dest v m.
Proof using Type.
  intros Hxa Bx Hv. destruct (arith_xa _ _ _ _ _ Hxa Bx (u8_bound k) Hv) as (E & _ & Hne).
  exists None. cbn [exec rd]. unfold arith64. rewrite (proj2 (Z.eqb_neq _ _)) by done. by rewrite E.
Qed.

(** The right operand of [intArith]: a register, or a constant. *)
Definition right_operand (rref rreg allow dest : Z) : M (Z * Z) :=
  if isReg rreg then aret (rreg, 0)
  else
    let* k := is32BitLiteral rref in
    match k with
    | Some k => aret (rreg, k)
    | None => let* r := fuseLoad rref (RegSet.clear allow dest) in aret (r, 0)
    end.

Lemma fuseLoad_alloc a ref allow r a' :
  isReg (reg a ref) = false -> fuseLoad ref allow a = Ok (r, a') -> allocRef ref allow a = Ok (r, a').
Proof using Type. unfold fuseLoad. intros Hr H. inv_asm. unfold reg in Hr. by rewrite Hr in H. Qed.
Lemma fuseLoad_reg a ref r a' :
  isReg (reg a ref) = true -> fuseLoad ref kGPR a = Ok (r, a') -> r = reg a ref /\ a' = a.
Proof using Type.
  unfold fuseLoad. intros Hr H. inv_asm. unfold reg in *. rewrite Hr in H.
  change (negb (RegSet.isEmpty kGPR)) with true in H. cbn iota in H. by inv_asm.
Qed.

Lemma right_spec a a1 ab ref dest rref allow rk :
  ra_ok a (ref + 1) -> live a (ref + 1) ref -> allows allow -> operand_ok a ref rref = true ->
  (isReg (reg a rref) = true -> RegSet.test allow (reg a rref) = false) ->
  defines a a1 ref dest allow -> right_operand rref (reg a rref) allow dest a1 = Ok (rk, ab) ->
  ra_ok ab ref /\ ext ref a1 ab /\ free ab dest = true /\ sim ref a1 ab (fun x => x = dest)
  /\ ((isReg (fst rk) = true /\ in_gpr (fst rk)
       /\ forall Sp st m, agree ab Sp ref st m -> gpr m (fst rk) = val st rref)
      \/ (isReg (fst rk) = false /\ ab = a1 /\ rref < REF_BIAS /\ is_i32 (snd rk)
         /\ forall st, literals_ok ab st -> val st rref = u8 (snd rk))).
Proof using Type.
  intros Hok Hlref Hal Hop Hex Hd H. pose proof Hd as [D1 D2 D3 D4 D5 D6 D7 D8 D9 _].
  destruct (operand_ok_spec _ _ _ Hop) as (Hl & Hb & Hv). unfold right_operand in H.
  assert (Hl1 : live a1 ref rref) by by apply (live_ext (ref + 1) a a1).
  destruct (isReg (reg a rref)) eqn:Hr.
  - inv_asm. cbn [fst snd]. assert (Hl' : live a (ref + 1) rref) by (unfold live in *; lia).
    destruct (ro_reg _ _ Hok rref Hl' Hr) as (Hg & _).
    assert (Hne : reg a rref <> dest).
    { intros E. destruct (isReg (reg a ref)) eqn:Hrr.
      - pose proof (D6 eq_refl) as E2. assert (ref = rref); [|unfold live in Hl; lia].
        apply (distinct_regs (ref + 1) a); try done. congruence.
      - specialize (D5 eq_refl). rewrite <- E, Hex in D5 by done. done. }
    pose proof (defines_keeps _ _ _ _ _ _ Hok Hd Hl Hr Hne) as Hk.
    split_and!; try done; [apply sim_refl|]. left. split_and!; try done.
    intros Sp st m Ha. by apply (reg_val ref a1 Sp st m rref).
  - inv_asm. match goal with Hx : is32BitLiteral _ _ = _ |- _ => rename Hx into Hk end.
    apply is32BitLiteral_spec in Hk as [-> Hk].
    destruct x as [k|].
    + inv_asm. cbn [fst snd]. destruct Hk as (Hlt & Hi & Hlit). split_and!; try done; [apply sim_refl|]. right.
      split_and!; try done. intros st. apply Hlit, Hl1.
    + inv_asm. cbn [fst snd]. match goal with Hf : fuseLoad _ _ _ = Ok (?r, ?s) |- _ => rename Hf into Hfl, r into rr, s into a2 end.
      pose proof (gpr_range _ D3) as Hdr.
      assert (Hr1 : isReg (reg a1 rref) = false).
      { destruct (D9 rref) as [E|[E _]]; [unfold live in Hl; lia|by rewrite E|done]. }
      apply fuseLoad_alloc in Hfl; [|done].
      destruct (allocRef_spec ref a1 rref (RegSet.clear allow dest) rr a2) as (_ & Ht & Ha2); try done.
      { by apply allows_clear; [|lia]. }
      { by eapply value_ext. }
      pose proof Ha2 as [A1 A2 A3 A4 A5 A6 A7 A7q A8].
      assert (Hne : dest <> rr) by (intros E; rewrite <- E, test_clear in Ht by lia; done).
      split_and!; try done.
      * by rewrite A6 by (lia || done).
      * eapply sim_weaken; [|exact A8]. intros y ->. by left.
      * left. split; [by apply isReg_gpr|]. split; [done|]. intros Sp st m Ha.
        apply (reg_val ref a2 Sp st m rref); try done. by apply (live_ext ref a1 a2).
Qed.

Lemma u8_mul x y : u8 (x * u8 y) = u8 (x * y).
Proof using Type. unfold u8, to_u. by rewrite Z.mul_mod_idemp_r by lia. Qed.

(** The parts of [intArith]. *)
Definition arith_allow (a : Assembler) (rref : Z) : Z :=
  if isReg (reg a rref) then RegSet.clear kGPR (reg a rref) else kGPR.
Definition arith_emit (xa : x86Arith) (dest lref rref : Z) (rk : Z * Z) : M () :=
  let rreg := fst rk in
  let k := snd rk in
  match xa with
  | XOg_X_IMUL =>
      if isReg rreg then
        emit_x86 XO_IMUL (Z.lor REX_64 dest) rreg;* allocLeft dest lref
      else
        lc_assert (irref_islit rref);*
        let* lreg := fuseLoad lref kGPR in
        if checki8 k then emitc (emit_i8 k);* emit_x86 XO_IMULi8 (Z.lor REX_64 dest) lreg
        else emitc (emit_i32 k);* emit_x86 XO_IMULi (Z.lor REX_64 dest) lreg
  | _ =>
      (if isReg rreg then emit_x86 (XO_ARITH xa) (Z.lor REX_64 dest) rreg
       else emitc (emit_gri (XG_ARITHi (x86Arith_num xa)) (Z.lor REX_64 dest) k));*
      allocLeft dest lref
  end.

Section arith.
Context (a : Assembler) (ref : Z) (u : ()) (a' : Assembler).
Hypotheses (Hok : ra_ok a (ref + 1)) (Hfirst : REF_FIRST <= ref) (Hlref : live a (ref + 1) ref)
  (Hvr : value_ref a ref).
Let i := a_ir a ref.
Let lref := op1 i.
Let rref := op2 i.
Hypotheses (Ho1 : operand_ok a ref lref = true) (Ho2 : operand_ok a ref rref = true).

Lemma intArith_parts xa :
  intArith ref xa a = Ok (u, a') ->
  exists dest a1 ab rk allow, defines a a1 ref dest allow
    /\ right_operand rref (reg a rref) allow dest a1 = Ok (rk, ab)
    /\ arith_emit xa dest lref rref rk ab = Ok (u, a')
    /\ ra_ok ab ref /\ ext ref a1 ab /\ free ab dest = true /\ sim ref a1 ab (fun x => x = dest)
    /\ live ab ref lref /\ value_ref ab lref
    /\ ((isReg (fst rk) = true /\ in_gpr (fst rk)
         /\ forall Sp st m, agree ab Sp ref st m -> gpr m (fst rk) = val st rref)
        \/ (isReg (fst rk) = false /\ ab = a1 /\ rref < REF_BIAS /\ is_i32 (snd rk)
           /\ forall st, literals_ok ab st -> val st rref = u8 (snd rk))).
Proof using Hok Hfirst Hlref Hvr Ho1 Ho2.
  intros H. unfold intArith in H. apply abind_ok in H as (ins & s1 & [-> ->]%bufir_ok & H).
  apply abind_ok in H as (rins & s2 & [-> ->]%bufir_ok & H).
  apply abind_ok in H as (dest & a1 & Hdest & H). apply abind_ok in H as (rk & ab & Hright & H).
  fold i in H, Hdest, Hright. fold lref rref in H, Hdest, Hright.
  change (ir_reg (a_ir a rref)) with (reg a rref) in *.
  change (if isReg (reg a rref) then RegSet.clear kGPR (reg a rref) else kGPR) with (arith_allow a rref) in *.
  change (right_operand rref (reg a rref) (arith_allow a rref) dest a1 = Ok (rk, ab)) in Hright.
  destruct (operand_ok_spec _ _ _ Ho2) as (Hl2 & Hb2 & Hv2).
  destruct (operand_ok_spec _ _ _ Ho1) as (Hl1 & Hb1 & Hv1).
  assert (Hall : allows (arith_allow a rref)
            /\ (isReg (reg a rref) = true -> RegSet.test (arith_allow a rref) (reg a rref) = false)).
  { unfold arith_allow. destruct (isReg (reg a rref)) eqn:Hr; [|split; [apply allows_kGPR|done]].
    destruct (ro_reg _ _ Hok rref ltac:(unfold live in *; lia) Hr) as (Hg & _). apply gpr_range in Hg.
    split; [apply allows_clear; [apply allows_kGPR|lia]|]. intros _. apply test_clear. lia. }
  destruct Hall as [Hall Hex].
  assert (Hd := destReg_spec a ref _ dest a1 Hok Hall Hlref ltac:(unfold REF_FIRST, REF_BASE in *; lia) Hvr Hdest).
  destruct (right_spec a a1 ab ref dest rref _ rk Hok Hlref Hall Ho2 Hex Hd Hright) as (Hokb & Heb & Hfb & Hsb & Hcase).
  assert (Hea : ext (ref + 1) a ab) by (etransitivity; [apply Hd|eapply ext_weaken; [|exact Heb]; lia]).
  exists dest, a1, ab, rk, (arith_allow a rref). split_and!; try done.
  - by apply (live_ext (ref + 1) a ab).
  - by apply (value_ext (ref + 1) a ab).
Qed.

(** An operation in place: the left operand gets into the register of
    the result first. *)
Lemma two_address a1 ab dest allow code1 ins :
  defines a a1 ref dest allow -> ra_ok ab ref -> ext ref a1 ab -> free ab dest = true ->
  sim ref a1 ab (fun x => x = dest) -> live ab ref lref -> value_ref ab lref ->
  emits (code ab) code1 [ins] -> allocLeft dest lref (set_acode code1 ab) = Ok (u, a') ->
  (forall st, ir_exec a ref st = do v <- ir_value a ref st; Some (Fall (set_val ref v st))) ->
  (forall Sp st m v, st_ok st -> ir_value a ref st = Some v -> agree ab Sp ref st m ->
     gpr m dest = val st lref -> writes ins dest v m) ->
  instr_ok a a' ref.
Proof using Hfirst Ho1.
  intros Hd Hokb Heb Hfb Hsb Hlb Hvb Hem Hleft Hir Hw.
  destruct (operand_ok_spec _ _ _ Ho1) as (_ & Hb1 & _).
  eapply (value_instr a a1 a' ref dest allow (ir_value a ref)); [done|exact Hd| |done].
  destruct (allocLeft_spec ref (set_acode code1 ab) dest lref u a') as (Hok' & He' & Hp); try done.
  { by apply (same_ok ab). }
  { exact (df_gpr _ _ _ _ _ Hd). }
  eapply (value_left ref a1 ab code1 a' dest lref ins); try done;
    [exact (df_ok _ _ _ _ _ Hd)|exact (df_gpr _ _ _ _ _ Hd)].
Qed.

Lemma intArith_spec xa :
  xa_op xa = Some (ir_o i) -> intArith ref xa a = Ok (u, a') -> instr_ok a a' ref.
Proof using Hok Hfirst Hlref Hvr Ho1 Ho2.
  intros Hxa H. apply intArith_parts in H
    as (dest & a1 & ab & rk & allow & Hd & _ & H & Hokb & Heb & Hfb & Hsb & Hlb & Hvb & Hcase).
  pose proof (is_gpr_in _ (df_gpr _ _ _ _ _ Hd)) as Hgd.
  set (code1 := if isReg (fst rk) then emit_mrm (mrm ab) (XO_ARITH xa) (Z.lor REX_64 dest) (fst rk) (code ab)
                else emit_gri (XG_ARITHi (x86Arith_num xa)) (Z.lor REX_64 dest) (snd rk) (code ab)).
  assert (Hend : allocLeft dest lref (set_acode code1 ab) = Ok (u, a')).
  { unfold arith_emit in H. destruct xa; try done; inv_asm;
      (match goal with Hx : (if isReg (fst rk) then _ else _) ab = Ok (_, _) |- _ =>
         unfold code1; destruct (isReg (fst rk)); [apply emit_x86_ok in Hx; subst; done|inv_asm; done] end). }
  assert (Hnum : 0 <= x86Arith_num xa < 8) by (destruct xa; try done; cbn; lia).
  eapply (two_address a1 ab dest allow code1
    (if isReg (fst rk) then IArith true (x86Arith_num xa) dest (OReg (fst rk))
     else IArithI true (x86Arith_num xa) (OReg dest) (snd rk))); try done.
  - unfold code1. destruct Hcase as [(-> & Hg & _)|(-> & _ & _ & Hi & _)].
    + apply (arith_emits (mrm ab) (x86Arith_num xa)); [by apply wide_l|by apply as_reg_id, is_gpr_in|done].
    + apply gri_emits; [done|by apply wide_l|done].
  - intros st. unfold ir_exec. fold i. by destruct xa; try done; injection Hxa as <-.
  - intros Sp st m v Hst Hv Ha Hdl. assert (Har : arith (ir_o i) (val st lref) (val st rref) = Some v).
    { unfold ir_value in Hv. fold i in Hv. by destruct xa; try done; injection Hxa as E; rewrite <- E in *. }
    rewrite <- Hdl in Har. pose proof (so_val _ Hst lref) as Bl. pose proof (so_val _ Hst rref) as Br.
    rewrite <- Hdl in Bl. destruct Hcase as [(-> & Hg & Hrd)|(-> & _ & _ & Hi & Hk)].
    + eapply writes_arith; [done|done|exact Br|done|]. cbn. by rewrite (Hrd _ _ _ Ha).
    + eapply writes_arithi; [done|done|]. by rewrite <- (Hk _ (ag_lits _ _ _ _ _ Ha)).
Qed.

(** ** Multiplication *)

Lemma imul_emit_ok k dest lreg s s' :
  (if checki8 k then emitc (emit_i8 k);* emit_x86 XO_IMULi8 (Z.lor REX_64 dest) lreg
   else emitc (emit_i32 k);* emit_x86 XO_IMULi (Z.lor REX_64 dest) lreg) s = Ok (u, s') ->
  s' = set_acode (emit_imul_imm (mrm s) dest lreg k (code s)) s.
Proof using Type.
  intros H. unfold emit_imul_imm. destruct (checki8 k); inv_asm; by apply emit_x86_ok in H.
Qed.

(** [fuseLoad] finds or allocates a register. *)
Lemma fuseLoad_spec s q r s' :
  ra_ok s ref -> live s ref q -> q <> REF_BASE -> value_ref s q -> fuseLoad q kGPR s = Ok (r, s') ->
  alloced ref s s' q r.
Proof using Type.
  intros Hs Hl Hb Hv H. destruct (isReg (reg s q)) eqn:Hr.
  - apply fuseLoad_reg in H as [-> ->]; [|done]. destruct (ro_reg _ _ Hs q Hl Hr) as (Hg & Hf & _).
    split; try done; [by left|apply sim_refl].
  - apply fuseLoad_alloc in H; [|done].
    by destruct (allocRef_spec ref s q kGPR _ _ Hs allows_kGPR Hl Hb Hv H) as (_ & _ & ?).
Qed.

Lemma intMul_spec :
  ir_o i = kMUL -> intArith ref XOg_X_IMUL a = Ok (u, a') -> instr_ok a a' ref.
Proof using Hok Hfirst Hlref Hvr Ho1 Ho2.
  intros Hop H. apply intArith_parts in H
    as (dest & a1 & ab & rk & allow & Hd & _ & H & Hokb & Heb & Hfb & Hsb & Hlb & Hvb & Hcase).
  pose proof (is_gpr_in _ (df_gpr _ _ _ _ _ Hd)) as Hgd. destruct (operand_ok_spec _ _ _ Ho1) as (_ & Hb1 & _).
  assert (Har : forall st v, ir_value a ref st = Some v -> v = u8 (val st lref * val st rref)).
  { intros st v. unfold ir_value. fold i. rewrite Hop. cbn. by intros [= <-]. }
  assert (Hir : forall st, ir_exec a ref st = do v <- ir_value a ref st; Some (Fall (set_val ref v st))).
  { intros st. unfold ir_exec. fold i. by rewrite Hop. }
  unfold arith_emit in H. destruct Hcase as [(E & Hg & Hrd)|(E & -> & Hlt & Hi & Hk)]; rewrite E in H.
  - inv_asm. match goal with Hx : emit_x86 _ _ _ _ = _ |- _ => apply emit_x86_ok in Hx; subst end.
    eapply (two_address a1 ab dest allow _ (IImul true dest (OReg (fst rk)))); try done.
    + apply imul_emits; [by apply wide_l|by apply as_reg_id, is_gpr_in].
    + intros Sp st m v Hst Hv Ha Hdl. rewrite (Har _ _ Hv). exists None. cbn. by rewrite (Hrd _ _ _ Ha), Hdl.
  - inv_asm. match goal with Hx : fuseLoad _ _ _ = Ok (?r, ?s) |- _ => rename r into lreg, s into a2, Hx into Hfl end.
    apply imul_emit_ok in H. subst a'. pose proof (fuseLoad_spec _ _ _ _ Hokb Hlb Hb1 Hvb Hfl) as Hal.
    eapply (value_instr a a1 _ ref dest allow (ir_value a ref)); [done|exact Hd| |done].
    eapply (value_operand ref a1 a2 _ dest lref lreg (IImulI true dest (OReg lreg) (snd rk))); try done.
    + exact (df_gpr _ _ _ _ _ Hd).
    + apply imuli_emits; [done|exact (is_gpr_in _ (al_gpr _ _ _ _ _ Hal))|done].
    + intros Sp st m v Hst Hv Ha Hdl. rewrite (Har _ _ Hv). exists None. cbn. rewrite Hdl, <- (u8_mul _ (snd rk)).
      rewrite (Hk st); [done|]. eapply literals_ext; [exact (al_ext _ _ _ _ _ Hal)|apply (ag_lits _ _ _ _ _ Ha)].
Qed.
End arith.

(** ** One operand *)

Lemma dest_parts a ref dest a1 :
  ra_ok a (ref + 1) -> REF_FIRST <= ref -> live a (ref + 1) ref -> value_ref a ref ->
  destReg ref kGPR a = Ok (dest, a1) ->
  defines a a1 ref dest kGPR /\ ra_ok a1 ref /\ is_gpr dest /\ free a1 dest = true.
Proof using Type.
  intros Hok Hb Hl Hv H.
  assert (Hd := destReg_spec a ref kGPR dest a1 Hok allows_kGPR Hl ltac:(unfold REF_FIRST, REF_BASE in *; lia) Hv H).
  split_and!; [done|exact (df_ok _ _ _ _ _ Hd)|exact (is_gpr_in _ (df_gpr _ _ _ _ _ Hd))|exact (df_free _ _ _ _ _ Hd)].
Qed.

Section unary.
Context (a : Assembler) (ref : Z) (u : ()) (a' : Assembler).
Hypotheses (Hok : ra_ok a (ref + 1)) (Hfirst : REF_FIRST <= ref) (Hlref : live a (ref + 1) ref)
  (Hvr : value_ref a ref).
Let i := a_ir a ref.

(** The operation is done in place. *)
Lemma in_place dest a1 code1 ins :
  operand_ok a ref (op1 i) = true -> destReg ref kGPR a = Ok (dest, a1) -> emits (code a1) code1 [ins] ->
  allocLeft dest (op1 i) (set_acode code1 a1) = Ok (u, a') ->
  (forall st, ir_exec a ref st = do v <- ir_value a ref st; Some (Fall (set_val ref v st))) ->
  (forall st m v, st_ok st -> literals_ok a st -> ir_value a ref st = Some v -> gpr m dest = val st (op1 i) ->
     writes ins dest v m) ->
  instr_ok a a' ref.
Proof using Hok Hfirst Hlref Hvr.
  intros Ho1 Hdest Hem Hleft Hir Hw.
  destruct (dest_parts _ _ _ _ Hok Hfirst Hlref Hvr Hdest) as (Hd & Hok1 & Hg & Hf).
  destruct (operand_ok_spec _ _ _ Ho1) as (Hl1 & Hb1 & Hv1). pose proof (df_ext _ _ _ _ _ Hd) as He.
  eapply (two_address a ref u a' Hfirst Ho1 a1 a1 dest kGPR code1 ins); try done.
  - apply sim_refl.
  - by apply (live_ext (ref + 1) a a1).
  - by apply (value_ext (ref + 1) a a1).
  - intros Sp st m v Hst Hv Ha Hdl. apply (Hw st); try done.
    eapply literals_ext; [exact He|apply (ag_lits _ _ _ _ _ Ha)].
Qed.

Lemma intNegNot_spec xg :
  operand_ok a ref (op1 i) = true -> (ir_o i = kNEG /\ xg = XOg_NEG \/ ir_o i = kBNOT /\ xg = XOg_NOT) ->
  intNegNot ref xg a = Ok (u, a') -> instr_ok a a' ref.
Proof using Hok Hfirst Hlref Hvr.
  intros Ho1 Hop H. unfold intNegNot in H. apply abind_ok in H as (dest & a1 & Hdest & H).
  destruct (dest_parts _ _ _ _ Hok Hfirst Hlref Hvr Hdest) as (Hd & Hok1 & Hg & Hf).
  inv_asm. match type of H with allocLeft _ (op1 (a_ir ?s ref)) _ = _ =>
    change (a_ir s ref) with (a_ir a1 ref) in H end.
  destruct (op_ext _ _ _ ref (df_ext _ _ _ _ _ Hd)) as (_ & E & _). rewrite E in H. fold i in H.
  eapply (in_place dest a1 _ (IGroup3 true xg (OReg dest))); try done.
  - apply group3_emits; [by destruct Hop as [[_ ->]|[_ ->]]|by apply as_reg_id].
  - intros st. unfold ir_exec. fold i. by destruct Hop as [[-> _]|[-> _]].
  - intros st m v Hst _ Hv Hdl. unfold ir_value in Hv. fold i in Hv. rewrite <- Hdl in Hv.
    destruct Hop as [[E' ->]|[E' ->]]; rewrite E' in Hv; cbn in Hv; injection Hv as <-.
    + by exists None.
    + by exists (cmpd m).
Qed.

(** Shifts by a constant *)
Definition xs_op (xs : Z) : option Opcode :=
  if xs =? XOg_SHL then Some kBSHL else if xs =? XOg_SHR then Some kBSHR
  else if xs =? XOg_SAR then Some kBSAR else None.
Lemma xs_cases xs op : xs_op xs = Some op ->
  xs = XOg_SHL /\ op = kBSHL \/ xs = XOg_SHR /\ op = kBSHR \/ xs = XOg_SAR /\ op = kBSAR.
Proof using Type.
  unfold xs_op. destruct (Z.eqb_spec xs XOg_SHL); [intros [= <-]; auto|].
  destruct (Z.eqb_spec xs XOg_SHR); [intros [= <-]; auto|].
  destruct (Z.eqb_spec xs XOg_SAR); [intros [= <-]; auto|done].
Qed.
Lemma shift_xs xs op x k : xs_op xs = Some op -> shift_op xs x k = shift_of op x k.
Proof using Type. by intros [[-> ->]|[[-> ->]|[-> ->]]]%xs_cases. Qed.
Lemma shift_by_0 xs op x v : xs_op xs = Some op -> 0 <= x < 2 ^ 64 -> shift_of op x 0 = Some v -> v = x.
Proof using Type.
  intros [[-> ->]|[[-> ->]|[-> ->]]]%xs_cases Hx; cbn; intros [= <-].
  - by apply (to_u_id 64).
  - done.
  - unfold u8. destruct (i8_shift x Hx) as [k ->]. replace (Z.shiftr (x + k * 2 ^ 64) 0) with (x + k * 2 ^ 64) by (symmetry; apply Z.shiftr_0_r). unfold to_u. rewrite Z.mod_add by lia. by apply Z.mod_small.
Qed.

Lemma value_puts a1 dest lref f :
  puts ref a1 a' dest lref -> (forall st v, st_ok st -> literals_ok a1 st -> f st = Some v -> v = val st lref) ->
  value_code ref a1 a' dest f.
Proof using Type.
  intros (H1 & H2 & l & Em & Hp) Hf. split; [done|]. split; [done|]. exists l. split; [done|].
  intros Sp st m v Hc Hst Hv Ha. destruct (Hp Sp st m Hc Ha) as (m' & X & A & G). exists m'.
  split; [done|]. split; [done|]. rewrite (Hf st v); try done. apply (ag_lits _ _ _ _ _ A).
Qed.

Lemma bitshift_spec xs :
  operand_ok a ref (op1 i) = true -> irref_islit (op2 i) = true -> bufmin a <= op2 i ->
  xs_op xs = Some (ir_o i) -> bitshift ref xs a = Ok (u, a') -> instr_ok a a' ref.
Proof using Hok Hfirst Hlref Hvr.
  intros Ho1 Hlit Hmin Hxs H. unfold bitshift in H.
  apply abind_ok in H as (ins & s1 & [-> ->]%bufir_ok & H). fold i in H.
  apply abind_ok in H as (rins & s2 & [-> ->]%bufir_ok & H). rewrite Hlit in H.
  apply abind_ok in H as (t & s3 & [Hk ->]%lc_assert_ok & H).
  apply abind_ok in H as (k & s4 & [Hval ->]%a_literalValue_ok & H).
  apply abind_ok in H as (dest & a1 & Hdest & H).
  destruct (dest_parts _ _ _ _ Hok Hfirst Hlref Hvr Hdest) as (Hd & Hok1 & Hg & Hf).
  assert (Hst : forall st, literals_ok a st -> val st (op2 i) = k).
  { intros st Hl. unfold irref_islit in Hlit. apply Z.ltb_lt in Hlit. specialize (Hl (op2 i) ltac:(lia)).
    pose proof Hval as Hv2. unfold literalValue in Hv2. apply obind_ok in Hv2 as (j & Hj & Hv2).
    unfold ir in Hj. destruct (_ && _); [|done]. cbn in Hj. injection Hj as <-.
    apply negb_true_iff, bool_decide_eq_false_1 in Hk.
    change (raw_ir (b_code (abuf a)) (op2 i)) with (a_ir a (op2 i)) in Hv2.
    destruct (ir_o (a_ir a (op2 i))); try done; congruence. }
  assert (Hkb : 0 <= Z.land k 63 < 64).
  { change 63 with (Z.ones 6). rewrite Z.land_ones by lia. apply Z.mod_pos_bound. lia. }
  assert (Hir : forall st, ir_exec a ref st = do v <- ir_value a ref st; Some (Fall (set_val ref v st))).
  { intros st. unfold ir_exec. fold i. by apply xs_cases in Hxs as [[_ ->]|[[_ ->]|[_ ->]]]. }
  assert (Hvs : forall st v, literals_ok a st -> ir_value a ref st = Some v ->
            shift_of (ir_o i) (val st (op1 i)) (Z.land k 63) = Some v).
  { intros st v Hl. unfold ir_value. fold i. rewrite (Hst st Hl).
    by apply xs_cases in Hxs as [[_ ->]|[[_ ->]|[_ ->]]]. }
  assert (Hxb : 0 <= xs < 8) by (by apply xs_cases in Hxs as [[-> _]|[[-> _]|[-> _]]]).
  assert (Hwr : forall st m v, st_ok st -> literals_ok a st -> ir_value a ref st = Some v ->
            gpr m dest = val st (op1 i) -> writes (IShiftI true xs (OReg dest) (Z.land k 63)) dest v m).
  { intros st m v _ Hl Hv Hdl. apply Hvs in Hv; [|done]. exists None. cbn. rewrite Hdl, (shift_xs xs _ _ _ Hxs).
    rewrite (Z.land_comm _ 63), Z.land_assoc, (Z.land_comm 63), <- Z.land_assoc, Z.land_diag. by rewrite Hv. }
  apply abind_ok in H as (t' & s5 & Hcode & H).
  destruct (Z.eqb_spec (Z.land k 63) 0) as [Ez|Hnz]; [|destruct (Z.eqb_spec (Z.land k 63) 1) as [E1|Hn1]].
  - inv_asm. destruct (operand_ok_spec _ _ _ Ho1) as (Hl1 & Hb1 & Hv1). pose proof (df_ext _ _ _ _ _ Hd) as He.
    eapply (value_instr a a1 a' ref dest kGPR (ir_value a ref)); [done|done| |done].
    apply (value_puts a1 dest (op1 i)).
    + eapply allocLeft_spec; [done|exact (df_gpr _ _ _ _ _ Hd)|done| |done| |exact H].
      * by apply (live_ext (ref + 1) a a1).
      * by apply (value_ext (ref + 1) a a1).
    + intros st v Hs Hl Hv. apply Hvs in Hv; [|by eapply literals_ext]. rewrite Ez in Hv.
      by apply (shift_by_0 xs (ir_o i)); [| apply (so_val _ Hs) |].
  - inv_asm. rewrite E1 in Hwr. eapply (in_place dest a1 _ (IShiftI true xs (OReg dest) 1)); try done.
    apply shift1_emits; [done|by apply as_reg_id].
  - inv_asm. eapply (in_place dest a1 _ (IShiftI true xs (OReg dest) (Z.land k 63))); try done.
    apply shifti_emits; [done|by apply as_reg_id|done].
Qed.

(** ** Loads *)

Lemma load_writes Sp s n st m r ofs x v dst :
  st_ok st -> agree s Sp n st m -> gpr m r = x -> word_at st (u8 (x + ofs)) = Some v ->
  writes (IMovRM true dst (OMem r None ofs)) dst v m.
Proof using Type.
  intros Hst Ha Hr Hw. destruct (word_at_ok _ _ _ Hst Hw) as (Hal & Hm & _ & Hf). exists (cmpd m).
  cbn [exec rd]. unfold ea, rd_mem. rewrite Hr, Z.add_0_r, (proj2 (Z.eqb_eq _ _)) by done.
  by rewrite (ag_mem _ _ _ _ _ Ha _ Hf), Hm.
Qed.

Lemma field_i32 k : 0 <= k < 65536 -> is_i32 (8 * k).
Proof using Type. unfold is_i32. lia. Qed.
Lemma op_u16 j : 0 <= op1 j < 65536 /\ 0 <= op2 j < 65536.
Proof using Type. split; apply (to_u_bound 16); lia. Qed.

Lemma emitSLOAD_spec : ir_o i = kSLOAD -> emitSLOAD ref a = Ok (u, a') -> instr_ok a a' ref.
Proof using Hok Hfirst Hlref Hvr.
  intros Hop H. unfold emitSLOAD in H. apply abind_ok in H as (ins & s1 & [-> ->]%bufir_ok & H). fold i in H.
  apply abind_ok in H as (dest & a1 & Hdest & H).
  destruct (dest_parts _ _ _ _ Hok Hfirst Hlref Hvr Hdest) as (Hd & Hok1 & Hg & Hf). inv_asm.
  eapply (value_instr a a1 _ ref dest kGPR (ir_value a ref)); [done|done| |].
  2: { intros st. unfold ir_exec. fold i. by rewrite Hop. }
  eapply value_one; [done|exact (df_gpr _ _ _ _ _ Hd)|done| |].
  - apply load_emits; [done|apply gpr_base|]. unfold is_i32. pose proof (to_s_bound 16 ltac:(lia) (op1 i)) as Hs. unfold i2. lia.
  - intros Sp st m v Hst Hv Ha. unfold ir_value in Hv. fold i in Hv. rewrite Hop in Hv.
    by eapply load_writes; [exact Hst|exact Ha|apply (ag_base _ _ _ _ _ Ha)|].
Qed.

Lemma fieldLoad_spec :
  ir_o i = kFLOAD -> operand_ok a ref (op1 (a_ir a (op1 i))) = true ->
  fieldLoad ref a = Ok (u, a') -> instr_ok a a' ref.
Proof using Hok Hfirst Hlref Hvr.
  intros Hop Ho1 H. unfold fieldLoad in H. apply abind_ok in H as (ins & s1 & [-> ->]%bufir_ok & H). fold i in H.
  apply abind_ok in H as (f & s2 & [-> ->]%bufir_ok & H).
  apply abind_ok in H as (t & s3 & [_ ->]%lc_assert_ok & H).
  apply abind_ok in H as (dest & a1 & Hdest & H). apply abind_ok in H as (r & a2 & Hal & H). inv_asm.
  destruct (dest_parts _ _ _ _ Hok Hfirst Hlref Hvr Hdest) as (Hd & Hok1 & Hg & Hf).
  destruct (operand_ok_spec _ _ _ Ho1) as (Hl1 & Hb1 & Hv1). pose proof (df_ext _ _ _ _ _ Hd) as He.
  assert (Hl : live a1 ref (op1 (a_ir a (op1 i)))) by by apply (live_ext (ref + 1) a a1).
  assert (Hv : value_ref a1 (op1 (a_ir a (op1 i)))) by by apply (value_ext (ref + 1) a a1).
  destruct (alloc1_spec _ _ _ _ _ _ Hok1 allows_kGPR Hl Hb1 Hv Hal) as (Hal' & _).
  eapply (value_instr a a1 _ ref dest kGPR (ir_value a ref)); [done|done| |].
  2: { intros st. unfold ir_exec. fold i. by rewrite Hop. }
  eapply (value_operand ref a1 a2 _ dest _ r); [done|exact (df_gpr _ _ _ _ _ Hd)|done|exact Hal'|done| |].
  - apply load_emits; [done|exact (is_gpr_in _ (al_gpr _ _ _ _ _ Hal'))|apply field_i32, op_u16].
  - intros Sp st m v Hst Hval Ha Hr. unfold ir_value in Hval. fold i in Hval. rewrite Hop in Hval.
    by eapply load_writes.
Qed.
End unary.
End exit.
End machine.
