(* ===== verification/AsmGuard.v ===== *)
(** * The code of guards

    A guard is a comparison and a branch to its exit stub.  The branch
    is taken exactly when the guard fails; the registers at the branch
    are those of the allocator behind the allocation of the operands. *)

From S2P Require Import Prelude Words Hotness IR.
From S2P Require Import IRInv.
From S2P Require Import Registers X86 X86Sem X86Proofs AsmState.
From S2P Require Import AsmInv.
From S2P Require Import AsmAlloc.
From S2P Require Import AsmSelect.
From S2P Require Import AsmSem.
From S2P Require Import AsmSim AsmInstr.
Import RegSetProofs.

Lemma asnap_ok n a s a' : asnap n a = Ok (s, a') -> a' = a /\ b_snaps (abuf a) !! Z.to_nat n = Some s.
Proof.
  unfold asnap. intros H. destruct (_ <? _); [|done]. destruct (b_snaps (abuf a) !! Z.to_nat n) eqn:E; [|done].
  cbn in H. injection H as <- <-. done.
Qed.

(** Recording the branch changes a snapshot only in that field. *)
Lemma set_snap_same n p a x a' : set_snap_mcode n p a = Ok (x, a') -> same a a' /\ code a' = code a /\ snapno a' = snapno a.
Proof.
  unfold set_snap_mcode. intros H. apply abind_ok in H as (s & s1 & [-> Hs]%asnap_ok & H).
  apply modify_ok in H as [_ ->]. split; [|done]. split; [|done]. unfold erase. cbn. do 2 f_equal.
  rewrite list_fmap_insert. apply list_insert_id. rewrite list_lookup_fmap, Hs. done.
Qed.

Lemma guardcc_spec cc a u a' :
  0 <= cc < 16 -> guardcc cc a = Ok (u, a') ->
  exists t, exitstubAddr (snapno a) a = Ok (t, a) /\ emits (code a) (code a') [IJcc cc t] /\ same a a'.
Proof.
  intros Hcc H. unfold guardcc in H. apply abind_ok in H as (s & s1 & [-> ->]%get_ok & H).
  apply abind_ok in H as (t & s2 & Ht & H). pose proof (exitstubAddr_ok _ _ _ _ Ht) as ->.
  apply abind_ok in H as (sn & s3 & [-> _]%asnap_ok & H).
  apply abind_ok in H as (v & s4 & Hj & H). apply emito_ok in Hj as (c & Hj & ->).
  apply abind_ok in H as (s5 & s6 & [-> ->]%get_ok & H). apply set_snap_same in H as (Hs & Hc & _).
  exists t. split; [done|]. split; [rewrite Hc; by apply jcc_emits|]. eapply asm_same_trans; [apply same_code|exact Hs].
Qed.

Section machine.
Context {TF : TraceFrame} {RA : RuntimeAddrs}.
Abbreviation B := tf_base.
Abbreviation SP := tf_sp.
Abbreviation HL := tf_hplim.
Abbreviation SL := tf_splim.

(** [a] to [a1]: the operands, [a2]: the branch to [t], [a3]: an operand
    that is allocated later, [a']: the comparison [l]. *)
Lemma guard_exit (E : Z -> Prop) a a1 a2 a3 a' ref cc t l K1 K3 (test : irstate -> option bool) (g : irstate -> irstate) :
  ~ placed a ref -> ra_ok a1 ref -> ext ref a a1 -> sim ref a a1 K1 ->
  E t -> emits (code a1) (code a2) [IJcc cc t] -> same a1 a2 -> ra_ok a3 ref -> ext ref a2 a3 -> sim ref a2 a3 K3 ->
  same a3 a' -> emits (code a3) (code a') l ->
  (forall st, ir_exec a ref st = do b <- test st; Some (if b : bool then Fall (g st) else Leave ref (g st))) ->
  (forall Sp st m b, st_ok st -> test st = Some b -> agree a3 Sp ref st m ->
     exists m1 x y, exec_list l m = Some (Next m1) /\ agree a3 Sp ref (g st) m1 /\ cmpd m1 = Some (x, y)
       /\ cond cc x y = Some (negb b)) ->
  instr_exit E a a' ref.
Proof using Type.
  intros Hp Hok1 He1 (l1 & Em1 & Hs1) Ht Emj Hsj Hok3 He3 (l3 & Em3 & Hs3) Hsame Hem Hir Htest.
  assert (He : ext ref a1 a').
  { etransitivity; [by apply same_ext|]. etransitivity; [exact He3|by apply same_ext]. }
  assert (He' : ext ref a a') by by etransitivity.
  split; [by apply (same_ok a3)|eapply ext_weaken; [|exact He']; lia|].
  exists (l ++ l3 ++ [IJcc cc t] ++ l1). split.
  { eapply emits_app; [|exact Hem]. eapply emits_app; [|exact Em3]. by eapply emits_app. }
  intros Sp st m r Hsl Hcov Hsp Hst Hr Ha. rewrite Hir in Hr. destruct (test st) as [b|] eqn:Hb; [|done].
  destruct (Htest Sp st m b Hst Hb) as (m1 & x & y & X1 & A1 & C1 & Hc); [by apply (same_agree a3 a')|].
  destruct (Hs3 Sp (g st) m1) as (m3 & X3 & A3 & _ & _ & C3); [eapply covers_ext; [exact (same_ext _ _ Hsame ref)|exact Hcov]|done|].
  apply (same_agree _ _ Hsj) in A3.
  assert (Hrun : forall rest, exec_list (l ++ l3 ++ [IJcc cc t] ++ rest) m
                 = if negb b then Some (Goto t m3) else exec_list rest m3).
  { intros rest. rewrite exec_list_app, X1, exec_list_app, X3. cbn [app exec_list exec]. rewrite C3, C1, Hc.
    by destruct b. }
  rewrite Hrun. injection Hr as <-. destruct b; cbn [negb].
  - destruct (Hs1 Sp (g st) m3) as (m4 & X4 & A4 & _); [by eapply covers_ext|done|].
    exists m4. split; [done|]. by eapply no_result.
  - split; [done|]. exists a1, t, m3. split_and!; try done.
    + eapply ext_weaken; [|exact He1]; lia.
    + eapply ext_weaken; [|exact He]; lia.
Qed.
(** With the branch of [guardcc]. *)
Lemma guard_instr a a1 a2 a3 a' ref cc l u K1 K3 (test : irstate -> option bool) (g : irstate -> irstate) :
  ~ placed a ref -> 0 <= cc < 16 -> ra_ok a1 ref -> ext ref a a1 -> sim ref a a1 K1 ->
  guardcc cc a1 = Ok (u, a2) -> ra_ok a3 ref -> ext ref a2 a3 -> sim ref a2 a3 K3 ->
  same a3 a' -> emits (code a3) (code a') l ->
  (forall st, ir_exec a ref st = do b <- test st; Some (if b : bool then Fall (g st) else Leave ref (g st))) ->
  (forall Sp st m b, st_ok st -> test st = Some b -> agree a3 Sp ref st m ->
     exists m1 x y, exec_list l m = Some (Next m1) /\ agree a3 Sp ref (g st) m1 /\ cmpd m1 = Some (x, y)
       /\ cond cc x y = Some (negb b)) ->
  instr_ok a a' ref.
Proof using Type.
  intros Hp Hcc Hok1 He1 Hs1 Hg Hok3 He3 Hs3 Hsame Hem Hir Htest.
  destruct (guardcc_spec _ _ _ _ Hcc Hg) as (t & Ht & Emj & Hsj).
  eapply (guard_exit (current_stub a) a a1 a2 a3 a' ref cc t); try done. unfold current_stub.
  destruct (erase_pos _ _ (ex_erase _ _ _ He1)) as (_ & _ & E & _). rewrite <- E.
  exact (exitstubAddr_ext _ _ _ _ _ He1 Ht).
Qed.

(** ** Comparisons *)

Lemma alloced_sim n a a' ref r : alloced n a a' ref r -> exists K, sim n a a' K.
Proof using Type. intros Ha. eexists. exact (al_sim _ _ _ _ _ Ha). Qed.

(** The first operand is still in its register when the second one has
    been allocated. *)
Lemma second_operand n a a' q1 r1 q2 r2 :
  ra_ok a n -> live a n q1 -> q1 <> REF_BASE -> reg a q1 = r1 -> in_gpr r1 -> live a n q2 -> q2 <> REF_BASE ->
  value_ref a q2 -> alloc1 q2 kGPR a = Ok (r2, a') -> isReg (reg a' q1) = true ->
  alloced n a a' q2 r2 /\ reg a' q1 = r1.
Proof using Type.
  intros Hok Hl1 Hb1 <- Hg Hl2 Hb2 Hv2 H Hkeep.
  destruct (alloc1_spec _ _ _ _ _ _ Hok allows_kGPR Hl2 Hb2 Hv2 H) as (Hal & _ & Hsame). split; [done|].
  destruct (Z.eq_dec q1 q2) as [E|Hne].
  { rewrite E in *. rewrite Hsame; [done|by apply isReg_gpr]. }
  destruct (al_other _ _ _ _ _ Hal q1 Hne) as [E|[E _]]; [done|congruence].
Qed.

Section compare.
Context (a : Assembler) (ref : Z) (u : ()) (a' : Assembler).
Hypotheses (Hok : ra_ok a (ref + 1)) (Hp : ~ placed a ref).
Let i := a_ir a ref.
Hypotheses (Ho1 : operand_ok a ref (op1 i) = true) (Ho2 : operand_ok a ref (op2 i) = true).

Lemma first_operand r a1 :
  alloc1 (op1 i) kGPR a = Ok (r, a1) ->
  alloced ref a a1 (op1 i) r /\ ra_ok a1 ref /\ ext ref a a1 /\ is_gpr r
  /\ live a1 ref (op2 i) /\ value_ref a1 (op2 i) /\ op2 i <> REF_BASE /\ live a1 ref (op1 i) /\ op1 i <> REF_BASE.
Proof using Hok Hp Ho1 Ho2.
  intros H. destruct (operand_ok_spec _ _ _ Ho1) as (Hl1 & Hb1 & Hv1).
  destruct (operand_ok_spec _ _ _ Ho2) as (Hl2 & Hb2 & Hv2). pose proof (lower_ok _ _ Hok Hp) as Hok0.
  destruct (alloc1_spec _ _ _ _ _ _ Hok0 allows_kGPR Hl1 Hb1 Hv1 H) as (Hal & _).
  pose proof (al_ext _ _ _ _ _ Hal) as He. split_and!; try done.
  - exact (al_ok _ _ _ _ _ Hal).
  - exact (is_gpr_in _ (al_gpr _ _ _ _ _ Hal)).
  - by apply (live_ext ref a a1).
  - by apply (value_ext ref a a1).
  - by apply (live_ext ref a a1).
Qed.

Lemma asm_compare_spec cc :
  asm_compmap (ir_o i) = Some cc -> compare ref cc a = Ok (u, a') -> isReg (reg a' (op1 i)) = true ->
  instr_ok a a' ref.
Proof using Hok Hp Ho1 Ho2.
  intros Hmap H Hkeep. unfold compare in H. apply abind_ok in H as (ins & s1 & [-> ->]%bufir_ok & H). fold i in H.
  apply abind_ok in H as (r1 & a1 & Hal1 & H). apply abind_ok in H as (k & s3 & Hk & H).
  apply is32BitLiteral_spec in Hk as [-> Hk].
  destruct (first_operand _ _ Hal1) as (Ha1 & Hok1 & He1 & Hg1 & Hl2 & Hv2 & Hb2 & Hl1 & Hb1).
  assert (Hcc : 0 <= cc < 16) by (unfold asm_compmap in Hmap; by destruct (ir_o i); try done; injection Hmap as <-).
  assert (Hir : forall st, ir_exec a ref st
            = do b <- condition (ir_o i) (val st (op1 i)) (val st (op2 i)); Some (if b : bool then Fall st else Leave ref st)).
  { intros st. unfold ir_exec, ir_test. fold i. unfold asm_compmap in Hmap. by destruct (ir_o i). }
  assert (Hend : forall s x y, (forall Sp st m, agree s Sp ref st m -> st_ok st ->
              exists m1, exec x m = Some (Next m1) /\ agree s Sp ref st m1
                /\ cmpd m1 = Some (gpr m r1, y st m)) -> (forall Sp st m, agree s Sp ref st m ->
              gpr m r1 = val st (op1 i) /\ y st m = val st (op2 i)) ->
            forall Sp st m b, st_ok st -> condition (ir_o i) (val st (op1 i)) (val st (op2 i)) = Some b ->
              agree s Sp ref st m -> exists m1 x' y', exec_list [x] m = Some (Next m1) /\ agree s Sp ref st m1
                /\ cmpd m1 = Some (x', y') /\ cond cc x' y' = Some (negb b)).
  { intros s x y Hx Hv Sp st m b Hst Hb Ha. destruct (Hx Sp st m Ha Hst) as (m1 & X & A & C).
    destruct (Hv Sp st m Ha) as [E1 E2]. rewrite E1, E2 in C. exists m1, (val st (op1 i)), (val st (op2 i)).
    cbn [exec_list]. rewrite X. split_and!; try done.
    by apply (cond_compmap _ _ _ _ _ Hmap Hb (so_val _ Hst _) (so_val _ Hst _)). }
  destruct k as [imm|].
  - destruct Hk as (Hlt & Hi & Hval). apply abind_ok in H as (v & a2 & Hg & H).
    apply emit_x86i_ok in H. destruct (guardcc_spec _ _ _ _ Hcc Hg) as (t & _ & _ & Hs). subst a'.
    eapply (guard_instr a a1 a2 a2 _ ref cc [IArithI true 7 (OReg r1) imm] v _ (fun _ => True) _ id);
      [done|done|done|exact He1|exact (al_sim _ _ _ _ _ Ha1)|exact Hg|by apply (same_ok a1)|reflexivity|apply sim_refl
      |apply same_code| |exact Hir|].
    + apply (gmrmi_emits 7); [lia|by apply wide_r|done].
    + apply (Hend a2 _ (fun _ _ => u8 imm)); [|].
      * intros Sp st m Ha _. eexists. split; [done|]. split; [by apply set_flags_agree|done].
      * intros Sp st m Ha. apply (same_agree _ _ Hs) in Ha. split.
        -- by apply (reg_val ref a1 Sp st m); [| |apply (al_reg _ _ _ _ _ Ha1)|apply (al_gpr _ _ _ _ _ Ha1)].
        -- symmetry. apply Hval; [apply Hl2|apply (ag_lits _ _ _ _ _ Ha)].
  - apply abind_ok in H as (r2 & a2 & Hal2 & H). apply abind_ok in H as (v & a3 & Hg & H).
    apply emit_x86_ok in H. destruct (guardcc_spec _ _ _ _ Hcc Hg) as (t & _ & _ & Hs). subst a'.
    change (reg (set_acode _ a3) (op1 i)) with (reg a3 (op1 i)) in Hkeep. rewrite (same_reg _ _ Hs) in Hkeep.
    destruct (second_operand ref a1 a2 (op1 i) r1 (op2 i) r2) as [Ha2 Hk2]; try done.
    { exact (al_reg _ _ _ _ _ Ha1). }
    { exact (al_gpr _ _ _ _ _ Ha1). }
    pose proof (al_ext _ _ _ _ _ Ha2) as He2. pose proof (al_ok _ _ _ _ _ Ha2) as Hok2.
    eapply (guard_instr a a2 a3 a3 _ ref cc [IArith true 7 r1 (OReg r2)] v _ (fun _ => True) _ id);
      [done|done|exact Hok2|by etransitivity|
       exact (sim_trans _ _ _ _ _ _ He2 (al_sim _ _ _ _ _ Ha1) (al_sim _ _ _ _ _ Ha2))
      |exact Hg|by apply (same_ok a2)|reflexivity|apply sim_refl|apply same_code| |exact Hir|].
    + apply (arith_emits (mrm a3) 7); [by apply wide_r| |lia].
      apply as_reg_wide, wide_r, is_gpr_in, (al_gpr _ _ _ _ _ Ha2).
    + apply (Hend a3 _ (fun _ m => gpr m r2)); [|].
      * intros Sp st m Ha _. eexists. split; [done|]. split; [by apply set_flags_agree|done].
      * intros Sp st m Ha. apply (same_agree _ _ Hs) in Ha. split.
        -- apply (reg_val ref a2 Sp st m); [done|by apply (live_ext ref a1 a2)|done|exact (al_gpr _ _ _ _ _ Ha1)].
        -- apply (reg_val ref a2 Sp st m); [done|by apply (live_ext ref a1 a2)|exact (al_reg _ _ _ _ _ Ha2)
             |exact (al_gpr _ _ _ _ _ Ha2)].
Qed.

(** Info pointers: the word at the closure is compared. *)
Lemma load_flags Sp s st m r v x :
  st_ok st -> agree s Sp ref st m -> gpr m r = x -> 0 <= x < 2 ^ 64 -> word_at st x = Some v ->
  rd true m (OMem r None 0) = Some v.
Proof using Type.
  intros Hst Ha Hr Hx Hw. destruct (word_at_ok _ _ _ Hst Hw) as (Hal & Hm & _ & Hf).
  cbn [rd]. unfold ea, rd_mem. rewrite Hr, !Z.add_0_r. replace (u8 x) with x by (symmetry; apply (to_u_id 64); lia).
  rewrite (proj2 (Z.eqb_eq _ _)) by done. by rewrite (ag_mem _ _ _ _ _ Ha _ Hf), Hm.
Qed.
Definition info_test (inverted : bool) (st : irstate) : option bool :=
  do v <- word_at st (val st (op1 i)); Some (xorb inverted (v =? val st (op2 i))).
Definition info_cc (inverted : bool) : Z := if inverted then CC_E else CC_NE.
Lemma info_cond inverted x y :
  0 <= x < 2 ^ 64 -> 0 <= y < 2 ^ 64 ->
  cond (info_cc inverted) x y = Some (negb (xorb inverted (x =? y))) /\ 0 <= info_cc inverted < 16.
Proof using Type.
  intros Hx Hy. destruct (cond_table x y) as (_ & _ & _ & _ & C5 & C6 & _).
  unfold info_cc. destruct inverted; rewrite ?C5, ?C6; unfold ZF; rewrite u8_zero by done;
    (split; [by destruct (x =? y)|by vm_compute]).
Qed.
Lemma info_exec (inverted : bool) :
  ir_o i = (if inverted then kNEINFO else kEQINFO) ->
  forall st, ir_exec a ref st
    = do b <- info_test inverted st; Some (if b : bool then Fall (id st) else Leave ref (id st)).
Proof using Type.
  intros Hop st. unfold ir_exec, ir_test, info_test. fold i.
  destruct inverted; rewrite Hop; by destruct (word_at st _).
Qed.

Lemma itblGuard_spec (inverted : bool) :
  ir_o i = (if inverted then kNEINFO else kEQINFO) -> itblGuard ref inverted a = Ok (u, a') ->
  isReg (reg a' (op1 i)) = true -> instr_ok a a' ref.
Proof using Hok Hp Ho1 Ho2.
  intros Hop H Hkeep. unfold itblGuard in H.
  apply abind_ok in H as (ins & s1 & [-> ->]%bufir_ok & H). fold i in H.
  apply abind_ok in H as (t0 & s2 & [_ ->]%lc_assert_ok & H).
  apply abind_ok in H as (r1 & a1 & Hal1 & H). apply abind_ok in H as (v & a2 & Hg & H).
  apply abind_ok in H as (t1 & s3 & [_ ->]%lc_assert_ok & H). apply abind_ok in H as (k & s4 & Hk & H).
  apply is32BitLiteral_spec in Hk as [-> Hk].
  destruct (first_operand _ _ Hal1) as (Ha1 & Hok1 & He1 & Hg1 & Hl2 & Hv2 & Hb2 & Hl1 & Hb1).
  destruct (info_cond inverted 0 0 ltac:(lia) ltac:(lia)) as [_ Hcc].
  destruct (guardcc_spec _ _ _ _ Hcc Hg) as (t & _ & _ & Hs). pose proof (same_ext _ _ Hs ref) as He2.
  assert (Hok2 : ra_ok a2 ref) by by apply (same_ok a1).
  assert (Hr1 : reg a2 (op1 i) = r1) by (rewrite (same_reg _ _ Hs); exact (al_reg _ _ _ _ _ Ha1)).
  assert (Hl2' : live a2 ref (op2 i)) by by apply (live_ext ref a1 a2).
  assert (Hl1' : live a2 ref (op1 i)) by by apply (live_ext ref a1 a2).
  pose proof (al_gpr _ _ _ _ _ Ha1) as Hg1'.
  assert (Hx : forall st m Sp s, agree s Sp ref st m -> live s ref (op1 i) -> reg s (op1 i) = r1 ->
            gpr m r1 = val st (op1 i)).
  { intros st m Sp s Ha Hl Hr. by apply (reg_val ref s Sp st m). }
  destruct k as [imm|].
  - destruct Hk as (Hlt & Hi & Hval). apply abind_ok in H as (t2 & s5 & [_ ->]%modify_ok & H).
    apply emit_x86i_ok in H. subst a'. set (a3 := set_mrm _ a2) in *.
    eapply (guard_instr a a1 a2 a2 _ ref (info_cc inverted) [IArithI true 7 (OMem r1 None 0) imm] v _
              (fun _ => True) (info_test inverted) id);
      [done|done|done|exact He1|exact (al_sim _ _ _ _ _ Ha1)|exact Hg|done|reflexivity|apply sim_refl
      |eapply asm_same_trans; [apply same_mrm|apply same_code]| |by apply info_exec|].
    + by apply (gmrmi_mem_emits 7 (mrm a3) imm (code a3)).
    + intros Sp st m b Hst Hb Ha. unfold info_test in Hb.
      destruct (word_at st (val st (op1 i))) as [w|] eqn:Hw; [|done]. injection Hb as <-.
      destruct (word_at_ok _ _ _ Hst Hw) as (_ & _ & Hwb & _).
      eexists. exists w, (u8 imm). split_and!.
      * cbn [exec_list exec]. by rewrite (load_flags Sp a2 st m r1 w _ Hst Ha (Hx _ _ _ _ Ha Hl1' Hr1) (so_val _ Hst _) Hw).
      * by apply set_flags_agree.
      * done.
      * rewrite <- (Hval st (proj1 Hl2') (ag_lits _ _ _ _ _ Ha)).
        apply (info_cond inverted _ _ Hwb (so_val _ Hst _)).
  - apply abind_ok in H as (r2 & a3 & Hal2 & H). apply abind_ok in H as (t2 & s5 & [_ ->]%modify_ok & H).
    apply emit_x86_ok in H. subst a'. set (a4 := set_mrm _ a3) in *.
    change (reg (set_acode _ a4) (op1 i)) with (reg a3 (op1 i)) in Hkeep.
    destruct (second_operand ref a2 a3 (op1 i) r1 (op2 i) r2) as [Ha3 Hk3]; try done.
    { by apply (value_ext ref a1 a2). }
    pose proof (al_ext _ _ _ _ _ Ha3) as He3.
    eapply (guard_instr a a1 a2 a3 _ ref (info_cc inverted) [IArith true 7 r2 (OMem r1 None 0)] v _
              _ (info_test inverted) id);
      [done|done|done|exact He1|exact (al_sim _ _ _ _ _ Ha1)|exact Hg|exact (al_ok _ _ _ _ _ Ha3)|done
      |exact (al_sim _ _ _ _ _ Ha3)|eapply asm_same_trans; [apply same_mrm|apply same_code]| |by apply info_exec|].
    + apply (arith_mem_emits (mrm a4) 7); try done. apply wide_r, is_gpr_in, (al_gpr _ _ _ _ _ Ha3).
    + intros Sp st m b Hst Hb Ha. unfold info_test in Hb.
      destruct (word_at st (val st (op1 i))) as [w|] eqn:Hw; [|done]. injection Hb as <-.
      destruct (word_at_ok _ _ _ Hst Hw) as (_ & _ & Hwb & _).
      assert (Hl1'' : live a3 ref (op1 i)) by by apply (live_ext ref a2 a3).
      eexists. exists (val st (op2 i)), w. split_and!.
      * cbn [exec_list exec].
        rewrite (load_flags Sp a3 st m r1 w _ Hst Ha (Hx _ _ _ _ Ha Hl1'' Hk3) (so_val _ Hst _) Hw).
        by rewrite (reg_val ref a3 Sp st m (op2 i) r2 Ha (proj2 (live_ext ref a2 a3 ref _ He3) Hl2')
                      (al_reg _ _ _ _ _ Ha3) (al_gpr _ _ _ _ _ Ha3)).
      * by apply set_flags_agree.
      * done.
      * rewrite (Z.eqb_sym w). apply (info_cond inverted _ _ (so_val _ Hst _) Hwb).
Qed.
End compare.

(** ** Heap checks *)

Lemma cmp_above x y :
  0 <= x < 2 ^ 64 -> 0 <= y < 2 ^ 64 -> cond CC_A x y = Some (negb (x <=? y)).
Proof using Type.
  intros Hx Hy. destruct (cond_table x y) as (_ & _ & _ & _ & _ & _ & _ & _ & C9 & _). rewrite C9.
  unfold CF, ZF. rewrite u8_zero by done. by_order.
Qed.
(** The heap check itself: the pointer is moved and compared. *)
Definition heap_test (n : Z) : list instr :=
  [ILea true RID_HP (OMem RID_HP None n); IArith true 7 RID_HP (OMem RID_ESP None HPLIM_SP_OFFS)].
Lemma heap_test_emits n c :
  0 <= n < 2 ^ 31 ->
  emits c (emit_rmro XO_LEA (Z.lor RID_HP REX_64) (Z.lor RID_HP REX_64) n
             (emit_rmro XO_CMP (Z.lor RID_HP REX_64) (Z.lor RID_ESP REX_64) HPLIM_SP_OFFS c)) (heap_test n).
Proof using Type.
  intros Hn. set (c1 := emit_rmro XO_CMP _ _ _ _).
  change (heap_test n) with ([ILea true RID_HP (OMem RID_HP None n)] ++ [IArith true 7 RID_HP (OMem RID_ESP None HPLIM_SP_OFFS)]).
  eapply emits_app; [apply cmp_mem_emits|apply lea_emits].
  - apply wide_r, gpr_hp.
  - apply as_reg_wide, wide_r, gpr_esp.
  - by vm_compute.
  - apply wide_r, gpr_hp.
  - apply as_reg_wide, wide_r, gpr_hp.
  - unfold is_i32. lia.
Qed.
Lemma heap_test_runs a Sp ref st m n :
  ra_ok a ref -> st_ok st -> agree a Sp ref st m ->
  let hp := u8 (ihp st + n) in
  exists m1 x y, exec_list (heap_test n) m = Some (Next m1) /\ agree a Sp ref (set_ihp hp st) m1
    /\ cmpd m1 = Some (x, y) /\ cond CC_A x y = Some (negb (hp <=? HL)).
Proof using Type.
  intros Hok Hst Ha hp.
  assert (Hlea : exec (ILea true RID_HP (OMem RID_HP None n)) m = Some (Next (set_gpr RID_HP hp m))).
  { cbn [exec]. unfold ea. rewrite (ag_hp _ _ _ _ _ Ha), Z.add_0_r. done. }
  set (m1 := set_gpr RID_HP hp m).
  assert (Ha1 : agree a Sp ref (set_ihp hp st) m1).
  { destruct Ha as [A1 A2 A3 A4 A5 A6 A7 A8]. split; try done.
    intros q Hl Hr. unfold m1. rewrite gpr_upd.
    destruct (Z.eqb_spec (reg a q) RID_HP) as [E|]; [|by apply A1].
    destruct (ro_reg _ _ Hok q Hl Hr) as (Hg' & _). rewrite E in Hg'. apply gpr_range in Hg'.
    change RID_HP with 12 in Hg'. lia. }
  exists (set_flags (Some (hp, HL)) m1), hp, HL. split_and!.
  - unfold heap_test. cbn [exec_list]. rewrite Hlea. cbn [exec rd]. unfold ea, rd_mem.
    destruct tf_ok as (H8 & H0 & Hmax). unfold SPILL_SP_OFFS in Hmax.
    change (gpr (set_gpr RID_HP hp m) RID_ESP) with (gpr m RID_ESP). rewrite (ag_sp _ _ _ _ _ Ha).
    change HPLIM_SP_OFFS with 0. rewrite !Z.add_0_r. unfold u8. rewrite (to_u_id 64) by lia.
    rewrite H8. cbn [Z.eqb]. destruct (ag_frame _ _ _ _ _ Ha) as (_ & HF & _).
    change HPLIM_SP_OFFS with 0 in HF. rewrite Z.add_0_r in HF.
    change (mmem (set_gpr RID_HP hp m)) with (mmem m). rewrite HF. done.
  - by apply set_flags_agree.
  - done.
  - apply cmp_above; [apply u8_bound|apply tf_words].
Qed.

Section heapcheck.
Context (a : Assembler) (ref : Z) (u : ()) (a' : Assembler).
Let i := a_ir a ref.
Hypotheses (Hok : ra_ok a (ref + 1)) (Hp : ~ placed a ref) (Hop : ir_o i = kHEAPCHK).
Lemma heap_exec : op1 i <> 0 -> forall st, ir_exec a ref st
  = do b <- Some (u8 (ihp st + 8 * op1 i) <=? HL);
    Some (if b : bool then Fall (set_ihp (u8 (ihp st + 8 * op1 i)) st)
          else Leave ref (set_ihp (u8 (ihp st + 8 * op1 i)) st)).
Proof using Hop.
  intros Hn st. unfold ir_exec. fold i. rewrite Hop. destruct (Z.eqb_spec (op1 i) 0); [lia|]. done.
Qed.
Lemma heap_nothing E : op1 i = 0 -> instr_exit E a a ref.
Proof using Hok Hp Hop.
  intros Ez. eapply (plain_exit E a a ref Some); [done| |].
  - split; [by apply lower_ok|]. split; [done|]. exists []. split; [apply emits_nil|].
    intros Sp st st' m _ _ _ [= <-] Ha. by exists m.
  - intros st _. unfold ir_exec. fold i. rewrite Hop. by rewrite Ez.
Qed.
(** From the branch [a1] on: the test in front of it. *)
Lemma heap_guard E a1 t c :
  op1 i <> 0 -> E t -> emits (code a) (code a1) [IJcc CC_A t] -> same a a1 ->
  c = emit_rmro XO_LEA (Z.lor RID_HP REX_64) (Z.lor RID_HP REX_64) (8 * op1 i)
        (emit_rmro XO_CMP (Z.lor RID_HP REX_64) (Z.lor RID_ESP REX_64) HPLIM_SP_OFFS (code a1)) ->
  instr_exit E a (set_acode c a1) ref /\ emits (code a) c (heap_test (8 * op1 i) ++ [IJcc CC_A t]).
Proof using Hok Hp Hop.
  intros Hn Ht Em Hs ->. pose proof (op_u16 i) as [Hb _]. pose proof (lower_ok _ _ Hok Hp) as Hok0.
  pose proof (heap_test_emits (8 * op1 i) (code a1) ltac:(lia)) as Em2. split; [|by eapply emits_app].
  eapply (guard_exit E a a a1 a1 _ ref CC_A t (heap_test (8 * op1 i)) (fun _ => True) (fun _ => True)
            (fun st => Some (u8 (ihp st + 8 * op1 i) <=? HL)) (fun st => set_ihp (u8 (ihp st + 8 * op1 i)) st));
    [done|done|reflexivity|apply sim_refl|done|done|done|by apply (same_ok a)|reflexivity|apply sim_refl
    |apply same_code|exact Em2|by apply heap_exec|].
  intros Sp st m b Hst [= <-] Ha. apply heap_test_runs; [by apply (same_ok a)|done|done].
Qed.

Lemma heapCheck_spec :
  (op1 i <> 0 -> mcQuickHeapCheck (area a) = 0) -> heapCheck ref a = Ok (u, a') -> instr_ok a a' ref.
Proof using Hok Hp Hop.
  intros Hq H. unfold heapCheck in H. apply abind_ok in H as (ins & s1 & [-> ->]%bufir_ok & H). fold i in H.
  destruct (Z.eqb_spec (8 * op1 i) 0) as [Ez|Hnz]; [inv_asm; apply heap_nothing; lia|].
  apply abind_ok in H as (s & s1 & [-> ->]%get_ok & H). rewrite Hq in H by lia. cbn [Z.eqb negb] in H.
  apply abind_ok in H as (v & a1 & Hg & H). inv_asm. unfold adjustHeapPointer in H. inv_asm.
  destruct (guardcc_spec CC_A _ _ _ ltac:(by vm_compute) Hg) as (t & Ht & Em & Hs).
  by apply (heap_guard _ a1 t _ ltac:(lia) Ht Em Hs).
Qed.
End heapcheck.
End machine.
