(* ===== verification/AsmMem.v ===== *)
(** * The code of allocations and updates

    Stores to words of the heap; an allocation writes its info pointer
    and fields below the heap pointer and defines the address. *)

From S2P Require Import Prelude Words Hotness IR.
From S2P Require Import IRInv.
From S2P Require Import Registers X86 X86Sem X86Proofs AsmState.
From S2P Require Import AsmInv.
From S2P Require Import AsmAlloc.
From S2P Require Import AsmSelect.
From S2P Require Import AsmSem.
From S2P Require Import AsmSim AsmInstr.
Import RegSetProofs.

Section machine.
Context {TF : TraceFrame} {RA : RuntimeAddrs}.
Abbreviation B := tf_base.
Abbreviation SP := tf_sp.
Abbreviation HL := tf_hplim.
Abbreviation SL := tf_splim.

(** ** Effects one after the other *)

Definition keeps_ok (f : irstate -> option irstate) : Prop :=
  forall st st', st_ok st -> f st = Some st' -> st_ok st'.

Lemma runs_ext n a a' f g : (forall st, st_ok st -> g st = f st) -> runs n a a' f -> runs n a a' g.
Proof using Type.
  intros E (H1 & H2 & l & Em & H). split; [done|]. split; [done|]. exists l. split; [done|].
  intros Sp st st' m Hsl Hc Hst Hg Ha. rewrite E in Hg by done. by apply (H Sp st st' m).
Qed.
Lemma runs_comp n a a1 a2 f1 f2 :
  runs n a a1 f2 -> runs n a1 a2 f1 -> keeps_ok f1 -> runs n a a2 (fun st => do st <- f1 st; f2 st).
Proof using Type.
  intros (O1 & E1 & l1 & Em1 & H1) (O2 & E2 & l2 & Em2 & H2) Hk. split; [done|].
  split; [by etransitivity|]. exists (l2 ++ l1). split; [by eapply emits_app|].
  intros Sp st st' m Hsl Hc Hst Hf Ha. destruct (f1 st) as [st1|] eqn:Hf1; [|done].
  destruct (H2 Sp st st1 m Hsl Hc Hst Hf1 Ha) as (m1 & X1 & A1).
  destruct (H1 Sp st1 st' m1 Hsl (covers_ext _ _ _ _ E2 Hc) (Hk _ _ Hst Hf1) Hf A1) as (m2 & X2 & A2).
  exists m2. split; [|done]. by rewrite exec_list_app, X1.
Qed.
Lemma runs_sim n a a1 a2 K f :
  ext n a a1 -> sim n a a1 K -> runs n a1 a2 f -> runs n a a2 f.
Proof using Type.
  intros E1 (l1 & Em1 & H1) (O2 & E2 & l2 & Em2 & H2). split; [done|].
  split; [by etransitivity|]. exists (l2 ++ l1). split; [by eapply emits_app|].
  intros Sp st st' m Hsl Hc Hst Hf Ha. destruct (H2 Sp st st' m Hsl Hc Hst Hf Ha) as (m1 & X1 & A1).
  destruct (H1 Sp st' m1 (covers_ext _ _ _ _ E2 Hc) A1) as (m2 & X2 & A2 & _).
  exists m2. split; [|done]. by rewrite exec_list_app, X1.
Qed.

(** ** Stores *)

Lemma store_mem_agree a Sp n st m x v :
  slots_ok Sp -> ~ in_frame x -> agree a Sp n st m -> agree a Sp n (set_imem x v st) (set_mem x v m).
Proof using Type.
  intros [Hb _] Hx [A1 A2 A3 A4 A5 A6 A7 A8]. destruct tf_ok as (_ & H0 & Hmax). unfold in_frame, slot_addr in Hx.
  assert (Hslot : forall s, 0 <= s < 256 -> (slot_addr s =? x) = false).
  { intros s Hs. apply Z.eqb_neq. unfold slot_addr, SPILL_SP_OFFS in *. lia. }
  assert (Hfr : forall k, 0 <= k <= 8 -> (SP + k =? x) = false).
  { intros k Hk. apply Z.eqb_neq. unfold SPILL_SP_OFFS in *. lia. }
  split; try done.
  - intros q Hq Hs. cbn. unfold upd. rewrite Hslot by done. by apply A2.
  - intros y Hy. cbn. unfold upd. destruct (y =? x); [done|]. by apply A6.
  - destruct A7 as (F1 & F2 & F3). unfold HPLIM_SP_OFFS, SPLIM_SP_OFFS in *. cbn. unfold upd. split_and!.
    + intros s Hs. rewrite Hslot by done. by apply F1.
    + by rewrite Hfr by lia.
    + by rewrite Hfr by lia.
Qed.

(** The effect of one store. *)
Lemma store_exec a Sp n st st' m base ofs x v op :
  st_ok st -> slots_ok Sp -> agree a Sp n st m -> gpr m base = x -> 0 <= v < 2 ^ 64 ->
  put_word (u8 (x + ofs)) v st = Some st' ->
  exec op m = (do m' <- wr true m (OMem base None ofs) v; Some (Next m')) ->
  exists m', exec op m = Some (Next m') /\ agree a Sp n st' m'.
Proof using Type.
  intros Hst Hsl Ha Hx Hv Hput Hop. destruct (put_word_ok _ _ _ _ Hst Hv Hput) as (_ & -> & Hal & [w Hw] & Hf).
  exists (set_mem (u8 (x + ofs)) v m). split; [|by apply store_mem_agree].
  rewrite Hop. cbn [wr]. unfold ea, rd_mem. rewrite Hx, Z.add_0_r, (proj2 (Z.eqb_eq _ _)) by done.
  by rewrite (ag_mem _ _ _ _ _ Ha _ Hf), Hw.
Qed.

Lemma alloc1_keeps n a q allow r a' p rp :
  ra_ok a n -> allows allow -> live a n q -> q <> REF_BASE -> value_ref a q -> alloc1 q allow a = Ok (r, a') ->
  live a n p -> reg a p = rp -> in_gpr rp -> RegSet.test allow rp = false -> reg a' p = rp.
Proof using TF.
  intros Hok Hal Hl Hb Hv H Hlp <- Hg Ht.
  destruct (alloc1_spec _ _ _ _ _ _ Hok Hal Hl Hb Hv H) as (Ha & Hn & Hs).
  destruct (isReg (reg a q)) eqn:Hr; [by rewrite Hs|].
  apply (alloced_keeps n a a' q r p); try done; [by apply isReg_gpr|].
  intros E. specialize (Hn eq_refl). rewrite <- E in Hn. congruence.
Qed.

(** [memstore]: a constant, or a register. *)
Lemma memstore_cases base ofs q allow a u a' :
  operand_ok a 65536 q = true -> memstore base ofs q allow a = Ok (u, a') ->
  (exists i, is_i32 i /\ (forall st, literals_ok a st -> val st q = u8 i)
     /\ a' = set_acode (storei_u64 base ofs i (code a)) a)
  \/ exists r a1, alloc1 q allow a = Ok (r, a1) /\ a' = set_acode (store_u64 base ofs r (code a1)) a1.
Proof using TF.
  intros Ho H. destruct (operand_ok_spec _ _ _ Ho) as (Hl & _). unfold memstore in H.
  apply abind_ok in H as (k & s & Hk & H).
  assert (Hk' : s = a /\ match k with
            | Some i => is_i32 i /\ forall st, literals_ok a st -> val st q = u8 i | None => True end).
  { destruct (irref_islit q); [|by inv_asm]. apply is32BitLiteral_spec in Hk as [-> Hk]. split; [done|].
    destruct k; [|done]. destruct Hk as (_ & ? & Hx). split; [done|]. intros st. apply Hx, Hl. }
  clear Hk. destruct Hk' as [-> Hk]. destruct k as [i|].
  - destruct Hk as [Hi Hlit]. inv_asm. left. by exists i.
  - right. apply abind_ok in H as (r & a1 & Hal & H). inv_asm. by exists r, a1.
Qed.
Lemma operand_more a n n' q : n <= n' -> operand_ok a n q = true -> operand_ok a n' q = true.
Proof using Type. unfold operand_ok. rewrite !andb_true_iff, !Z.ltb_lt. intros Hn [[[? ?] ?] ?]. split_and!; try done. lia. Qed.

Section memstore.
Context (n : Z) (a : Assembler) (base ofs q allow : Z) (u : ()) (a' : Assembler).
Hypotheses (Hok : ra_ok a n) (Hal : allows allow) (Ho : operand_ok a n q = true)
  (Hm : memstore base ofs q allow a = Ok (u, a')).

Lemma memstore_more : operand_ok a 65536 q = true.
Proof using Hok Ho. eapply operand_more; [|exact Ho]. pose proof (ro_bounds _ _ Hok). lia. Qed.
Lemma memstore_ok : ra_ok a' n /\ ext n a a'.
Proof using TF Hok Hal Ho Hm.
  destruct (operand_ok_spec _ _ _ Ho) as (Hl & Hb & Hv).
  destruct (memstore_cases _ _ _ _ _ _ _ memstore_more Hm) as [(i & _ & _ & ->)|(r & a1 & Hal1 & ->)].
  - split; [by apply (same_ok a)|by apply same_ext].
  - destruct (alloc1_spec _ _ _ _ _ _ Hok Hal Hl Hb Hv Hal1) as (Ha1 & _).
    split; [apply (same_ok a1); [done|exact (al_ok _ _ _ _ _ Ha1)]|].
    etransitivity; [exact (al_ext _ _ _ _ _ Ha1)|by apply same_ext].
Qed.
Lemma memstore_keeps p r :
  live a n p -> reg a p = r -> in_gpr r -> RegSet.test allow r = false -> reg a' p = r.
Proof using TF Hok Hal Ho Hm.
  intros Hlp Hr Hg Ht. destruct (operand_ok_spec _ _ _ Ho) as (Hl & Hb & Hv).
  destruct (memstore_cases _ _ _ _ _ _ _ memstore_more Hm) as [(i & _ & _ & ->)|(r' & a1 & Hal1 & ->)]; [done|].
  by apply (alloc1_keeps n a q allow r' a1 p r).
Qed.
Lemma memstore_runs addr :
  is_gpr base -> is_i32 ofs -> (forall Sp st m, agree a' Sp n st m -> gpr m base = addr st) ->
  runs n a a' (fun st => put_word (u8 (addr st + ofs)) (val st q) st).
Proof using TF Hok Hal Ho Hm.
  intros Hg Hofs Haddr. destruct (operand_ok_spec _ _ _ Ho) as (Hl & Hb & Hv).
  destruct (memstore_cases _ _ _ _ _ _ _ memstore_more Hm) as [(i & Hi & Hlit & E)|(r & a1 & Hal1 & E)].
  - rewrite E in *. split; [by apply (same_ok a)|].
    split; [by apply same_ext|]. eexists. split; [by apply storei_emits|].
    intros Sp st st' m Hsl Hc Hst Hf Ha. pose proof Ha as Ha0. apply (same_agree a) in Ha; [|done].
    destruct (store_exec a Sp n st st' m base ofs (addr st) (u8 i) (IMovMI true (OMem base None ofs) i)) as (m' & X & A);
      try done; [by apply (Haddr Sp)|apply u8_bound|by rewrite <- (Hlit st (ag_lits _ _ _ _ _ Ha))|].
    exists m'. cbn [exec_list]. by rewrite X.
  - rewrite E in *. destruct (alloc1_spec _ _ _ _ _ _ Hok Hal Hl Hb Hv Hal1) as (Ha1 & _).
    pose proof (al_ok _ _ _ _ _ Ha1) as Hok1. pose proof (al_ext _ _ _ _ _ Ha1) as He1.
    pose proof (al_gpr _ _ _ _ _ Ha1) as Hgr.
    eapply (runs_sim n a a1 _ _ _ He1 (al_sim _ _ _ _ _ Ha1)). split; [by apply (same_ok a1)|].
    split; [by apply same_ext|]. eexists. split; [by apply store_emits; [apply is_gpr_in|..]|].
    intros Sp st st' m Hsl Hc Hst Hf Ha. pose proof Ha as Ha0. apply (same_agree a1) in Ha; [|done].
    assert (Hr : gpr m r = val st q).
    { apply (reg_val n a1 Sp st m q r); try done; [by apply (live_ext n a a1)|exact (al_reg _ _ _ _ _ Ha1)]. }
    destruct (store_exec a1 Sp n st st' m base ofs (addr st) (val st q) (IMovMR true (OMem base None ofs) r)) as (m' & X & A);
      try done; [by apply (Haddr Sp)|apply (so_val _ Hst)|cbn [exec]; by rewrite Hr|].
    exists m'. cbn [exec_list]. by rewrite X.
Qed.
End memstore.

Lemma put_val_ok x q : keeps_ok (fun st => put_word (x st) (val st q) st).
Proof using Type. intros st st' Hst Hf. by apply (put_word_ok _ _ _ _ Hst (so_val _ Hst q)) in Hf as (? & _). Qed.

(** ** Updates *)

Lemma insUpdate_spec a ref u a' :
  ra_ok a (ref + 1) -> ~ placed a ref -> ir_o (a_ir a ref) = kUPDATE ->
  operand_ok a ref (op1 (a_ir a ref)) = true -> operand_ok a ref (op2 (a_ir a ref)) = true ->
  operand_ok a ref REF_IND = true -> insUpdate ref a = Ok (u, a') -> instr_ok a a' ref.
Proof using TF.
  intros Hok Hp Hop Ho1 Ho2 Ho3 H. pose proof (lower_ok _ _ Hok Hp) as Hok0. unfold insUpdate in H.
  apply abind_ok in H as (ins & s1 & [-> ->]%bufir_ok & H). set (i := a_ir a ref) in *.
  apply abind_ok in H as (r & a1 & Hal1 & H). apply abind_ok in H as (t & a2 & Hm1 & Hm2).
  destruct (operand_ok_spec _ _ _ Ho1) as (Hl1 & Hb1 & Hv1).
  destruct (alloc1_spec _ _ _ _ _ _ Hok0 allows_kGPR Hl1 Hb1 Hv1 Hal1) as (Ha1 & _).
  pose proof (al_ok _ _ _ _ _ Ha1) as Hok1. pose proof (al_ext _ _ _ _ _ Ha1) as He1.
  pose proof (al_gpr _ _ _ _ _ Ha1) as Hg. pose proof (is_gpr_in _ Hg) as Hgr. pose proof (gpr_range _ Hg) as Hrr.
  assert (Hall : allows (RegSet.exclude kGPR r)) by (apply allows_clear; [apply allows_kGPR|lia]).
  assert (Ht : RegSet.test (RegSet.exclude kGPR r) r = false) by (apply test_clear; lia).
  pose proof (al_reg _ _ _ _ _ Ha1) as Hr1.
  assert (Hl : live a1 ref (op1 i)) by by apply (live_ext ref a a1).
  assert (Ho2' : operand_ok a1 ref (op2 i) = true) by by rewrite (operand_ok_ext ref a a1).
  destruct (memstore_ok ref a1 r 8 _ _ t a2 Hok1 Hall Ho2' Hm1) as [Hok2 He2].
  assert (Ho3' : operand_ok a2 ref REF_IND = true) by (rewrite (operand_ok_ext ref a1 a2), (operand_ok_ext ref a a1); done).
  pose proof (memstore_keeps ref a1 r 8 _ _ t a2 Hok1 Hall Ho2' Hm1 _ r Hl Hr1 Hg Ht) as Hr2.
  assert (Hl2 : live a2 ref (op1 i)) by by apply (live_ext ref a1 a2).
  pose proof (memstore_keeps ref a2 r 0 _ _ u a' Hok2 Hall Ho3' Hm2 _ r Hl2 Hr2 Hg Ht) as Hr3.
  destruct (memstore_ok ref a2 r 0 _ _ u a' Hok2 Hall Ho3' Hm2) as [Hok3 He3].
  assert (Hl3 : live a' ref (op1 i)) by by apply (live_ext ref a2 a').
  pose proof (memstore_runs ref a1 r 8 _ _ t a2 Hok1 Hall Ho2' Hm1 (fun st => val st (op1 i)) Hgr ltac:(done)
                (fun Sp st m Ha => reg_val ref a2 Sp st m _ r Ha Hl2 Hr2 Hg)) as R1.
  pose proof (memstore_runs ref a2 r 0 _ _ u a' Hok2 Hall Ho3' Hm2 (fun st => val st (op1 i)) Hgr ltac:(done)
                (fun Sp st m Ha => reg_val ref a' Sp st m _ r Ha Hl3 Hr3 Hg)) as R2.
  pose proof (runs_comp _ _ _ _ _ _ R1 R2 (put_val_ok _ _)) as R.
  pose proof (runs_sim _ _ _ _ _ _ He1 (al_sim _ _ _ _ _ Ha1) R) as R'. clear R R1 R2.
  eapply plain_instr; [done|exact R'|]. intros st Hst. unfold ir_exec. fold i. rewrite Hop, Z.add_0_r.
  replace (u8 (val st (op1 i))) with (val st (op1 i)).
  2: { symmetry. apply (to_u_id 64), (so_val _ Hst). }
  destruct (put_word (val st (op1 i)) _ st) as [st1|] eqn:E; [|done].
  apply (put_word_ok _ _ _ _ Hst (so_val _ Hst REF_IND)) in E as (_ & -> & _). done.
Qed.

(** ** Allocations *)

Lemma put_fields_app st x l1 l2 :
  put_fields st x (l1 ++ l2) = do st1 <- put_fields st x l1; put_fields st1 (x + 8 * Z.of_nat (length l1)) l2.
Proof using Type.
  revert st x. induction l1 as [|r l1 IH]; intros st x; cbn [put_fields app length].
  { f_equal. lia. }
  destruct (put_word _ _ st) as [st1|]; [|done]. rewrite IH. destruct (put_fields st1 _ l1); [|done].
  f_equal. lia.
Qed.
Lemma fields_of_S h eid n r : getField h eid (Z.of_nat n) = Ok r -> fields_of h eid (S n) = fields_of h eid n ++ [r].
Proof using Type. intros H. unfold fields_of. rewrite seq_S, map_app. cbn. by rewrite H. Qed.
Lemma fields_length h eid n : length (fields_of h eid n) = n.
Proof using Type. unfold fields_of. by rewrite length_map, length_seq. Qed.
Lemma put_fields_keeps x refs : keeps_ok (fun st => put_fields st (x st) refs).
Proof using Type. intros st st' Hst Hf. by apply (put_fields_ok _ _ _ _ Hst) in Hf as (? & _). Qed.

Lemma hp_reg Sp n st m a : agree a Sp n st m -> gpr m RID_HP = ihp st.
Proof using Type. apply ag_hp. Qed.

Lemma init_fields_runs n eid ofs i a u a' :
  ra_ok a n -> forallb (operand_ok a n) (fields_of (b_heap (abuf a)) eid i) = true ->
  (forall k, 0 <= k < Z.of_nat i -> is_i32 (8 * (ofs + 1 + k))) ->
  init_fields eid ofs i a = Ok (u, a') ->
  runs n a a' (fun st => put_fields st (ihp st + 8 * (ofs + 1)) (fields_of (b_heap (abuf a)) eid i)).
Proof using TF.
  revert a u. induction i as [|i IH]; intros a u Hok Hf Hi H; cbn [init_fields] in H.
  { inv_asm. split; [done|]. split; [done|]. exists []. split; [apply emits_nil|].
    intros Sp st st' m _ _ _ [= <-] Ha. by exists m. }
  apply abind_ok in H as (s & s1 & [-> ->]%get_ok & H). apply abind_ok in H as (r & s2 & [Hr ->]%alift_ok & H).
  apply abind_ok in H as (t & a1 & Hm & H). rewrite (fields_of_S _ _ _ _ Hr) in *.
  rewrite forallb_app in Hf. apply andb_true_iff in Hf as [Hf Hlast]. cbn in Hlast. rewrite andb_true_r in Hlast.
  destruct (memstore_ok n a _ _ _ _ _ _ Hok allows_kGPR Hlast Hm) as [Hok1 He1].
  destruct (erase_buf _ _ (ex_erase _ _ _ He1)) as (_ & Hh & _).
  assert (Hf1 : forallb (operand_ok a1 n) (fields_of (b_heap (abuf a1)) eid i) = true).
  { rewrite Hh. rewrite forallb_forall in Hf |- *. intros q Hq. rewrite (operand_ok_ext n a a1) by done. auto. }
  assert (R2 := IH a1 u Hok1 Hf1 ltac:(intros k Hk; apply Hi; lia) H). rewrite Hh in R2.
  pose proof (memstore_runs n a _ _ _ _ _ _ Hok allows_kGPR Hlast Hm ihp gpr_hp (Hi (Z.of_nat i) ltac:(lia))
     (fun Sp st m Ha => ag_hp _ _ _ _ _ Ha)) as R1.
  pose proof (runs_comp _ _ _ _ _ _ R1 R2 (put_fields_keeps _ _)) as R.
  eapply runs_ext; [|exact R]. intros st Hst. cbn beta. rewrite put_fields_app, fields_length. cbn [put_fields].
  destruct (put_fields st _ _) as [st1|] eqn:E; [|done]. destruct (put_fields_ok _ _ _ _ Hst E) as (_ & _ & ->).
  replace (ihp st + 8 * (ofs + 1) + 8 * Z.of_nat i) with (ihp st + 8 * (ofs + 1 + Z.of_nat i)) by lia.
  by destruct (put_word _ _ st1).
Qed.

(** What [NEW] needs of its entry in the abstract heap. *)
Definition new_ok (a : Assembler) (ref : Z) : bool :=
  let i := a_ir a ref in
  let h := b_heap (abuf a) in
  operand_ok a ref (op1 i)
  && match AbstractHeap.entry h (op2 i) with
     | Ok e => forallb (operand_ok a ref) (fields_of h (op2 i) (Z.to_nat (he_size e)))
               && (0 <=? he_size e) && (- 2 ^ 16 <=? he_hpofs e) && (he_hpofs e + he_size e <=? 2 ^ 16)
     | Err _ => false
     end.

(** The fields are stored before the address is taken. *)
Lemma new_ok_ext k a a' ref : ext k a a' -> new_ok a' ref = new_ok a ref.
Proof using Type.
  intros He. unfold new_ok. destruct (op_ext _ _ _ ref He) as (_ & -> & ->).
  rewrite (proj1 (proj2 (erase_buf _ _ (ex_erase _ _ _ He)))), (operand_ok_ext k a a') by done.
  f_equal. destruct (AbstractHeap.entry _ _) as [e|]; [|done]. do 3 f_equal.
  induction (fields_of _ _ _) as [|q l IH]; [done|]. cbn [forallb]. by rewrite (operand_ok_ext k a a'), IH.
Qed.
Lemma new_instr a a1 a2 a' ref dest allow f g :
  REF_FIRST <= ref -> defines a a1 ref dest allow -> value_code ref a1 a2 dest f -> runs ref a2 a' g -> keeps_ok g ->
  (forall st, st_ok st -> ir_exec a ref st = do st1 <- g st; do v <- f st1; Some (Fall (set_val ref v st1))) ->
  instr_ok a a' ref.
Proof using Type.
  intros Hb Hd (Hok2 & He2 & l & Em & Hl) (Hok' & He' & lg & Eg & Hg) Hk Hir.
  destruct Hd as [D1 D2 D3 D4 D5 D6 D7 D8 D9 (ld & Ed & Hld)].
  assert (He : ext ref a1 a') by by etransitivity.
  split; [done|by etransitivity; [|eapply ext_weaken; [|exact He]; lia]|].
  exists (lg ++ l ++ ld). split; [eapply emits_app; [|exact Eg]; by eapply emits_app|].
  intros Sp st m r Hsl Hc Hsp Hst Hr Ha. rewrite Hir in Hr by done. destruct (g st) as [st1|] eqn:Hgs; [|done].
  destruct (f st1) as [v|] eqn:Hv; [|done]. injection Hr as <-.
  destruct (Hg Sp st st1 m Hsl Hc Hst Hgs Ha) as (m1 & X1 & A1).
  destruct (Hl Sp st1 m1 v (covers_ext _ _ _ _ He' Hc) (Hk _ _ Hst Hgs) Hv A1) as (m2 & X2 & A2 & G2).
  destruct (Hld Sp (set_val ref v st1) m2) as (m3 & X3 & A3); [done|by eapply covers_ext| | | |].
  - rewrite Hsp. unfold spl. by rewrite (ex_above _ _ _ He) by lia.
  - apply agree_set_val; [lia|unfold REF_FIRST in *; lia|done].
  - rewrite G2. cbn. unfold upd. by rewrite Z.eqb_refl.
  - exists m3. rewrite exec_list_app, X1, exec_list_app, X2. done.
Qed.

Lemma insNew_spec a ref u a' :
  ra_ok a (ref + 1) -> REF_FIRST <= ref -> live a (ref + 1) ref -> ir_o (a_ir a ref) = kNEW ->
  new_ok a ref = true -> insNew ref a = Ok (u, a') -> instr_ok a a' ref.
Proof using TF.
  intros Hok Hfirst Hlref Hop Hnew H. unfold insNew in H.
  apply abind_ok in H as (ins & s1 & [-> ->]%bufir_ok & H). set (i := a_ir a ref) in *.
  apply abind_ok in H as (s & s2 & [-> ->]%get_ok & H). apply abind_ok in H as (e & s3 & [He ->]%alift_ok & H).
  apply abind_ok in H as (t & s4 & [_ ->]%lc_assert_ok & H). apply abind_ok in H as (dest & a1 & Hdest & H).
  assert (Hvr : value_ref a ref) by (unfold value_ref; fold i; by rewrite Hop).
  destruct (dest_parts _ _ _ _ Hok Hfirst Hlref Hvr Hdest) as (Hd & Hok1 & Hg & Hf).
  apply abind_ok in H as (t2 & a2 & [_ ->]%modify_ok & H). set (a2 := set_acode _ a1) in *.
  apply abind_ok in H as (t3 & a3 & Hfields & Hm).
  unfold new_ok in Hnew. fold i in Hnew. rewrite He in Hnew. rewrite !andb_true_iff, !Z.leb_le in Hnew.
  destruct Hnew as [Ho1 [[[Hfs Hsz] Hofs1] Hofs2]].
  pose proof (df_ext _ _ _ _ _ Hd) as He1. assert (Hok2 : ra_ok a2 ref) by by apply (same_ok a1).
  assert (He2 : ext ref a1 a2) by by apply same_ext.
  assert (He12 : ext (ref + 1) a a2) by (etransitivity; [exact He1|eapply ext_weaken; [|exact He2]; lia]).
  destruct (erase_buf _ _ (ex_erase _ _ _ He12)) as (_ & Hh & _).
  assert (R2 : runs ref a2 a3 (fun st => put_fields st (ihp st + 8 * (he_hpofs e + 1))
                 (fields_of (b_heap (abuf a)) (op2 i) (Z.to_nat (he_size e))))).
  { rewrite <- Hh. eapply (init_fields_runs ref); [done| | |exact Hfields].
    - rewrite Hh. rewrite forallb_forall in Hfs |- *. intros q Hq. rewrite (operand_ok_ext (ref + 1) a a2) by done. auto.
    - intros k Hk. unfold is_i32. lia. }
  destruct R2 as (Hok3 & He3 & R2). pose proof (conj Hok3 (conj He3 R2) : runs _ _ _ _) as R2'. clear R2.
  assert (Ho1' : operand_ok a3 ref (op1 i) = true) by by rewrite (operand_ok_ext ref a2 a3), (operand_ok_ext (ref + 1) a a2).
  pose proof (memstore_runs ref a3 _ _ _ _ _ _ Hok3 allows_kGPR Ho1' Hm ihp gpr_hp
                ltac:(unfold is_i32; lia) (fun Sp st m Ha => ag_hp _ _ _ _ _ Ha)) as R1.
  pose proof (runs_comp _ _ _ _ _ _ R2' R1 (put_val_ok _ _)) as R. clear R1 R2'.
  eapply (new_instr a a1 a2 a' ref dest kGPR (fun st => Some (u8 (ihp st + 8 * he_hpofs e)))); [done|exact Hd| |exact R| |].
  - eapply value_one; [done|exact (df_gpr _ _ _ _ _ Hd)|done| |].
    + apply lea_emits; [by apply wide_r|apply as_reg_wide, wide_r, gpr_hp|unfold is_i32; lia].
    + intros Sp st m v _ [= <-] Ha. exists (cmpd m). cbn [exec]. unfold ea.
      by rewrite (ag_hp _ _ _ _ _ Ha), Z.add_0_r.
  - intros st st' Hst. cbn. destruct (put_word _ _ st) as [st1|] eqn:E; [|done]. intros Hf2.
    apply (put_val_ok (fun _ => u8 (ihp st + 8 * he_hpofs e)) (op1 i) st) in E; [|done].
    by apply (put_fields_ok _ _ _ _ E) in Hf2 as (? & _).
  - intros st Hst. unfold ir_exec, ir_new. fold i. rewrite Hop, He. cbn [put_fields].
    destruct (put_word _ _ st) as [st1|] eqn:E; [|done].
    apply (put_word_ok _ _ _ _ Hst (so_val _ Hst _)) in E as (Hst1 & E & _).
    assert (Hi : ihp st1 = ihp st) by by rewrite E. rewrite Hi.
    replace (ihp st + 8 * (he_hpofs e + 1)) with (ihp st + 8 * he_hpofs e + 8) by lia.
    destruct (put_fields st1 _ _) as [st2|] eqn:E2; [|done].
    destruct (put_fields_ok _ _ _ _ Hst1 E2) as (_ & _ & ->). by rewrite Hi.
Qed.
End machine.
