(* ===== verification/AsmDiv.v ===== *)
(** * The code of divisions

    [idiv] divides RDX:RAX; both registers are cleared of other values
    first. *)

From S2P Require Import Prelude Words Hotness IR.
From S2P Require Import IRInv.
From S2P Require Import Registers X86 X86Sem X86Proofs AsmState.
From S2P Require Import AsmInv.
From S2P Require Import AsmAlloc.
From S2P Require Import AsmSelect.
From S2P Require Import AsmSem.
From S2P Require Import AsmSim AsmInstr.
Import RegSetProofs.

Lemma test_fromReg r q : 0 <= r < 32 -> 0 <= q -> RegSet.test (RegSet.fromReg r) q = (q =? r).
Proof.
  intros Hr Hq. change (RegSet.fromReg r) with (RegSet.include 0 r). rewrite test_include by done.
  rewrite test_testbit by done. by rewrite Z.testbit_0_l.
Qed.
Lemma empty_intro s : 0 <= s -> (forall q, 0 <= q -> RegSet.test s q = false) -> RegSet.isEmpty s = true.
Proof.
  intros Hs H. destruct (RegSet.isEmpty s) eqn:E; [done|]. destruct (not_empty s Hs E) as (q & Hq & Ht).
  rewrite H in Ht by done. done.
Qed.
Lemma kGPR_pos : 0 <= kGPR.
Proof. by vm_compute. Qed.

(** Loops over no register and over one. *)
Lemma for_regs_none k w f a : RegSet.isEmpty w = true -> for_regs (S k) w f a = Ok (tt, a).
Proof. cbn [for_regs]. by intros ->. Qed.
Lemma for_regs_one k w f a x a' :
  RegSet.isEmpty w = false -> RegSet.isEmpty (RegSet.clear w (RegSet.pickBot w)) = true ->
  for_regs (S (S k)) w f a = Ok (x, a') -> f (RegSet.pickBot w) a = Ok (tt, a').
Proof.
  cbn [for_regs]. intros -> ->. intros H. apply abind_ok in H as ([] & a1 & H & E).
  by apply aret_ok in E as [_ ->].
Qed.
Lemma regs_fuel_eq : regs_fuel = S (S 31).
Proof. done. Qed.

Section machine.
Context {TF : TraceFrame} {RA : RuntimeAddrs}.
Abbreviation B := tf_base.
Abbreviation SP := tf_sp.
Abbreviation HL := tf_hplim.
Abbreviation SL := tf_splim.

(** The set [evictSet] of one register works on. *)
Lemma evict_work a r q :
  in_gpr r -> 0 <= q -> (forall x, 0 <= x -> free a x = true -> in_gpr x) ->
  RegSet.test (RegSet.intersect (RegSet.intersect (RegSet.fromReg r) (RegSet.complement (freeset (ra a)))) kGPR) q
  = (q =? r) && negb (free a r).
Proof using Type.
  intros Hg Hq Hf. pose proof (gpr_range _ Hg). rewrite !test_intersect, test_fromReg by lia.
  destruct (Z.eqb_spec q r) as [->|]; [|done]. rewrite test_complement by lia. cbn [andb]. destruct Hg as [_ ->].
  by rewrite andb_true_r.
Qed.

Lemma clear_one w r b :
  0 <= w -> 0 <= r < 32 -> (forall q, 0 <= q -> RegSet.test w q = (q =? r) && b) ->
  RegSet.isEmpty (RegSet.clear w r) = true.
Proof using Type.
  intros Hw0 Hr Hw. apply empty_intro; [apply Z.land_nonneg; by left|]. intros q Hq.
  destruct (Z.ltb_spec q 32) as [Hlt|Hge].
  - unfold RegSet.clear. rewrite test_exclude, Hw by lia. destruct (q =? r); [|done]. apply andb_false_r.
  - unfold RegSet.clear, RegSet.exclude. rewrite test_testbit, Z.land_spec by done.
    rewrite <- (test_testbit w), Hw by done. by rewrite (proj2 (Z.eqb_neq q r)) by lia.
Qed.
Lemma restore_owner n a r r' a' :
  ra_ok a n -> in_gpr r -> free a r = false -> restoreReg (owner a r) a = Ok (r', a') -> pickable n a a' r.
Proof using Type.
  intros Hok Hg Hf Hres. destruct (ro_used _ _ Hok r Hg Hf) as [Hl Ho].
  assert (Hrr : isReg (reg a (owner a r)) = true) by (rewrite Ho; by apply isReg_gpr).
  destruct (ro_reg _ _ Hok _ Hl Hrr) as (_ & _ & _ & Hb).
  destruct (restore_freed n a (owner a r) r' a' Hok Hl Hb Hrr Hres) as (-> & _ & Hfr).
  rewrite Ho in Hfr. by apply freed_pickable.
Qed.
(** The body of [evictSet]. *)
Definition evict_owner (r : Z) : M () :=
  let* a := get in restoreReg (RegCost.ref (a_cost a r));* aret tt.
Lemma evict_loop n a r u a' work :
  ra_ok a n -> in_gpr r -> 0 <= work ->
  (forall q, 0 <= q -> RegSet.test work q = (q =? r) && negb (free a r)) ->
  for_regs regs_fuel work evict_owner a = Ok (u, a') -> pickable n a a' r.
Proof using TF.
  intros Hok Hg Hw0 Hw H. pose proof (gpr_range _ Hg) as Hr. destruct (free a r) eqn:Hf.
  - assert (He : RegSet.isEmpty work = true).
    { apply empty_intro; [done|]. intros q Hq. rewrite Hw by done. apply andb_false_r. }
    rewrite regs_fuel_eq, for_regs_none in H by done. injection H as _ <-. apply pickable_free; [done|lia|done].
  - assert (Hne : RegSet.isEmpty work = false).
    { destruct (RegSet.isEmpty work) eqn:E; [|done]. pose proof (isEmpty_spec _ r E) as Ht.
      rewrite Hw, Z.eqb_refl in Ht by lia. done. }
    destruct (pickBot_spec work Hw0 Hne) as [Hp0 Hp].
    assert (Hpick : RegSet.pickBot work = r).
    { rewrite Hw in Hp by done. apply andb_true_iff in Hp as [Hp _]. by apply Z.eqb_eq. }
    rewrite regs_fuel_eq in H. apply for_regs_one in H; [|done|rewrite Hpick; by apply (clear_one _ _ true); [|lia|]].
    rewrite Hpick in H. apply abind_ok in H as (s & s1 & [-> ->]%get_ok & H).
    apply abind_ok in H as (r' & a1 & Hres & [_ ->]%aret_ok). by apply (restore_owner n a r r').
Qed.
Lemma evictSet_eq drop a :
  evictSet drop a
  = for_regs regs_fuel (RegSet.intersect (RegSet.intersect drop (RegSet.complement (freeset (ra a)))) kGPR) evict_owner a.
Proof using Type. reflexivity. Qed.
Lemma evictSet_spec n a r u a' :
  ra_ok a n -> in_gpr r -> evictSet (RegSet.fromReg r) a = Ok (u, a') -> pickable n a a' r.
Proof using TF.
  intros Hok Hg H. rewrite evictSet_eq in H. eapply evict_loop; [done|done| | |exact H].
  - apply intersect_nonneg, kGPR_pos.
  - intros q Hq. apply evict_work; [done|done|]. apply (ro_free _ _ Hok).
Qed.

(** ** [idiv] *)

Lemma i8_cases x : 0 <= x < 2 ^ 64 -> i8 x = if x <? 2 ^ 63 then x else x - 2 ^ 64.
Proof using Type. intros Hx. unfold i8, to_s. rewrite (to_u_id 64) by lia. done. Qed.

(** Sign extension and division. *)
Lemma cqo_idiv m x y r op v :
  gpr m 0 = x -> gpr m r = y -> r <> 0 -> r <> 2 -> 0 <= x < 2 ^ 64 -> div_of op x y = Some v ->
  op = kDIV \/ op = kREM ->
  exists q t s, exec_list [ICqo true; IGroup3 true 7 (OReg r)] m
      = Some (Next (set_flags None (set_gpr 2 t (set_gpr 0 q (set_gpr 2 s m)))))
    /\ v = if bool_decide (op = kDIV) then q else t.
Proof using Type.
  intros Hx Hy H0 H2 Bx Hv Hop. unfold div_of in Hv.
  set (s := if i8 x <? 0 then u8 (-1) else 0).
  set (q := Z.quot (i8 x) (i8 y)) in *. set (t := Z.rem (i8 x) (i8 y)).
  exists (u8 q), (u8 t), s.
  destruct ((y =? 0) || negb (q =? i8 q)) eqn:E; [done|]. split.
  - cbn [exec_list exec]. rewrite Hx. fold s. cbn [rd]. unfold idiv. cbn [gpr set_gpr].
    assert (Eg : upd 2 s (gpr m) r = y) by (unfold upd; rewrite (proj2 (Z.eqb_neq r 2)) by done; done).
    rewrite Eg. change (upd 2 s (gpr m) 2) with s. change (upd 2 s (gpr m) 0) with (gpr m 0). rewrite Hx.
    assert (En : i8 s * 2 ^ 64 + x = i8 x).
    { unfold s. rewrite (i8_cases x Bx). destruct (Z.ltb_spec x (2 ^ 63)) as [Hl|Hl].
      - rewrite (proj2 (Z.ltb_ge x 0)) by lia. change (i8 0) with 0. lia.
      - rewrite (proj2 (Z.ltb_lt (x - 2 ^ 64) 0)) by lia. change (i8 (u8 (-1))) with (-1). lia. }
    rewrite En. fold q t. rewrite E. done.
  - destruct Hop as [->| ->]; injection Hv as <-; done.
Qed.

(** ** [divmod] *)

Lemma gpr_eax : in_gpr RID_EAX.
Proof using Type. by split. Qed.
Lemma gpr_edx : in_gpr RID_EDX.
Proof using Type. by split. Qed.
Definition div_allow : Z := RegSet.exclude (RegSet.exclude kGPR RID_EAX) RID_EDX.
Lemma allows_div : allows div_allow.
Proof using Type. unfold div_allow. apply allows_clear; [|done]. apply allows_clear; [apply allows_kGPR|done]. Qed.
Lemma allows_div_result r : r = RID_EAX \/ r = RID_EDX -> allows (RegSet.include div_allow r).
Proof using Type.
  intros Hr. split; [by destruct Hr as [-> | ->]|]. intros q Hq Ht.
  rewrite test_include in Ht by (destruct Hr as [-> | ->]; done || lia).
  apply orb_true_iff in Ht as [Ht|Ht%Z.eqb_eq]; [by apply allows_div|]. subst q.
  destruct Hr as [-> | ->]; [apply gpr_eax|apply gpr_edx].
Qed.

(** From the registers being clear to the end: [a2] is the state at the
    division, [dest] gets the register [res]. *)
Definition div_tail (isdiv : bool) (dest : Z) (i : IR) : M () :=
  (if negb (dest =? (if isdiv then RID_EAX else RID_EDX)) then
     evictSet (RegSet.fromReg (if isdiv then RID_EAX else RID_EDX));*
     emitc (move dest (if isdiv then RID_EAX else RID_EDX))
   else aret tt);*
  let* rreg := alloc1 (op2 i) div_allow in
  lc_assert (negb (rreg =? RID_EAX) && negb (rreg =? RID_EDX));*
  emitc (emit_rr XO_GROUP3 (Z.lor XOg_IDIV REX_64) rreg);*
  emitc (emit_i8 XI_CDQ);*
  emitc (emit_i8 0x48);*
  allocLeft RID_EAX (op1 i).

(** Moving the result: [res] holds it, [a1] has it in [dest]. *)
Definition moves (ref : Z) (a a' : Assembler) (dest res : Z) : Prop :=
  ra_ok a' ref /\ ext ref a a' /\ free a' RID_EAX = true /\ free a' RID_EDX = true /\ exists l,
    emits (code a) (code a') l /\ forall Sp st m, covers a' Sp -> agree a' Sp ref st m ->
      exists m', exec_list l m = Some (Next m') /\ agree a Sp ref st m' /\ gpr m' dest = gpr m res.

Lemma div_move ref a u a' dest res other :
  ra_ok a ref -> in_gpr dest -> in_gpr res -> free a dest = true -> free a other = true -> in_gpr other ->
  (res = RID_EAX /\ other = RID_EDX \/ res = RID_EDX /\ other = RID_EAX) ->
  (if negb (dest =? res) then evictSet (RegSet.fromReg res);* emitc (move dest res) else aret tt) a = Ok (u, a') ->
  moves ref a a' dest res.
Proof using TF.
  intros Hok Hd Hres Hfd Hfo Hgo Hro H. pose proof (gpr_range _ Hd) as Rd. pose proof (gpr_range _ Hgo) as Ro.
  destruct (negb (dest =? res)) eqn:E; [apply negb_true_iff, Z.eqb_neq in E as Hne|apply negb_false_iff, Z.eqb_eq in E].
  2: { apply aret_ok in H as [_ ->]. rewrite <- E in Hro. split; [done|]. split; [done|].
    split; [by destruct Hro as [[<- _]|[_ <-]]|]. split; [by destruct Hro as [[_ <-]|[<- _]]|].
    exists []. split; [apply emits_nil|]. intros Sp st m _ Ha. exists m. by rewrite E. }
  - apply abind_ok in H as (t & a1 & He & [_ ->]%modify_ok).
    destruct (evictSet_spec ref a res t a1 Hok Hres He) as [P1 P2 P3 P4 P5 P6 P6' P6q (l & Em & Hsim)].
    assert (Hno : other <> res) by (destruct Hro as [[-> ->]|[-> ->]]; done).
    assert (Hfd1 : free a1 dest = true) by (rewrite P5; [done|lia|done]).
    assert (Hfo1 : free a1 other = true) by (rewrite P5; [done|lia|done]).
    assert (Hs := same_code (move dest res (code a1)) a1).
    split; [by apply (same_ok a1)|]. split; [etransitivity; [exact P2|by apply same_ext]|].
    split; [by destruct Hro as [[<- _]|[_ <-]]|]. split; [by destruct Hro as [[_ <-]|[<- _]]|].
    exists ([IMovRM true dest (OReg res)] ++ l). split.
    { eapply emits_app; [exact Em|]. apply move_emits; by apply is_gpr_in. }
    intros Sp st m Hc Ha. apply (same_agree _ _ Hs) in Ha.
    destruct (Hsim Sp st (set_gpr dest (gpr m res) m)) as (m' & X & A & G & _); [exact Hc|by apply agree_write|].
    exists m'. split; [|split; [done|]].
    + cbn [app exec_list]. by rewrite move_exec.
    + rewrite G by auto. rewrite gpr_upd. by rewrite Z.eqb_refl.
Qed.

Lemma div_value ref a (isdiv : bool) dest (i : IR) u a' op :
  ra_ok a ref -> in_gpr dest -> free a dest = true ->
  free a (if isdiv then RID_EDX else RID_EAX) = true ->
  operand_ok a ref (op1 i) = true -> operand_ok a ref (op2 i) = true -> op = (if isdiv then kDIV else kREM) ->
  div_tail isdiv dest i a = Ok (u, a') ->
  value_code ref a a' dest (fun st => div_of op (val st (op1 i)) (val st (op2 i))).
Proof using TF.
  intros Hok Hd Hfd Hfo Ho1 Ho2 Hop H. set (res := if isdiv then RID_EAX else RID_EDX) in *.
  unfold div_tail in H. fold res in H. apply abind_ok in H as (t & a1 & Hm & H).
  destruct (div_move ref a t a1 dest res (if isdiv then RID_EDX else RID_EAX)) as (Hok1 & He1 & Fa & Fd & lm & Em & Hmv);
    try done; [by destruct isdiv|by destruct isdiv|destruct isdiv; auto|].
  apply abind_ok in H as (r & a2 & Hal & H).
  destruct (operand_ok_spec _ _ _ Ho1) as (Hl1 & Hb1 & Hv1). destruct (operand_ok_spec _ _ _ Ho2) as (Hl2 & Hb2 & Hv2).
  destruct (alloc1_spec ref a1 (op2 i) div_allow r a2 Hok1 allows_div) as (Ha2 & _); try done.
  { by apply (live_ext ref a a1). }
  { by apply (value_ext ref a a1). }
  apply abind_ok in H as (t2 & s & [Hne ->]%lc_assert_ok & H).
  apply andb_true_iff in Hne as [Na%negb_true_iff%Z.eqb_neq Nd%negb_true_iff%Z.eqb_neq].
  pose proof (al_gpr _ _ _ _ _ Ha2) as Hgr. pose proof (is_gpr_in _ Hgr) as Hgr'.
  pose proof (al_ok _ _ _ _ _ Ha2) as Hok2. pose proof (al_ext _ _ _ _ _ Ha2) as He2.
  assert (Fa2 : free a2 RID_EAX = true) by (rewrite (al_free _ _ _ _ _ Ha2) by done; done).
  assert (Fd2 : free a2 RID_EDX = true) by (rewrite (al_free _ _ _ _ _ Ha2) by done; done).
  destruct (al_sim _ _ _ _ _ Ha2) as (l2 & Em2 & Hs2).
  apply abind_ok in H as (t3 & s & [_ ->]%modify_ok & H). apply abind_ok in H as (t4 & s & [_ ->]%modify_ok & H).
  apply abind_ok in H as (t5 & s & [_ ->]%modify_ok & H).
  set (c3 := emit_rr XO_GROUP3 (Z.lor XOg_IDIV REX_64) r (code a2)) in *.
  set (c4 := emit_i8 0x48 (emit_i8 XI_CDQ c3)).
  change (allocLeft RID_EAX (op1 i) (set_acode c4 a2) = Ok (u, a')) in H. clear t2 t3 t4 t5.
  assert (Hs := same_code c4 a2).
  destruct (allocLeft_spec ref (set_acode c4 a2) RID_EAX (op1 i) u a') as (Hok' & He' & lp & Ep & Hp); try done.
  { by apply (same_ok a2). }
  { apply (live_ext ref a1 a2); [done|]. by apply (live_ext ref a a1). }
  { apply (value_ext ref a1 a2); [done|]. by apply (value_ext ref a a1). }
  split; [done|]. split.
  { etransitivity; [exact He1|]. etransitivity; [exact He2|]. etransitivity; [by apply same_ext|exact He']. }
  exists (lp ++ [ICqo true; IGroup3 true 7 (OReg r)] ++ l2 ++ lm). split.
  { eapply emits_app; [|exact Ep]. eapply emits_app; [eapply emits_app; [exact Em|exact Em2]|].
    change [ICqo true; IGroup3 true 7 (OReg r)] with ([ICqo true] ++ [IGroup3 true 7 (OReg r)]).
    eapply emits_app; [|apply cqo_emits].
    change (Z.lor XOg_IDIV REX_64) with (Z.lor REX_64 XOg_IDIV) in c3.
    apply (group3_emits 7); [lia|by apply as_reg_id]. }
  intros Sp st m v Hc Hst Hv Ha. destruct (Hp Sp st m Hc Ha) as (m1 & X1 & A1 & G1).
  apply (same_agree _ _ Hs) in A1.
  assert (Hr : gpr m1 r = val st (op2 i)).
  { apply (reg_val ref a2 Sp st m1 (op2 i) r); try done; [|exact (al_reg _ _ _ _ _ Ha2)].
    apply (live_ext ref a1 a2); [done|]. by apply (live_ext ref a a1). }
  destruct (cqo_idiv m1 (val st (op1 i)) (val st (op2 i)) r op v) as (q & rem & s & X2 & Ev); try done.
  { apply (so_val _ Hst). }
  { destruct isdiv; auto. }
  set (m2 := set_flags None (set_gpr 2 rem (set_gpr 0 q (set_gpr 2 s m1)))) in *.
  assert (A2 : agree a2 Sp ref st m2).
  { apply set_flags_agree. do 3 (apply agree_write; [done|apply gpr_eax || apply gpr_edx|done|]). done. }
  destruct (Hs2 Sp st m2) as (m3 & X3 & A3 & G3 & _); [|done|].
  { eapply covers_ext; [|exact Hc]. etransitivity; [by apply (same_ext a2 _ Hs)|exact He']. }
  destruct (Hmv Sp st m3) as (m4 & X4 & A4 & G4); [|done|].
  { eapply covers_ext; [|exact Hc]. etransitivity; [exact He2|]. etransitivity; [by apply (same_ext a2 _ Hs)|exact He']. }
  exists m4. split; [|split; [done|]].
  - by rewrite exec_list_app, X1, exec_list_app, X2, exec_list_app, X3.
  - rewrite G4, G3 by (left; unfold res; destruct isdiv; congruence). rewrite Ev, Hop. unfold res. by destruct isdiv.
Qed.

#[local] Strategy expand [divmod negb div_tail div_allow].
Lemma divmod_spec a ref (isdiv : bool) u a' :
  ra_ok a (ref + 1) -> REF_FIRST <= ref -> live a (ref + 1) ref -> value_ref a ref ->
  operand_ok a ref (op1 (a_ir a ref)) = true -> operand_ok a ref (op2 (a_ir a ref)) = true ->
  ir_o (a_ir a ref) = (if isdiv then kDIV else kREM) -> divmod ref isdiv true a = Ok (u, a') -> instr_ok a a' ref.
Proof using TF.
  intros Hok Hfirst Hlref Hvr Ho1 Ho2 Hop H. set (i := a_ir a ref) in *. unfold divmod in H.
  destruct (negb true) eqn:Eneg; [done|]. cbv zeta in H.
  set (res := if isdiv then RID_EAX else RID_EDX) in *. set (other := if isdiv then RID_EDX else RID_EAX) in *.
  change (RegSet.exclude (RegSet.exclude kGPR RID_EAX) RID_EDX) with div_allow in H.
  apply abind_ok in H as (t & a1 & Hev & H). apply abind_ok in H as (dest & a2 & Hdest & H).
  assert (Hgo : in_gpr other) by (unfold other; destruct isdiv; [apply gpr_edx|apply gpr_eax]).
  assert (Hres : res = RID_EAX \/ res = RID_EDX) by (unfold res; destruct isdiv; auto).
  assert (Hro : res = RID_EAX /\ other = RID_EDX \/ res = RID_EDX /\ other = RID_EAX)
    by (unfold res, other; destruct isdiv; auto).
  assert (Hgr : in_gpr res) by (destruct Hres as [-> | ->]; [apply gpr_eax|apply gpr_edx]).
  pose proof (gpr_range _ Hgo) as Ro.
  destruct (evictSet_spec (ref + 1) a other t a1 Hok Hgo Hev) as [P1 P2 P3 P4 P5 P6 P6' P6q P7].
  assert (Hl1 : live a1 (ref + 1) ref) by by apply (live_ext (ref + 1) a a1).
  assert (Hd := destReg_spec a1 ref (RegSet.include div_allow res) dest a2 P1 (allows_div_result _ Hres) Hl1
                  ltac:(unfold REF_FIRST, REF_BASE in *; lia) (value_ext _ _ _ _ P2 Hvr) Hdest).
  pose proof Hd as [D1 D2 D3 D4 D5 D6 D7 D8 D9 _].
  assert (Hdo : dest <> other).
  { intros E. destruct (isReg (reg a1 ref)) eqn:Hr.
    - destruct (ro_reg _ _ P1 ref Hl1 Hr) as (_ & F & _). rewrite <- (D6 eq_refl), E in F. congruence.
    - specialize (D5 eq_refl). rewrite E in D5. unfold other, res in D5. destruct isdiv; vm_compute in D5; done. }
  assert (Hfo : free a2 other = true) by by rewrite D8 by (lia || done).
  assert (He2 : ext (ref + 1) a a2) by by etransitivity.
  assert (Htail : div_tail isdiv dest i a2 = Ok (u, a')).
  { apply abind_ok in H as (t1 & a3 & Hmv & H). apply abind_ok. exists t1, a3. split; [done|].
    apply abind_ok in H as (ins & s & [-> ->]%bufir_ok & H).
    assert (He3 : ext ref a2 a3) by exact (proj1 (proj2 (div_move ref a2 t1 a3 dest res other D1 D3 Hgr D4 Hfo Hgo Hro Hmv))).
    destruct (op_ext _ _ _ ref He2) as (_ & E1 & E2). destruct (op_ext _ _ _ ref He3) as (_ & E3 & E4).
    rewrite E3, E4, E1, E2 in H. exact H. }
  eapply instr_prefix; [exact P2|exact P7|].
  eapply (value_instr a1 a2 a' ref dest _ _ Hfirst Hd).
  - eapply (div_value ref a2 isdiv dest i u a'); try done.
    + by rewrite (operand_ok_ext (ref + 1) a a2).
    + by rewrite (operand_ok_ext (ref + 1) a a2).
  - intros st. rewrite (ir_exec_ext _ _ _ _ _ P2). unfold ir_exec, ir_value. fold i. rewrite Hop. by destruct isdiv.
Qed.
End machine.
