(* ===== verification/AsmStub.v ===== *)
(** * Code that is written upwards

    The out-of-line part of a heap check and the groups of exit stubs are
    written from low to high addresses, outside of the code of a trace.
    What their bytes decode to. *)

From S2P Require Import Prelude Words Hotness IR.
From S2P Require Import IRInv.
From S2P Require Import Registers X86 X86Sem X86Proofs AsmState.
From S2P Require Import AsmInv.
From S2P Require Import AsmAlloc.
From S2P Require Import AsmSelect.
From S2P Require Import AsmSem.
From S2P Require Import AsmSim AsmInstr AsmGuard.

(** ** Bytes *)

Definition bytes_at (b : gmap Z Z) (p : Z) (l : list Z) : Prop :=
  forall j x, l !! j = Some x -> b !! (p + Z.of_nat j) = Some x.
Lemma bytes_at_app b p l l' : bytes_at b p (l ++ l') <-> bytes_at b p l /\ bytes_at b (p + Z.of_nat (length l)) l'.
Proof.
  unfold bytes_at. split.
  - intros H. split; intros j x Hj.
    + apply H. by apply lookup_app_l_Some.
    + rewrite <- (H (length l + j)%nat x); [f_equal; lia|]. rewrite lookup_app_r by lia. rewrite <- Hj. f_equal. lia.
  - intros [H1 H2] j x [Hj|[Hlen Hj]]%lookup_app_Some; [by apply H1|]. rewrite <- (H2 _ _ Hj). f_equal. lia.
Qed.
Lemma bytes_at_ext b b' p l :
  (forall q, p <= q < p + Z.of_nat (length l) -> b' !! q = b !! q) -> bytes_at b p l -> bytes_at b' p l.
Proof.
  intros He H j x Hj. rewrite He; [by apply H|]. apply lookup_lt_Some in Hj. lia.
Qed.

(** From [c] to [c'] the bytes [l] were written. *)
Record writes_up (c c' : gmap Z Z * Z) (l : list Z) : Prop := {
  wu_end : snd c' = snd c + Z.of_nat (length l);
  wu_at : bytes_at (fst c') (snd c) l;
  wu_other : forall q, ~ (snd c <= q < snd c') -> fst c' !! q = fst c !! q
}.
Lemma writes_up_app c c' c'' l l' : writes_up c c' l -> writes_up c' c'' l' -> writes_up c c'' (l ++ l').
Proof.
  intros [E1 A1 O1] [E2 A2 O2]. split; [rewrite length_app; lia| |].
  - apply bytes_at_app. split; [|by rewrite <- E1]. eapply bytes_at_ext; [|exact A1]. intros q Hq. apply O2. lia.
  - intros q Hq. rewrite O2, O1 by lia. done.
Qed.
Lemma writes_up_nil c : writes_up c c [].
Proof. split; [cbn; lia|by intros []|done]. Qed.
Lemma writes_up_bytes l c : writes_up c (put_bytes l c) l.
Proof.
  revert c. induction l as [|x l IH]; intros [m p]; [apply writes_up_nil|].
  change (put_bytes (x :: l) (m, p)) with (put_bytes l (<[p := x]> m, p + 1)).
  apply (writes_up_app (m, p) (<[p := x]> m, p + 1) _ [x]); [|apply IH]. split; cbn [fst snd].
  - cbn. lia.
  - intros [|j] y; [|by destruct j]. intros [= <-]. rewrite Z.add_0_r. apply lookup_insert_eq.
  - intros q Hq. by rewrite lookup_insert_ne by lia.
Qed.
Lemma writes_up_i32 v c : writes_up c (put_i32 v c) (le_bytes 4 v).
Proof.
  destruct c as [m p]. split; cbn [fst snd put_i32].
  - rewrite le_bytes_length. lia.
  - intros j x Hj. by apply put_le_at.
  - intros q Hq. destruct (Z.lt_ge_cases q p); [by apply put_le_other|apply put_le_above; lia].
Qed.
Lemma then_bytes c c' l l' : writes_up c c' l -> writes_up c (put_bytes l' c') (l ++ l').
Proof. intros W. eapply writes_up_app; [exact W|apply writes_up_bytes]. Qed.
Lemma then_i32 c c' l v : writes_up c c' l -> writes_up c (put_i32 v c') (l ++ le_bytes 4 v).
Proof. intros W. eapply writes_up_app; [exact W|apply writes_up_i32]. Qed.
Lemma writes_up_rel target c c' :
  put_rel target c = Ok c' ->
  writes_up c c' (le_bytes 4 (target - (snd c + 4))) /\ is_i32 (target - (snd c + 4)).
Proof.
  unfold put_rel. intros (d & Hd & [= <-])%obind_ok. destruct (jmprel_ok _ _ _ Hd) as [-> Hi].
  split; [apply writes_up_i32|done].
Qed.

(** ** Bytes and instructions *)

Definition encodes (l : list Z) (i : instr) : Prop :=
  (length l <= 15)%nat /\ forall rest, parse (l ++ rest) = Some (i, rest).
(** A list of encoded instructions, and what it is at an address. *)
Fixpoint placed_at (p : Z) (ls : list (list Z * instr)) : list instr :=
  match ls with
  | [] => []
  | (l, i) :: ls' => let q := p + Z.of_nat (length l) in absolute q i :: placed_at q ls'
  end.
Definition chunk_bytes (ls : list (list Z * instr)) : list Z := concat (map fst ls).

Lemma decode_bytes b p l i :
  encodes l i -> bytes_at b p l -> decode b p = Some (absolute (p + Z.of_nat (length l)) i, p + Z.of_nat (length l)).
Proof.
  intros [Hlen Hp] Hb. unfold decode. rewrite (fetch_app 15 b p l) by (auto; lia). rewrite Hp, length_app.
  do 2 f_equal; [f_equal; lia|lia].
Qed.
Lemma bytes_code b ls : forall p,
  Forall (fun x => encodes (fst x) (snd x)) ls -> bytes_at b p (chunk_bytes ls) ->
  code_at b p (placed_at p ls) (p + Z.of_nat (length (chunk_bytes ls))).
Proof.
  induction ls as [|[l i] ls IH]; intros p Hall Hb; unfold chunk_bytes in *; cbn [map concat fst] in *.
  { cbn. rewrite Z.add_0_r. constructor. }
  apply Forall_cons in Hall as [He Hall]. apply bytes_at_app in Hb as [H1 H2].
  apply (code_cons _ _ (absolute (p + Z.of_nat (length l)) i) (p + Z.of_nat (length l))); [by apply decode_bytes|].
  rewrite length_app. replace (p + Z.of_nat (length l + length (concat (map fst ls))))
    with (p + Z.of_nat (length l) + Z.of_nat (length (concat (map fst ls)))) by lia. by apply IH.
Qed.

(** Code that is there as long as its bytes are. *)
Definition held (b : gmap Z Z) (p : Z) (l : list instr) (q : Z) : Prop :=
  forall b', (forall x, p <= x < q -> b' !! x = b !! x) -> code_at b' p l q.
Lemma held_code b p l q : held b p l q -> code_at b p l q.
Proof. intros H. by apply H. Qed.
Lemma held_ext b b' p l q : (forall x, p <= x < q -> b' !! x = b !! x) -> held b p l q -> held b' p l q.
Proof. intros He H b'' Hb. apply H. intros x Hx. by rewrite Hb, He. Qed.
Lemma emits_held c c' l : emits c c' l -> held (bytes c') (mcp c') l (mcp c).
Proof. intros (_ & _ & H). exact H. Qed.
Lemma bytes_held b ls p :
  Forall (fun x => encodes (fst x) (snd x)) ls -> bytes_at b p (chunk_bytes ls) ->
  held b p (placed_at p ls) (p + Z.of_nat (length (chunk_bytes ls))).
Proof. intros Hall Hb b' Hx. apply bytes_code; [done|]. by eapply bytes_at_ext. Qed.

(** The instructions of the stubs. *)
Lemma encodes_jmp d : is_i32 d -> encodes (0xe9 :: le_bytes 4 d) (IJmp d).
Proof.
  intros Hd. split; [cbn; lia|]. intros rest. cbn [app]. unfold parse, parse_rex.
  change ((64 <=? 233) && (233 <? 80)) with false. cbn iota.
  change (parse_op 0 233 ?t) with (do (d, l) <- take_s 4 t; Some (IJmp d, l)).
  rewrite take_s_bytes by lia. change (8 * Z.of_nat 4) with 32. by rewrite i32_id by done.
Qed.
Lemma encodes_call d : is_i32 d -> encodes (0xe8 :: le_bytes 4 d) (ICall d).
Proof.
  intros Hd. split; [cbn; lia|]. intros rest. cbn [app]. unfold parse, parse_rex.
  change ((64 <=? 232) && (232 <? 80)) with false. cbn iota.
  change (parse_op 0 232 ?t) with (do (d, l) <- take_s 4 t; Some (ICall d, l)).
  rewrite take_s_bytes by lia. change (8 * Z.of_nat 4) with 32. by rewrite i32_id by done.
Qed.
Lemma encodes_movi r v : 0 <= r < 8 -> encodes (0xb8 + r :: le_bytes 4 v) (IMovI false r (u4 v)).
Proof.
  intros Hr. split; [cbn; lia|]. intros rest. assert (Hk : In r [0;1;2;3;4;5;6;7]) by (cbn; lia). cbn in Hk.
  assert (Hp : parse ((0xb8 + r :: le_bytes 4 v) ++ rest)
               = do (i, l) <- take_le 4 (le_bytes 4 v ++ rest); Some (IMovI false r i, l)).
  { by destruct Hk as [<-|[<-|[<-|[<-|[<-|[<-|[<-|[<-|[]]]]]]]]]. }
  rewrite Hp. by rewrite take_le_bytes.
Qed.
Lemma encodes_push r : 0 <= r < 8 -> encodes [0x50 + r] (IPushR r).
Proof.
  intros Hr. split; [cbn; lia|]. intros rest. assert (Hk : In r [0;1;2;3;4;5;6;7]) by (cbn; lia). cbn in Hk.
  by destruct Hk as [<-|[<-|[<-|[<-|[<-|[<-|[<-|[<-|[]]]]]]]]].
Qed.
Lemma encodes_pop r : 0 <= r < 8 -> encodes [0x58 + r] (IPopR r).
Proof.
  intros Hr. split; [cbn; lia|]. intros rest. assert (Hk : In r [0;1;2;3;4;5;6;7]) by (cbn; lia). cbn in Hk.
  by destruct Hk as [<-|[<-|[<-|[<-|[<-|[<-|[<-|[<-|[]]]]]]]]].
Qed.
Lemma encodes_push_byte v : encodes [0x6a; u1 v] (IPushI (to_s 8 v)).
Proof.
  split; [cbn; lia|]. intros rest. change (parse ([0x6a; u1 v] ++ rest))
    with (do (i, l) <- take_s 1 (le_bytes 1 v ++ rest); Some (IPushI i, l)). by rewrite take_s_bytes by lia.
Qed.
Lemma encodes_jmp_short v : encodes [0xeb; u1 v] (IJmp (to_s 8 v)).
Proof.
  split; [cbn; lia|]. intros rest. change (parse ([0xeb; u1 v] ++ rest))
    with (do (i, l) <- take_s 1 (le_bytes 1 v ++ rest); Some (IJmp i, l)). by rewrite take_s_bytes by lia.
Qed.

(** ** Heap checks out of line *)

(** [k]: the exit number, [n]: the bytes, [p]: the address of the check. *)
Definition overflow_code {RA : RuntimeAddrs} (k n p : Z) : list instr :=
  [IPushR RID_EDI; IPushR RID_ESI; IMovI false RID_EDI (u4 k); IMovI false RID_ESI (u4 n); ICall asmHeapOverflow;
   IPopR RID_ESI; IPopR RID_EDI; IJmp p].

Section stubs.
Context {RA : RuntimeAddrs}.
Lemma heapCheckFailure_spec k retry p n a u a' :
  heapCheckFailure k retry p n a = Ok (u, a') ->
  exists bs, a' = set_acode (mkBytes bs (mcp (code a))) a
    /\ held bs p (overflow_code k n retry) (p + QUICK_HEAP_CHECK_FAIL_SIZE)
    /\ forall q, ~ (p <= q < p + QUICK_HEAP_CHECK_FAIL_SIZE) -> bs !! q = bytes (code a) !! q.
Proof.
  unfold heapCheckFailure. intros (c5 & H5%writes_up_rel & (c7 & H7%writes_up_rel & [= _ <-])%obind_ok)%obind_ok.
  match type of H5 with writes_up ?c _ _ /\ _ => set (c4 := c) in * end. destruct H5 as [W5 I5].
  set (c0 := (bytes (code a), p)) in *. set (c6 := put_bytes _ c5) in *. destruct H7 as [W7 I7].
  set (d := asmHeapOverflow - (snd c4 + 4)) in *. set (d' := retry - (snd c6 + 4)) in *.
  set (ls := [([0x57], IPushR 7); ([0x56], IPushR 6); (0xbf :: le_bytes 4 k, IMovI false 7 (u4 k));
              (0xbe :: le_bytes 4 n, IMovI false 6 (u4 n)); (0xe8 :: le_bytes 4 d, ICall d);
              ([0x5e], IPopR 6); ([0x5f], IPopR 7); (0xe9 :: le_bytes 4 d', IJmp d')]).
  pose proof (then_bytes _ _ _ _ (then_i32 _ _ _ _ (then_bytes _ _ _ _ (then_i32 _ _ _ _
    (writes_up_bytes [0x57; 0x56; 0xbf] c0)))) : writes_up c0 c4 _) as W4.
  pose proof (writes_up_app _ _ _ _ _ W4 W5) as W05. pose proof (then_bytes _ _ _ [0x5e; 0x5f; 0xe9] W05 : writes_up c0 c6 _) as W6.
  destruct (writes_up_app _ _ _ _ _ W6 W7) as [E A O]. pose proof (wu_end _ _ _ W4) as E4. pose proof (wu_end _ _ _ W6) as E6.
  exists (fst c7). split; [done|].
  change (snd c4 = p + 13) in E4. change (snd c6 = p + 20) in E6. change (snd c7 = p + QUICK_HEAP_CHECK_FAIL_SIZE) in E.
  split; [|intros q Hq; apply O; cbn [fst snd c0]; lia].
  pose proof (bytes_held (fst c7) ls p) as Hc.
  assert (Hls : placed_at p ls = overflow_code k n retry).
  { unfold ls, overflow_code. cbn [placed_at absolute length le_bytes]. unfold d, d'. rewrite E4, E6.
    repeat f_equal; lia. }
  rewrite Hls in Hc. apply Hc; [|exact A].
  unfold ls. repeat (apply Forall_cons; split); [..|by apply Forall_nil]; cbn [fst snd].
  - by apply (encodes_push 7).
  - by apply (encodes_push 6).
  - by apply (encodes_movi 7).
  - by apply (encodes_movi 6).
  - by apply encodes_call.
  - by apply (encodes_pop 6).
  - by apply (encodes_pop 7).
  - by apply encodes_jmp.
Qed.
End stubs.

Definition set_quick (q : Z) (a : Assembler) : Assembler :=
  let r := area a in set_area (mkArea (mcend r) (mclim r) (mcbot r) (mctop r) q) a.

(** A heap check whose failure is out of line: the branch goes to [p],
    where the run-time system is called and the check is done again. *)
Record out_of_line {RA : RuntimeAddrs} (a a2 a' : Assembler) (p n : Z) : Prop := {
  ol_code : emits (code a) (code a2) (heap_test n ++ [IJcc CC_A p]);
  ol_state : exists bs, a' = set_quick 0 (set_acode (mkBytes bs (mcp (code a2))) a2);
  ol_call : held (bytes (code a')) p (overflow_code (snapno a) n (mcp (code a2))) (p + QUICK_HEAP_CHECK_FAIL_SIZE);
  ol_other : forall q, ~ (p <= q < p + QUICK_HEAP_CHECK_FAIL_SIZE) -> bytes (code a') !! q = bytes (code a2) !! q
}.
Lemma heapCheck_quick {TF : TraceFrame} {RA : RuntimeAddrs} a ref u a' :
  let p := mcQuickHeapCheck (area a) in
  ra_ok a (ref + 1) -> ~ placed a ref -> ir_o (a_ir a ref) = kHEAPCHK -> op1 (a_ir a ref) <> 0 -> p <> 0 ->
  heapCheck ref a = Ok (u, a') ->
  exists a2, instr_exit (eq p) a a2 ref /\ out_of_line a a2 a' p (8 * op1 (a_ir a ref)).
Proof.
  intros p Hok Hp Hop Hn Hq H. unfold heapCheck in H. apply abind_ok in H as (ins & s1 & [-> ->]%bufir_ok & H).
  set (i := a_ir a ref) in *. rewrite (proj2 (Z.eqb_neq (8 * op1 i) 0)) in H by lia.
  apply abind_ok in H as (s & s1 & [-> ->]%get_ok & H). fold p in H. rewrite (proj2 (Z.eqb_neq _ _) Hq) in H. cbn [negb] in H.
  apply abind_ok in H as (sn & s1 & [-> _]%asnap_ok & H). apply abind_ok in H as (v & a0 & Hj & H).
  apply emito_ok in Hj as (c & Hj & ->). apply abind_ok in H as (v1 & a1 & Hs & H).
  apply set_snap_same in Hs as (Hs & Hc & Hno). change (snapno a1 = snapno a) in Hno. change (code a1 = c) in Hc.
  apply abind_ok in H as (v2 & s2 & [_ ->]%modify_ok & H). apply abind_ok in H as (v3 & s3 & [_ ->]%modify_ok & H).
  apply abind_ok in H as (s & s4 & [-> ->]%get_ok & H).
  match type of H with abind (heapCheckFailure _ _ _ _) _ ?s = _ => set (a2 := s) in * end.
  apply abind_ok in H as (v4 & a3 & Hf & [_ ->]%modify_ok).
  apply heapCheckFailure_spec in Hf as (bs & -> & Hcall & Hother).
  assert (Hem : emits (code a) (code a1) [IJcc CC_A p]) by (rewrite Hc; by apply jcc_emits; [vm_compute|]).
  destruct (heap_guard a ref Hok Hp Hop (eq p) a1 p (code a2) Hn eq_refl Hem) as [He Hem2]; [|reflexivity|].
  { eapply asm_same_trans; [apply (same_code c)|exact Hs]. }
  exists a2. split; [exact He|]. split; [exact Hem2|by exists bs| |exact Hother].
  change (snapno a2) with (snapno a1) in Hcall. rewrite Hno in Hcall. exact Hcall.
Qed.
