(* ===== verification/Assembler.v ===== *)
(** * The assembler: whole traces ([assembler.cc])

    Exit stubs, the merge of a side trace with its parent (a parallel
    assignment of registers and spill slots), [assemble], and patching
    the exits of code that exists. *)

From S2P Require Import Prelude Words Hotness Capability.
From S2P Require Import IR Registers X86.
From S2P Require Import CallStack.
From S2P Require Import Recorder.
From S2P Require Import AsmState AsmSelect.

(** ** Parallel assignment *)

Record RegSpill := mkRS { rs_reg : Z; rs_spill : Z }.
Inductive PaStatus := PA_STATUS_TODO | PA_STATUS_MOVING | PA_STATUS_DONE.
#[export] Instance PaStatus_eq_dec : EqDecision PaStatus.
Proof. solve_decision. Defined.

Definition MAX_PAR_MOVE_SIZE : Z := 256.
Record ParAssign := mkPA {
  pa_dest : list RegSpill;
  pa_source : list RegSpill;
  pa_status : list PaStatus;
  tmpsInUse : Z;
  usingHp : bool
}.
Definition pa_size (p : ParAssign) : nat := length (pa_dest p).
Definition set_dest (i : nat) (d : RegSpill) (p : ParAssign) : ParAssign :=
  mkPA (<[i := d]> (pa_dest p)) (pa_source p) (pa_status p) (tmpsInUse p) (usingHp p).
Definition set_status (i : nat) (s : PaStatus) (p : ParAssign) : ParAssign :=
  mkPA (pa_dest p) (pa_source p) (<[i := s]> (pa_status p)) (tmpsInUse p) (usingHp p).
Definition set_tmps (n : Z) (hp : bool) (p : ParAssign) : ParAssign :=
  mkPA (pa_dest p) (pa_source p) (pa_status p) n hp.

Definition hasSpill (r : RegSpill) : bool := negb (rs_spill r =? 0).
Definition needsMoving (dst src : RegSpill) : bool :=
  negb ((isReg (rs_reg dst) && (rs_reg dst =? rs_reg src))
        || (negb (rs_spill dst =? 0) && (rs_spill dst =? rs_spill src))).
Definition conflicts (candidate src : RegSpill) : bool :=
  (isReg (rs_reg candidate) && (rs_reg candidate =? rs_reg src))
  || (hasSpill candidate && (rs_spill candidate =? rs_spill src)).

(** The heap pointer is saved in spill slot 0. *)
Definition SAVE_HP_OFFS : Z := SPILL_SP_OFFS.

Definition getTemp (p : ParAssign) : M (Z * ParAssign) :=
  if 1 <=? tmpsInUse p then fail (Exited 1)
  else
    let* free := hasFreeReg in
    if free : bool then
      let* r := allocScratchReg kGPR in aret (r, set_tmps 1 (usingHp p) p)
    else
      (if usingHp p then aret tt else emitc (load_u64 RID_HP RID_ESP SAVE_HP_OFFS));*
      aret (RID_HP, set_tmps 1 true p).
Definition releaseTemp (p : ParAssign) : M ParAssign :=
  lc_assert (tmpsInUse p =? 1);* aret (set_tmps 0 (usingHp p) p).

Definition transfer (dst src : RegSpill) : M () :=
  (if isReg (rs_reg dst) then
     lc_assert (rs_spill dst =? 0);*
     (if isReg (rs_reg src) then emitc (move (rs_reg dst) (rs_reg src))
      else emitc (load_u64 (rs_reg dst) RID_ESP (spillOffset (rs_spill src))))
   else if isReg (rs_reg src) then emitc (store_u64 RID_ESP (spillOffset (rs_spill dst)) (rs_reg src))
   else fail (Exited 1));*
  (if isReg (rs_reg src) then useReg (rs_reg src) else aret tt).

Definition pa_get {A} (l : list A) (i : nat) : M A := alift (of_option WildAccess (l !! i)).
(** A loop over [0 .. n - 1] that updates an assignment. *)
Fixpoint pa_loop (l : list nat) (f : nat -> ParAssign -> M ParAssign) (p : ParAssign) : M ParAssign :=
  match l with
  | [] => aret p
  | j :: l' => let* p := f j p in pa_loop l' f p
  end.

(** A cycle: the value for destination [j] goes through a temporary. *)
Definition break_cycle (j : nat) (p : ParAssign) : M ParAssign :=
  let* tp := getTemp p in
  let* p := releaseTemp (snd tp) in
  let* dst := pa_get (pa_dest p) j in
  (if isReg (rs_reg dst) then emitc (move (rs_reg dst) (fst tp))
   else emitc (store_u64 RID_ESP (spillOffset (rs_spill dst)) (fst tp)));*
  aret (set_dest j (mkRS (fst tp) 0) p).

(** [moveOne]; the depth of the recursion is at most the size. *)
Fixpoint moveOne (fuel : nat) (i : nat) (p : ParAssign) : M ParAssign :=
  match fuel with
  | O => fail OutOfFuel
  | S fuel' =>
      let* dst := pa_get (pa_dest p) i in
      let* src := pa_get (pa_source p) i in
      lc_assert (isReg (rs_reg dst) || isReg (rs_reg src));*
      if negb (rs_reg dst =? rs_reg src) then
        let* p := pa_loop (seq 0 (pa_size p)) (fun j p =>
            let* d := pa_get (pa_dest p) j in
            let* st := pa_get (pa_status p) j in
            if conflicts d src && negb (bool_decide (st = PA_STATUS_DONE)) then
              if bool_decide (st = PA_STATUS_TODO) then moveOne fuel' j p else break_cycle j p
            else aret p) (set_status i PA_STATUS_MOVING p) in
        let* d := pa_get (pa_dest p) i in
        let* s := pa_get (pa_source p) i in
        transfer d s;*
        aret (set_status i PA_STATUS_DONE p)
      else aret p
  end.

Definition parallelAssign (dest source : list RegSpill) : M () :=
  let n := length dest in
  let p := mkPA dest source (replicate n PA_STATUS_TODO) 0 false in
  let* p := pa_loop (seq 0 n) (fun i p =>
      let* st := pa_get (pa_status p) i in
      if bool_decide (st = PA_STATUS_TODO) then moveOne (S n) i p else aret p) p in
  if usingHp p then emitc (store_u64 RID_ESP SAVE_HP_OFFS RID_HP) else aret tt.

(** ** Merging with the parent *)

(** The move for an inherited reference in register or slot
    ([preg], [pspill]) of the parent; [None]: nothing to do. *)
Definition merge_one (ref preg pspill : Z) : M (option (RegSpill * RegSpill)) :=
  let* ins := bufir ref in
  let side_reg := ir_reg ins in
  let side_spill := ir_spill ins in
  lc_assert ((pspill =? 0) || (pspill =? side_spill));*
  if negb (isReg side_reg) then
    aret (if isReg preg && negb (side_spill =? 0) && (pspill =? 0)
          then Some (mkRS RID_NONE side_spill, mkRS preg 0) else None)
  else
    (if negb (side_spill =? 0) && (pspill =? 0) then saveReg ref side_reg else aret tt);*
    (if isReg preg then aret (Some (mkRS side_reg 0, mkRS preg 0))
     else lc_assert (negb (pspill =? 0));* aret (Some (mkRS side_reg 0, mkRS RID_NONE pspill))).

(** The loop of [mergeWithParent]: the moves and the registers of the
    side trace, for the references from [ref] on. *)
Fixpoint merge_moves (parentmap : list Z) (ref : Z) (n : nat) (moves : list (RegSpill * RegSpill))
    (parmoves : Z) : M (list (RegSpill * RegSpill) * Z) :=
  match n with
  | O => aret (moves, parmoves)
  | S n' =>
      let* rs := alift (of_option WildAccess (parentmap !! Z.to_nat (ref - REF_FIRST))) in
      let* mv := merge_one ref (regsp_reg rs) (regsp_spill rs) in
      let moves := moves ++ match mv with Some x => [x] | None => [] end in
      (if MAX_PAR_MOVE_SIZE <? Z.of_nat (length moves) then fail WildAccess else aret tt);*
      let* ins := bufir ref in
      let parmoves := if isReg (ir_reg ins) then RegSet.set parmoves (ir_reg ins) else parmoves in
      merge_moves parentmap (ref + 1) n' moves parmoves
  end.

Definition mergeWithParent (parentmap : list Z) : M bool :=
  let* a := get in
  let* mp := merge_moves parentmap REF_FIRST (Z.to_nat (astopins a - REF_FIRST)) [] RegSet.empty in
  (if negb (bool_decide (fst mp = [])) then
     let* a := get in
     let saved := freeset (ra a) in
     parallelAssign (map fst (fst mp)) (map snd (fst mp));*
     modify (set_free saved)
   else aret tt);*
  modify (fun a => set_free (RegSet.setunion (freeset (ra a)) (snd mp)) a);*
  aret true.

(** ** Setup *)

Definition MCLIM_REDZONE : Z := 64.

Section assemble.
Context (mmap : Z -> Z -> Z -> Z) (fuel : nat) `{RuntimeAddrs}.

Definition setupMachineCode : M () :=
  fun a =>
    let! '(m, bot, top) := MachineCode.reserve mmap asmExit fuel (mcode a) in
    Ok (tt, set_area (mkArea top (bot + MCLIM_REDZONE) bot top (mcQuickHeapCheck (area a)))
              (set_acode (mkBytes (bytes (code a)) top) (set_mcode m a))).

Definition setupRegAlloc : M () :=
  modify (fun a => set_ra (mkRA kGPR RegSet.empty RegSet.empty
                             (replicate (Z.to_nat RID_MAX) RegCost.init) (spills (ra a))) a).

(** [setPrev] for the [n] references from [ref] on. *)
Fixpoint init_prev (ref : Z) (n : nat) : M () :=
  match n with
  | O => aret tt
  | S n' => upd_ir (fun i => setPrev i REGSP_INIT) ref;* init_prev (ref + 1) n'
  end.
(** The hints for loads from the parent: the spill slots stay. *)
Fixpoint init_parent (parentmap : list Z) (ref : Z) (n : nat) : M () :=
  match n with
  | O => aret tt
  | S n' =>
      let* rs := alift (of_option WildAccess (parentmap !! Z.to_nat (ref - REF_FIRST))) in
      (if negb (regsp_spill rs =? 0) then
         fun a => let! l := SpillSet.block (spills (ra a)) (regsp_spill rs) in Ok (tt, set_spills l a)
       else aret tt);*
      upd_ir (fun i => setPrev i (REGSP (if isReg (regsp_reg rs) then REGSP_HINT (regsp_reg rs)
                                         else RID_INIT) (regsp_spill rs))) ref;*
      init_parent parentmap (ref + 1) n'
  end.

Definition setup (i : Inherited) : M () :=
  (fun a =>
     let! '(b, n) := setHeapOffsets (abuf a) in
     let r := area a in
     Ok (tt, set_area (mkArea (mcend r) (mclim r) (mcbot r) (mctop r) 0)
               (set_pos (nins a) (curins a) (astopins a) n (set_abuf b a))));*
  setupRegAlloc;*
  modify (fun a => let c := b_code (abuf a) in
                   set_pos (c_bufmax c) (c_bufmax c) (stopins i) (numHeapChecks a)
                     (set_spills SpillSet.reset a));*
  let* a := get in
  let c := b_code (abuf a) in
  init_prev (c_bufmin c) (Z.to_nat (REF_BIAS - c_bufmin c));*
  upd_ir (fun ins => setPrev ins (REGSP_HINT RID_BASE)) REF_BASE;*
  init_parent (parentmap i) REF_FIRST (Z.to_nat (stopins i - REF_FIRST));*
  init_prev (stopins i) (Z.to_nat (c_bufmax c - stopins i)).

(** ** Exit stubs *)

(** The stubs of a group push the low byte of the exit number and jump
    to the common end. *)
Definition stub_bytes (group : Z) : list Z :=
  let groupofs := Z.land (group * EXITSTUBS_PER_GROUP) 0xff in
  [XI_PUSHi8; u1 groupofs]
  ++ concat (map (fun i => let i := Z.of_nat i in
                           [XI_JMPs; u1 ((2 + 2) * (EXITSTUBS_PER_GROUP - i) - 2);
                            XI_PUSHi8; u1 (groupofs + i)])
               (seq 1 (Z.to_nat EXITSTUBS_PER_GROUP - 1)))
  ++ [XI_PUSHi8; u1 (Z.shiftr (group * EXITSTUBS_PER_GROUP) 8); XI_JMP].
Definition generateExitstubGroup (group : Z) : M Z :=
  fun a =>
    let mxp := mcbot (area a) in
    if mctop (area a) <=? mxp + (2 + 2) * EXITSTUBS_PER_GROUP + 8 + 5 then Err (Exited 2)
    else
      let! c := put_rel asmExit (put_bytes (stub_bytes group) (bytes (code a), mxp)) in
      let! m := MachineCode.commitStub (mcode a) (snd c) in
      let r := area a in
      Ok (mxp, set_area (mkArea (mcend r) (snd c + MCLIM_REDZONE) (snd c) (mctop r)
                           (mcQuickHeapCheck r))
                 (set_acode (mkBytes (fst c) (mcp (code a))) (set_mcode m a))).

(** [setupExitStubs]: the groups from [i] on; the dump of the stubs to a
    file is left out. *)
Fixpoint setup_groups (i : Z) (n : nat) : M () :=
  match n with
  | O => aret tt
  | S n' =>
      let* a := get in
      let* g := alift (of_option WildAccess (exitStubGroup a !! Z.to_nat i)) in
      (if g =? 0 then
         let* p := generateExitstubGroup i in
         modify (fun a => set_stubs (<[Z.to_nat i := p]> (exitStubGroup a)) a)
       else aret tt);*
      setup_groups (i + 1) n'
  end.
Definition setupExitStubs (nexits : Z) : M () :=
  if EXITSTUBS_PER_GROUP * 16 <=? nexits then fail (Exited 3)
  else setup_groups 0 (Z.to_nat ((nexits + EXITSTUBS_PER_GROUP + 1) / EXITSTUBS_PER_GROUP)).

(** ** [prepareTail] and [fixupTail] *)

Definition prepareTail (saveref : Z) : M () :=
  let* fast := getOption kOptFastHeapCheckFail in
  let* a := get in
  (if fast && (0 <? numHeapChecks a) then
     let r := area a in
     let top := mctop r - QUICK_HEAP_CHECK_FAIL_SIZE in
     modify (set_area (mkArea (mcend r) (mclim r) (mcbot r) top top))
   else aret tt);*
  let* a := get in
  let* ins := bufir saveref in
  let* dbg := getOption kOptDebugTrace in
  let p := mctop (area a) in
  let p := if negb (saveref =? 0) && negb (op1 ins =? 0)
           then (if op1 ins =? IR_SAVE_LINK then p - 5 - 8 else p - 5) else p in
  let p := if dbg : bool then p - 5 else p in
  modify (fun a => set_acode (mkBytes (bytes (code a)) p) a).

(** The code above the body is filled in when its target is known. *)
Definition fixupTail (target saveref : Z) : M () :=
  let* ins := bufir saveref in
  let* dbg := getOption kOptDebugTrace in
  fun a =>
    let! c := (if negb (target =? 0) then emit_jmp target (mkBytes (bytes (code a)) (mctop (area a)))
               else Ok (mkBytes (bytes (code a)) (mctop (area a)))) in
    let c := if negb (saveref =? 0) && (op1 ins =? IR_SAVE_LINK)
             then emitSetTraceId (op2 ins) c else c in
    let! c := (if dbg : bool then emit_call asmTrace c else Ok c) in
    Ok (tt, set_acode (mkBytes (bytes c) (mcp (code a))) a).

(** ** [assemble] *)

(** The main loop, from [curins] down to [stopins]: one instruction, *)
Definition assemble_ins : M () :=
  let* a := get in
  let* ins := bufir (curins a) in
  if isGuard ins then
    let* snap := asnap (snapno a) in
    lc_assert (sn_ref snap =? curins a);*
    (if negb (bool_decide (ir_o ins = kSAVE))
     then snapshotAlloc (b_snapmap (abuf a)) (snap_range snap) else aret tt);*
    emit (curins a);*
    modify (fun a => set_snapno (u2 (snapno a - 1)) a)
  else emit (curins a).
(** and all of them. *)
Fixpoint assemble_loop (n : nat) : M () :=
  match n with
  | O => fail OutOfFuel
  | S n' =>
      let* a := get in
      if curins a <? astopins a then aret tt
      else
        assemble_ins;*
        modify (fun a => set_curins (curins a - 1) a);*
        assemble_loop n'
  end.

Definition kRegsAllocated : Z := 16.
Definition setRegsAllocated : M () :=
  modify (fun a => let b := abuf a in
    set_abuf (mkIRB (b_code b) (Flags32.set (b_flags b) kRegsAllocated) (b_fold b) (b_slots b)
                (b_snapmap b) (b_snaps b) (b_heap b) (b_steps b) (b_pc b)) a).

(** What [assemble] reads of the [Jit]. *)
Record JitInfo := mkJI {
  ji_inherited : Inherited;
  ji_traceId : Z;
  ji_fallthrough : bool;
  ji_traceEntry : Z -> outcome Z
}.

(** The entry of a side trace: the new trace number, the base and the
    heap pointer.  The result is the target of a loop. *)
Definition side_entry (ji : JitInfo) : M Z :=
  let i := ji_inherited ji in
  match buf_parent i with
  | Some _ =>
      let* a := get in
      let loop_entry := mcp (code a) in
      emitc (emitSetTraceId (ji_traceId ji));*
      (if negb (entry_relbase i =? 0) then adjustBase (entry_relbase i) else aret tt);*
      (if negb (parentHeapReserved i =? 0)
       then adjustHeapPointer (- i4 (parentHeapReserved i * 8)) else aret tt);*
      let* a := get in
      aret (if ji_fallthrough ji then loop_entry else mcp (code a))
  | None => let* a := get in aret (mcp (code a))
  end.

(** Up to the loop: registers, code area, exit stubs and the space for the
    jump at the end.  The result is the [SAVE]. *)
Definition begin_assemble (ji : JitInfo) : M Z :=
  let* a := get in
  let saveref := chain (b_code (abuf a)) kSAVE in
  let nsnaps := u2 (Z.of_nat (length (b_snaps (abuf a)))) in
  setup (ji_inherited ji);*
  setupMachineCode;*
  setupExitStubs nsnaps;*
  modify (fun a => set_snapno (u2 (nsnaps - 1)) (set_curins (nins a) a));*
  prepareTail saveref;*
  modify (fun a => set_curins (curins a - 1) a);*
  aret saveref.

Definition assemble (ji : JitInfo) : M () :=
  let* saveref := begin_assemble ji in
  let* a := get in
  assemble_loop (S (Z.to_nat (nins a - astopins a)));*
  evictConstants;*
  (if negb (astopins a =? REF_FIRST) then
     setRegsAllocated;* mergeWithParent (parentmap (ji_inherited ji));* aret tt
   else aret tt);*
  let* loop_entry := side_entry ji in
  let* ins := bufir saveref in
  let* target :=
    (if negb (saveref =? 0) && (op1 ins =? IR_SAVE_LOOP) then aret loop_entry
     else if negb (saveref =? 0) && (op1 ins =? IR_SAVE_LINK) then alift (ji_traceEntry ji (op2 ins))
     else aret 0) in
  fixupTail target saveref;*
  setRegsAllocated;*
  let* a := get in
  lc_assert (freeset (ra a) =? kGPR);*
  (fun a => let! m := MachineCode.commit (mcode a) (mcp (code a)) in Ok (tt, set_mcode m a)).

(** [finish], for code that is not a trace. *)
Definition finish : M Z :=
  fun a =>
    let top := mcp (code a) in
    let! m := MachineCode.commit (mcode a) top in
    let r := area a in
    Ok (top, set_area (mkArea 0 0 (mcbot r) 0 (mcQuickHeapCheck r))
               (set_acode (mkBytes (bytes (code a)) 0) (set_mcode m a))).

(** ** Patching exits *)

Definition byte_at (p : Z) : M Z :=
  fun a => let! b := of_option WildAccess (bytes (code a) !! p) in Ok (b, a).
(** The new operand, of a jump whose operand is at [p]. *)
Definition patch_rel (p target : Z) : M () :=
  fun a => let! d := jmprel (p + 4) target in
           Ok (tt, set_acode (mkBytes (put_le 4 (bytes (code a)) p d) (mcp (code a))) a).
Definition patchGuard (F : Fragment) (exitno target : Z) : M () :=
  let* snap := alift (Fragment.snap F exitno) in
  let p := sn_mcode snap in
  let* ar := (fun a => let! '(m, ar) := MachineCode.patchBegin (mcode a) p in Ok (ar, set_mcode m a)) in
  let* b := byte_at p in
  (if b =? 0x0f then
     let* b1 := byte_at (p + 1) in
     lc_assert (XI_JCCn <=? b1);*
     lc_assert (b1 <=? XI_JCCn + 15);*
     patch_rel (p + 2) target
   else
     lc_assert (b =? XI_JMP);*
     patch_rel (p + 1) target);*
  (fun a => let! m := MachineCode.patchFinish (mcode a) ar in Ok (tt, set_mcode m a)).

(** [patchFallthrough]: a bridge that sets the trace number. *)
Definition patchFallthrough (P : Fragment) (exitno : Z) (target : Fragment) : M () :=
  setupMachineCode;*
  emito (emit_jmp (fr_mcode target));*
  emitc (emitSetTraceId (fr_traceId target));*
  let* a := get in
  let bridge_start := mcp (code a) in
  (fun a => let! m := MachineCode.commit (mcode a) bridge_start in Ok (tt, set_mcode m a));*
  patchGuard P exitno bridge_start.

(** ** The operations the recorder uses *)

Definition jit_info (j : Jit Assembler) : JitInfo :=
  mkJI (inherited j) (Z.of_nat (length (fragments j))) (bool_decide (traceType j = TT_FALLTHROUGH))
    (fun n => let! F := traceById j n in Ok (fr_mcode F)).
#[export] Instance asm_ops : AsmOps Assembler := {
  asm_assemble j :=
    let! '(_, a) := assemble (jit_info j) (set_abuf (buf j) (asm j)) in Ok (a, abuf a);
  asm_mcp a := mcp (code a);
  asm_patchGuard a F n target := let! '(_, a) := patchGuard F n target a in Ok a;
  asm_patchFallthrough a P n target := let! '(_, a) := patchFallthrough P n target a in Ok a
}.

End assemble.
