(* ===== verification/AsmMoves.v ===== *)
(** * Parallel moves ([Assembler::parallelAssign])

    Where a side trace begins, the values in the registers and spill slots
    of its parent have to be brought to its own, all at once.  The code
    that [parallelAssign] writes, backwards and with at most one temporary
    at a time, is a parallel assignment. *)

From S2P Require Import Prelude Words Hotness IR.
From S2P Require Import Registers X86 X86Sem X86Proofs AsmState.
From S2P Require Import AsmInv.
From S2P Require Import AsmInstr.
From S2P Require Import Assembler.
Import RegSetProofs.

Section machine.
Context {TF : TraceFrame}.
Abbreviation SP := tf_sp.

(** ** Locations *)

Inductive loc := LReg (r : Z) | LMem (x : Z).
#[local] Instance loc_eq_dec : EqDecision loc.
Proof. solve_decision. Defined.

#[local] Instance RegSpill_eq_dec : EqDecision RegSpill.
Proof. solve_decision. Defined.

Definition get_loc (m : mach) (x : loc) : option Z :=
  match x with LReg r => Some (gpr m r) | LMem x => mmem m x end.
Definition loc_of (x : RegSpill) : loc := if isReg (rs_reg x) then LReg (rs_reg x) else LMem (slot_addr (rs_spill x)).
(** Spill slot 0 is not used for values. *)
Definition slot0 : loc := LMem (slot_addr 0).

(** A register for values, or one of the other slots. *)
Definition place (x : RegSpill) : Prop :=
  (in_gpr (rs_reg x) /\ rs_spill x = 0) \/ (isReg (rs_reg x) = false /\ 0 < rs_spill x < 256).
Definition temp_place (x : RegSpill) : Prop := place x \/ x = mkRS RID_HP 0.

Lemma isReg_hp : isReg RID_HP = true.
Proof using Type. reflexivity. Qed.
Lemma slot_addr_inj s s' : slot_addr s = slot_addr s' -> s = s'.
Proof using Type. unfold slot_addr. lia. Qed.
Lemma place_reg x : temp_place x -> isReg (rs_reg x) = true -> rs_spill x = 0 /\ 0 <= rs_reg x < 16 /\ rs_reg x <> RID_ESP.
Proof using Type.
  intros [[[Hr Hs]|[Hn _]]| ->] H; [|congruence|by vm_compute].
  pose proof (gpr_range _ Hr). by split_and!; unfold RID_ESP; try lia.
Qed.
Lemma place_slot x : temp_place x -> isReg (rs_reg x) = false -> 0 < rs_spill x < 256.
Proof using Type. intros [[[Hr _]|[_ Hs]]| ->] H; [|done|done]. rewrite (isReg_gpr _ Hr) in H. done. Qed.
Lemma place_not_sp x : temp_place x -> loc_of x <> LReg RID_ESP.
Proof using Type.
  intros Hx. unfold loc_of. destruct (isReg (rs_reg x)) eqn:E; [|done]. intros [= H]. by destruct (place_reg x Hx E) as (_ & _ & ?).
Qed.
Lemma place_not_slot0 x : temp_place x -> loc_of x <> slot0.
Proof using Type.
  intros Hx. unfold loc_of, slot0. destruct (isReg (rs_reg x)) eqn:E; [done|]. intros [= H%slot_addr_inj].
  pose proof (place_slot x Hx E). lia.
Qed.
Lemma place_not_hp x : place x -> loc_of x <> LReg RID_HP.
Proof using Type.
  unfold loc_of. intros [[Hr _]|[Hn _]]; [|by rewrite Hn]. rewrite (isReg_gpr _ Hr). intros [= E].
  pose proof (gpr_range _ Hr). unfold RID_HP, RID_R12D in *. lia.
Qed.

(** [conflicts] compares the locations. *)
Lemma conflicts_spec d s : temp_place d -> place s -> conflicts d s = bool_decide (loc_of d = loc_of s).
Proof using Type.
  intros Hd Hs. unfold conflicts, hasSpill, loc_of. assert (Hs' : temp_place s) by by left.
  destruct (isReg (rs_reg d)) eqn:Ed; cbn [andb].
  - destruct (place_reg d Hd Ed) as (-> & _ & _). cbn [Z.eqb negb andb]. rewrite orb_false_r.
    destruct (Z.eqb_spec (rs_reg d) (rs_reg s)) as [E|E].
    + rewrite <- E, Ed. symmetry. by apply bool_decide_eq_true.
    + symmetry. apply bool_decide_eq_false. destruct (isReg (rs_reg s)); congruence.
  - pose proof (place_slot d Hd Ed) as Hsd. rewrite (proj2 (Z.eqb_neq (rs_spill d) 0)) by lia. cbn [negb andb orb].
    destruct (isReg (rs_reg s)) eqn:Es.
    + destruct (place_reg s Hs' Es) as (-> & _ & _). rewrite (proj2 (Z.eqb_neq (rs_spill d) 0)) by lia.
      symmetry. by apply bool_decide_eq_false.
    + destruct (Z.eqb_spec (rs_spill d) (rs_spill s)) as [->|Hn]; symmetry; [by apply bool_decide_eq_true|].
      apply bool_decide_eq_false. intros [= E%slot_addr_inj]. done.
Qed.

(** ** One move *)

(** The stack pointer is that of the trace's frame, and the frame is
    there. *)
Definition framed (m : mach) : Prop :=
  gpr m RID_ESP = SP /\ forall s, 0 <= s < 256 -> is_Some (mmem m (slot_addr s)).
(** [m'] is [m] with the value of [s] in [d]. *)
Record moved (d s : loc) (m m' : mach) : Prop := {
  mv_frame : framed m';
  mv_at : get_loc m' d = get_loc m s;
  mv_other : forall x, x <> d -> get_loc m' x = get_loc m x
}.
Lemma set_gpr_moved r s v m : framed m -> r <> RID_ESP -> get_loc m s = Some v -> moved (LReg r) s m (set_gpr r v m).
Proof using Type.
  intros [Hsp Hf] Hr Hv. split.
  - split; [|done]. cbn. unfold upd. by rewrite (proj2 (Z.eqb_neq RID_ESP r)).
  - rewrite Hv. cbn. unfold upd. by rewrite Z.eqb_refl.
  - intros [q|x] Hx; [|done]. cbn. unfold upd. rewrite (proj2 (Z.eqb_neq q r)); [done|congruence].
Qed.
Lemma set_mem_moved a r m : framed m -> moved (LMem a) (LReg r) m (set_mem a (gpr m r) m).
Proof using Type.
  intros [Hsp Hf]. split.
  - split; [done|]. intros s Hs. cbn. unfold upd. destruct (_ =? a); [by eexists|by apply Hf].
  - cbn. unfold upd. by rewrite Z.eqb_refl.
  - intros [q|x] Hx; [done|]. cbn. unfold upd. rewrite (proj2 (Z.eqb_neq x a)); [done|congruence].
Qed.
Lemma load_moved r s m : framed m -> r <> RID_ESP -> 0 <= s < 256 ->
  exists m', exec (IMovRM true r (OMem RID_ESP None (spillOffset s))) m = Some (Next m') /\ moved (LReg r) (LMem (slot_addr s)) m m'.
Proof using Type.
  intros Hf Hr Hs. destruct Hf as [Hsp Hf]. destruct (Hf s Hs) as [v Hv]. exists (set_gpr r v m).
  split; [by apply load_slot|by apply set_gpr_moved].
Qed.
Lemma store_moved r s m : framed m -> 0 <= s < 256 ->
  exists m', exec (IMovMR true (OMem RID_ESP None (spillOffset s)) r) m = Some (Next m') /\ moved (LMem (slot_addr s)) (LReg r) m m'.
Proof using Type.
  intros Hf Hs. exists (set_mem (slot_addr s) (gpr m r) m). split; [|by apply set_mem_moved].
  destruct Hf as [Hsp Hf]. destruct (slot_ea s m Hs Hsp) as [Ea Hal]. destruct (Hf s Hs) as [v Hv].
  cbn [exec wr]. unfold rd_mem. by rewrite Ea, Hal, Hv.
Qed.

(** Code [l] that moves [s] to [d]. *)
Definition moves (l : list instr) (d s : loc) : Prop :=
  forall m, framed m -> exists m', exec_list l m = Some (Next m') /\ moved d s m m'.
Lemma moves_one i d s : (forall m, framed m -> exists m', exec i m = Some (Next m') /\ moved d s m m') -> moves [i] d s.
Proof using Type. intros H m Hf. destruct (H m Hf) as (m' & X & Hm). exists m'. split; [|done]. cbn. by rewrite X. Qed.

Lemma move_moves c d s : is_gpr d -> is_gpr s -> d <> RID_ESP ->
  exists l, emits c (move d s c) l /\ moves l (LReg d) (LReg s).
Proof using Type.
  intros Hd Hs Hn. eexists. split; [by apply move_emits|]. apply moves_one. intros m Hf. eexists. split; [reflexivity|].
  by apply set_gpr_moved.
Qed.
Lemma load_moves c d s : is_gpr d -> d <> RID_ESP -> 0 <= s < 256 ->
  exists l, emits c (load_u64 d RID_ESP (spillOffset s) c) l /\ moves l (LReg d) (LMem (slot_addr s)).
Proof using Type.
  intros Hd Hn Hs. eexists. split; [apply load_emits; [done|by vm_compute|apply spillOffset_i32]|].
  apply moves_one. intros m Hf. by apply load_moved.
Qed.
Lemma store_moves c d s : is_gpr s -> 0 <= d < 256 ->
  exists l, emits c (store_u64 RID_ESP (spillOffset d) s c) l /\ moves l (LMem (slot_addr d)) (LReg s).
Proof using Type.
  intros Hs Hd. eexists. split; [apply store_emits; [done|by vm_compute|apply spillOffset_i32]|].
  apply moves_one. intros m Hf. by apply store_moved.
Qed.

(** ** The state of an assignment *)

Section assign.
Context (dests srcs : list RegSpill) (free0 : Z).

(** A destination and a source that differ, not both in memory.  The
    destinations are distinct, and their registers are in use. *)
Definition same_place (i : nat) : Prop := exists d s, dests !! i = Some d /\ srcs !! i = Some s /\ loc_of d = loc_of s.
Record moves_ok : Prop := {
  mo_length : length srcs = length dests;
  mo_dest : forall i d, dests !! i = Some d -> place d;
  mo_src : forall i s, srcs !! i = Some s -> place s;
  mo_reg : forall i d s, dests !! i = Some d -> srcs !! i = Some s -> isReg (rs_reg d) || isReg (rs_reg s) = true;
  mo_nodup : forall i j d e, dests !! i = Some d -> dests !! j = Some e -> loc_of d = loc_of e -> i = j;
  mo_used : forall i d, dests !! i = Some d -> isReg (rs_reg d) = true -> RegSet.test free0 (rs_reg d) = false;
  mo_free : 0 <= free0 /\ forall r, 0 <= r -> RegSet.test free0 r = true -> in_gpr r
}.
Context (Hok : moves_ok).

(** A register that is free, or the heap pointer once that is saved. *)
Definition temp (hp : bool) (t : Z) : Prop := (0 <= t /\ RegSet.test free0 t = true) \/ (t = RID_HP /\ hp = true).
Lemma temp_is_place hp t : temp hp t -> temp_place (mkRS t 0) /\ loc_of (mkRS t 0) = LReg t.
Proof using Hok.
  intros [[H0 Ht]|[-> _]]; [|split; [by right|done]]. pose proof (proj2 (mo_free Hok) t H0 Ht) as Hg.
  split; [left; by left|]. unfold loc_of. cbn [rs_reg]. by rewrite (isReg_gpr _ Hg).
Qed.
Lemma temp_not_dest hp t i d : temp hp t -> dests !! i = Some d -> loc_of d <> LReg t.
Proof using Hok.
  intros Ht Hd. pose proof (mo_dest Hok i d Hd) as Hp. destruct Ht as [[H0 Ht]|[-> _]]; [|by apply place_not_hp].
  unfold loc_of. destruct (isReg (rs_reg d)) eqn:E; [|done]. intros [= <-]. rewrite (mo_used Hok i d Hd E) in Ht. done.
Qed.

Definition status_of (p : ParAssign) (i : nat) : PaStatus := default PA_STATUS_DONE (pa_status p !! i).
(** What is still to be moved to its destination. *)
Definition pending (p : ParAssign) (i : nat) : Prop := status_of p i <> PA_STATUS_DONE /\ ~ same_place i.
(** Where the value of a destination is when the code so far begins. *)
Definition wanted (p : ParAssign) (i : nat) (d s : RegSpill) : loc :=
  if decide (status_of p i = PA_STATUS_DONE) then loc_of s else loc_of d.

(** The code so far moves what is done; the rest of the destinations has
    to be there when it begins. *)
Record completes (p : ParAssign) (m m' : mach) : Prop := {
  cm_frame : framed m';
  cm_dest : forall i d0 d s, dests !! i = Some d0 -> pa_dest p !! i = Some d -> srcs !! i = Some s ->
            get_loc m' (loc_of d0) = get_loc m (wanted p i d s);
  cm_hp : get_loc m' (LReg RID_HP) = get_loc m (if usingHp p then slot0 else LReg RID_HP);
  cm_other : forall x, (forall i d, dests !! i = Some d -> loc_of d <> x) -> (forall r, x = LReg r -> 0 <= r -> RegSet.test free0 r = false) ->
             x <> LReg RID_HP -> x <> slot0 -> get_loc m' x = get_loc m x
}.
Record pa_inv (a : Assembler) (p : ParAssign) (l : list instr) : Prop := {
  pi_dests : length (pa_dest p) = length dests;
  pi_status : length (pa_status p) = length dests;
  pi_source : pa_source p = srcs /\ tmpsInUse p = 0;
  pi_free : 0 <= freeset (ra a) /\ forall r, 0 <= r -> RegSet.test (freeset (ra a)) r = true -> RegSet.test free0 r = true;
  pi_dest : forall i d, pa_dest p !! i = Some d ->
            dests !! i = Some d \/ (exists t, d = mkRS t 0 /\ temp (usingHp p) t /\ status_of p i <> PA_STATUS_TODO);
  pi_same : forall i, same_place i -> status_of p i = PA_STATUS_TODO;
  pi_used : forall k s, status_of p k = PA_STATUS_DONE -> srcs !! k = Some s -> isReg (rs_reg s) = true ->
            RegSet.test (freeset (ra a)) (rs_reg s) = false;
  pi_done : forall k j s d, status_of p k = PA_STATUS_DONE -> srcs !! k = Some s -> pending p j -> pa_dest p !! j = Some d ->
            loc_of d <> loc_of s;
  pi_code : forall m, framed m -> exists m', exec_list l m = Some (Next m') /\ completes p m m'
}.
(** At most entry [T] has a temporary for its destination. *)
Definition temps_in (p : ParAssign) (T : option nat) : Prop :=
  forall i d, status_of p i <> PA_STATUS_DONE -> pa_dest p !! i = Some d -> T <> Some i -> dests !! i = Some d.

Lemma cur_place a p l i d : pa_inv a p l -> pa_dest p !! i = Some d -> temp_place d.
Proof using Hok.
  intros I Hd. destruct (pi_dest _ _ _ I i d Hd) as [H|(t & -> & Ht & _)]; [left; by apply (mo_dest Hok i)|by eapply temp_is_place].
Qed.
(** The destinations that are left are distinct. *)
Lemma cur_distinct a p l T i j d e :
  pa_inv a p l -> temps_in p T -> status_of p i <> PA_STATUS_DONE -> status_of p j <> PA_STATUS_DONE ->
  pa_dest p !! i = Some d -> pa_dest p !! j = Some e -> loc_of d = loc_of e -> i = j.
Proof using Hok.
  intros I HT Hi Hj Hd He E. destruct (decide (i = j)) as [|Hn]; [done|]. exfalso.
  assert (Hcase : forall i j d e, i <> j -> status_of p i <> PA_STATUS_DONE -> pa_dest p !! i = Some d -> pa_dest p !! j = Some e ->
            status_of p j <> PA_STATUS_DONE -> loc_of d = loc_of e -> T <> Some i -> False).
  { clear dependent i j d e. intros i j d e Hn Hi Hd He Hj E HTi. pose proof (HT i d Hi Hd HTi) as Hd0.
    destruct (pi_dest _ _ _ I j e He) as [He0|(t & -> & Ht & _)].
    - apply Hn. by apply (mo_nodup Hok i j d e).
    - rewrite (proj2 (temp_is_place _ _ Ht)) in E. by apply (temp_not_dest _ _ _ _ Ht Hd0). }
  destruct (decide (T = Some i)) as [->|HTi]; [|by apply (Hcase i j d e)].
  apply (Hcase j i e d); try done. congruence.
Qed.

(** ** Steps *)

Lemma status_set p i st k :
  (i < length (pa_status p))%nat -> status_of (set_status i st p) k = if decide (k = i) then st else status_of p k.
Proof using Type.
  intros Hi. unfold status_of. cbn [set_status pa_status]. destruct (decide (k = i)) as [->|Hn].
  - by rewrite list_lookup_insert_eq.
  - by rewrite list_lookup_insert_ne.
Qed.
Lemma dest_range a p l i d : pa_inv a p l -> pa_dest p !! i = Some d -> (i < length (pa_status p))%nat.
Proof using Type. intros I Hd%lookup_lt_Some. rewrite (pi_status _ _ _ I), <- (pi_dests _ _ _ I). exact Hd. Qed.
Lemma exec_moves l l' d s m :
  moves l' d s -> framed m ->
  exists m1, moved d s m m1 /\ exec_list (l' ++ l) m = exec_list l m1.
Proof using Type. intros Hm Hf. destruct (Hm m Hf) as (m1 & X & M). exists m1. split; [done|]. by rewrite exec_list_app, X. Qed.

(** The move for entry [i] is written. *)
Lemma transfer_step a a' p l T i d s l' :
  pa_inv a p l -> temps_in p T -> pending p i -> pa_dest p !! i = Some d -> srcs !! i = Some s ->
  (forall k e, k <> i -> pending p k -> pa_dest p !! k = Some e -> loc_of e <> loc_of s) ->
  moves l' (loc_of d) (loc_of s) ->
  0 <= freeset (ra a') -> (forall r, 0 <= r < 32 -> RegSet.test (freeset (ra a')) r = RegSet.test (freeset (ra a)) r && negb (isReg (rs_reg s) && (r =? rs_reg s))) ->
  (forall r, 0 <= r -> RegSet.test (freeset (ra a')) r = true -> RegSet.test (freeset (ra a)) r = true) ->
  pa_inv a' (set_status i PA_STATUS_DONE p) (l' ++ l) /\ temps_in (set_status i PA_STATUS_DONE p) (if decide (T = Some i) then None else T).
Proof using Hok.
  intros I HT [Hi Hsame] Hd Hs Hno Hmv Hf0 Hfree Hsub. pose proof (dest_range _ _ _ _ _ I Hd) as Hr.
  pose proof (cur_place _ _ _ _ _ I Hd) as Hpd. pose proof (mo_src Hok i s Hs) as Hps.
  assert (St : forall k, status_of (set_status i PA_STATUS_DONE p) k = if decide (k = i) then PA_STATUS_DONE else status_of p k)
    by (intros k; by apply status_set).
  split.
  - split; try apply I.
    + cbn. rewrite length_insert. apply I.
    + split; [done|]. intros r H0 Ht. by apply I, Hsub.
    + intros k e He. destruct (pi_dest _ _ _ I k e He) as [H|(t & -> & Ht & Hst)]; [by left|]. right. exists t.
      split_and!; try done. rewrite St. by destruct (decide _).
    + intros k Hk. rewrite St. destruct (decide (k = i)) as [->|]; [done|by apply I].
    + intros k e Hk He Hreg. rewrite St in Hk. destruct (place_reg e) as (_ & Hrg & _); [left; by apply (mo_src Hok k)|done|].
      rewrite Hfree by lia. destruct (decide (k = i)) as [->|Hne].
      * rewrite Hs in He. injection He as <-. rewrite Hreg, Z.eqb_refl. apply andb_false_r.
      * by rewrite (pi_used _ _ _ I k e Hk He Hreg).
    + intros k j e f Hk He [Hj Hnj] Hf. rewrite St in Hk, Hj. destruct (decide (j = i)) as [->|Hji]; [done|].
      destruct (decide (k = i)) as [->|Hki]; [rewrite Hs in He; injection He as <-; by apply (Hno j)|].
      by apply (pi_done _ _ _ I k j).
    + intros m Hm. destruct (exec_moves l l' _ _ m Hmv Hm) as (m1 & [M1 M2 M3] & X).
      destruct (pi_code _ _ _ I m1 M1) as (m' & X' & [C1 C2 C3 C4]). exists m'. split; [by rewrite X|]. split; [done| | |].
      * intros k d0 e f Hd0 He Hf. change (pa_dest p !! k = Some e) in He. rewrite (C2 k d0 e f Hd0 He Hf). unfold wanted. rewrite St.
        destruct (decide (k = i)) as [->|Hne].
        -- rewrite decide_False by done. rewrite decide_True by done. rewrite Hd in He. injection He as <-. rewrite Hs in Hf. injection Hf as <-. exact M2.
        -- destruct (decide (status_of p k = _)) as [Hk|Hk].
           ++ apply M3. intros E. by apply (pi_done _ _ _ I k i f d Hk Hf (conj Hi Hsame) Hd).
           ++ apply M3. intros E. apply Hne. by apply (cur_distinct a p l T k i e d).
      * rewrite C3. cbn [set_status usingHp]. destruct (usingHp p) eqn:Eu.
        -- apply M3. intros E. by apply (place_not_slot0 d).
        -- apply M3. intros E. destruct (pi_dest _ _ _ I i d Hd) as [H|(t & -> & Ht & _)]; [by apply (place_not_hp d (mo_dest Hok i d H))|].
           rewrite Eu in Ht. destruct (temp_is_place _ _ Ht) as [_ El]. rewrite El in E. assert (t = RID_HP) as -> by congruence. destruct Ht as [[_ Ht]|[_ ?]]; [|done].
           pose proof (gpr_range _ (proj2 (mo_free Hok) RID_HP ltac:(by vm_compute) Ht)). unfold RID_HP, RID_R12D in *. lia.
      * intros x H1 H2 H3 H4. rewrite C4 by done. apply M3. intros ->.
        destruct (pi_dest _ _ _ I i d Hd) as [H|(t & -> & Ht & _)]; [by apply (H1 i d H)|].
        destruct (temp_is_place _ _ Ht) as [_ El]. rewrite El in H2, H3. destruct Ht as [[H0 Ht]|[-> _]]; [|done].
        by rewrite (H2 t eq_refl H0) in Ht.
  - intros k e Hk He HT'. rewrite St in Hk. destruct (decide (k = i)) as [->|Hne]; [done|]. apply HT; try done.
    intros ->. rewrite decide_False in HT' by congruence. done.
Qed.

(** The heap pointer is loaded from its slot. *)
Lemma save_hp_step a p l l' :
  pa_inv a p l -> temps_in p None -> usingHp p = false -> moves l' (LReg RID_HP) slot0 ->
  pa_inv a (set_tmps 0 true p) (l' ++ l) /\ temps_in (set_tmps 0 true p) None.
Proof using Hok.
  intros I HT Hu Hmv. split; [|exact HT]. split; try apply I.
  - split; [apply I|done].
  - intros k e He. destruct (pi_dest _ _ _ I k e He) as [H|(t & -> & Ht & Hst)]; [by left|]. right. exists t. split_and!; try done.
    destruct Ht as [Ht|[-> _]]; [by left|by right].
  - intros m Hm. destruct (exec_moves l l' _ _ m Hmv Hm) as (m1 & [M1 M2 M3] & X).
    destruct (pi_code _ _ _ I m1 M1) as (m' & X' & [C1 C2 C3 C4]). exists m'. split; [by rewrite X|]. split; [done| | |].
    + intros k d0 e f Hd0 He Hf. rewrite (C2 k d0 e f Hd0 He Hf). unfold wanted. change (status_of (set_tmps 0 true p) k) with (status_of p k).
      apply M3. destruct (decide _) as [Hk|Hk]; [by apply place_not_hp, (mo_src Hok k)|]. apply place_not_hp, (mo_dest Hok k). by apply HT.
    + rewrite C3, Hu. exact M2.
    + intros x H1 H2 H3 H4. rewrite C4 by done. by apply M3.
Qed.

(** The value for entry [j] goes through the temporary [t]. *)
Lemma break_step a p l j d t l' :
  pa_inv a p l -> temps_in p None -> status_of p j = PA_STATUS_MOVING -> pa_dest p !! j = Some d ->
  temp (usingHp p) t -> (t = RID_HP \/ RegSet.test (freeset (ra a)) t = true) -> moves l' (loc_of d) (LReg t) ->
  pa_inv a (set_dest j (mkRS t 0) p) (l' ++ l) /\ temps_in (set_dest j (mkRS t 0) p) (Some j).
Proof using Hok.
  intros I HT Hj Hd Ht Hfree Hmv. destruct (temp_is_place _ _ Ht) as [Htp Htl].
  assert (Hd0 : dests !! j = Some d) by (apply HT; [by rewrite Hj|done|done]).
  assert (Hr : (j < length (pa_dest p))%nat) by by apply lookup_lt_Some in Hd.
  assert (Hcur : forall k e, pa_dest (set_dest j (mkRS t 0) p) !! k = Some e -> (k = j /\ e = mkRS t 0) \/ (k <> j /\ pa_dest p !! k = Some e)).
  { intros k e He. cbn in He. destruct (decide (k = j)) as [->|Hn]; [left|right; split; [done|]].
    - rewrite list_lookup_insert_eq in He by done. by injection He as <-.
    - by rewrite list_lookup_insert_ne in He. }
  assert (Hsrc : forall k s, status_of p k = PA_STATUS_DONE -> srcs !! k = Some s -> loc_of s <> LReg t).
  { intros k s Hk Hs E. pose proof (mo_src Hok k s Hs) as Hps. destruct Hfree as [->|Hfree]; [by apply (place_not_hp s)|].
    unfold loc_of in E. destruct (isReg (rs_reg s)) eqn:Er; [|done]. injection E as E.
    pose proof (pi_used _ _ _ I k s Hk Hs Er) as Hu. rewrite E in Hu. congruence. }
  split.
  - split; try apply I.
    + cbn. rewrite length_insert. apply I.
    + intros k e He. destruct (Hcur k e He) as [[-> ->]|[Hn He']]; [|by apply I]. right. exists t. split_and!; try done.
      change (status_of p j <> PA_STATUS_TODO). by rewrite Hj.
    + intros k i s e Hk Hs Hi He. destruct (Hcur i e He) as [[-> ->]|[Hn He']].
      * rewrite Htl. intros E. by apply (Hsrc k s Hk Hs).
      * by apply (pi_done _ _ _ I k i).
    + intros m Hm. destruct (exec_moves l l' _ _ m Hmv Hm) as (m1 & [M1 M2 M3] & X).
      destruct (pi_code _ _ _ I m1 M1) as (m' & X' & [C1 C2 C3 C4]). exists m'. split; [by rewrite X|]. split; [done| | |].
      * intros k d0 e f Hk0 He Hf. unfold wanted. change (status_of (set_dest j (mkRS t 0) p) k) with (status_of p k).
        assert (Hj' : status_of p j <> PA_STATUS_DONE) by by rewrite Hj.
        assert (Hpj : pending p j).
        { split; [done|]. intros Hsm. rewrite (pi_same _ _ _ I j Hsm) in Hj. done. }
        destruct (Hcur k e He) as [[-> ->]|[Hn He']].
        -- rewrite decide_False by done. rewrite (C2 j d0 d f Hk0 Hd Hf). unfold wanted. rewrite decide_False by done. by rewrite Htl.
        -- rewrite (C2 k d0 e f Hk0 He' Hf). unfold wanted. apply M3. destruct (decide _) as [Hk|Hk]; intros E.
           ++ by apply (pi_done _ _ _ I k j f d Hk Hf Hpj Hd).
           ++ apply Hn. by apply (cur_distinct a p l None k j e d).
      * rewrite C3. cbn [set_dest usingHp]. destruct (usingHp p); apply M3; intros E.
        -- by apply (place_not_slot0 d (or_introl (mo_dest Hok j d Hd0))).
        -- by apply (place_not_hp d (mo_dest Hok j d Hd0)).
      * intros x H1 H2 H3 H4. rewrite C4 by done. apply M3. intros ->. by apply (H1 j d).
  - intros k e Hk He HT'. destruct (Hcur k e He) as [[-> ->]|[Hn He']]; [done|]. by apply HT.
Qed.

(** ** The operations *)

Lemma abind_run {A B} (m : M A) (k : A -> M B) a x a1 : m a = Ok (x, a1) -> abind m k a = k x a1.
Proof using Type. intros H. unfold abind. by rewrite H. Qed.
Lemma pa_get_run {A} (l : list A) i x a : l !! i = Some x -> pa_get l i a = Ok (x, a).
Proof using Type. intros H. unfold pa_get, alift. by rewrite H. Qed.
Lemma clear_subset s r q : 0 <= q -> RegSet.test (RegSet.clear s r) q = true -> RegSet.test s q = true.
Proof using Type.
  intros Hq. unfold RegSet.clear, RegSet.exclude. rewrite !test_testbit, Z.land_spec by done. by intros [? _]%andb_true_iff.
Qed.
Lemma clear_nonneg s r : 0 <= s -> 0 <= RegSet.clear s r.
Proof using Type. intros Hs. unfold RegSet.clear, RegSet.exclude. apply Z.land_nonneg. by left. Qed.

Lemma transfer_run a d s :
  temp_place d -> place s -> isReg (rs_reg d) || isReg (rs_reg s) = true ->
  exists a' l, transfer d s a = Ok (tt, a') /\ emits (code a) (code a') l /\ moves l (loc_of d) (loc_of s)
    /\ freeset (ra a') = if isReg (rs_reg s) then RegSet.clear (freeset (ra a)) (rs_reg s) else freeset (ra a).
Proof using Type.
  intros Hd Hs Hreg. assert (Hs' : temp_place s) by by left. unfold transfer, loc_of.
  destruct (isReg (rs_reg d)) eqn:Ed.
  - destruct (place_reg d Hd Ed) as (Hd0 & Hdr & Hdn). rewrite (abind_run _ _ a tt (set_acode ((if isReg (rs_reg s) then move (rs_reg d) (rs_reg s) else load_u64 (rs_reg d) RID_ESP (spillOffset (rs_spill s))) (code a)) a)).
    2: { rewrite Hd0. destruct (isReg (rs_reg s)); reflexivity. }
    destruct (isReg (rs_reg s)) eqn:Es.
    + destruct (place_reg s Hs' Es) as (_ & Hsr & _). destruct (move_moves (code a) (rs_reg d) (rs_reg s) Hdr Hsr Hdn) as (l & E & M).
      eexists _, l. split_and!; [reflexivity|exact E|exact M|reflexivity].
    + pose proof (place_slot s Hs' Es) as Hsl. destruct (load_moves (code a) (rs_reg d) (rs_spill s) Hdr Hdn ltac:(lia)) as (l & E & M).
      eexists _, l. split_and!; [reflexivity|exact E|exact M|reflexivity].
  - cbn [orb] in Hreg. rewrite Hreg. destruct (place_reg s Hs' Hreg) as (_ & Hsr & _). pose proof (place_slot d Hd Ed) as Hdl.
    destruct (store_moves (code a) (rs_spill d) (rs_reg s) Hsr ltac:(lia)) as (l & E & M).
    eexists _, l. split_and!; [reflexivity|exact E|exact M|reflexivity].
Qed.

Lemma set_tmps_id p : tmpsInUse p = 0 -> set_tmps 0 (usingHp p) p = p.
Proof using Type. destruct p. cbn. by intros ->. Qed.

(** The temporary: a free register, or the heap pointer. *)
Lemma getTemp_run a p l :
  pa_inv a p l -> temps_in p None ->
  exists t p' a' l', getTemp p a = Ok ((t, p'), a') /\ emits (code a) (code a') l' /\ tmpsInUse p' = 1
    /\ pa_inv a' (set_tmps 0 (usingHp p') p) (l' ++ l) /\ temps_in (set_tmps 0 (usingHp p') p) None
    /\ p' = set_tmps 1 (usingHp p') p /\ temp (usingHp p') t /\ (t = RID_HP \/ RegSet.test (freeset (ra a')) t = true) /\ is_gpr t.
Proof using Hok.
  intros I HT. destruct (pi_source _ _ _ I) as [_ Htmp]. unfold getTemp. rewrite Htmp. cbn [Z.leb Z.compare].
  destruct (RegSet.isEmpty (freeset (ra a))) eqn:Ef.
  - destruct (usingHp p) eqn:Eu.
    + exists RID_HP, (set_tmps 1 true p), a, []. split_and!; try done; [|apply emits_nil| |by right|by left].
      * unfold abind, hasFreeReg. by rewrite Ef.
      * change (pa_inv a (set_tmps 0 true p) l). rewrite <- Eu, set_tmps_id by done. exact I.
    + destruct (load_moves (code a) RID_HP 0) as (l' & E & Mv); [by vm_compute|by vm_compute|lia|].
      exists RID_HP, (set_tmps 1 true p), (set_acode (load_u64 RID_HP RID_ESP SAVE_HP_OFFS (code a)) a), l'.
      destruct (save_hp_step a p l l' I HT Eu Mv) as [I' HT'].
      split_and!; try done; [| |by right|by left].
      * unfold abind, hasFreeReg. by rewrite Ef.
      * destruct I'. by split.
  - pose proof (pi_free _ _ _ I) as [F0 Fsub]. set (pick := RegSet.intersect (freeset (ra a)) kGPR).
    assert (Epick : RegSet.isEmpty pick = false).
    { destruct (not_empty _ F0 Ef) as (r & Hr0 & Hr). destruct (RegSet.isEmpty pick) eqn:Ep; [|done].
      pose proof (isEmpty_spec _ r Ep) as He. unfold pick in He. rewrite test_intersect, Hr in He by done.
      destruct (proj2 (mo_free Hok) r Hr0 (Fsub r Hr0 Hr)) as [_ Hg]. by rewrite Hg in He. }
    destruct (pickTop_spec pick) as [H0 Ht]; [by apply intersect_nonneg|done|]. set (t := RegSet.pickTop pick) in *.
    unfold pick in Ht. rewrite test_intersect in Ht by done. apply andb_true_iff in Ht as [Ht Hg].
    exists t, (set_tmps 1 (usingHp p) p), (mod_a t a), [].
    split_and!; try done; [|apply emits_nil| |by left; auto|by right|pose proof (gpr_range t (conj H0 Hg)); unfold is_gpr; lia].
    + assert (Hal : allocScratchReg kGPR a = Ok (t, mod_a t a)).
      { unfold allocScratchReg, pickReg, get, abind. cbn [obind]. fold pick. rewrite Epick. reflexivity. }
      unfold abind at 1, hasFreeReg. rewrite Ef. cbn [negb obind]. unfold abind. by rewrite Hal.
    + change (pa_inv (mod_a t a) (set_tmps 0 (usingHp p) p) l). rewrite set_tmps_id by done. destruct I. by split.
Qed.

Lemma break_cycle_run a p l j :
  pa_inv a p l -> temps_in p None -> status_of p j = PA_STATUS_MOVING ->
  exists p' a' l' t, break_cycle j p a = Ok (p', a') /\ emits (code a) (code a') l' /\ pa_inv a' p' (l' ++ l)
    /\ temps_in p' (Some j) /\ pa_status p' = pa_status p /\ pa_dest p' !! j = Some (mkRS t 0) /\ temp (usingHp p') t.
Proof using Hok.
  intros I HT Hj. destruct (getTemp_run a p l I HT) as (t & p1 & a1 & l1 & Hg & E1 & Ht1 & I1 & HT1 & Hp1 & Htmp & Hfr & Htg).
  unfold break_cycle. rewrite (abind_run _ _ _ _ _ Hg). cbn [fst snd].
  assert (Hrel : releaseTemp p1 a1 = Ok (set_tmps 0 (usingHp p1) p, a1)).
  { unfold releaseTemp. rewrite Ht1. cbn. by rewrite Hp1. }
  rewrite (abind_run _ _ _ _ _ Hrel). set (p2 := set_tmps 0 (usingHp p1) p) in *.
  destruct (lookup_lt_is_Some_2 (pa_dest p2) j) as [d Hd].
  { rewrite (pi_dests _ _ _ I1), <- (pi_status _ _ _ I). unfold status_of in Hj.
    destruct (pa_status p !! j) eqn:E; [by apply lookup_lt_Some in E|done]. }
  rewrite (abind_run _ _ _ _ _ (pa_get_run _ _ _ _ Hd)).
  assert (Hj1 : status_of p2 j = PA_STATUS_MOVING) by exact Hj.
  assert (Hd0 : dests !! j = Some d) by (apply HT1; [by rewrite Hj1|done|done]). pose proof (mo_dest Hok j d Hd0) as Hpd.
  assert (Hmv : exists l2, emits (code a1) ((if isReg (rs_reg d) then move (rs_reg d) t else store_u64 RID_ESP (spillOffset (rs_spill d)) t) (code a1)) l2
                  /\ moves l2 (loc_of d) (LReg t)).
  { unfold loc_of. destruct (isReg (rs_reg d)) eqn:Ed.
    - destruct (place_reg d (or_introl Hpd) Ed) as (_ & Hr & Hn). by apply move_moves.
    - pose proof (place_slot d (or_introl Hpd) Ed). apply store_moves; [done|lia]. }
  destruct Hmv as (l2 & E2 & M2). destruct (break_step a1 p2 _ j d t l2 I1 HT1 Hj1 Hd Htmp Hfr M2) as [I3 HT3].
  exists (set_dest j (mkRS t 0) p2), (set_acode ((if isReg (rs_reg d) then move (rs_reg d) t else store_u64 RID_ESP (spillOffset (rs_spill d)) t) (code a1)) a1),
    (l2 ++ l1), t.
  split_and!; try done.
  - destruct (isReg (rs_reg d)); reflexivity.
  - by eapply emits_app.
  - rewrite <- app_assoc. destruct I3. by split.
  - cbn. apply list_lookup_insert_eq. by apply lookup_lt_Some in Hd.
Qed.

(** ** The order of the moves *)

(** One round of the loop in [moveOne]. *)
Definition round (fuel : nat) (src : RegSpill) (j : nat) (p : ParAssign) : M ParAssign :=
  let* d := pa_get (pa_dest p) j in
  let* st := pa_get (pa_status p) j in
  if conflicts d src && negb (bool_decide (st = PA_STATUS_DONE)) then
    if bool_decide (st = PA_STATUS_TODO) then moveOne fuel j p else break_cycle j p
  else aret p.
Lemma moveOne_run fuel i p a d s :
  pa_dest p !! i = Some d -> pa_source p !! i = Some s -> isReg (rs_reg d) || isReg (rs_reg s) = true ->
  moveOne (S fuel) i p a
  = (if negb (rs_reg d =? rs_reg s) then
       let* p := pa_loop (seq 0 (pa_size p)) (round fuel s) (set_status i PA_STATUS_MOVING p) in
       let* d := pa_get (pa_dest p) i in
       let* s := pa_get (pa_source p) i in
       transfer d s;* aret (set_status i PA_STATUS_DONE p)
     else aret p) a.
Proof using Type.
  intros Hd Hs Hr. cbn [moveOne]. rewrite (abind_run _ _ _ _ _ (pa_get_run _ _ _ _ Hd)), (abind_run _ _ _ _ _ (pa_get_run _ _ _ _ Hs)).
  rewrite Hr. reflexivity.
Qed.

Lemma loop_app l1 l2 f p a : pa_loop (l1 ++ l2) f p a = (let* p := pa_loop l1 f p in pa_loop l2 f p) a.
Proof using Type.
  revert p a. induction l1 as [|j l1 IH]; intros p a; [done|]. cbn [app pa_loop]. unfold abind.
  destruct (f j p a) as [[p1 a1]|e]; [|done]. cbn [obind]. apply IH.
Qed.

(** The entry that has to go first. *)
Definition hit (p : ParAssign) (src : RegSpill) (j : nat) : bool :=
  match pa_dest p !! j with
  | Some d => conflicts d src && negb (bool_decide (status_of p j = PA_STATUS_DONE))
  | None => false
  end.
Lemma entries a p l j : pa_inv a p l -> (j < length dests)%nat ->
  exists d, pa_dest p !! j = Some d /\ pa_status p !! j = Some (status_of p j).
Proof using Type.
  intros I Hj. destruct (lookup_lt_is_Some_2 (pa_dest p) j) as [d Hd]; [by rewrite (pi_dests _ _ _ I)|].
  destruct (lookup_lt_is_Some_2 (pa_status p) j) as [st Hst]; [by rewrite (pi_status _ _ _ I)|].
  exists d. split; [done|]. unfold status_of. by rewrite Hst.
Qed.
Lemma round_hit a p l fuel src j :
  pa_inv a p l -> (j < length dests)%nat ->
  round fuel src j p a = (if hit p src j then (if bool_decide (status_of p j = PA_STATUS_TODO) then moveOne fuel j p else break_cycle j p) else aret p) a.
Proof using Type.
  intros I Hj. destruct (entries _ _ _ _ I Hj) as (d & Hd & Hst). unfold round, hit. rewrite Hd.
  by rewrite (abind_run _ _ _ _ _ (pa_get_run _ _ _ _ Hd)), (abind_run _ _ _ _ _ (pa_get_run _ _ _ _ Hst)).
Qed.
Lemma loop_skip a p l fuel src js :
  pa_inv a p l -> (forall j, In j js -> (j < length dests)%nat /\ hit p src j = false) -> pa_loop js (round fuel src) p a = Ok (p, a).
Proof using Type.
  intros I. induction js as [|j js IH]; intros H; [done|]. cbn [pa_loop]. destruct (H j (or_introl eq_refl)) as [Hj Hh].
  unfold abind. rewrite (round_hit _ _ _ _ _ _ I Hj), Hh. cbn [obind aret]. apply IH. intros k Hk. apply H. by right.
Qed.
Lemma hit_spec a p l src j d :
  pa_inv a p l -> place src -> pa_dest p !! j = Some d -> hit p src j = true <-> (loc_of d = loc_of src /\ status_of p j <> PA_STATUS_DONE).
Proof using Hok.
  intros I Hs Hd. unfold hit. rewrite Hd, (conflicts_spec d src) by (done || by eapply cur_place).
  rewrite andb_true_iff, negb_true_iff, bool_decide_eq_true, bool_decide_eq_false. done.
Qed.

(** What the moves that go before the others leave. *)
Record settles (p p' : ParAssign) (T : option nat) : Prop := {
  se_temps : temps_in p' T;
  se_moving : forall t, T = Some t -> status_of p t = PA_STATUS_MOVING;
  se_keeps : forall k, status_of p k <> PA_STATUS_TODO -> status_of p' k = status_of p k;
  se_new : forall k, status_of p' k = PA_STATUS_MOVING -> status_of p k = PA_STATUS_MOVING
}.
Definition todo (p : ParAssign) : nat := length (filter (fun st => st = PA_STATUS_TODO) (pa_status p)).
Definition moveOne_settles (fuel : nat) : Prop :=
  forall i p a l, pa_inv a p l -> temps_in p None -> (i < length dests)%nat -> status_of p i = PA_STATUS_TODO -> (todo p < fuel)%nat ->
  exists p' a' l' T, moveOne fuel i p a = Ok (p', a') /\ emits (code a) (code a') l' /\ pa_inv a' p' (l' ++ l)
    /\ settles p p' T /\ (status_of p' i = PA_STATUS_DONE \/ same_place i).

(** The move or the break for the one destination that is the source. *)
Lemma act_settles fuel p a l src j d :
  moveOne_settles fuel -> pa_inv a p l -> temps_in p None -> (todo p < fuel)%nat -> place src -> (j < length dests)%nat ->
  pa_dest p !! j = Some d -> loc_of d = loc_of src -> status_of p j <> PA_STATUS_DONE ->
  exists p' a' l' T, round fuel src j p a = Ok (p', a') /\ emits (code a) (code a') l' /\ pa_inv a' p' (l' ++ l) /\ settles p p' T
    /\ (forall e, pending p' j -> pa_dest p' !! j = Some e -> loc_of e <> loc_of src).
Proof using Hok.
  intros IH I HT Hfuel Hsrc Hj Hd El Hst. rewrite (round_hit _ _ _ _ _ _ I Hj).
  rewrite (proj2 (hit_spec _ _ _ _ _ _ I Hsrc Hd)) by done.
  assert (Hd0 : dests !! j = Some d) by by apply HT.
  destruct (bool_decide_reflect (status_of p j = PA_STATUS_TODO)) as [Htodo|Hn].
  - destruct (IH j p a l I HT Hj Htodo Hfuel) as (p' & a' & l' & T & X & E & I' & S & Hend). exists p', a', l', T. split_and!; try done.
    intros e [Hp Hns] _. by destruct Hend.
  - assert (Hmov : status_of p j = PA_STATUS_MOVING) by by destruct (status_of p j).
    destruct (break_cycle_run a p l j I HT Hmov) as (p' & a' & l' & t & X & E & I' & HT' & Hs' & Hd' & Ht).
    exists p', a', l', (Some j). split_and!; try done.
    + split; [done| | |].
      * by intros ? [= <-].
      * intros k _. unfold status_of. by rewrite Hs'.
      * intros k. unfold status_of. by rewrite Hs'.
    + intros e _ He. rewrite Hd' in He. injection He as <-. rewrite <- El, (proj2 (temp_is_place _ _ Ht)). intros E'. by apply (temp_not_dest _ _ j d Ht Hd0).
Qed.

Lemma settles_refl p : temps_in p None -> settles p p None.
Proof using Type. intros HT. by split. Qed.
(** Behind the loop no destination that is left is the source. *)
Lemma loop_settles fuel p a l src :
  moveOne_settles fuel -> pa_inv a p l -> temps_in p None -> (todo p < fuel)%nat -> place src ->
  exists p' a' l' T, pa_loop (seq 0 (pa_size p)) (round fuel src) p a = Ok (p', a') /\ emits (code a) (code a') l' /\ pa_inv a' p' (l' ++ l)
    /\ settles p p' T /\ (forall k e, pending p' k -> pa_dest p' !! k = Some e -> loc_of e <> loc_of src).
Proof using Hok.
  intros IH I HT Hfuel Hsrc. unfold pa_size. rewrite (pi_dests _ _ _ I).
  destruct (existsb (hit p src) (seq 0 (length dests))) eqn:Eh.
  - apply existsb_exists in Eh as (j & Hin & Hh). apply in_seq in Hin as Hj.
    destruct (entries _ _ _ j I ltac:(lia)) as (d & Hd & _). destruct (proj1 (hit_spec _ _ _ _ _ _ I Hsrc Hd) Hh) as [El Hst].
    assert (Hd0 : dests !! j = Some d) by by apply HT.
    apply in_split in Hin as (l1 & l2 & Eseq).
    assert (Hother : forall k, In k l1 \/ In k l2 -> k <> j /\ (k < length dests)%nat).
    { intros k Hk. pose proof (List.seq_NoDup (length dests) 0) as Hnd. rewrite Eseq in Hnd.
      apply List.NoDup_remove_2 in Hnd. split; [intros ->; apply Hnd, in_or_app; tauto|].
      assert (Hin : In k (seq 0 (length dests))) by (rewrite Eseq; apply in_or_app; cbn; tauto). apply in_seq in Hin. lia. }
    assert (Hmiss : forall a' p' l' T k, pa_inv a' p' l' -> temps_in p' T -> (forall t e, T = Some t -> pa_dest p' !! t = Some e -> status_of p' t <> PA_STATUS_DONE -> dests !! t <> Some e -> loc_of e <> loc_of src) ->
              In k l1 \/ In k l2 -> hit p' src k = false).
    { intros a' p' l' T k I' HT' Htmp Hk. destruct (Hother k Hk) as [Hkj Hkn]. destruct (entries _ _ _ k I' Hkn) as (e & He & _).
      destruct (hit p' src k) eqn:E; [|done]. exfalso. destruct (proj1 (hit_spec _ _ _ _ _ _ I' Hsrc He) E) as [El' Hst'].
      destruct (decide (dests !! k = Some e)) as [He0|He0].
      - apply Hkj. apply (mo_nodup Hok k j e d He0 Hd0). congruence.
      - destruct (decide (T = Some k)) as [HTk|HTk]; [exact (Htmp k e HTk He Hst' He0 El')|exact (He0 (HT' k e Hst' He HTk))]. }
    rewrite Eseq, loop_app. rewrite (abind_run _ _ a p a).
    2: { apply (loop_skip a p l); [done|]. intros k Hk. split; [apply Hother; by left|]. apply (Hmiss a p l None); try done. by left. }
    cbn [pa_loop]. destruct (act_settles fuel p a l src j d IH I HT Hfuel Hsrc ltac:(lia) Hd El Hst) as (p' & a' & l' & T & X & E & I' & S & Hgone).
    rewrite (abind_run _ _ _ _ _ X).
    assert (Htmp : forall t e, pa_dest p' !! t = Some e -> dests !! t <> Some e -> loc_of e <> loc_of src).
    { intros t e He Hne. destruct (pi_dest _ _ _ I' t e He) as [H|(r & -> & Hr & _)]; [done|].
      rewrite <- El, (proj2 (temp_is_place _ _ Hr)). intros E'. by apply (temp_not_dest _ _ j d Hr Hd0). }
    rewrite (loop_skip a' p' (l' ++ l)); [|done|].
    + exists p', a', l', T. split_and!; try done. intros k e Hk He. destruct (decide (dests !! k = Some e)) as [He0|He0]; [|by apply (Htmp k)].
      destruct (decide (k = j)) as [->|Hkj]; [by apply Hgone|]. intros E'. apply Hkj. apply (mo_nodup Hok k j e d He0 Hd0). congruence.
    + intros k Hk. split; [apply Hother; by right|]. apply (Hmiss a' p' (l' ++ l) T k I' (se_temps _ _ _ S)); [|by right].
      intros t e _ He _ Hne. by apply (Htmp t e).
  - assert (Hno : forall k, (k < length dests)%nat -> hit p src k = false).
    { intros k Hk. destruct (hit p src k) eqn:E; [|done]. assert (Ht : existsb (hit p src) (seq 0 (length dests)) = true); [|congruence].
      apply existsb_exists. exists k. split; [apply in_seq; lia|done]. }
    rewrite (loop_skip a p l); [|done|intros k Hk; apply in_seq in Hk; split; [lia|apply Hno; lia]].
    exists p, a, [], None. split_and!; [done|apply emits_nil|exact I|by apply settles_refl|].
    intros k e [Hk _] He E. assert (Hkn : (k < length dests)%nat) by (rewrite <- (pi_dests _ _ _ I); by apply lookup_lt_Some in He).
    pose proof (Hno k Hkn) as Hh. rewrite (proj2 (hit_spec _ _ _ _ _ _ I Hsrc He)) in Hh by done. done.
Qed.

(** Entry [i] is being moved. *)
Lemma moving_step a p l i :
  pa_inv a p l -> temps_in p None -> status_of p i = PA_STATUS_TODO -> (i < length dests)%nat -> ~ same_place i ->
  pa_inv a (set_status i PA_STATUS_MOVING p) l /\ temps_in (set_status i PA_STATUS_MOVING p) None
  /\ (todo (set_status i PA_STATUS_MOVING p) < todo p)%nat.
Proof using Type.
  intros I HT Hi Hn Hns. assert (Hr : (i < length (pa_status p))%nat) by by rewrite (pi_status _ _ _ I).
  assert (St : forall k, status_of (set_status i PA_STATUS_MOVING p) k = if decide (k = i) then PA_STATUS_MOVING else status_of p k)
    by (intros k; by apply status_set).
  split_and!.
  - split; try apply I.
    + cbn. rewrite length_insert. apply I.
    + intros k e He. destruct (pi_dest _ _ _ I k e He) as [H|(t & -> & Ht & Hst)]; [by left|]. right. exists t. split_and!; try done.
      rewrite St. by destruct (decide _).
    + intros k Hk. rewrite St. destruct (decide (k = i)) as [->|]; [done|by apply I].
    + intros k e Hk He Hreg. rewrite St in Hk. destruct (decide (k = i)); [done|by apply (pi_used _ _ _ I k)].
    + intros k j e f Hk He [Hj Hnj] Hf. rewrite St in Hk, Hj. destruct (decide (k = i)); [done|]. apply (pi_done _ _ _ I k j); try done.
      split; [|done]. destruct (decide (j = i)) as [->|]; [by rewrite Hi|done].
    + intros m Hm. destruct (pi_code _ _ _ I m Hm) as (m' & X & [C1 C2 C3 C4]). exists m'. split; [done|]. split; try done.
      intros k d0 e f Hd0 He Hf. rewrite (C2 k d0 e f Hd0 He Hf). unfold wanted. rewrite St.
      destruct (decide (k = i)) as [->|]; [|done]. by rewrite decide_False, decide_False by (done || by rewrite Hi).
  - intros k e Hk He _. rewrite St in Hk. apply HT; try done. destruct (decide (k = i)) as [->|]; [by rewrite Hi|done].
  - unfold todo, status_of in *. cbn [set_status pa_status]. clear - Hi Hr. revert i Hi Hr.
    induction (pa_status p) as [|st sts IH]; intros i Hi Hr; [cbn in Hr; lia|]. destruct i as [|i]; cbn in Hi.
    + subst st. cbn [insert list_insert]. rewrite !filter_cons, decide_False, decide_True by done. cbn [length]. lia.
    + cbn [insert list_insert]. rewrite !filter_cons. specialize (IH i Hi ltac:(cbn in Hr; lia)).
      destruct (decide (st = PA_STATUS_TODO)); cbn [length]; [|done]. apply (proj1 (Nat.succ_lt_mono _ _)), IH.
Qed.

Lemma same_place_reg d s : place d -> place s -> isReg (rs_reg d) || isReg (rs_reg s) = true -> loc_of d = loc_of s <-> rs_reg d = rs_reg s.
Proof using Type.
  intros Hd Hs Hr. unfold loc_of. split.
  - destruct (isReg (rs_reg d)), (isReg (rs_reg s)); try done; congruence.
  - intros E. rewrite E in *. destruct (isReg (rs_reg s)); done.
Qed.
(** The entry [i] itself, behind the loop. *)
Lemma finish_move a p l i s T :
  pa_inv a p l -> temps_in p T -> status_of p i = PA_STATUS_MOVING -> ~ same_place i -> (i < length dests)%nat -> srcs !! i = Some s ->
  (forall k e, pending p k -> pa_dest p !! k = Some e -> loc_of e <> loc_of s) ->
  exists a' l', (let* d := pa_get (pa_dest p) i in let* s := pa_get (pa_source p) i in transfer d s;* aret (set_status i PA_STATUS_DONE p)) a
                = Ok (set_status i PA_STATUS_DONE p, a')
    /\ emits (code a) (code a') l' /\ pa_inv a' (set_status i PA_STATUS_DONE p) (l' ++ l)
    /\ temps_in (set_status i PA_STATUS_DONE p) (if decide (T = Some i) then None else T).
Proof using Hok.
  intros I HT Hst Hns Hi Hs Hno. destruct (entries _ _ _ i I Hi) as (d & Hd & _). pose proof (mo_src Hok i s Hs) as Hps.
  pose proof (cur_place _ _ _ _ _ I Hd) as Hpd.
  assert (Hr : isReg (rs_reg d) || isReg (rs_reg s) = true).
  { destruct (pi_dest _ _ _ I i d Hd) as [H|(t & -> & Ht & _)]; [by apply (mo_reg Hok i)|].
    destruct (temp_is_place _ _ Ht) as [_ El]. unfold loc_of in El. cbn [rs_reg] in *. by destruct (isReg t). }
  destruct (transfer_run a d s Hpd Hps Hr) as (a' & l' & X & E & Mv & Hf). exists a', l'.
  assert (Hp : pending p i) by (split; [by rewrite Hst|done]).
  rewrite (abind_run _ _ _ _ _ (pa_get_run _ _ _ _ Hd)), (proj1 (pi_source _ _ _ I)), (abind_run _ _ _ _ _ (pa_get_run _ _ _ _ Hs)), (abind_run _ _ _ _ _ X).
  split; [done|]. split; [done|]. pose proof (pi_free _ _ _ I) as [F0 _].
  apply (transfer_step a a' p l T i d s l' I HT Hp Hd Hs); try done.
  - intros k e _. apply Hno.
  - rewrite Hf. destruct (isReg (rs_reg s)); [by apply clear_nonneg|done].
  - intros r Hrr. rewrite Hf. destruct (isReg (rs_reg s)) eqn:Es; [|by rewrite andb_true_r].
    destruct (place_reg s (or_introl Hps) Es) as (_ & ? & _). unfold RegSet.clear. rewrite test_exclude by lia. done.
  - intros r Hrr. rewrite Hf. destruct (isReg (rs_reg s)); [by apply clear_subset|done].
Qed.
Lemma moveOne_ok fuel : moveOne_settles fuel.
Proof using Hok.
  induction fuel as [|fuel IH]; intros i p a l I HT Hi Hst Hfuel; [lia|].
  destruct (entries _ _ _ i I Hi) as (d & Hd & _). assert (Hd0 : dests !! i = Some d) by (apply HT; [by rewrite Hst|done|done]).
  destruct (lookup_lt_is_Some_2 srcs i) as [s Hs]; [by rewrite (mo_length Hok)|].
  pose proof (mo_dest Hok i d Hd0) as Hpd. pose proof (mo_src Hok i s Hs) as Hps. pose proof (mo_reg Hok i d s Hd0 Hs) as Hr.
  rewrite (moveOne_run fuel i p a d s) by (done || by rewrite (proj1 (pi_source _ _ _ I))).
  destruct (Z.eqb_spec (rs_reg d) (rs_reg s)) as [E|Hne]; cbn [negb].
  - exists p, a, [], None. split_and!; [done|apply emits_nil|done|by apply settles_refl|]. right. exists d, s. split_and!; try done. by apply same_place_reg.
  - assert (Hns : ~ same_place i).
    { intros (d' & s' & H1 & H2 & H3). rewrite Hd0 in H1. rewrite Hs in H2. injection H1 as <-. injection H2 as <-. by apply Hne, same_place_reg. }
    destruct (moving_step a p l i I HT Hst Hi Hns) as (I1 & HT1 & Hlt). set (p1 := set_status i PA_STATUS_MOVING p) in *.
    assert (St1 : forall k, status_of p1 k = if decide (k = i) then PA_STATUS_MOVING else status_of p k)
      by (intros k; apply status_set; by rewrite (pi_status _ _ _ I)).
    destruct (loop_settles fuel p1 a l s IH I1 HT1 ltac:(lia) Hps) as (p2 & a2 & l2 & T & X2 & E2 & I2 & [S1 S2 S3 S4] & Hno).
    change (pa_size p) with (pa_size p1) || replace (pa_size p) with (pa_size p1) by done. rewrite (abind_run _ _ _ _ _ X2).
    assert (St2 : status_of p2 i = PA_STATUS_MOVING) by (rewrite S3; rewrite St1, decide_True by done; done).
    destruct (finish_move a2 p2 (l2 ++ l) i s T I2 S1 St2 Hns Hi Hs Hno) as (a3 & l3 & X3 & E3 & I3 & HT3).
    assert (St3 : forall k, status_of (set_status i PA_STATUS_DONE p2) k = if decide (k = i) then PA_STATUS_DONE else status_of p2 k)
      by (intros k; apply status_set; by rewrite (pi_status _ _ _ I2)).
    exists (set_status i PA_STATUS_DONE p2), a3, (l3 ++ l2), (if decide (T = Some i) then None else T). rewrite <- app_assoc.
    split_and!; [done|by eapply emits_app|done| |left; by rewrite St3, decide_True].
    split; [done| | |].
    + intros t Ht. destruct (decide (T = Some i)) as [|Hn]; [done|]. pose proof (S2 t Ht) as Hm. rewrite St1 in Hm.
      destruct (decide (t = i)) as [->|]; [by destruct Hn|done].
    + intros k Hk. rewrite St3. destruct (decide (k = i)) as [->|Hki]; [by rewrite Hst in Hk|]. 
      assert (E1 : status_of p1 k = status_of p k) by (rewrite St1; by apply decide_False). rewrite S3, E1; [done|by rewrite E1].
    + intros k. rewrite St3. destruct (decide (k = i)) as [|Hki]; [done|]. intros Hk%S4. by rewrite St1, decide_False in Hk.
Qed.

(** ** The whole assignment *)

Definition start : ParAssign := mkPA dests srcs (replicate (length dests) PA_STATUS_TODO) 0 false.
Lemma start_status i : (i < length dests)%nat -> status_of start i = PA_STATUS_TODO.
Proof using Type. intros Hi. unfold status_of, start. cbn [pa_status]. by rewrite lookup_replicate_2. Qed.
Lemma start_not_done i : status_of start i = PA_STATUS_DONE -> (length dests <= i)%nat.
Proof using Type. intros Hi. destruct (Nat.lt_ge_cases i (length dests)) as [H|H]; [by rewrite start_status in Hi|done]. Qed.
Lemma start_inv a : freeset (ra a) = free0 -> pa_inv a start [] /\ temps_in start None.
Proof using Hok.
  intros Hf. assert (Hdone : forall k, status_of start k = PA_STATUS_DONE -> forall s, srcs !! k <> Some s).
  { intros k Hk s Hs%lookup_lt_Some. apply start_not_done in Hk. rewrite (mo_length Hok) in Hs. lia. }
  split; [|by intros i d _ Hd _]. split; try done.
  - cbn. apply length_replicate.
  - rewrite Hf. split; [exact (proj1 (mo_free Hok))|done].
  - intros i d Hd. by left.
  - intros i (d & s & Hd%lookup_lt_Some & _). by apply start_status.
  - intros k s Hk Hs. by destruct (Hdone k Hk s).
  - intros k j s d Hk Hs. by destruct (Hdone k Hk s).
  - intros m Hm. exists m. split; [done|]. split; try done.
    intros i d0 d s Hd0 Hd Hs. unfold wanted. rewrite decide_False by (rewrite start_status; [done|by apply lookup_lt_Some in Hd0]).
    cbn in Hd. congruence.
Qed.

Definition each (i : nat) (p : ParAssign) : M ParAssign :=
  let* st := pa_get (pa_status p) i in if bool_decide (st = PA_STATUS_TODO) then moveOne (S (length dests)) i p else aret p.
Lemma each_settles js : forall p a l,
  pa_inv a p l -> temps_in p None -> (forall k, status_of p k <> PA_STATUS_MOVING) -> (forall j, In j js -> (j < length dests)%nat) ->
  exists p' a' l', pa_loop js each p a = Ok (p', a') /\ emits (code a) (code a') l' /\ pa_inv a' p' (l' ++ l)
    /\ (forall k, status_of p k = PA_STATUS_DONE -> status_of p' k = PA_STATUS_DONE)
    /\ (forall j, In j js -> status_of p' j = PA_STATUS_DONE \/ same_place j).
Proof using Hok.
  induction js as [|j js IH]; intros p a l I HT Hnm Hjs.
  { exists p, a, []. split_and!; [done|apply emits_nil|done|done|done]. }
  assert (Hj : (j < length dests)%nat) by (apply Hjs; by left).
  assert (Hstep : exists p1 a1 l1, each j p a = Ok (p1, a1) /\ emits (code a) (code a1) l1 /\ pa_inv a1 p1 (l1 ++ l) /\ temps_in p1 None
            /\ (forall k, status_of p1 k <> PA_STATUS_MOVING) /\ (forall k, status_of p k = PA_STATUS_DONE -> status_of p1 k = PA_STATUS_DONE)
            /\ (status_of p1 j = PA_STATUS_DONE \/ same_place j)).
  { destruct (entries _ _ _ j I Hj) as (d & Hd & Hst). unfold each. rewrite (abind_run _ _ _ _ _ (pa_get_run _ _ _ _ Hst)).
    destruct (bool_decide_reflect (status_of p j = PA_STATUS_TODO)) as [Htodo|Hn].
    - assert (Hfuel : (todo p < S (length dests))%nat).
      { unfold todo. rewrite <- (pi_status _ _ _ I). pose proof (length_filter (fun st => st = PA_STATUS_TODO) (pa_status p)). lia. }
      destruct (moveOne_ok _ j p a l I HT Hj Htodo Hfuel) as (p1 & a1 & l1 & T & X & E & I1 & [S1 S2 S3 S4] & Hend).
      exists p1, a1, l1. split_and!; try done.
      + destruct T as [t|]; [|done]. by destruct (Hnm t), (S2 t).
      + intros k Hk%S4. by apply (Hnm k).
      + intros k Hk. by rewrite S3; rewrite ?Hk.
    - exists p, a, []. split_and!; try done; [apply emits_nil|]. left. specialize (Hnm j). by destruct (status_of p j). }
  destruct Hstep as (p1 & a1 & l1 & X1 & E1 & I1 & HT1 & Hnm1 & Hd1 & Hj1). cbn [pa_loop]. rewrite (abind_run _ _ _ _ _ X1).
  destruct (IH p1 a1 (l1 ++ l) I1 HT1 Hnm1) as (p2 & a2 & l2 & X2 & E2 & I2 & Hd2 & Hj2); [intros k Hk; apply Hjs; by right|].
  exists p2, a2, (l2 ++ l1). rewrite <- app_assoc. split_and!; [done|by eapply emits_app|done|auto|].
  intros k [<-|Hk]; [|by apply Hj2]. destruct Hj1 as [Hj1|Hj1]; [left; by apply Hd2|by right].
Qed.

(** All entries done, the code is a parallel assignment; the heap pointer
    is as it was once it has been saved in front. *)
Definition assigns (l : list instr) : Prop :=
  forall m, framed m -> exists m', exec_list l m = Some (Next m')
    /\ (forall i d s, dests !! i = Some d -> srcs !! i = Some s -> get_loc m' (loc_of d) = get_loc m (loc_of s))
    /\ (forall x, (forall i d, dests !! i = Some d -> loc_of d <> x) -> (forall r, x = LReg r -> 0 <= r -> RegSet.test free0 r = false) ->
          x <> slot0 -> get_loc m' x = get_loc m x).
Lemma all_done a p l l' :
  pa_inv a p l -> (forall j, (j < length dests)%nat -> status_of p j = PA_STATUS_DONE \/ same_place j) ->
  (if usingHp p then moves l' slot0 (LReg RID_HP) else l' = []) -> assigns (l' ++ l).
Proof using Hok.
  intros I Hall Hl m Hm.
  assert (Hfirst : exists m1, framed m1 /\ exec_list (l' ++ l) m = exec_list l m1 /\ (forall x, x <> slot0 -> get_loc m1 x = get_loc m x)
            /\ get_loc m1 (if usingHp p then slot0 else LReg RID_HP) = get_loc m (LReg RID_HP)).
  { destruct (usingHp p); [|subst l'; by exists m]. destruct (exec_moves l l' _ _ m Hl Hm) as (m1 & [M1 M2 M3] & X). by exists m1. }
  destruct Hfirst as (m1 & Hm1 & X1 & Hsame & Hhp). destruct (pi_code _ _ _ I m1 Hm1) as (m' & X & [C1 C2 C3 C4]).
  exists m'. split; [by rewrite X1|]. split.
  - intros i d0 s Hd0 Hs. assert (Hi : (i < length dests)%nat) by by apply lookup_lt_Some in Hd0. destruct (entries _ _ _ i I Hi) as (d & Hd & _).
    rewrite (C2 i d0 d s Hd0 Hd Hs). assert (Hw : wanted p i d s = loc_of s).
    { unfold wanted. destruct (decide _) as [|Hn]; [done|]. destruct (Hall i Hi) as [H|Hsm]; [done|].
      destruct (pi_dest _ _ _ I i d Hd) as [H|(t & _ & _ & Ht)]; [|by rewrite (pi_same _ _ _ I i Hsm) in Ht].
      destruct Hsm as (d' & s' & H1 & H2 & H3). congruence. }
    rewrite Hw. apply Hsame, place_not_slot0. left. by apply (mo_src Hok i).
  - intros x H1 H2 H3. destruct (decide (x = LReg RID_HP)) as [->|Hn]; [by rewrite C3|]. rewrite C4 by done. by apply Hsame.
Qed.
End assign.

(** C8: [parallelAssign] always succeeds on moves between registers and
    spill slots with distinct destinations, whatever cycles they form and
    even without a free register, and the code it writes is a parallel
    assignment: every destination gets the value that its source had
    before, and everything else but the free registers and slot 0 keeps
    its value, the heap pointer included.  Each move has a register on at
    least one side, and the registers among the destinations are not free:
    [mergeWithParent], the only caller, sees to both. *)
Theorem parallelAssign_correct dests srcs a :
  moves_ok dests srcs (freeset (ra a)) ->
  exists a' l, parallelAssign dests srcs a = Ok (tt, a') /\ emits (code a) (code a') l
    /\ forall m, framed m -> exists m', exec_list l m = Some (Next m')
      /\ (forall i d s, dests !! i = Some d -> srcs !! i = Some s -> get_loc m' (loc_of d) = get_loc m (loc_of s))
      /\ (forall x, (forall i d, dests !! i = Some d -> loc_of d <> x) ->
            (forall r, x = LReg r -> 0 <= r -> RegSet.test (freeset (ra a)) r = false) -> x <> slot0 -> get_loc m' x = get_loc m x).
Proof using Type.
  intros Hok. destruct (start_inv dests srcs _ Hok a eq_refl) as [I HT].
  destruct (each_settles dests srcs _ Hok (seq 0 (length dests)) (start dests srcs) a [] I HT) as (p & a1 & l1 & X1 & E1 & I1 & _ & Hall).
  { intros k Hk. destruct (Nat.lt_ge_cases k (length dests)) as [H|H]; [by rewrite start_status in Hk|].
    unfold status_of, start in Hk. cbn in Hk. rewrite lookup_ge_None_2 in Hk by (by rewrite length_replicate). done. }
  { intros j Hj%in_seq. lia. }
  assert (Hall' : forall j, (j < length dests)%nat -> status_of p j = PA_STATUS_DONE \/ same_place dests srcs j)
    by (intros j Hj; apply Hall, in_seq; lia).
  unfold parallelAssign. fold (start dests srcs). fold (each dests). rewrite (abind_run _ _ _ _ _ X1). rewrite app_nil_r in I1.
  destruct (usingHp p) eqn:Eu.
  - destruct (store_moves (code a1) 0 RID_HP) as (l2 & E2 & M2); [by vm_compute|lia|].
    exists (set_acode (store_u64 RID_ESP SAVE_HP_OFFS RID_HP (code a1)) a1), (l2 ++ l1).
    split; [done|]. split; [by eapply emits_app|]. apply (all_done dests srcs _ Hok a1 p l1 l2 I1 Hall'). by rewrite Eu.
  - exists a1, l1. split; [done|]. split; [done|]. apply (all_done dests srcs _ Hok a1 p l1 [] I1 Hall'). by rewrite Eu.
Qed.
End machine.
