(* ===== verification/AsmSave.v ===== *)
(** * The end of a trace

    [SAVE] writes the slots of the last snapshot to the stack, moves the
    base pointer, checks for stack overflow, and leaves the trace or falls
    into the jump behind it. *)

From S2P Require Import Prelude Words Hotness IR.
From S2P Require Import IRInv.
From S2P Require Import CallStack.
From S2P Require Import Recorder.
From S2P Require Import Registers X86 X86Sem X86Proofs AsmState.
From S2P Require Import AsmInv.
From S2P Require Import AsmAlloc.
From S2P Require Import AsmSelect.
From S2P Require Import AsmSem.
From S2P Require Import AsmSim AsmInstr AsmGuard AsmMem.
Import RegSetProofs.

Definition stored_ok (a : Assembler) (n : Z) (d : SnapshotData) (se : Z) : bool :=
  match slotRef d se with Ok r => operand_ok a n r | Err _ => false end.

Section machine.
Context {TF : TraceFrame} {RA : RuntimeAddrs}.
Abbreviation B := tf_base.
Abbreviation SP := tf_sp.
Abbreviation HL := tf_hplim.
Abbreviation SL := tf_splim.

(** ** The stores *)

(** What the stores do: the last entry is written first. *)
Fixpoint put_slots (d : SnapshotData) (ses : list Z) (st : irstate) : option irstate :=
  match ses with
  | [] => Some st
  | se :: ses' =>
      do st <- put_slots d ses' st;
      match slotId d se, slotRef d se with
      | Ok s, Ok r => put_word (u8 (B + 8 * s)) (val st r) st
      | _, _ => None
      end
  end.
Lemma put_slots_keeps d ses : keeps_ok (put_slots d ses).
Proof using Type.
  induction ses as [|se ses IH]; intros st st' Hst H; cbn [put_slots] in H; [by injection H as <-|].
  destruct (put_slots d ses st) as [st1|] eqn:E; [|done]. destruct (slotId d se); [|done].
  destruct (slotRef d se); [|done]. by apply (put_val_ok _ _ _ _ (IH _ _ Hst E)) in H.
Qed.

Lemma slot_i32 d se s : slotId d se = Ok s -> is_i32 (8 * s).
Proof using Type.
  unfold slotId. intros (w & _ & [= <-])%obind_ok. pose proof (to_s_bound 32 ltac:(lia) w) as Hb.
  unfold is_i32, i4. rewrite Z.shiftr_div_pow2 by lia. change (2 ^ (32 - 1)) with 2147483648 in Hb.
  change (2 ^ 16) with 65536. Z.to_euclidean_division_equations. lia.
Qed.
Lemma stored_ext k a a' n d ses : ext k a a' -> forallb (stored_ok a' n d) ses = forallb (stored_ok a n d) ses.
Proof using Type.
  intros He. induction ses as [|se ses IH]; [done|]. cbn [forallb]. rewrite IH. f_equal. unfold stored_ok.
  destruct (slotRef d se); [|done]. by rewrite (operand_ok_ext k a a').
Qed.

Lemma save_slots_runs n d ses : forall a u a',
  ra_ok a n -> forallb (stored_ok a n d) ses = true -> save_slots d ses a = Ok (u, a') ->
  runs n a a' (put_slots d ses).
Proof using TF.
  induction ses as [|se ses IH]; intros a u a' Hok Hall H; cbn [save_slots] in H.
  { inv_asm. split; [done|]. split; [done|]. exists []. split; [apply emits_nil|].
    intros Sp st st' m _ _ _ [= <-] Ha. by exists m. }
  cbn [forallb] in Hall. apply andb_true_iff in Hall as [Ho Hall]. unfold stored_ok in Ho.
  apply abind_ok in H as (s & s1 & [Hs ->]%alift_ok & H). apply abind_ok in H as (r & s2 & [Hr ->]%alift_ok & H).
  apply abind_ok in H as (t & a1 & Hm & H). rewrite Hr in Ho.
  destruct (memstore_ok n a _ _ _ _ _ _ Hok allows_kGPR Ho Hm) as [Hok1 He1].
  assert (R2 : runs n a1 a' (put_slots d ses)).
  { eapply IH; [done| |exact H]. by rewrite (stored_ext n a a1). }
  pose proof (memstore_runs n a _ _ _ _ _ _ Hok allows_kGPR Ho Hm (fun _ => B) gpr_base (slot_i32 _ _ _ Hs)
     (fun Sp st m Ha => ag_base _ _ _ _ _ Ha)) as R1.
  eapply runs_ext; [|exact (runs_comp _ _ _ _ _ _ R1 R2 (put_slots_keeps _ _))].
  intros st _. cbn [put_slots]. by rewrite Hs, Hr.
Qed.

(** ** The base pointer *)

(** Behind a trace the base is that of the last frame. *)
Record after_save (relbase : Z) (st : irstate) (m : mach) : Prop := {
  sv_base : gpr m RID_BASE = u8 (B + i4 (relbase * 8));
  sv_sp : gpr m RID_ESP = SP;
  sv_hp : gpr m RID_HP = ihp st;
  sv_mem : forall x, ~ in_frame x -> mmem m x = imem st x;
  sv_frame : (forall s, 0 <= s < 256 -> is_Some (mmem m (slot_addr s)))
             /\ mmem m (SP + HPLIM_SP_OFFS) = Some HL /\ mmem m (SP + SPLIM_SP_OFFS) = Some SL
}.
Definition overflows (relbase : Z) : bool := (0 <? relbase) && (SL <? u8 (B + i4 (relbase * 8))).

(** The code behind the stores. *)
Definition base_code (relbase : Z) : M () :=
  if relbase =? 0 then aret tt
  else (if 0 <? relbase then stackCheck else aret tt);* adjustBase relbase.

Definition base_runs (relbase : Z) (l : list instr) : Prop :=
  forall a Sp n st m, agree a Sp n st m -> exists m', after_save relbase st m'
    /\ exec_list l m = Some (if overflows relbase then Goto asmStackOverflow m' else Next m').

Lemma add_base m relbase : gpr m RID_BASE = B ->
  exec (IArithI true 0 (OReg RID_BASE) (i4 (relbase * 8))) m
  = Some (Next (set_flags None (set_gpr RID_BASE (u8 (B + i4 (relbase * 8))) m))).
Proof using Type.
  intros Hb. cbn [exec rd]. rewrite Hb. unfold arith64. cbn [Z.eqb arith_op wr]. do 3 f_equal.
  unfold u8, to_u. by rewrite Zplus_mod_idemp_r.
Qed.
Lemma saved_set a Sp n st m relbase fl : agree a Sp n st m ->
  after_save relbase st (set_flags fl (set_gpr RID_BASE (u8 (B + i4 (relbase * 8))) m)).
Proof using Type. intros [A1 A2 A3 A4 A5 A6 A7 A8]. by split. Qed.

Lemma read_splim a Sp n st m : agree a Sp n st m -> rd true m (OMem RID_ESP None SPLIM_SP_OFFS) = Some SL.
Proof using Type.
  intros Ha. cbn [rd]. unfold ea, rd_mem. destruct tf_ok as (H8 & H0 & Hmax). unfold SPILL_SP_OFFS in Hmax.
  rewrite (ag_sp _ _ _ _ _ Ha). destruct (ag_frame _ _ _ _ _ Ha) as (_ & _ & HF). unfold SPLIM_SP_OFFS in *.
  rewrite Z.add_0_r. unfold u8. rewrite (to_u_id 64) by lia.
  assert (E : (SP + 8) mod 8 = 0) by (clear - H8; Z.to_euclidean_division_equations; lia).
  rewrite E. cbn [Z.eqb]. by rewrite HF.
Qed.

Lemma cmp_splim c :
  emits c (emit_rmro XO_CMP (Z.lor RID_BASE REX_64) (Z.lor RID_ESP REX_64) SPLIM_SP_OFFS c)
    [IArith true 7 RID_BASE (OMem RID_ESP None SPLIM_SP_OFFS)].
Proof using Type.
  apply cmp_mem_emits; [apply wide_r, gpr_base|apply as_reg_wide, wide_r, gpr_esp|by vm_compute].
Qed.
Lemma base_code_spec relbase a u a' :
  base_code relbase a = Ok (u, a') -> exists l c, a' = set_acode c a /\ emits (code a) c l /\ base_runs relbase l.
Proof using TF.
  intros H. unfold base_code in H. unfold base_runs, overflows. destruct (Z.eqb_spec relbase 0) as [->|Hne].
  { apply aret_ok in H as [_ ->]. exists [], (code a). split; [by destruct a|]. split; [apply emits_nil|].
    intros a0 Sp n st m [A1 A2 A3 A4 A5 A6 A7 A8]. exists m. split; [|done]. split; try done.
    change (i4 (0 * 8)) with 0. rewrite Z.add_0_r, A3. symmetry. apply (to_u_id 64). apply tf_words. }
  set (add := IArithI true 0 (OReg RID_BASE) (i4 (relbase * 8))).
  assert (Hadd : forall c, emits c (emit_gri (XG_ARITHi (x86Arith_num XOg_ADD)) (Z.lor RID_BASE REX_64) (i4 (relbase * 8)) c) [add]).
  { intros c. apply (gri_emits 0); [lia|apply wide_r, gpr_base|apply (to_s_bound 32); lia]. }
  apply abind_ok in H as (t & a1 & H1 & H). apply modify_ok in H as [_ ->].
  destruct (Z.ltb_spec 0 relbase) as [Hpos|Hneg]; cbn [andb].
  - unfold stackCheck in H1. apply abind_ok in H1 as (t1 & a2 & (c & Hj & ->)%emito_ok & H1).
    apply modify_ok in H1 as [_ ->]. cbn [code set_acode] in *.
    exists ([add] ++ [IArith true 7 RID_BASE (OMem RID_ESP None SPLIM_SP_OFFS)] ++ [IJcc CC_A asmStackOverflow]).
    eexists. split; [reflexivity|]. split.
    { assert (Hcc : 0 <= CC_A < 16) by by vm_compute. pose proof (jcc_emits _ _ _ _ Hcc Hj) as Ej.
      eapply emits_app; [|apply Hadd]. eapply emits_app; [exact Ej|]. apply cmp_splim. }
    intros a0 Sp n st m Ha. set (b := u8 (B + i4 (relbase * 8))).
    assert (Hr : rd true (set_flags None (set_gpr RID_BASE b m)) (OMem RID_ESP None SPLIM_SP_OFFS) = Some SL)
      by exact (read_splim _ _ _ _ _ Ha).
    exists (set_flags (Some (b, SL)) (set_gpr RID_BASE b m)). split; [by eapply saved_set|].
    cbn [app exec_list]. unfold add. rewrite add_base by apply (ag_base _ _ _ _ _ Ha).
    fold b. cbn [exec]. rewrite Hr. unfold arith64. cbn [Z.eqb Pos.eqb exec_list exec cmpd set_flags].
    change (gpr (set_flags None (set_gpr RID_BASE b m)) RID_BASE) with b.
    rewrite cmp_above by (apply u8_bound || apply tf_words).
    destruct (Z.leb_spec b SL), (Z.ltb_spec SL b); try lia; done.
  - apply aret_ok in H1 as [_ ->]. exists [add]. eexists. split; [reflexivity|]. split; [apply Hadd|].
    intros a0 Sp n st m Ha. eexists. split; [by eapply (saved_set _ _ _ _ _ _ None)|].
    cbn [exec_list]. unfold add. by rewrite add_base by apply (ag_base _ _ _ _ _ Ha).
Qed.

(** ** [exitTo] and [save] *)

Definition debug (a : Assembler) : bool := Flags32.get (options a) kOptDebugTrace.

Lemma exitTo_spec n a u a' :
  debug a = false -> exitTo n a = Ok (u, a') ->
  exists t, exitstubAddr n a = Ok (t, a) /\ emits (code a) (code a') [IJmp t] /\ same a a'.
Proof using Type.
  intros Hd H. unfold exitTo in H. apply abind_ok in H as (t & s1 & Ht & H).
  pose proof (exitstubAddr_ok _ _ _ _ Ht) as ->. apply abind_ok in H as (sn & s2 & [-> _]%asnap_ok & H).
  apply abind_ok in H as (v & s2 & (c & Hj & ->)%emito_ok & H). apply abind_ok in H as (s & s3 & [-> ->]%get_ok & H).
  apply abind_ok in H as (v2 & a2 & Hset & H). destruct (set_snap_same _ _ _ _ _ Hset) as (Hs & Hc & _).
  apply abind_ok in H as (dbg & s3 & [= <- <-] & H).
  assert (Ho : Flags32.get (options a2) kOptDebugTrace = false).
  { rewrite <- Hd. unfold debug. f_equal.
    exact (proj1 (proj2 (proj2 (proj2 (proj2 (erase_pos _ _ (proj1 Hs))))))). }
  rewrite Ho in H. apply aret_ok in H as [_ ->]. exists t. split; [done|]. split.
  - rewrite Hc. exact (jmp_emits _ _ _ Hj).
  - eapply asm_same_trans; [apply same_code|exact Hs].
Qed.

(** The code of [save] from a state that agrees. *)
Definition save_ends (a : Assembler) (ref relbase : Z) (l : list instr) (st : irstate) (m : mach) : Prop :=
  exists m', after_save relbase st m' /\
    if overflows relbase then exec_list l m = Some (Goto asmStackOverflow m')
    else if op1 (a_ir a ref) =? IR_SAVE_FALLTHROUGH
    then exists t, exitstubAddr (snapno a) a = Ok (t, a) /\ exec_list l m = Some (Goto t m')
    else exec_list l m = Some (Next m').

Lemma save_tail a a1 a2 ref relbase t0 u :
  debug a = false ->
  (if op1 (a_ir a ref) =? IR_SAVE_FALLTHROUGH then exitTo (snapno a) else aret tt) a = Ok (t0, a1) ->
  base_code relbase a1 = Ok (u, a2) ->
  same a a2 /\ exists l, emits (code a) (code a2) l
    /\ forall Sp n st m, agree a2 Sp n st m -> save_ends a ref relbase l st m.
Proof using TF.
  intros Hd H1 H2. apply base_code_spec in H2 as (l & c & -> & Em & Hl). cbn [code set_acode].
  destruct (op1 (a_ir a ref) =? IR_SAVE_FALLTHROUGH) eqn:Ef.
  - destruct (exitTo_spec _ _ _ _ Hd H1) as (t & Ht & Ej & Hs).
    split; [eapply asm_same_trans; [exact Hs|apply same_code]|]. exists (l ++ [IJmp t]).
    split; [by eapply emits_app|]. intros Sp n st m Ha. destruct (Hl _ _ _ _ _ Ha) as (m' & Hsv & X).
    exists m'. split; [done|]. rewrite Ef, exec_list_app, X. destruct (overflows relbase); [done|]. by exists t.
  - apply aret_ok in H1 as [_ ->]. split; [apply same_code|]. exists l. split; [done|].
    intros Sp n st m Ha. destruct (Hl _ _ _ _ _ Ha) as (m' & Hsv & X). exists m'. split; [done|].
    rewrite Ef, X. by destruct (overflows relbase).
Qed.

Lemma save_spec a ref sn u a' :
  ra_ok a ref -> debug a = false -> b_snaps (abuf a) !! Z.to_nat (snapno a) = Some sn ->
  forallb (stored_ok a ref (b_snapmap (abuf a))) (snap_range sn) = true ->
  save ref a = Ok (u, a') ->
  ra_ok a' ref /\ ext ref a a' /\ exists l, emits (code a) (code a') l /\
    forall Sp st st' m, slots_ok Sp -> covers a' Sp -> st_ok st ->
      put_slots (b_snapmap (abuf a)) (snap_range sn) st = Some st' -> agree a' Sp ref st m ->
      save_ends a ref (sn_relbase sn) l st' m.
Proof using TF.
  intros Hok Hd Hsn Hall H. unfold save in H. apply abind_ok in H as (ins & s1 & [-> ->]%bufir_ok & H).
  apply abind_ok in H as (s & s1 & [-> ->]%get_ok & H). apply abind_ok in H as (sn' & s2 & [-> Hsn']%asnap_ok & H).
  rewrite Hsn in Hsn'. injection Hsn' as <-. apply abind_ok in H as (t & a1 & H1 & H).
  apply abind_ok in H as (t2 & a2 & H2 & H).
  destruct (save_tail a a1 a2 ref (sn_relbase sn) t t2 Hd H1 H2) as (Hs & l2 & Em2 & Hl2).
  assert (Hall2 : forallb (stored_ok a2 ref (b_snapmap (abuf a))) (snap_range sn) = true)
    by (rewrite (stored_ext ref a a2); [done|by apply same_ext]).
  destruct (save_slots_runs ref _ _ a2 u a' (same_ok _ _ Hs _ Hok) Hall2 H) as (Hok' & He & l & Em & Hl).
  split; [done|]. split; [etransitivity; [by apply same_ext|exact He]|].
  exists (l ++ l2). split; [by eapply emits_app|]. intros Sp st st' m Hsl Hc Hst Hp Ha.
  destruct (Hl Sp st st' m Hsl Hc Hst Hp Ha) as (m1 & X1 & A1).
  destruct (Hl2 Sp ref st' m1 A1) as (m2 & Hsv & Hend). exists m2. split; [done|].
  rewrite !exec_list_app, X1. exact Hend.
Qed.
End machine.
