(* ===== verification/AsmPatch.v ===== *)
(** * Patching exits ([Assembler::patchGuard])

    When a side trace has been compiled, the branch with which its parent
    left for the exit stub is made to go to the side trace. *)

From S2P Require Import Prelude Words Hotness IR.
From S2P Require Import Registers X86 X86Sem X86Proofs AsmState.
From S2P Require Import AsmInv AsmSelect AsmSem AsmSim AsmInstr AsmGuard AsmStub.
From S2P Require Import Recorder.
From S2P Require Import Assembler.

(** ** Branches *)

Definition retarget (i : instr) (target : Z) : option instr :=
  match i with IJcc cc _ => Some (IJcc cc target) | IJmp _ => Some (IJmp target) | _ => None end.

Lemma encodes_jcc cc d : 0 <= cc < 16 -> is_i32 d -> encodes (0x0f :: 0x80 + cc :: le_bytes 4 d) (IJcc cc d).
Proof.
  intros Hcc Hd. split; [cbn; lia|]. intros rest.
  assert (Hp : parse ((0x0f :: 0x80 + cc :: le_bytes 4 d) ++ rest) = do (d, l) <- take_s 4 (le_bytes 4 d ++ rest); Some (IJcc cc d, l)).
  { assert (Hin : In cc (seqZ 0 16)) by (apply list_elem_of_In, elem_of_seqZ; lia). cbn in Hin.
    repeat (destruct Hin as [<-|Hin]; [reflexivity|]). done. }
  rewrite Hp, take_s_bytes by lia. change (8 * Z.of_nat 4) with 32. by rewrite i32_id by done.
Qed.

Lemma take_s_length n l d rest : take_s n l = Some (d, rest) -> length l = (n + length rest)%nat.
Proof.
  unfold take_s, take_le. destruct (Nat.leb_spec n (length l)) as [H|]; [|done]. intros [= _ <-]. rewrite length_drop. lia.
Qed.
Lemma fetch_cons n b p x : b !! p = Some x -> fetch (S n) b p = x :: fetch n b (p + 1).
Proof. intros H. cbn [fetch]. by rewrite H. Qed.
(** What the first byte says. *)
Lemma decode_jcc b p i q b1 :
  decode b p = Some (i, q) -> b !! p = Some 0x0f -> b !! (p + 1) = Some b1 -> XI_JCCn <= b1 <= XI_JCCn + 15 ->
  exists t, i = IJcc (b1 - XI_JCCn) t /\ q = p + 6.
Proof.
  intros Hd H0 H1 Hb. unfold decode in Hd. rewrite (fetch_cons 14 _ _ _ H0), (fetch_cons 13 _ _ _ H1) in Hd. cbv zeta in Hd. set (l := fetch 13 b (p + 1 + 1)) in *.
  assert (Hp : parse (0x0f :: b1 :: l) = do (d, l) <- take_s 4 l; Some (IJcc (b1 - XI_JCCn) d, l)).
  { unfold XI_JCCn in *. assert (Hin : In b1 (seqZ 128 16)) by (apply list_elem_of_In, elem_of_seqZ; lia). cbn in Hin.
    repeat (destruct Hin as [<-|Hin]; [reflexivity|]). done. }
  rewrite Hp in Hd. destruct (take_s 4 l) as [[d rest]|] eqn:Et; [|done]. injection Hd as <- <-.
  apply take_s_length in Et. cbn [length]. eexists. split; [reflexivity|]. lia.
Qed.
Lemma decode_jmp b p i q : decode b p = Some (i, q) -> b !! p = Some XI_JMP -> exists t, i = IJmp t /\ q = p + 5.
Proof.
  intros Hd H0. unfold decode in Hd. rewrite (fetch_cons 14 _ _ _ H0) in Hd. cbv zeta in Hd. set (l := fetch 14 b (p + 1)) in *.
  assert (Hp : parse (XI_JMP :: l) = do (d, l) <- take_s 4 l; Some (IJmp d, l)) by reflexivity.
  rewrite Hp in Hd. destruct (take_s 4 l) as [[d rest]|] eqn:Et; [|done]. injection Hd as <- <-.
  apply take_s_length in Et. cbn [length]. eexists. split; [reflexivity|]. lia.
Qed.
Lemma held_one b p l i : encodes l i -> bytes_at b p l ->
  held b p [absolute (p + Z.of_nat (length l)) i] (p + Z.of_nat (length l)).
Proof.
  intros He Hb b' Hx. eapply code_cons; [|constructor]. apply decode_bytes; [done|]. by eapply bytes_at_ext.
Qed.
Lemma held_app b p l q l' r : held b p l q -> held b q l' r -> p <= q <= r -> held b p (l ++ l') r.
Proof.
  intros H H' Hr b' Hx. apply (code_at_app _ _ _ q); [apply H|apply H']; intros x Hb; apply Hx; lia.
Qed.

(** ** Patching *)

(** The operand at [p] is set to go to [target]. *)
Lemma patch_rel_spec p target a u a' :
  patch_rel p target a = Ok (u, a') ->
  a' = set_acode (mkBytes (put_le 4 (bytes (code a)) p (target - (p + 4))) (mcp (code a))) a /\ is_i32 (target - (p + 4)).
Proof.
  unfold patch_rel. intros (d & Hd & [= _ <-])%obind_ok. destruct (jmprel_ok _ _ _ Hd) as [-> Hi]. done.
Qed.
Lemma byte_at_ok p a x a' : byte_at p a = Ok (x, a') -> bytes (code a) !! p = Some x /\ a' = a.
Proof. unfold byte_at. intros (y & Hy%of_option_ok & [= <- <-])%obind_ok. done. Qed.

(** The branch at [p], of [k] bytes before its operand. *)
Lemma patched b p pre i target :
  let n := Z.of_nat (length pre) in
  is_i32 (target - (p + n + 4)) -> bytes_at b p pre ->
  encodes (pre ++ le_bytes 4 (target - (p + n + 4))) i ->
  held (put_le 4 b (p + n) (target - (p + n + 4))) p [absolute (p + n + 4) i] (p + n + 4).
Proof.
  intros n Hi Hpre He. set (l := pre ++ _) in *. assert (Hlen : Z.of_nat (length l) = n + 4).
  { unfold l. rewrite length_app, le_bytes_length. lia. }
  pose proof (held_one (put_le 4 b (p + n) (target - (p + n + 4))) p l i He) as H. rewrite Hlen in H.
  replace (p + (n + 4)) with (p + n + 4) in H by lia. apply H. apply bytes_at_app. fold n. split.
  - eapply bytes_at_ext; [|exact Hpre]. intros q Hq. apply put_le_other. lia.
  - intros j x Hj. by apply put_le_at.
Qed.

(** patching the exit of a trace: if the code around the branch of
    snapshot [n] is [l1], the branch [i], a conditional or an unconditional
    one, and [l2], then behind [patchGuard] it is [l1], the same branch to
    the new target, and [l2]; no other byte changes. *)
Theorem patchGuard_redirects F n target a u a' snap b0 l1 i l2 e0 p' :
  patchGuard F n target a = Ok (u, a') -> Fragment.snap F n = Ok snap -> let p := sn_mcode snap in
  held (bytes (code a)) b0 l1 p -> decode (bytes (code a)) p = Some (i, p') -> held (bytes (code a)) p' l2 e0 -> b0 <= p -> p' <= e0 ->
  exists i', retarget i target = Some i' /\ held (bytes (code a')) b0 (l1 ++ [i'] ++ l2) e0
    /\ (forall q, ~ (p < q < p') -> bytes (code a') !! q = bytes (code a) !! q) /\ mcp (code a') = mcp (code a).
Proof.
  intros H Hsnap p Hl1 Hd Hl2 Hb He. unfold patchGuard in H. rewrite Hsnap in H. cbn [alift] in H.
  apply abind_ok in H as (s & a1 & [Hs ->]%alift_ok & H). injection Hs as <-. fold p in H.
  apply abind_ok in H as (ar & a1 & Hpb & H). apply obind_ok in Hpb as ([mc ar'] & _ & [= <- <-]).
  apply abind_ok in H as (x & a1 & [Hx ->]%byte_at_ok & H). change (bytes (code a) !! p = Some x) in Hx.
  apply abind_ok in H as (v & a2 & Hb2 & (mc' & _ & [= _ <-])%obind_ok).
  assert (Hcase : exists pre j, x = hd 0 pre /\ bytes_at (bytes (code a)) p pre /\ p' = p + Z.of_nat (length pre) + 4 /\ (0 < length pre)%nat
            /\ retarget i target = Some (absolute p' j) /\ is_i32 (target - p')
            /\ encodes (pre ++ le_bytes 4 (target - p')) j
            /\ code a2 = mkBytes (put_le 4 (bytes (code a)) (p + Z.of_nat (length pre)) (target - p')) (mcp (code a))).
  { destruct (Z.eqb_spec x 0x0f) as [->|Hne].
    - apply abind_ok in Hb2 as (b1 & a3 & [Hb1 ->]%byte_at_ok & H). apply abind_ok in H as (w1 & a3 & [Hlo%Z.leb_le ->]%lc_assert_ok & H).
      apply abind_ok in H as (w2 & a3 & [Hhi%Z.leb_le ->]%lc_assert_ok & H). apply patch_rel_spec in H as [-> Hi].
      destruct (decode_jcc _ _ _ _ b1 Hd Hx Hb1 (conj Hlo Hhi)) as (t & -> & ->).
      exists [0x0f; b1], (IJcc (b1 - XI_JCCn) (target - (p + 6))). change (Z.of_nat (length [15; b1])) with 2.
      replace (p + 2 + 4) with (p + 6) in * by lia. split_and!; try done.
      + intros [|[|j]] y Hj; cbn in Hj; [| |done]; injection Hj as <-; [by rewrite Z.add_0_r|exact Hb1].
      + cbn. lia.
      + cbn. do 2 f_equal. lia.
      + replace b1 with (0x80 + (b1 - XI_JCCn)) at 1 by (unfold XI_JCCn; lia). apply encodes_jcc; [lia|done].
    - apply abind_ok in Hb2 as (w1 & a3 & [->%Z.eqb_eq ->]%lc_assert_ok & H). apply patch_rel_spec in H as [-> Hi].
      destruct (decode_jmp _ _ _ _ Hd Hx) as (t & -> & ->). exists [XI_JMP], (IJmp (target - (p + 5))). change (Z.of_nat (length [XI_JMP])) with 1.
      replace (p + 1 + 4) with (p + 5) in * by lia. split_and!; try done.
      + intros [|j] y Hj; cbn in Hj; [|done]; injection Hj as <-. by rewrite Z.add_0_r.
      + cbn. lia.
      + cbn. do 2 f_equal. lia.
      + by apply encodes_jmp. }
  destruct Hcase as (pre & j & _ & Hpre & -> & Hlen & Hr & Hi & He' & Hc). exists (absolute (p + Z.of_nat (length pre) + 4) j).
  set (w := Z.of_nat (length pre)) in *.
  split; [done|]. change (code (set_mcode mc' a2)) with (code a2). rewrite Hc. cbn [bytes mcp].
  split; [|split; [|done]].
  - pose proof (patched (bytes (code a)) p pre j target Hi Hpre He') as Hnew. fold w in Hnew.
    apply (held_app _ _ _ p _ e0); [|apply (held_app _ _ _ (p + w + 4) _ e0); [exact Hnew| |lia]|lia].
    + eapply held_ext; [|exact Hl1]. intros q Hq. apply put_le_other. lia.
    + eapply held_ext; [|exact Hl2]. intros q Hq. apply put_le_above. lia.
  - intros q Hq. destruct (Z.lt_ge_cases q (p + w)); [by apply put_le_other|apply put_le_above; lia].
Qed.
