(* ===== verification/AsmLoop.v ===== *)
(** * The code of a trace

    One instruction of the main loop of [assemble], with its snapshot,
    and all of them: the code that the loop emits executes the
    instructions of the trace, or leaves it at the exit stub of the guard
    that failed, with everything its snapshot names in the place the
    exit looks for it. *)

From S2P Require Import Prelude Words Hotness IR.
From S2P Require Import CallStack.
From S2P Require Import Recorder.
From S2P Require Import IRInv.
From S2P Require Import Registers X86 X86Sem X86Proofs AsmState.
From S2P Require Import AsmInv.
From S2P Require Import AsmAlloc.
From S2P Require Import AsmSelect.
From S2P Require Import Assembler.
From S2P Require Import AsmSem.
From S2P Require Import AsmSim AsmInstr AsmGuard AsmMem AsmDiv AsmStub AsmSave.
Import RegSetProofs.

(** ** What is asked of the instructions *)

Definition two_ok (a : Assembler) (ref : Z) : bool :=
  operand_ok a ref (op1 (a_ir a ref)) && operand_ok a ref (op2 (a_ir a ref)).
(** Guards, and those that compare two operands. *)
Definition compares (op : Opcode) : bool :=
  match op with
  | kLT | kGE | kLE | kGT | kEQ | kNE | kLTU | kGEU | kLEU | kGTU | kEQINFO | kNEINFO => true
  | _ => false
  end.
Definition guards (op : Opcode) : bool := compares op || bool_decide (op = kHEAPCHK).

(** Operands are defined earlier and have a value; shifts are by a
    literal.  [PLOAD] and shifts by a reference are left out: their second
    operand can take the register of the first one. *)
Definition ins_ok (a : Assembler) (ref : Z) : bool :=
  let i := a_ir a ref in
  match ir_o i with
  | kSLOAD | kHEAPCHK | kFREF => true
  | kADD | kSUB | kMUL | kBAND | kBOR | kBXOR | kDIV | kREM
  | kLT | kGE | kLE | kGT | kEQ | kNE | kLTU | kGEU | kLEU | kGTU | kEQINFO | kNEINFO => two_ok a ref
  | kNEG | kBNOT => operand_ok a ref (op1 i)
  | kBSHL | kBSHR | kBSAR => operand_ok a ref (op1 i) && irref_islit (op2 i) && (bufmin a <=? op2 i)
  | kFLOAD => operand_ok a ref (op1 (a_ir a (op1 i)))
  | kNEW => new_ok a ref
  | kUPDATE => two_ok a ref && operand_ok a ref REF_IND
  | _ => false
  end.
(** The entries of a snapshot are literals or defined before it. *)
Definition entry_ok (a : Assembler) (n se : Z) : bool :=
  match slotRef (b_snapmap (abuf a)) se with
  | Ok r => irref_islit r || operand_ok a n r
  | Err _ => false
  end.

(** Only instructions that have a value have a place. *)
Definition values_only (a : Assembler) : Prop :=
  forall ref, live a (nins a) ref -> placed a ref -> value_ref a ref.

Section machine.
Context {TF : TraceFrame} {RA : RuntimeAddrs}.
Abbreviation B := tf_base.
Abbreviation SP := tf_sp.
Abbreviation HL := tf_hplim.
Abbreviation SL := tf_splim.

Lemma values_only_ext n a a' : ext n a a' -> values_only a -> values_only a'.
Proof using Type.
  intros He Hv ref Hl Hp. eapply value_ext; [exact He|].
  assert (Hl0 : live a (nins a) ref).
  { unfold live in *. destruct (erase_code _ _ (ex_erase _ _ _ He)) as (<- & _ & <-). done. }
  destruct (ex_new _ _ _ He ref Hp); auto.
Qed.
Lemma not_value a ref :
  values_only a -> bufmin a <= ref < nins a -> is_value (ir_o (a_ir a ref)) = false -> ~ placed a ref.
Proof using Type. intros Hv Hl Hn Hp%Hv; [|done]. unfold value_ref in Hp. congruence. Qed.
Lemma placed_ext n a a' ref : REF_BIAS <= ref -> ext n a a' -> placed a ref -> placed a' ref.
Proof using Type.
  intros Hb He [Hr|Hs].
  - destruct (ex_reg _ _ _ He ref Hb Hr) as [E|E]; [left; by rewrite E|by right].
  - right. by rewrite (ex_spill _ _ _ He).
Qed.

Lemma ins_ok_ext k a a' ref : ext k a a' -> ins_ok a' ref = ins_ok a ref.
Proof using Type.
  intros He. unfold ins_ok, two_ok. destruct (op_ext _ _ _ ref He) as (-> & -> & ->).
  destruct (op_ext _ _ _ (op1 (a_ir a ref)) He) as (_ & -> & _).
  rewrite !(operand_ok_ext k a a'), (new_ok_ext k a a'), (ext_bufmin _ _ _ He) by done. done.
Qed.

(** ** One instruction *)

Section emit.
Context (a : Assembler) (ref : Z) (u : ()) (a' : Assembler).
Hypotheses (Hok : ra_ok a (ref + 1)) (Hfirst : REF_FIRST <= ref) (Hmin : bufmin a <= ref < nins a)
  (Hvals : values_only a) (Hquick : ir_o (a_ir a ref) = kHEAPCHK -> op1 (a_ir a ref) <> 0 -> mcQuickHeapCheck (area a) = 0)
  (Hins : ins_ok a ref = true)
  (H : emit ref a = Ok (u, a')) (Hkept : compares (ir_o (a_ir a ref)) = true -> isReg (reg a' (op1 (a_ir a ref))) = true).
Let i := a_ir a ref.

Lemma emit_live : live a (ref + 1) ref.
Proof using Hmin. unfold live. lia. Qed.
(** Comparisons. *)
Lemma compare_case cc :
  asm_compmap (ir_o i) = Some cc -> is_value (ir_o i) = false -> compares (ir_o i) = true ->
  two_ok a ref = true -> compare ref cc a = Ok (u, a') -> instr_ok a a' ref.
Proof using TF RA Hok Hmin Hvals Hkept.
  intros Hcc Hv Hc Htwo Hcmp. apply andb_true_iff in Htwo as [Ho1 Ho2].
  apply (asm_compare_spec a ref u a' Hok (not_value a ref Hvals Hmin Hv) Ho1 Ho2 cc); try done. by apply Hkept.
Qed.
Lemma cmp_code cc :
  (let* s := asnap (snapno a) in
   lc_assert (sn_ref s =? curins a);* lc_assert (curins a =? ref);* compare ref cc) a = Ok (u, a') ->
  compare ref cc a = Ok (u, a').
Proof using Type.
  intros Hc. apply abind_ok in Hc as (s & s1 & [-> _]%asnap_ok & Hc).
  apply abind_ok in Hc as (t & s2 & [_ ->]%lc_assert_ok & Hc).
  by apply abind_ok in Hc as (t2 & s2 & [_ ->]%lc_assert_ok & Hc).
Qed.
Lemma shift_case xs op :
  xs_op xs = Some op -> ir_o i = op -> is_value op = true ->
  operand_ok a ref (op1 i) && irref_islit (op2 i) = true -> (bufmin a <=? op2 i) = true ->
  bitshift ref xs a = Ok (u, a') -> instr_ok a a' ref.
Proof using TF RA Hok Hfirst Hmin.
  intros Hxs <- Hv [Ho1 Ho2]%andb_true_iff Hb%Z.leb_le Hs.
  by apply (bitshift_spec a ref u a' Hok Hfirst emit_live Hv xs).
Qed.
Lemma div_case (isdiv : bool) ty :
  ir_o i = (if isdiv then kDIV else kREM) ->
  operand_ok a ref (op1 i) = true -> operand_ok a ref (op2 i) = true ->
  (lc_assert (isIntegerType ty);* divmod ref isdiv (isSigned ty)) a = Ok (u, a') -> instr_ok a a' ref.
Proof using TF RA Hok Hfirst Hmin.
  intros Hop Ho1 Ho2 Hd. apply abind_ok in Hd as (t & s & [_ ->]%lc_assert_ok & Hd).
  destruct (isSigned ty); [|done]. apply (divmod_spec a ref isdiv u a' Hok Hfirst emit_live); try done.
  unfold value_ref. fold i. rewrite Hop. by destruct isdiv.
Qed.

Lemma emit_spec : instr_ok a a' ref.
Proof using TF RA Hok Hfirst Hmin Hvals Hquick Hins H Hkept.
  pose proof emit_live as Hl.
  assert (Hval : is_value (ir_o i) = true -> value_ref a ref) by done.
  assert (Hnv : is_value (ir_o i) = false -> ~ placed a ref) by by apply not_value.
  pose proof H as Hem. unfold emit in Hem. apply abind_ok in Hem as (ins & s1 & [-> ->]%bufir_ok & Hem).
  apply abind_ok in Hem as (s & s2 & [-> ->]%get_ok & Hem). fold i in Hem.
  pose proof Hins as Hi. unfold ins_ok in Hi. fold i in Hi.
  destruct (ir_o i) eqn:Hop; try done; cbn [asm_compmap] in Hem.
  (* comparisons *)
  all: try (apply cmp_code in Hem; eapply compare_case; [rewrite Hop; reflexivity|by rewrite Hop|by rewrite Hop|done|done]).
  all: try lazymatch type of Hi with
           | two_ok _ _ = true => apply andb_true_iff in Hi as [Ho1 Ho2]
           | _ && _ = true => apply andb_true_iff in Hi as [Ho1 Ho2]
           end.
  (* arithmetic *)
  all: try (eapply (intArith_spec a ref u a' Hok Hfirst Hl (Hval eq_refl) Ho1 Ho2); [|exact Hem]; fold i; by rewrite Hop).
  - apply (itblGuard_spec a ref u a' Hok (Hnv eq_refl) Ho1 Ho2 false); [done|done|]. apply Hkept. fold i. by rewrite Hop.
  - apply (itblGuard_spec a ref u a' Hok (Hnv eq_refl) Ho1 Ho2 true); [done|done|]. apply Hkept. fold i. by rewrite Hop.
  - by apply (heapCheck_spec a ref u a' Hok (Hnv eq_refl) Hop (Hquick Hop)).
  - apply abind_ok in Hem as (t & s & [_ ->]%lc_assert_ok & Hem).
    apply (intNegNot_spec a ref u a' Hok Hfirst Hl (Hval eq_refl) XOg_NOT Hi); auto.
  - by apply (shift_case XOg_SHL kBSHL).
  - by apply (shift_case XOg_SHR kBSHR).
  - by apply (shift_case XOg_SAR kBSAR).
  - by apply (intMul_spec a ref u a' Hok Hfirst Hl (Hval eq_refl) Ho1 Ho2).
  - by apply (div_case true (ir_type i)).
  - by apply (div_case false (ir_type i)).
  - apply abind_ok in Hem as (t & s & [_ ->]%lc_assert_ok & Hem).
    apply (intNegNot_spec a ref u a' Hok Hfirst Hl (Hval eq_refl) XOg_NEG Hi); auto.
  - apply aret_ok in Hem as [_ ->]. apply (plain_instr a a ref Some (Hnv eq_refl)).
    + split; [by apply lower_ok; [|apply Hnv]|]. split; [done|]. exists []. split; [apply emits_nil|].
      intros Sp st st' m _ _ _ [= <-] Ha. by exists m.
    + intros st _. unfold ir_exec. fold i. by rewrite Hop.
  - by apply (fieldLoad_spec a ref u a' Hok Hfirst Hl (Hval eq_refl)).
  - by apply (emitSLOAD_spec a ref u a' Hok Hfirst Hl (Hval eq_refl)).
  - by apply (insNew_spec a ref u a').
  - apply andb_true_iff in Ho1 as [Ho1 Ho3]. by apply (insUpdate_spec a ref u a' Hok (Hnv eq_refl)).
Qed.
End emit.

(** ** Snapshots *)

(** Allocating places for a snapshot emits no code that matters, and
    keeps what has a place. *)
Definition prepared (n : Z) (a a' : Assembler) : Prop :=
  ra_ok a' n /\ ext n a a' /\ sim n a a' (fun _ => False).
Lemma prepared_refl n a : ra_ok a n -> prepared n a a.
Proof using Type. intros Hok. split; [done|]. split; [done|]. apply sim_refl. Qed.
Lemma prepared_trans n a a1 a2 : prepared n a a1 -> prepared n a1 a2 -> prepared n a a2.
Proof using Type.
  intros (O1 & E1 & S1) (O2 & E2 & S2). split; [done|]. split; [by etransitivity|].
  eapply sim_weaken; [|by eapply sim_trans]. by intros.
Qed.

Lemma snapshotAlloc1_spec n a r u a' :
  ra_ok a n -> n <= nins a -> irref_islit r = false -> operand_ok a n r = true ->
  snapshotAlloc1 r a = Ok (u, a') -> prepared n a a' /\ placed a' r.
Proof using Type.
  intros Hok Hn Hlit Ho H. destruct (operand_ok_spec _ _ _ Ho) as ([Hb1 Hb2] & Hb & Hv).
  unfold irref_islit in Hlit. apply Z.ltb_ge in Hlit. unfold snapshotAlloc1 in H.
  apply abind_ok in H as (ins & s1 & [-> ->]%bufir_ok & H). unfold hasRegOrSpill in H.
  destruct (negb (isReg (ir_reg (a_ir a r)) || negb (ir_spill (a_ir a r) =? 0))) eqn:E.
  - apply abind_ok in H as (s & s2 & [-> ->]%get_ok & H).
    destruct (negb _) in H; apply abind_ok in H as (x & a1 & Hal & [_ ->]%aret_ok).
    + destruct (allocRef_spec n a r kGPR x a1 Hok allows_kGPR) as (_ & _ & [A1 A2 A3 A4 A5 A6 A7 A7q A8]); try done.
      split; [|left; rewrite A4; by apply isReg_gpr]. split; [done|]. split; [done|].
      eapply sim_weaken; [|exact A8]. done.
    + destruct (spill_spec n a r x a1 Hok) as (S1 & S2 & S3 & S4 & S5 & _); try done.
      { unfold REF_FIRST, REF_BASE in *. lia. }
      { by right. }
      split; [|by right]. split; [done|]. split; [done|].
      eapply sim_same; [exact S3|exact S2|exact S4|apply sim_refl].
  - apply aret_ok in H as [_ ->]. apply negb_false_iff, orb_true_iff in E.
    split; [by apply prepared_refl|]. destruct E as [E|E]; [by left|right].
    by apply negb_true_iff, Z.eqb_neq in E.
Qed.

Lemma entries_ext k a a' n ses : ext k a a' -> forallb (entry_ok a' n) ses = forallb (entry_ok a n) ses.
Proof using Type.
  intros He. induction ses as [|se ses IH]; [done|]. cbn [forallb]. rewrite IH. f_equal. unfold entry_ok.
  rewrite (proj1 (proj2 (proj2 (erase_buf _ _ (ex_erase _ _ _ He))))).
  destruct (slotRef _ se); [|done]. by rewrite (operand_ok_ext k a a').
Qed.
Lemma entries_more a n ses : forallb (entry_ok a n) ses = true -> forallb (entry_ok a (n + 1)) ses = true.
Proof using Type.
  rewrite !forallb_forall. intros H se Hin. specialize (H se Hin). unfold entry_ok in *.
  destruct (slotRef _ se) as [r|]; [|done]. destruct (irref_islit r); [done|].
  eapply operand_more; [|exact H]. lia.
Qed.
Lemma snapshotAlloc_spec n d ses : forall a u a',
  ra_ok a n -> n <= nins a -> d = b_snapmap (abuf a) -> forallb (entry_ok a n) ses = true ->
  snapshotAlloc d ses a = Ok (u, a') ->
  prepared n a a' /\ forall se r, In se ses -> slotRef d se = Ok r -> irref_islit r = false -> placed a' r.
Proof using Type.
  induction ses as [|se ses IH]; intros a u a' Hok Hn Hd Hall H; cbn [snapshotAlloc] in H.
  { apply aret_ok in H as [_ ->]. split; [by apply prepared_refl|done]. }
  cbn [forallb] in Hall. apply andb_true_iff in Hall as [He Hall]. unfold entry_ok in He. rewrite <- Hd in He.
  apply abind_ok in H as (r & s1 & [Hr ->]%alift_ok & H). rewrite Hr in He.
  apply abind_ok in H as (t & a1 & H1 & H).
  assert (Hstep : prepared n a a1 /\ (irref_islit r = false -> placed a1 r)).
  { destruct (irref_islit r) eqn:Hl.
    - apply aret_ok in H1 as [_ ->]. split; [by apply prepared_refl|done].
    - destruct (snapshotAlloc1_spec n a r t a1 Hok Hn Hl He H1). auto. }
  destruct Hstep as [(O1 & E1 & S1) Hp].
  destruct (IH a1 u a' O1) as [P2 Hall2]; try done.
  { by rewrite (proj2 (proj2 (erase_code _ _ (ex_erase _ _ _ E1)))). }
  { by rewrite (proj1 (proj2 (proj2 (erase_buf _ _ (ex_erase _ _ _ E1))))). }
  { by rewrite (entries_ext n a a1). }
  split; [by eapply prepared_trans|]. intros se' r' [<-|Hin] Hr' Hlit; [|by eapply Hall2].
  rewrite Hr in Hr'. injection Hr' as <-. eapply placed_ext; [|exact (proj1 (proj2 P2))|by apply Hp].
  unfold irref_islit in Hlit. by apply Z.ltb_ge in Hlit.
Qed.

(** ** The loop *)

(** The state without the position in the trace and the place for an
    out-of-line heap check. *)
Definition unpos (a : Assembler) : Assembler := set_quick 0 (set_snapno 0 (set_curins 0 a)).
Lemma unpos_ok n a : ra_ok (unpos a) n <-> ra_ok a n.
Proof using Type. split; intros []; by split. Qed.
Lemma unpos_agree a Sp n st m : agree (unpos a) Sp n st m <-> agree a Sp n st m.
Proof using Type. split; intros []; by split. Qed.
Lemma unpos_erase a a' : erase a' = erase a -> erase (unpos a') = erase (unpos a).
Proof using Type. intros He. exact (f_equal unpos He). Qed.
Lemma unpos_ext n a a' : ext n a a' -> ext n (unpos a) (unpos a').
Proof using Type. intros []. split; try done. by apply unpos_erase. Qed.

(** Where an exit finds a reference. *)
Definition readable (af : Assembler) (Sp : Z -> Z) (st : irstate) (m : mach) (r : Z) : Prop :=
  if Sp r =? 0 then isReg (reg af r) = true /\ gpr m (reg af r) = val st r
  else mmem m (slot_addr (Sp r)) = Some (val st r).
(** A guard whose exit is number [k] branches to the exit stub, or, if it
    is a heap check, to the call of the run-time system with that number,
    which is followed by a jump back to the check. *)
Definition overflow_at (af : Assembler) (k t : Z) : Prop :=
  exists n p q, held (bytes (code af)) t (overflow_code k n p) (t + QUICK_HEAP_CHECK_FAIL_SIZE)
    /\ held (bytes (code af)) p (heap_test n ++ [IJcc CC_A t]) q.
Definition exits_at (af : Assembler) (k t : Z) : Prop := exitstubAddr k af = Ok (t, af) \/ overflow_at af k t.

(** The machine where a guard has left the trace: [X] says where exit
    number [k] is. *)
Record leaves (X : Z -> Z -> Prop) (af : Assembler) (Sp : Z -> Z) (q : Z) (st : irstate) (t : Z) (m : mach) : Prop := {
  lv_snap : exists k sn, b_snaps (abuf af) !! Z.to_nat k = Some sn /\ sn_ref sn = q
    /\ X k t
    /\ forall se r, In se (snap_range sn) -> slotRef (b_snapmap (abuf af)) se = Ok r ->
         irref_islit r = false -> REF_FIRST <= r /\ readable af Sp st m r;
  lv_base : gpr m RID_BASE = B;
  lv_sp : gpr m RID_ESP = SP;
  lv_hp : gpr m RID_HP = ihp st;
  lv_mem : forall x, ~ in_frame x -> mmem m x = imem st x;
  lv_lits : literals_ok af st
}.

Lemma readable_intro n a af Sp st m r k :
  ext k a af -> covers af Sp -> agree a Sp n st m -> REF_FIRST <= r < n -> bufmin a <= r < nins a -> placed a r ->
  readable af Sp st m r.
Proof using Type.
  intros He Hc Ha Hr Hmin Hp. unfold readable. pose proof (covers_ext _ _ _ _ He Hc r Hmin) as Hca.
  assert (Hcf : spl af r <> 0 -> Sp r = spl af r).
  { apply Hc. unfold live. by destruct (erase_code _ _ (ex_erase _ _ _ He)) as (-> & _ & ->). }
  destruct (Z.eqb_spec (Sp r) 0) as [Ez|Hnz].
  - assert (Hs : spl a r = 0).
    { destruct (Z.eq_dec (spl a r) 0) as [|Hne]; [done|]. specialize (Hca Hne). congruence. }
    destruct Hp as [Hreg|]; [|done].
    destruct (ex_reg _ _ _ He r) as [E|E]; [unfold REF_FIRST in Hr; lia|done| |].
    + rewrite E. split; [done|]. apply (ag_reg _ _ _ _ _ Ha); [|done]. unfold live. lia.
    + specialize (Hcf E). congruence.
  - by apply (ag_slot _ _ _ _ _ Ha).
Qed.

Lemma stub_same k a a' t :
  exitStubGroup a' = exitStubGroup a -> exitstubAddr k a = Ok (t, a) -> exitstubAddr k a' = Ok (t, a').
Proof using Type.
  intros E. unfold exitstubAddr. rewrite E. destruct (of_option _ _) as [g|]; [|done]. cbn [obind].
  destruct (negb (g =? 0)); [|done]. by intros [= <-].
Qed.
Lemma snaps_same a a' j s :
  erase a' = erase a -> b_snaps (abuf a) !! j = Some s ->
  exists s', b_snaps (abuf a') !! j = Some s' /\ sn_ref s' = sn_ref s /\ snap_range s' = snap_range s.
Proof using Type.
  intros He Hs. pose proof (f_equal (fun x => b_snaps (abuf x) !! j) He) as E. cbn in E.
  rewrite !list_lookup_fmap, Hs in E. destruct (b_snaps (abuf a') !! j) as [s'|]; [|done].
  injection E as E1 E2 _ E4. exists s'. split; [done|]. split; [done|]. unfold snap_range. by rewrite E2, E4.
Qed.

(** A guard that fails. *)
Lemma guard_leaves (X : Z -> Z -> Prop) a a0 a1 af Sp st m t ref s :
  b_snaps (abuf a) !! Z.to_nat (snapno a) = Some s -> sn_ref s = ref -> forallb (entry_ok a ref) (snap_range s) = true ->
  (forall se r, In se (snap_range s) -> slotRef (b_snapmap (abuf a)) se = Ok r -> irref_islit r = false -> placed a0 r) ->
  ext (ref + 1) a a0 -> ext (ref + 1) a0 a1 -> ext (ref + 1) (unpos a1) (unpos af) ->
  X (snapno a) t -> covers af Sp -> ref < nins a -> agree a1 Sp ref st m ->
  leaves X af Sp ref st t m.
Proof using Type.
  intros Hs Href Hent Hpl He0 He1 Hef Ht Hc Hn Ha.
  assert (Hall : erase (unpos af) = erase (unpos a)).
  { rewrite (ex_erase _ _ _ Hef). apply unpos_erase. rewrite (ex_erase _ _ _ He1). apply He0. }
  split; [|apply (ag_base _ _ _ _ _ Ha)|apply (ag_sp _ _ _ _ _ Ha)|apply (ag_hp _ _ _ _ _ Ha)|apply (ag_mem _ _ _ _ _ Ha)
        |exact (literals_forth _ (unpos a1) (unpos af) st Hef (ag_lits _ _ _ _ _ Ha))].
  destruct (snaps_same (unpos a) (unpos af) (Z.to_nat (snapno a)) s Hall Hs) as (s' & Hs' & Hr' & Hran).
  exists (snapno a), s'. split; [done|]. split; [congruence|]. split; [done|].
  intros se r Hin Hr Hlit. rewrite Hran in Hin.
  change (b_snapmap (abuf af)) with (b_snapmap (abuf (unpos af))) in Hr.
  rewrite (proj1 (proj2 (proj2 (erase_buf _ _ Hall)))) in Hr.
  rewrite forallb_forall in Hent. specialize (Hent se Hin). unfold entry_ok in Hent.
  change (b_snapmap (abuf (unpos a))) with (b_snapmap (abuf a)) in Hr. rewrite Hr, Hlit in Hent.
  destruct (operand_ok_spec _ _ _ Hent) as ([Hb1 Hb2] & Hb & _). unfold irref_islit in Hlit. apply Z.ltb_ge in Hlit.
  assert (Hp1 : placed a1 r) by (eapply placed_ext; [done|exact He1|apply (Hpl se); [done|done|by apply Z.ltb_ge]]).
  split; [unfold REF_FIRST, REF_BASE in *; lia|].
  apply (readable_intro ref (unpos a1) (unpos af) Sp st m r (ref + 1)); try done.
  - by apply unpos_agree.
  - unfold REF_FIRST, REF_BASE in *. lia.
  - change (bufmin a1 <= r < nins a1). rewrite (ext_bufmin _ _ _ He1), (ext_bufmin _ _ _ He0).
    rewrite (proj2 (proj2 (erase_code _ _ (ex_erase _ _ _ He1)))), (proj2 (proj2 (erase_code _ _ (ex_erase _ _ _ He0)))). lia.
Qed.

(** What is checked of one step: [kept] says that the first operand of a
    comparison is in a register when the second one has been allocated. *)
Definition step_ok (a : Assembler) : bool :=
  let ref := curins a in
  let i := a_ir a ref in
  ins_ok a ref && (negb (guards (ir_o i)) || isGuard i)
  && (negb (isGuard i)
      || match b_snaps (abuf a) !! Z.to_nat (snapno a) with
         | Some s => forallb (entry_ok a ref) (snap_range s)
         | None => false
         end).
Definition kept (a a1 : Assembler) : bool :=
  let i := a_ir a (curins a) in negb (compares (ir_o i)) || isReg (reg a1 (op1 i)).

(** ** What stays of the code

    [T]: the end of the room for the instructions of the trace; between
    [T] and [mctop] is the tail. *)
Section room.
Context (T : Z).
Abbreviation quick a := (mcQuickHeapCheck (area a)).

(** A later state: the code is still there, and so is the call for an
    out-of-line heap check once it has been written. *)
Record later (a af : Assembler) : Prop := {
  lt_low : mcp (code af) <= mcp (code a);
  lt_top : mctop (area af) = mctop (area a);
  lt_bytes : quick a = 0 -> forall q, mcp (code a) <= q < T \/ mctop (area a) <= q ->
    bytes (code af) !! q = bytes (code a) !! q
}.
Lemma later_trans a b c : (quick a = 0 -> quick b = 0) -> later a b -> later b c -> later a c.
Proof using Type.
  intros Hq [L1 T1 B1] [L2 T2 B2]. split; [lia|congruence|]. intros Ha q Hr.
  rewrite B2 by (auto; rewrite T1; lia). by apply B1.
Qed.
Lemma emits_later k a af l :
  mcp (code a) <= mctop (area a) -> ext k (unpos a) (unpos af) -> emits (code a) (code af) l -> later a af.
Proof using Type.
  intros Hr He (H1 & H2 & _). split; [done| |].
  - destruct (erase_pos _ _ (ex_erase _ _ _ He)) as (_ & _ & _ & _ & _ & _ & E). exact (f_equal mctop E).
  - intros _ q Hq. apply H2. lia.
Qed.

(** An exit inside the room. *)
Definition exits_in (af : Assembler) (k t : Z) : Prop :=
  exitstubAddr k af = Ok (t, af) \/ exists n p q,
    quick af = 0 /\ mctop (area af) <= t /\ mcp (code af) <= p /\ q <= T
    /\ held (bytes (code af)) t (overflow_code k n p) (t + QUICK_HEAP_CHECK_FAIL_SIZE)
    /\ held (bytes (code af)) p (heap_test n ++ [IJcc CC_A t]) q.
Lemma exits_later a af k t :
  later a af -> (quick a = 0 -> quick af = 0) -> exitStubGroup af = exitStubGroup a -> exits_in a k t -> exits_in af k t.
Proof using Type.
  intros [L1 L2 L3] Hq Hg [Hs|(n & p & q & Hz & Ht & Hp & HT & H1 & H2)]; [left; by eapply stub_same|right].
  exists n, p, q. rewrite L2. split_and!; [auto|done|lia|done| |]; (eapply held_ext; [|done]); intros x Hx; apply L3; auto; lia.
Qed.
(** At the end of assembly the tail has been filled in. *)
Lemma exits_final a af k t :
  exitStubGroup af = exitStubGroup a ->
  (forall q, mcp (code a) <= q < T \/ mctop (area a) <= q -> bytes (code af) !! q = bytes (code a) !! q) ->
  exits_in a k t -> exits_at af k t.
Proof using Type.
  intros Hg L3 [Hs|(n & p & q & Hz & Ht & Hp & HT & H1 & H2)]; [left; by eapply stub_same|right].
  exists n, p, q. split; (eapply held_ext; [|done]); intros x Hx; apply L3; lia.
Qed.

(** Code that is added below, next to what is written above. *)
Definition emits_in (c c' : Code) (l : list instr) : Prop :=
  mcp c' <= mcp c /\ (forall q, mcp c <= q < T -> bytes c' !! q = bytes c !! q) /\ held (bytes c') (mcp c') l (mcp c).
Lemma emits_inside c c' l : emits c c' l -> emits_in c c' l.
Proof using Type. intros (H1 & H2 & H3). split; [done|]. split; [|done]. intros q Hq. apply H2. lia. Qed.
Lemma emits_in_app c c' c'' l l' : mcp c <= T -> emits_in c c' l -> emits_in c' c'' l' -> emits_in c c'' (l' ++ l).
Proof using Type.
  intros HT (H1 & F1 & C1) (H2 & F2 & C2). split; [lia|]. split.
  - intros q Hq. rewrite F2 by lia. auto.
  - intros b Hb. eapply code_at_app.
    + apply C2. intros q Hq. apply Hb. lia.
    + apply C1. intros q Hq. rewrite Hb by lia. apply F2. lia.
Qed.

(** ** One step *)

(** The code of one step, for final states [L]. *)
Definition step_list (L : Assembler -> Prop) (a a1 : Assembler) (l : list instr) : Prop :=
  let ref := curins a in
  forall af Sp st m r,
    L af -> ext ref (unpos a1) (unpos af) -> covers af Sp -> slots_ok Sp -> Sp ref = spl af ref -> st_ok st ->
    ir_exec a ref st = Some r -> agree a1 Sp ref st m ->
    match r with
    | Fall st' => exists m', exec_list l m = Some (Next m') /\ agree a Sp (ref + 1) st' m'
    | Leave q st' => exists t m', exec_list l m = Some (Goto t m') /\ leaves (exits_in af) af Sp q st' t m'
    end.
(** The final states for [a1]. *)
Definition final (a1 af : Assembler) : Prop := later a1 af /\ (quick a1 = 0 -> quick af = 0).
Record step_spec (a a1 : Assembler) : Prop := {
  ss_ok : ra_ok a1 (curins a);
  ss_ext : ext (curins a + 1) (unpos a) (unpos a1);
  ss_cur : curins a1 = curins a;
  ss_quick : quick a1 = quick a \/ quick a1 = 0;
  ss_later : later a a1;
  ss_code : exists l, emits_in (code a) (code a1) l /\ step_list (final a1) a a1 l
}.

Lemma ir_exec_leave a ref st q st' : ir_exec a ref st = Some (Leave q st') -> q = ref /\ guards (ir_o (a_ir a ref)) = true.
Proof using Type.
  unfold ir_exec. destruct (ir_o (a_ir a ref)); intros H; repeat case_match; simplify_eq;
    try (apply bind_Some in H as (? & _ & H)); repeat case_match; simplify_eq; done.
Qed.

(** What a guard needs: its snapshot, whose references have places. *)
Definition guarded (a a0 : Assembler) : Prop := exists s,
  b_snaps (abuf a) !! Z.to_nat (snapno a) = Some s /\ sn_ref s = curins a
  /\ forallb (entry_ok a (curins a)) (snap_range s) = true
  /\ forall se r, In se (snap_range s) -> slotRef (b_snapmap (abuf a)) se = Ok r -> irref_islit r = false -> placed a0 r.

Lemma step_intro E L a a0 a' :
  curins a < nins a -> prepared (curins a + 1) a a0 -> instr_exit E a0 a' (curins a) ->
  (guards (ir_o (a_ir a (curins a))) = true -> guarded a a0) ->
  (forall af t, L af -> ext (curins a) (unpos a') (unpos af) -> E t -> exits_in af (snapno a) t) ->
  exists l, emits (code a) (code a') l /\ step_list L a a' l.
Proof using Type.
  intros Hcn (Hok0 & He0 & l0 & Em0 & Hs0) [Hok' He' (l & Em & Hl)] Hsnap HE.
  exists (l ++ l0). split; [by eapply emits_app|]. intros af Sp st m r HL Hef Hc Hsl Hsp Hst Hr Ha.
  assert (Hc' : covers a' Sp) by exact (covers_ext _ (unpos a') (unpos af) Sp Hef Hc).
  assert (Hspl : Sp (curins a) = spl a' (curins a)).
  { rewrite Hsp. exact (f_equal ir_spill (ex_above _ _ _ Hef (curins a) (Z.le_refl _))). }
  rewrite <- (ir_exec_ext _ _ _ _ _ He0) in Hr. specialize (Hl Sp st m r Hsl Hc' Hspl Hst Hr Ha).
  rewrite exec_list_app. destruct r as [st'|q st'].
  - destruct Hl as (m1 & -> & A1).
    destruct (Hs0 Sp st' m1 (covers_ext _ _ _ _ He' Hc') A1) as (m2 & X2 & A2 & _). by exists m2.
  - destruct Hl as (-> & a1 & t & m1 & Ht & -> & E1 & E2 & A1). exists t, m1. split; [done|].
    rewrite (ir_exec_ext _ _ _ _ _ He0) in Hr. destruct (ir_exec_leave _ _ _ _ _ Hr) as [_ Hg].
    destruct (Hsnap Hg) as (s & Hs & Href & Hent & Hpl).
    apply (guard_leaves (exits_in af) a a0 a1 af Sp st' m1 t (curins a) s); try done.
    + etransitivity; [by apply unpos_ext|]. eapply ext_weaken; [|exact Hef]. lia.
    + by apply HE.
Qed.

(** The room that is left. *)
Record room (a : Assembler) : Prop := {
  rm_code : mcp (code a) <= T <= mctop (area a);
  rm_quick : quick a = 0 \/ quick a = mctop (area a)
}.

Lemma plain_step a a0 a' :
  room a -> curins a < nins a -> prepared (curins a + 1) a a0 -> instr_ok a0 a' (curins a) ->
  (guards (ir_o (a_ir a (curins a))) = true -> guarded a a0) -> step_spec a a'.
Proof using Type.
  intros [Hc Hq] Hcn Hp Hi Hg. pose proof Hp as (Hok0 & He0 & _).
  assert (He : ext (curins a + 1) a a') by (etransitivity; [exact He0|exact (io_ext _ _ _ _ Hi)]).
  destruct (erase_pos _ _ (ex_erase _ _ _ He)) as (Ec & _ & _ & Es & _ & _ & Ea).
  destruct (erase_pos _ _ (ex_erase _ _ _ He0)) as (_ & _ & En & Es0 & _).
  destruct (step_intro (current_stub a0) (final a') a a0 a' Hcn Hp Hi Hg) as (l & Em & Hl).
  { intros af t _ Hef Ht. left. unfold current_stub in Ht. rewrite En in Ht. eapply stub_same; [|exact Ht].
    destruct (erase_pos _ _ (ex_erase _ _ _ Hef)) as (_ & _ & _ & Ef & _). change (exitStubGroup af = exitStubGroup a') in Ef.
    congruence. }
  split; [exact (io_ok _ _ _ _ Hi)|by apply unpos_ext|done|left; by rewrite Ea| |].
  - apply (emits_later (curins a + 1) a a' l); [lia|by apply unpos_ext|done].
  - exists l. split; [by apply emits_inside|done].
Qed.

Lemma quick_step a a0 a2 a' n :
  room a -> curins a < nins a -> prepared (curins a + 1) a a0 -> quick a <> 0 ->
  instr_exit (eq (quick a0)) a0 a2 (curins a) -> out_of_line a0 a2 a' (quick a0) n ->
  (guards (ir_o (a_ir a (curins a))) = true -> guarded a a0) -> step_spec a a'.
Proof using Type.
  intros [Hc Hq] Hcn Hp Hnz Hi [Hcode [bs ->] Hcall Hother] Hg. pose proof Hp as (Hok0 & He0 & _).
  destruct Hq as [Hq|Hq]; [done|].
  destruct (erase_pos _ _ (ex_erase _ _ _ He0)) as (_ & _ & En & _ & _ & _ & Ea0). rewrite Ea0, Hq, En in *.
  assert (He : ext (curins a + 1) a a2) by (etransitivity; [exact He0|exact (io_ext _ _ _ _ Hi)]).
  destruct (erase_pos _ _ (ex_erase _ _ _ He)) as (Ec & _ & _ & _ & _ & _ & Ea).
  set (a' := set_quick 0 _) in *. assert (Htop : mctop (area a') = mctop (area a)) by (rewrite <- Ea; done).
  assert (Hlow : mcp (code a0) <= mcp (code a)).
  { destruct Hp as (_ & _ & l0 & (H & _) & _). done. }
  destruct (step_intro (eq (mctop (area a))) (final a') a a0 a2 Hcn Hp Hi Hg) as (l & Em & Hl).
  { intros af t [[L1 L2 L3] Hz] _ <-. right. specialize (Hz eq_refl). specialize (L3 eq_refl).
    change (mcp (code a')) with (mcp (code a2)) in *. rewrite Htop in *.
    exists n, (mcp (code a2)), (mcp (code a0)). split_and!; [done|lia|lia|lia| |].
    - eapply held_ext; [|exact Hcall]. intros x Hx. apply L3. lia.
    - eapply held_ext; [|exact (emits_held _ _ _ Hcode)]. intros x Hx.
      rewrite L3 by lia. apply Hother. lia. }
  pose proof Em as (Hle & Hkeep & _).
  split.
  - by destruct (io_ok _ _ _ _ Hi).
  - apply unpos_ext in He as [X1 X2 X3 X4 X5 X6]. by split.
  - exact Ec.
  - by right.
  - split; [done|done|]. intros Hz. congruence.
  - exists l. split; [split; [done|split]|].
    + intros q Hr. rewrite Hother by lia. apply Hkeep. lia.
    + eapply held_ext; [|exact (emits_held _ _ _ Em)]. intros x Hx. apply Hother. lia.
    + intros af Sp st m r HL Hef Hcv Hsl Hsp Hst Hr Ha. apply (Hl af Sp st m r HL); try done.
      * destruct Hef as [X1 X2 X3 X4 X5 X6]. by split.
      * by destruct Ha.
Qed.
Lemma step_pos a a2 k : step_spec a a2 -> step_spec a (set_snapno k a2).
Proof using Type.
  intros [S1 S2 S3 S4 S5 (l & Em & Hl)]. split; [by destruct S1|done|done|done|by destruct S5|].
  exists l. split; [done|]. intros af Sp st m r [HL Hq] Hef Hc Hsl Hsp Hst Hr Ha.
  apply (Hl af Sp st m r); try done; [|by destruct Ha]. split; [by destruct HL|done].
Qed.

(** The emission of one instruction, in either form. *)
Lemma emit_step a a0 u a2 :
  ra_ok a (curins a + 1) -> curins a < nins a -> REF_FIRST <= curins a -> bufmin a <= curins a -> values_only a ->
  room a -> prepared (curins a + 1) a a0 -> ins_ok a (curins a) = true ->
  (compares (ir_o (a_ir a (curins a))) = true -> isReg (reg a2 (op1 (a_ir a (curins a)))) = true) ->
  (guards (ir_o (a_ir a (curins a))) = true -> guarded a a0) -> emit (curins a) a0 = Ok (u, a2) -> step_spec a a2.
Proof using TF RA.
  intros Hok Hn Hfirst Hmin Hv Hrm Hp Hins Hkept Hg Hem. set (ref := curins a) in *. pose proof Hp as (Hok0 & He0 & _).
  destruct (op_ext _ _ _ ref He0) as (Eo & E1 & _).
  assert (Hmin0 : bufmin a0 <= ref < nins a0).
  { rewrite (ext_bufmin _ _ _ He0), (proj2 (proj2 (erase_code _ _ (ex_erase _ _ _ He0)))). lia. }
  assert (Hv0 : values_only a0) by by eapply values_only_ext.
  assert (Eq : quick a0 = quick a) by by rewrite (proj2 (proj2 (proj2 (proj2 (proj2 (proj2 (erase_pos _ _ (ex_erase _ _ _ He0)))))))).
  destruct (decide (ir_o (a_ir a0 ref) = kHEAPCHK /\ op1 (a_ir a0 ref) <> 0 /\ quick a0 <> 0)) as [(Hop & H1 & Hq)|Hnq].
  - unfold emit in Hem. apply abind_ok in Hem as (ins & s1 & [-> ->]%bufir_ok & Hem).
    apply abind_ok in Hem as (s & s2 & [-> ->]%get_ok & Hem). rewrite Hop in Hem.
    assert (Hnp : ~ placed a0 ref) by (apply not_value; [done|done|by rewrite Hop]).
    destruct (heapCheck_quick a0 ref u a2 Hok0 Hnp Hop H1 Hq Hem) as (a1 & Hi & Ho).
    apply (quick_step a a0 a1 a2 (8 * op1 (a_ir a0 ref)) Hrm Hn Hp); try done. by rewrite <- Eq.
  - apply (plain_step a a0 a2 Hrm Hn Hp); [|done]. apply (emit_spec a0 ref u a2); try done.
    + intros Hop H1. destruct (Z.eq_dec (quick a0) 0); [done|]. by destruct Hnq.
    + by rewrite (ins_ok_ext _ _ _ _ He0).
    + rewrite Eo, E1. exact Hkept.
Qed.

Lemma assemble_ins_spec a u a1 :
  ra_ok a (curins a + 1) -> curins a < nins a -> REF_FIRST <= curins a -> bufmin a <= curins a -> values_only a ->
  room a -> step_ok a = true -> kept a a1 = true -> assemble_ins a = Ok (u, a1) -> step_spec a a1.
Proof using TF RA.
  intros Hok Hn Hfirst Hmin Hv Hrm Hstep Hkept H. unfold step_ok in Hstep. unfold kept in Hkept.
  apply andb_true_iff in Hstep as [[Hins Hg]%andb_true_iff Hsn].
  unfold assemble_ins in H. apply abind_ok in H as (x & s1 & [-> ->]%get_ok & H).
  apply abind_ok in H as (ins & s1 & [-> ->]%bufir_ok & H).
  set (ref := curins a) in *. set (i := a_ir a ref) in *.
  destruct (isGuard i) eqn:Hgd; cbn [negb orb] in *.
  - apply abind_ok in H as (s & s2 & [-> Hs]%asnap_ok & H). rewrite Hs in Hsn.
    apply abind_ok in H as (t & s2 & [Href%Z.eqb_eq ->]%lc_assert_ok & H).
    apply abind_ok in H as (t2 & a0 & Hpre & H). apply abind_ok in H as (t3 & a2 & Hem & H).
    apply modify_ok in H as [_ ->].
    assert (Hal : snapshotAlloc (b_snapmap (abuf a)) (snap_range s) a = Ok (t2, a0)).
    { destruct (bool_decide_reflect (ir_o i = kSAVE)) as [E|]; [|exact Hpre].
      unfold ins_ok in Hins. fold i in Hins. by rewrite E in Hins. }
    destruct (snapshotAlloc_spec (ref + 1) _ (snap_range s) a t2 a0 Hok ltac:(lia) eq_refl (entries_more _ _ _ Hsn) Hal)
      as [Hp Hpl].
    apply step_pos, (emit_step a a0 t3 a2); try done.
    + fold ref i. intros Hc. by rewrite Hc in Hkept.
    + intros _. by exists s.
  - apply (emit_step a a u a1); try done; [by apply prepared_refl| |].
    + fold ref i. intros Hc. by rewrite Hc in Hkept.
    + fold ref i. intros Hc. by rewrite Hc in Hg.
Qed.

(** The checks along the loop. *)
Fixpoint loop_ok (n : nat) (a : Assembler) : bool :=
  match n with
  | O => true
  | S n' =>
      if curins a <? astopins a then true
      else step_ok a && match assemble_ins a with
                        | Ok (_, a1) => kept a a1 && loop_ok n' (set_curins (curins a1 - 1) a1)
                        | Err _ => true
                        end
  end.
Record loop_state (a : Assembler) : Prop := {
  ls_ok : ra_ok a (curins a + 1);
  ls_cur : curins a < nins a;
  ls_stop : REF_FIRST <= astopins a <= curins a + 1;
  ls_min : bufmin a <= REF_FIRST;
  ls_vals : values_only a;
  ls_room : room a
}.
(** The code of the instructions from [astopins a] to [curins a]. *)
Definition trace_code (a af : Assembler) (l : list instr) : Prop :=
  forall Sp st m r, slots_ok Sp -> covers af Sp -> (forall q, astopins a <= q <= curins a -> Sp q = spl af q) ->
    st_ok st -> ir_run a (astopins a) (Z.to_nat (curins a + 1 - astopins a)) st = Some r ->
    agree af Sp (astopins a) st m ->
    match r with
    | Fall st' => exists m', exec_list l m = Some (Next m') /\ agree a Sp (curins a + 1) st' m'
    | Leave q st' => exists t m', exec_list l m = Some (Goto t m') /\ leaves (exits_in af) af Sp q st' t m'
    end.

Lemma ir_run_ext k a a' ref n st : ext k (unpos a) (unpos a') -> ir_run a' ref n st = ir_run a ref n st.
Proof using Type.
  intros He. induction n as [|n IH]; [done|]. cbn [ir_run]. rewrite IH.
  destruct (ir_run a ref n st) as [[st'|]|]; [|done|done]. exact (ir_exec_ext _ (unpos a) (unpos a') _ st' He).
Qed.
Lemma step_state a a1 :
  loop_state a -> astopins a <= curins a -> ra_ok a1 (curins a) -> ext (curins a + 1) (unpos a) (unpos a1) ->
  curins a1 = curins a -> quick a1 = quick a \/ quick a1 = 0 -> later a a1 -> loop_state (set_curins (curins a1 - 1) a1).
Proof using Type.
  intros [L1 L2 L3 L4 L5 [R1 R2]] Hle Hok He Hcur Hq [T1 T2 _]. destruct (erase_code _ _ (ex_erase _ _ _ He)) as (E1 & _ & E2).
  destruct (erase_pos _ _ (ex_erase _ _ _ He)) as (_ & E3 & _ & _ & _ & _ & _).
  change (bufmin a1 = bufmin a) in E1. change (nins a1 = nins a) in E2. change (astopins a1 = astopins a) in E3.
  split; cbn [curins set_curins set_pos].
  - replace (curins a1 - 1 + 1) with (curins a) by lia. by destruct Hok.
  - change (nins (set_curins (curins a1 - 1) a1)) with (nins a1). rewrite E2. lia.
  - change (astopins (set_curins (curins a1 - 1) a1)) with (astopins a1). rewrite E3. lia.
  - change (bufmin (set_curins (curins a1 - 1) a1)) with (bufmin a1). by rewrite E1.
  - exact (values_only_ext _ (unpos a) (unpos a1) He L5).
  - split; cbn [code area set_curins set_pos]; [lia|]. rewrite T2. destruct Hq as [-> | ->]; auto.
Qed.

Lemma trace_cons a a1 af l1 l :
  astopins a <= curins a -> astopins a1 = astopins a -> curins a1 = curins a ->
  ext (curins a + 1) (unpos a) (unpos a1) -> ext (curins a) (unpos a1) (unpos af) -> final a1 af ->
  step_list (final a1) a a1 l1 -> trace_code (set_curins (curins a1 - 1) a1) af l -> trace_code a af (l ++ l1).
Proof using Type.
  intros Hle Hstop Hcur He1 Hef Hfin Hl1 Hl Sp st m r Hsl Hc Hsp Hst Hr Ha.
  set (a2 := set_curins (curins a1 - 1) a1) in *. set (k := Z.to_nat (curins a - astopins a)).
  replace (Z.to_nat (curins a + 1 - astopins a)) with (S k) in Hr by (unfold k; lia). cbn [ir_run] in Hr.
  replace (astopins a + Z.of_nat k) with (curins a) in Hr by (unfold k; lia).
  assert (Hk : Z.to_nat (curins a2 + 1 - astopins a2) = k).
  { unfold k. change (Z.to_nat (curins a1 - 1 + 1 - astopins a1) = Z.to_nat (curins a - astopins a)). f_equal. lia. }
  destruct (ir_run a (astopins a) k st) as [r1|] eqn:Hr1; [|done].
  assert (Hrun : ir_run a2 (astopins a2) (Z.to_nat (curins a2 + 1 - astopins a2)) st = Some r1).
  { rewrite Hk. change (astopins a2) with (astopins a1). rewrite Hstop.
    by rewrite (ir_run_ext _ a a2 _ _ _ He1). }
  assert (Hrest := Hl Sp st m r1 Hsl Hc). rewrite exec_list_app.
  assert (Hq : forall q, astopins a2 <= q <= curins a2 -> Sp q = spl af q).
  { intros q Hq. apply Hsp. change (astopins a1 <= q <= curins a1 - 1) in Hq. lia. }
  rewrite <- Hstop in Ha. specialize (Hrest Hq Hst Hrun Ha).
  pose proof (ir_run_ok _ _ _ _ _ Hst Hr1) as Hst1. destruct r1 as [st1|q st1].
  - destruct Hrest as (m1 & -> & A1).
    assert (A1' : agree a1 Sp (curins a) st1 m1).
    { change (curins a2 + 1) with (curins a1 - 1 + 1) in A1. replace (curins a1 - 1 + 1) with (curins a) in A1 by lia.
      by destruct A1. }
    apply (Hl1 af Sp st1 m1 r); try done. apply Hsp. lia.
  - injection Hr as <-. destruct Hrest as (t & m1 & -> & Hlv). by exists t, m1.
Qed.
Lemma final_refl a : final a a.
Proof using Type. done. Qed.
Lemma final_trans a b c : final a b -> final b c -> final a c.
Proof using Type. intros [L1 Q1] [L2 Q2]. split; [by eapply later_trans|auto]. Qed.
Lemma final_pos k a af : final (set_curins k a) af -> final a af.
Proof using Type. intros [[L1 L2 L3] Hq]. by split. Qed.
Lemma step_final a a1 : step_spec a a1 -> final a a1.
Proof using Type. intros [_ _ _ Hq Hl _]. split; [done|]. intros Hz. destruct Hq; congruence. Qed.

Lemma assemble_loop_spec n : forall a u af,
  loop_state a -> loop_ok n a = true -> assemble_loop n a = Ok (u, af) ->
  ra_ok af (astopins a) /\ ext (curins a + 1) (unpos a) (unpos af) /\ final a af
  /\ exists l, emits_in (code a) (code af) l /\ trace_code a af l.
Proof using TF RA.
  induction n as [|n IH]; intros a u af Hst Hchk H; cbn [assemble_loop] in H; [done|].
  apply abind_ok in H as (x & s1 & [-> ->]%get_ok & H). cbn [loop_ok] in Hchk.
  pose proof Hst as [L1 L2 L3 L4 L5 L6]. destruct (Z.ltb_spec (curins a) (astopins a)) as [Hlt|Hge].
  - assert (E : curins a + 1 = astopins a) by lia. apply aret_ok in H as [_ ->]. rewrite E in L1.
    split; [done|]. split; [done|]. split; [apply final_refl|]. exists []. split; [apply emits_inside, emits_nil|].
    intros Sp st m r _ _ _ _ Hr Ha. rewrite E, Z.sub_diag in Hr. injection Hr as <-.
    exists m. by rewrite E.
  - apply abind_ok in H as (t & a1 & Hins & H). rewrite Hins in Hchk.
    apply andb_true_iff in Hchk as [Hstep [Hkept Hchk]%andb_true_iff].
    apply abind_ok in H as (t2 & s2 & [_ ->]%modify_ok & H).
    pose proof (assemble_ins_spec a t a1 L1 L2 ltac:(lia) ltac:(lia) L5 L6 Hstep Hkept Hins) as Hspec.
    pose proof Hspec as [Hok1 He1 Hcur Hq1 Hlt1 (l1 & Em1 & Hl1)].
    pose proof (step_state a a1 Hst Hge Hok1 He1 Hcur Hq1 Hlt1) as Hst'.
    set (a2 := set_curins (curins a1 - 1) a1) in *.
    destruct (IH a2 u af Hst' Hchk H) as (Hokf & Hef & Hfin%final_pos & l & Em & Hl).
    assert (Hstop : astopins a2 = astopins a) by exact (proj1 (proj2 (erase_pos _ _ (ex_erase _ _ _ He1)))).
    assert (Hc2 : curins a2 + 1 = curins a) by (change (curins a1 - 1 + 1 = curins a); lia).
    rewrite Hstop in Hokf. rewrite Hc2 in Hef.
    split; [done|]. split.
    { etransitivity; [exact He1|]. eapply ext_weaken; [|exact Hef]. lia. }
    split; [eapply final_trans; [by apply step_final|done]|].
    exists (l ++ l1). split; [eapply emits_in_app; [apply L6|exact Em1|exact Em]|].
    by apply (trace_cons a a1 af).
Qed.

(** ** With the [SAVE] at the end *)

Definition save_ok (a : Assembler) (sn : Snapshot) : bool :=
  bool_decide (ir_o (a_ir a (curins a)) = kSAVE) && isGuard (a_ir a (curins a)) && negb (debug a)
  && forallb (stored_ok a (curins a) (b_snapmap (abuf a))) (snap_range sn).
Definition body_ok (n : nat) (a : Assembler) : bool :=
  match b_snaps (abuf a) !! Z.to_nat (snapno a) with
  | Some sn => save_ok a sn
  | None => false
  end
  && match assemble_ins a with
     | Ok (_, a1) => loop_ok n (set_curins (curins a1 - 1) a1)
     | Err _ => true
     end.
(** What the code of a trace does: the instructions before the [SAVE],
    then the stores of its snapshot. *)
Definition body_code (a af : Assembler) (sn : Snapshot) (l : list instr) : Prop :=
  forall Sp st m r, slots_ok Sp -> covers af Sp -> (forall q, astopins a <= q < curins a -> Sp q = spl af q) ->
    st_ok st -> ir_run a (astopins a) (Z.to_nat (curins a - astopins a)) st = Some r ->
    agree af Sp (astopins a) st m ->
    match r with
    | Fall st1 => forall st', put_slots (b_snapmap (abuf a)) (snap_range sn) st1 = Some st' ->
        save_ends a (curins a) (sn_relbase sn) l st' m
    | Leave q st' => exists t m', exec_list l m = Some (Goto t m') /\ leaves (exits_in af) af Sp q st' t m'
    end.

Lemma save_ins a sn u a1 :
  ra_ok a (curins a + 1) -> bufmin a <= curins a < nins a -> values_only a -> room a ->
  b_snaps (abuf a) !! Z.to_nat (snapno a) = Some sn -> save_ok a sn = true ->
  assemble_ins a = Ok (u, a1) ->
  ra_ok a1 (curins a) /\ ext (curins a) (unpos a) (unpos a1) /\ curins a1 = curins a
  /\ quick a1 = quick a /\ later a a1 /\ exists l, emits (code a) (code a1) l /\
    forall Sp st st' m, slots_ok Sp -> covers a1 Sp -> st_ok st ->
      put_slots (b_snapmap (abuf a)) (snap_range sn) st = Some st' -> agree a1 Sp (curins a) st m ->
      save_ends a (curins a) (sn_relbase sn) l st' m.
Proof using TF RA.
  intros Hok Hn Hv Hrm Hsn [[[Hop%bool_decide_eq_true Hg]%andb_true_iff Hd%negb_true_iff]%andb_true_iff Hall]%andb_true_iff H.
  unfold assemble_ins in H. apply abind_ok in H as (x & s1 & [-> ->]%get_ok & H).
  apply abind_ok in H as (ins & s1 & [-> ->]%bufir_ok & H). rewrite Hg, Hop in H.
  apply abind_ok in H as (s & s2 & [-> _]%asnap_ok & H). apply abind_ok in H as (t & s2 & [_ ->]%lc_assert_ok & H).
  apply abind_ok in H as (t2 & a0 & [_ ->]%aret_ok & H). apply abind_ok in H as (t3 & a2 & Hem & H).
  apply modify_ok in H as [_ ->]. unfold emit in Hem. apply abind_ok in Hem as (ins & s1 & [-> ->]%bufir_ok & Hem).
  apply abind_ok in Hem as (s3 & s2 & [-> ->]%get_ok & Hem). rewrite Hop in Hem.
  assert (Hp : ~ placed a (curins a)) by (apply not_value; [done|lia|by rewrite Hop]).
  destruct (save_spec a (curins a) sn t3 a2 (lower_ok _ _ Hok Hp) Hd Hsn Hall Hem) as (Hok' & He & l & Em & Hl).
  split; [by destruct Hok'|]. split; [exact (unpos_ext _ a a2 He)|].
  destruct (erase_pos _ _ (ex_erase _ _ _ He)) as (Ec & _ & _ & _ & _ & _ & Ea).
  split; [exact Ec|]. split; [exact (f_equal mcQuickHeapCheck Ea)|]. destruct Hrm as [Hrm _]. split.
  { apply (emits_later (curins a) a _ l); [lia|exact (unpos_ext _ a a2 He)|exact Em]. }
  exists l. split; [done|].
  intros Sp st st' m Hsl Hc Hst Hps Ha. apply (Hl Sp st st' m); try done. by destruct Ha.
Qed.

Lemma body_spec n a sn u af :
  loop_state a -> astopins a <= curins a -> b_snaps (abuf a) !! Z.to_nat (snapno a) = Some sn ->
  body_ok n a = true -> assemble_loop (S n) a = Ok (u, af) ->
  ra_ok af (astopins a) /\ ext (curins a) (unpos a) (unpos af) /\ final a af
  /\ exists l, emits_in (code a) (code af) l /\ body_code a af sn l.
Proof using TF RA.
  intros Hst Hge Hsn Hchk H. cbn [assemble_loop] in H. unfold body_ok in Hchk. rewrite Hsn in Hchk.
  apply andb_true_iff in Hchk as [Hsave Hchk]. apply abind_ok in H as (x & s1 & [-> ->]%get_ok & H).
  rewrite (proj2 (Z.ltb_ge _ _)) in H by lia. apply abind_ok in H as (t & a1 & Hins & H). rewrite Hins in Hchk.
  apply abind_ok in H as (t2 & s2 & [_ ->]%modify_ok & H). pose proof Hst as [L1 L2 L3 L4 L5 L6].
  destruct (save_ins a sn t a1 L1 ltac:(lia) L5 L6 Hsn Hsave Hins) as (Hok1 & He1 & Hcur & Hq1 & Hlt1 & l1 & Em1 & Hl1).
  set (a2 := set_curins (curins a1 - 1) a1) in *.
  assert (Hst' : loop_state a2).
  { apply (step_state a a1 Hst Hge); [done| |done|by left|done]. eapply ext_weaken; [|exact He1]. lia. }
  destruct (assemble_loop_spec n a2 u af Hst' Hchk H) as (Hokf & Hef & Hfin%final_pos & l & Em & Hl).
  assert (Hstop : astopins a2 = astopins a) by exact (proj1 (proj2 (erase_pos _ _ (ex_erase _ _ _ He1)))).
  assert (Hc2 : curins a2 + 1 = curins a) by (change (curins a1 - 1 + 1 = curins a); lia).
  rewrite Hstop in Hokf. rewrite Hc2 in Hef. split; [done|]. split; [by etransitivity|].
  split; [apply (final_trans a a1); [split; [done|congruence]|done]|].
  exists (l ++ l1). split; [eapply emits_in_app; [apply L6|by apply emits_inside|exact Em]|].
  intros Sp st m r Hsl Hc Hsp Hst0 Hr Ha. specialize (Hl Sp st m r Hsl Hc).
  rewrite Hstop, Hc2 in Hl. rewrite (ir_run_ext _ a a2 _ _ _ He1) in Hl.
  specialize (Hl ltac:(intros q Hq; apply Hsp; lia) Hst0 Hr Ha).
  pose proof (ir_run_ok _ _ _ _ _ Hst0 Hr) as Hst1. destruct r as [st1|q st1].
  - destruct Hl as (m1 & X1 & A1). intros st' Hps.
    destruct (Hl1 Sp st1 st' m1 Hsl) as (m2 & Hsv & Hend); try done.
    { exact (covers_ext _ (unpos a1) (unpos af) Sp Hef Hc). }
    { by destruct A1. }
    exists m2. split; [done|]. rewrite exec_list_app, X1. exact Hend.
  - destruct Hl as (t3 & m1 & X1 & Hlv). exists t3, m1. by rewrite exec_list_app, X1.
Qed.
End room.
End machine.
