(* ===== verification/AsmTrace.v ===== *)
(** * A whole root trace

    What [assemble] sets up before its main loop satisfies the invariant
    of the register allocator; behind the loop the constants are evicted
    and every register is free, so that the code can be entered from any
    state of the processor with the base pointer, the stack pointer and
    the heap pointer in place. *)

From S2P Require Import Prelude Words Hotness IR.
From S2P Require Import IRInv.
From S2P Require Import CallStack.
From S2P Require Import Recorder.
From S2P Require Import Registers X86 X86Sem X86Proofs AsmState.
From S2P Require Import AsmInv.
From S2P Require Import AsmAlloc.
From S2P Require Import AsmSelect.
From S2P Require Import Assembler.
From S2P Require Import AsmSem.
From S2P Require Import AsmSim AsmInstr AsmGuard AsmMem AsmDiv AsmStub AsmSave AsmLoop.
Import RegSetProofs.

(** ** Setup *)

(** The bounds of the buffer. *)
Definition buffer_ok (c : IRCode) : bool :=
  (0 <? c_bufmin c) && (c_bufmin c <=? REF_BIAS) && (REF_FIRST <? c_bufmax c) && (c_bufmax c <=? 65536).

(** [a'] is [a] except for the register fields; those in the interval are
    reset. *)
Record reset_regs (lo hi : Z) (a a' : Assembler) : Prop := {
  rr_erase : erase a' = erase a;
  rr_ra : ra a' = ra a;
  rr_area : code a' = code a;
  rr_in : forall q, lo <= q < hi -> ir_prev (a_ir a' q) = REGSP_INIT;
  rr_out : forall q, ~ (lo <= q < hi) -> a_ir a' q = a_ir a q
}.
Lemma init_prev_spec n : forall ref a u a',
  init_prev ref n a = Ok (u, a') -> reset_regs ref (ref + Z.of_nat n) a a'.
Proof.
  induction n as [|n IH]; intros ref a u a' H; cbn [init_prev] in H.
  { apply aret_ok in H as [_ ->]. split; try done. lia. }
  apply abind_ok in H as (t & a1 & [_ ->]%modify_ok & H). apply IH in H as [R1 R2 R3 R4 R5].
  split; [by rewrite R1|by rewrite R2|by rewrite R3| |].
  - intros q Hq. destruct (Z.eq_dec q ref) as [->|]; [|apply R4; lia].
    rewrite R5 by lia. rewrite a_ir_upd, Z.eqb_refl. reflexivity.
  - intros q Hq. rewrite R5 by lia. rewrite a_ir_upd. destruct (Z.eqb_spec q ref); [lia|done].
Qed.

(** The state before the main loop. *)
Record fresh (a : Assembler) : Prop := {
  fs_free : freeset (ra a) = kGPR;
  fs_cost : cost (ra a) = replicate (Z.to_nat RID_MAX) RegCost.init;
  fs_spills : spills (ra a) = SpillSet.reset;
  fs_none : forall ref, live a (nins a) ref -> ~ placed a ref;
  fs_bounds : 0 < bufmin a <= REF_BIAS /\ REF_FIRST < nins a <= 65536
}.
Lemma prev_free i : ir_prev i = REGSP_INIT \/ ir_prev i = REGSP_HINT RID_BASE ->
  isReg (ir_reg i) = false /\ ir_spill i = 0.
Proof. intros [E|E]; unfold ir_reg, ir_spill; rewrite E; by vm_compute. Qed.

Lemma setHeapOffsets_spec b b' n : setHeapOffsets b = Ok (b', n) -> exists h, b' = set_heap b h.
Proof.
  unfold setHeapOffsets. intros ([h k] & _ & H)%obind_ok. injection H as <- _. eauto.
Qed.

Lemma setup_spec i a u a' :
  stopins i = REF_FIRST -> buffer_ok (b_code (abuf a)) = true -> setup i a = Ok (u, a') ->
  fresh a' /\ astopins a' = REF_FIRST /\ mcQuickHeapCheck (area a') = 0 /\ options a' = options a.
Proof.
  intros Hstop [[[Hb1%Z.ltb_lt Hb2%Z.leb_le]%andb_true_iff Hb3%Z.ltb_lt]%andb_true_iff Hb4%Z.leb_le]%andb_true_iff H.
  unfold setup in H. apply abind_ok in H as (t1 & a1 & H1 & H).
  apply obind_ok in H1 as ([b n] & Hh & H1). injection H1 as _ <-.
  destruct (setHeapOffsets_spec _ _ _ Hh) as (h & ->).
  apply abind_ok in H as (t2 & a2 & [_ ->]%modify_ok & H). apply abind_ok in H as (t3 & a3 & [_ ->]%modify_ok & H).
  match type of H with _ ?s = _ => set (a3 := s) in * end.
  apply abind_ok in H as (x & s & [-> ->]%get_ok & H). apply abind_ok in H as (t4 & a4 & H4 & H).
  apply abind_ok in H as (t5 & a5 & [_ ->]%modify_ok & H). rewrite Hstop, Z.sub_diag in H.
  apply abind_ok in H as (t6 & a6 & [_ ->]%aret_ok & H).
  set (c := b_code (abuf a)) in *. change (b_code (abuf a3)) with c in *.
  apply init_prev_spec in H4 as [R1 R2 R3 R4 R5]. apply init_prev_spec in H as [S1 S2 S3 S4 S5].
  rewrite Z2Nat.id in * by lia. replace (c_bufmin c + (REF_BIAS - c_bufmin c)) with REF_BIAS in * by lia.
  replace (REF_FIRST + (c_bufmax c - REF_FIRST)) with (c_bufmax c) in * by lia.
  assert (E : erase a' = erase a3) by (rewrite S1; exact R1).
  assert (Era : ra a' = ra a3) by (rewrite S2; exact R2).
  destruct (erase_code _ _ E) as (E1 & _ & E2). destruct (erase_pos _ _ E) as (_ & E3 & _ & _ & E4 & _ & E5).
  change (bufmin a3) with (c_bufmin c) in E1. change (nins a3) with (c_bufmax c) in E2.
  split; [split|split; [|split]].
  - by rewrite Era.
  - by rewrite Era.
  - by rewrite Era.
  - unfold live. rewrite E1, E2. intros ref Hl. unfold placed, reg, spl.
    destruct (prev_free (a_ir a' ref)) as [-> ->]; [|by intros [?|?]].
    destruct (Z.lt_ge_cases ref REF_BIAS) as [Hlt|Hge].
    + left. rewrite S5 by (unfold REF_FIRST in *; lia). rewrite a_ir_upd.
      destruct (Z.eqb_spec ref REF_BASE); [unfold REF_BASE in *; lia|]. apply R4. lia.
    + destruct (Z.eq_dec ref REF_BASE) as [->|Hne].
      * right. rewrite S5 by (unfold REF_FIRST, REF_BASE; lia). by rewrite a_ir_upd, Z.eqb_refl.
      * left. apply S4. unfold REF_FIRST, REF_BASE in *. lia.
  - rewrite E1, E2. lia.
  - rewrite E3. exact Hstop.
  - by rewrite E5.
  - by rewrite E4.
Qed.

(** The steps that leave registers and instructions alone. *)
Definition calm (a a' : Assembler) : Prop :=
  ra a' = ra a /\ abuf a' = abuf a /\ nins a' = nins a /\ astopins a' = astopins a /\ options a' = options a.
Lemma calm_refl a : calm a a.
Proof. done. Qed.
Lemma calm_trans a b c : calm a b -> calm b c -> calm a c.
Proof. intros (R1 & B1 & N1 & S1 & O1) (R2 & B2 & N2 & S2 & O2). split_and!; congruence. Qed.
Lemma calm_fresh a a' : calm a a' -> fresh a -> fresh a'.
Proof.
  intros (R & B & N & _ & _) [F1 F2 F3 F4 F5]. split; [by rewrite R..| |].
  - unfold live, placed, reg, spl, bufmin, a_ir in *. rewrite B, N. exact F4.
  - unfold bufmin. rewrite B, N. exact F5.
Qed.

Section setup.
Context (mmap : Z -> Z -> Z -> Z) (fuel : nat) {RA : RuntimeAddrs}.

Lemma setupMachineCode_calm a u a' : setupMachineCode mmap fuel a = Ok (u, a') ->
  calm a a' /\ mcQuickHeapCheck (area a') = mcQuickHeapCheck (area a).
Proof using Type.
  unfold setupMachineCode. intros ([[m bot] top] & _ & H)%obind_ok. injection H as _ <-. done.
Qed.
Lemma generateExitstubGroup_calm g a p a' : generateExitstubGroup g a = Ok (p, a') ->
  calm a a' /\ mcQuickHeapCheck (area a') = mcQuickHeapCheck (area a).
Proof using Type.
  unfold generateExitstubGroup. destruct (_ <=? _); [done|].
  intros (c & _ & (m & _ & H)%obind_ok)%obind_ok. injection H as _ <-. done.
Qed.
Lemma setup_groups_calm n : forall i a u a', setup_groups i n a = Ok (u, a') ->
  calm a a' /\ mcQuickHeapCheck (area a') = mcQuickHeapCheck (area a).
Proof using Type.
  induction n as [|n IH]; intros i a u a' H; cbn [setup_groups] in H; [by apply aret_ok in H as [_ ->]|].
  apply abind_ok in H as (x & s & [-> ->]%get_ok & H). apply abind_ok in H as (g & s & [_ ->]%alift_ok & H).
  apply abind_ok in H as (t & a1 & H1 & H). apply IH in H as [C2 Q2].
  enough (calm a a1 /\ mcQuickHeapCheck (area a1) = mcQuickHeapCheck (area a)) as [C1 Q1]
    by (split; [by eapply calm_trans|congruence]).
  destruct (g =? 0); [|by apply aret_ok in H1 as [_ ->]].
  apply abind_ok in H1 as (p & a2 & Hg & [_ ->]%modify_ok). by apply generateExitstubGroup_calm in Hg.
Qed.

(** The space that is left for the jump at the end. *)
Definition tail_size (saveref : Z) (save : IR) (dbg : bool) : Z :=
  (if negb (saveref =? 0) && negb (op1 save =? 0) then (if op1 save =? IR_SAVE_LINK then 13 else 5) else 0)
  + (if dbg then 5 else 0).
Lemma prepareTail_spec saveref a u a' : prepareTail saveref a = Ok (u, a') ->
  calm a a' /\ curins a' = curins a /\ snapno a' = snapno a /\ exitStubGroup a' = exitStubGroup a
  /\ mcp (code a') = mctop (area a') - tail_size saveref (a_ir a saveref) (debug a)
  /\ (mcQuickHeapCheck (area a) = 0 -> mcQuickHeapCheck (area a') = 0 \/ mcQuickHeapCheck (area a') = mctop (area a')).
Proof using Type.
  unfold prepareTail. intros H. apply abind_ok in H as (fast & s & [= <- <-] & H).
  apply abind_ok in H as (x & s & [-> ->]%get_ok & H). apply abind_ok in H as (t & a1 & H1 & H).
  apply abind_ok in H as (x & s & [-> ->]%get_ok & H). apply abind_ok in H as (ins & s & [-> ->]%bufir_ok & H).
  apply abind_ok in H as (dbg & s & [= <- <-] & H). apply modify_ok in H as [_ ->].
  assert (C : calm a a1 /\ curins a1 = curins a /\ snapno a1 = snapno a /\ exitStubGroup a1 = exitStubGroup a
    /\ (mcQuickHeapCheck (area a) = 0 -> mcQuickHeapCheck (area a1) = 0 \/ mcQuickHeapCheck (area a1) = mctop (area a1))).
  { destruct (_ && _); [apply modify_ok in H1 as [_ ->]|apply aret_ok in H1 as [_ ->]; split_and!; solve [done | by left]].
    split_and!; solve [done | by right]. }
  destruct C as ((R & B & N & S & O) & Cu & Sn & G & Q).
  split; [by split_and!|]. split; [exact Cu|]. split; [exact Sn|]. split; [exact G|].
  split; [|exact Q]. cbn [mcp code set_acode area]. unfold tail_size, debug. rewrite O. unfold a_ir. rewrite B.
  repeat case_match; lia.
Qed.

(** Before the main loop. *)
Record started (a : Assembler) (saveref : Z) : Prop := {
  sr_fresh : fresh a;
  sr_stop : astopins a = REF_FIRST;
  sr_cur : curins a = nins a - 1;
  sr_top : mcp (code a) = mctop (area a) - tail_size saveref (a_ir a saveref) (debug a);
  sr_quick : mcQuickHeapCheck (area a) = 0 \/ mcQuickHeapCheck (area a) = mctop (area a)
}.
Lemma begin_spec ji a saveref a0 :
  stopins (ji_inherited ji) = REF_FIRST -> buffer_ok (b_code (abuf a)) = true ->
  begin_assemble mmap fuel ji a = Ok (saveref, a0) -> started a0 saveref /\ saveref = chain (b_code (abuf a)) kSAVE.
Proof using Type.
  intros Hstop Hb H. unfold begin_assemble in H. apply abind_ok in H as (x & s & [-> ->]%get_ok & H).
  cbv zeta in H. set (sv := chain _ _) in *.
  apply abind_ok in H as (t1 & a1 & H1 & H). destruct (setup_spec _ _ _ _ Hstop Hb H1) as (F1 & S1 & Q1 & _).
  apply abind_ok in H as (t2 & a2 & H2 & H). apply setupMachineCode_calm in H2 as [C2 Q2].
  apply abind_ok in H as (t3 & a3 & H3 & H).
  assert (calm a2 a3 /\ mcQuickHeapCheck (area a3) = mcQuickHeapCheck (area a2)) as [C3 Q3].
  { unfold setupExitStubs in H3. destruct (_ <=? _); [done|]. by apply setup_groups_calm in H3. }
  apply abind_ok in H as (t4 & a4 & [_ ->]%modify_ok & H). apply abind_ok in H as (t5 & a5 & H5 & H).
  apply prepareTail_spec in H5 as (C5 & Cu & _ & _ & T5 & Q5).
  apply abind_ok in H as (t6 & a6 & [_ ->]%modify_ok & H). apply aret_ok in H as [-> ->].
  split; [|done].
  assert (C : calm a1 a5).
  { eapply calm_trans; [exact C2|]. eapply calm_trans; [exact C3|]. exact C5. }
  assert (C5' : calm a3 a5) by exact C5. pose proof C as (_ & _ & _ & St & _).
  split.
  - apply (calm_fresh a1); [exact C|done].
  - change (astopins a5 = REF_FIRST). by rewrite St.
  - change (curins a5 - 1 = nins a5 - 1). rewrite Cu. destruct C5' as (_ & _ & -> & _). done.
  - change (mcp (code a5) = mctop (area a5) - tail_size sv (a_ir a5 sv) (debug a5)). rewrite T5. f_equal.
    destruct C5' as (_ & B5 & _ & _ & O5). unfold debug, a_ir. rewrite B5, O5. done.
  - apply Q5. change (mcQuickHeapCheck (area a3) = 0). congruence.
Qed.
End setup.

Lemma fresh_ok a : fresh a -> ra_ok a (nins a).
Proof.
  intros [F1 F2 F3 F4 F5].
  assert (Hnr : forall ref, live a (nins a) ref -> isReg (reg a ref) = false /\ spl a ref = 0).
  { intros ref Hl. specialize (F4 ref Hl). unfold placed in F4. destruct (isReg (reg a ref)) eqn:E.
    - destruct F4. by left.
    - split; [done|]. destruct (Z.eq_dec (spl a ref) 0); [done|]. destruct F4. by right. }
  split.
  - lia.
  - rewrite F1. apply kGPR_pos.
  - intros r Hr. unfold free. rewrite F1. intros Ht. by apply allows_kGPR.
  - intros r [_ Hg] Hf. unfold free in Hf. rewrite F1 in Hf. congruence.
  - intros ref Hl Hr. destruct (Hnr ref Hl). congruence.
  - rewrite F2. split; [done|]. apply Forall_replicate. by vm_compute.
  - rewrite F3. apply SpillProofs.wf_reset.
  - intros ref Hl Hs. destruct (Hnr ref Hl). congruence.
  - intros r1 r2 Hl _ Hs. destruct (Hnr r1 Hl). congruence.
Qed.
Lemma tail_size_nonneg saveref save dbg : 0 <= tail_size saveref save dbg.
Proof. unfold tail_size. repeat case_match; lia. Qed.
Lemma started_loop {TF : TraceFrame} {RA : RuntimeAddrs} a saveref :
  started a saveref -> loop_state (mcp (code a)) a.
Proof.
  intros [F S C Ht Hq]. pose proof (fs_bounds _ F) as [Hb Hn]. unfold REF_FIRST in *. split; try done.
  - replace (curins a + 1) with (nins a) by lia. by apply fresh_ok.
  - lia.
  - unfold REF_FIRST. lia.
  - unfold REF_FIRST. lia.
  - intros ref Hl Hp. by apply (fs_none _ F) in Hp.
  - split; [|exact Hq]. pose proof (tail_size_nonneg saveref (a_ir a saveref) (debug a)). lia.
Qed.

(** ** Behind the loop *)

Section machine.
Context {TF : TraceFrame} {RA : RuntimeAddrs}.
Abbreviation B := tf_base.
Abbreviation SP := tf_sp.
Abbreviation HL := tf_hplim.
Abbreviation SL := tf_splim.

Definition evict_constant (r : Z) : M () :=
  let* a := get in
  let ref := RegCost.ref (a_cost a r) in
  if canRemat ref && irref_islit ref then rematConstant ref;* aret tt else aret tt.

(** The registers a loop works on are in use. *)
Definition in_use (a : Assembler) (work : Z) : Prop :=
  forall q, 0 <= q -> RegSet.test work q = true -> in_gpr q /\ free a q = false.

Lemma evict_constant_spec n a r u a' :
  ra_ok a n -> in_gpr r -> free a r = false -> evict_constant r a = Ok (u, a') ->
  prepared n a a' /\ forall q, 0 <= q -> q <> r -> free a' q = free a q.
Proof using TF.
  intros Hok Hg Hf H. unfold evict_constant in H. apply abind_ok in H as (x & s & [-> ->]%get_ok & H).
  destruct (canRemat _ && _) eqn:E; [|apply aret_ok in H as [_ ->]; split; [by apply prepared_refl|done]].
  apply andb_true_iff in E as [_ Hlit%Z.ltb_lt]. apply abind_ok in H as (r' & a1 & Hr & [_ ->]%aret_ok).
  destruct (ro_used _ _ Hok r Hg Hf) as [Hl Ho].
  destruct (remat_freed n a _ r' a1 Hok Hl Hlit Hr) as (-> & _ & [F1 F2 F3 F4 F5 F6 F6' F7]).
  change (RegCost.ref (a_cost a r)) with (owner a r) in *. rewrite Ho in *. split.
  - split; [done|]. split; [done|]. by eapply sim_weaken; [|exact F7].
  - intros q Hq Hne. rewrite F5 by done. destruct (Z.eqb_spec q r); [done|apply orb_false_r].
Qed.

Lemma evict_constants_loop n k : forall work a u a',
  ra_ok a n -> 0 <= work -> in_use a work -> for_regs k work evict_constant a = Ok (u, a') -> prepared n a a'.
Proof using TF.
  induction k as [|k IH]; intros work a u a' Hok Hw0 Hw H; cbn [for_regs] in H; [done|].
  destruct (RegSet.isEmpty work) eqn:E; [apply aret_ok in H as [_ ->]; by apply prepared_refl|].
  apply abind_ok in H as (t & a1 & H1 & H). destruct (pickBot_spec work Hw0 E) as [Hr0 Ht].
  destruct (Hw _ Hr0 Ht) as [Hg Hf]. destruct (evict_constant_spec n a _ t a1 Hok Hg Hf H1) as [P1 Hfr].
  pose proof (gpr_range _ Hg) as Hr.
  eapply prepared_trans; [exact P1|]. eapply IH; [apply P1| | |exact H].
  - apply Z.land_nonneg. by left.
  - intros q Hq Htq. unfold RegSet.clear, RegSet.exclude in Htq. rewrite test_testbit, Z.land_spec in Htq by done.
    apply andb_true_iff in Htq as [Hq1 Hq2]. rewrite <- (test_testbit work) in Hq1 by done.
    destruct (Hw q Hq Hq1) as [Hgq Hfq]. split; [done|]. rewrite Hfr; [done|done|]. intros ->.
    assert (Hcl := test_clear work (RegSet.pickBot work) ltac:(lia)).
    unfold RegSet.clear, RegSet.exclude in Hcl. rewrite test_testbit, Z.land_spec, Hq2 in Hcl by done.
    rewrite <- (test_testbit work), Hq1 in Hcl by done. done.
Qed.
Lemma evictConstants_eq a :
  evictConstants a
  = for_regs regs_fuel (RegSet.intersect (RegSet.complement (freeset (ra a))) kGPR) evict_constant a.
Proof using Type. reflexivity. Qed.
Lemma evictConstants_spec n a u a' : ra_ok a n -> evictConstants a = Ok (u, a') -> prepared n a a'.
Proof using TF.
  intros Hok H. rewrite evictConstants_eq in H. eapply evict_constants_loop; [done| | |exact H].
  - apply intersect_nonneg, kGPR_pos.
  - intros q Hq Ht. rewrite test_intersect in Ht by done. apply andb_true_iff in Ht as [Hc Hk].
    assert (Hg : in_gpr q) by by split. pose proof (gpr_range _ Hg). split; [done|].
    rewrite test_complement in Hc by lia. by apply negb_true_iff in Hc.
Qed.
End machine.

(** ** The jump at the end *)

Lemma jmp_below target c c' : emit_jmp target c = Ok c' ->
  mcp c' = mcp c - 5 /\ forall q, ~ (mcp c - 5 <= q < mcp c) -> bytes c' !! q = bytes c !! q.
Proof.
  unfold emit_jmp, emit_rel. intros (d & _ & [= <-])%obind_ok. cbn. split; [lia|].
  intros q Hq. by rewrite !lookup_insert_ne by lia.
Qed.
Lemma setTraceId_below t c :
  mcp (emitSetTraceId t c) = mcp c - 8 /\ forall q, ~ (mcp c - 8 <= q < mcp c) -> bytes (emitSetTraceId t c) !! q = bytes c !! q.
Proof.
  unfold emitSetTraceId. cbn [mcp bytes]. split; [done|]. intros q Hq. rewrite !lookup_insert_ne by lia.
  destruct (Z.lt_ge_cases q (mcp c - 4)); [by apply put_le_other|apply put_le_above; lia].
Qed.

(** What runs behind the [SAVE]. *)
Definition tail_code (target saveref : Z) (save : IR) : list instr :=
  (if negb (saveref =? 0) && (op1 save =? IR_SAVE_LINK) then [IMovMI false (OMem 4 None 32) (i4 (op2 save))] else [])
  ++ (if target =? 0 then [] else [IJmp target]).

Lemma fixupTail_spec {RA : RuntimeAddrs} target saveref a u a' :
  debug a = false -> fixupTail target saveref a = Ok (u, a') ->
  (exists c, a' = set_acode c a /\ mcp c = mcp (code a)) /\ exists p,
    code_at (bytes (code a')) p (tail_code target saveref (a_ir a saveref)) (mctop (area a))
    /\ (forall q, ~ (p <= q < mctop (area a)) -> bytes (code a') !! q = bytes (code a) !! q)
    /\ p = mctop (area a) - (if target =? 0 then 0 else 5)
           - (if negb (saveref =? 0) && (op1 (a_ir a saveref) =? IR_SAVE_LINK) then 8 else 0).
Proof.
  intros Hd H. unfold fixupTail in H. apply abind_ok in H as (ins & s & [-> ->]%bufir_ok & H).
  apply abind_ok in H as (dbg & s & [= <- <-] & H). change (Flags32.get (options a) kOptDebugTrace) with (debug a) in H.
  rewrite Hd in H. set (c0 := mkBytes (bytes (code a)) (mctop (area a))) in *.
  apply obind_ok in H as (c1 & H1 & H). cbn [obind] in H. injection H as _ <-. cbn [code set_acode mcp bytes].
  split; [by eexists|]. set (save := a_ir a saveref) in *. set (link := negb (saveref =? 0) && (op1 save =? IR_SAVE_LINK)) in *.
  set (c2 := if link then emitSetTraceId (op2 save) c1 else c1).
  assert (E1 : emits c0 c1 (if target =? 0 then [] else [IJmp target])
               /\ mcp c1 = mcp c0 - (if target =? 0 then 0 else 5)
               /\ forall q, ~ (mcp c1 <= q < mcp c0) -> bytes c1 !! q = bytes c0 !! q).
  { destruct (target =? 0); cbn [negb] in H1.
    - injection H1 as <-. split; [apply emits_nil|]. split; [lia|done].
    - destruct (jmp_below _ _ _ H1) as [Em Hb]. split; [by apply jmp_emits|]. split; [done|].
      intros q Hq. apply Hb. lia. }
  assert (E2 : emits c1 c2 (if link then [IMovMI false (OMem 4 None 32) (i4 (op2 save))] else [])
               /\ mcp c2 = mcp c1 - (if link then 8 else 0)
               /\ forall q, ~ (mcp c2 <= q < mcp c1) -> bytes c2 !! q = bytes c1 !! q).
  { unfold c2. destruct link; [|split; [apply emits_nil|split; [lia|done]]].
    destruct (setTraceId_below (op2 save) c1) as [Em Hb]. split; [apply setTraceId_emits|]. split; [done|].
    intros q Hq. apply Hb. lia. }
  destruct E1 as (Em1 & P1 & B1), E2 as (Em2 & P2 & B2). exists (mcp c2). split_and!.
  - unfold tail_code. fold save link. apply (emits_app _ _ _ _ _ Em1 Em2). done.
  - change (mctop (area a)) with (mcp c0). intros q Hq. rewrite B2, B1 by (destruct link, (target =? 0); lia). done.
  - rewrite P2, P1. done.
Qed.

(** ** Entering the code *)

Section machine.
Context {TF : TraceFrame} {RA : RuntimeAddrs}.
Abbreviation B := tf_base.
Abbreviation SP := tf_sp.
Abbreviation HL := tf_hplim.
Abbreviation SL := tf_splim.

(** A state of the processor at the entry of a trace. *)
Record enters (a : Assembler) (st : irstate) (m : mach) : Prop := {
  en_base : gpr m RID_BASE = B;
  en_sp : gpr m RID_ESP = SP;
  en_hp : gpr m RID_HP = ihp st;
  en_mem : forall x, ~ in_frame x -> mmem m x = imem st x;
  en_frame : (forall s, 0 <= s < 256 -> is_Some (mmem m (slot_addr s)))
             /\ mmem m (SP + HPLIM_SP_OFFS) = Some HL /\ mmem m (SP + SPLIM_SP_OFFS) = Some SL;
  en_lits : literals_ok a st
}.

Lemma enters_agree n a0 a Sp st m :
  ra_ok a REF_FIRST -> freeset (ra a) = kGPR -> ext n (unpos a0) (unpos a) -> enters a0 st m -> agree a Sp REF_FIRST st m.
Proof using Type.
  intros Hok Hf He [E1 E2 E3 E4 E5 E6]. split; try done.
  - intros ref Hl Hr. destruct (ro_reg _ _ Hok ref Hl Hr) as ([_ Hg] & Hnf & _). unfold free in Hnf. congruence.
  - intros ref Hl. lia.
  - exact (literals_forth n (unpos a0) (unpos a) st He E6).
Qed.

(** The spill slots of the finished trace. *)
Definition final_slots (a : Assembler) (r : Z) : Z :=
  if (bufmin a <=? r) && (r <? nins a) then spl a r else 0.
Lemma final_slots_live a r : live a (nins a) r -> final_slots a r = spl a r.
Proof using Type.
  intros [H1 H2]. unfold final_slots. by rewrite (proj2 (Z.leb_le _ _) H1), (proj2 (Z.ltb_lt _ _) H2).
Qed.
Lemma final_slots_ok a n : ra_ok a n -> slots_ok (final_slots a).
Proof using Type.
  intros Hok. split.
  - intros r. unfold final_slots. destruct (_ && _); [apply spl_byte|lia].
  - intros r1 r2. unfold final_slots. destruct (_ && _) eqn:E1; [|done].
    apply andb_true_iff in E1 as [H1%Z.leb_le H2%Z.ltb_lt]. intros Hn.
    destruct (_ && _) eqn:E2; [|congruence]. apply andb_true_iff in E2 as [H3%Z.leb_le H4%Z.ltb_lt].
    by apply (ro_inj _ _ Hok).
Qed.
Lemma final_slots_covers a : covers a (final_slots a).
Proof using Type. intros r Hl _. by apply final_slots_live. Qed.

(** Exits that were there for one state are there for a later one. *)
Lemma leaves_later (X X' : Z -> Z -> Prop) a a' Sp q st t m :
  leaves X a Sp q st t m -> (forall k t, X k t -> X' k t) -> (forall r, REF_FIRST <= r -> a_ir a' r = a_ir a r) ->
  (forall j s, b_snaps (abuf a) !! j = Some s ->
     exists s', b_snaps (abuf a') !! j = Some s' /\ sn_ref s' = sn_ref s /\ snap_range s' = snap_range s) ->
  b_snapmap (abuf a') = b_snapmap (abuf a) ->
  (literals_ok a st -> literals_ok a' st) -> leaves X' a' Sp q st t m.
Proof using Type.
  intros [(k & sn & Hs & Hr & Ht & Hall) L2 L3 L4 L5 L6] HX Hir Hsn Hmap Hlits. split; auto.
  destruct (Hsn _ _ Hs) as (sn' & Hs' & Hr' & Hran). exists k, sn'. split; [done|]. split; [congruence|].
  split; [by apply HX|]. rewrite Hran, Hmap. intros se r Hin Hsl Hlit.
  destruct (Hall se r Hin Hsl Hlit) as [Hf Hre]. split; [done|]. unfold readable, reg in *. by rewrite Hir.
Qed.

(** The number of the trace that runs. *)
Definition trace_id_at (m : mach) (n : Z) : Prop := exists w, mmem m (SP + 32) = Some w /\ u4 w = n.
(** The code of a link. *)
Definition link_code (n target : Z) : list instr := [IMovMI false (OMem 4 None 32) (i4 n); IJmp target].
Lemma link_runs n target relbase st m :
  0 <= n < 65536 -> after_save relbase st m -> is_Some (mmem m (SP + 32)) ->
  exists m', exec_list (link_code n target) m = Some (Goto target m') /\ after_save relbase st m' /\ trace_id_at m' n.
Proof using Type.
  intros Hn [S1 S2 S3 S4 S5] [w Hw]. pose proof tf_words as Hb.
  assert (Hsp : SP mod 8 = 0 /\ 0 <= SP /\ SP + 32 < 2 ^ 64) by (destruct tf_ok as (H1 & H2 & H3); unfold SPILL_SP_OFFS in H3; split_and!; try done; lia).
  destruct Hsp as (Hal & H0 & Hmax).
  assert (Ea : ea m 4 None 32 = SP + 32).
  { unfold ea. change (gpr m 4) with (gpr m RID_ESP). rewrite S2, Z.add_0_r. apply (to_u_id 64). lia. }
  set (v := Z.lor (Z.shiftl (Z.shiftr w 32) 32) (u4 (u8 (i4 n)))).
  exists (set_mem (SP + 32) v m). split; [|split].
  - unfold link_code. cbn [exec_list exec wr]. rewrite Ea. unfold rd_mem.
    replace ((SP + 32) mod 8 =? 0) with true by (symmetry; apply Z.eqb_eq; Z.to_euclidean_division_equations; lia).
    rewrite Hw. reflexivity.
  - assert (Ho : forall x, x <> SP + 32 -> mmem (set_mem (SP + 32) v m) x = mmem m x).
    { intros x Hx. cbn. unfold upd. by rewrite (proj2 (Z.eqb_neq _ _)). }
    split; try done.
    + intros x Hx. rewrite Ho; [by apply S4|]. intros ->. apply Hx. unfold in_frame, slot_addr, SPILL_SP_OFFS. lia.
    + unfold slot_addr, SPILL_SP_OFFS, HPLIM_SP_OFFS, SPLIM_SP_OFFS in *. destruct S5 as (F1 & F2 & F3).
      split_and!; [intros s Hs; rewrite Ho by lia; by apply F1|by rewrite Ho by lia..].
  - exists v. split; [cbn; unfold upd; by rewrite Z.eqb_refl|]. unfold v. rewrite low_half.
    unfold i4. rewrite (to_s_id 32) by lia. unfold u8. rewrite (to_u_id 64) by lia. unfold u4. by rewrite (to_u_id 32) by lia.
Qed.

(** ** The parts of [assemble] *)

Context (mmap : Z -> Z -> Z -> Z) (fuel : nat).

Record assembled (ji : JitInfo) (a a0 a1 a2 a3 af : Assembler) (saveref target : Z) : Prop := {
  as_begin : begin_assemble mmap fuel ji a = Ok (saveref, a0);
  as_loop : exists u, assemble_loop (S (Z.to_nat (nins a0 - astopins a0))) a0 = Ok (u, a1);
  as_evict : exists u, evictConstants a1 = Ok (u, a2);
  as_target : saveref <> 0 -> op1 (a_ir a2 saveref) = IR_SAVE_LOOP -> target = mcp (code a2);
  as_link : saveref <> 0 -> op1 (a_ir a2 saveref) = IR_SAVE_LINK -> ji_traceEntry ji (op2 (a_ir a2 saveref)) = Ok target;
  as_jump : target <> 0 -> saveref <> 0
            /\ (op1 (a_ir a2 saveref) = IR_SAVE_LOOP \/ op1 (a_ir a2 saveref) = IR_SAVE_LINK);
  as_fixup : exists u, fixupTail target saveref a2 = Ok (u, a3);
  as_free : freeset (ra a3) = kGPR;
  as_code : code af = code a3 /\ b_code (abuf af) = b_code (abuf a3) /\ b_snaps (abuf af) = b_snaps (abuf a3)
            /\ b_snapmap (abuf af) = b_snapmap (abuf a3) /\ exitStubGroup af = exitStubGroup a3
            /\ nins af = nins a3 /\ b_slots (abuf af) = b_slots (abuf a3)
}.
Lemma assemble_parts ji a u af :
  buf_parent (ji_inherited ji) = None -> stopins (ji_inherited ji) = REF_FIRST ->
  buffer_ok (b_code (abuf a)) = true -> assemble mmap fuel ji a = Ok (u, af) ->
  exists a0 a1 a2 a3 saveref target, assembled ji a a0 a1 a2 a3 af saveref target.
Proof using TF.
  intros Hpar Hstop Hb H. unfold assemble in H. apply abind_ok in H as (saveref & a0 & H0 & H).
  apply abind_ok in H as (x & s & [-> ->]%get_ok & H). apply abind_ok in H as (t1 & a1 & H1 & H).
  apply abind_ok in H as (t2 & a2 & H2 & H). apply abind_ok in H as (t3 & s & Hm & H).
  destruct (begin_spec _ _ _ _ _ _ Hstop Hb H0) as [St _].
  rewrite (sr_stop _ _ St), Z.eqb_refl in Hm. apply aret_ok in Hm as [_ ->].
  apply abind_ok in H as (entry & s & He & H). unfold side_entry in He. rewrite Hpar in He.
  apply abind_ok in He as (x & s' & [-> ->]%get_ok & [-> ->]%aret_ok).
  apply abind_ok in H as (ins & s & [-> ->]%bufir_ok & H). apply abind_ok in H as (target & s & Ht & H).
  set (o := op1 (a_ir a2 saveref)) in *.
  assert (s = a2 /\ (saveref <> 0 -> o = IR_SAVE_LOOP -> target = mcp (code a2))
          /\ (saveref <> 0 -> o = IR_SAVE_LINK -> ji_traceEntry ji (op2 (a_ir a2 saveref)) = Ok target)
          /\ (target <> 0 -> saveref <> 0 /\ (o = IR_SAVE_LOOP \/ o = IR_SAVE_LINK))) as (-> & Htgt & Hlnk & Hjmp).
  { destruct (Z.eqb_spec saveref 0) as [->|Hn]; cbn [negb andb] in Ht; [by apply aret_ok in Ht as [-> ->]|].
    destruct (Z.eqb_spec o IR_SAVE_LOOP) as [El|Hl]; [apply aret_ok in Ht as [-> ->]; rewrite El; naive_solver|].
    destruct (Z.eqb_spec o IR_SAVE_LINK) as [Ek|]; [apply alift_ok in Ht as [Ht ->]; naive_solver|].
    by apply aret_ok in Ht as [-> ->]. }
  apply abind_ok in H as (t4 & a3 & H3 & H). apply abind_ok in H as (t5 & s & [_ ->]%modify_ok & H).
  apply abind_ok in H as (x & s & [-> ->]%get_ok & H). apply abind_ok in H as (t6 & s & [Hf%Z.eqb_eq ->]%lc_assert_ok & H).
  apply obind_ok in H as (m & _ & [= _ <-]). exists a0, a1, a2, a3, saveref, target. split; eauto.
  by split_and!.
Qed.

(** ** The code of a root trace *)

(** What is checked of the state before the main loop. *)
Definition root_ok (a0 : Assembler) (saveref : Z) : bool :=
  (curins a0 =? saveref)
  && body_ok (Z.to_nat (nins a0 - astopins a0)) a0.
(** The snapshot of the [SAVE]. *)
Definition last_snap (a0 : Assembler) : Snapshot := default (mkSnap 0 0 0 0 0 0 0 0 0 0) (b_snaps (abuf a0) !! Z.to_nat (snapno a0)).

(** Where a trace continues after its [SAVE], the machine being [m]: a
    trace that ends with a link is at the entry of the linked trace, whose
    number is in the trace's frame. *)
Definition continues (ji : JitInfo) (af a0 : Assembler) (saveref relbase pc : Z) (m : mach) : Prop :=
  if overflows relbase then pc = asmStackOverflow
  else if op1 (a_ir a0 saveref) =? IR_SAVE_FALLTHROUGH
  then exitstubAddr (snapno a0) af = Ok (pc, af)
  else if op1 (a_ir a0 saveref) =? IR_SAVE_LOOP then pc = mcp (code af)
  else ji_traceEntry ji (op2 (a_ir a0 saveref)) = Ok pc /\ trace_id_at m (op2 (a_ir a0 saveref)).

(** The kinds of [SAVE] that the recorder emits; a linked trace has code,
    and the frame has a word for its number. *)
Definition ends_known (ji : JitInfo) (a0 : Assembler) (saveref : Z) (m : mach) : Prop :=
  let save := a_ir a0 saveref in
  op1 save = IR_SAVE_FALLTHROUGH \/ op1 save = IR_SAVE_LOOP
  \/ op1 save = IR_SAVE_LINK /\ ji_traceEntry ji (op2 save) <> Ok 0 /\ is_Some (mmem m (SP + 32)).

Lemma tail_fits ji a a0 a1 a2 a3 af saveref target :
  assembled ji a a0 a1 a2 a3 af saveref target -> started a0 saveref -> debug a0 = false ->
  ext (curins a0 + 1) (unpos a0) (unpos a2) -> saveref <> 0 ->
  mcp (code a3) = mcp (code a2)
  /\ (forall q, q < mcp (code a0) \/ mctop (area a0) <= q -> bytes (code a3) !! q = bytes (code a2) !! q)
  /\ (op1 (a_ir a0 saveref) = IR_SAVE_LOOP -> mcp (code a2) <> 0 ->
      code_at (bytes (code a3)) (mcp (code a0)) [IJmp (mcp (code a2))] (mctop (area a0)))
  /\ (op1 (a_ir a0 saveref) = IR_SAVE_LINK -> ji_traceEntry ji (op2 (a_ir a0 saveref)) = Ok target
      /\ (target <> 0 -> code_at (bytes (code a3)) (mcp (code a0)) (link_code (op2 (a_ir a0 saveref)) target) (mctop (area a0)))).
Proof using Type.
  intros [_ _ _ Htgt Hlnk Hjmp [u H3] _ _] St Hd He Hs. destruct (erase_pos _ _ (ex_erase _ _ _ He)) as (_ & _ & _ & _ & Eo & _ & Ea).
  change (options a2 = options a0) in Eo. apply (f_equal mctop) in Ea.
  change (mctop (area a2) = mctop (area a0)) in Ea.
  assert (Hd2 : debug a2 = false) by (unfold debug in *; by rewrite Eo).
  destruct (fixupTail_spec _ _ _ _ _ Hd2 H3) as ((c & -> & Ec) & p & Hcode & Hb & Hp).
  destruct (op_ext _ _ _ saveref He) as (_ & E1 & E2). change (op1 (a_ir a2 saveref) = op1 (a_ir a0 saveref)) in E1.
  change (op2 (a_ir a2 saveref) = op2 (a_ir a0 saveref)) in E2. rewrite E2 in Hlnk.
  pose proof (sr_top _ _ St) as Ht. rewrite Ea in *. rewrite E1 in *. rewrite Hd in Ht. unfold tail_size in Ht.
  apply Z.eqb_neq in Hs as Hs'. rewrite Hs' in *. cbn [negb andb] in *.
  split; [done|]. split.
  - intros q Hq. apply Hb. rewrite Hp. destruct (Z.eqb_spec target 0) as [->|Hn].
    + destruct (Z.eqb_spec (op1 (a_ir a0 saveref)) IR_SAVE_LINK) as [E|]; [rewrite E in Ht; cbn in Ht; lia|].
      destruct (negb _) in Ht; lia.
    + destruct (Hjmp Hn) as [_ [E|E]]; rewrite E in *; cbn in Ht |- *; lia.
  - split; [|intros E; specialize (Hlnk Hs E); split; [done|]; intros Hn; unfold tail_code in Hcode;
      rewrite E1, E2, E, Hs', (proj2 (Z.eqb_neq _ _) Hn) in Hcode; rewrite E in *; rewrite (proj2 (Z.eqb_neq _ _) Hn) in Hp;
      cbn in Ht, Hp, Hcode; replace (mcp (code a0)) with p by lia; exact Hcode].
    intros E Hn. specialize (Htgt Hs E). subst target. rewrite E in *. unfold tail_code in Hcode.
    rewrite E1, Hs', (proj2 (Z.eqb_neq _ _) Hn) in Hcode. rewrite (proj2 (Z.eqb_neq _ _) Hn) in Hp.
    change (IR_SAVE_LOOP =? IR_SAVE_LINK) with false in *. change (IR_SAVE_LOOP =? 0) with false in Ht.
    cbn [negb andb app] in *.
    replace (mcp (code a0)) with p by lia. exact Hcode.
Qed.

(** The two stretches of code in front of the tail: the constants, and
    the instructions of the trace. *)
Lemma root_code ji a a0 a1 a2 a3 af saveref target :
  stopins (ji_inherited ji) = REF_FIRST -> buffer_ok (b_code (abuf a)) = true ->
  assembled ji a a0 a1 a2 a3 af saveref target -> root_ok a0 saveref = true ->
  started a0 saveref /\ curins a0 = saveref /\ debug a0 = false
  /\ b_snaps (abuf a0) !! Z.to_nat (snapno a0) = Some (last_snap a0)
  /\ ra_ok a1 REF_FIRST /\ ext saveref (unpos a0) (unpos a1) /\ prepared REF_FIRST a1 a2
  /\ exists l, emits_in (mcp (code a0)) (code a0) (code a1) l /\ body_code (mcp (code a0)) a0 a1 (last_snap a0) l.
Proof using TF.
  intros Hstop Hb [H0 [u1 H1] [u2 H2] _ _ _ _ _ _] Hok.
  destruct (begin_spec _ _ _ _ _ _ Hstop Hb H0) as [St _].
  apply andb_true_iff in Hok as [Hcur%Z.eqb_eq Hbody].
  pose proof (started_loop _ _ St) as Hls. pose proof (fs_bounds _ (sr_fresh _ _ St)) as [_ Hn].
  assert (Hsn : b_snaps (abuf a0) !! Z.to_nat (snapno a0) = Some (last_snap a0) /\ debug a0 = false).
  { pose proof Hbody as Hb2. unfold body_ok, last_snap in *. destruct (b_snaps (abuf a0) !! _) as [sn|]; [|done].
    split; [done|]. apply andb_true_iff in Hb2 as [Hs _]. unfold save_ok in Hs.
    apply andb_true_iff in Hs as [[_ Hd]%andb_true_iff _]. by apply negb_true_iff in Hd. }
  destruct Hsn as [Hsn Hd].
  assert (Hle : astopins a0 <= curins a0) by (rewrite (sr_stop _ _ St), (sr_cur _ _ St); lia).
  destruct (body_spec _ _ a0 (last_snap a0) u1 a1 Hls Hle Hsn Hbody H1) as (Hok1 & He1 & _ & l & Em & Hl).
  rewrite (sr_stop _ _ St) in Hok1. rewrite Hcur in He1. split_and!; try done; [by eapply evictConstants_spec|eauto].
Qed.

Lemma fixup_same ji a a0 a1 a2 a3 af saveref target :
  assembled ji a a0 a1 a2 a3 af saveref target -> debug a2 = false ->
  (forall r, a_ir af r = a_ir a2 r) /\ b_snaps (abuf af) = b_snaps (abuf a2) /\ b_snapmap (abuf af) = b_snapmap (abuf a2)
  /\ exitStubGroup af = exitStubGroup a2 /\ final_slots af = final_slots a2 /\ ra a3 = ra a2
  /\ forall st, literals_ok a2 st -> literals_ok af st.
Proof using Type.
  intros [_ _ _ _ _ _ [u H3] _ (_ & E1 & E2 & E3 & E4 & E5 & E6)] Hd.
  destruct (fixupTail_spec _ _ _ _ _ Hd H3) as ((c & -> & _) & _).
  split; [|split; [exact E2|split; [exact E3|split; [exact E4|split; [|split; [done|]]]]]].
  - intros r. unfold a_ir. by rewrite E1.
  - unfold final_slots, spl, bufmin, a_ir. by rewrite E1, E5.
  - intros st Hl. unfold literals_ok, bufmin, a_ir in *. rewrite E1, E6. exact Hl.
Qed.

(** What is known of the code of a root trace: [a0] is the state before
    the main loop, [a1] and [a2] those behind it and behind the constants,
    [l1] and [l2] the instructions that the two have written. *)
Record root_built (ji : JitInfo) (af a0 a1 a2 : Assembler) (saveref : Z) (l1 l2 : list instr) : Prop := {
  rb_started : started a0 saveref;
  rb_cur : curins a0 = saveref;
  rb_alloc : ra_ok a2 REF_FIRST /\ freeset (ra a2) = kGPR;
  rb_ext : ext saveref (unpos a0) (unpos a2);
  rb_ext2 : ext REF_FIRST a1 a2;
  rb_code : code_at (bytes (code af)) (mcp (code af)) (l2 ++ l1) (mcp (code a0));
  rb_tail : op1 (a_ir a0 saveref) = IR_SAVE_LOOP -> mcp (code af) <> 0 ->
            code_at (bytes (code af)) (mcp (code a0)) [IJmp (mcp (code af))] (mctop (area a0));
  rb_link : op1 (a_ir a0 saveref) = IR_SAVE_LINK ->
            exists target, ji_traceEntry ji (op2 (a_ir a0 saveref)) = Ok target
              /\ (target <> 0 -> code_at (bytes (code af)) (mcp (code a0)) (link_code (op2 (a_ir a0 saveref)) target) (mctop (area a0)));
  rb_consts : forall Sp st m, covers a2 Sp -> agree a2 Sp REF_FIRST st m ->
              exists m', exec_list l2 m = Some (Next m') /\ agree a1 Sp REF_FIRST st m';
  rb_body : body_code (mcp (code a0)) a0 a1 (last_snap a0) l1;
  rb_exits : forall k t, exits_in (mcp (code a0)) a1 k t -> exits_at af k t;
  rb_stubs : exitStubGroup af = exitStubGroup a0;
  rb_ir : forall r, a_ir af r = a_ir a2 r;
  rb_snaps : b_snaps (abuf af) = b_snaps (abuf a2) /\ b_snapmap (abuf af) = b_snapmap (abuf a2);
  rb_slots : final_slots af = final_slots a2;
  rb_lits : forall st, literals_ok a2 st -> literals_ok af st
}.
Lemma root_parts ji a u af saveref a0 :
  buf_parent (ji_inherited ji) = None -> stopins (ji_inherited ji) = REF_FIRST ->
  buffer_ok (b_code (abuf a)) = true -> begin_assemble mmap fuel ji a = Ok (saveref, a0) ->
  root_ok a0 saveref = true -> assemble mmap fuel ji a = Ok (u, af) ->
  exists a1 a2 l1 l2, root_built ji af a0 a1 a2 saveref l1 l2.
Proof using TF.
  intros Hpar Hstop Hb Hbeg Hok H.
  destruct (assemble_parts ji a u af Hpar Hstop Hb H) as (a0' & a1 & a2 & a3 & saveref' & target & Has).
  pose proof (as_begin _ _ _ _ _ _ _ _ _ Has) as Hbeg'. rewrite Hbeg in Hbeg'. injection Hbeg' as <- <-.
  destruct (root_code _ _ _ _ _ _ _ _ _ Hstop Hb Has Hok)
    as (St & Hcur & Hd & Hsn & Hok1 & He1 & (Hok2 & He2 & l2 & Em2 & Hs2) & l1 & Em1 & Hl1).
  pose proof (fs_bounds _ (sr_fresh _ _ St)) as [Hmin Hn].
  assert (He : ext saveref (unpos a0) (unpos a2)).
  { etransitivity; [exact He1|]. eapply ext_weaken; [|by apply unpos_ext]. rewrite <- Hcur, (sr_cur _ _ St). lia. }
  assert (Hsv : saveref <> 0) by (rewrite <- Hcur, (sr_cur _ _ St); unfold REF_FIRST, REF_BIAS in *; lia).
  assert (Hd2 : debug a2 = false).
  { unfold debug in *. change (options a2) with (options (unpos a2)).
    by rewrite (proj1 (proj2 (proj2 (proj2 (proj2 (erase_pos _ _ (ex_erase _ _ _ He))))))). }
  destruct (tail_fits _ _ _ _ _ _ _ _ _ Has St Hd) as (Emcp & Hbytes & Htail & Hlink); [|done|].
  { eapply ext_weaken; [|exact He]. lia. }
  destruct (fixup_same _ _ _ _ _ _ _ _ _ Has Hd2) as (Fir & Fsn & Fmap & Fst & Fsl & Fra & Flit).
  pose proof (as_free _ _ _ _ _ _ _ _ _ Has) as Hfree. rewrite Fra in Hfree.
  pose proof (proj1 (as_code _ _ _ _ _ _ _ _ _ Has)) as Ecode.
  exists a1, a2, l1, l2. split; try done; rewrite ?Ecode, ?Emcp; try done.
  - apply (emits_in_app (mcp (code a0)) _ _ _ _ _ (Z.le_refl _) Em1 (emits_inside _ _ _ _ Em2)).
    intros q Hq. apply Hbytes. lia.
  - intros E. destruct (Hlink E) as [Ht Hlc]. by exists target.
  - intros Sp st m Hc A. destruct (Hs2 Sp st m Hc A) as (m' & X & A' & _). by exists m'.
  - assert (Etop : mctop (area a1) = mctop (area a0)).
    { exact (f_equal mctop (proj2 (proj2 (proj2 (proj2 (proj2 (proj2 (erase_pos _ _ (ex_erase _ _ _ He1))))))))). }
    pose proof (sr_top _ _ St) as Ht. pose proof (tail_size_nonneg saveref (a_ir a0 saveref) (debug a0)).
    intros k t. apply exits_final.
    + rewrite Fst. apply (erase_pos _ _ (ex_erase _ _ _ He2)).
    + intros q Hq. rewrite Ecode, Hbytes by lia. apply (proj1 (proj2 Em2)). destruct Em1 as [? _]. lia.
  - rewrite Fst. exact (proj1 (proj2 (proj2 (proj2 (erase_pos _ _ (ex_erase _ _ _ He)))))).
Qed.

(** The slots of the instructions are final where the main loop has left
    them. *)
Lemma built_slots ji af a0 a1 a2 saveref l1 l2 q :
  root_built ji af a0 a1 a2 saveref l1 l2 -> REF_FIRST <= q < saveref -> final_slots a2 q = spl a1 q.
Proof using Type.
  intros R Hq. pose proof (rb_started _ _ _ _ _ _ _ _ R) as St. pose proof (fs_bounds _ (sr_fresh _ _ St)) as [Hmin Hn].
  rewrite final_slots_live.
  - unfold spl. by rewrite (ex_above _ _ _ (rb_ext2 _ _ _ _ _ _ _ _ R)) by lia.
  - destruct (erase_code _ _ (ex_erase _ _ _ (rb_ext _ _ _ _ _ _ _ _ R))) as (E1 & _ & E2). change (bufmin a2 = bufmin a0) in E1.
    change (nins a2 = nins a0) in E2. unfold live. rewrite E1, E2. unfold REF_FIRST in *.
    rewrite <- (rb_cur _ _ _ _ _ _ _ _ R), (sr_cur _ _ St) in Hq. lia.
Qed.

(** One run of the code of a root trace from its entry. *)
Lemma root_run ji a u af saveref a0 :
  buf_parent (ji_inherited ji) = None -> stopins (ji_inherited ji) = REF_FIRST ->
  buffer_ok (b_code (abuf a)) = true -> begin_assemble mmap fuel ji a = Ok (saveref, a0) ->
  root_ok a0 saveref = true -> mcp (code af) <> 0 -> assemble mmap fuel ji a = Ok (u, af) ->
  forall st m r, st_ok st -> enters a0 st m -> ir_run a0 REF_FIRST (Z.to_nat (saveref - REF_FIRST)) st = Some r ->
  match r with
  | Leave q st' => exists t m', steps (bytes (code af)) (mcp (code af), m) (t, m')
      /\ leaves (exits_at af) af (final_slots af) q st' t m'
  | Fall st1 => forall st', put_slots (b_snapmap (abuf a0)) (snap_range (last_snap a0)) st1 = Some st' ->
      ends_known ji a0 saveref m ->
      exists pc m', continues ji af a0 saveref (sn_relbase (last_snap a0)) pc m'
        /\ steps (bytes (code af)) (mcp (code af), m) (pc, m') /\ after_save (sn_relbase (last_snap a0)) st' m'
  end.
Proof using TF.
  intros Hpar Hstop Hb Hbeg Hok Hne H st m r Hst Hen Hr.
  destruct (root_parts ji a u af saveref a0 Hpar Hstop Hb Hbeg Hok H) as (a1 & a2 & l1 & l2 & R).
  pose proof (fun q => built_slots _ _ _ _ _ _ _ _ q R) as Hsp.
  destruct R as [St Hcur [Hok2 Hfree] He He2 Hcode Htail Hlink Hs2 Hl1 Hexit Fst Fir [Fsn Fmap] Fsl Flit]. rewrite Fsl.
  pose proof (final_slots_ok a2 _ Hok2) as Hsl. pose proof (final_slots_covers a2) as Hc2.
  destruct (Hs2 _ st m Hc2 (enters_agree _ a0 a2 (final_slots a2) st m Hok2 Hfree He Hen)) as (m1 & X2 & A1).
  pose proof (covers_ext _ _ _ _ He2 Hc2) as Hc1.
  specialize (Hl1 (final_slots a2) st m1 r Hsl Hc1). rewrite (sr_stop _ _ St), Hcur in Hl1. specialize (Hl1 Hsp Hst Hr A1).
  pose proof (fun r => code_runs _ _ _ _ m r Hcode) as Hrun.
  destruct r as [st1|q st'].
  - intros st' Hps Hkind. destruct (Hl1 st' Hps) as (m2 & Hsvd & Hend).
    assert (Hx : exec_list (l2 ++ l1) m = exec_list l1 m1) by by rewrite exec_list_app, X2.
    rewrite <- Hx in Hend. unfold continues.
    destruct (overflows _) eqn:Eo; [|destruct (Z.eqb_spec (op1 (a_ir a0 saveref)) IR_SAVE_FALLTHROUGH)
      as [Ef|Nf]; [|destruct (Z.eqb_spec (op1 (a_ir a0 saveref)) IR_SAVE_LOOP) as [El|Nl]]].
    + exists asmStackOverflow, m2. split; [done|]. split; [exact (Hrun _ Hend)|done].
    + destruct Hend as (t & Ht & Hend). exists t, m2. split; [by eapply stub_same|]. split; [exact (Hrun _ Hend)|done].
    + exists (mcp (code af)), m2. split; [done|]. split; [|done]. eapply rtc_trans; [exact (Hrun _ Hend)|].
      exact (code_runs _ _ _ _ m2 (Goto (mcp (code af)) m2) (Htail El Hne) eq_refl).
    + assert (Ek : op1 (a_ir a0 saveref) = IR_SAVE_LINK /\ ji_traceEntry ji (op2 (a_ir a0 saveref)) <> Ok 0 /\ is_Some (mmem m (SP + 32))).
      { destruct Hkind as [E|[E|E]]; [by destruct Nf|by destruct Nl|done]. }
      destruct Ek as (Ek & Hent & Hid), (Hlink Ek) as (target & Htg & Hlc).
      assert (Hnz : target <> 0) by congruence.
      destruct (link_runs _ target _ _ _ (proj2 (op_u16 (a_ir a0 saveref))) Hsvd (exec_list_mapped _ _ _ Hend _ Hid))
        as (m3 & X3 & Hsv3 & Hid3).
      exists target, m3. split; [done|]. split; [|done]. eapply rtc_trans; [exact (Hrun _ Hend)|].
      exact (code_runs _ _ _ _ m2 _ (Hlc Hnz) X3).
  - destruct Hl1 as (t & m2 & X1 & Hlv). exists t, m2. split.
    + apply (Hrun (Goto t m2)). by rewrite exec_list_app, X2.
    + apply (leaves_later (exits_in (mcp (code a0)) a1) (exits_at af) a1 af); [done|done| | | |].
      * intros x Hx. rewrite Fir. by apply (ex_above _ _ _ He2).
      * rewrite Fsn. intros j s Hj. exact (snaps_same a1 a2 j s (ex_erase _ _ _ He2) Hj).
      * rewrite Fmap. apply (erase_buf _ _ (ex_erase _ _ _ He2)).
      * intros Hl. apply Flit. exact (literals_forth _ a1 a2 st' He2 Hl).
Qed.

(** ** Loops *)

(** One iteration of the instructions of a trace and of its [SAVE]. *)
Definition iteration (a0 : Assembler) (saveref : Z) (st st' : irstate) : Prop :=
  exists st1, ir_run a0 REF_FIRST (Z.to_nat (saveref - REF_FIRST)) st = Some (Fall st1)
    /\ put_slots (b_snapmap (abuf a0)) (snap_range (last_snap a0)) st1 = Some st'.

Lemma put_word_val x v st st' : put_word x v st = Some st' -> val st' = val st.
Proof using Type. unfold put_word. destruct (word_at st x); [|done]. by intros [= <-]. Qed.
Lemma put_slots_val d ses st st' : put_slots d ses st = Some st' -> val st' = val st.
Proof using Type.
  revert st'. induction ses as [|se ses IH]; intros st' H; cbn [put_slots] in H; [by injection H as <-|].
  destruct (put_slots d ses st) as [st1|]; [|done]. destruct (slotId d se); [|done]. destruct (slotRef d se); [|done].
  rewrite (put_word_val _ _ _ _ H). by apply IH.
Qed.
Lemma put_fields_val x l st st' : put_fields st x l = Some st' -> val st' = val st.
Proof using Type.
  revert st x. induction l as [|r l IH]; intros st x H; cbn [put_fields] in H; [by injection H as <-|].
  destruct (put_word _ _ st) as [st1|] eqn:E; [|done]. rewrite (IH _ _ H). by eapply put_word_val.
Qed.
Lemma ir_exec_val a ref st st' q : q < ref -> ir_exec a ref st = Some (Fall st') -> val st' q = val st q.
Proof using Type.
  intros Hq. assert (Hset : forall v st0, val (set_val ref v st0) q = val st0 q).
  { intros v st0. cbn. unfold upd. destruct (Z.eqb_spec q ref); [lia|done]. }
  unfold ir_exec.
  assert (Hval : match ir_value a ref st with Some v => Some (Fall (set_val ref v st)) | None => None end
                   = Some (Fall st') -> val st' q = val st q).
  { destruct (ir_value a ref st) as [v|]; [|done]. intros [= <-]. apply Hset. }
  destruct (ir_o (a_ir a ref)) eqn:Eo; try apply Hval.
  all: try (destruct (ir_test a ref st) as [[]|]; [| |done]; intros [= <-]; done).
  - destruct (op1 _ =? 0); [by intros [= <-]|]. by destruct (_ <=? HL); intros [= <-].
  - by intros [= <-].
  - unfold ir_new. destruct (AbstractHeap.entry _ _) as [e|]; [|done].
    destruct (put_fields _ _ _) as [st1|] eqn:E; [|done]. intros [= <-]. rewrite Hset.
    by rewrite (put_fields_val _ _ _ _ E).
  - destruct (put_word _ _ st) as [st1|] eqn:E1; [|done]. destruct (put_word _ _ st1) as [st2|] eqn:E2; [|done].
    intros [= <-]. by rewrite (put_word_val _ _ _ _ E2), (put_word_val _ _ _ _ E1).
Qed.
Lemma ir_run_val a ref n q : forall st st', q < ref -> ir_run a ref n st = Some (Fall st') -> val st' q = val st q.
Proof using Type.
  induction n as [|n IH]; intros st st' Hq H; cbn [ir_run] in H; [by injection H as <-|].
  destruct (ir_run a ref n st) as [[st1|]|] eqn:E; [|done|done].
  rewrite (ir_exec_val a (ref + Z.of_nat n) st1 st' q); [by apply IH|lia|done].
Qed.

Lemma iteration_ok a0 saveref st st' : st_ok st -> iteration a0 saveref st st' -> st_ok st'.
Proof using Type.
  intros Hst (st1 & Hr & Hp). pose proof (ir_run_ok _ _ _ _ _ Hst Hr) as Hst1. by apply (put_slots_keeps _ _ _ _ Hst1 Hp).
Qed.
(** Behind an iteration that does not move the base the trace can be
    entered again. *)
Lemma iteration_enters a0 saveref st st' m m' :
  iteration a0 saveref st st' -> enters a0 st m -> after_save 0 st' m' -> enters a0 st' m'.
Proof using Type.
  intros (st1 & Hr & Hp) [E1 E2 E3 E4 E5 E6] [S1 S2 S3 S4 S5]. split; try done.
  - rewrite S1. change (i4 (0 * 8)) with 0. rewrite Z.add_0_r. apply (to_u_id 64), tf_words.
  - intros ref Hb. assert (Hv : val st' ref = val st ref).
    { rewrite (put_slots_val _ _ _ _ Hp). eapply ir_run_val; [|exact Hr]. unfold REF_FIRST. lia. }
    rewrite Hv. by apply E6.
Qed.

(** ** What the code of a root trace does *)

Record assembles_root (ji : JitInfo) (a af a0 : Assembler) (saveref : Z) : Prop := {
  ar_parent : buf_parent (ji_inherited ji) = None;
  ar_stop : stopins (ji_inherited ji) = REF_FIRST;
  ar_buffer : buffer_ok (b_code (abuf a)) = true;
  ar_begin : begin_assemble mmap fuel ji a = Ok (saveref, a0);
  ar_ok : root_ok a0 saveref = true;
  ar_entry : mcp (code af) <> 0;
  ar_done : assemble mmap fuel ji a = Ok (tt, af)
}.

Section root.
Context (ji : JitInfo) (a af a0 : Assembler) (saveref : Z).
Hypothesis Hroot : assembles_root ji a af a0 saveref.
Abbreviation trace_run st := (ir_run a0 REF_FIRST (Z.to_nat (saveref - REF_FIRST)) st).

(** C1: the code of a root trace without a failing guard: when the
    instructions of the trace and the stores of its last snapshot can be
    carried out from a state, the processor, entering at the trace's
    address, reaches the place where the trace continues: the stack
    overflow routine when the new base is above the limit, the exit stub of
    the last snapshot, the trace itself, or the entry of the linked trace,
    whose number is then in the frame.  Memory, heap pointer and base
    pointer are those of the instructions.

    This is for traces that pass [root_ok]: there is no PLOAD and no shift
    by a variable count, the snapshots name values that have been computed,
    tracing of the compiled code is off, and every comparison finds its
    first operand in a register when the second one has been allocated
    ([kept]). *)
Theorem root_trace_ends st st1 st' m :
  st_ok st -> enters a0 st m -> trace_run st = Some (Fall st1) ->
  put_slots (b_snapmap (abuf a0)) (snap_range (last_snap a0)) st1 = Some st' ->
  ends_known ji a0 saveref m ->
  exists pc m', continues ji af a0 saveref (sn_relbase (last_snap a0)) pc m'
    /\ steps (bytes (code af)) (mcp (code af), m) (pc, m') /\ after_save (sn_relbase (last_snap a0)) st' m'.
Proof using TF Hroot.
  intros Hst Hen Hr Hp Hid. destruct Hroot as [H1 H2 H3 H4 H5 H6 H7].
  exact (root_run ji a tt af saveref a0 H1 H2 H3 H4 H5 H6 H7 st m (Fall st1) Hst Hen Hr st' Hp Hid).
Qed.

(** C7: a looping root trace is left: when a guard fails after any number
    of iterations, the processor reaches the exit stub of that guard's
    snapshot, or, for a heap check out of line, the call of
    [asmHeapOverflow] with its number that goes back to the check; and
    every value the snapshot names is in the register or spill slot where
    the exit looks for it.  The trace passes [root_ok], as above, and its
    last snapshot does not move the base. *)
Theorem root_loop_leaves st st' st'' q m :
  op1 (a_ir a0 saveref) = IR_SAVE_LOOP -> sn_relbase (last_snap a0) = 0 ->
  st_ok st -> enters a0 st m -> rtc (iteration a0 saveref) st st' -> trace_run st' = Some (Leave q st'') ->
  exists t m', steps (bytes (code af)) (mcp (code af), m) (t, m') /\ leaves (exits_at af) af (final_slots af) q st'' t m'.
Proof using TF Hroot.
  intros Hloop Hbase Hst Hen Hit Hq. destruct Hroot as [H1 H2 H3 H4 H5 H6 H7].
  pose proof (root_run ji a tt af saveref a0 H1 H2 H3 H4 H5 H6 H7) as Hrun. rewrite Hbase in Hrun.
  revert m Hen Hst. induction Hit as [st|st st2 st' Hone _ IH]; intros m Hen Hst.
  - exact (Hrun st m (Leave q st'') Hst Hen Hq).
  - pose proof Hone as (st1 & Hr & Hp). destruct (Hrun st m (Fall st1) Hst Hen Hr st2 Hp (or_intror (or_introl Hloop))) as (pc & m1 & Hpc & Hs & Hsv).
    unfold continues in Hpc. rewrite Hloop in Hpc. cbn in Hpc. subst pc.
    destruct (IH Hq m1) as (t & m2 & Hs2 & Hlv).
    { by eapply iteration_enters. }
    { by eapply iteration_ok. }
    exists t, m2. split; [by etransitivity|done].
Qed.
End root.
End machine.
