(* ===== verification/TraceExit.v ===== *)
(** * Leaving compiled code ([jit.cc], [amd64/fragment.cc])

    When a guard of a trace fails, the machine code saves its registers
    in an [ExitState] and calls [exitTrace], which rebuilds the frames of
    the interpreter from the snapshot of the guard and decides whether
    recording starts.  Running machine code is an operation of the class
    [MachineOps].  With these the recorder is an instance of the
    interface [JitOps] of the interpreter. *)

From S2P Require Import Prelude Words Bytecode Objects Hotness HeapInterface MiscClosures.
From S2P Require Import Capability.
From S2P Require Import IR Registers.
From S2P Require Import Recorder.

Definition TRACE_ID_NONE : Z := u4 (Z.lnot 0).

(** The registers and spill slots, and the fields of [struct _ExitState]
    that are read; [T] is the current thread. *)
Record ExitState := mkExit { gpr : list Z; hplim : Z; F_id : Z; spill : list Z }.


(** The value of a reference at the exit. *)
Definition exit_value (F : Fragment) (ex : ExitState) (base ref : Z) : outcome Z :=
  let! ins := Fragment.ir F ref in
  if irref_islit ref then Fragment.literalValue F ref base
  else if negb (ir_spill ins =? 0) then of_option WildAccess (spill ex !! Z.to_nat (ir_spill ins))
  else assert! isReg (ir_reg ins) in of_option WildAccess (gpr ex !! Z.to_nat (ir_reg ins)).

(** The loop of [restoreSnapshot] over the entries of the snapshot. *)
Fixpoint restore_slots (F : Fragment) (ex : ExitState) (base : Z) (es : list Z) (m : memory)
  : outcome memory :=
  match es with
  | [] => Ok m
  | w :: es' =>
      let! v := exit_value F ex base (u2 w) in
      restore_slots F ex base es' (store m (base + 8 * Z.shiftr (i4 w) 16) v)
  end.

Definition snap_entries (F : Fragment) (sn : Snapshot) : outcome (list Z) :=
  let es := take (Z.to_nat (sn_entries sn)) (drop (Z.to_nat (sn_mapofs sn)) (fr_snapmap F)) in
  if Z.of_nat (length es) =? sn_entries sn then Ok es else Err WildAccess.

Section exits.
Context {H : Type} `{HeapOps H} {A : Type} `{AsmOps A}.
Implicit Types (c : Capability H (Jit A)).

Definition set_fragment c (F : Z) (Fr : Fragment) : Capability H (Jit A) :=
  set_cap_jit c (set_fragments (jit c) (fragmentMap (jit c)) (<[Z.to_nat F := Fr]> (fragments (jit c)))).
Definition set_exit_heap c (hp lim : Z) : Capability H (Jit A) :=
  mkCap (mem c) (mm c) (currentThread c) (static_roots c) (cap_dispatch c) (counters c) (jit c)
    (flags c) hp lim (misc c).

(** A hot exit: [base] is the base after the exit. *)
Definition hot_fallthrough c (F exitno pc base : Z) : outcome (Capability H (Jit A)) :=
  let! w := load_ins (mem c) pc in
  if bool_decide (BcIns.opcode w = Some BcIns.kJFUNC) then
    let '(j, target) := lookupFragment (jit c) pc in
    let! Ft := of_option WildAccess (fragments j !! Z.to_nat target) in
    assert! fr_traceId Ft =? BcIns.d w in
    let! Fr := of_option WildAccess (fragments j !! Z.to_nat F) in
    let! a := asm_patchFallthrough (asm j) Fr exitno Ft in
    Ok (set_cap_jit c (set_asm j a))
  else
    let isReturn := negb (bool_decide (BcIns.opcode w = Some BcIns.kFUNC)
                          || bool_decide (BcIns.opcode w = Some BcIns.kIFUNC)) in
    let! c := beginRecording c pc base isReturn in
    Ok (setState (set_cap_jit c (setFallthroughParent (jit c) F exitno)) STATE_RECORD).
Definition hot_side_exit c (F exitno base : Z) : outcome (Capability H (Jit A)) :=
  let! c := beginSideTrace c base F exitno in Ok (setState c STATE_RECORD).

(** [Fragment::restoreSnapshot]; [F] is the trace number of [this]. *)
Definition restoreSnapshot c (F exitno : Z) (ex : ExitState) : outcome (Capability H (Jit A)) :=
  let! Fr := of_option WildAccess (fragments (jit c) !! Z.to_nat F) in
  assert! (0 <=? exitno) && (exitno <? Fragment.nsnaps Fr) in
  let! sn := Fragment.snap Fr exitno in
  let! snapins := Fragment.ir Fr (sn_ref sn) in
  let! entry_base := of_option WildAccess (gpr ex !! Z.to_nat RID_BASE) in
  let! hp := of_option WildAccess (gpr ex !! Z.to_nat RID_HP) in
  let save := bool_decide (ir_o snapins = kSAVE) in
  let! m := (if save then Ok (mem c)
             else let! es := snap_entries Fr sn in restore_slots Fr ex entry_base es (mem c)) in
  let base := if save then entry_base else entry_base + 8 * sn_relbase sn in
  let t := Thread.set_top (Thread.sync (currentThread c) (sn_pc sn) base) (base + 8 * sn_framesize sn) in
  let c := set_exit_heap (set_cap_T (set_cap_mem c m) t) hp (hplim ex) in
  let heapchk := bool_decide (ir_o snapins = kHEAPCHK) in
  if heapchk then Ok (set_exit_heap c (traceExitHp c - 8 * op1 snapins) (hplim ex))
  else
    let '(sn', hot) := bumpExitCounter sn in
    let c := set_fragment c F (Fragment.set_snap Fr exitno sn') in
    if negb hot then Ok c
    else if save && (op1 snapins =? IR_SAVE_FALLTHROUGH) then hot_fallthrough c F exitno (sn_pc sn) base
    else hot_side_exit c F exitno base.

(** [exitTrace] *)
Definition exitTrace c (n : Z) (ex : ExitState) : outcome (Capability H (Jit A)) :=
  if F_id ex =? TRACE_ID_NONE then Ok c
  else let! F := traceById (jit c) (F_id ex) in restoreSnapshot c (fr_traceId F) n ex.

(** [heapCheckFail]: the heap pointer and limit of the saved state are
    updated when a new block was found; otherwise the trace exits. *)
Definition set_exit_bounds (ex : ExitState) (hp lim : Z) : ExitState :=
  mkExit (<[Z.to_nat RID_HP := hp]> (gpr ex)) lim (F_id ex) (spill ex).
Definition heapCheckFail c (ex : ExitState) : outcome (Capability H (Jit A) * ExitState * bool) :=
  let! hp := of_option WildAccess (gpr ex !! Z.to_nat RID_HP) in
  let! '(h, bounds) := h_bumpAllocatorFullNoGC (mm c) hp (hplim ex) in
  let c := set_cap_mm c (mem c) h in
  match bounds with
  | Some (hp, lim) => Ok (c, set_exit_bounds ex hp lim, false)
  | None => Ok (c, ex, true)
  end.
End exits.

(** Running the code of a fragment from a heap and a stack limit until
    it exits: the capability (with memory and the heap as the code left
    them), the exit number and the saved registers. *)
Class MachineOps (H A : Type) := {
  mc_run : Capability H (Jit A) -> Z -> Z -> Z -> Z -> outcome (Capability H (Jit A) * Z * ExitState)
}.

Section instance.
Context {H : Type} `{HeapOps H} {A : Type} `{AsmOps A} `{MachineOps H A} (fuel : nat).

Definition asmEnter (c : Capability H (Jit A)) (F hp hplim stacklim : Z)
  : outcome (Capability H (Jit A)) :=
  let! '(c, n, ex) := mc_run c F hp hplim stacklim in exitTrace c n ex.

#[export] Instance jit_ops : JitOps H (Jit A) := {
  j_traceAt := traceAt;
  j_lookupFragment j pc :=
    let '(j, id) := lookupFragment j pc in (j, fr_traceId <$> fragments j !! Z.to_nat id);
  j_startPc j F := default 0 (fr_startPc <$> fragments j !! Z.to_nat F);
  j_asmEnter := asmEnter;
  j_beginRecording := beginRecording;
  j_recordIns := recordIns fuel;
  j_requestAbort := requestAbort
}.
End instance.
