(* ===== verification/RecorderSim.v ===== *)
(** * Recording follows execution

    One step of the interpreter while recording does what the step does
    without the recorder, and the trace stays a faithful description of
    the machine: there is a value for every reference of the trace such
    that arithmetic instructions and literals have their meaning, the
    guards hold, and every slot of the abstract stack that has a
    reference holds its value in memory.  The file shows this for the
    instructions that work on registers. *)

From S2P Require Import Prelude Words Bytecode Objects Hotness HeapInterface MiscClosures.
From S2P Require Import Capability Interp InterpSteps.
From S2P Require Import IR Registers.
From S2P Require Import IRInv.
From S2P Require Import Fold.
From S2P Require Import FoldProofs.
From S2P Require Import CallStack.
From S2P Require Import Recorder.
From S2P Require Import TraceExit.

(** ** Conditions *)

(** The comparison the recorder emits after a branch on [x] and [y]
    holds for exactly the operands that send the interpreter the same
    way. *)
Lemma cond_direction op x y t :
  0 <= x < 2 ^ 64 -> 0 <= y < 2 ^ 64 -> branch_cond op x y = Some t ->
  evalCond op x y = Ok t /\
  exists irop, comparison (bcCond2irCond op (negb t)) = Some irop /\
    forall x' y', 0 <= x' < 2 ^ 64 -> 0 <= y' < 2 ^ 64 ->
      condition irop x' y' = Some (bool_decide (branch_cond op x' y' = Some t)).
Proof.
  assert (Hu : forall z, 0 <= z < 2 ^ 64 -> u8 z = z) by (intros; apply to_u_id; lia).
  assert (Hi : forall a b, 0 <= a < 2 ^ 64 -> 0 <= b < 2 ^ 64 -> (i8 a =? i8 b) = (a =? b)).
  { intros a b Ha Hb. destruct (Z.eqb_spec a b) as [->|Hn]; [apply Z.eqb_refl|].
    apply Z.eqb_neq. intros E. apply Hn. rewrite <- (Hu a), <- (Hu b) by done.
    unfold u8. rewrite <- (to_s_congr 64 ltac:(lia) a), <- (to_s_congr 64 ltac:(lia) b).
    unfold i8 in E. by rewrite E. }
  intros Hx Hy Ht.
  destruct op; try done; cbn in Ht; injection Ht as Ht; (split; [cbn; rewrite ?Hi, ?Hu in * by done; congruence|]);
    destruct t; (eexists; split; [reflexivity|]); intros x' y' Hx' Hy'; cbn;
    rewrite ?Hu by done; f_equal; symmetry;
    repeat match goal with |- context [?a <? ?b] => destruct (Z.ltb_spec a b)
                         | |- context [?a <=? ?b] => destruct (Z.leb_spec a b)
                         | |- context [?a =? ?b] => destruct (Z.eqb_spec a b) end;
    try done; lia.
Qed.

(** ** Running recorder functions *)

Section runs.
Context {H A : Type}.
Abbreviation Cap := (Capability H (Jit A)).

(** The function ends without exception in a result and a state that
    satisfy [Q], or the buffer is full. *)
Definition runs {X} (m : RM H A X) (c : Cap) (Q : Cap -> X -> Prop) : Prop :=
  returns (fun '(c', r) => match r with Val x => Q c' x | Throw => False end) (m c).

Lemma runs_bind {X Y} (m : RM H A X) (k : X -> RM H A Y) c P Q :
  runs m c P -> (forall c' x, P c' x -> runs (k x) c' Q) -> runs (rbind m k) c Q.
Proof.
  unfold runs, rbind. intros Hm Hk. eapply returns_bind; [done|].
  intros [c' [x|]] Hx; [|done]. exact (Hk c' x Hx).
Qed.
Lemma runs_ret {X} (x : X) (c : Cap) (Q : Cap -> X -> Prop) : Q c x -> runs (rret x) c Q.
Proof. done. Qed.
Lemma runs_lift {X} (f : Cap -> outcome X) c (Q : Cap -> X -> Prop) x :
  f c = Ok x -> Q c x -> runs (lift f) c Q.
Proof. unfold runs, lift. by intros -> HQ. Qed.
Lemma runs_mono {X} (m : RM H A X) c (P Q : Cap -> X -> Prop) :
  runs m c P -> (forall c' x, P c' x -> Q c' x) -> runs m c Q.
Proof.
  intros Hm HPQ. eapply returns_mono; [exact Hm|]. intros [c' [x|]] Hx; [by apply HPQ|done].
Qed.
Lemma runs_on_buf {X} (f : IRBuffer -> outcome (IRBuffer * X)) (c : Cap) (P : IRBuffer * X -> Prop) Q :
  returns P (f (buf (jit c))) ->
  (forall b x, P (b, x) -> Q (set_cap_jit c (set_buf (jit c) b)) x) -> runs (on_buf f) c Q.
Proof. intros Hf HQ. unfold runs, on_buf. eapply returns_bind; [done|]. intros [b x] Hx. by apply HQ. Qed.

(** ** The relation between machine and trace *)

Abbreviation code c := (b_code (buf (jit c))).
Abbreviation stack c := (b_slots (buf (jit c))).

(** The address of the [n]th slot of the abstract stack. *)
Definition slot_addr (s : AbstractStack) (n : Z) : Z := as_realOrigBase s + 8 * (n - kInitialBase).

Record tracks (c : Cap) (val : Z -> Z) (base : Z) : Prop := {
  tk_code : code_ok (code c);
  tk_models : models (code c) (stack c) val;
  tk_length : length (as_slots (stack c)) = Z.to_nat kSlots;
  tk_base : base = slot_addr (stack c) (as_base (stack c));
  tk_top : t_top (currentThread c) = slot_addr (stack c) (as_top (stack c));
  tk_aligned : is_aligned base 8 = true;
  tk_words : forall a v, load (mem c) a = Ok v -> 0 <= v < 2 ^ 64;
  tk_slots : forall n tr, as_slots (stack c) !! n = Some tr ->
    tr = 0 \/ (operand (code c) (TRef.ref tr)
               /\ load (mem c) (slot_addr (stack c) (Z.of_nat n)) = Ok (val (TRef.ref tr)))
}.

(** Only the buffer has changed; older references keep their values. *)
Record after (c : Cap) (val : Z -> Z) (c' : Cap) (val' : Z -> Z) : Prop := {
  af_state : c' = set_cap_jit c (set_buf (jit c) (buf (jit c')));
  af_ext : code_ext (code c) (code c');
  af_agree : agree (code c) val val';
  af_stack : as_base (stack c') = as_base (stack c) /\ as_top (stack c') = as_top (stack c)
             /\ as_realOrigBase (stack c') = as_realOrigBase (stack c)
}.

Lemma set_buf_same (j : Jit A) : set_buf j (buf j) = j.
Proof. by destruct j. Qed.
Lemma set_jit_same (c : Cap) : set_cap_jit c (jit c) = c.
Proof. by destruct c. Qed.

Lemma after_refl c val : after c val c val.
Proof. split; try done. by rewrite set_buf_same, set_jit_same. Qed.
Lemma after_trans c val c1 val1 c2 val2 :
  after c val c1 val1 -> after c1 val1 c2 val2 -> after c val c2 val2.
Proof.
  intros [E1 X1 G1 (B1 & T1 & O1)] [E2 X2 G2 (B2 & T2 & O2)]. split.
  - rewrite E2, E1. done.
  - by etransitivity.
  - intros r Hr. rewrite G2 by (by apply X1). auto.
  - split_and!; congruence.
Qed.
Lemma after_mem c val c' val' : after c val c' val' -> mem c' = mem c.
Proof. intros [E _ _ _]. by rewrite E. Qed.
Lemma after_operand c val c' val' r :
  after c val c' val' -> operand (code c) r -> operand (code c') r /\ val' r = val r.
Proof. intros [_ X G _] Hr. split; [by eapply operand_ext|]. apply G, Hr. Qed.

(** A result that is a reference with the value [v]. *)
Definition yields (c : Cap) (val : Z -> Z) (base v : Z) (c' : Cap) (tr : Z) : Prop :=
  exists val', after c val c' val' /\ tracks c' val' base
    /\ operand (code c') (TRef.ref tr) /\ val' (TRef.ref tr) = v.

(** The buffer has grown; the stack is the same. *)
Lemma tracks_grown c val base b val' :
  tracks c val base -> grown (buf (jit c)) b val val' ->
  let c' := set_cap_jit c (set_buf (jit c) b) in after c val c' val' /\ tracks c' val' base.
Proof.
  intros [Hc Hm Hl Hb Ht Ha Hw Hs] [Gc Gx Gs Ga Gm] c'. unfold c'. split.
  - split; cbn; rewrite ?Gs; done.
  - split; cbn; rewrite ?Gs in *; try done. intros n tr Hn.
    destruct (Hs n tr Hn) as [->|[Ho Hv]]; [by left|right].
    split; [by eapply operand_ext|]. rewrite (Ga (TRef.ref tr)) by apply Ho. done.
Qed.
Lemma yields_produced c val base v b tr :
  tracks c val base -> produces (buf (jit c)) val v (b, tr) ->
  yields c val base v (set_cap_jit c (set_buf (jit c) b)) tr.
Proof.
  intros Ht (val' & Hc & Hx & Hs & Ha & Hm & Ho & Hv). cbn [fst snd] in *.
  destruct (tracks_grown c val base b val' Ht) as [Haf Htr]; [by split|].
  exists val'. by split_and!.
Qed.

Lemma r_emit_arith c val base op a1 a2 v :
  tracks c val base -> operand (code c) (TRef.ref a1) ->
  (is_unary op = false -> operand (code c) (TRef.ref a2)) ->
  arith op (val (TRef.ref a1)) (val (TRef.ref a2)) = Some v ->
  runs (r_emit op I64 a1 a2) c (yields c val base v).
Proof.
  intros Ht H1 H2 Hv. pose proof (tk_code _ _ _ Ht) as Hc. unfold runs, r_emit, on_buf_throw.
  eapply returns_bind.
  - assert (E : emit (mem c) (buf (jit c)) op I64 a1 a2
                = emit (mem c) (buf (jit c)) op I64 (TRef.ref a1) (TRef.ref a2)).
    { unfold emit, set_ins, pack, TRef.ref, u2. by rewrite !to_u_idemp by lia. }
    rewrite E. apply (emit_arith _ _ val); try done. apply Ht.
  - intros [b r] (tr & Hr & Hp). cbn [fst snd] in *. subst r. cbn. by apply yields_produced.
Qed.

Lemma r_emit_condition c val base op a1 a2 :
  tracks c val base -> operand (code c) (TRef.ref a1) -> operand (code c) (TRef.ref a2) ->
  condition op (val (TRef.ref a1)) (val (TRef.ref a2)) = Some true ->
  runs (r_emit op GUARD a1 a2) c (fun c' _ => exists val', after c val c' val' /\ tracks c' val' base).
Proof.
  intros Ht H1 H2 Hv. pose proof (tk_code _ _ _ Ht) as Hc. unfold runs, r_emit, on_buf_throw.
  eapply returns_bind.
  - assert (E : emit (mem c) (buf (jit c)) op GUARD a1 a2
                = emit (mem c) (buf (jit c)) op GUARD (TRef.ref a1) (TRef.ref a2)).
    { unfold emit, set_ins, pack, TRef.ref, u2. by rewrite !to_u_idemp by lia. }
    rewrite E. apply (emit_condition _ _ val); try done. apply Ht.
  - intros [b r] [[tr Hr] [val' Hg]]. cbn [fst snd] in *. subst r. cbn. exists val'. by apply tracks_grown.
Qed.

Lemma r_literal_spec c val base ty v :
  tracks c val base -> readable (IRType_num ty) v -> 0 <= v < 2 ^ 64 ->
  runs (r_literal ty v) c (yields c val base v).
Proof.
  intros Ht Hr Hv. pose proof (tk_code _ _ _ Ht) as Hc. unfold r_literal.
  apply (runs_on_buf _ c (fun a => produces (buf (jit c)) val v a)).
  - eapply returns_bind.
    { apply (literal_spec _ (stack c) (IRType_num ty) v Hc); try done. by destruct ty. }
    intros [c' tr] [Hla (Hvr & _ & _ & Hhi & Hlv)].
    destruct (models_literals _ _ _ _ Hc Hla (tk_models _ _ _ Ht)) as (val' & Ha & Hm).
    exists val'. cbn. split_and!; try done; try apply Hla. by eapply val_literal.
  - intros b tr Hp. by apply yields_produced.
Qed.

(** *** Slots *)

Definition in_range (c : Cap) (n : Z) : Prop := 0 <= as_base (stack c) + n < kSlots.
Lemma in_range_true (c : Cap) n : in_range c n -> AbstractStack.inRange (stack c) n = true.
Proof. unfold in_range, AbstractStack.inRange. intros. lia. Qed.
Lemma in_range_after c val c' val' n : after c val c' val' -> in_range c n -> in_range c' n.
Proof. unfold in_range. by intros [_ _ _ (-> & _)]. Qed.

Lemma slot_address c val base n :
  tracks c val base -> slot_addr (stack c) (as_base (stack c) + n) = base + 8 * n.
Proof. intros Ht. rewrite (tk_base _ _ _ Ht). unfold slot_addr. lia. Qed.

Lemma get_slot c val base n :
  tracks c val base -> in_range c n ->
  exists tr, AbstractStack.get (stack c) n = Ok tr /\
    (tr = 0 \/ (operand (code c) (TRef.ref tr) /\ load (mem c) (base + 8 * n) = Ok (val (TRef.ref tr)))).
Proof.
  intros Ht Hr. unfold AbstractStack.get. rewrite in_range_true by done.
  destruct (as_slots (stack c) !! Z.to_nat (as_base (stack c) + n)) as [tr|] eqn:E.
  - exists tr. split; [done|]. destruct (tk_slots _ _ _ Ht _ _ E) as [|[Ho Hl]]; [by left|right].
    split; [done|]. rewrite <- Hl. f_equal. rewrite <- (slot_address c val) by done.
    unfold in_range in Hr. by rewrite Z2Nat.id by lia.
  - apply lookup_ge_None in E. rewrite (tk_length _ _ _ Ht) in E. unfold in_range in Hr. lia.
Qed.

(** Changing the reference of one slot of a stack. *)
Definition put_slot (s : AbstractStack) (n tr : Z) : AbstractStack :=
  let slot := as_base s + n in
  mkAS (<[Z.to_nat slot := tr]> (as_slots s)) (as_base s) (as_top s)
    (Z.min slot (as_low s)) (Z.max slot (as_high s)) (as_realOrigBase s).
Lemma set_put_slot (c : Cap) n tr :
  in_range c n -> AbstractStack.set (stack c) n tr = Ok (put_slot (stack c) n tr).
Proof. intros Hr. unfold AbstractStack.set. by rewrite in_range_true. Qed.

Lemma models_stack k s s' val :
  as_realOrigBase s' = as_realOrigBase s -> models k s val -> models k s' val.
Proof.
  intros E [Hw Hl Ha Hg]. split; try done. intros r v Hr Hv. apply Hl; [done|].
  rewrite <- Hv. unfold literalValue. by rewrite E.
Qed.

(** The slot is cleared, or the memory holds its new value. *)
Lemma tracks_put_slot c val base n tr m :
  tracks c val base -> in_range c n ->
  (forall a v, load m a = Ok v -> 0 <= v < 2 ^ 64) ->
  (forall a, a <> base + 8 * n -> load m a = load (mem c) a) ->
  tr = 0 \/ (operand (code c) (TRef.ref tr) /\ load m (base + 8 * n) = Ok (val (TRef.ref tr))) ->
  tracks (set_cap_mem (set_cap_jit c (set_buf (jit c) (set_slots (buf (jit c)) (put_slot (stack c) n tr)))) m)
    val base.
Proof.
  intros [Hc Hm Hl Hb Ht Ha Hw Hs] Hr Hmw Hother Htr.
  assert (Hbn : base + 8 * n = slot_addr (stack c) (as_base (stack c) + n)).
  { rewrite Hb. unfold slot_addr. lia. }
  split; unfold put_slot; cbn; try done.
  - by apply (models_stack _ (stack c)).
  - by rewrite length_insert.
  - intros k x. unfold in_range in Hr.
    destruct (decide (k = Z.to_nat (as_base (stack c) + n))) as [->|Hne].
    + rewrite list_lookup_insert_eq by (rewrite Hl; lia). intros [= <-].
      rewrite Z2Nat.id by lia. destruct Htr as [|[Ho Hv]]; [by left|right]. split; [done|].
      rewrite <- Hv. unfold slot_addr in *. cbn. f_equal. lia.
    + rewrite list_lookup_insert_ne by done. intros Hk.
      destruct (Hs k x Hk) as [|[Ho Hv]]; [by left|right]. split; [done|].
      rewrite Hother; [exact Hv|]. rewrite Hbn. unfold slot_addr. cbn. lia.
Qed.

Lemma after_slots c val s :
  as_base s = as_base (stack c) -> as_top s = as_top (stack c) ->
  as_realOrigBase s = as_realOrigBase (stack c) ->
  after c val (set_cap_jit c (set_buf (jit c) (set_slots (buf (jit c)) s))) val.
Proof. intros. split; cbn; try done. Qed.

Lemma value_of_sload c val base n v :
  tracks c val base -> 0 <= v < 2 ^ 64 ->
  value_of (set_ins (buf (jit c)) kSLOAD (IRType_num IRT_UNKNOWN) n 0) val v.
Proof. intros Ht Hv. split; try done; apply Ht. Qed.

(** Reading a register. *)
Lemma r_slot_spec c val base n v :
  tracks c val base -> in_range c n -> load (mem c) (base + 8 * n) = Ok v ->
  runs (r_slot n) c (yields c val base v).
Proof.
  intros Ht Hr Hv. unfold runs, r_slot, on_buf, buf_slot.
  destruct (get_slot c val base n Ht Hr) as (tr & -> & Htr). cbn [obind].
  destruct (TRef.isNone tr) eqn:Hn.
  2: { destruct Htr as [->|[Ho Hl]]; [done|]. exists val.
       rewrite set_buf_same, set_jit_same. split_and!; try done; [apply after_refl|congruence]. }
  pose proof (tk_words _ _ _ Ht _ _ Hv) as Hvw. unfold emitRaw.
  assert (Hsl := emit_ins_value _ val v (value_of_sload c val base
            (AbstractStack.absolute (stack c) n) v Ht Hvw)).
  destruct (emit_ins _) as [[b tr']|e]; [|exact Hsl]. cbn [returns obind] in *.
  pose proof (yields_produced c val base v b tr' Ht Hsl) as (val' & Haf & Htk & Ho & Hval).
  set (c1 := set_cap_jit c (set_buf (jit c) b)) in *.
  pose proof (in_range_after _ _ _ _ _ Haf Hr) as Hr1.
  change (b_slots b) with (stack c1). rewrite (set_put_slot c1) by done. cbn [obind returns].
  exists val'. assert (Hv' : load (mem c1) (base + 8 * n) = Ok (val' (TRef.ref tr'))).
  { rewrite (after_mem _ _ _ _ Haf). congruence. }
  split_and!; try done.
  - eapply after_trans; [exact Haf|]. exact (after_slots c1 val' (put_slot (stack c1) n tr') eq_refl eq_refl eq_refl).
  - pose proof (tracks_put_slot c1 val' base n tr' (mem c1) Htk Hr1 (tk_words _ _ _ Htk)
                  ltac:(done) (or_intror (conj Ho Hv'))) as H1.
    exact H1.
Qed.

Lemma ref_markWritten tr : TRef.ref (TRef.markWritten tr) = TRef.ref tr.
Proof.
  unfold TRef.ref, TRef.markWritten, TRef.kWritten, u2, to_u. rewrite <- !Z.land_ones by lia.
  bitblast.Z.bitblast. change 0x10000 with (2 ^ 16).
  destruct (decide (i = 16)) as [->|]; [lia|]. by rewrite Z.pow2_bits_false, orb_false_r by done.
Qed.
Lemma operand_nonzero k r : code_ok k -> operand k r -> r <> 0.
Proof. intros Hc [Hv _]. pose proof (ok_bounds _ Hc). unfold valid, MAX_HEAP_ENTRIES in *. lia. Qed.

(** Writing a register; the interpreter will store the value. *)
Definition writes (c : Cap) (val : Z -> Z) (base n v : Z) (c' : Cap) : Prop :=
  after c val c' val /\ tracks (set_cap_mem c' (store (mem c) (base + 8 * n) v)) val base.

Lemma r_setSlot_spec c val base n tr v :
  tracks c val base -> in_range c n -> operand (code c) (TRef.ref tr) -> val (TRef.ref tr) = v ->
  runs (r_setSlot n tr) c (fun c' _ => writes c val base n v c').
Proof.
  intros Ht Hr Ho Hv. unfold runs, r_setSlot, on_buf_unit, buf_setSlot.
  pose proof (operand_nonzero _ _ (tk_code _ _ _ Ht) Ho) as Hnz.
  rewrite (proj2 (Z.eqb_neq _ _) Hnz). cbn [negb]. rewrite set_put_slot by done. cbn [obind returns].
  pose proof (val_word _ _ _ (tk_models _ _ _ Ht) _ (proj1 Ho)) as Hw. rewrite Hv in Hw.
  assert (Hal : is_aligned (base + 8 * n) 8 = true) by (apply aligned_add, Ht).
  split; [by apply after_slots|]. apply tracks_put_slot; try done.
  - intros a x. destruct (decide (a = base + 8 * n)) as [->|Hne].
    + rewrite load_store_eq by done. by intros [= <-].
    + rewrite load_store_ne by done. apply Ht.
  - intros a Hne. by rewrite load_store_ne by done.
  - right. rewrite ref_markWritten. split; [done|]. rewrite load_store_eq by done. by f_equal.
Qed.

(** Forgetting a slot. *)
Lemma r_clearSlot_spec c val base n :
  tracks c val base -> in_range c n ->
  runs (r_setSlot n TRef.none) c (fun c' _ => after c val c' val /\ tracks c' val base).
Proof.
  intros Ht Hr. unfold runs, r_setSlot, on_buf_unit, buf_setSlot. cbn [TRef.none].
  change (negb (TRef.ref 0 =? 0)) with false. cbv iota.
  rewrite set_put_slot by done. cbn [obind returns]. split; [by apply after_slots|].
  apply (tracks_put_slot c val base n TRef.none (mem c)); try done; [apply Ht|by left].
Qed.

Lemma writes_after c val base n v c1 val1 c2 :
  after c val c1 val1 -> writes c1 val1 base n v c2 ->
  exists val', after c val c2 val' /\ tracks (set_cap_mem c2 (store (mem c) (base + 8 * n) v)) val' base.
Proof.
  intros Haf [H1 H2]. exists val1. split; [by eapply after_trans|].
  by rewrite (after_mem _ _ _ _ Haf) in H2.
Qed.
End runs.

(** ** Recording the instructions on registers *)

Section instructions.
Context {H : Type} `{HeapOps H} {A : Type} `{AsmOps A} (fuel : nat).
Abbreviation Cap := (Capability H (Jit A)).
Abbreviation code c := (b_code (buf (jit c))).
Abbreviation stack c := (b_slots (buf (jit c))).
Implicit Types (c : Cap).

(** The instruction has been recorded; the interpreter will leave the
    memory [m]. *)
Definition recorded (c : Cap) (val : Z -> Z) (base : Z) (m : memory) (c' : Cap) (e : ins_end) : Prop :=
  e = Recorded /\ exists val', after c val c' val' /\ tracks (set_cap_mem c' m) val' base.

Lemma put_result c val base c1 val1 n tr v :
  after c val c1 val1 -> tracks c1 val1 base -> in_range c n ->
  operand (code c1) (TRef.ref tr) -> val1 (TRef.ref tr) = v ->
  runs (let* _ := r_setSlot n tr in rret Recorded)%rec c1
    (recorded c val base (store (mem c) (base + 8 * n) v)).
Proof.
  intros Haf Ht Hr Ho Hv. eapply runs_bind.
  - apply (r_setSlot_spec c1 val1 base n tr v); try done. by eapply in_range_after.
  - intros c2 [] Hw. apply runs_ret. split; [done|]. by eapply writes_after.
Qed.

Lemma rec_mov_spec c val base n a v :
  tracks c val base -> in_range c n -> in_range c a -> load (mem c) (base + 8 * n) = Ok v ->
  runs (let* x := r_slot n in let* _ := r_setSlot a x in rret Recorded)%rec c
    (recorded c val base (store (mem c) (base + 8 * a) v)).
Proof.
  intros Ht Hn Ha Hv. eapply runs_bind; [by apply r_slot_spec|].
  intros c1 tr (val1 & Haf & Ht1 & Ho & Hval). by eapply put_result.
Qed.

(** Two registers, then [k]. *)
Lemma two_slots {X} c val base b d x y (k : Z -> Z -> RM H A X) Q :
  tracks c val base -> in_range c b -> in_range c d ->
  load (mem c) (base + 8 * b) = Ok x -> load (mem c) (base + 8 * d) = Ok y ->
  (forall c2 val2 t1 t2, after c val c2 val2 -> tracks c2 val2 base ->
     operand (code c2) (TRef.ref t1) -> operand (code c2) (TRef.ref t2) ->
     val2 (TRef.ref t1) = x -> val2 (TRef.ref t2) = y -> runs (k t1 t2) c2 Q) ->
  runs (let* t1 := r_slot b in let* t2 := r_slot d in k t1 t2)%rec c Q.
Proof.
  intros Ht Hb Hd Hx Hy Hk. eapply runs_bind; [by apply r_slot_spec|].
  intros c1 t1 (val1 & Haf & Ht1 & Ho1 & Hv1). eapply runs_bind.
  - apply (r_slot_spec c1 val1 base d y); try done; [by eapply in_range_after|].
    by rewrite (after_mem _ _ _ _ Haf).
  - intros c2 t2 (val2 & Haf2 & Ht2 & Ho2 & Hv2).
    destruct (after_operand _ _ _ _ _ Haf2 Ho1) as [Ho1' E].
    apply (Hk c2 val2); try done; [by eapply after_trans|congruence].
Qed.

Lemma rec_rrr_spec c val base irop a b d x y v :
  tracks c val base -> in_range c a -> in_range c b -> in_range c d ->
  load (mem c) (base + 8 * b) = Ok x -> load (mem c) (base + 8 * d) = Ok y ->
  arith irop x y = Some v ->
  runs (rec_rrr irop a b d) c (recorded c val base (store (mem c) (base + 8 * a) v)).
Proof using Type.
  intros Ht Ha Hb Hd Hx Hy Hv. apply (two_slots c val base b d x y); try done.
  intros c2 val2 t1 t2 Haf Ht2 Ho1 Ho2 E1 E2. eapply runs_bind.
  - apply (r_emit_arith c2 val2 base irop t1 t2 v); try done. by rewrite E1, E2.
  - intros c3 t3 (val3 & Haf3 & Ht3 & Ho3 & Hv3). eapply put_result; try done. by eapply after_trans.
Qed.

Lemma rec_rr_spec c val base irop a d x v :
  tracks c val base -> in_range c a -> in_range c d -> is_unary irop = true ->
  load (mem c) (base + 8 * d) = Ok x -> (forall y, arith irop x y = Some v) ->
  runs (rec_rr irop a d) c (recorded c val base (store (mem c) (base + 8 * a) v)).
Proof using Type.
  intros Ht Ha Hd Hun Hx Hv. eapply runs_bind; [by apply r_slot_spec|].
  intros c1 t1 (val1 & Haf & Ht1 & Ho1 & Hv1). eapply runs_bind.
  - apply (r_emit_arith c1 val1 base irop t1 TRef.none v); try done; [congruence|by rewrite Hv1].
  - intros c2 t2 (val2 & Haf2 & Ht2 & Ho2 & Hv2). eapply put_result; try done. by eapply after_trans.
Qed.

Lemma rec_cond_spec c val base op a d x y t :
  tracks c val base -> in_range c a -> in_range c d ->
  load (mem c) (base + 8 * a) = Ok x -> load (mem c) (base + 8 * d) = Ok y ->
  branch_cond op x y = Some t ->
  runs (rec_cond op base a d) c (recorded c val base (mem c)).
Proof using Type.
  intros Ht Ha Hd Hx Hy Hb. pose proof (tk_words _ _ _ Ht _ _ Hx) as Wx.
  pose proof (tk_words _ _ _ Ht _ _ Hy) as Wy.
  destruct (cond_direction op x y t Wx Wy Hb) as (He & irop & Hc & Hdir). unfold rec_cond.
  eapply runs_bind; [by apply (runs_lift _ c (fun c' z => c' = c /\ z = x) x)|]. intros ? ? [-> ->].
  eapply runs_bind; [by apply (runs_lift _ c (fun c' z => c' = c /\ z = y) y)|]. intros ? ? [-> ->].
  eapply runs_bind; [by apply (runs_lift _ c (fun c' z => c' = c /\ z = t) t)|]. intros ? ? [-> ->].
  apply (two_slots c val base a d x y); try done.
  intros c2 val2 t1 t2 Haf Ht2 Ho1 Ho2 E1 E2.
  eapply runs_bind; [apply (runs_lift _ c2 (fun c' z => c' = c2 /\ z = irop) irop); [by rewrite Hc|done]|].
  intros ? ? [-> ->]. eapply runs_bind.
  - apply (r_emit_condition c2 val2 base irop t1 t2); try done.
    rewrite E1, E2, Hdir by done. by rewrite bool_decide_eq_true_2.
  - intros c3 ? (val3 & Haf3 & Ht3). apply runs_ret. split; [done|]. exists val3.
    split; [by eapply after_trans|].
    replace (mem c) with (mem c3); [by destruct c3|].
    by rewrite (after_mem _ _ _ _ Haf3), (after_mem _ _ _ _ Haf).
Qed.
End instructions.

Section more_instructions.
Context {H : Type} `{HeapOps H} {A : Type} `{AsmOps A} (fuel : nat).
Abbreviation Cap := (Capability H (Jit A)).
Abbreviation code c := (b_code (buf (jit c))).
Abbreviation stack c := (b_slots (buf (jit c))).
Implicit Types (c : Cap).

(** The literal [d] of the current code: its word and the type the
    recorder gives it. *)
Definition literal_at (m : memory) (code_info d : Z) (v : Z) (ty : IRType) : Prop :=
  exists info k t, info_at m code_info = Ok info /\ it_code info = Some k
    /\ load m (lits k + 8 * d) = Ok v /\ littypes k !! Z.to_nat d = Some t /\ littypeToIRType t = ty.

Lemma runs_pure {X Y} (f : Cap -> outcome X) x (k : X -> RM H A Y) c Q :
  f c = Ok x -> runs (k x) c Q -> runs (rbind (lift f) k) c Q.
Proof. intros Hf Hk. unfold runs, rbind, lift. rewrite Hf. exact Hk. Qed.

Lemma rec_LOADK_spec c val base code_info a d v ty :
  tracks c val base -> in_range c a -> literal_at (mem c) code_info d v ty ->
  readable (IRType_num ty) v ->
  runs (rec_LOADK code_info a d) c (recorded c val base (store (mem c) (base + 8 * a) v)).
Proof using Type.
  intros Ht Ha (info & k & t & Hi & Hk & Hl & Hty & <-) Hrd. unfold rec_LOADK.
  apply (runs_pure _ k); [by rewrite Hi; cbn; rewrite Hk|].
  apply (runs_pure _ v); [done|]. apply (runs_pure _ t); [by rewrite Hty|].
  eapply runs_bind; [apply (r_literal_spec c val base _ v); try done; by eapply tk_words|].
  intros c1 tr (val1 & Haf & Ht1 & Ho & Hv). by eapply put_result.
Qed.

Definition result_slot c (d : Z) : Z := as_top (stack c) - as_base (stack c) + FRAME_SIZE + d.
Lemma result_address c val base d :
  tracks c val base -> t_top (currentThread c) + 8 * (FRAME_SIZE + d) = base + 8 * result_slot c d.
Proof.
  intros Ht. rewrite (tk_top _ _ _ Ht), (tk_base _ _ _ Ht). unfold slot_addr, result_slot. lia.
Qed.

Lemma rec_MOV_RES_spec c val base a d v :
  tracks c val base -> in_range c a -> in_range c (result_slot c d) ->
  load (mem c) (t_top (currentThread c) + 8 * (FRAME_SIZE + d)) = Ok v ->
  runs (rec_MOV_RES a d) c (recorded c val base (store (mem c) (base + 8 * a) v)).
Proof using Type.
  intros Ht Ha Hr Hv. rewrite (result_address c val base d Ht) in Hv. unfold rec_MOV_RES, r_top.
  eapply runs_pure; [done|]. eapply runs_bind; [by apply (r_slot_spec c val base _ v)|].
  intros c1 tr (val1 & Haf & Ht1 & Ho & Hval). eapply runs_bind.
  - apply (r_clearSlot_spec c1 val1 base (result_slot c d)); [done|]. by eapply in_range_after.
  - intros c2 [] [Haf2 Ht2]. destruct (after_operand _ _ _ _ _ Haf2 Ho) as [Ho2 E].
    eapply put_result; try done. by eapply after_trans.
Qed.

(** The frame a function enters is the current one. *)
Lemma rec_FUNC_spec c val base a :
  tracks c val base -> 8 * a = t_top (currentThread c) - base ->
  runs (let* _ := r_frame base (base + 8 * a) in rret Recorded)%rec c (recorded c val base (mem c)).
Proof.
  intros Ht Ha. pose proof Ht as [Hc Hm Hl Hb Htop Hal Hw Hs].
  assert (Hnb : kInitialBase + (base - as_realOrigBase (stack c)) / 8 = as_base (stack c)).
  { rewrite Hb. unfold slot_addr.
    replace (as_realOrigBase (stack c) + 8 * (as_base (stack c) - kInitialBase) - as_realOrigBase (stack c))
      with ((as_base (stack c) - kInitialBase) * 8) by lia. rewrite Z.div_mul by lia. lia. }
  assert (Hnt : as_base (stack c) + (base + 8 * a - base) / 8 = as_top (stack c)).
  { replace (base + 8 * a - base) with (a * 8) by lia. rewrite Z.div_mul by lia.
    rewrite Htop, Hb in Ha. unfold slot_addr in Ha. lia. }
  unfold runs, rbind, r_frame, on_buf, AbstractStack.frame. rewrite Hnb.
  destruct (as_base (stack c) <? 3); cbn; (split; [done|]; exists val; split).
  - apply after_slots; done.
  - by split.
  - rewrite Hnt. apply after_slots; done.
  - rewrite Hnt. split; try done. by apply (models_stack _ (stack c)).
Qed.
End more_instructions.

(** ** One step of the interpreter while recording *)

(** The instructions on registers: moves, literals, results, function
    entries, jumps, 64-bit arithmetic and the branches. *)
Definition on_registers (op : BcIns.Opcode) : bool :=
  match op with
  | BcIns.kMOV | BcIns.kLOADSLF | BcIns.kLOADK | BcIns.kMOV_RES | BcIns.kFUNC | BcIns.kIFUNC
  | BcIns.kJMP | BcIns.kADDRR | BcIns.kSUBRR | BcIns.kMULRR | BcIns.kBAND | BcIns.kBOR
  | BcIns.kBXOR | BcIns.kNEG | BcIns.kBNOT => true
  | _ => bool_decide (is_Some (branch_cond op 0 0))
  end.

Lemma opB_b w : opB (BcIns.d w) = BcIns.b w.
Proof.
  unfold opB, BcIns.d, BcIns.b, u2, u1, to_u. rewrite <- !Z.land_ones by lia. bitblast.Z.bitblast.
Qed.

Lemma land_word x y : 0 <= x < 2 ^ 64 -> u8 (Z.land x y) = Z.land x y.
Proof.
  intros Hx. unfold u8, to_u. rewrite <- Z.land_ones by lia.
  rewrite <- Z.land_assoc, (Z.land_comm y), Z.land_assoc, Z.land_ones by lia.
  by rewrite (Z.mod_small x).
Qed.
Lemma lor_word x y : 0 <= x < 2 ^ 64 -> 0 <= y < 2 ^ 64 -> u8 (Z.lor x y) = Z.lor x y.
Proof.
  intros Hx Hy. unfold u8, to_u. rewrite <- Z.land_ones, Z.land_lor_distr_l by lia.
  by rewrite !Z.land_ones, !Z.mod_small by lia.
Qed.
Lemma lxor_word x y : 0 <= x < 2 ^ 64 -> 0 <= y < 2 ^ 64 -> u8 (Z.lxor x y) = Z.lxor x y.
Proof.
  intros Hx Hy. unfold u8, to_u. rewrite <- Z.land_ones by lia.
  rewrite <- (Z.mod_small x (2 ^ 64)) at 2 by lia. rewrite <- (Z.mod_small y (2 ^ 64)) at 2 by lia.
  rewrite <- !Z.land_ones by lia. bitblast.Z.bitblast.
Qed.

Lemma mul_word x y : u8 (i8 x * i8 y) = u8 (x * y).
Proof.
  unfold u8, i8. rewrite <- (to_u_mul 64 ltac:(lia) (to_s 64 x)), to_s_congr, to_u_mul by lia.
  by rewrite <- (to_u_mul_r 64 ltac:(lia) x (to_s 64 y)), to_s_congr, to_u_mul_r by lia.
Qed.
Lemma neg_word x : u8 (- i8 x) = u8 (- x).
Proof.
  unfold u8, i8. rewrite <- (to_u_opp 64 ltac:(lia) (to_s 64 x)), to_s_congr by lia.
  by rewrite to_u_opp by lia.
Qed.

(** Where both define it, the interpreter's operation is the trace's. *)
Lemma alu_arith op irop x y v :
  0 <= x < 2 ^ 64 -> 0 <= y < 2 ^ 64 -> arith_op op = Some irop -> on_registers op = true ->
  alu op x y = Some (Ok v) -> arith irop x y = Some v.
Proof.
  intros Hx Hy Ho Hr Hv. destruct op; try done; cbn in *; simplify_eq; cbn; f_equal;
    auto using land_word, lor_word, lxor_word, eq_sym, mul_word.
Qed.

Section follows.
Context {H : Type} `{HeapOps H} {A : Type} `{AsmOps A} `{MachineOps H A}.
Context (reload_state_pc : Z) (fuel : nat).
#[local] Instance recorder_ops : JitOps H (Jit A) := jit_ops fuel.
Abbreviation Cap := (Capability H (Jit A)).
Abbreviation stack c := (b_slots (buf (jit c))).
Implicit Types (s : vm H (Jit A)) (c : Cap).

(** The literal [d] of the current code has a type the trace can hold. *)
Definition literal_readable (m : memory) (code_info d : Z) : Prop :=
  exists info k t, info_at m code_info = Ok info /\ it_code info = Some k
    /\ littypes k !! Z.to_nat d = Some t
    /\ forall v, load m (lits k + 8 * d) = Ok v -> readable (IRType_num (littypeToIRType t)) v.

(** The slots an instruction reads and writes. *)
Definition registers c (w : Z) (op : BcIns.Opcode) : list Z :=
  match op with
  | BcIns.kFUNC | BcIns.kIFUNC | BcIns.kJMP => []
  | BcIns.kLOADK => [BcIns.a w]
  | BcIns.kLOADSLF => [BcIns.a w; -1]
  | BcIns.kMOV_RES => [BcIns.a w; result_slot c (BcIns.d w)]
  | BcIns.kADDRR | BcIns.kSUBRR | BcIns.kMULRR | BcIns.kBAND | BcIns.kBOR | BcIns.kBXOR =>
      [BcIns.a w; BcIns.b w; BcIns.c w]
  | _ => [BcIns.a w; BcIns.d w]
  end.

(** What the interpreter does. *)
Lemma branch_effect s op D a s1 r :
  op_branch s op a D = Some r -> r = Ok (Continue s1) ->
  exists x y t, reg s a = Ok x /\ reg s D = Ok y /\ branch_cond op x y = Some t /\ memof s1 = memof s.
Proof using Type.
  unfold op_branch. intros Hr E. destruct (branch_cond op 0 0) eqn:Hb; [|done].
  injection Hr as <-. apply obind_ok in E as (x & Hx & E). apply obind_ok in E as (y & Hy & E).
  exists x, y. destruct (branch_cond op x y) as [t|] eqn:Ht; [|by destruct op]. exists t.
  split_and!; try done. destruct t; cbn in E; inv_ok; done.
Qed.
Lemma rrr_effect s op D a s1 r :
  op_rrr s op a D = Some r -> r = Ok (Continue s1) ->
  exists x y v, reg s (opB D) = Ok x /\ reg s (opC D) = Ok y /\ alu op x y = Some (Ok v)
    /\ memof s1 = store (memof s) (base s + 8 * a) v.
Proof using Type.
  unfold op_rrr. intros Hr E. destruct (alu op 0 0) eqn:Hb; [|done].
  injection Hr as <-. apply obind_ok in E as (x & Hx & E). apply obind_ok in E as (y & Hy & E).
  apply obind_ok in E as (v & Hv & E). injection E as <-. exists x, y, v.
  destruct (alu op x y) as [u|] eqn:Ha; [|done]. cbn in Hv. by subst.
Qed.

(** Instructions on registers do not look at the recorder, and change
    memory and [pc] only. *)
Definition swap_jit s (j : Jit A) : vm H (Jit A) := set_cap s (set_cap_jit (cap s) j).
Ltac case_reads :=
  repeat match goal with
         | |- context [obind (load ?m ?a) _] => destruct (load m a); cbn [obind]
         | |- context [obind (load_ins ?m ?a) _] => destruct (load_ins m a); cbn [obind]
         | |- context [obind (info_at ?m ?a) _] => destruct (info_at m a); cbn [obind]
         | |- context [obind (of_option ?e ?o) _] => destruct (of_option e o); cbn [obind]
         | |- context [if ?b then _ else _] => destruct b; cbn [obind]
         end.
Lemma exec_swap s op a D j :
  on_registers op = true ->
  match exec reload_state_pc fuel s op a D with
  | Ok (Continue s1) =>
      exec reload_state_pc fuel (swap_jit s j) op a D = Ok (Continue (swap_jit s1 j))
      /\ base s1 = base s /\ T s1 = T s /\ jit (cap s1) = jit (cap s)
      /\ cap s1 = set_cap_mem (cap s) (memof s1)
  | _ => True
  end.
Proof using Type.
  intros Hon. destruct s as [[] ? ? ? ? ? ? ?].
  destruct op; try done; unfold exec, op_LOADK, op_MOV_RES, op_LOADSLF, op_FUNC, op_JMP, code_of;
    cbn [op_branch op_rr op_rrr branch_cond alu1 alu op_other]; unfold op_LOADK, op_MOV_RES, op_LOADSLF,
    op_FUNC, op_JMP, code_of, reg; cbn; case_reads; done.
Qed.

(** The recorder's side of one instruction: [m] is the memory that the
    interpreter leaves. *)
Lemma rec_switch_follows s w op s1 c val :
  mem c = memof s -> currentThread c = T s ->
  BcIns.opcode w = Some op -> on_registers op = true ->
  tracks c val (base s) -> Forall (in_range c) (registers c w op) ->
  (op = BcIns.kLOADK -> literal_readable (memof s) (code_info s) (BcIns.d w)) ->
  exec reload_state_pc fuel s op (BcIns.a w) (BcIns.d w) = Ok (Continue s1) ->
  runs (rec_switch fuel w (pc s - 4) (base s) (code_info s)) c (recorded c val (base s) (memof s1)).
Proof.
  intros Hm HT Hop Hon Ht Hin Hlit Hex. unfold rec_switch. rewrite Hop.
  assert (Hread : forall n v, reg s n = Ok v -> load (mem c) (base s + 8 * n) = Ok v)
    by (intros n v; by rewrite Hm).
  unfold exec in Hex.
  destruct (op_branch s op (BcIns.a w) (BcIns.d w)) as [r|] eqn:Hbr.
  { destruct (branch_effect _ _ _ _ _ _ Hbr Hex) as (x & y & t & Hx & Hy & Ht' & ->). rewrite <- Hm.
    assert (Hregs : in_range c (BcIns.a w) /\ in_range c (BcIns.d w)).
    { destruct op; try done; cbn [registers] in Hin; rewrite !Forall_cons in Hin; tauto. }
    destruct Hregs.
    assert (Hc : runs (rec_cond op (base s) (BcIns.a w) (BcIns.d w)) c (recorded c val (base s) (mem c)))
      by (eapply rec_cond_spec; eauto).
    by destruct op. }
  destruct (arith_op op) as [irop|] eqn:Har.
  { assert (Hrr : op_rr s op (BcIns.a w) (BcIns.d w) = None) by by destruct op. rewrite Hrr in Hex.
    destruct (op_rrr s op (BcIns.a w) (BcIns.d w)) as [r|] eqn:Hrrr; [|by destruct op].
    destruct (rrr_effect _ _ _ _ _ _ Hrrr Hex) as (x & y & v & Hx & Hy & Hv & ->). rewrite <- Hm.
    rewrite opB_b in Hx. rewrite opC_c in Hy. apply Hread in Hx, Hy.
    assert (Hregs : in_range c (BcIns.a w) /\ in_range c (BcIns.b w) /\ in_range c (BcIns.c w)).
    { destruct op; try done; cbn [registers] in Hin; rewrite !Forall_cons in Hin; tauto. }
    destruct Hregs as (? & ? & ?).
    assert (Hc : runs (rec_rrr irop (BcIns.a w) (BcIns.b w) (BcIns.c w)) c
                   (recorded c val (base s) (store (mem c) (base s + 8 * BcIns.a w) v))).
    { eapply rec_rrr_spec; eauto. apply (alu_arith op); try done; by eapply tk_words. }
    destruct op; try done; by rewrite Har. }
  destruct op; try done; cbn [registers] in Hin; rewrite ?Forall_cons in Hin; destruct_and?;
    cbn [op_branch op_rr op_rrr branch_cond alu1 alu op_other] in Hex;
    repeat match goal with
           | E : obind (reg s _) _ = _ |- _ => apply obind_ok in E as (x & Hx & E); apply Hread in Hx
           end.
  - cbn in Hex. injection Hex as <-. cbn. rewrite <- Hm. eapply rec_rr_spec; eauto. intros y. by rewrite neg_word.
  - cbn in Hex. injection Hex as <-. cbn. rewrite <- Hm. eapply rec_mov_spec; eauto.
  - unfold op_MOV_RES in Hex. inv_ok. cbn. rewrite <- Hm in *. rewrite <- HT in *.
    eapply rec_MOV_RES_spec; eauto.
  - unfold op_LOADSLF in Hex. apply obind_ok in Hex as (x & Hx & Hex). apply Hread in Hx. inv_ok.
    cbn. rewrite <- Hm. eapply rec_mov_spec; eauto.
  - cbn in Hex. injection Hex as <-. cbn. rewrite <- Hm. eapply rec_rr_spec; eauto.
  - destruct (Hlit eq_refl) as (info & k & t & Hi & Hk & Ht' & Hrd).
    unfold op_LOADK, code_of in Hex. rewrite Hi in Hex. cbn [obind] in Hex. rewrite Hk in Hex.
    cbn [of_option obind] in Hex. destruct (BcIns.d w <? sizelits k); [|done].
    apply obind_ok in Hex as (v & Hv & Hex). injection Hex as <-. cbn. rewrite <- Hm in *.
    eapply rec_LOADK_spec; eauto. by exists info, k, t.
  - unfold op_JMP in Hex. inv_ok. apply runs_ret. split; [done|]. exists val.
    split; [apply after_refl|]. cbn. rewrite <- Hm. by destruct c.
  - unfold op_FUNC in Hex. inv_ok. rewrite <- Hm. apply rec_FUNC_spec; [done|]. rewrite HT. lia.
  - unfold op_FUNC in Hex. inv_ok. rewrite <- Hm. apply rec_FUNC_spec; [done|]. rewrite HT. lia.
Qed.

(** Recording goes on, and the last instruction was no branch. *)
Definition in_trace (j : Jit A) : Prop :=
  recording j = true /\ shouldAbort j = false /\ Flags32.get (jflags j) kLastInsWasBranch = false.

Lemma get_clear f : Flags32.get (Flags32.clear f kLastInsWasBranch) kLastInsWasBranch = false.
Proof. unfold Flags32.get, Flags32.clear. by rewrite <- Z.land_assoc, Z.land_0_r. Qed.

(** The state in which the recorder reaches its switch. *)
Definition at_switch s : Cap :=
  set_cap_jit (cap s)
    (set_jflags (rec_begin_ins (pc s - 4) (jit (cap s)))
       (Flags32.clear (jflags (jit (cap s))) kLastInsWasBranch)).

Lemma recordIns_at_switch s w :
  load_ins (memof s) (pc s - 4) = Ok w -> in_trace (jit (cap s)) ->
  recordIns_body fuel (pc s - 4) (base s) (code_info s) (cap s)
  = rec_switch fuel w (pc s - 4) (base s) (code_info s) (at_switch s).
Proof using Type.
  intros Hw (Hrec & Hab & Hbr). unfold recordIns_body, rbind, get_jit, mod_jit. cbn [obind].
  rewrite Hab, Hbr. cbn [obind rret]. cbn. rewrite Hrec. unfold rbind, lift. cbn. by rewrite Hw.
Qed.

(** C3: one step of the interpreter while recording, for the instructions
    on registers: the machine does what it does without the recorder, and
    the trace with one more instruction still tracks it, with values that
    extend the old ones; in particular the guards added for branches hold. *)
Theorem recording_follows s val w op s1 :
  load_ins (memof s) (pc s - 4) = Ok w -> BcIns.opcode w = Some op -> on_registers op = true ->
  in_trace (jit (cap s)) -> tracks (cap s) val (base s) ->
  Forall (in_range (cap s)) (registers (cap s) w op) ->
  (op = BcIns.kLOADK -> literal_readable (memof s) (code_info s) (BcIns.d w)) ->
  exec reload_state_pc fuel s op (BcIns.a w) (BcIns.d w) = Ok (Continue s1) ->
  returns (fun r => exists j val', r = Continue (swap_jit s1 j) /\ in_trace j
      /\ tracks (cap (swap_jit s1 j)) val' (base s1)
      /\ code_ext (b_code (buf (jit (cap s)))) (b_code (buf j))
      /\ agree (b_code (buf (jit (cap s)))) val val')
    (exec_record reload_state_pc fuel s (BcIns.a w) (BcIns.d w)).
Proof using Type.
  intros Hw Hop Hon Hin Ht Hregs Hlit Hex.
  pose proof (exec_swap s op (BcIns.a w) (BcIns.d w)) as Hswap. rewrite Hex in Hswap.
  assert (Ht' : tracks (at_switch s) val (base s)) by (destruct Ht; by split).
  assert (Hregs' : Forall (in_range (at_switch s)) (registers (at_switch s) w op)) by by destruct op.
  assert (Hrun := rec_switch_follows s w op s1 (at_switch s) val eq_refl eq_refl Hop Hon Ht' Hregs' Hlit Hex).
  unfold runs in Hrun. rewrite <- (recordIns_at_switch s w) in Hrun by done.
  unfold exec_record. cbn [j_recordIns recorder_ops jit_ops]. unfold recordIns.
  destruct (recordIns_body _ _ _ _ _) as [[c' [e|]]|]; [|done|done].
  cbn [returns obind] in *. destruct Hrun as (-> & val' & [Hst Hext Hag _] & Htr). cbn [obind].
  destruct (Hswap (jit c') Hon) as (Hex' & Hb & HT & Hj & Hcap).
  assert (Hc' : set_cap s c' = swap_jit s (jit c')) by (unfold swap_jit; by rewrite Hst).
  rewrite Hc'. change (pc (swap_jit s (jit c'))) with (pc s).
  change (memof (swap_jit s (jit c'))) with (memof s). rewrite Hw. cbn [obind]. rewrite Hop.
  cbn [of_option obind]. rewrite Hex'. cbn [returns]. exists (jit c'), val'. rewrite Hb.
  split_and!; try done.
  - rewrite Hst. destruct Hin as (? & ? & ?). split_and!; try done. apply get_clear.
  - change (cap (swap_jit s1 (jit c'))) with (set_cap_jit (cap s1) (jit c')). rewrite Hcap.
    replace (set_cap_jit (set_cap_mem (cap s) (memof s1)) (jit c')) with (set_cap_mem c' (memof s1)); [done|].
    by rewrite Hst.
Qed.
End follows.

(** ** The start of a trace *)

Section begin.
Context {H : Type} `{HeapOps H} {A : Type}.
Implicit Types (c : Capability H (Jit A)).

(** The value of the literals; the other references have none yet. *)
Definition literal_values (code : IRCode) (s : AbstractStack) (r : Z) : Z :=
  match literalValue code s r with Ok v => v | Err _ => 0 end.

Lemma literal_values_models code s :
  (forall r, valid code r -> ir_o (raw_ir code r) = kBASE \/ is_literal_op (ir_o (raw_ir code r)) = true) ->
  models code s (literal_values code s).
Proof.
  intros Hk. assert (Hn : forall r val, valid code r ->
    meaning val (raw_ir code r) = None /\ holds val (raw_ir code r) = None).
  { intros r val Hr. unfold meaning, holds. destruct (Hk r Hr) as [->|Hl]; [done|].
    by destruct (ir_o _). }
  unfold literal_values. split; intros r.
  - intros _. destruct (literalValue _ _ _) eqn:E; [by eapply literalValue_bound|lia].
  - intros v _ ->. done.
  - intros v Hr. by rewrite (proj1 (Hn r _ Hr)).
  - intros t Hr. by rewrite (proj2 (Hn r _ Hr)).
Qed.

Lemma btb_reset_total pc : exists s t, CallStack.reset = Ok s /\ BTB.reset s pc = Ok t.
Proof. eexists _, _. split; reflexivity. Qed.

(** C26: [beginRecording] starts a trace that describes the machine: no
    slot has a reference yet, the buffer is well-formed, and the abstract
    stack has the frame of the thread.  From here on the instructions of
    the interpreter are followed one by one. *)
Theorem beginRecording_tracks c pc base isReturn :
  recording (jit c) = false -> targets (jit c) = [] ->
  0 <= stg_IND_info (misc c) < 2 ^ 63 ->
  base <= t_top (currentThread c) -> (t_top (currentThread c) - base) / 8 < kSlots - kInitialBase ->
  is_aligned base 8 = true -> is_aligned (t_top (currentThread c)) 8 = true ->
  (forall a v, load (mem c) a = Ok v -> 0 <= v < 2 ^ 64) ->
  exists j val, beginRecording c pc base isReturn = Ok (set_cap_jit c j)
    /\ in_trace j /\ startPc j = pc /\ traceType j = TT_ROOT /\ parent j = None
    /\ Flags32.get (jflags j) kIsReturnTrace = isReturn
    /\ tracks (set_cap_jit c j) val base.
Proof using Type.
  intros Hrec Htg Hi Hb Ht Hal Halt Hw. unfold beginRecording. rewrite Hrec. cbn [negb].
  rewrite bool_decide_eq_true_2 by done. unfold initRecording.
  destruct (reset_spec _ _ _ Hi Hb Ht) as (b & -> & Hc & Hlit & _ & (_ & Hraw & _) & Hslots). cbn [obind].
  pose proof (f_equal ir_o Hraw : ir_o _ = kBASE) as Hbase.
  destruct (btb_reset_total pc) as (s & t & -> & Hbtb). cbn [obind]. rewrite Hbtb. cbn [obind].
  eexists _, (literal_values (b_code b) (b_slots b)). split; [done|].
  split_and!; try done.
  - split_and!; [done|done|]. by destruct isReturn.
  - by destruct isReturn.
  - unfold AbstractStack.reset in Hslots. rewrite (proj2 (Z.leb_le _ _) Hb) in Hslots. cbv zeta in Hslots.
    destruct (_ <? kSlots); [|done]. injection Hslots as Hslots.
    unfold is_aligned in Hal, Halt. apply Z.eqb_eq in Hal, Halt.
    split; cbn; try done; rewrite <- ?Hslots; cbn [as_slots as_base as_top].
    + apply literal_values_models. intros r Hr. destruct (Hlit r Hr) as [->|?]; auto.
    + reflexivity.
    + unfold slot_addr. cbn. lia.
    + unfold slot_addr. cbn. Z.div_mod_to_equations. lia.
    + unfold is_aligned. by apply Z.eqb_eq.
    + intros n tr Hn. change (replicate 500 0 !! n = Some tr) in Hn.
      apply lookup_replicate in Hn as [-> _]. by left.
Qed.
End begin.
