(* ===== verification/ExitProofs.v ===== *)
(** * Exits rebuild the frames of the interpreter

    When the registers and spill slots saved at an exit hold the values
    of the trace's references, restoring the snapshot leaves in memory
    exactly the values of the slots that were written on the trace. *)

From Stdlib Require Import Sorting.Sorted.
From S2P Require Import Prelude Words Bytecode Objects Hotness HeapInterface MiscClosures.
From S2P Require Import Capability.
From S2P Require Import IR Registers.
From S2P Require Import Snapshots.
From S2P Require Import Recorder.
From S2P Require Import TraceExit.

Section restore.
Context (F : Fragment) (ex : ExitState) (base : Z) (val : Z -> Z).
Hypothesis Haligned : is_aligned base 8 = true.

(** The saved state holds the value of each reference. *)
Definition saved (es : list Z) : Prop :=
  Forall (fun w => u2 w <> 0 /\ exit_value F ex base (u2 w) = Ok (val (u2 w))) es.

Lemma restore_slots_spec es m :
  saved es -> StronglySorted (fun a b => signed_slot a < signed_slot b) es ->
  exists m', restore_slots F ex base es m = Ok m'
    /\ (forall w, w ∈ es -> load m' (base + 8 * signed_slot w) = Ok (val (u2 w)))
    /\ (forall a, (forall w, w ∈ es -> a <> base + 8 * signed_slot w) -> load m' a = load m a).
Proof using Haligned.
  intros Hs Hsort. revert m. induction Hsort as [|w es Hsort IH Hlt]; intros m; cbn [restore_slots].
  { exists m. split; [done|]. split; [|done]. intros w Hw. by apply elem_of_nil in Hw. }
  apply Forall_cons in Hs as [(_ & Hv) Hs]. rewrite Hv. fold (signed_slot w). cbn [obind].
  destruct (IH Hs (store m (base + 8 * signed_slot w) (val (u2 w)))) as (m' & -> & Hin & Hout).
  rewrite Forall_forall in Hlt. exists m'. split; [done|]. split.
  - intros x [->|Hx]%elem_of_cons; [|by apply Hin].
    rewrite Hout, load_store_eq; [done|by apply aligned_add|]. intros y Hy. specialize (Hlt y Hy). lia.
  - intros a Ha. rewrite Hout by (intros x Hx; apply Ha; by right).
    apply load_store_ne. intros E. apply (Ha w); [by left|done].
Qed.

(** Memory after the exit, slot by slot. *)
Lemma restore_written s m :
  any_slots s ->
  let es := AbstractStack.snapshot_entries (snapshot_range s) (as_low s) in
  saved es ->
  exists m', restore_slots F ex base es m = Ok m'
    /\ (forall k, written_ref s k <> 0 -> load m' (base + 8 * k) = Ok (val (written_ref s k)))
    /\ (forall a, (forall k, written_ref s k <> 0 -> a <> base + 8 * k) -> load m' a = load m a).
Proof using Haligned.
  intros Hab es Hs. destruct (all_entries s 0 Hab) as (Hsort & _). fold es in Hsort.
  destruct (restore_slots_spec es m Hs Hsort) as (m' & -> & Hin & Hout). exists m'. split; [done|].
  split.
  - intros k Hk. destruct (all_entries s k Hab) as (_ & Hfound & Hnone). fold es in Hfound, Hnone.
    destruct (decide (Exists (fun w => signed_slot w = k) es)) as [Hex|Hno].
    + apply Exists_exists in Hex as (w & Hw & <-). rewrite (Hfound w Hw eq_refl). by apply Hin.
    + destruct Hk. apply Hnone. intros w Hw E. apply Hno, Exists_exists. by exists w.
  - intros a Ha. apply Hout. intros w Hw. apply Ha.
    destruct (all_entries s (signed_slot w) Hab) as (_ & Hfound & _).
    rewrite (Hfound w Hw eq_refl). unfold saved in Hs. rewrite Forall_forall in Hs. by apply Hs.
Qed.
End restore.

(** ** The whole exit *)

Section exits.
Context {H : Type} `{HeapOps H} {A : Type} `{AsmOps A}.
Implicit Types (c : Capability H (Jit A)).

(** The snapshot [n] of [F] is the one taken of the stack [s]. *)
Definition snapshot_of (Fr : Fragment) (sn : Snapshot) (s : AbstractStack) : Prop :=
  exists d rest, fr_snapmap Fr = d ++ AbstractStack.snapshot_entries (snapshot_range s) (as_low s) ++ rest
    /\ sn_mapofs sn = Z.of_nat (length d)
    /\ sn_entries sn = Z.of_nat (length (AbstractStack.snapshot_entries (snapshot_range s) (as_low s))).

Lemma snap_entries_of Fr sn s :
  snapshot_of Fr sn s ->
  snap_entries Fr sn = Ok (AbstractStack.snapshot_entries (snapshot_range s) (as_low s)).
Proof.
  intros (d & rest & Hmap & Ho & Hn). unfold snap_entries. rewrite Hmap, Ho, Hn, !Nat2Z.id.
  rewrite drop_app_length, take_app_length. by rewrite Z.eqb_refl.
Qed.

(** C13: an exit through a guard whose counter does not run out: memory
    then holds, for every slot written on the trace, the value of the
    reference last written to it, everything else is as the trace left
    it, and the thread goes on at the guard's instruction with the
    snapshot's base and frame. *)
Theorem exit_rebuilds_frames c F Fr n ex sn ins s entry_base hp val :
  fragments (jit c) !! Z.to_nat F = Some Fr -> 0 <= n < Fragment.nsnaps Fr ->
  fr_snaps Fr !! Z.to_nat n = Some sn -> Fragment.ir Fr (sn_ref sn) = Ok ins ->
  ir_o ins <> kSAVE -> ir_o ins <> kHEAPCHK -> snd (bumpExitCounter sn) = false ->
  gpr ex !! Z.to_nat RID_BASE = Some entry_base -> gpr ex !! Z.to_nat RID_HP = Some hp ->
  is_aligned entry_base 8 = true -> any_slots s -> snapshot_of Fr sn s ->
  saved Fr ex entry_base val (AbstractStack.snapshot_entries (snapshot_range s) (as_low s)) ->
  exists c', restoreSnapshot c F n ex = Ok c'
    /\ (forall k, written_ref s k <> 0 ->
          load (mem c') (entry_base + 8 * k) = Ok (val (written_ref s k)))
    /\ (forall a, (forall k, written_ref s k <> 0 -> a <> entry_base + 8 * k) ->
          load (mem c') a = load (mem c) a)
    /\ t_pc (currentThread c') = sn_pc sn
    /\ t_base (currentThread c') = entry_base + 8 * sn_relbase sn
    /\ t_top (currentThread c') = entry_base + 8 * sn_relbase sn + 8 * sn_framesize sn
    /\ traceExitHp c' = hp /\ traceExitHpLim c' = hplim ex
    /\ isRecording c' = isRecording c.
Proof.
  intros HF Hn Hsn Hins Hs Hh Hcold Hb Hhp Hal Hab Hof Hsv.
  destruct (restore_written Fr ex entry_base val Hal s (mem c) Hab Hsv) as (m' & Hm' & Hin & Hout).
  unfold restoreSnapshot. rewrite HF. cbn [of_option obind].
  rewrite (proj2 (Z.leb_le _ _)), (proj2 (Z.ltb_lt _ _)) by lia. cbn [andb].
  unfold Fragment.snap. rewrite (proj2 (Z.ltb_lt _ _)), Hsn by lia. cbn [of_option obind].
  rewrite Hins. cbn [obind]. rewrite Hb, Hhp. cbn [of_option obind].
  rewrite !bool_decide_eq_false_2 by done. rewrite (snap_entries_of _ _ s) by done. cbn [obind].
  rewrite Hm'. cbn [obind]. destruct (bumpExitCounter sn) as [sn' hot]. cbn in Hcold. subst hot.
  cbn [negb]. eexists. split; [done|]. by split_and!.
Qed.
End exits.
