(* ===== verification/RecorderProofs.v ===== *)
(** * The recorder as a state machine, and the table of fragments

    Recording starts with [beginRecording] or [beginSideTrace]; each
    instruction is recorded or ends the trace.  The file shows that the
    recorder is idle after every end, whatever the reason, and that the
    table of fragments stays consistent, so that the JFUNC instructions
    patched into the bytecode find their traces. *)

From S2P Require Import Prelude Words Bytecode Objects Hotness HeapInterface MiscClosures.
From S2P Require Import Capability Interp.
From S2P Require Import IR Registers.
From S2P Require Import Fold.
From S2P Require Import CallStack.
From S2P Require Import Recorder.
From S2P Require Import TraceExit.

(** ** Invariants *)

Record traces_ok {A} (j : Jit A) : Prop := {
  to_id : forall i F, fragments j !! i = Some F -> fr_traceId F = Z.of_nat i;
  to_map : forall idx id, fragmentMap j !! idx = Some id ->
    0 <= id /\ exists F, fragments j !! Z.to_nat id = Some F /\ pc_index (fr_startPc F) = idx;
  to_parent : forall i F p, fragments j !! i = Some F -> fr_parent F = Some p -> 0 <= p < Z.of_nat i;
  to_current : forall p, recording j = true -> parent j = Some p ->
    0 <= p < Z.of_nat (length (fragments j))
}.

Record idle {A} (j : Jit A) : Prop := {
  id_recording : recording j = false;
  id_flags : jflags j = 0;
  id_targets : targets j = [];
  id_abort : shouldAbort j = false
}.

(** ** What recording an instruction leaves alone *)

Section keeps.
Context {H A : Type}.
Abbreviation Cap := (Capability H (Jit A)).

Record same_trace (c c' : Cap) : Prop := {
  st_recording : recording (jit c') = recording (jit c);
  st_start : startPc (jit c') = startPc (jit c);
  st_parent : parent (jit c') = parent (jit c);
  st_exit : parentExitNo (jit c') = parentExitNo (jit c);
  st_type : traceType (jit c') = traceType (jit c);
  st_map : fragmentMap (jit c') = fragmentMap (jit c);
  st_fragments : fragments (jit c') = fragments (jit c)
}.
#[local] Instance same_trace_preorder : PreOrder same_trace.
Proof.
  split; [by split|]. intros c c' c'' [] []. split; congruence.
Qed.

Definition keeps {X} (m : RM H A X) : Prop := forall c c' r, m c = Ok (c', r) -> same_trace c c'.

Lemma keeps_bind {X Y} (m : RM H A X) (k : X -> RM H A Y) :
  keeps m -> (forall x, keeps (k x)) -> keeps (rbind m k).
Proof.
  intros Hm Hk c c' r Hr. unfold rbind in Hr. apply obind_ok in Hr as ([c1 [x|]] & H1 & Hr).
  - etransitivity; [by eapply Hm|by eapply Hk].
  - injection Hr as <- <-. by eapply Hm.
Qed.
Lemma keeps_ret {X} (x : X) : keeps (rret x).
Proof. by intros c c' r [= <- <-]. Qed.
Lemma keeps_fail {X} e : keeps (rfail e : RM H A X).
Proof. done. Qed.
Lemma keeps_lift {X} (f : Cap -> outcome X) : keeps (lift f).
Proof. intros c c' r Hr. unfold lift in Hr. by inv_ok. Qed.
Lemma keeps_get : keeps (get_jit : RM H A _).
Proof. by intros c c' r [= <- <-]. Qed.
Lemma keeps_on_buf {X} (f : IRBuffer -> outcome (IRBuffer * X)) : keeps (on_buf f).
Proof. intros c c' r Hr. unfold on_buf in Hr. by inv_ok. Qed.
Lemma keeps_on_buf_unit f : keeps (on_buf_unit f).
Proof. intros c c' r Hr. unfold on_buf_unit in Hr. by inv_ok. Qed.
Lemma keeps_throw f : keeps (on_buf_throw f).
Proof. intros c c' r Hr. unfold on_buf_throw in Hr. by inv_ok. Qed.
Lemma keeps_callStack f : keeps (r_callStack f).
Proof. intros c c' r Hr. unfold r_callStack in Hr. by inv_ok. Qed.
Lemma keeps_mod f :
  (forall j, recording (f j) = recording j /\ startPc (f j) = startPc j /\ parent (f j) = parent j
     /\ parentExitNo (f j) = parentExitNo j /\ traceType (f j) = traceType j
     /\ fragmentMap (f j) = fragmentMap j /\ fragments (f j) = fragments j) ->
  keeps (mod_jit f).
Proof. intros Hf c c' r [= <- <-]. destruct (Hf (jit c)) as (? & ? & ? & ? & ? & ? & ?). by split. Qed.
Lemma keeps_abort {X} reason (x : X) : keeps (abort_with reason x).
Proof. apply keeps_bind; [by apply keeps_mod|]. intros. apply keeps_ret. Qed.

Lemma keeps_rseq (l : list (RM H A ())) : Forall keeps l -> keeps (rseq l).
Proof. induction 1; cbn; [apply keeps_ret|]. apply keeps_bind; auto. Qed.
Lemma keeps_for start stop (body : Z -> RM H A ()) : (forall i, keeps (body i)) -> keeps (r_for start stop body).
Proof. intros Hb. apply keeps_rseq, Forall_map, Forall_true. intros. apply Hb. Qed.
End keeps.
Create HintDb keeps discriminated.
#[export] Hint Resolve keeps_ret keeps_fail keeps_lift keeps_get keeps_on_buf keeps_on_buf_unit
  keeps_throw keeps_callStack keeps_abort : keeps.

(** [keeps] goes through the structure of a recorder function. *)
Ltac keeps_step :=
  first
    [ solve [auto with keeps]
    | apply keeps_bind; [|intros ?]
    | apply keeps_for; intros ?
    | match goal with
      | |- keeps (match ?x with _ => _ end) => destruct x
      | |- keeps (let _ := _ in _) => cbv zeta
      end ].
Ltac keeps := repeat keeps_step.

Section helpers.
Context {H A : Type}.
Abbreviation keeps' m := (keeps (H := H) (A := A) m).

Lemma keeps_emit op t a1 a2 : keeps' (r_emit op t a1 a2).
Proof. apply keeps_throw. Qed.
Lemma keeps_slot n : keeps' (r_slot n).
Proof. apply keeps_on_buf. Qed.
Lemma keeps_setSlot n tr : keeps' (r_setSlot n tr).
Proof. apply keeps_on_buf_unit. Qed.
Lemma keeps_literal ty v : keeps' (r_literal ty v).
Proof. apply keeps_on_buf. Qed.
Lemma keeps_baseLiteral p : keeps' (r_baseLiteral p).
Proof. apply keeps_on_buf. Qed.
Lemma keeps_heapCheck n : keeps' (r_emitHeapCheck n).
Proof. apply keeps_throw. Qed.
Lemma keeps_NEW itbl n : keeps' (r_emitNEW itbl n).
Proof. apply keeps_on_buf. Qed.
Lemma keeps_setField e i ref : keeps' (r_setField e i ref).
Proof. apply keeps_on_buf_unit. Qed.
Lemma keeps_top : keeps' r_top.
Proof. apply keeps_lift. Qed.
Lemma keeps_frame base top : keeps' (r_frame base top).
Proof. apply keeps_on_buf. Qed.
End helpers.
#[export] Hint Resolve keeps_emit keeps_slot keeps_setSlot keeps_literal keeps_baseLiteral
  keeps_heapCheck keeps_NEW keeps_setField keeps_top keeps_frame : keeps.

Section functions.
Context {H A : Type}.
Abbreviation keeps' m := (keeps (H := H) (A := A) m).

Lemma keeps_loadField r o t : keeps' (loadField r o t).
Proof. unfold loadField. keeps. Qed.
Lemma keeps_info r n : keeps' (specialiseOnInfoTable r n).
Proof. unfold specialiseOnInfoTable. keeps. Qed.
#[local] Hint Resolve keeps_loadField keeps_info : keeps.
Lemma keeps_pap r n : keeps' (specialiseOnPapShape r n).
Proof. unfold specialiseOnPapShape. keeps. Qed.
Lemma keeps_indirections fuel slot cl : keeps' (r_followIndirections fuel slot cl).
Proof.
  revert cl. induction fuel as [|fuel IH]; intros cl; cbn [r_followIndirections]; [keeps|].
  unfold followIndirection. keeps; auto.
Qed.
Lemma keeps_clear i j : keeps' (clearSlots i j).
Proof. unfold clearSlots. keeps. Qed.
Lemma keeps_arg args i : keeps' (argAt args i).
Proof. apply keeps_lift. Qed.
#[local] Hint Resolve keeps_arg : keeps.
Lemma keeps_papArg i n args r : keeps' (papOrDirectArg i n args r).
Proof. unfold papOrDirectArg. keeps. Qed.
Lemma keeps_push base ret node n : keeps' (r_pushFrame base ret node n).
Proof. unfold r_pushFrame. keeps. Qed.
Lemma keeps_set_fields e i fs : keeps' (set_fields e i fs).
Proof. revert i. induction fs; intros i; cbn [set_fields]; keeps; auto. Qed.
Lemma keeps_slots ns : keeps' (slots ns).
Proof. induction ns; cbn [slots]; keeps; auto. Qed.
Lemma keeps_slot_fields e i ns : keeps' (slot_fields e i ns).
Proof. revert i. induction ns; intros i; cbn [slot_fields]; keeps; auto. Qed.
Lemma keeps_pap_fields n k args r : keeps' (pap_fields n k args r).
Proof.
  unfold pap_fields. generalize 0. induction (Z.to_nat n) as [|m IH]; intros i; [keeps|].
  apply keeps_bind; [apply keeps_papArg|]. intros x. case_match; keeps; auto.
Qed.
Lemma keeps_branch : keeps' set_branch.
Proof. by apply keeps_mod. Qed.
Lemma keeps_reg base n : keeps' (r_reg base n).
Proof. apply keeps_lift. Qed.
Lemma keeps_bytes p n : keeps' (arg_bytes p n).
Proof. apply keeps_lift. Qed.
Lemma keeps_type cl : keeps' (r_type cl).
Proof. unfold r_type. keeps. Qed.
Lemma keeps_code cl : keeps' (r_code cl).
Proof. apply keeps_lift. Qed.
End functions.
#[export] Hint Resolve keeps_loadField keeps_info keeps_pap keeps_indirections keeps_clear keeps_arg
  keeps_papArg keeps_push keeps_set_fields keeps_slots keeps_slot_fields keeps_pap_fields keeps_branch
  keeps_reg keeps_bytes keeps_type keeps_code : keeps.

Section instructions.
Context {H : Type} `{HeapOps H} {A : Type} `{AsmOps A} (fuel : nat).
Abbreviation keeps' m := (keeps (H := H) (A := A) m).

Lemma keeps_ApCont n m : keeps' (r_getApCont n m).
Proof using Type. intros c c' r Hr. unfold r_getApCont in Hr. by inv_ok. Qed.
Lemma keeps_ApInfo n m : keeps' (r_getApInfo n m).
Proof using Type. intros c c' r Hr. unfold r_getApInfo in Hr. by inv_ok. Qed.
Lemma keeps_enter base ret node n : keeps' (enter_frame base ret node n).
Proof using Type. unfold enter_frame. keeps. Qed.
Lemma keeps_function pap r : keeps' (function_ref pap r).
Proof using Type. unfold function_ref. keeps. Qed.
Lemma keeps_return_guard base : keeps' (return_guard base).
Proof using Type. unfold return_guard. keeps. Qed.
Lemma keeps_return_frame base : keeps' (return_frame base).
Proof using Type. unfold return_frame. keeps. Qed.
Lemma keeps_return_to e : keeps' (return_to e).
Proof using Type. apply keeps_callStack. Qed.
Lemma keeps_or_abort (m : RM H A bool) : keeps m -> keeps' (or_abort m).
Proof using Type. intros. unfold or_abort. apply keeps_bind; [done|intros ?]. keeps. Qed.
#[local] Hint Resolve keeps_ApCont keeps_ApInfo keeps_enter keeps_function keeps_return_guard
  keeps_return_frame keeps_return_to keeps_or_abort : keeps.

Lemma keeps_apply ci base r n args ret : keeps' (recordGenericApply2 ci base r n args ret).
Proof using Type.
  unfold recordGenericApply2, apply_thunk, apply_exact, apply_over, apply_partial. keeps.
Qed.
#[local] Hint Resolve keeps_apply : keeps.

Lemma keeps_new itbl a regs : keeps' (rec_new itbl a regs).
Proof using Type. unfold rec_new. keeps. Qed.
#[local] Hint Resolve keeps_new : keeps.

(** Everything but JFUNC. *)
Lemma keeps_switch w ins base ci :
  BcIns.opcode w <> Some BcIns.kJFUNC -> keeps' (rec_switch fuel w ins base ci).
Proof using Type.
  intros Hw. unfold rec_switch. destruct (BcIns.opcode w) as [op|]; [|keeps].
  destruct op; try done; try apply keeps_ret;
    unfold rec_LOADK, rec_cond, rec_rrr, rec_rr, rec_PTROFSC, rec_CALLT, rec_CALL, rec_EVAL, rec_RET1,
      rec_RETN, rec_MOV_RES, rec_UPDATE, rec_load, rec_ALLOC1, rec_ALLOC, rec_ALLOCAP, rec_CASE,
      rec_GETTAG; cbn [arith_op]; keeps.
Qed.
End instructions.

(** ** Ends of a trace *)

Section ends.
Context {H : Type} `{HeapOps H} {A : Type} `{AsmOps A} (fuel : nat).
Implicit Types (c : Capability H (Jit A)) (j : Jit A).

Lemma traces_ok_same c c' : same_trace c c' -> traces_ok (jit c) -> traces_ok (jit c').
Proof using Type. intros [] []. split; intros *; rewrite ?st_fragments0, ?st_map0, ?st_recording0, ?st_parent0; eauto. Qed.

Lemma reset_idle j : idle (resetRecorderState j).
Proof using Type. by split. Qed.
Lemma reset_traces j : traces_ok j -> traces_ok (resetRecorderState j).
Proof using Type. by intros []; split. Qed.

(** What [finishRecording] leaves: a new fragment, known by its address
    unless it is a side trace, and the patched start of a root trace. *)
Record finished c c' : Prop := {
  fi_idle : idle (jit c');
  fi_traces : traces_ok (jit c');
  fi_new : exists F, fragments (jit c') = fragments (jit c) ++ [F]
    /\ fr_startPc F = startPc (jit c) /\ fr_parent F = parent (jit c)
    /\ fr_traceId F = Z.of_nat (length (fragments (jit c)));
  fi_map : fragmentMap (jit c')
    = (if bool_decide (traceType (jit c) = TT_SIDE) then fragmentMap (jit c)
       else <[pc_index (startPc (jit c)) := Z.of_nat (length (fragments (jit c)))]> (fragmentMap (jit c)));
  fi_mem : mem c' =
    (if negb (bool_decide (traceType (jit c) = TT_SIDE)) && negb (Flags32.get (jflags (jit c)) kIsReturnTrace)
     then store_ins (mem c) (startPc (jit c))
            (BcIns.ad BcIns.kJFUNC 0 (Z.of_nat (length (fragments (jit c)))))
     else mem c)
}.

Lemma traces_ok_snoc j F (side : bool) :
  traces_ok j -> recording j = true -> fr_traceId F = Z.of_nat (length (fragments j)) ->
  fr_parent F = parent j ->
  traces_ok (set_fragments j
    (if side then fragmentMap j else <[pc_index (fr_startPc F) := fr_traceId F]> (fragmentMap j))
    (fragments j ++ [F])).
Proof using Type.
  intros [Hid Hmap Hpar Hcur] Hrec HF HP. split; cbn.
  - intros i G [Hi|[Hi Hg]]%lookup_app_Some; [auto|].
    apply list_lookup_singleton_Some in Hg as [Hz <-]. rewrite HF. lia.
  - assert (Hold : forall idx id, fragmentMap j !! idx = Some id ->
              0 <= id /\ exists G, (fragments j ++ [F]) !! Z.to_nat id = Some G /\ pc_index (fr_startPc G) = idx).
    { intros idx id Hi. destruct (Hmap idx id Hi) as (Hp & G & Hg & Hs). split; [done|].
      exists G. split; [|done]. by apply lookup_app_l_Some. }
    destruct side; [exact Hold|]. intros idx id. destruct (decide (idx = pc_index (fr_startPc F))) as [->|Hn].
    + rewrite lookup_insert_eq. intros [= <-]. split; [lia|]. exists F. split; [|done].
      rewrite HF, Nat2Z.id. by apply list_lookup_middle.
    + rewrite lookup_insert_ne by done. apply Hold.
  - intros i G p [Hi|[Hi Hg]]%lookup_app_Some Hp; [eauto|].
    apply list_lookup_singleton_Some in Hg as [Hz <-]. rewrite HP in Hp.
    destruct (Hcur p Hrec Hp). lia.
  - intros p _ Hp. rewrite length_app. destruct (Hcur p Hrec Hp). cbn. lia.
Qed.

Lemma finishRecording_spec c c' :
  traces_ok (jit c) -> recording (jit c) = true -> jit_finishRecording c = Ok c' -> finished c c'.
Proof using Type.
  intros Hok Hrec Hf. unfold jit_finishRecording in Hf.
  apply obind_ok in Hf as ([a b] & _ & Hf). apply obind_ok in Hf as (F & HF & Hf).
  apply obind_ok in Hf as (j1 & Hj1 & Hf). apply obind_ok in Hf as (j2 & Hj2 & Hf).
  injection Hf as <-. unfold saveFragment in HF. inv_ok. unfold registerFragment in Hj1.
  cbn [fr_traceId fragments set_asm set_buf] in Hj1. rewrite Z.eqb_refl in Hj1. injection Hj1 as <-.
  set (F := mkFragment _ _ _ _ _ _ _ _ _ _ _ _) in *.
  assert (Ej2 : exists a2, j2 = set_asm (set_fragments (set_asm (set_buf (jit c) b) a)
     (if bool_decide (traceType (jit c) = TT_SIDE) then fragmentMap (jit c)
      else <[pc_index (startPc (jit c)) := fr_traceId F]> (fragmentMap (jit c)))
     (fragments (jit c) ++ [F])) a2).
  { cbn [parent set_fragments set_asm set_buf] in Hj2. destruct (parent (jit c)); inv_ok; by eexists. }
  destruct Ej2 as [a2 ->].
  assert (Hok' : traces_ok (set_fragments (jit c)
     (if bool_decide (traceType (jit c) = TT_SIDE) then fragmentMap (jit c)
      else <[pc_index (startPc (jit c)) := fr_traceId F]> (fragmentMap (jit c)))
     (fragments (jit c) ++ [F]))) by by apply traces_ok_snoc.
  split; try done.
  - destruct Hok'. by split.
  - by exists F.
Qed.

(** *** Which instructions can finish *)

Definition goes_on (m : RM H A ins_end) : Prop := forall c c', m c <> Ok (c', Val Finished).
Lemma goes_bind {X} (m : RM H A X) k : (forall x, goes_on (k x)) -> goes_on (rbind m k).
Proof using Type.
  intros Hk c c' Hr. unfold rbind in Hr. apply obind_ok in Hr as ([c1 [x|]] & _ & Hr); [|done].
  by eapply Hk.
Qed.
Lemma goes_ret e : e <> Finished -> goes_on (rret e).
Proof using Type. by intros He c c' [= _ ->]. Qed.
Lemma goes_fail e : goes_on (rfail e).
Proof using Type. done. Qed.
Ltac goes_on :=
  repeat first [ apply goes_bind; intros ? | by apply goes_ret | apply goes_fail
               | match goal with |- goes_on (match ?x with _ => _ end) => destruct x end ].
Lemma goes_switch w ins base ci :
  BcIns.opcode w <> Some BcIns.kJFUNC -> goes_on (rec_switch fuel w ins base ci).
Proof using Type.
  intros Hw. unfold rec_switch. destruct (BcIns.opcode w) as [op|]; [|goes_on].
  destruct op; try done;
    unfold rec_LOADK, rec_cond, rec_rrr, rec_rr, rec_PTROFSC, rec_CALLT, rec_CALL, rec_EVAL, rec_RET1,
      rec_RETN, rec_MOV_RES, rec_UPDATE, rec_load, rec_ALLOC1, rec_ALLOC, rec_ALLOCAP, rec_CASE,
      rec_GETTAG, or_abort, rec_new, abort_with; cbn [arith_op]; goes_on.
Qed.

(** The state after a function of the recorder; [fin] tells whether its
    result means that the trace is finished. *)
Definition fin (e : ins_end) : bool := match e with Finished => true | _ => false end.
Definition fin_opt (o : option ins_end) : bool := match o with Some e => fin e | None => false end.
Definition ends {X} (f : X -> bool) c c' (r : result X) : Prop :=
  match r with
  | Val x => if f x then exists c1, same_trace c c1 /\ finished c1 c' else same_trace c c'
  | Throw => same_trace c c'
  end.
Definition closes {X} (f : X -> bool) (m : RM H A X) : Prop :=
  forall c c' r, traces_ok (jit c) -> recording (jit c) = true -> m c = Ok (c', r) -> ends f c c' r.

Lemma same_trace_trans c c1 c2 : same_trace c c1 -> same_trace c1 c2 -> same_trace c c2.
Proof using Type. intros [] []. split; congruence. Qed.
Lemma ends_after {X} (f : X -> bool) c c1 c' r : same_trace c c1 -> ends f c1 c' r -> ends f c c' r.
Proof using Type.
  intros Hs. unfold ends. destruct r as [x|]; [destruct (f x)|]; eauto using same_trace_trans.
  intros (c2 & H2 & Hf). exists c2. eauto using same_trace_trans.
Qed.
Lemma closes_bind {X Y} (f : Y -> bool) (m : RM H A X) k :
  keeps m -> (forall x, closes f (k x)) -> closes f (rbind m k).
Proof using Type.
  intros Hm Hk c c' r Hok Hrec Hr. unfold rbind in Hr.
  apply obind_ok in Hr as ([c1 [x|]] & H1' & Hr); pose proof (Hm _ _ _ H1') as Hs.
  - apply (ends_after f c c1); [done|]. apply (Hk x); [by eapply traces_ok_same| |done].
    by rewrite (st_recording _ _ Hs).
  - by injection Hr as <- <-.
Qed.
(** A first part that may finish the trace, followed by [k]. *)
Lemma closes_then {X Y} (f : X -> bool) (g : Y -> bool) (m : RM H A X) k :
  closes f m -> (forall x, if f x then exists y, k x = rret y /\ g y = true else closes g (k x)) ->
  closes g (rbind m k).
Proof using Type.
  intros Hm Hk c c' r Hok Hrec Hr. unfold rbind in Hr.
  apply obind_ok in Hr as ([c1 [x|]] & H1' & Hr); pose proof (Hm _ _ _ Hok Hrec H1') as He.
  2: { by injection Hr as <- <-. }
  specialize (Hk x). cbn in He. destruct (f x).
  - destruct Hk as (y & Hy & Hg). rewrite Hy in Hr. injection Hr as <- <-. cbn. by rewrite Hg.
  - apply (ends_after g c c1); [done|]. apply Hk; [by eapply traces_ok_same| |done].
    by rewrite (st_recording _ _ He).
Qed.
Lemma closes_ret {X} (f : X -> bool) x : f x = false -> closes f (rret x).
Proof using Type. intros Hf c c' r _ _ [= <- <-]. cbn. rewrite Hf. by split. Qed.
Lemma closes_keeps m : keeps m -> goes_on m -> closes fin m.
Proof using Type.
  intros Hm Hg c c' r _ _ Hr. pose proof (Hm _ _ _ Hr). destruct r as [[]|]; try done.
  by apply Hg in Hr.
Qed.
Lemma closes_finish save link : closes fin (r_finish save link).
Proof using Type.
  apply closes_bind; [apply keeps_emit|]. intros _ c c' r Hok Hrec Hr. inv_ok.
  exists c. split; [by split|]. by apply finishRecording_spec.
Qed.
Lemma finish_result save link c c' r :
  r_finish save link c = Ok (c', r) -> r = Val Finished \/ r = Throw.
Proof using Type.
  unfold r_finish, rbind. intros Hr. apply obind_ok in Hr as ([c1 [x|]] & _ & Hr); inv_ok; auto.
Qed.

(** A trace that is already there: the lookup changes nothing. *)
Lemma lookup_known j pc : is_Some (traceAt j pc) -> lookupFragment j pc = (j, default 0 (traceAt j pc)).
Proof using Type.
  unfold traceAt, lookupFragment. intros [id Hid]. rewrite Hid. cbn.
  rewrite insert_id by done. by destruct j.
Qed.
Lemma closes_JFUNC ins c c' r :
  traces_ok (jit c) -> recording (jit c) = true -> is_Some (traceAt (jit c) ins) ->
  rec_JFUNC ins c = Ok (c', r) -> ends fin c c' r /\ (r = Val Finished \/ r = Throw).
Proof using Type.
  intros Hok Hrec Hat Hr. unfold rec_JFUNC in Hr. unfold rbind at 1, map_jit in Hr.
  rewrite lookup_known in Hr by done. cbn [obind] in Hr.
  replace (set_cap_jit c (jit c)) with c in Hr by by destruct c.
  unfold rbind, get_jit, lift in Hr. cbn [obind] in Hr.
  apply obind_ok in Hr as ([c1 [found|]] & Hf & Hr); [|by inv_ok].
  apply obind_ok in Hf as (o & _ & Hf). injection Hf as <- <-.
  destruct o as [p|].
  - split; [by eapply closes_finish|by eapply finish_result].
  - apply obind_ok in Hr as ([c2 [Fr|]] & Hg & Hr); apply obind_ok in Hg as (G & _ & Hg); [|done].
    injection Hg as <- <-. case_match; [|done]. split; [by eapply closes_finish|by eapply finish_result].
Qed.

(** *** The whole instruction *)

Lemma closes_loop ins : closes fin_opt (check_loop ins).
Proof using Type.
  assert (Hfin : forall save link, closes fin_opt (let* e := r_finish save link in rret (Some e))%rec).
  { intros. apply (closes_then fin fin_opt); [apply closes_finish|].
    intros e. destruct (fin e) eqn:He; [by exists (Some e)|by apply closes_ret]. }
  unfold check_loop. do 3 (apply closes_bind; [keeps|intros ?]).
  case_match; [|case_match; [apply Hfin|]].
  - apply closes_bind; [keeps|intros ?]. apply closes_bind; [by apply keeps_mod|intros ?].
    case_match; [|by apply closes_ret].
    apply closes_bind; [by apply keeps_mod|intros ?]. by apply closes_ret.
  - apply closes_bind; [keeps|intros ?]. case_match; [apply Hfin|by apply closes_ret].
Qed.

(** The instruction is JFUNC only where a trace is registered. *)
Definition jfunc_known c (ins : Z) : Prop :=
  forall w, load_ins (mem c) ins = Ok w -> BcIns.opcode w = Some BcIns.kJFUNC ->
    is_Some (traceAt (jit c) ins).

(** Going on after the search for loops has not touched memory. *)
Lemma rbind_ok {X Y} (m : RM H A X) (k : X -> RM H A Y) c c' y :
  rbind m k c = Ok (c', Val y) -> exists c1 x, m c = Ok (c1, Val x) /\ k x c1 = Ok (c', Val y).
Proof using Type.
  unfold rbind. intros Hr. apply obind_ok in Hr as ([c1 [x|]] & Hm & Hr); [|done]. by exists c1, x.
Qed.
Lemma check_loop_none ins c c' : check_loop ins c = Ok (c', Val None) -> mem c' = mem c.
Proof using Type.
  assert (Hl : forall X (f : Capability H (Jit A) -> outcome X) c c1 x, lift f c = Ok (c1, Val x) -> c1 = c).
  { unfold lift. intros X f k k1 x Hx. by apply obind_ok in Hx as (? & _ & [= <- _]). }
  unfold check_loop. intros Hr.
  apply rbind_ok in Hr as (c1 & upd & H1' & Hr). apply Hl in H1' as ->.
  apply rbind_ok in Hr as (c1 & j & [= <- <-] & Hr).
  apply rbind_ok in Hr as (c1 & le & H2' & Hr).
  assert (c1 = c) as ->
    by (destruct (negb (ins =? upd)); [by apply Hl in H2'|by injection H2' as ->]).
  assert (Hfin : forall save link c, (let* e := r_finish save link in rret (Some e))%rec c
                   <> Ok (c', Val None)).
  { intros save link k Hk. by apply rbind_ok in Hk as (? & ? & _ & ?). }
  destruct (le =? -1); [|destruct (le =? 0); [by apply Hfin in Hr|]].
  - apply rbind_ok in Hr as (c1 & b & H3' & Hr). apply Hl in H3' as ->.
    apply rbind_ok in Hr as (c1 & [] & [= <-] & Hr).
    destruct (100 <? _); [|by injection Hr as <-]. by apply rbind_ok in Hr as (? & ? & _ & ?).
  - apply rbind_ok in Hr as (c1 & w & H3' & Hr). apply Hl in H3' as ->.
    destruct (negb _); [by apply Hfin in Hr|by injection Hr as <-].
Qed.

(** *** One instruction *)

Lemma closes_switch w ins base ci c c' r :
  traces_ok (jit c) -> recording (jit c) = true ->
  (BcIns.opcode w = Some BcIns.kJFUNC -> is_Some (traceAt (jit c) ins)) ->
  rec_switch fuel w ins base ci c = Ok (c', r) -> ends fin c c' r.
Proof using Type.
  intros Hok Hrec Hj Hr. destruct (decide (BcIns.opcode w = Some BcIns.kJFUNC)) as [Hw|Hw].
  - unfold rec_switch in Hr. rewrite Hw in Hr. by apply closes_JFUNC in Hr as [? _]; auto.
  - by eapply closes_keeps; [apply keeps_switch|apply goes_switch| | |].
Qed.

Lemma body_ends ins base ci c c' r :
  traces_ok (jit c) -> recording (jit c) = true -> jfunc_known c ins ->
  recordIns_body fuel ins base ci c = Ok (c', r) -> ends fin c c' r.
Proof using Type.
  intros Hok Hrec Hj Hr. unfold recordIns_body in Hr. unfold rbind at 1, get_jit in Hr.
  cbn [obind] in Hr. destruct (shouldAbort (jit c)).
  { eapply closes_keeps; [apply keeps_abort| |exact Hok|exact Hrec|exact Hr]. apply goes_bind. intros. by apply goes_ret. }
  unfold rbind at 1, mod_jit at 1 in Hr. cbn [obind] in Hr.
  set (c1 := set_cap_jit c _) in Hr. assert (Hs1 : same_trace c c1) by by split.
  apply (ends_after fin c c1); [done|].
  assert (Hok1 : traces_ok (jit c1)) by by eapply traces_ok_same.
  unfold rbind at 1 in Hr. apply obind_ok in Hr as ([c2 e] & He & Hr).
  set (pre := if Flags32.get (jflags (jit c)) kLastInsWasBranch then check_loop ins else rret None) in He.
  assert (Hpre : ends fin_opt c1 c2 e).
  { unfold pre in He. destruct (Flags32.get _ _).
    - eapply closes_loop; [exact Hok1|exact Hrec|exact He].
    - by injection He as <- <-. }
  destruct e as [[e|]|].
  - injection Hr as <- <-. exact Hpre.
  - assert (Hm2 : mem c2 = mem c) by (unfold pre in He; destruct (Flags32.get _ _);
      [by apply check_loop_none in He|by injection He as <-]).
    assert (Hs2 : same_trace c1 c2) by exact Hpre.
    apply (ends_after fin c1 c2); [done|]. unfold rbind at 1, mod_jit at 1 in Hr. cbn [obind] in Hr.
    set (c3 := set_cap_jit c2 _) in Hr. assert (Hs3 : same_trace c2 c3) by by split.
    apply (ends_after fin c2 c3); [done|]. unfold rbind at 1, get_jit in Hr. cbn [obind] in Hr.
    assert (Hrec3 : recording (jit c3) = true)
      by (rewrite (st_recording _ _ Hs3), (st_recording _ _ Hs2), (st_recording _ _ Hs1); done).
    rewrite Hrec3 in Hr. unfold rbind, lift in Hr.
    apply obind_ok in Hr as ([c4 v] & Hw & Hr). apply obind_ok in Hw as (w' & Hw & Hv).
    injection Hv as <- <-.
    apply (closes_switch w' ins base ci); try done.
    + eapply traces_ok_same; [|exact Hok1]. by eapply same_trace_trans.
    + intros Ho. change (mem c3) with (mem c2) in Hw. rewrite Hm2 in Hw. destruct (Hj w' Hw Ho) as [id Hid].
      exists id. unfold traceAt in *.
      by rewrite (st_map _ _ Hs3), (st_map _ _ Hs2), (st_map _ _ Hs1).
  - by injection Hr as <- <-.
Qed.
End ends.

(** ** Claims *)

Section claims.
Context {H : Type} `{HeapOps H} {A : Type} `{AsmOps A} `{MachineOps H A} (fuel : nat).
#[local] Instance recorder_ops : JitOps H (Jit A) := jit_ops fuel.
Implicit Types (c : Capability H (Jit A)).

(** What a finished or abandoned recording leaves. *)
Record ended c c' : Prop := {
  en_idle : idle (jit c');
  en_traces : traces_ok (jit c');
  en_fragments : fragments (jit c') = fragments (jit c) /\ fragmentMap (jit c') = fragmentMap (jit c)
    \/ exists F, fragments (jit c') = fragments (jit c) ++ [F]
         /\ fr_startPc F = startPc (jit c) /\ fr_parent F = parent (jit c)
}.

(** C18: recording one instruction either continues the trace, or it
    ends: the recorder is then idle with its flags, its targets and the
    request to abort cleared, and the table of fragments is as before or
    has the finished trace at its end, consistent in both cases. *)
Theorem recordIns_continues_or_ends ins base ci c c' b :
  traces_ok (jit c) -> recording (jit c) = true -> jfunc_known c ins ->
  recordIns fuel c ins base ci = Ok (c', b) ->
  if b then ended c c' else same_trace c c'.
Proof using Type.
  intros Hok Hrec Hj Hr. unfold recordIns in Hr. apply obind_ok in Hr as ([c1 r] & Hb & Hr).
  pose proof (body_ends fuel _ _ _ _ _ _ Hok Hrec Hj Hb) as He.
  assert (Hab : forall j', (exists j1, j' = resetRecorderState j1 /\ fragments j1 = fragments (jit c1)
      /\ fragmentMap j1 = fragmentMap (jit c1) /\ parent j1 = parent (jit c1) /\ recording j1 = recording (jit c1)) ->
    same_trace c c1 -> ended c (set_cap_jit c1 j')).
  { intros j' (j1 & -> & E1 & E2 & E3 & E4) Hs. pose proof (traces_ok_same _ _ Hs Hok) as Hok1. split.
    - by split.
    - destruct Hok1. split; cbn; rewrite ?E1, ?E2; try done.
    - left. cbn. rewrite E1, E2. by destruct Hs. }
  destruct r as [[| |]|]; injection Hr as <- <-; cbn in He.
  - exact He.
  - destruct He as (c2 & Hs & Hf). split; [apply Hf..|]. right.
    destruct (fi_new _ _ Hf) as (F & Hn & Hp & Hq & _). exists F.
    by rewrite Hn, Hp, Hq, (st_fragments _ _ Hs), (st_start _ _ Hs), (st_parent _ _ Hs).
  - apply Hab; [|done]. eexists. by split_and!.
  - apply Hab; [|done]. eexists. by split_and!.
Qed.

(** The parents of a fragment are older than it. *)
Lemma parent_loop_total fs F p n :
  (forall i G q, fs !! i = Some G -> fr_parent G = Some q -> 0 <= q < Z.of_nat i) ->
  (forall q, p = Some q -> 0 <= q < Z.of_nat (length fs) /\ (S (Z.to_nat q) < n)%nat) -> (0 < n)%nat ->
  exists o, parent_loop n fs F p = Ok o /\ (o = None \/ o = Some F).
Proof using Type.
  intros Hpar. revert p. induction n as [|n IH]; intros p Hp Hn; [lia|]. cbn [parent_loop].
  destruct p as [q|]; [|eauto]. destruct (Hp q eq_refl) as [Hq Hlt].
  destruct (F =? q) eqn:E; [apply Z.eqb_eq in E as ->; eauto|].
  destruct (lookup_lt_is_Some_2 fs (Z.to_nat q)) as [P HP]; [lia|]. rewrite HP. cbn [of_option obind].
  apply IH; [|lia]. intros r Hr. pose proof (Hpar _ _ _ HP Hr). lia.
Qed.

(** the recording of a JFUNC compares its trace with the chain of
    parents; the chain always ends, and the link goes to that trace
    whether it is found there or not. *)
Theorem parents_end c F :
  traces_ok (jit c) -> recording (jit c) = true ->
  exists o, parent_loop (S (length (fragments (jit c)))) (fragments (jit c)) F (parent (jit c)) = Ok o
    /\ (o = None \/ o = Some F).
Proof using Type.
  intros [_ _ Hpar Hcur] Hrec. apply parent_loop_total; [done| |lia].
  intros q Hq. pose proof (Hcur q Hrec Hq). lia.
Qed.

(** C19: once a root trace that is not a return trace is finished, the
    interpreter finds it: the first instruction of the code is a JFUNC
    whose operand is the trace number, and executing it enters that trace.
    The number has to fit the 16 bits of the operand: there are fewer than
    2^16 fragments.  (Return traces are not entered this way: their start
    is not patched.) *)
Theorem finished_trace_entered c c' s :
  traces_ok (jit c) -> recording (jit c) = true -> traceType (jit c) <> TT_SIDE ->
  Flags32.get (jflags (jit c)) kIsReturnTrace = false ->
  Z.of_nat (length (fragments (jit c))) < 2 ^ 16 -> jit_finishRecording c = Ok c' ->
  cap s = c' -> pc s - 4 = startPc (jit c) ->
  exists w F, load_ins (memof s) (pc s - 4) = Ok w /\ BcIns.opcode w = Some BcIns.kJFUNC
    /\ fragments (jit c') !! Z.to_nat (BcIns.d w) = Some F /\ fr_startPc F = pc s - 4
    /\ op_JFUNC s = (let! s := enter_trace s (BcIns.d w) (pc s - 4) in Ok (Continue s)).
Proof using Type.
  intros Hok Hrec Hty Hret Hlen Hf Hs Hpc. pose proof (finishRecording_spec c c' Hok Hrec Hf) as [_ _ Hnew Hmap Hmem].
  destruct Hnew as (F & HF & Hst & _ & Hid). rewrite bool_decide_eq_false_2 in Hmap, Hmem by done.
  rewrite Hret in Hmem. cbn [negb andb] in Hmem. set (tno := Z.of_nat (length (fragments (jit c)))) in *.
  exists (BcIns.ad BcIns.kJFUNC 0 tno), F. destruct (BcIns.ad_fields BcIns.kJFUNC 0 tno) as (Ho & _ & Hd).
  assert (Hd' : BcIns.d (BcIns.ad BcIns.kJFUNC 0 tno) = tno).
  { rewrite Hd. apply to_u_id. unfold tno. lia. }
  assert (Hat : fragments (jit c') !! Z.to_nat tno = Some F).
  { rewrite HF. unfold tno. rewrite Nat2Z.id. by apply list_lookup_middle. }
  rewrite Hd', Hpc, Hst. subst c'. split_and!; try done.
  - rewrite Hmem. apply load_ins_store_eq.
  - unfold op_JFUNC. cbn [j_lookupFragment recorder_ops jit_ops]. rewrite Hpc.
    rewrite lookup_known by (unfold traceAt; rewrite Hmap, lookup_insert_eq; by eexists).
    unfold traceAt. rewrite Hmap, lookup_insert_eq. cbn [from_option id]. rewrite Hat. cbn [fmap option_fmap option_map].
    replace (set_cap s (set_cap_jit (cap s) (jit (cap s)))) with s by by destruct s as [[]].
    rewrite Hid. fold tno. cbn [of_option obind j_startPc recorder_ops jit_ops]. rewrite Hat.
    cbn [fmap option_fmap option_map from_option id]. rewrite Hst, Hpc. by rewrite (proj2 (Z.eqb_eq _ _) eq_refl).
Qed.
End claims.
