(* ===== verification/TraceExamples.v ===== *)
(** * Trace IR and call stacks on concrete inputs

    Decision procedures for the well-formedness of concrete buffers, and
    the properties of the trace components applied to small traces. *)

From S2P Require Import Prelude Words Objects IR IRInv Fold FoldProofs Snapshots CallStack.

(** ** Checking a buffer *)

Definition all_opcodes : list Opcode :=
  [kLT; kGE; kLE; kGT; kEQ; kNE; kLTU; kGEU; kLEU; kGTU; kEQRET; kEQINFO; kNEINFO; kHEAPCHK;
   kNOP; kBASE; kFRAME; kRET; kLOOP; kPHI; kRENAME; kKINT; kKWORD; kKWORDHI; kKBASEO; kBNOT;
   kBAND; kBOR; kBXOR; kBSHL; kBSHR; kBSAR; kBROL; kBROR; kADD; kSUB; kMUL; kDIV; kREM; kNEG;
   kFREF; kFLOAD; kSLOAD; kILOAD; kRLOAD; kPLOAD; kNEW; kFSTORE; kUPDATE; kSAVE; k_MAX].
Lemma all_opcodes_complete op : op ∈ all_opcodes.
Proof. destruct op; cbn; repeat (apply list_elem_of_here || apply list_elem_of_further). Qed.

Definition refs (c : IRCode) : list Z := seqZ (c_bufmin c) (c_bufmax c - c_bufmin c).
Lemma elem_of_refs c r : valid c r -> r ∈ refs c.
Proof. unfold valid, refs. intros. apply elem_of_seqZ. lia. Qed.

#[export] Instance valid_decision c r : Decision (valid c r).
Proof. unfold valid. apply _. Defined.
#[export] Instance operand_decision c r : Decision (operand c r).
Proof. unfold operand. apply _. Defined.
#[export] Instance operands_decision c i : Decision (operands c i).
Proof. unfold operands. destruct (ir_o i); apply _. Defined.
#[export] Instance link_ok_decision c r p : Decision (link_ok c r p).
Proof. unfold link_ok. destruct (irref_islit r); apply _. Defined.

Definition chain_check (c : IRCode) (op : Opcode) : bool :=
  bool_decide (chain c op = 0 \/ (valid c (chain c op) /\ ir_o (raw_ir c (chain c op)) = op)).
Definition entry_check (c : IRCode) (r : Z) : bool :=
  let i := raw_ir c r in
  bool_decide (link_ok c r (ir_prev i)) && eqb (is_literal_op (ir_o i)) (irref_islit r)
  && bool_decide (operands c i) && bool_decide (ir_o i <> kKWORD \/ valid c (r - 1)).
Definition bounds_check (c : IRCode) : bool :=
  (MAX_HEAP_ENTRIES <? c_bufstart c) && (c_bufstart c <=? c_bufmin c) && (c_bufmin c <=? REF_BIAS)
  && (REF_BIAS <=? c_bufmax c) && (c_bufmax c <=? c_bufend c) && (c_bufend c <=? 65536).
Definition code_check (c : IRCode) : bool :=
  bounds_check c && forallb (chain_check c) all_opcodes && forallb (entry_check c) (refs c).

Lemma code_check_ok c : code_check c = true -> code_ok c.
Proof.
  unfold code_check. intros H. apply andb_prop in H as [H He]. apply andb_prop in H as [Hb Hc].
  rewrite forallb_forall in Hc, He.
  assert (Hr : forall r, valid c r -> entry_check c r = true).
  { intros r Hv. apply He, list_elem_of_In, elem_of_refs, Hv. }
  unfold entry_check in Hr. split; [split|].
  - unfold bounds_check in Hb. lia.
  - intros op. specialize (Hc op). apply bool_decide_eq_true in Hc; [done|].
    apply list_elem_of_In, all_opcodes_complete.
  - intros r Hv. specialize (Hr r Hv). rewrite !andb_true_iff, !bool_decide_eq_true in Hr. by apply Hr.
  - intros r Hv. specialize (Hr r Hv). rewrite !andb_true_iff, !bool_decide_eq_true in Hr.
    apply eqb_prop, Hr.
  - intros r Hv. specialize (Hr r Hv). rewrite !andb_true_iff, !bool_decide_eq_true in Hr. by apply Hr.
  - intros r Hv Ho. specialize (Hr r Hv). rewrite !andb_true_iff, !bool_decide_eq_true in Hr.
    destruct Hr as [_ [|]]; done.
Qed.

(** Checking the values of the references. *)
Definition value_check (c : IRCode) (s : AbstractStack) (val : Z -> Z) (r : Z) : bool :=
  (0 <=? val r) && (val r <? 2 ^ 64)
  && match literalValue c s r with Ok v => val r =? v | Err _ => true end
  && match meaning val (raw_ir c r) with Some v => val r =? v | None => true end
  && match holds val (raw_ir c r) with Some t => t | None => true end.
Definition models_check (c : IRCode) (s : AbstractStack) (val : Z -> Z) : bool :=
  forallb (value_check c s val) (refs c).

Lemma models_check_ok c s val : models_check c s val = true -> models c s val.
Proof.
  unfold models_check. rewrite forallb_forall. intros H.
  assert (Hr : forall r, valid c r -> value_check c s val r = true).
  { intros r Hv. apply H, list_elem_of_In, elem_of_refs, Hv. }
  unfold value_check in Hr. split; intros r; [|intros v..]; intros Hv; specialize (Hr r Hv);
    rewrite !andb_true_iff in Hr; destruct Hr as [[[[? ?] Hl] Hm] Hg].
  - lia.
  - intros E. rewrite E in Hl. by apply Z.eqb_eq.
  - intros E. rewrite E in Hm. by apply Z.eqb_eq.
  - intros E. by rewrite E in Hg.
Qed.

(** ** A trace *)

Definition no_memory : memory := mkMemory ∅ ∅ ∅.

(** Slots 0 and 1 are loaded and added. *)
Definition trace : outcome IRBuffer :=
  let! b := reset 4096 65536 65576 in
  let! '(b, x) := buf_slot b 0 in
  let! '(b, y) := buf_slot b 1 in
  let! '(b, _) := emit no_memory b kADD I64 (TRef.ref x) (TRef.ref y) in
  Ok b.
Definition trace_value (r : Z) : Z :=
  if r =? REF_IND then 4096
  else if r =? 0x8001 then 7
  else if r =? 0x8002 then 2 ^ 64 - 3
  else if r =? 0x8003 then 4
  else 0.
Definition trace_buffer : IRBuffer :=
  match trace with Ok b => b | Err _ => mkIRB (empty_code 1024) 0 (mkFold zero_ir zero_ir zero_ir 0)
                                          (mkAS [] 0 0 0 0 0) [] [] AbstractHeap.empty 0 0 end.
Example trace_is_ok : is_ok trace = true.
Proof. vm_compute. reflexivity. Qed.

(** [(x + y) - x] is [y]: nothing is emitted. *)
Example trace_sub_folds :
  (let! '(b, r) := emit no_memory trace_buffer kSUB I64 0x8003 0x8001 in
   Ok (c_bufmax (b_code b) - c_bufmax (b_code trace_buffer), r))
  = Ok (0, Emitted (TRef.make 0x8002 (IRType_num IRT_UNKNOWN))).
Proof. vm_compute. reflexivity. Qed.

Lemma emit_arith_sound_witness :
  returns (emitted trace_buffer trace_value (2 ^ 64 - 3))
    (emit no_memory trace_buffer kSUB I64 0x8003 0x8001).
Proof.
  apply (emit_arith_sound no_memory trace_buffer trace_value kSUB 0x8003 0x8001).
  - apply code_check_ok. vm_compute. reflexivity.
  - apply models_check_ok. vm_compute. reflexivity.
  - apply (bool_decide_eq_true_1 _). vm_compute. reflexivity.
  - intros _. apply (bool_decide_eq_true_1 _). vm_compute. reflexivity.
  - vm_compute. reflexivity.
Defined.

(** ** Literals *)

Lemma literal_reads_back_witness :
  returns (fun '(c', tr) =>
      literalValue c' (b_slots trace_buffer) (TRef.ref tr) = Ok (2 ^ 64 - 1)
      /\ ir_type (raw_ir c' (TRef.ref tr)) = I64 /\ code_ok c'
      /\ forall r, valid (b_code trace_buffer) r ->
           literalValue c' (b_slots trace_buffer) r
           = literalValue (b_code trace_buffer) (b_slots trace_buffer) r)
    (literal (b_code trace_buffer) I64 (2 ^ 64 - 1)).
Proof.
  apply (literal_reads_back (b_code trace_buffer) (b_slots trace_buffer) I64 (2 ^ 64 - 1)).
  - apply code_check_ok. vm_compute. reflexivity.
  - reflexivity.
  - left. reflexivity.
  - lia.
Defined.

(** An unsigned literal of 64 ones is stored as the 32-bit integer -1
    and reads back as 2^32 - 1; the literals are then confused. *)
Example literal_U64_reads_back_wrong :
  (let! '(c, tr) := literal (b_code trace_buffer) (IRType_num IRT_U64) (2 ^ 64 - 1) in
   literalValue c (b_slots trace_buffer) (TRef.ref tr)) = Ok (2 ^ 32 - 1).
Proof. vm_compute. reflexivity. Qed.
Example literal_U64_guard_wrong :
  (let! '(b, x) := lit_ref trace_buffer (IRType_num IRT_U64) (2 ^ 64 - 1) in
   let! '(b, y) := lit_ref b (IRType_num IRT_U64) (2 ^ 32 - 1) in
   let! '(_, r) := emit no_memory b kEQ IRT_GUARD x y in
   Ok (bool_decide (x = y), r)) = Ok (false, Emitted TRef.none).
Proof. vm_compute. reflexivity. Qed.

Lemma reset_well_formed_witness :
  exists b, reset 4096 65536 65576 = Ok b /\ code_ok (b_code b)
    /\ valid (b_code b) REF_BASE /\ raw_ir (b_code b) REF_BASE = mkIR kBASE (IRType_num IRT_PTR) 0 0
    /\ chain (b_code b) kBASE = REF_BASE /\ c_bufmax (b_code b) = REF_FIRST
    /\ (forall r, valid (b_code b) r ->
          r = REF_BASE \/ is_literal_op (ir_o (raw_ir (b_code b) r)) = true)
    /\ literalValue (b_code b) (b_slots b) REF_IND = Ok 4096.
Proof. apply (reset_well_formed 4096 65536 65576); vm_compute; done. Defined.

(** ** Guards on literals *)

Definition guard_buffer : IRBuffer :=
  match (let! '(b, _) := lit_ref trace_buffer I64 5 in
         let! '(b, _) := lit_ref b I64 (-6) in Ok b) with
  | Ok b => b
  | Err _ => trace_buffer
  end.
Definition guard_value (r : Z) : Z :=
  if r =? 0x7ffe then 5 else if r =? 0x7ffd then 2 ^ 64 - 6 else trace_value r.

Lemma literal_guard_decided_witness :
  exists b', b_code b' = b_code guard_buffer /\
    emit no_memory guard_buffer kEQ IRT_GUARD 0x7ffe 0x7ffd = Ok (b', FailingGuard).
Proof.
  apply (literal_guard_decided no_memory guard_buffer guard_value kEQ IRT_GUARD 0x7ffe 0x7ffd).
  - apply code_check_ok. vm_compute. reflexivity.
  - apply models_check_ok. vm_compute. reflexivity.
  - vm_compute. reflexivity.
  - by left.
  - apply (bool_decide_eq_true_1 _). vm_compute. reflexivity.
  - reflexivity.
  - apply (bool_decide_eq_true_1 _). vm_compute. reflexivity.
  - reflexivity.
Defined.

(** ** Loads from new closures *)

(** A closure with two fields; the reference to its second field. *)
Definition new_buffer : IRBuffer :=
  match (let! '(b, _) := emitHeapCheck no_memory trace_buffer 3 in
         let! '(b, tref, _) := emitNEW b REF_IND 2 in
         let! '(b, _) := emit no_memory b kFREF (IRType_num IRT_PTR) (TRef.ref tref) 2 in Ok b) with
  | Ok b => b
  | Err _ => trace_buffer
  end.
Definition new_heap : AbstractHeap :=
  match setField (b_heap new_buffer) 0 1 0x8003 with
  | Ok h => h
  | Err _ => AbstractHeap.empty
  end.

Lemma load_forwarding_witness :
  exists b' tr, emit no_memory (set_heap new_buffer new_heap) kFLOAD I64 0x8006 0 = Ok (b', Emitted tr)
    /\ TRef.ref tr = 0x8003.
Proof.
  apply (load_forwarding no_memory new_buffer new_heap 0x8006 0 1 I64 0x8003
           (mkHE 0x8005 2 0 (-3) 0 0)); [apply code_check_ok; vm_compute; reflexivity|..].
  all: try (vm_compute; reflexivity).
  all: try (apply (bool_decide_eq_true_1 _); vm_compute; reflexivity).
Defined.

(** ** Snapshots *)

Definition written_stack : outcome AbstractStack :=
  let! s := AbstractStack.reset 65536 65576 in
  let! s := AbstractStack.set s 1 (TRef.markWritten (TRef.make 0x8003 2)) in
  AbstractStack.set s 3 (TRef.markWritten (TRef.make 0x8004 2)).
Definition written_slots : AbstractStack :=
  match written_stack with Ok s => s | Err _ => mkAS [] 0 0 0 0 0 end.

Lemma snapshot_roundtrip_witness :
  let '(sn, d') := AbstractStack.snapshot written_slots [] 0x8005 4096 in
  Snapshot_slot sn 3 d' = Ok 0x8004.
Proof.
  assert (H : written_ref written_slots 3 = 0x8004) by (vm_compute; reflexivity).
  pose proof (snapshot_roundtrip written_slots [] 0x8005 4096 3) as Hr. rewrite H in Hr.
  apply Hr; [split|]; vm_compute; done.
Defined.

(** With a written slot below the base the search misses slot 0: the
    number of the slot below is compared as 65535. *)
Example snapshot_slot_below_base :
  (let! s := AbstractStack.reset 65536 65576 in
   let! s := AbstractStack.set s (-1) (TRef.markWritten (TRef.make 0x8003 2)) in
   let! s := AbstractStack.set s 0 (TRef.markWritten (TRef.make 0x8004 2)) in
   let '(sn, d) := AbstractStack.snapshot s [] 0x8005 4096 in
   let! a := Snapshot_slot sn (-1) d in
   let! b := Snapshot_slot sn 0 d in
   Ok (sn_entries sn, a, b)) = Ok (2, 0, 0).
Proof. vm_compute. reflexivity. Qed.

(** ** Call stacks *)

Lemma callstack_refines_witness :
  Forall address_ok [Push 5; Return 5; Return 7; Push 6] /\
  match stack_run [Push 5; Return 5; Return 7; Push 6] [] with
  | Some (l, _) =>
      exits_or (fun s => path s (cs_curr s) l /\
                  forall evs', Forall address_ok evs' -> run_refines evs' s l)
        (obind CallStack.reset (run [Push 5; Return 5; Return 7; Push 6]))
  | None => obind CallStack.reset (run [Push 5; Return 5; Return 7; Push 6]) = Err AssertFailed
            \/ obind CallStack.reset (run [Push 5; Return 5; Return 7; Push 6])
               = Err (Exited EXIT_FAILURE)
  end.
Proof.
  assert (H : Forall address_ok [Push 5; Return 5; Return 7; Push 6])
    by (repeat constructor; done).
  split; [exact H|]. apply (callstack_refines [Push 5; Return 5; Return 7; Push 6] H).
Defined.

(** The same return address pushed twice: two nodes, one stack. *)
Definition twice : CallStack :=
  mkCS [mkNode STACK_NO_REF 0; mkNode 0 5; mkNode 0 5] 32 2.
Lemma twice_ok : stack_ok twice.
Proof.
  destruct reset_ok as (s0 & E & Hs & Hp). injection E as <-.
  assert (Ha : Forall address_ok [Push 5; Return 5; Push 5]) by (repeat constructor; done).
  pose proof (run_refines_all _ _ _ Hs Hp Ha) as H. unfold run_refines in H. cbn [stack_run] in H.
  rewrite decide_True in H by done. cbn [stack_run] in H.
  match type of H with exits_or _ ?r =>
    let v := eval vm_compute in r in change r with v in H end.
  apply H.
Qed.

Lemma isTrueLoop_equiv_witness :
  BTB.isTrueLoop (mkBTB [mkBT 100 0; mkBT 200 1] 16) twice 200
  = Ok (true_loop_ref 200 [5] [(100, []); (200, [5])] 0).
Proof.
  apply (isTrueLoop_equiv (mkBTB [mkBT 100 0; mkBT 200 1] 16) twice 200 [(100, []); (200, [5])] [5]).
  - exact twice_ok.
  - assert (H0 : path twice 0 []) by (eapply path_bottom; reflexivity || lia).
    assert (H1 : path twice 1 [5]).
    { apply (path_frame twice 1 (mkNode 0 5) []); (done || lia). }
    constructor; [by split|]. constructor; [by split|]. constructor.
  - apply (path_frame twice 2 (mkNode 0 5) []); try (done || lia). eapply path_bottom; reflexivity || lia.
Defined.
Example isTrueLoop_twice : true_loop_ref 200 [5] [(100, []); (200, [5])] 0 = 1.
Proof. vm_compute. reflexivity. Qed.
