(* ===== verification/RecorderExamples.v ===== *)
(** * The recorder on concrete programs

    An assembler that gives every instruction a register of its own and
    generates no code, and a small recursive function whose loop is
    recorded; the properties of the recorder and of exits are applied to
    this trace. *)

From S2P Require Import Prelude Words Bytecode Objects Hotness HeapInterface MiscClosures.
From S2P Require Import Capability Interp InterpSteps Examples.
From S2P Require Import IR Registers.
From S2P Require Import IRInv.
From S2P Require Import Fold.
From S2P Require Import Snapshots.
From S2P Require Import CallStack.
From S2P Require Import Recorder.
From S2P Require Import TraceExit.
From S2P Require Import RecorderSim.
From S2P Require Import ExitProofs.
From S2P Require Import RecorderProofs.
From S2P Require Import TraceExamples.

Definition number_registers (b : IRBuffer) : IRBuffer :=
  let c := b_code b in
  set_code b (mkCode (map_imap (fun r i => Some (if irref_islit r then i
                                                 else mkIR (ir_o i) (ir_t i) (op12 i) ((r - REF_BIAS) mod 16)))
                        (c_buffer c))
                (c_bufmin c) (c_bufmax c) (c_bufstart c) (c_bufend c) (c_chain c)).
#[export] Instance no_asm : AsmOps unit := {
  asm_assemble j := Ok (tt, number_registers (buf j));
  asm_mcp _ := 0;
  asm_patchGuard a _ _ _ := Ok a;
  asm_patchFallthrough a _ _ _ := Ok a
}.
#[export] Instance no_machine : MachineOps Z unit := {
  mc_run c _ _ _ _ := Ok (c, 0, mkExit [] 0 TRACE_ID_NONE [])
}.
#[local] Instance recorder_ops : JitOps Z (Jit unit) := jit_ops 4.

(** ** A loop *)

(** [f x = f (x + x)], by a tail call. *)
Definition loop_code : list Z :=
  [BcIns.ad BcIns.kFUNC 4 0; BcIns.abc BcIns.kADDRR 0 0 0; BcIns.ad BcIns.kLOADSLF 1 0; BcIns.abc BcIns.kCALLT 1 0 1; 0].
Definition loop_memory : memory :=
  sample_memory loop_code [(Examples.stack + 16, caller); (Examples.stack + 24, 7)].
Definition idle_jit : Jit unit :=
  mkJit false 0 0 None 0 0 TT_ROOT [] false tt
    (mkIRB (empty_code 1024) 0 (mkFold zero_ir zero_ir zero_ir 0) (mkAS [] 0 0 0 0 0) [] []
       AbstractHeap.empty 0 0)
    no_inherited (mkCS [] 0 0) (mkBTB [] 0) ∅ [] 0 [0; 0; 0; 0; 0].
Definition loop_cap : Capability Z (Jit unit) :=
  mkCap loop_memory 0x900000 (sample_thread (Examples.stack + 56)) 0 dispatch_record
    (HotCounters.init 53) idle_jit 0 0 0 bmisc.
Definition loop_pc : Z := 0x500000.
Definition loop_base : Z := Examples.stack + 24.
Definition begun : outcome (Capability Z (Jit unit)) := beginRecording loop_cap loop_pc loop_base false.
Definition loop_vm (c : Capability Z (Jit unit)) : vm Z (Jit unit) :=
  mkVm c loop_pc loop_base 0x900000 0x901000 0x600000 dispatch_record dispatch_record.
Definition run_loop (n : nat) : outcome (vm Z (Jit unit)) :=
  let! c := begun in
  let! r := steps 0 4 n (loop_vm c) in
  match r with Continue s => Ok s | Halt _ _ => Err AssertFailed end.

Definition show (b : IRBuffer) : list (Z * IR.Opcode * Z * Z) :=
  map (fun r => let i := raw_ir (b_code b) r in (r - REF_BIAS, ir_o i, op1 i - REF_BIAS, op2 i - REF_BIAS))
      (refs (b_code b)).

Definition recorded_loop : outcome (vm Z (Jit unit)) := run_loop 4.
Definition cap_after (r : outcome (vm Z (Jit unit))) : Capability Z (Jit unit) :=
  match r with Ok s => cap s | Err _ => loop_cap end.
Definition vm_after (r : outcome (vm Z (Jit unit))) : vm Z (Jit unit) :=
  match r with Ok s => s | Err _ => loop_vm loop_cap end.

(** The call is the last instruction of the trace, guarded by the info
    table of the function; the machine is at the start of the function
    again, with 14 in its argument. *)
Example loop_recorded :
  (let! s := recorded_loop in Ok (pc s, base s, load (memof s) (base s), show (buf (jit (cap s)))))
  = Ok (loop_pc, loop_base, Ok 14,
        [(-2, kKINT, - REF_BIAS, 96 - REF_BIAS); (-1, kKINT, 232 - REF_BIAS, 1 - REF_BIAS);
         (0, kBASE, - REF_BIAS, - REF_BIAS); (1, kSLOAD, - REF_BIAS, - REF_BIAS);
         (2, kADD, 1, 1); (3, kSLOAD, 65535 - REF_BIAS, - REF_BIAS); (4, kEQINFO, 3, -2)]).
Proof. vm_compute. reflexivity. Qed.

(** At the start of the function the loop is found: the trace ends with
    a SAVE that jumps back, and the interpreter goes on without
    recording. *)
Example loop_closed :
  (let! s := run_loop 5 in
   Ok (dispatch s, recording (jit (cap s)), length (fragments (jit (cap s))),
       load_ins (memof s) loop_pc, last (show (buf (jit (cap s))))))
  = Ok (dispatch_normal, false, 1%nat, Ok (BcIns.ad BcIns.kJFUNC 0 0),
        Some (5, kSAVE, IR_SAVE_LOOP - REF_BIAS, - REF_BIAS)).
Proof. vm_compute. reflexivity. Qed.

(** ** Beginning, following, ending *)

Definition words_check (m : memory) : bool :=
  bool_decide (map_Forall (fun _ v => 0 <= v < 2 ^ 64) (words m)).
Lemma words_check_ok m : words_check m = true -> forall a v, load m a = Ok v -> 0 <= v < 2 ^ 64.
Proof.
  intros Hc%bool_decide_eq_true_1 a v. unfold load. destruct (is_aligned a 8); [|done].
  destruct (words m !! a) as [x|] eqn:E; [|done]. intros [= <-]. by apply (Hc a).
Qed.

Lemma beginRecording_tracks_witness :
  exists j val, begun = Ok (set_cap_jit loop_cap j) /\ in_trace j /\ tracks (set_cap_jit loop_cap j) val loop_base.
Proof.
  assert (Hw : words_check loop_memory = true) by (vm_compute; reflexivity).
  destruct (beginRecording_tracks loop_cap loop_pc loop_base false) as (j & val & Hb & Hin & _ & _ & _ & _ & Ht).
  - reflexivity.
  - reflexivity.
  - apply (bool_decide_eq_true_1 _). vm_compute. reflexivity.
  - apply (bool_decide_eq_true_1 _). vm_compute. reflexivity.
  - vm_compute. reflexivity.
  - reflexivity.
  - reflexivity.
  - exact (words_check_ok _ Hw).
  - exists j, val. split; [exact Hb|]. split; [exact Hin|exact Ht].
Defined.

Definition slots_check (c : Capability Z (Jit unit)) (val : Z -> Z) : bool :=
  let s := b_slots (buf (jit c)) in
  forallb (fun n =>
      match as_slots s !! Z.to_nat n with
      | Some tr =>
          (tr =? 0) || (bool_decide (operand (b_code (buf (jit c))) (TRef.ref tr))
                        && match load (mem c) (slot_addr s n) with Ok v => v =? val (TRef.ref tr) | _ => false end)
      | None => true
      end) (seqZ 0 kSlots).
Definition tracks_check (c : Capability Z (Jit unit)) (val : Z -> Z) (base : Z) : bool :=
  let b := buf (jit c) in
  let s := b_slots b in
  code_check (b_code b) && models_check (b_code b) s val && (Z.of_nat (length (as_slots s)) =? kSlots)
  && (base =? slot_addr s (as_base s)) && (t_top (currentThread c) =? slot_addr s (as_top s))
  && is_aligned base 8 && words_check (mem c) && slots_check c val.
Lemma tracks_check_ok c val base : tracks_check c val base = true -> tracks c val base.
Proof.
  unfold tracks_check. rewrite !andb_true_iff, !Z.eqb_eq. intros (((((((Hc & Hm) & Hl) & Hb) & Ht) & Ha) & Hw) & Hs).
  split; auto using code_check_ok, models_check_ok.
  - lia.
  - by apply words_check_ok.
  - intros n tr Hn. unfold slots_check in Hs. rewrite forallb_forall in Hs.
    assert (Hin : In (Z.of_nat n) (seqZ 0 kSlots)).
    { apply list_elem_of_In, elem_of_seqZ. apply lookup_lt_Some in Hn. lia. }
    specialize (Hs _ Hin). rewrite Nat2Z.id, Hn in Hs. apply orb_true_iff in Hs as [Hs|Hs].
    + left. by apply Z.eqb_eq.
    + right. apply andb_true_iff in Hs as [Ho%bool_decide_eq_true_1 Hv]. split; [done|].
      destruct (load _ _); [|done]. by apply Z.eqb_eq in Hv as ->.
Qed.

(** Behind the addition: the slot loaded and the sum have their values. *)
Definition after_add : vm Z (Jit unit) := let s := vm_after (run_loop 2) in set_pc s (pc s + 4).
Definition loop_value (r : Z) : Z :=
  if r =? REF_IND then stg_IND_info bmisc else if r =? 0x8001 then 7 else if r =? 0x8002 then 14 else 0.

Definition after_load : vm Z (Jit unit) :=
  match exec 0 4 after_add BcIns.kLOADSLF 1 0 with Ok (Continue s) => s | _ => after_add end.

Lemma recording_follows_witness :
  returns (fun r => exists j val', r = Continue (swap_jit after_load j) /\ in_trace j
      /\ tracks (cap (swap_jit after_load j)) val' (base after_load))
    (exec_record 0 4 after_add 1 0).
Proof.
  eapply returns_mono; [apply (recording_follows 0 4 after_add loop_value (BcIns.ad BcIns.kLOADSLF 1 0)
                                 BcIns.kLOADSLF after_load)|].
  - vm_compute. reflexivity.
  - reflexivity.
  - reflexivity.
  - split_and!; vm_compute; reflexivity.
  - apply tracks_check_ok. vm_compute. reflexivity.
  - apply (bool_decide_eq_true_1 _). vm_compute. reflexivity.
  - discriminate.
  - vm_compute. reflexivity.
  - intros r (j & val' & Hr & Hin & Ht & _). exists j, val'. split; [exact Hr|]. split; [exact Hin|exact Ht].
Defined.

(** ** Ending *)

Definition loop_end : Capability Z (Jit unit) * bool :=
  match recordIns 4 (cap_after recorded_loop) loop_pc loop_base 0x600000 with
  | Ok r => r | Err _ => (loop_cap, false) end.

Lemma recorded_traces_ok : traces_ok (jit (cap_after recorded_loop)).
Proof.
  assert (Hf : fragments (jit (cap_after recorded_loop)) = []) by (vm_compute; reflexivity).
  assert (Hm : fragmentMap (jit (cap_after recorded_loop)) = ∅) by (vm_compute; reflexivity).
  assert (Hp : parent (jit (cap_after recorded_loop)) = None) by (vm_compute; reflexivity).
  split; rewrite ?Hf, ?Hm, ?Hp; done.
Qed.

Lemma recordIns_continues_or_ends_witness : ended (cap_after recorded_loop) (fst loop_end).
Proof.
  assert (Hw : load_ins (mem (cap_after recorded_loop)) loop_pc = Ok (BcIns.ad BcIns.kFUNC 4 0))
    by (vm_compute; reflexivity).
  assert (Hb : snd loop_end = true) by (vm_compute; reflexivity).
  pose proof (recordIns_continues_or_ends 4 loop_pc loop_base 0x600000 (cap_after recorded_loop)
                (fst loop_end) (snd loop_end)) as He.
  rewrite Hb in He. apply He.
  - exact recorded_traces_ok.
  - vm_compute. reflexivity.
  - intros w. rewrite Hw. intros [= <-]. discriminate.
  - rewrite <- Hb. vm_compute. reflexivity.
Defined.

Definition closed_cap : Capability Z (Jit unit) :=
  match jit_finishRecording (cap_after recorded_loop) with Ok c => c | Err _ => loop_cap end.
Definition entering : vm Z (Jit unit) := set_pc (loop_vm closed_cap) (loop_pc + 4).
Lemma finished_trace_entered_witness :
  exists w, load_ins (mem (cap entering)) loop_pc = Ok w /\ BcIns.opcode w = Some BcIns.kJFUNC
    /\ op_JFUNC entering = (let! s := enter_trace entering (BcIns.d w) loop_pc in Ok (Continue s)).
Proof.
  destruct (finished_trace_entered 4 (cap_after recorded_loop) closed_cap entering)
    as (w & F & Hw & Ho & _ & _ & He).
  - exact recorded_traces_ok.
  - vm_compute. reflexivity.
  - vm_compute. discriminate.
  - vm_compute. reflexivity.
  - vm_compute. reflexivity.
  - vm_compute. reflexivity.
  - reflexivity.
  - vm_compute. reflexivity.
  - exists w. split; [exact Hw|]. split; [exact Ho|exact He].
Defined.

(** A side trace of a side trace meets the loop. *)
Definition a_fragment (id pc : Z) (p : option Z) : Fragment :=
  mkFragment id pc p [] REF_BIAS REF_BIAS ∅ 0 [] [] AbstractHeap.empty 0.
Definition nested_jit : Jit unit :=
  set_root (set_fragments idle_jit {[pc_index loop_pc := 0]}
              [a_fragment 0 loop_pc None; a_fragment 1 0x500004 (Some 0)])
    true 0x500008 0 (Some 1) 0 TT_SIDE.
Definition nested_cap : Capability Z (Jit unit) := set_cap_jit loop_cap nested_jit.
Lemma nested_traces_ok : traces_ok nested_jit.
Proof.
  split; cbn.
  - intros [|[|i]] F; cbn; [by intros [= <-]..|done].
  - intros idx id [<- <-]%lookup_singleton_Some. split; [done|]. by eexists.
  - intros [|[|i]] F p; cbn; [intros [= <-]; done| |done]. intros [= <-] [= <-]. lia.
  - intros p _ [= <-]. lia.
Qed.
Lemma parents_end_witness :
  exists o, parent_loop 3 (fragments nested_jit) 0 (Some 1) = Ok o /\ (o = None \/ o = Some 0).
Proof. exact (parents_end nested_cap 0 nested_traces_ok eq_refl). Defined.

(** ** Leaving through the guard of the call *)

Definition loop_fragment : Fragment :=
  match fragments (jit closed_cap) with F :: _ => F | [] => a_fragment 0 0 None end.
Definition loop_guard : Snapshot := match fr_snaps loop_fragment with s :: _ => s | [] => mkSnap 0 0 0 0 0 0 0 0 0 0 end.
Definition loop_stack : AbstractStack := b_slots (buf (jit (cap (vm_after (run_loop 3))))).
Definition loop_exit : ExitState :=
  mkExit [0; 7; 14; caller; 0; loop_base; 0; 0; 0; 0; 0; 0; 0x900000] 0x901000 0 [].
Definition exit_val (r : Z) : Z := if r =? 0x8002 then 14 else if r =? 0x8003 then caller else 0.

Lemma exit_rebuilds_frames_witness :
  exists c', restoreSnapshot closed_cap 0 0 loop_exit = Ok c'
    /\ load (mem c') loop_base = Ok 14 /\ t_pc (currentThread c') = loop_pc + 12.
Proof.
  destruct (exit_rebuilds_frames closed_cap 0 loop_fragment 0 loop_exit loop_guard
    (mkIR kEQINFO (Z.lor (IRType_num IRT_VOID) IRT_GUARD) 0x7ffe8003 4) loop_stack loop_base 0x900000 exit_val)
    as (c' & Hc & Hin & _ & Hpc & _).
  - vm_compute. reflexivity.
  - apply (bool_decide_eq_true_1 _). vm_compute. reflexivity.
  - vm_compute. reflexivity.
  - vm_compute. reflexivity.
  - discriminate.
  - discriminate.
  - vm_compute. reflexivity.
  - reflexivity.
  - reflexivity.
  - reflexivity.
  - split; [vm_compute; reflexivity|apply (bool_decide_eq_true_1 _); vm_compute; reflexivity|vm_compute; reflexivity].
  - exists [], (drop 2 (fr_snapmap loop_fragment)). split_and!; vm_compute; reflexivity.
  - assert (He : AbstractStack.snapshot_entries (snapshot_range loop_stack) (as_low loop_stack) = [32770; 98307])
      by (vm_compute; reflexivity).
    rewrite He. repeat constructor; try discriminate; vm_compute; reflexivity.
  - exists c'. split; [exact Hc|].
    assert (Hw : written_ref loop_stack 0 = 0x8002) by (vm_compute; reflexivity).
    specialize (Hin 0). rewrite Hw in Hin. split; [apply Hin; discriminate|].
    rewrite Hpc. vm_compute. reflexivity.
Defined.
