(* ===== verification/AsmExit.v ===== *)
(** * From the exit stub back to the interpreter

    What the code of a trace leaves in registers and spill slots is what
    the exit reads: the slots of the snapshot are restored to the values
    of the trace's references. *)

From Stdlib Require Import Sorting.Sorted.
From stdpp Require Import sorting.
From S2P Require Import Prelude Words Bytecode Objects Hotness HeapInterface MiscClosures.
From S2P Require Import Capability.
From S2P Require Import IR.
From S2P Require Import IRInv.
From S2P Require Import Registers X86 X86Sem X86Proofs AsmState.
From S2P Require Import AsmInv.
From S2P Require Import AsmAlloc.
From S2P Require Import AsmSelect.
From S2P Require Import AsmSem.
From S2P Require Import AsmSim AsmLoop AsmTrace.
From S2P Require Import Snapshots.
From S2P Require Import CallStack.
From S2P Require Import Recorder.
From S2P Require Import TraceExit.
From S2P Require Import ExitProofs.

Section machine.
Context {TF : TraceFrame} {RA : RuntimeAddrs}.
Abbreviation B := tf_base.

(** The exit handler saves the registers and the spill slots. *)
Record saves (ex : ExitState) (m : mach) : Prop := {
  sa_gpr : forall r, 0 <= r < 16 -> TraceExit.gpr ex !! Z.to_nat r = Some (X86Sem.gpr m r);
  sa_spill : forall s v, 0 < s < 256 -> mmem m (slot_addr s) = Some v -> spill ex !! Z.to_nat s = Some v
}.
(** [saveFragment] of the buffer of an assembler. *)
Record fragment_of (Fr : Fragment) (a : Assembler) : Prop := {
  fo_buffer : fr_buffer Fr
    = filter (fun '(r, _) => c_bufmin (b_code (abuf a)) <= r < c_bufmax (b_code (abuf a))) (c_buffer (b_code (abuf a)));
  fo_snaps : fr_snaps Fr = b_snaps (abuf a);
  fo_map : fr_snapmap Fr = b_snapmap (abuf a);
  fo_max : nins a = c_bufmax (b_code (abuf a));
  fo_min : 0 < bufmin a
}.
(** The references a snapshot may name: literals, and instructions of
    the fragment whose place is a register of the processor. *)
Definition entry_defined (Fr : Fragment) (w : Z) : bool :=
  match fr_buffer Fr !! u2 w with
  | Some i =>
      if irref_islit (u2 w) then
        match ir_o i with
        | kKINT | kKBASEO => true
        | kKWORD => bool_decide (is_Some (fr_buffer Fr !! (u2 w - 1)))
        | _ => false
        end
      else (ir_reg i <? 16) || negb (ir_spill i =? 0)
  | None => false
  end.

Section exit.
Context (Fr : Fragment) (a : Assembler) (ex : ExitState) (st : irstate) (m : mach).
Hypotheses (Hfr : fragment_of Fr a) (Hex : saves ex m).

Lemma fragment_ir r i : fr_buffer Fr !! r = Some i -> a_ir a r = i /\ live a (nins a) r.
Proof using Hfr.
  rewrite (fo_buffer _ _ Hfr). intros [Hr Hb]%map_lookup_filter_Some. split.
  - unfold a_ir, raw_ir. by rewrite Hr.
  - unfold live, bufmin. by rewrite (fo_max _ _ Hfr).
Qed.

Lemma ir_raw r i : ir (b_code (abuf a)) r = Ok i -> i = a_ir a r.
Proof using Type. unfold ir. destruct (_ && _); [|done]. by intros [= <-]. Qed.
Lemma literal_read w i :
  literals_ok a st -> fr_buffer Fr !! u2 w = Some i -> irref_islit (u2 w) = true -> entry_defined Fr w = true ->
  exit_value Fr ex B (u2 w) = Ok (val st (u2 w)).
Proof using Hfr.
  intros Hl Hi Hlit He. destruct (fragment_ir _ _ Hi) as [Ha [Hmin Hn]]. unfold entry_defined in He. rewrite Hi, Hlit in He.
  unfold exit_value, Fragment.ir. rewrite Hi. cbn [of_option obind]. rewrite Hlit.
  unfold Fragment.literalValue, Fragment.ir. rewrite Hi. cbn [of_option obind].
  pose proof Hlit as Hb. unfold irref_islit in Hb. apply Z.ltb_lt in Hb. specialize (Hl _ (conj Hmin Hb)). rewrite Ha in Hl.
  destruct (ir_o i) eqn:Eo; try done.
  - unfold literalValue in Hl. apply obind_ok in Hl as (j & ->%ir_raw & Hl). by rewrite Ha, Eo in Hl.
  - apply bool_decide_eq_true in He as [j Hj]. rewrite Hj. cbn [of_option obind].
    destruct (fragment_ir _ _ Hj) as [Ha' _].
    unfold literalValue in Hl. apply obind_ok in Hl as (i' & ->%ir_raw & Hl). rewrite Ha, Eo in Hl.
    apply obind_ok in Hl as (j' & ->%ir_raw & Hl). by rewrite Ha' in Hl.
  - destruct Hl as [-> _]. done.
Qed.

Lemma value_read w i :
  readable a (final_slots a) st m (u2 w) -> fr_buffer Fr !! u2 w = Some i -> irref_islit (u2 w) = false ->
  entry_defined Fr w = true -> exit_value Fr ex B (u2 w) = Ok (val st (u2 w)).
Proof using Hfr Hex.
  intros Hr Hi Hlit He. destruct (fragment_ir _ _ Hi) as [Ha Hl]. unfold entry_defined in He. rewrite Hi, Hlit in He.
  unfold exit_value, Fragment.ir. rewrite Hi. cbn [of_option obind]. rewrite Hlit.
  unfold readable in Hr. rewrite (final_slots_live _ _ Hl) in Hr. unfold spl, reg in Hr. rewrite Ha in Hr.
  destruct (Z.eqb_spec (ir_spill i) 0) as [Es|Hs]; cbn [negb].
  - destruct Hr as [Hreg Hv]. rewrite Hreg. cbn [obind].
    rewrite orb_false_r in He. apply Z.ltb_lt in He. pose proof (u1_range (ir_prev i)).
    rewrite (sa_gpr _ _ Hex) by (unfold ir_reg in *; lia). cbn. by rewrite Hv.
  - assert (0 <= ir_spill i < 256) by apply u1_range. rewrite (sa_spill _ _ Hex (ir_spill i) _ ltac:(lia) Hr). done.
Qed.

Lemma entries_at sn es w :
  snap_entries Fr sn = Ok es -> 0 <= sn_mapofs sn -> w ∈ es ->
  exists se, In se (snap_range sn) /\ slotRef (fr_snapmap Fr) se = Ok (u2 w).
Proof using Type.
  unfold snap_entries. intros H Ho Hw. destruct (_ =? _) eqn:E in H; [|done]. injection H as <-. apply Z.eqb_eq in E.
  apply list_elem_of_lookup in Hw as [k Hk]. apply lookup_take_Some in Hk as [Hk Hlt].
  rewrite lookup_drop in Hk. exists (sn_mapofs sn + Z.of_nat k). split.
  - unfold snap_range. apply in_map_iff. exists k. split; [done|]. apply in_seq. lia.
  - unfold slotRef. replace (Z.to_nat (sn_mapofs sn + Z.of_nat k)) with (Z.to_nat (sn_mapofs sn) + k)%nat by lia.
    unfold SnapshotData in *. by rewrite Hk.
Qed.
End exit.

(** The snapshots of a fragment can be restored. *)
Definition snap_ok (Fr : Fragment) (sn : Snapshot) : bool :=
  (0 <=? sn_mapofs sn)
  && match snap_entries Fr sn with
     | Ok es => forallb (entry_defined Fr) es
                && bool_decide (StronglySorted (fun v w => signed_slot v < signed_slot w) es)
     | Err _ => false
     end.

(** C4: from machine code back to the interpreter: where a guard that
    failed has left the trace, the loop of the exit over that guard's snapshot,
    given the saved registers and spill slots, writes to the interpreter's
    frame for every entry the value that its reference has in the trace. *)
Theorem exit_restores_trace Fr a ex st m q t mm :
  fragment_of Fr a -> forallb (snap_ok Fr) (fr_snaps Fr) = true -> is_aligned B 8 = true ->
  leaves (exits_at a) a (final_slots a) q st t m -> saves ex m ->
  exists n sn es mm', fr_snaps Fr !! Z.to_nat n = Some sn /\ sn_ref sn = q /\ exits_at a n t
    /\ TraceExit.gpr ex !! Z.to_nat RID_BASE = Some B
    /\ TraceExit.gpr ex !! Z.to_nat RID_HP = Some (ihp st)
    /\ snap_entries Fr sn = Ok es /\ restore_slots Fr ex B es mm = Ok mm'
    /\ (forall w, w ∈ es -> load mm' (B + 8 * signed_slot w) = Ok (val st (u2 w)))
    /\ (forall x, (forall w, w ∈ es -> x <> B + 8 * signed_slot w) -> load mm' x = load mm x).
Proof using Type.
  intros Hfr Hall Hal [(n & sn & Hsn & Hq & Ht & Hre) Hb _ Hhp _ Hlits] Hex.
  rewrite <- (fo_snaps _ _ Hfr) in Hsn. exists n, sn.
  assert (Hok : snap_ok Fr sn = true).
  { rewrite forallb_forall in Hall. apply Hall. by apply list_elem_of_In, (list_elem_of_lookup_2 _ (Z.to_nat n)). }
  apply andb_true_iff in Hok as [Ho%Z.leb_le Hok]. destruct (snap_entries Fr sn) as [es|] eqn:Ees; [|done].
  apply andb_true_iff in Hok as [Hdef Hsort%bool_decide_eq_true].
  assert (Hsaved : saved Fr ex B (val st) es).
  { apply Forall_forall. intros w Hw. rewrite forallb_forall in Hdef.
    assert (Hd : entry_defined Fr w = true) by by apply Hdef, list_elem_of_In.
    pose proof Hd as Hd'. unfold entry_defined in Hd'. destruct (fr_buffer Fr !! u2 w) as [i|] eqn:Hi; [|done].
    destruct (fragment_ir _ _ Hfr _ _ Hi) as [_ [Hmin _]]. pose proof (fo_min _ _ Hfr). split; [lia|].
    destruct (irref_islit (u2 w)) eqn:Hlit; [by eapply literal_read|].
    destruct (entries_at _ _ _ _ Ees Ho Hw) as (se & Hin & Hsl). rewrite (fo_map _ _ Hfr) in Hsl.
    eapply value_read; try done. by eapply Hre. }
  destruct (restore_slots_spec Fr ex B (val st) Hal es mm Hsaved Hsort) as (mm' & Hm & Hin & Hout).
  exists es, mm'. split_and!; try done.
  - rewrite (sa_gpr _ _ Hex) by (by vm_compute). by rewrite Hb.
  - rewrite (sa_gpr _ _ Hex) by (by vm_compute). by rewrite Hhp.
Qed.
End machine.
