(* ===== verification/AsmRoutines.v ===== *)
(** * The assembly routines ([amd64/fragment.cc])

    [asmEnter] builds the frame of a trace and jumps to its code;
    [asmExit] and [asmHeapOverflow] put the registers below that frame, so
    that both together are a [struct _ExitState], and call C.  The
    routines are written down instruction by instruction and run on the
    machine of [X86Sem]. *)

From S2P Require Import Prelude Words Hotness IR.
From S2P Require Import Registers X86 X86Sem X86Proofs AsmState.
From S2P Require Import AsmInv AsmAlloc AsmSelect AsmSem AsmSim AsmInstr AsmGuard AsmStub.
From S2P Require Import Assembler.
From S2P Require Import Recorder TraceExit.
From S2P Require Import AsmExit.

(** ** Assembly text *)

(** Instructions, and those that the code of traces does not have: a
    byte from memory into AH, an addition to memory, a jump to a register,
    a 32-bit [test] of a register with itself, a conditional jump forward
    to a label of the routine, and such a label. *)
Inductive asm :=
| AI (i : instr)
| AMovAh (x : operand)
| AAddTo (x : operand) (r : Z)
| AJmpR (r : Z)
| ATest (r : Z)
| AJcc (cc l : Z)
| ALabel (l : Z).

Definition mov_ah (x : operand) (m : mach) : option mach :=
  match x with
  | OReg _ => None
  | OMem b i d =>
      let a := ea m b i d in
      do v <- mmem m (a - a mod 8);
      let byte := Z.land (Z.shiftr v (8 * (a mod 8))) 0xff in
      Some (set_gpr 0 (Z.lor (Z.land (X86Sem.gpr m 0) (Z.lnot 0xff00)) (Z.shiftl byte 8)) m)
  end.
(** [skip] is the label that a jump which has been taken looks for.  [test]
    sets the flags that a comparison of its operand with 0 sets. *)
Fixpoint asm_go (skip : option Z) (l : list asm) (m : mach) : option X86Sem.result :=
  match l, skip with
  | [], None => Some (Next m)
  | [], Some _ => None
  | ALabel n :: l', Some n' => asm_go (if n =? n' then None else skip) l' m
  | _ :: l', Some _ => asm_go skip l' m
  | AI i :: l', None =>
      match exec i m with
      | Some (Next m') => asm_go None l' m'
      | r => r
      end
  | AMovAh x :: l', None => do m' <- mov_ah x m; asm_go None l' m'
  | AAddTo x r :: l', None =>
      do v <- rd true m x; do m' <- wr true m x (u8 (v + X86Sem.gpr m r)); asm_go None l' (set_flags None m')
  | AJmpR r :: _, None => Some (Goto (X86Sem.gpr m r) m)
  | ATest r :: l', None => asm_go None l' (set_flags (Some (u8 (i4 (X86Sem.gpr m r)), 0)) m)
  | AJcc cc n :: l', None =>
      do (x, y) <- cmpd m; do b <- cond cc x y; asm_go (if b : bool then Some n else None) l' m
  | ALabel _ :: l', None => asm_go None l' m
  end.
Abbreviation asm_run := (asm_go None).

(** ** The routines *)

Definition SAVE_SIZE : Z := 80 + 256 * 8.
(** [offsetof(Thread, base_)] *)
Definition Thread_base : Z := 24.
Definition RAX : Z := 0.
Definition RCX : Z := 1.
Definition RDX : Z := 2.
Definition RBX : Z := 3.
Definition RSP : Z := 4.
Definition RBP : Z := 5.
Definition RSI : Z := 6.
Definition RDI : Z := 7.

Definition mov_to (b d r : Z) : asm := AI (IMovMR true (OMem b None d) r).
Definition mov_from (r b d : Z) : asm := AI (IMovRM true r (OMem b None d)).
Definition mov_reg (r s : Z) : asm := AI (IMovRM true r (OReg s)).
Definition pushes (rs : list Z) : list asm := map (fun r => AI (IPushR r)) rs.

Definition asmEnter_code : list asm :=
  pushes [RBP] ++
  [mov_reg RAX RSP; AI (IArithI true 5 (OReg RSP) SAVE_SIZE);
   mov_to RAX (-8) RBX; mov_to RAX (-16) 12; mov_to RAX (-24) 13; mov_to RAX (-32) 14; mov_to RAX (-40) 15;
   AI (ILea true RAX (OMem RAX None (-2048)));
   AI (IMovMR false (OMem RAX None (-48)) RDI); mov_to RAX (-56) RSI; mov_to RAX (-72) 8; mov_to RAX (-80) RCX;
   mov_reg RBP RSI; AI (IArithI true 0 (OReg RBP) Thread_base); mov_from RBP RBP 0;
   mov_reg 12 RDX; AJmpR 9].

(** [asmExit] up to the call of [exitTrace]. *)
Definition asmExit_code : list asm :=
  pushes [13; 12; 11; 10; 9; 8; RDI; RSI; RBP] ++
  [AI (ILea true RBP (OMem RSP None 88))] ++
  pushes [RBP; RBX; RDX; RCX; RAX] ++
  [AI (IMovzxb false RAX (OMem RBP None (-8))); AMovAh (OMem RBP None (-16)); AI (IMovRM false RDI (OReg RAX));
   mov_to RBP (-8) 15; mov_to RBP (-16) 14;
   AI (IArithI true 5 (OReg RSP) 128); AI (IArithI true 5 (OReg RBP) 128);
   mov_reg RSI RSP].
(** What follows the call, in [asmExit] and in [asmHeapOverflow]. *)
Definition asmExit_return : list asm :=
  [AI (ILea true RAX (OMem RSP None (SAVE_SIZE + 256)));
   mov_from RBX RAX (-8); mov_from 12 RAX (-16); mov_from 13 RAX (-24); mov_from 14 RAX (-32); mov_from 15 RAX (-40);
   AI (IArithI true 0 (OReg RSP) (SAVE_SIZE + 256)); AI (IPopR RBP); AI IRet].

(** [asmHeapOverflow] up to the call of [heapCheckFail]. *)
Definition asmHeapOverflow_code : list asm :=
  [AI (IArith true 5 12 (OReg RSI))] ++
  pushes [12; 11; 10; 9; 8; RDI; RSI; RBP] ++
  [AI (ILea true RBP (OMem RSP None 88))] ++
  pushes [RBP; RBX; RDX; RCX; RAX] ++
  [AI (IArithI true 5 (OReg RSP) 128); AI (IArithI true 5 (OReg RBP) 128); mov_reg RDI RSP].
(** What follows the call: back to the trace when [heapCheckFail] has
    returned 0, otherwise (label [.L1]) to the call of [exitTrace]. *)
Definition asmHeapOverflow_return : list asm :=
  [ATest RAX; AJcc CC_NE 1;
   AI (IArithI true 0 (OReg RSP) 128);
   mov_from RAX RSP 0; mov_from RCX RSP 8; mov_from RDX RSP 16; mov_from RBX RSP 24; mov_from RBP RSP 40;
   mov_from RSI RSP 48; mov_from 8 RSP 64; mov_from 9 RSP 72; mov_from 10 RSP 80; mov_from 11 RSP 88;
   mov_from 12 RSP 96; AI (IArithI true 0 (OReg RSP) 104); AI IRet;
   ALabel 1;
   AI (IMovRM false RDI (OMem RSP None 184)); mov_from RAX RSP 248; mov_to RSP 184 RAX;
   AI (IMovRM false RSI (OMem RSP None 176)); AAddTo (OMem RSP None 224) RSI; mov_from RAX RSP 240; mov_to RSP 176 RAX;
   mov_to RSP 248 15; mov_to RSP 240 14; mov_to RSP 232 13; mov_reg RSI RSP].

(** [asmTrace]: around the call of [debugTrace]. *)
Definition asmTrace_code : list asm :=
  pushes [14] ++ [mov_from 14 RSP 8; mov_to RSP 8 15] ++
  pushes [13; 12; 11; 10; 9; 8; RDI; RSI; RBP; 14; RBX; RDX; RCX; RAX] ++
  [AI (IArithI true 5 (OReg RSP) 128); mov_reg RDI RSP].
Definition asmTrace_return : list asm :=
  [AI (IArithI true 0 (OReg RSP) 128); mov_from RAX RSP 0; mov_from RCX RSP 8; mov_from RDX RSP 16;
   mov_from RBP RSP 40; mov_from RSI RSP 48; mov_from RDI RSP 56; mov_from 8 RSP 64; mov_from 9 RSP 72;
   mov_from 10 RSP 80; mov_from 11 RSP 88; mov_to RSP 120 14; mov_from 14 RSP 112;
   AI (IArithI true 0 (OReg RSP) 120); AI IRet].
(** [asmStackOverflow] up to the call of [handleStackOverflow]. *)
Definition asmStackOverflow_code : list asm :=
  [AI (ILea true RAX (OMem RSP None SAVE_SIZE));
   mov_from RBX RAX (-8); mov_from 12 RAX (-16); mov_from 13 RAX (-24); mov_from 14 RAX (-32); mov_from 15 RAX (-40);
   AI (IArithI true 0 (OReg RSP) SAVE_SIZE)].

(** ** [struct _ExitState] *)

(** At [p]: 16 floating-point registers, 16 registers, and the frame of
    the trace. *)
Definition ES_gpr : Z := 8 * 16.
Definition ES_hplim : Z := ES_gpr + 8 * 16.
Definition ES_F_id : Z := ES_hplim + 32.
Definition ES_spill : Z := ES_hplim + 40.
Definition read_exit (m : mach) (p : Z) : option ExitState :=
  do gs <- mapM (fun i => rd_mem m (p + ES_gpr + 8 * i)) (seqZ 0 16);
  do hl <- rd_mem m (p + ES_hplim);
  do f <- rd_mem m (p + ES_F_id);
  do sp <- mapM (fun s => rd_mem m (p + ES_spill + 8 * s)) (seqZ 0 256);
  Some (mkExit gs hl (u4 f) sp).

(** ** Running them *)

Lemma asm_go_app l1 l2 r : forall skip m,
  asm_go skip l1 m = Some r -> asm_go skip (l1 ++ l2) m = match r with Next m' => asm_run l2 m' | Goto _ _ => Some r end.
Proof.
  induction l1 as [|a l1 IH]; intros skip m; cbn [app asm_go]; [destruct skip; [done|by intros [= <-]]|].
  destruct a as [i|x|x q|q|q|cc n|n], skip as [n'|]; try apply IH.
  - destruct (exec i m) as [[m'|t m']|]; [apply IH|by intros [= <-]|done].
  - destruct (mov_ah x m); [apply IH|done].
  - destruct (rd true m x); [|done]. destruct (wr true m x _); [apply IH|done].
  - by intros [= <-].
  - destruct (cmpd m) as [[x y]|]; [|done]. cbn [obind]. destruct (cond cc x y); [apply IH|done].
Qed.
Lemma asm_run_app l1 l2 m m' : asm_run l1 m = Some (Next m') -> asm_run (l1 ++ l2) m = asm_run l2 m'.
Proof. apply asm_go_app. Qed.
Lemma asm_run_leaves l1 l2 m t m' : asm_run l1 m = Some (Goto t m') -> asm_run (l1 ++ l2) m = Some (Goto t m').
Proof. apply asm_go_app. Qed.

(** One instruction at a time. *)
Lemma run_next i l m m' : exec i m = Some (Next m') -> asm_run (AI i :: l) m = asm_run l m'.
Proof. intros H. cbn [asm_go]. by rewrite H. Qed.
Lemma run_ah x l m m' : mov_ah x m = Some m' -> asm_run (AMovAh x :: l) m = asm_run l m'.
Proof. intros H. cbn [asm_go]. by rewrite H. Qed.
Lemma u8_id x : 0 <= x < 2 ^ 64 -> u8 x = x.
Proof. apply (to_u_id 64). Qed.
Lemma ea_at m b d a : X86Sem.gpr m b + d = a -> 0 <= a < 2 ^ 64 -> ea m b None d = a.
Proof. intros E Ha. unfold ea. rewrite Z.add_0_r, E. by apply u8_id. Qed.
Lemma exec_load m r b d a v :
  X86Sem.gpr m b + d = a -> 0 <= a < 2 ^ 64 -> a mod 8 = 0 -> mmem m a = Some v ->
  exec (IMovRM true r (OMem b None d)) m = Some (Next (set_gpr r v m)).
Proof. intros E Ha Hal Hv. cbn [exec rd]. rewrite (ea_at m b d a) by done. unfold rd_mem. by rewrite Hal, Hv. Qed.
Lemma exec_store m r b d a :
  X86Sem.gpr m b + d = a -> 0 <= a < 2 ^ 64 -> a mod 8 = 0 -> is_Some (mmem m a) ->
  exec (IMovMR true (OMem b None d) r) m = Some (Next (set_mem a (X86Sem.gpr m r) m)).
Proof. intros E Ha Hal [v Hv]. cbn [exec wr]. rewrite (ea_at m b d a) by done. unfold rd_mem. by rewrite Hal, Hv. Qed.
Lemma exec_lea m r b d a :
  X86Sem.gpr m b + d = a -> 0 <= a < 2 ^ 64 -> exec (ILea true r (OMem b None d)) m = Some (Next (set_gpr r a m)).
Proof. intros E Ha. cbn [exec]. by rewrite (ea_at m b d a). Qed.
Lemma exec_sub m r k a :
  X86Sem.gpr m r - k = a -> 0 <= a < 2 ^ 64 -> 0 <= k < 2 ^ 31 ->
  exec (IArithI true 5 (OReg r) k) m = Some (Next (set_flags None (set_gpr r a m))).
Proof. intros E Ha Hk. cbn [exec rd]. rewrite (u8_id k) by lia. unfold arith64. cbn. rewrite E. by rewrite u8_id. Qed.
Lemma exec_add m r k a :
  X86Sem.gpr m r + k = a -> 0 <= a < 2 ^ 64 -> 0 <= k < 2 ^ 31 ->
  exec (IArithI true 0 (OReg r) k) m = Some (Next (set_flags None (set_gpr r a m))).
Proof. intros E Ha Hk. cbn [exec rd]. rewrite (u8_id k) by lia. unfold arith64. cbn. rewrite E. by rewrite u8_id. Qed.

Lemma set_gpr_at r v m : X86Sem.gpr (set_gpr r v m) r = v.
Proof. cbn. unfold upd. by rewrite Z.eqb_refl. Qed.
Lemma set_gpr_ne r v q m : q <> r -> X86Sem.gpr (set_gpr r v m) q = X86Sem.gpr m q.
Proof. intros Hn. cbn. unfold upd. by destruct (Z.eqb_spec q r). Qed.

(** Words that are there. *)
Definition mapped (m : mach) (lo hi : Z) : Prop := forall x, lo <= x < hi -> x mod 8 = 0 -> is_Some (mmem m x).

Lemma push_word_ok m s v lo hi :
  X86Sem.gpr m RSP = s -> s mod 8 = 0 -> lo + 8 <= s <= hi -> 0 <= lo -> hi < 2 ^ 64 -> mapped m lo hi ->
  push_word v m = Some (set_gpr RSP (s - 8) (set_mem (s - 8) v m)).
Proof.
  intros Hs Ha Hr Hlo Hhi Hm. unfold push_word. change (X86Sem.gpr m 4) with (X86Sem.gpr m RSP). rewrite Hs.
  unfold u8. rewrite (to_u_id 64) by lia. assert (Ha' : (s - 8) mod 8 = 0) by (Z.to_euclidean_division_equations; lia).
  unfold rd_mem. rewrite Ha'. cbn [Z.eqb]. destruct (Hm (s - 8) ltac:(lia) Ha') as [w ->]. done.
Qed.
Lemma mapped_set m lo hi a v : mapped m lo hi -> mapped (set_mem a v m) lo hi.
Proof. intros H x Hx Hal. cbn. unfold upd. destruct (x =? a); [by eexists|by apply H]. Qed.

(** Pushing registers other than the stack pointer. *)
Record pushed (rs : list Z) (s : Z) (m m' : mach) : Prop := {
  pd_sp : X86Sem.gpr m' RSP = s - 8 * Z.of_nat (length rs);
  pd_gpr : forall r, r <> RSP -> X86Sem.gpr m' r = X86Sem.gpr m r;
  pd_at : forall j r, rs !! j = Some r -> mmem m' (s - 8 * (Z.of_nat j + 1)) = Some (X86Sem.gpr m r);
  pd_other : forall x, ~ (s - 8 * Z.of_nat (length rs) <= x < s) -> mmem m' x = mmem m x;
  pd_mapped : forall lo hi, mapped m lo hi -> mapped m' lo hi
}.
Lemma pushes_spec rs : forall m s lo hi,
  X86Sem.gpr m RSP = s -> s mod 8 = 0 -> lo + 8 * Z.of_nat (length rs) <= s <= hi -> 0 <= lo -> hi < 2 ^ 64 ->
  mapped m lo hi -> Forall (fun r => r <> RSP) rs ->
  exists m', asm_run (pushes rs) m = Some (Next m') /\ pushed rs s m m'.
Proof.
  induction rs as [|r rs IH]; intros m s lo hi Hs Ha Hr Hlo Hhi Hm Hall; cbn [pushes map asm_go].
  { exists m. split; [done|]. split; try done. cbn. lia. }
  apply Forall_cons in Hall as [Hr4 Hall]. cbn [length] in Hr.
  cbn [exec]. rewrite (push_word_ok m s _ lo hi) by (done || lia). set (m1 := set_gpr RSP (s - 8) _).
  destruct (IH m1 (s - 8) lo hi) as (m' & Hrun & [P1 P2 P3 P4 P5]); try done; [Z.to_euclidean_division_equations; lia|lia| |].
  { apply (mapped_set m), Hm. }
  exists m'. split; [exact Hrun|]. split.
  - rewrite P1. cbn [length]. lia.
  - intros q Hq. rewrite P2 by done. cbn. unfold upd. by destruct (Z.eqb_spec q RSP).
  - intros [|j] q Hj; cbn in Hj.
    + injection Hj as <-. rewrite P4 by (cbn [length]; lia). cbn. unfold upd.
      replace (s - 8 * 1) with (s - 8) by lia. by rewrite Z.eqb_refl.
    + replace (s - 8 * (Z.of_nat (S j) + 1)) with (s - 8 - 8 * (Z.of_nat j + 1)) by lia. rewrite (P3 j q Hj). f_equal.
      cbn. unfold upd. destruct (Z.eqb_spec q RSP) as [->|]; [|done].
      apply (Forall_lookup_1 _ _ _ _ Hall) in Hj. done.
  - intros x Hx. cbn [length] in Hx. rewrite P4 by lia. cbn. unfold upd. destruct (Z.eqb_spec x (s - 8)); [lia|done].
  - intros lo' hi' H'. apply P5, (mapped_set m), H'.
Qed.

(** Displacements: that they differ, and that they are those of words in
    the frame. *)
Ltac by_nodup := apply (bool_decide_eq_true_1 _); vm_compute; reflexivity.
Ltac frame_word := repeat constructor; cbn [fst snd]; (lia || Z.to_euclidean_division_equations; lia).

(** Several stores at, and loads from, one base register. *)
Definition stores (b : Z) (ds : list (Z * Z)) : list asm := map (fun '(d, r) => mov_to b d r) ds.
Record stored (p : Z) (ds : list (Z * Z)) (m m' : mach) : Prop := {
  st_gpr : X86Sem.gpr m' = X86Sem.gpr m;
  st_at : forall d r, In (d, r) ds -> mmem m' (p + d) = Some (X86Sem.gpr m r);
  st_other : forall x, ~ In (x - p) (map fst ds) -> mmem m' x = mmem m x;
  st_mapped : forall lo hi, mapped m lo hi -> mapped m' lo hi
}.
Lemma stores_spec b ds : forall m p lo hi,
  X86Sem.gpr m b = p -> mapped m lo hi -> 0 <= lo -> hi <= 2 ^ 64 -> NoDup (map fst ds) ->
  Forall (fun x => lo <= p + fst x < hi /\ (p + fst x) mod 8 = 0) ds ->
  exists m', asm_run (stores b ds) m = Some (Next m') /\ stored p ds m m'.
Proof.
  induction ds as [|[d r] ds IH]; intros m p lo hi Hb Hm Hlo Hhi Hnd Hall; cbn [stores map].
  { exists m. by split. }
  apply Forall_cons in Hall as [[Hr Hal] Hall]. cbn [map fst] in Hnd, Hr, Hal. apply NoDup_cons in Hnd as [Hnin Hnd].
  unfold mov_to at 1. rewrite (run_next _ _ _ _ (exec_store m r b d (p + d) ltac:(by rewrite Hb) ltac:(lia) Hal (Hm _ Hr Hal))).
  set (m1 := set_mem (p + d) _ m). destruct (IH m1 p lo hi) as (m' & Hrun & [P1 P2 P3 P4]); try done; [by apply mapped_set|].
  exists m'. split; [exact Hrun|]. split.
  - exact P1.
  - intros d' r' [[= <- <-]|Hin]; [|by apply P2]. rewrite P3.
    + cbn. unfold upd. by rewrite Z.eqb_refl.
    + replace (p + d - p) with d by lia. by rewrite <- list_elem_of_In.
  - intros x Hx. cbn [map fst] in Hx. rewrite P3 by (intros ?; apply Hx; by right). cbn. unfold upd.
    destruct (Z.eqb_spec x (p + d)) as [->|]; [|done]. destruct Hx. left. cbn. lia.
  - intros lo' hi' H'. by apply P4, mapped_set.
Qed.
Definition loads (b : Z) (ds : list (Z * Z)) : list asm := map (fun '(r, d) => mov_from r b d) ds.
Record loaded (p : Z) (ds : list (Z * Z)) (m m' : mach) : Prop := {
  ld_at : forall r d, In (r, d) ds -> mmem m (p + d) = Some (X86Sem.gpr m' r);
  ld_other : forall r, ~ In r (map fst ds) -> X86Sem.gpr m' r = X86Sem.gpr m r;
  ld_mem : mmem m' = mmem m
}.
Lemma loads_spec b ds : forall m p lo hi,
  X86Sem.gpr m b = p -> mapped m lo hi -> 0 <= lo -> hi <= 2 ^ 64 -> NoDup (map fst ds) -> ~ In b (map fst ds) ->
  Forall (fun x => lo <= p + snd x < hi /\ (p + snd x) mod 8 = 0) ds ->
  exists m', asm_run (loads b ds) m = Some (Next m') /\ loaded p ds m m'.
Proof.
  induction ds as [|[r d] ds IH]; intros m p lo hi Hb Hm Hlo Hhi Hnd Hbn Hall; cbn [loads map].
  { exists m. by split. }
  apply Forall_cons in Hall as [[Hr Hal] Hall]. cbn [map fst snd] in Hnd, Hbn, Hr, Hal. apply NoDup_cons in Hnd as [Hnin Hnd].
  destruct (Hm _ Hr Hal) as [v Hv].
  unfold mov_from at 1. rewrite (run_next _ _ _ _ (exec_load m r b d (p + d) v ltac:(by rewrite Hb) ltac:(lia) Hal Hv)).
  set (m1 := set_gpr r v m). destruct (IH m1 p lo hi) as (m' & Hrun & [P1 P2 P3]); try done.
  { cbn. unfold upd. destruct (Z.eqb_spec b r) as [->|]; [|done]. destruct Hbn. by left. }
  { intros Hin. apply Hbn. by right. }
  exists m'. split; [exact Hrun|]. split.
  - intros r' d' [[= <- <-]|Hin]; [|by apply P1]. rewrite P2; [|by rewrite <- list_elem_of_In].
    cbn. unfold upd. by rewrite Z.eqb_refl.
  - intros q Hq. cbn [map fst] in Hq. rewrite P2 by (intros ?; apply Hq; by right). cbn. unfold upd.
    destruct (Z.eqb_spec q r) as [->|]; [|done]. destruct Hq. by left.
  - exact P3.
Qed.

Section machine.
Context {TF : TraceFrame} {RA : RuntimeAddrs}.
Abbreviation SP := tf_sp.

(** At the label [asmExit]: the trace's machine is [m], the two bytes of
    the exit number have been pushed. *)
Record at_exit (lo hi : Z) (m m1 : mach) : Prop := {
  ae_sp : X86Sem.gpr m1 RSP = SP - 16;
  ae_gpr : forall r, r <> RSP -> X86Sem.gpr m1 r = X86Sem.gpr m r;
  ae_lo : mmem m1 (SP - 8) = Some lo;
  ae_hi : mmem m1 (SP - 16) = Some hi;
  ae_other : forall x, ~ (SP - 16 <= x < SP) -> mmem m1 x = mmem m x;
  ae_mapped : mapped m1 (SP - 128) SP
}.
(** At the call of [exitTrace]: the structure is at [SP - 256]. *)
Record at_exitTrace (k : Z) (m m2 : mach) : Prop := {
  at_rdi : X86Sem.gpr m2 RDI = k;
  at_rsi : X86Sem.gpr m2 RSI = SP - 256;
  at_rsp : X86Sem.gpr m2 RSP = SP - 256;
  at_regs : forall r, 0 <= r < 16 -> r <> RSP -> mmem m2 (SP - 128 + 8 * r) = Some (X86Sem.gpr m r);
  at_rsp_word : mmem m2 (SP - 128 + 8 * RSP) = Some SP;
  at_other : forall x, SP <= x -> mmem m2 x = mmem m x
}.

Lemma sp_facts : SP mod 8 = 0 /\ 0 <= SP /\ SP + 2088 <= 2 ^ 64.
Proof using Type. destruct tf_ok as (H1 & H2 & H3). unfold SPILL_SP_OFFS in H3. split_and!; try done. lia. Qed.

(** The registers of the structure from number [top] down: the ones above
    it are in place already. *)
Definition frame_regs (top : Z) : list Z := (fun i => top - i) <$> seqZ 0 (top - 4).
Definition push_frame (top : Z) : list asm :=
  pushes (frame_regs top) ++ [AI (ILea true RBP (OMem RSP None 88))] ++ pushes [RBP; RBX; RDX; RCX; RAX].
Lemma save_registers top m1 :
  top = 12 \/ top = 13 -> X86Sem.gpr m1 RSP = SP - 8 * (15 - top) -> 256 <= SP -> mapped m1 (SP - 128) SP ->
  exists m2, asm_run (push_frame top) m1 = Some (Next m2)
    /\ X86Sem.gpr m2 RSP = SP - 128 /\ X86Sem.gpr m2 RBP = SP
    /\ (forall r, r <> RSP -> r <> RBP -> X86Sem.gpr m2 r = X86Sem.gpr m1 r)
    /\ (forall r, 0 <= r <= top -> r <> RSP -> mmem m2 (SP - 128 + 8 * r) = Some (X86Sem.gpr m1 r))
    /\ mmem m2 (SP - 128 + 8 * RSP) = Some SP
    /\ (forall x, ~ (SP - 128 <= x < SP - 8 * (15 - top)) -> mmem m2 x = mmem m1 x) /\ mapped m2 (SP - 128) SP.
Proof using Type.
  intros Htop Hsp Hroom Hmap. destruct sp_facts as (Hal & H0 & Hmax).
  assert (Hlen : Z.of_nat (length (frame_regs top)) = top - 4) by (unfold frame_regs; rewrite length_fmap, length_seqZ; lia).
  destruct (pushes_spec (frame_regs top) m1 (SP - 8 * (15 - top)) (SP - 128) SP) as (m3 & X3 & [P1 P2 P3 P4 P5]); try done;
    [Z.to_euclidean_division_equations; lia|lia|lia|lia| |].
  { unfold frame_regs. apply Forall_forall. intros r (i & -> & Hi%elem_of_seqZ)%list_elem_of_fmap. unfold RSP. lia. }
  rewrite Hlen in *. set (m4 := set_gpr RBP SP m3).
  assert (X4 : asm_run [AI (ILea true RBP (OMem RSP None 88))] m3 = Some (Next m4)).
  { cbn [asm_go]. by rewrite (exec_lea m3 RBP RSP 88 SP) by lia. }
  assert (Hg4 : forall r, r <> RBP -> X86Sem.gpr m4 r = X86Sem.gpr m3 r).
  { intros r Hr. cbn. unfold upd. by destruct (Z.eqb_spec r RBP). }
  destruct (pushes_spec [RBP; RBX; RDX; RCX; RAX] m4 (SP - 88) (SP - 128) SP) as (m2 & X2 & [Q1 Q2 Q3 Q4 Q5]); try done;
    [rewrite Hg4 by done; rewrite P1; lia|Z.to_euclidean_division_equations; lia|cbn; lia|lia|lia|exact (P5 _ _ Hmap)|by repeat constructor|].
  change (Z.of_nat (length [RBP; RBX; RDX; RCX; RAX])) with 5 in *.
  exists m2. split_and!.
  - unfold push_frame. by rewrite (asm_run_app _ _ _ _ X3), (asm_run_app _ _ _ _ X4).
  - rewrite Q1. lia.
  - by rewrite Q2.
  - intros r H4 H5. by rewrite Q2, Hg4, P2 by done.
  - intros r Hr H4. destruct (Z.le_gt_cases 5 r) as [Hge|Hlt].
    + rewrite Q4 by lia. change (mmem m4) with (mmem m3).
      replace (SP - 128 + 8 * r) with (SP - 8 * (15 - top) - 8 * (Z.of_nat (Z.to_nat (top - r)) + 1)) by lia.
      apply P3. unfold frame_regs. rewrite list_lookup_fmap, lookup_seqZ_lt by lia. cbn. f_equal. lia.
    + assert (Hj : [RBP; RBX; RDX; RCX; RAX] !! Z.to_nat (4 - r) = Some r).
      { assert (Hin : In r [0;1;2;3]) by (unfold RSP in *; cbn; lia). cbn in Hin. by destruct Hin as [<-|[<-|[<-|[<-|[]]]]]. }
      replace (SP - 128 + 8 * r) with (SP - 88 - 8 * (Z.of_nat (Z.to_nat (4 - r)) + 1)) by lia.
      rewrite (Q3 _ _ Hj), Hg4, P2; [done|done|unfold RBP; lia].
  - replace (SP - 128 + 8 * RSP) with (SP - 88 - 8 * (Z.of_nat 0 + 1)) by (unfold RSP; lia). by rewrite (Q3 0%nat RBP eq_refl).
  - intros x Hx. rewrite Q4 by lia. change (mmem m4 x) with (mmem m3 x). apply P4. lia.
  - apply Q5, (P5 _ _ Hmap).
Qed.

Lemma byte_low v : Z.land (Z.shiftr v (8 * 0)) 0xff = u1 v.
Proof using Type. change (8 * 0) with 0. rewrite Z.shiftr_0_r. change 0xff with (Z.ones 8). by rewrite Z.land_ones by lia. Qed.
(** AL and AH put together. *)
Lemma exit_number lo hi :
  u4 (Z.lor (Z.land (u1 lo) (Z.lnot 0xff00)) (Z.shiftl (u1 hi) 8)) = u1 lo + 256 * u1 hi.
Proof using Type.
  assert (Hl : 0 <= u1 lo < 256) by apply (to_u_bound 8 ltac:(lia)).
  assert (Hh : 0 <= u1 hi < 256) by apply (to_u_bound 8 ltac:(lia)).
  assert (Hall : forallb (fun x => Z.land x (Z.lnot 0xff00) =? x) (seqZ 0 256) = true) by (vm_compute; reflexivity).
  rewrite forallb_forall in Hall. specialize (Hall (u1 lo) ltac:(apply list_elem_of_In, elem_of_seqZ; lia)).
  apply Z.eqb_eq in Hall. rewrite Hall.
  rewrite shiftl_lor_add by lia. change (2 ^ 8) with 256. unfold u4. rewrite (to_u_id 32) by lia. lia.
Qed.

(** The exit number is put together, and the last two registers take the
    place of its bytes. *)
Definition exit_tail : list asm :=
  [AI (IMovzxb false RAX (OMem RBP None (-8))); AMovAh (OMem RBP None (-16)); AI (IMovRM false RDI (OReg RAX));
   mov_to RBP (-8) 15; mov_to RBP (-16) 14;
   AI (IArithI true 5 (OReg RSP) 128); AI (IArithI true 5 (OReg RBP) 128);
   mov_reg RSI RSP].
Lemma asmExit_split :
  asmExit_code = push_frame 13 ++ exit_tail.
Proof using Type. reflexivity. Qed.
Lemma exit_tail_runs lo hi m :
  256 <= SP -> X86Sem.gpr m RSP = SP - 128 -> X86Sem.gpr m RBP = SP ->
  mmem m (SP - 8) = Some lo -> mmem m (SP - 16) = Some hi ->
  exists m', asm_run exit_tail m = Some (Next m')
    /\ X86Sem.gpr m' RDI = u1 lo + 256 * u1 hi /\ X86Sem.gpr m' RSI = SP - 256 /\ X86Sem.gpr m' RSP = SP - 256
    /\ mmem m' (SP - 8) = Some (X86Sem.gpr m 15) /\ mmem m' (SP - 16) = Some (X86Sem.gpr m 14)
    /\ (forall x, x <> SP - 8 -> x <> SP - 16 -> mmem m' x = mmem m x).
Proof using Type.
  intros Hroom B1 B2 L1 L2. destruct sp_facts as (Hal & H0 & Hmax).
  assert (M1 : (SP - 8) mod 8 = 0) by (Z.to_euclidean_division_equations; lia).
  assert (M2 : (SP - 16) mod 8 = 0) by (Z.to_euclidean_division_equations; lia).
  set (rax := Z.lor (Z.land (u1 lo) (Z.lnot 0xff00)) (Z.shiftl (u1 hi) 8)).
  set (ma := set_gpr RAX (u1 lo) m). set (mb := set_gpr RAX rax ma). set (m4 := set_gpr RDI (u4 rax) mb).
  assert (X1 : exec (IMovzxb false RAX (OMem RBP None (-8))) m = Some (Next ma)).
  { cbn [exec]. rewrite (ea_at m RBP (-8) (SP - 8)) by lia. rewrite M1, Z.sub_0_r, L1. by rewrite byte_low. }
  assert (X2 : mov_ah (OMem RBP None (-16)) ma = Some mb).
  { cbn [mov_ah]. rewrite (ea_at ma RBP (-16) (SP - 16)); [|change (X86Sem.gpr m RBP + -16 = SP - 16); lia|lia].
    rewrite M2, Z.sub_0_r. change (mmem ma) with (mmem m). by rewrite L2, byte_low. }
  assert (X3 : exec (IMovRM false RDI (OReg RAX)) mb = Some (Next m4)) by reflexivity.
  unfold exit_tail, mov_to, mov_reg. rewrite (run_next _ _ _ _ X1), (run_ah _ _ _ _ X2), (run_next _ _ _ _ X3).
  assert (D8 : X86Sem.gpr m4 RBP + -8 = SP - 8) by (change (X86Sem.gpr m4 RBP) with (X86Sem.gpr m RBP); lia).
  assert (D16 : X86Sem.gpr m4 RBP + -16 = SP - 16) by (change (X86Sem.gpr m4 RBP) with (X86Sem.gpr m RBP); lia).
  assert (D128 : X86Sem.gpr m4 RSP - 128 = SP - 256) by (change (X86Sem.gpr m4 RSP) with (X86Sem.gpr m RSP); lia).
  assert (Dbp : X86Sem.gpr m4 RBP - 128 = SP - 128) by (change (X86Sem.gpr m4 RBP) with (X86Sem.gpr m RBP); lia).
  rewrite (run_next _ _ _ _ (exec_store m4 15 RBP (-8) (SP - 8) D8 ltac:(lia) M1 (mk_is_Some _ _ L1))).
  set (m5 := set_mem _ _ m4). assert (L3 : is_Some (mmem m5 (SP - 16))).
  { cbn. unfold upd. destruct (Z.eqb_spec (SP - 16) (SP - 8)); [lia|by eexists]. }
  rewrite (run_next _ _ _ _ (exec_store m5 14 RBP (-16) (SP - 16) D16 ltac:(lia) M2 L3)).
  set (m6 := set_mem _ _ m5).
  rewrite (run_next _ _ _ _ (exec_sub m6 RSP 128 (SP - 256) D128 ltac:(lia) ltac:(lia))).
  set (m7 := set_flags None (set_gpr RSP (SP - 256) m6)).
  rewrite (run_next _ _ _ _ (exec_sub m7 RBP 128 (SP - 128) Dbp ltac:(lia) ltac:(lia))).
  eexists. split; [reflexivity|]. split; [|split; [reflexivity|split; [reflexivity|split; [|split]]]].
  - change (u4 rax = u1 lo + 256 * u1 hi). apply exit_number.
  - cbn. unfold upd. destruct (Z.eqb_spec (SP - 8) (SP - 16)); [lia|]. by rewrite Z.eqb_refl.
  - cbn. unfold upd. by rewrite Z.eqb_refl.
  - intros x H1 H2. cbn. unfold upd. destruct (Z.eqb_spec x (SP - 16)); [done|]. by destruct (Z.eqb_spec x (SP - 8)).
Qed.

Lemma asmExit_runs lo hi m m1 :
  X86Sem.gpr m RSP = SP -> 256 <= SP -> at_exit lo hi m m1 ->
  exists m2, asm_run asmExit_code m1 = Some (Next m2) /\ at_exitTrace (u1 lo + 256 * u1 hi) m m2.
Proof using Type.
  intros Hm Hroom [A1 A2 A3 A4 A5 A6]. destruct (save_registers 13 m1 (or_intror eq_refl) A1 Hroom A6) as (m3 & X3 & B1 & B2 & B3 & B4 & B5 & B6 & _).
  destruct (exit_tail_runs lo hi m3 Hroom B1 B2) as (m2 & X2 & C1 & C2 & C3 & C4 & C5 & C6);
    [rewrite B6 by lia; done|rewrite B6 by lia; done|].
  exists m2. split; [by rewrite asmExit_split, (asm_run_app _ _ _ _ X3)|]. split; try done.
  - intros r Hr Hne. destruct (Z.eq_dec r 15) as [->|H15].
    { replace (SP - 128 + 8 * 15) with (SP - 8) by lia. by rewrite C4, B3, A2. }
    destruct (Z.eq_dec r 14) as [->|H14].
    { replace (SP - 128 + 8 * 14) with (SP - 16) by lia. by rewrite C5, B3, A2. }
    rewrite C6, B4, A2 by lia. done.
  - unfold RSP in *. rewrite C6 by lia. exact B5.
  - intros x Hx. rewrite C6, B6, A5 by lia. done.
Qed.

(** ** Reading the structure *)

Lemma mapM_values {A B} (f : A -> option B) (g : A -> B) l : (forall x, In x l -> f x = Some (g x)) -> mapM f l = Some (map g l).
Proof using Type.
  induction l as [|x l IH]; intros H; [done|]. cbn. rewrite (H x) by by left. cbn. rewrite IH; [done|]. intros y Hy. apply H. by right.
Qed.
Lemma rd_word m x : x mod 8 = 0 -> rd_mem m x = mmem m x.
Proof using Type. intros E. unfold rd_mem. by rewrite E. Qed.
Lemma in_seqZ k n : In k (seqZ 0 n) -> 0 <= k < n.
Proof using Type. rewrite <- list_elem_of_In, elem_of_seqZ. lia. Qed.

Definition word (m : mach) (x : Z) : Z := default 0 (mmem m x).
Lemma read_exit_saves k m m2 :
  X86Sem.gpr m RSP = SP -> mapped m SP (SP + 2088) -> at_exitTrace k m m2 ->
  exists ex, read_exit m2 (X86Sem.gpr m2 RSI) = Some ex /\ saves ex m
    /\ mmem m SP = Some (hplim ex) /\ F_id ex = u4 (word m (SP + 32)).
Proof using Type.
  intros Hm Hmap [E1 E2 E3 E4 E5 E6]. destruct sp_facts as (Hal & H0 & Hmax).
  assert (Hw : forall x, SP <= x < SP + 2088 -> x mod 8 = 0 -> rd_mem m2 x = Some (word m x) /\ mmem m x = Some (word m x)).
  { intros x Hx Hx8. rewrite rd_word, E6 by (done || lia). destruct (Hmap x Hx Hx8) as [v Hv]. unfold word. by rewrite Hv. }
  assert (Hreg : forall r, 0 <= r < 16 -> rd_mem m2 (SP - 256 + ES_gpr + 8 * r) = Some (X86Sem.gpr m r)).
  { intros r Hr. change ES_gpr with 128. replace (SP - 256 + 128 + 8 * r) with (SP - 128 + 8 * r) by lia.
    rewrite rd_word by (Z.to_euclidean_division_equations; lia).
    destruct (Z.eq_dec r RSP) as [->|]; [by rewrite Hm|by apply E4]. }
  assert (A : forall d, d mod 8 = 0 -> (SP + d) mod 8 = 0) by (intros d Hd; Z.to_euclidean_division_equations; lia).
  rewrite E2. unfold read_exit.
  rewrite (mapM_values _ (X86Sem.gpr m)) by (intros r Hr%in_seqZ; by apply Hreg).
  change ES_hplim with 256. change ES_F_id with (256 + 32). change ES_spill with (256 + 40).
  replace (SP - 256 + 256) with SP by lia. replace (SP - 256 + (256 + 32)) with (SP + 32) by lia.
  replace (SP - 256 + (256 + 40)) with (SP + 40) by lia.
  destruct (Hw SP) as [Hl Hl']; [lia|done|]. destruct (Hw (SP + 32)) as [Hf _]; [lia|by apply A|]. rewrite Hl, Hf.
  rewrite (mapM_values _ (fun s => word m (slot_addr s))).
  2: { intros s Hs%in_seqZ. unfold slot_addr, SPILL_SP_OFFS. apply Hw; [lia|]. Z.to_euclidean_division_equations. lia. }
  eexists. split; [reflexivity|]. split; [|split; [exact Hl'|done]]. split.
  - intros r Hr. cbn [TraceExit.gpr]. change (map ?f ?l) with (f <$> l).
    rewrite list_lookup_fmap, lookup_seqZ_lt by lia. cbn. do 2 f_equal. lia.
  - intros s v Hs Hv. cbn [spill]. change (map ?f ?l) with (f <$> l).
    rewrite list_lookup_fmap, lookup_seqZ_lt by lia. cbn. do 2 f_equal. unfold word.
    replace (0 + Z.of_nat (Z.to_nat s)) with s by lia. by rewrite Hv.
Qed.

(** ** Exit stubs *)

Definition group_base (group : Z) : Z := Z.land (group * EXITSTUBS_PER_GROUP) 0xff.
Definition group_bytes (group g : Z) : list Z := stub_bytes group ++ le_bytes 4 (asmExit - (g + 133)).
Lemma generateExitstubGroup_bytes group a g a' :
  generateExitstubGroup group a = Ok (g, a') ->
  bytes_at (bytes (code a')) g (group_bytes group g) /\ is_i32 (asmExit - (g + 133)).
Proof using Type.
  unfold generateExitstubGroup. destruct (_ <=? _); [done|].
  intros (c & Hc%writes_up_rel & (mc & _ & [= <- <-])%obind_ok)%obind_ok. destruct Hc as [W I].
  set (g := mcbot (area a)) in *. set (c0 := (bytes (code a), g)) in *.
  pose proof (writes_up_bytes (stub_bytes group) c0) as W0.
  assert (E : (put_bytes (stub_bytes group) c0).2 + 4 = g + 133).
  { rewrite (wu_end _ _ _ W0). change (snd c0) with g. change (length (stub_bytes group)) with 129%nat. lia. }
  rewrite E in *. split; [|done]. exact (wu_at _ _ _ (writes_up_app _ _ _ _ _ W0 W)).
Qed.

Lemma stub_entry group (i : nat) : (i < 32)%nat ->
  stub_bytes group !! (4 * i)%nat = Some 0x6a /\ stub_bytes group !! (4 * i + 1)%nat = Some (u1 (group_base group + Z.of_nat i)).
Proof using Type.
  intros Hi. destruct i as [|i]; [split; [done|]; by rewrite Z.add_0_r|].
  do 31 (destruct i as [|i]; [split; reflexivity|]). lia.
Qed.
Lemma stub_jump group (i : nat) : (i < 31)%nat ->
  stub_bytes group !! (4 * i + 2)%nat = Some 0xeb /\ stub_bytes group !! (4 * i + 3)%nat = Some (u1 (4 * (31 - Z.of_nat i) - 2)).
Proof using Type. intros Hi. do 31 (destruct i as [|i]; [split; reflexivity|]). lia. Qed.
Lemma stub_end group :
  stub_bytes group !! 126%nat = Some 0x6a /\ stub_bytes group !! 127%nat = Some (u1 (Z.shiftr (group * EXITSTUBS_PER_GROUP) 8))
  /\ stub_bytes group !! 128%nat = Some 0xe9.
Proof using Type. split_and!; reflexivity. Qed.

Section stub.
Context (group g : Z) (b : gmap Z Z).
Hypotheses (Hb : bytes_at b g (group_bytes group g)) (Hrel : is_i32 (asmExit - (g + 133))).

Lemma group_two (j : nat) x y :
  stub_bytes group !! j = Some x -> stub_bytes group !! (j + 1)%nat = Some y -> bytes_at b (g + Z.of_nat j) [x; y].
Proof using Hb.
  intros Hx Hy. apply bytes_at_app in Hb as [H _]. intros [|[|k]] v Hv; cbn in Hv; [| |done]; injection Hv as <-.
  - rewrite <- (H _ _ Hx). f_equal. lia.
  - rewrite <- (H _ _ Hy). f_equal. lia.
Qed.
Definition stub_target (i : Z) : Z := g + EXITSTUB_SPACING * i.
Definition low_byte (i : Z) : Z := u8 (to_s 8 (group_base group + i)).
Definition high_byte : Z := u8 (to_s 8 (Z.shiftr (group * EXITSTUBS_PER_GROUP) 8)).

Lemma decode_entry i : 0 <= i < 32 ->
  decode b (stub_target i) = Some (IPushI (to_s 8 (group_base group + i)), stub_target i + 2).
Proof using Hb.
  intros Hi. destruct (stub_entry group (Z.to_nat i) ltac:(lia)) as [H1 H2]. rewrite Z2Nat.id in H2 by lia.
  pose proof (group_two _ _ _ H1 H2) as Ht. replace (g + Z.of_nat (4 * Z.to_nat i)) with (stub_target i) in Ht
    by (unfold stub_target, EXITSTUB_SPACING; lia).
  exact (decode_bytes _ _ _ _ (encodes_push_byte _) Ht).
Qed.
Lemma decode_skip i : 0 <= i < 31 -> decode b (stub_target i + 2) = Some (IJmp (g + 126), stub_target i + 4).
Proof using Hb.
  intros Hi. destruct (stub_jump group (Z.to_nat i) ltac:(lia)) as [H1 H2]. rewrite Z2Nat.id in H2 by lia.
  replace (4 * Z.to_nat i + 3)%nat with (4 * Z.to_nat i + 2 + 1)%nat in H2 by lia.
  pose proof (group_two _ _ _ H1 H2) as Ht. replace (g + Z.of_nat (4 * Z.to_nat i + 2)) with (stub_target i + 2) in Ht
    by (unfold stub_target, EXITSTUB_SPACING; lia).
  rewrite (decode_bytes _ _ _ _ (encodes_jmp_short _) Ht). change (Z.of_nat (length [235; u1 (4 * (31 - i) - 2)])) with 2.
  cbn [absolute]. rewrite (to_s_id 8) by lia. unfold stub_target, EXITSTUB_SPACING. do 2 f_equal; [f_equal; lia|lia].
Qed.
Lemma decode_end : decode b (g + 126) = Some (IPushI (to_s 8 (Z.shiftr (group * EXITSTUBS_PER_GROUP) 8)), g + 128).
Proof using Hb.
  destruct (stub_end group) as (H1 & H2 & _). pose proof (group_two 126 _ _ H1 H2) as Ht.
  change (Z.of_nat 126) with 126 in Ht. rewrite (decode_bytes _ _ _ _ (encodes_push_byte _) Ht). do 2 f_equal. cbn [length]. lia.
Qed.
Lemma decode_exit : decode b (g + 128) = Some (IJmp asmExit, g + 133).
Proof using Hb Hrel.
  assert (Ht : bytes_at b (g + 128) (0xe9 :: le_bytes 4 (asmExit - (g + 133)))).
  { intros j x Hj. rewrite <- (Hb (128 + j)%nat x); [f_equal; lia|]. unfold group_bytes.
    destruct j as [|j]; [done|]. rewrite lookup_app_r by (change (length (stub_bytes group)) with 129%nat; lia).
    change (length (stub_bytes group)) with 129%nat. rewrite <- Hj. cbn [lookup list_lookup]. f_equal. lia. }
  rewrite (decode_bytes _ _ _ _ (encodes_jmp _ Hrel) Ht). change (Z.of_nat (length (233 :: le_bytes 4 _))) with 5.
  cbn [absolute]. do 2 f_equal; [f_equal; lia|lia].
Qed.

Lemma step_exec p q i m r :
  decode b p = Some (i, q) -> exec i m = Some r ->
  steps b (p, m) (match r with Next m' => (q, m') | Goto t m' => (t, m') end).
Proof using Type.
  intros Hd He. apply rtc_once. unfold step. cbn [fst snd]. rewrite Hd, (exec_at_exec _ _ _ _ He). done.
Qed.

(** The stub pushes both bytes and jumps to [asmExit]. *)
Lemma stub_runs i m :
  0 <= i < 32 -> X86Sem.gpr m RSP = SP -> 256 <= SP -> mapped m (SP - 128) SP ->
  exists m1, steps b (stub_target i, m) (asmExit, m1) /\ at_exit (low_byte i) high_byte m m1.
Proof using Hb Hrel.
  intros Hi Hsp Hroom Hmap. destruct sp_facts as (Hal & H0 & Hmax).
  set (m2 := set_gpr RSP (SP - 8) (set_mem (SP - 8) (low_byte i) m)).
  assert (X1 : exec (IPushI (to_s 8 (group_base group + i))) m = Some (Next m2)).
  { cbn [exec]. by rewrite (push_word_ok m SP _ (SP - 128) SP) by (done || lia). }
  set (m1 := set_gpr RSP (SP - 16) (set_mem (SP - 16) high_byte m2)).
  assert (X2 : exec (IPushI (to_s 8 (Z.shiftr (group * EXITSTUBS_PER_GROUP) 8))) m2 = Some (Next m1)).
  { cbn [exec]. rewrite (push_word_ok m2 (SP - 8) _ (SP - 128) SP); try done; try lia.
    - by replace (SP - 8 - 8) with (SP - 16) by lia.
    - Z.to_euclidean_division_equations. lia.
    - apply (mapped_set m), Hmap. }
  exists m1. split.
  - etransitivity; [exact (step_exec _ _ _ _ _ (decode_entry i Hi) X1)|].
    transitivity (g + 126, m2).
    { destruct (Z.eq_dec i 31) as [->|Hn].
      - replace (stub_target 31 + 2) with (g + 126) by (unfold stub_target, EXITSTUB_SPACING; lia). reflexivity.
      - exact (step_exec _ _ _ _ (Goto (g + 126) m2) (decode_skip i ltac:(lia)) eq_refl). }
    etransitivity; [exact (step_exec _ _ _ _ _ decode_end X2)|].
    exact (step_exec _ _ _ _ (Goto asmExit m1) decode_exit eq_refl).
  - split; cbn; unfold upd.
    + reflexivity.
    + intros r Hr. by destruct (Z.eqb_spec r RSP).
    + destruct (Z.eqb_spec (SP - 8) (SP - 16)); [lia|]. by rewrite Z.eqb_refl.
    + by rewrite Z.eqb_refl.
    + intros x Hx. destruct (Z.eqb_spec x (SP - 16)); [lia|]. destruct (Z.eqb_spec x (SP - 8)); [lia|]. done.
    + apply (mapped_set m2), (mapped_set m), Hmap.
Qed.
End stub.

(** The exit number in its two bytes. *)
Lemma pushed_byte v : u1 (u8 (to_s 8 v)) = u1 v.
Proof using Type.
  unfold u1, u8, to_s, to_u. change (8 - 1) with 7. destruct (_ <? _); Z.to_euclidean_division_equations; lia.
Qed.
Lemma stub_number group i : 0 <= group < 16 -> 0 <= i < 32 ->
  u1 (low_byte group i) + 256 * u1 (high_byte group) = 32 * group + i.
Proof using Type.
  intros Hg Hi. unfold low_byte, high_byte. rewrite !pushed_byte.
  assert (Hall : forallb (fun group => forallb (fun i =>
    u1 (group_base group + i) + 256 * u1 (Z.shiftr (group * EXITSTUBS_PER_GROUP) 8) =? 32 * group + i) (seqZ 0 32)) (seqZ 0 16) = true)
    by (vm_compute; reflexivity).
  rewrite forallb_forall in Hall. specialize (Hall group ltac:(apply list_elem_of_In, elem_of_seqZ; lia)). cbn beta in Hall.
  rewrite forallb_forall in Hall. by specialize (Hall i ltac:(apply list_elem_of_In, elem_of_seqZ; lia)) as ->%Z.eqb_eq.
Qed.

(** The groups of stubs that have been written are there. *)
Definition stubs_at (b : gmap Z Z) (a : Assembler) : Prop :=
  forall j g, exitStubGroup a !! j = Some g -> g <> 0 ->
    (j < 16)%nat /\ bytes_at b g (group_bytes (Z.of_nat j) g) /\ is_i32 (asmExit - (g + 133)).

(** From the exit stub of exit number [k] to the call of [exitTrace]. *)
Lemma exit_calls a b k t m :
  stubs_at b a -> 0 <= k -> exitstubAddr k a = Ok (t, a) ->
  X86Sem.gpr m RSP = SP -> 256 <= SP -> mapped m (SP - 128) (SP + 2088) ->
  exists m1 m2 ex, steps b (t, m) (asmExit, m1) /\ asm_run asmExit_code m1 = Some (Next m2)
    /\ at_exitTrace k m m2 /\ read_exit m2 (X86Sem.gpr m2 RSI) = Some ex /\ saves ex m
    /\ mmem m SP = Some (hplim ex) /\ F_id ex = u4 (word m (SP + 32)).
Proof using Type.
  intros Hst Hk Ht Hsp Hroom Hmap. unfold exitstubAddr in Ht. apply obind_ok in Ht as (g & Hg & Ht).
  apply of_option_ok in Hg. destruct (Z.eqb_spec g 0) as [|Hnz]; [done|]. injection Ht as <-.
  set (group := k / EXITSTUBS_PER_GROUP) in *. assert (Hgr : 0 <= group) by (apply Z.div_pos; [done|by vm_compute]).
  destruct (Hst _ _ Hg Hnz) as (Hj & Hb & Hr). rewrite Z2Nat.id in Hb by done.
  assert (Hi : 0 <= k mod EXITSTUBS_PER_GROUP < 32) by (apply Z.mod_pos_bound; by vm_compute).
  assert (Hk' : 32 * group + k mod EXITSTUBS_PER_GROUP = k) by (symmetry; apply Z.div_mod; by vm_compute).
  assert (Hlow : mapped m (SP - 128) SP) by (intros x Hx; apply Hmap; lia).
  assert (Hhigh : mapped m SP (SP + 2088)) by (intros x Hx; apply Hmap; lia).
  destruct (stub_runs group g b Hb Hr _ m Hi Hsp Hroom Hlow) as (m1 & X1 & A1).
  destruct (asmExit_runs _ _ m m1 Hsp Hroom A1) as (m2 & X2 & A2).
  rewrite stub_number, Hk' in A2 by lia. destruct (read_exit_saves k m m2 Hsp Hhigh A2) as (ex & Hex & Hs & Hl & Hf).
  exists m1, m2, ex. by split_and!.
Qed.

(** *** Writing the groups *)

Record groups_ok (a : Assembler) : Prop := {
  gk_length : length (exitStubGroup a) = 16%nat;
  gk_stubs : stubs_at (bytes (code a)) a;
  gk_below : forall j g, exitStubGroup a !! j = Some g -> g <> 0 -> g + 133 <= mcbot (area a)
}.
Lemma stubs_at_ext b b' a hi :
  (forall j g, exitStubGroup a !! j = Some g -> g <> 0 -> g + 133 <= hi) ->
  (forall q, q < hi -> b' !! q = b !! q) -> stubs_at b a -> stubs_at b' a.
Proof using Type.
  intros Hlow He H j g Hg Hn. destruct (H j g Hg Hn) as (Hj & Hb & Hr). split; [done|]. split; [|done].
  eapply bytes_at_ext; [|exact Hb]. intros q Hq. apply He. specialize (Hlow j g Hg Hn).
  change (length (group_bytes (Z.of_nat j) g)) with 133%nat in Hq. lia.
Qed.
Lemma generate_groups_ok i g a a' :
  groups_ok a -> (i < 16)%nat -> generateExitstubGroup (Z.of_nat i) a = Ok (g, a') ->
  groups_ok (set_stubs (<[i := g]> (exitStubGroup a')) a').
Proof using Type.
  intros [Hl Hs Hlow] Hi H. destruct (generateExitstubGroup_bytes _ _ _ _ H) as [Hb Hr].
  unfold generateExitstubGroup in H. destruct (_ <=? _); [done|].
  apply obind_ok in H as (c & [W _]%writes_up_rel & (mc & _ & [= <- <-])%obind_ok).
  set (bot := mcbot (area a)) in *. pose proof (writes_up_app _ _ _ _ _ (writes_up_bytes (stub_bytes (Z.of_nat i)) (bytes (code a), bot)) W) as [E _ O].
  assert (Hend : snd c = bot + 133).
  { rewrite E, length_app, le_bytes_length. change (length (stub_bytes (Z.of_nat i))) with 129%nat. cbn [snd]. lia. }
  split; cbn [exitStubGroup set_stubs set_area set_acode set_mcode code bytes area mcbot].
  - by rewrite length_insert.
  - intros j g Hj Hn. destruct (decide (i = j)) as [<-|Hne].
    + cbn in Hj. rewrite list_lookup_insert_eq in Hj by lia. injection Hj as <-. split; [done|]. by split.
    + cbn in Hj. rewrite list_lookup_insert_ne in Hj by done.
      refine (stubs_at_ext (bytes (code a)) _ a bot Hlow _ Hs j g Hj Hn). intros q Hq. apply O. cbn [fst snd]. lia.
  - intros j g Hj Hn. destruct (decide (i = j)) as [<-|Hne].
    + cbn in Hj. rewrite list_lookup_insert_eq in Hj by lia. injection Hj as <-. fold bot. lia.
    + cbn in Hj. rewrite list_lookup_insert_ne in Hj by done. specialize (Hlow j g Hj Hn). fold bot in Hlow. lia.
Qed.
Lemma setup_groups_ok n : forall i a u a',
  groups_ok a -> 0 <= i -> setup_groups i n a = Ok (u, a') -> groups_ok a'.
Proof using Type.
  induction n as [|n IH]; intros i a u a' Hok Hi H; cbn [setup_groups] in H; [by apply aret_ok in H as [_ ->]|].
  apply abind_ok in H as (x & s & [-> ->]%get_ok & H). apply abind_ok in H as (g & s & [Hg ->]%alift_ok & H).
  apply of_option_ok in Hg. apply abind_ok in H as (t & a1 & H1 & H). apply (IH (i + 1) a1 u a'); [|lia|done].
  destruct (g =? 0); [|by apply aret_ok in H1 as [_ ->]].
  apply abind_ok in H1 as (p & a2 & H2 & [_ ->]%modify_ok). apply lookup_lt_Some in Hg. rewrite (gk_length _ Hok) in Hg.
  apply (generate_groups_ok (Z.to_nat i) p a a2 Hok Hg). by rewrite Z2Nat.id.
Qed.

(** C5: the way out of machine code: in memory that holds the groups of
    stubs as [setupExitStubs] wrote them, the processor at the exit stub
    of exit number [k] reaches [asmExit], and that routine reaches the
    call of [exitTrace] with [k] as first argument and as second one a
    pointer to an [ExitState] that holds every register and spill slot of
    the trace, its heap limit and its number. *)
Theorem exit_stub_saves n a u a' b k t m :
  groups_ok a -> setupExitStubs n a = Ok (u, a') -> (forall q, q < mcbot (area a') -> b !! q = bytes (code a') !! q) ->
  0 <= k -> exitstubAddr k a' = Ok (t, a') ->
  X86Sem.gpr m RSP = SP -> 256 <= SP -> mapped m (SP - 128) (SP + 2088) ->
  exists m1 m2 ex, steps b (t, m) (asmExit, m1) /\ asm_run asmExit_code m1 = Some (Next m2)
    /\ X86Sem.gpr m2 RDI = k /\ read_exit m2 (X86Sem.gpr m2 RSI) = Some ex /\ saves ex m
    /\ mmem m SP = Some (hplim ex) /\ F_id ex = u4 (word m (SP + 32)).
Proof using TF.
  intros Hok H Hb Hk Ht Hsp Hroom Hmap. unfold setupExitStubs in H. destruct (_ <=? _); [done|].
  apply setup_groups_ok in H as [_ Hs Hlow]; [|done|lia].
  destruct (exit_calls a' b k t m) as (m1 & m2 & ex & X1 & X2 & A & R & S & L); try done.
  { by eapply stubs_at_ext. }
  exists m1, m2, ex. split_and!; try done; [apply A|apply L|apply L].
Qed.
End machine.
