(* ===== verification/AsmEnter.v ===== *)
(** * In and out of machine code ([amd64/fragment.cc])

    [asmEnter] builds the frame of a trace on the stack of the C caller;
    the end of [asmExit] takes it down again and returns to that caller.
    Between the two lies the code of the trace. *)

From S2P Require Import Prelude Words Hotness IR.
From S2P Require Import Registers X86 X86Sem X86Proofs AsmState.
From S2P Require Import AsmInv AsmAlloc AsmSelect AsmSem AsmSim AsmTrace.
From S2P Require Import AsmRoutines.

Section machine.
Context {TF : TraceFrame}.
Abbreviation SP := tf_sp.

(** ** The frame *)

(** The frame of [asmEnter]: the words of [struct _ExitState] behind the
    registers, and above them what the caller's registers held. *)
Definition callee_saved : list (Z * Z) := [(RBX, -8); (12, -16); (13, -24); (14, -32); (15, -40)].
Record entered (m0 m1 : mach) : Prop := {
  nt_rsp : gpr m1 RSP = SP;
  nt_base : gpr m1 RBP = tf_base;
  nt_hp : gpr m1 12 = gpr m0 RDX;
  nt_hplim : mmem m1 SP = Some (gpr m0 RCX);
  nt_splim : mmem m1 (SP + 8) = Some (gpr m0 8);
  nt_thread : mmem m1 (SP + 24) = Some (gpr m0 RSI);
  nt_id : u4 (word m1 (SP + 32)) = u4 (gpr m0 RDI);
  nt_saved : forall r d, In (r, d) callee_saved -> mmem m1 (SP + 2128 + d) = Some (gpr m0 r);
  nt_rbp : mmem m1 (SP + 2128) = Some (gpr m0 RBP);
  nt_other : forall x, ~ (SP <= x < SP + 2136) -> mmem m1 x = mmem m0 x;
  nt_mapped : mapped m1 SP (SP + 2136)
}.

(** ** Entering *)

Definition enter_stores : list asm := stores RAX (map (fun '(r, d) => (d, r)) callee_saved).
Definition enter_words : list asm := stores RAX [(-56, RSI); (-72, 8); (-80, RCX)].
Definition enter_tail : list asm :=
  [mov_reg RBP RSI; AI (IArithI true 0 (OReg RBP) Thread_base); mov_from RBP RBP 0; mov_reg 12 RDX; AJmpR 9].
Lemma asmEnter_split :
  asmEnter_code
  = pushes [RBP] ++ [mov_reg RAX RSP; AI (IArithI true 5 (OReg RSP) SAVE_SIZE)] ++ enter_stores
    ++ [AI (ILea true RAX (OMem RAX None (-2048))); AI (IMovMR false (OMem RAX None (-48)) RDI)] ++ enter_words ++ enter_tail.
Proof using Type. reflexivity. Qed.

(** The base pointer comes from the thread, the heap pointer and the
    address of the code from the arguments. *)
Lemma enter_tail_runs m T :
  gpr m RSI = T -> 0 <= T -> T + 24 < 2 ^ 64 -> T mod 8 = 0 -> mmem m (T + 24) = Some tf_base ->
  exists m1, asm_run enter_tail m = Some (Goto (gpr m 9) m1) /\ gpr m1 RBP = tf_base /\ gpr m1 12 = gpr m RDX
    /\ gpr m1 RSP = gpr m RSP /\ mmem m1 = mmem m.
Proof using Type.
  intros HT H0 Hmax Hal Hb. unfold enter_tail, mov_reg, mov_from. set (ma := set_gpr RBP T m).
  assert (X1 : exec (IMovRM true RBP (OReg RSI)) m = Some (Next ma)) by (cbn [exec rd]; by rewrite HT).
  rewrite (run_next _ _ _ _ X1).
  rewrite (run_next _ _ _ _ (exec_add ma RBP Thread_base (T + 24) eq_refl ltac:(lia) ltac:(vm_compute; split; congruence))).
  set (mb := set_flags None _).
  assert (Hal' : (T + 24) mod 8 = 0) by (Z.to_euclidean_division_equations; lia).
  assert (E : gpr mb RBP + 0 = T + 24) by (change (gpr mb RBP) with (T + 24); lia).
  rewrite (run_next _ _ _ _ (exec_load mb RBP RBP 0 (T + 24) tf_base E ltac:(lia) Hal' Hb)).
  eexists. split; [reflexivity|]. split_and!; reflexivity.
Qed.

(** A 32-bit store. *)
Lemma exec_store4 m r b d a :
  gpr m b + d = a -> 0 <= a < 2 ^ 64 -> a mod 8 = 0 -> is_Some (mmem m a) ->
  exists v, exec (IMovMR false (OMem b None d) r) m = Some (Next (set_mem a v m)) /\ u4 v = u4 (gpr m r).
Proof using Type.
  intros E Ha Hal [old Hv]. eexists. cbn [exec wr]. rewrite (ea_at m b d a) by done. unfold rd_mem. rewrite Hal, Hv.
  split; [reflexivity|]. apply low_half.
Qed.

Lemma enter_saves m s0 :
  gpr m RSP = s0 -> s0 = SP + 2136 -> s0 < 2 ^ 64 -> mapped m SP s0 ->
  exists m1, asm_run (pushes [RBP] ++ [mov_reg RAX RSP; AI (IArithI true 5 (OReg RSP) SAVE_SIZE)] ++ enter_stores) m
             = Some (Next m1)
    /\ gpr m1 RSP = SP /\ gpr m1 RAX = SP + 2128 /\ (forall r, r <> RSP -> r <> RAX -> gpr m1 r = gpr m r)
    /\ (forall r d, In (r, d) callee_saved -> mmem m1 (SP + 2128 + d) = Some (gpr m r))
    /\ mmem m1 (SP + 2128) = Some (gpr m RBP)
    /\ (forall x, ~ (SP + 2088 <= x < SP + 2136) -> mmem m1 x = mmem m x) /\ mapped m1 SP s0.
Proof using Type.
  intros Hsp Hs0 Hmax Hmap. destruct sp_facts as (Hal & H0 & _).
  destruct (pushes_spec [RBP] m s0 SP s0) as (ma & Xa & [P1 P2 P3 P4 P5]); try done;
    [Z.to_euclidean_division_equations; lia|cbn; lia|by repeat constructor|].
  change (Z.of_nat (length [RBP])) with 1 in *.
  set (mb := set_gpr RAX (gpr ma RSP) ma).
  assert (Xb : exec (IMovRM true RAX (OReg RSP)) ma = Some (Next mb)) by reflexivity.
  assert (Hb : gpr mb RSP - SAVE_SIZE = SP) by (change (gpr mb RSP) with (gpr ma RSP); unfold SAVE_SIZE; lia).
  pose proof (exec_sub mb RSP SAVE_SIZE SP Hb ltac:(lia) ltac:(vm_compute; split; congruence)) as Xc.
  set (mc := set_flags None (set_gpr RSP SP mb)) in *.
  assert (Hc : gpr mc RAX = SP + 2128) by (change (gpr mc RAX) with (gpr ma RSP); lia).
  destruct (stores_spec RAX (map (fun '(r, d) => (d, r)) callee_saved) mc (SP + 2128) SP s0 Hc (P5 _ _ Hmap))
    as (m1 & Xd & [Q1 Q2 Q3 Q4]); try done; [lia| | |].
  { vm_compute. by_nodup. }
  { frame_word. }
  assert (Hg : forall r, r <> RSP -> r <> RAX -> gpr m1 r = gpr m r).
  { intros r H1 H2. rewrite Q1. cbn. unfold upd. destruct (Z.eqb_spec r RSP), (Z.eqb_spec r RAX); try done. by apply P2. }
  exists m1. split_and!.
  - rewrite (asm_run_app _ _ _ _ Xa). unfold mov_reg. cbn [app]. by rewrite (run_next _ _ _ _ Xb), (run_next _ _ _ _ Xc).
  - rewrite Q1. reflexivity.
  - by rewrite Q1.
  - exact Hg.
  - intros r d Hin. assert (Hin' : In (d, r) (map (fun '(r, d) => (d, r)) callee_saved)) by (apply in_map_iff; by exists (r, d)).
    rewrite (Q2 d r Hin'). f_equal. rewrite <- Q1, Hg; [done|..];
      (cbn in Hin; repeat (destruct Hin as [[= <- <-]|Hin]; [done|]); done).
  - rewrite Q3; [|cbn; lia]. change (mmem mc (SP + 2128)) with (mmem ma (SP + 2128)).
    replace (SP + 2128) with (s0 - 8 * (Z.of_nat 0 + 1)) by lia. by rewrite (P3 0%nat RBP eq_refl).
  - intros x Hx. rewrite Q3; [|cbn; lia]. change (mmem mc x) with (mmem ma x). apply P4. lia.
  - apply Q4, P5, Hmap.
Qed.

(** The words of the frame: limits, thread and trace number. *)
Lemma enter_fills ma :
  gpr ma RAX = SP + 2128 -> SP + 2136 <= 2 ^ 64 -> mapped ma SP (SP + 2136) ->
  exists m, asm_run ([AI (ILea true RAX (OMem RAX None (-2048))); AI (IMovMR false (OMem RAX None (-48)) RDI)] ++ enter_words) ma
            = Some (Next m)
    /\ (forall r, r <> RAX -> gpr m r = gpr ma r)
    /\ u4 (word m (SP + 32)) = u4 (gpr ma RDI) /\ mmem m (SP + 24) = Some (gpr ma RSI)
    /\ mmem m (SP + 8) = Some (gpr ma 8) /\ mmem m SP = Some (gpr ma RCX)
    /\ (forall x, ~ (SP <= x < SP + 40) -> mmem m x = mmem ma x) /\ mapped m SP (SP + 2136).
Proof using Type.
  intros A2 Hmax Hmap. destruct sp_facts as (Hal & H0 & _).
  assert (E : gpr ma RAX + -2048 = SP + 80) by lia.
  pose proof (exec_lea ma RAX RAX (-2048) (SP + 80) E ltac:(lia)) as Xb. set (mb := set_gpr RAX (SP + 80) ma) in *.
  assert (Hal' : (SP + 32) mod 8 = 0) by (Z.to_euclidean_division_equations; lia).
  destruct (exec_store4 mb RDI RAX (-48) (SP + 32)) as (v & Xc & Hv);
    [change (gpr mb RAX) with (SP + 80); lia|lia|done|by apply Hmap; [lia|]|].
  set (mc := set_mem (SP + 32) v mb) in *.
  destruct (stores_spec RAX [(-56, RSI); (-72, 8); (-80, RCX)] mc (SP + 80) SP (SP + 2136) eq_refl) as (md & Xd & [Q1 Q2 Q3 Q4]);
    [apply (mapped_set mb), Hmap|done|lia|by_nodup|frame_word|].
  exists md. split_and!.
  - cbn [app]. by rewrite (run_next _ _ _ _ Xb), (run_next _ _ _ _ Xc).
  - intros r Hr. rewrite Q1. by apply set_gpr_ne.
  - unfold word. rewrite Q3 by (cbn; lia). cbn. unfold upd. rewrite Z.eqb_refl. exact Hv.
  - replace (SP + 24) with (SP + 80 + -56) by lia. by apply (Q2 (-56) RSI); left.
  - replace (SP + 8) with (SP + 80 + -72) by lia. by apply (Q2 (-72) 8); right; left.
  - replace (mmem md SP) with (mmem md (SP + 80 + -80)) by (f_equal; lia). by apply (Q2 (-80) RCX); right; right; left.
  - intros x Hx. rewrite Q3 by (cbn; lia). cbn. unfold upd. by destruct (Z.eqb_spec x (SP + 32)); [lia|].
  - apply Q4, (mapped_set mb), Hmap.
Qed.

Lemma enter_runs m :
  gpr m RSP = SP + 2136 -> SP + 2144 < 2 ^ 64 -> mapped m SP (SP + 2136) ->
  0 <= gpr m RSI -> gpr m RSI + 24 < 2 ^ 64 -> gpr m RSI mod 8 = 0 -> ~ (SP <= gpr m RSI + 24 < SP + 2136) ->
  mmem m (gpr m RSI + 24) = Some tf_base ->
  exists m1, asm_run asmEnter_code m = Some (Goto (gpr m 9) m1) /\ entered m m1.
Proof using Type.
  intros Hsp Hmax Hmap HT HT' HTal HTf Hbase. destruct sp_facts as (Hal & H0 & _).
  destruct (enter_saves m (SP + 2136) Hsp eq_refl ltac:(lia) Hmap) as (ma & Xa & A1 & A2 & A3 & A4 & A5 & A6 & A7).
  destruct (enter_fills ma A2 ltac:(lia) A7) as (md & Xd & D1 & D2 & D3 & D4 & D5 & D6 & D7).
  assert (Hg : forall r, r <> RSP -> r <> RAX -> gpr md r = gpr m r) by (intros r H1 H2; by rewrite D1, A3).
  destruct (enter_tail_runs md (gpr m RSI)) as (m1 & Xe & T1 & T2 & T3 & T4); try done; [by apply Hg|by rewrite D6, A6 by lia|].
  rewrite Hg in Xe, T2 by done.
  exists m1. split; [|split; try done; rewrite ?T4].
  - rewrite asmEnter_split, !app_assoc. rewrite !app_assoc in Xa. rewrite <- (app_assoc _ _ enter_words). rewrite (asm_run_app _ _ _ _ (eq_trans (asm_run_app _ _ _ _ Xa) Xd)).
    exact Xe.
  - by rewrite T3, D1, A1.
  - by rewrite D5, A3.
  - by rewrite D4, A3.
  - by rewrite D3, A3.
  - rewrite <- (A3 RDI) by done. rewrite <- D2. unfold word. by rewrite T4.
  - intros r d Hin. rewrite <- (A4 r d Hin). apply D6. cbn in Hin.
    repeat (destruct Hin as [[= <- <-]|Hin]; [lia|]); done.
  - by rewrite D6 by lia.
  - intros x Hx. by rewrite D6, A6 by lia.
  - intros x Hx. rewrite T4. by apply D7.
Qed.

(** ** Leaving *)

(** From the return of [exitTrace] back to the caller of [asmEnter]: the
    words above the spill slots have not changed. *)
Lemma leave_runs m0 m1 m2 ret :
  entered m0 m1 -> 256 <= SP -> SP + 2144 < 2 ^ 64 -> mmem m1 (SP + 2136) = Some ret ->
  gpr m2 RSP = SP - 256 -> (forall x, SP + 2088 <= x < SP + 2144 -> mmem m2 x = mmem m1 x) ->
  exists m3, asm_run asmExit_return m2 = Some (Goto ret m3) /\ gpr m3 RSP = SP + 2144
    /\ (forall r, In r [RBX; RBP; 12; 13; 14; 15] -> gpr m3 r = gpr m0 r) /\ mmem m3 = mmem m2.
Proof using Type.
  intros En Hroom Hmax Hret Hsp Hsame. destruct sp_facts as (Hal & H0 & _).
  set (ma := set_gpr RAX (SP + 2128) m2).
  assert (Xa : exec (ILea true RAX (OMem RSP None (SAVE_SIZE + 256))) m2 = Some (Next ma)).
  { apply exec_lea; [|lia]. rewrite Hsp. unfold SAVE_SIZE. lia. }
  assert (Hmap : mapped ma (SP + 2088) (SP + 2136)).
  { intros x Hx Hx8. change (mmem ma x) with (mmem m2 x). rewrite Hsame by lia. apply (nt_mapped _ _ En); [lia|done]. }
  destruct (loads_spec RAX callee_saved ma (SP + 2128) _ _ eq_refl Hmap) as (mb & Xb & [L1 L2 L3]);
    [lia|lia|by_nodup|by (unfold RAX, callee_saved, RBX; cbn; lia)|frame_word|].
  assert (Hb : gpr mb RSP + (SAVE_SIZE + 256) = SP + 2128).
  { rewrite L2 by (unfold RSP, callee_saved, RBX; cbn; lia). change (gpr ma RSP) with (gpr m2 RSP). rewrite Hsp. unfold SAVE_SIZE. lia. }
  pose proof (exec_add mb RSP (SAVE_SIZE + 256) (SP + 2128) Hb ltac:(lia) ltac:(vm_compute; split; congruence)) as Xc.
  set (mc := set_flags None (set_gpr RSP (SP + 2128) mb)) in *.
  assert (P1 : pop_word mc = Some (gpr m0 RBP, set_gpr RSP (SP + 2136) mc)).
  { unfold pop_word. change (gpr mc 4) with (SP + 2128). rewrite rd_word by (Z.to_euclidean_division_equations; lia).
    change (mmem mc) with (mmem mb). rewrite L3. change (mmem ma) with (mmem m2). rewrite Hsame, (nt_rbp _ _ En) by lia.
    cbn [obind]. replace (SP + 2128 + 8) with (SP + 2136) by lia. by rewrite u8_id by lia. }
  set (md := set_gpr RBP (gpr m0 RBP) (set_gpr RSP (SP + 2136) mc)) in *.
  assert (P2 : pop_word md = Some (ret, set_gpr RSP (SP + 2144) md)).
  { unfold pop_word. change (gpr md 4) with (SP + 2136). rewrite rd_word by (Z.to_euclidean_division_equations; lia).
    change (mmem md) with (mmem mb). rewrite L3. change (mmem ma) with (mmem m2). rewrite Hsame, Hret by lia.
    cbn [obind]. replace (SP + 2136 + 8) with (SP + 2144) by lia. rewrite u8_id by lia. reflexivity. }
  exists (set_gpr RSP (SP + 2144) md). split_and!; [|reflexivity| |exact L3].
  - unfold asmExit_return. rewrite (run_next _ _ _ _ Xa). change (?a :: ?b :: ?c :: ?d :: ?e :: ?l) with (loads RAX callee_saved ++ l).
    rewrite (asm_run_app _ _ _ _ Xb), (run_next _ _ _ _ Xc). cbn [asm_go exec]. rewrite P1. cbn [obind]. fold md. by rewrite P2.
  - intros r Hr. destruct (Z.eqb_spec r RBP) as [->|Hbp]; [reflexivity|].
    assert (Hd : exists d, In (r, d) callee_saved /\ -40 <= d <= -8).
    { cbn in Hr. destruct Hr as [<-|[<-|[<-|[<-|[<-|[<-|[]]]]]]]; try done; eexists; (split; [cbn; by eauto 8|lia]). }
    destruct Hd as (d & Hd & Hb'). specialize (L1 r d Hd). change (mmem ma) with (mmem m2) in L1.
    rewrite Hsame, (nt_saved _ _ En _ _ Hd) in L1 by lia. injection L1 as ->.
    assert (Hsp' : r <> RSP) by (intros ->; cbn in Hr; unfold RSP, RBX, RBP in *; lia).
    unfold md. rewrite !set_gpr_ne by done. change (gpr (set_gpr RSP (SP + 2128) mb) r = gpr mb r). by apply set_gpr_ne.
Qed.

(** ** From call to return *)

(** A call of [asmEnter(F_id, T, hp, hplim, stacklim, code)]: there is
    room on the stack for the frame and for the registers below it, the
    limits are those of the frame, and the thread, which lies elsewhere,
    holds the base pointer. *)
Record called (m : mach) (ret : Z) : Prop := {
  ca_rsp : gpr m RSP = SP + 2136;
  ca_stack : 256 <= SP /\ SP + 2144 < 2 ^ 64;
  ca_mapped : mapped m SP (SP + 2136);
  ca_ret : mmem m (SP + 2136) = Some ret;
  ca_thread : 0 <= gpr m RSI /\ gpr m RSI + Thread_base < 2 ^ 64 /\ gpr m RSI mod 8 = 0;
  ca_apart : ~ (SP <= gpr m RSI + Thread_base < SP + 2136);
  ca_base : mmem m (gpr m RSI + Thread_base) = Some tf_base;
  ca_hplim : gpr m RCX = tf_hplim;
  ca_splim : gpr m 8 = tf_splim
}.

(** C10: a call of machine code: [asmEnter] jumps to the code it is given
    in a state at which a trace can be entered, with the frame that
    [struct _ExitState] describes; whatever the code then does, if
    [exitTrace] returns with the stack pointer below that frame and the
    words above the spill slots as they were, the rest of [asmExit]
    returns to the caller of [asmEnter], with the stack pointer behind the
    return address and every callee-saved register restored. *)
Theorem enter_leave m ret :
  called m ret ->
  exists m1, asm_run asmEnter_code m = Some (Goto (gpr m 9) m1) /\ entered m m1
    /\ (forall a st, literals_ok a st -> ihp st = gpr m RDX -> (forall x, ~ in_frame x -> imem st x = mmem m1 x) -> enters a st m1)
    /\ forall m2, gpr m2 RSP = SP - 256 -> (forall x, SP + 2088 <= x < SP + 2144 -> mmem m2 x = mmem m1 x) ->
         exists m3, asm_run asmExit_return m2 = Some (Goto ret m3) /\ gpr m3 RSP = SP + 2144
           /\ (forall r, In r [RBX; RBP; 12; 13; 14; 15] -> gpr m3 r = gpr m r) /\ mmem m3 = mmem m2.
Proof using Type.
  intros [C1 [C2 C2'] C3 C4 (C5 & C5' & C5'') C6 C7 C8 C9].
  destruct (enter_runs m) as (m1 & X1 & En); try done. destruct sp_facts as (Hal & H0 & _).
  exists m1. split_and!; [exact X1|exact En| |].
  - intros a st Hl Hh Hm. split; [apply En|apply En|by rewrite Hh; apply En|intros x Hx; by rewrite Hm| |exact Hl].
    change HPLIM_SP_OFFS with 0. change SPLIM_SP_OFFS with 8. rewrite Z.add_0_r, <- C8, <- C9.
    split; [|split; apply En].
    intros s Hs. apply (nt_mapped _ _ En); unfold slot_addr, SPILL_SP_OFFS; [lia|Z.to_euclidean_division_equations; lia].
  - intros m2 Hsp Hsame. refine (leave_runs m m1 m2 ret En C2 C2' _ Hsp Hsame). rewrite (nt_other _ _ En) by lia. exact C4.
Qed.
End machine.
