(* ===== verification/AsmOverflow.v ===== *)
(** * Heap checks that fail ([amd64/fragment.cc])

    The code of [heapCheckFailure] calls [asmHeapOverflow], which saves
    the registers of the trace and calls the C function [heapCheckFail].
    When that has found room it goes back to the heap check; otherwise it
    leaves the trace as [asmExit] does. *)

From S2P Require Import Prelude Words Hotness IR.
From S2P Require Import Registers X86 X86Sem X86Proofs AsmState.
From S2P Require Import AsmInv AsmAlloc AsmSelect AsmSem AsmSim AsmInstr AsmGuard AsmStub AsmTrace.
From S2P Require Import Recorder TraceExit.
From S2P Require Import AsmExit AsmRoutines.

Abbreviation reg m r := (X86Sem.gpr m r).

Section machine.
Context {TF : TraceFrame} {RA : RuntimeAddrs}.
Abbreviation SP := tf_sp.

(** Running code that is held in memory: its first instruction, and the
    rest of it. *)
Lemma code_step b p i l q m r :
  code_at b p (i :: l) q -> (forall p', exec_at p' i m = r p') ->
  exists p', code_at b p' l q /\ forall s, r p' = Some s -> steps b (p, m) (match s with Next m' => (p', m') | Goto t m' => (t, m') end).
Proof using Type.
  intros Hc He. inversion Hc as [|? ? p' ? ? Hd Hl]; subst. exists p'. split; [done|]. intros s Hs.
  apply rtc_once. unfold step. cbn [fst snd]. by rewrite Hd, He, Hs.
Qed.

(** A push below the frame. *)
Lemma push_below m s v :
  reg m RSP = s -> s mod 8 = 0 -> SP - 120 <= s <= SP -> 256 <= SP -> mapped m (SP - 128) SP ->
  push_word v m = Some (set_gpr RSP (s - 8) (set_mem (s - 8) v m)).
Proof using Type. intros Hs Ha Hr Hroom Hm. destruct sp_facts as (_ & _ & Hmax). apply (push_word_ok m s v (SP - 128) SP); (done || lia). Qed.

(** ** Calling *)

(** At the label [asmHeapOverflow]: the trace's machine is [m]. *)
Record at_overflow (k n ret : Z) (m m1 : mach) : Prop := {
  ao_rsp : reg m1 RSP = SP - 24;
  ao_rdi : reg m1 RDI = k;
  ao_rsi : reg m1 RSI = n;
  ao_gpr : forall r, r <> RSP -> r <> RDI -> r <> RSI -> reg m1 r = reg m r;
  ao_saved : mmem m1 (SP - 8) = Some (reg m RDI) /\ mmem m1 (SP - 16) = Some (reg m RSI) /\ mmem m1 (SP - 24) = Some ret;
  ao_other : forall x, ~ (SP - 24 <= x < SP) -> mmem m1 x = mmem m x;
  ao_mapped : mapped m1 (SP - 128) SP
}.
(** What is left to do behind the call. *)
Definition behind_call (p : Z) : list instr := [IPopR RID_ESI; IPopR RID_EDI; IJmp p].

Lemma overflow_calls b t k n p q m :
  code_at b t (overflow_code k n p) q -> 0 <= k < 2 ^ 32 -> 0 <= n < 2 ^ 32 ->
  reg m RSP = SP -> 256 <= SP -> mapped m (SP - 128) SP ->
  exists ret m1, steps b (t, m) (asmHeapOverflow, m1) /\ at_overflow k n ret m m1 /\ code_at b ret (behind_call p) q.
Proof using Type.
  intros Hc Hk Hn Hsp Hroom Hmap. destruct sp_facts as (Hal & H0 & Hmax). unfold overflow_code in Hc.
  assert (A8 : (SP - 8) mod 8 = 0) by (Z.to_euclidean_division_equations; lia).
  assert (A16 : (SP - 8 - 8) mod 8 = 0) by (Z.to_euclidean_division_equations; lia).
  assert (R0 : SP - 120 <= SP <= SP) by lia. assert (R8 : SP - 120 <= SP - 8 <= SP) by lia.
  assert (R16 : SP - 120 <= SP - 8 - 8 <= SP) by lia.
  pose proof (push_below m SP (reg m RDI) Hsp Hal R0 Hroom Hmap) as P1.
  set (ma := set_gpr RSP (SP - 8) (set_mem (SP - 8) (reg m RDI) m)) in *.
  assert (Ma : mapped ma (SP - 128) SP) by (apply (mapped_set m), Hmap).
  pose proof (push_below ma (SP - 8) (reg m RSI) eq_refl A8 R8 Hroom Ma) as P2.
  set (mb := set_gpr RSP (SP - 8 - 8) (set_mem (SP - 8 - 8) (reg m RSI) ma)) in *.
  assert (Mb : mapped mb (SP - 128) SP) by (apply (mapped_set ma), Ma).
  set (mc := set_gpr RSI n (set_gpr RDI k mb)).
  destruct (code_step _ _ _ _ _ m (fun _ => Some (Next ma)) Hc) as (p1 & Hc1 & X1); [intros; cbn [exec_at exec]; change (reg m RID_EDI) with (reg m RDI); by rewrite P1|].
  destruct (code_step _ _ _ _ _ ma (fun _ => Some (Next mb)) Hc1) as (p2 & Hc2 & X2); [intros; cbn [exec_at exec]; change (reg ma RID_ESI) with (reg m RSI); by rewrite P2|].
  destruct (code_step _ _ _ _ _ mb (fun _ => Some (Next (set_gpr RDI k mb))) Hc2) as (p3 & Hc3 & X3); [intros; cbn [exec_at exec]; unfold u4; by rewrite (to_u_id 32) by lia|].
  destruct (code_step _ _ _ _ _ (set_gpr RDI k mb) (fun _ => Some (Next mc)) Hc3) as (p4 & Hc4 & X4); [intros; cbn [exec_at exec]; unfold u4; by rewrite (to_u_id 32) by lia|].
  pose proof (fun ret => push_below mc (SP - 8 - 8) ret eq_refl A16 R16 Hroom Mb) as P5.
  destruct (code_step _ _ _ _ _ mc (fun q => do m <- push_word q mc; Some (Goto asmHeapOverflow m)) Hc4 (fun _ => eq_refl)) as (ret & Hc5 & X5).
  rewrite P5 in X5. specialize (X5 _ eq_refl). cbn iota in X5.
  exists ret. eexists. split; [|split; [|exact Hc5]].
  - etransitivity; [exact (X1 _ eq_refl)|]. etransitivity; [exact (X2 _ eq_refl)|]. etransitivity; [exact (X3 _ eq_refl)|].
    etransitivity; [exact (X4 _ eq_refl)|]. exact X5.
  - split.
    + cbn. lia.
    + reflexivity.
    + reflexivity.
    + intros r H1 H2 H3. rewrite set_gpr_ne by done. cbn. unfold upd. by rewrite !(proj2 (Z.eqb_neq _ _)) by done.
    + cbn. unfold upd. replace (SP - 8 - 8 - 8) with (SP - 24) by lia. replace (SP - 8 - 8) with (SP - 16) by lia.
      rewrite !Z.eqb_refl. rewrite (proj2 (Z.eqb_neq (SP - 8) (SP - 24))), (proj2 (Z.eqb_neq (SP - 8) (SP - 16))),
        (proj2 (Z.eqb_neq (SP - 16) (SP - 24))) by lia. done.
    + intros x Hx. cbn. unfold upd. by rewrite !(proj2 (Z.eqb_neq _ _)) by lia.
    + apply (mapped_set mc), Mb.
Qed.

(** At the call of [heapCheckFail]: the structure holds the registers of
    the trace, with the heap pointer as it was before the check; where
    the registers of the arguments and the last three belong are the
    arguments, the return address and the values that the stub pushed. *)
Record at_heapCheckFail (k n ret : Z) (m m2 : mach) : Prop := {
  ah_rsp : reg m2 RSP = SP - 256;
  ah_rdi : reg m2 RDI = SP - 256;
  ah_gpr : forall r, 13 <= r < 16 -> reg m2 r = reg m r;
  ah_regs : forall r, 0 <= r < 12 -> r <> RSP -> r <> RSI -> r <> RDI -> mmem m2 (SP - 128 + 8 * r) = Some (reg m r);
  ah_sp : mmem m2 (SP - 128 + 8 * RSP) = Some SP;
  ah_args : mmem m2 (SP - 128 + 8 * RDI) = Some k /\ mmem m2 (SP - 128 + 8 * RSI) = Some n;
  ah_hp : mmem m2 (SP - 128 + 8 * 12) = Some (u8 (reg m 12 - n));
  ah_saved : mmem m2 (SP - 8) = Some (reg m RDI) /\ mmem m2 (SP - 16) = Some (reg m RSI) /\ mmem m2 (SP - 24) = Some ret;
  ah_other : forall x, ~ (SP - 128 <= x < SP) -> mmem m2 x = mmem m x;
  ah_mapped : mapped m2 (SP - 128) SP
}.
Lemma asmHeapOverflow_split :
  asmHeapOverflow_code
  = AI (IArith true 5 12 (OReg RSI))
    :: push_frame 12 ++ [AI (IArithI true 5 (OReg RSP) 128); AI (IArithI true 5 (OReg RBP) 128); mov_reg RDI RSP].
Proof using Type. reflexivity. Qed.
Lemma asmHeapOverflow_runs k n ret m m1 :
  at_overflow k n ret m m1 -> 256 <= SP ->
  exists m2, asm_run asmHeapOverflow_code m1 = Some (Next m2) /\ at_heapCheckFail k n ret m m2.
Proof using Type.
  intros [O1 O2 O3 O4 (O5 & O5' & O5'') O6 O7] Hroom. destruct sp_facts as (Hal & H0 & Hmax).
  set (ma := set_flags None (set_gpr 12 (u8 (reg m1 12 - n)) m1)).
  assert (Xa : exec (IArith true 5 12 (OReg RSI)) m1 = Some (Next ma)).
  { cbn [exec rd]. change (X86Sem.gpr m1 RSI) with (reg m1 RSI). rewrite O3. reflexivity. }
  assert (Ra : reg ma RSP = SP - 8 * (15 - 12)) by (change (reg ma RSP) with (reg m1 RSP); lia).
  destruct (save_registers 12 ma (or_introl eq_refl) Ra Hroom O7) as (mb & Xb & B1 & B2 & B3 & B4 & B5 & B6 & B7).
  assert (E1 : reg mb RSP - 128 = SP - 256) by lia. assert (E2 : reg mb RBP - 128 = SP - 128) by lia.
  pose proof (exec_sub mb RSP 128 (SP - 256) E1 ltac:(lia) ltac:(lia)) as Xc. set (mc := set_flags None (set_gpr RSP (SP - 256) mb)) in *.
  pose proof (exec_sub mc RBP 128 (SP - 128) E2 ltac:(lia) ltac:(lia)) as Xd. set (md := set_flags None (set_gpr RBP (SP - 128) mc)) in *.
  assert (Ha : forall r, 0 <= r < 16 -> r <> RSP -> r <> RSI -> r <> RDI -> r <> 12 -> reg ma r = reg m r).
  { intros r Hr H1 H2 H3 H4. rewrite <- O4 by done. cbn. unfold upd. by rewrite (proj2 (Z.eqb_neq r 12)). }
  exists (set_gpr RDI (SP - 256) md). split.
  - rewrite asmHeapOverflow_split, (run_next _ _ _ _ Xa), (asm_run_app _ _ _ _ Xb). unfold mov_reg.
    by rewrite (run_next _ _ _ _ Xc), (run_next _ _ _ _ Xd).
  - split.
    + reflexivity.
    + reflexivity.
    + intros r Hr. unfold RSP, RDI, RSI, RBP in *. rewrite set_gpr_ne by lia. unfold md, mc. cbn. unfold upd, RBP, RSP.
      rewrite (proj2 (Z.eqb_neq r 5)), (proj2 (Z.eqb_neq r 4)) by lia. rewrite B3, Ha by lia. done.
    + intros r Hr H1 H2 H3. change (mmem mb (SP - 128 + 8 * r) = Some (reg m r)). rewrite B4, Ha by lia. done.
    + exact B5.
    + change (mmem mb (SP - 128 + 8 * RDI) = Some k /\ mmem mb (SP - 128 + 8 * RSI) = Some n).
      rewrite !B4 by (unfold RDI, RSI, RSP; lia). change (reg ma RDI) with (reg m1 RDI). change (reg ma RSI) with (reg m1 RSI).
      by rewrite O2, O3.
    + change (mmem mb (SP - 128 + 8 * 12) = Some (u8 (reg m 12 - n))). rewrite B4 by (unfold RSP; lia).
      change (reg ma 12) with (u8 (reg m1 12 - n)). by rewrite O4.
    + change (mmem mb (SP - 8) = Some (reg m RDI) /\ mmem mb (SP - 16) = Some (reg m RSI) /\ mmem mb (SP - 24) = Some ret).
      by rewrite !B6 by lia.
    + intros x Hx. change (mmem mb x = mmem m x). rewrite B6 by lia. apply O6. lia.
    + exact B7.
Qed.

(** ** The branch behind the call *)

(** The two ends of [asmHeapOverflow_return]. *)
Definition retry_loads : list (Z * Z) :=
  [(RAX, 0); (RCX, 8); (RDX, 16); (RBX, 24); (RBP, 40); (RSI, 48); (8, 64); (9, 72); (10, 80); (11, 88); (12, 96)].
Definition retry_end : list asm :=
  AI (IArithI true 0 (OReg RSP) 128) :: loads RSP retry_loads ++ [AI (IArithI true 0 (OReg RSP) 104); AI IRet].
Definition exit_loads : list asm :=
  [AI (IMovRM false RDI (OMem RSP None 184)); mov_from RAX RSP 248; mov_to RSP 184 RAX;
   AI (IMovRM false RSI (OMem RSP None 176)); AAddTo (OMem RSP None 224) RSI; mov_from RAX RSP 240; mov_to RSP 176 RAX].
Definition exit_stores : list (Z * Z) := [(248, 15); (240, 14); (232, 13)].
Definition exit_end : list asm := exit_loads ++ stores RSP exit_stores ++ [mov_reg RSI RSP].
Lemma asmHeapOverflow_return_split :
  asmHeapOverflow_return = ATest RAX :: AJcc CC_NE 1 :: retry_end ++ ALabel 1 :: exit_end.
Proof using Type. reflexivity. Qed.

(** EAX decides which of them runs; the flags it is tested with are not
    used again. *)
Definition tested (m : mach) : mach := set_flags (Some (u8 (i4 (reg m RAX)), 0)) m.
Lemma test_zero v : ZF (u8 (i4 v)) 0 = (u4 v =? 0).
Proof using Type.
  assert (Hv : 0 <= u4 v < 2 ^ 32) by apply (to_u_bound 32 ltac:(lia)).
  assert (Hi : i4 v = u4 v \/ i4 v = u4 v - 2 ^ 32 /\ 2 ^ 31 <= u4 v).
  { unfold i4, to_s. fold u4. change (2 ^ (32 - 1)) with (2 ^ 31). destruct (Z.ltb_spec (u4 v) (2 ^ 31)); [by left|by right]. }
  unfold ZF. rewrite Z.sub_0_r, u8_id by apply (to_u_bound 64 ltac:(lia)).
  destruct Hi as [->|[-> Hl]]; [by rewrite u8_id by lia|]. rewrite (proj2 (Z.eqb_neq (u4 v) 0)) by lia. apply Z.eqb_neq.
  unfold u8, to_u. rewrite <- (Z.mod_add _ 1), Z.mod_small by lia. lia.
Qed.
Lemma run_branch n l m :
  asm_run (ATest RAX :: AJcc CC_NE n :: l) m = asm_go (if u4 (reg m RAX) =? 0 then None else Some n) l (tested m).
Proof using Type.
  cbn [asm_go cmpd set_flags obind]. destruct (cond_table (u8 (i4 (reg m RAX))) 0) as (_ & _ & _ & _ & -> & _).
  rewrite test_zero. by destruct (u4 (reg m RAX) =? 0).
Qed.
Lemma skip_to n l l' m :
  forallb (fun a => match a with ALabel _ => false | _ => true end) l = true ->
  asm_go (Some n) (l ++ ALabel n :: l') m = asm_run l' m.
Proof using Type.
  induction l as [|a l IH]; cbn [app asm_go forallb]; [by rewrite Z.eqb_refl|].
  intros (Ha & Hl)%andb_prop. destruct a; [by apply IH..|done].
Qed.
Lemma branch_retries m r m4 :
  u4 (reg m RAX) = 0 -> asm_run retry_end (tested m) = Some (Goto r m4) -> asm_run asmHeapOverflow_return m = Some (Goto r m4).
Proof using Type.
  intros He Hr. rewrite asmHeapOverflow_return_split, run_branch, He. exact (asm_run_leaves _ _ _ _ _ Hr).
Qed.
Lemma branch_exits m : u4 (reg m RAX) <> 0 -> asm_run asmHeapOverflow_return m = asm_run exit_end (tested m).
Proof using Type.
  intros He. rewrite asmHeapOverflow_return_split, run_branch, (proj2 (Z.eqb_neq _ _) He). by apply skip_to.
Qed.

(** ** Going back *)

(** [heapCheckFail] has returned 0: it has changed the heap pointer of
    the structure, and what is not in the frame below [SP]. *)
Record room_found (hp : Z) (m2 m3 : mach) : Prop := {
  rf_eax : u4 (reg m3 RAX) = 0;
  rf_rsp : reg m3 RSP = reg m2 RSP;
  rf_saved : forall r, 13 <= r < 16 -> reg m3 r = reg m2 r;
  rf_hp : mmem m3 (SP - 128 + 8 * 12) = Some hp;
  rf_frame : forall x, SP - 128 <= x < SP -> x <> SP - 128 + 8 * 12 -> mmem m3 x = mmem m2 x
}.
Lemma retry_loads_regs r d : In (r, d) retry_loads -> d = 8 * r /\ 0 <= r <= 12 /\ r <> RSP /\ r <> RDI.
Proof using Type.
  intros H. cbn in H. repeat (destruct H as [[= <- <-]|H]; [by vm_compute; split_and!; congruence|]). done.
Qed.
Lemma retry_regs r : 0 <= r <= 12 -> r <> RSP -> r <> RDI -> In (r, 8 * r) retry_loads.
Proof using Type.
  intros Hr H1 H2. assert (Hin : In r [0; 1; 2; 3; 5; 6; 8; 9; 10; 11; 12]) by (unfold RSP, RDI in *; cbn; lia).
  cbn in Hin. repeat (destruct Hin as [<-|Hin]; [cbn; by eauto 20|]). done.
Qed.

(** The machine at the return address, before the saved registers of the
    arguments are popped. *)
Lemma asmHeapOverflow_retries k n ret hp m m2 m3 :
  at_heapCheckFail k n ret m m2 -> room_found hp m2 m3 -> 256 <= SP ->
  exists m4, asm_run asmHeapOverflow_return m3 = Some (Goto ret m4) /\ reg m4 RSP = SP - 16 /\ reg m4 12 = hp
    /\ (forall r, 0 <= r < 16 -> r <> RSP -> r <> RSI -> r <> RDI -> r <> 12 -> reg m4 r = reg m r) /\ mmem m4 = mmem m3.
Proof using Type.
  intros [A1 A2 A3 A4 A5 (A6 & A6') A7 (A8 & A8' & A8'') A9 A10] [Hz R1 R2 R3 R4] Hroom. destruct sp_facts as (Hal & H0 & Hmax).
  assert (Hmap : mapped m3 (SP - 128) SP).
  { intros x Hx Hx8. destruct (Z.eq_dec x (SP - 128 + 8 * 12)) as [->|Hn]; [by rewrite R3; eexists|].
    rewrite R4 by done. by apply A10. }
  assert (Ea : reg (tested m3) RSP + 128 = SP - 128) by (change (reg (tested m3) RSP) with (reg m3 RSP); lia).
  pose proof (exec_add (tested m3) RSP 128 (SP - 128) Ea ltac:(lia) ltac:(lia)) as Xa. set (ma := set_flags None (set_gpr RSP (SP - 128) (tested m3))) in *.
  destruct (loads_spec RSP retry_loads ma (SP - 128) (SP - 128) SP eq_refl Hmap) as (mb & Xb & [L1 L2 L3]);
    [lia|lia|by_nodup|by vm_compute; intuition congruence|unfold retry_loads; frame_word|].
  assert (Eb : reg mb RSP + 104 = SP - 24).
  { rewrite L2 by (by vm_compute; intuition congruence). change (reg ma RSP) with (SP - 128). lia. }
  pose proof (exec_add mb RSP 104 (SP - 24) Eb ltac:(lia) ltac:(lia)) as Xc. set (mc := set_flags None (set_gpr RSP (SP - 24) mb)) in *.
  assert (P : pop_word mc = Some (ret, set_gpr RSP (SP - 16) mc)).
  { unfold pop_word. change (X86Sem.gpr mc 4) with (SP - 24). rewrite rd_word by (Z.to_euclidean_division_equations; lia).
    change (mmem mc) with (mmem mb). rewrite L3. change (mmem ma) with (mmem m3). rewrite R4, A8'' by lia.
    cbn [obind]. rewrite u8_id by lia. replace (SP - 24 + 8) with (SP - 16) by lia. reflexivity. }
  assert (Hb : forall r, 0 <= r <= 12 -> r <> RSP -> r <> RDI -> mmem m3 (SP - 128 + 8 * r) = Some (reg mb r)).
  { intros r Hr H1 H2. exact (L1 _ _ (retry_regs r Hr H1 H2)). }
  exists (set_gpr RSP (SP - 16) mc). split_and!; [|reflexivity| | |exact L3].
  - apply branch_retries; [exact Hz|]. unfold retry_end.
    rewrite (run_next _ _ _ _ Xa), (asm_run_app _ _ _ _ Xb), (run_next _ _ _ _ Xc). cbn [asm_go exec]. by rewrite P.
  - change (reg mb 12 = hp). assert (H12 : Some hp = Some (reg mb 12)) by (rewrite <- R3; by apply Hb).
    by injection H12.
  - intros r Hr H1 H2 H3 H4. rewrite set_gpr_ne by done. change (reg (set_gpr RSP (SP - 24) mb) r = reg m r). rewrite set_gpr_ne by done.
    destruct (Z.le_gt_cases 13 r) as [Hge|Hlt].
    + rewrite L2, <- A3, <- R2 by (try lia; intros Hin; apply in_map_iff in Hin as ([r' d] & <- & Hin%retry_loads_regs); cbn in *; lia).
      exact (set_gpr_ne RSP (SP - 128) r m3 H1).
    + assert (E : Some (reg m r) = Some (reg mb r)).
      { rewrite <- (Hb r), R4, A4 by (done || lia || (unfold RSP in *; lia)). done. }
      by injection E.
Qed.

(** The stub pops the registers of the arguments and goes back. *)
Lemma behind_call_runs b ret p q m k n m2 m3 m4 :
  code_at b ret (behind_call p) q -> at_heapCheckFail k n ret m m2 -> 256 <= SP -> reg m4 RSP = SP - 16 -> mmem m4 = mmem m3 ->
  (forall x, SP - 128 <= x < SP -> x <> SP - 128 + 8 * 12 -> mmem m3 x = mmem m2 x) ->
  exists m5, steps b (ret, m4) (p, m5) /\ reg m5 RSP = SP /\ reg m5 RSI = reg m RSI /\ reg m5 RDI = reg m RDI
    /\ (forall r, r <> RSP -> r <> RSI -> r <> RDI -> reg m5 r = reg m4 r) /\ mmem m5 = mmem m3.
Proof using Type.
  intros Hc Hh Hroom Hsp Hm Hf. destruct sp_facts as (Hal & H0 & Hmax). destruct (ah_saved _ _ _ _ _ Hh) as (S1 & S2 & _).
  assert (P1 : pop_word m4 = Some (reg m RSI, set_gpr RSP (SP - 8) m4)).
  { unfold pop_word. change (X86Sem.gpr m4 4) with (reg m4 RSP). rewrite Hsp, rd_word by (Z.to_euclidean_division_equations; lia).
    rewrite Hm, Hf, S2 by lia. cbn [obind]. rewrite u8_id by lia. replace (SP - 16 + 8) with (SP - 8) by lia. reflexivity. }
  set (ma := set_gpr RSI (reg m RSI) (set_gpr RSP (SP - 8) m4)) in *.
  assert (P2 : pop_word ma = Some (reg m RDI, set_gpr RSP SP ma)).
  { unfold pop_word. change (X86Sem.gpr ma 4) with (SP - 8). rewrite rd_word by (Z.to_euclidean_division_equations; lia).
    change (mmem ma) with (mmem m4). rewrite Hm, Hf, S1 by lia. cbn [obind]. rewrite u8_id by lia. replace (SP - 8 + 8) with SP by lia. reflexivity. }
  set (mb := set_gpr RDI (reg m RDI) (set_gpr RSP SP ma)) in *.
  destruct (code_step _ _ _ _ _ m4 (fun _ => Some (Next ma)) Hc) as (p1 & Hc1 & X1); [intros; cbn [exec_at exec]; by rewrite P1|].
  destruct (code_step _ _ _ _ _ ma (fun _ => Some (Next mb)) Hc1) as (p2 & Hc2 & X2); [intros; cbn [exec_at exec]; by rewrite P2|].
  destruct (code_step _ _ _ _ _ mb (fun _ => Some (Goto p mb)) Hc2) as (p3 & _ & X3); [done|].
  exists mb. split_and!; try reflexivity; [|intros r H1 H2 H3|exact Hm].
  - etransitivity; [exact (X1 _ eq_refl)|]. etransitivity; [exact (X2 _ eq_refl)|]. exact (X3 _ eq_refl).
  - unfold mb, ma. by rewrite !set_gpr_ne.
Qed.

(** ** Leaving *)

(** [heapCheckFail] has not returned 0. *)
Record room_missing (m2 m3 : mach) : Prop := {
  rm_eax : u4 (reg m3 RAX) <> 0;
  rm_rsp : reg m3 RSP = reg m2 RSP;
  rm_saved : forall r, 13 <= r < 16 -> reg m3 r = reg m2 r;
  rm_mem : forall x, SP - 128 <= x -> mmem m3 x = mmem m2 x
}.
(** Words of the frame, [e] bytes below [SP]. *)
Definition word_below (d e : Z) : bool := (d + e =? 256) && (0 <=? d) && (0 <? e) && (e mod 8 =? 0).
Lemma below_facts d e m : word_below d e = true -> reg m RSP = SP - 256 -> 256 <= SP ->
  reg m RSP + d = SP - e /\ 0 <= SP - e < 2 ^ 64 /\ (SP - e) mod 8 = 0.
Proof using Type.
  intros (((H1%Z.eqb_eq & H4%Z.leb_le)%andb_prop & H2%Z.ltb_lt)%andb_prop & H3%Z.eqb_eq)%andb_prop Hsp Hroom. destruct sp_facts as (Hal & H0 & Hmax).
  split_and!; [lia..|]. Z.to_euclidean_division_equations. lia.
Qed.
Lemma frame_load m r d e v :
  word_below d e = true -> reg m RSP = SP - 256 -> 256 <= SP -> mmem m (SP - e) = Some v ->
  exec (IMovRM true r (OMem RSP None d)) m = Some (Next (set_gpr r v m)).
Proof using Type. intros Hd Hsp Hroom Hv. destruct (below_facts d e m Hd Hsp Hroom) as (? & ? & ?). by eapply exec_load. Qed.
Lemma frame_load4 m r d e v :
  word_below d e = true -> reg m RSP = SP - 256 -> 256 <= SP -> mmem m (SP - e) = Some v -> 0 <= v < 2 ^ 32 ->
  exec (IMovRM false r (OMem RSP None d)) m = Some (Next (set_gpr r v m)).
Proof using Type.
  intros Hd Hsp Hroom Hv Hr. destruct (below_facts d e m Hd Hsp Hroom) as (? & ? & Hal). cbn [exec rd].
  rewrite (ea_at m RSP d (SP - e)) by done. rewrite rd_word, Hv by done. cbn. unfold u4. by rewrite (to_u_id 32).
Qed.
Lemma frame_store m r d e :
  word_below d e = true -> reg m RSP = SP - 256 -> 256 <= SP -> is_Some (mmem m (SP - e)) ->
  exec (IMovMR true (OMem RSP None d) r) m = Some (Next (set_mem (SP - e) (reg m r) m)).
Proof using Type. intros Hd Hsp Hroom Hv. destruct (below_facts d e m Hd Hsp Hroom) as (? & ? & ?). by eapply exec_store. Qed.
Lemma frame_add m r d e v v' l :
  word_below d e = true -> reg m RSP = SP - 256 -> 256 <= SP -> mmem m (SP - e) = Some v -> u8 (v + reg m r) = v' ->
  asm_run (AAddTo (OMem RSP None d) r :: l) m = asm_run l (set_flags None (set_mem (SP - e) v' m)).
Proof using Type.
  intros Hd Hsp Hroom Hv <-. destruct (below_facts d e m Hd Hsp Hroom) as (? & ? & Hal). cbn [asm_go rd wr].
  rewrite (ea_at m RSP d (SP - e)), !rd_word, !Hv by done. reflexivity.
Qed.

(** The structure gets the registers of the arguments and the heap
    pointer back. *)
Lemma exit_loads_run k n ret m m2 m3 :
  at_heapCheckFail k n ret m m2 -> room_missing m2 m3 -> 256 <= SP -> 0 <= k < 2 ^ 32 -> 0 <= n < 2 ^ 32 -> 0 <= reg m 12 < 2 ^ 64 ->
  exists m4, asm_run exit_loads m3 = Some (Next m4) /\ reg m4 RDI = k
    /\ (forall r, r <> RAX -> r <> RSI -> r <> RDI -> reg m4 r = reg m3 r)
    /\ mmem m4 (SP - 72) = Some (reg m RDI) /\ mmem m4 (SP - 80) = Some (reg m RSI) /\ mmem m4 (SP - 32) = Some (reg m 12)
    /\ (forall x, x <> SP - 72 -> x <> SP - 80 -> x <> SP - 32 -> mmem m4 x = mmem m3 x).
Proof using Type.
  intros [A1 A2 A3 A4 A5 (A6 & A6') A7 (A8 & A8' & A8'') A9 A10] [_ R1 R2 R3] Hroom Hk Hn Hhp. destruct sp_facts as (Hal & H0 & Hmax).
  assert (Hsp : reg m3 RSP = SP - 256) by lia.
  replace (SP - 128 + 8 * RDI) with (SP - 72) in A6 by (unfold RDI; lia). replace (SP - 128 + 8 * RSI) with (SP - 80) in A6' by (unfold RSI; lia).
  replace (SP - 128 + 8 * 12) with (SP - 32) in A7 by lia.
  rewrite <- R3 in A6, A6', A7, A8, A8' by lia.
  assert (E : forall m r, reg m RSP = SP - 256 -> r <> RSP -> forall v, reg (set_gpr r v m) RSP = SP - 256).
  { intros m' r H1 H2 v. by rewrite set_gpr_ne by done. }
  unfold exit_loads, mov_from, mov_to.
  rewrite (run_next _ _ _ _ (frame_load4 m3 RDI 184 72 k eq_refl Hsp Hroom A6 Hk)).
  set (ma := set_gpr RDI k m3). assert (Ea : reg ma RSP = SP - 256) by by apply E.
  rewrite (run_next _ _ _ _ (frame_load ma RAX 248 8 _ eq_refl Ea Hroom A8)).
  set (mb := set_gpr RAX _ ma). assert (Eb : reg mb RSP = SP - 256) by by apply E.
  rewrite (run_next _ _ _ _ (frame_store mb RAX 184 72 eq_refl Eb Hroom (mk_is_Some _ _ A6))).
  set (mc := set_mem _ _ mb). assert (Hc : forall x, x <> SP - 72 -> mmem mc x = mmem m3 x).
  { intros x Hx. cbn. unfold upd. by rewrite (proj2 (Z.eqb_neq _ _)). }
  assert (Ec : reg mc RSP = SP - 256) by exact Eb. rewrite <- (Hc (SP - 80)) in A6' by lia.
  rewrite (run_next _ _ _ _ (frame_load4 mc RSI 176 80 n eq_refl Ec Hroom A6' Hn)).
  set (md := set_gpr RSI n mc). assert (Ed : reg md RSP = SP - 256) by by apply E.
  rewrite <- (Hc (SP - 32)) in A7 by lia.
  assert (Hplus : u8 (u8 (reg m 12 - n) + reg md RSI) = reg m 12).
  { change (reg md RSI) with n. unfold u8, to_u. rewrite Zplus_mod_idemp_l. replace (reg m 12 - n + n) with (reg m 12) by lia. by apply Z.mod_small. }
  rewrite (frame_add md RSI 224 32 _ _ _ eq_refl Ed Hroom A7 Hplus).
  set (me := set_flags None (set_mem _ _ md)). assert (Ee : reg me RSP = SP - 256) by exact Ed.
  assert (He : forall x, x <> SP - 72 -> x <> SP - 32 -> mmem me x = mmem m3 x).
  { intros x H1 H2. rewrite <- Hc by done. cbn. unfold upd. by rewrite (proj2 (Z.eqb_neq x (SP - 32))). }
  rewrite <- (He (SP - 16)) in A8' by lia. assert (A6e : is_Some (mmem me (SP - 80))).
  { rewrite (He (SP - 80)), <- Hc by lia. by eexists. }
  rewrite (run_next _ _ _ _ (frame_load me RAX 240 16 _ eq_refl Ee Hroom A8')).
  set (mf := set_gpr RAX _ me). assert (Ef : reg mf RSP = SP - 256) by by apply E.
  rewrite (run_next _ _ _ _ (frame_store mf RAX 176 80 eq_refl Ef Hroom A6e)).
  eexists. split; [reflexivity|]. split_and!.
  - reflexivity.
  - intros r H1 H2 H3. cbn. unfold upd. by rewrite !(proj2 (Z.eqb_neq _ _)).
  - cbn. unfold upd. rewrite (proj2 (Z.eqb_neq (SP - 72) (SP - 80))), (proj2 (Z.eqb_neq (SP - 72) (SP - 32))), Z.eqb_refl by lia. done.
  - cbn. unfold upd. by rewrite Z.eqb_refl.
  - cbn. unfold upd. rewrite (proj2 (Z.eqb_neq (SP - 32) (SP - 80))), Z.eqb_refl by lia. done.
  - intros x H1 H2 H3. rewrite <- He by done. cbn. unfold upd. by rewrite (proj2 (Z.eqb_neq x (SP - 80))).
Qed.
Lemma asmHeapOverflow_exits k n ret m m2 m3 :
  at_heapCheckFail k n ret m m2 -> room_missing m2 m3 -> 256 <= SP -> 0 <= k < 2 ^ 32 -> 0 <= n < 2 ^ 32 -> 0 <= reg m 12 < 2 ^ 64 ->
  exists m5, asm_run asmHeapOverflow_return m3 = Some (Next m5) /\ at_exitTrace k m m5.
Proof using Type.
  intros Hh Hr0 Hroom Hk Hn Hhp. rewrite (branch_exits m3 (rm_eax _ _ Hr0)).
  assert (Hr : room_missing m2 (tested m3)) by (destruct Hr0; by split).
  destruct (exit_loads_run k n ret m m2 (tested m3) Hh Hr Hroom Hk Hn Hhp) as (m4 & X4 & E1 & E2 & E3 & E4 & E5 & E6).
  destruct Hh as [A1 A2 A3 A4 A5 _ A7 (A8 & A8' & A8'') A9 A10], Hr as [_ R1 R2 R3], sp_facts as (Hal & H0 & Hmax).
  assert (Hmap : mapped m4 (SP - 24) SP).
  { intros x Hx Hx8. rewrite E6, R3 by lia. apply A10; [lia|done]. }
  assert (Hsp : reg m4 RSP = SP - 256) by (rewrite E2, R1 by done; exact A1).
  destruct (stores_spec RSP exit_stores m4 (SP - 256) (SP - 24) SP Hsp Hmap) as (m5 & X5 & [Q1 Q2 Q3 Q4]);
    [lia|lia|by_nodup|unfold exit_stores; frame_word|].
  assert (Hhi : forall r, 13 <= r < 16 -> mmem m5 (SP - 128 + 8 * r) = Some (reg m r)).
  { intros r Hr. replace (SP - 128 + 8 * r) with (SP - 256 + (128 + 8 * r)) by lia.
    rewrite (Q2 _ r); [f_equal; rewrite E2, R2, A3 by (unfold RAX, RSI, RDI; lia); done|].
    assert (Hin : In r [13; 14; 15]) by (cbn; lia). cbn in Hin. repeat (destruct Hin as [<-|Hin]; [cbn; by eauto 8|]). done. }
  assert (Hlo : forall x, x < SP - 24 \/ SP <= x -> mmem m5 x = mmem m4 x).
  { intros x Hx. apply Q3. cbn. lia. }
  exists (set_gpr RSI (reg m5 RSP) m5). split; [|split].
  - unfold exit_end. by rewrite (asm_run_app _ _ _ _ X4), (asm_run_app _ _ _ _ X5).
  - change (reg m5 RDI = k). by rewrite Q1.
  - change (reg m5 RSP = SP - 256). by rewrite Q1.
  - change (reg m5 RSP = SP - 256). by rewrite Q1.
  - intros r Hr Hne. change (mmem m5 (SP - 128 + 8 * r) = Some (reg m r)).
    destruct (Z.le_gt_cases 13 r) as [Hge|Hlt]; [apply Hhi; lia|]. rewrite Hlo by lia.
    destruct (Z.eq_dec r RDI) as [->|N1]; [replace (SP - 128 + 8 * RDI) with (SP - 72) by (unfold RDI; lia); exact E3|]. destruct (Z.eq_dec r RSI) as [->|N2]; [replace (SP - 128 + 8 * RSI) with (SP - 80) by (unfold RSI; lia); exact E4|].
    destruct (Z.eq_dec r 12) as [->|N3]; [replace (SP - 128 + 8 * 12) with (SP - 32) by lia; exact E5|].
    rewrite E6, R3, A4 by (unfold RDI, RSI in *; lia). done.
  - change (mmem m5 (SP - 128 + 8 * RSP) = Some SP). rewrite Hlo, E6, R3 by (unfold RSP; lia). exact A5.
  - intros x Hx. change (mmem m5 x = mmem m x). rewrite Hlo, E6, R3, A9 by lia. done.
Qed.

(** ** Both ends of a heap check *)

(** C9: a heap check that fails out of line: the code of
    [heapCheckFailure] and [asmHeapOverflow] reach the call of
    [heapCheckFail] with a pointer to the registers of the trace, the heap
    pointer being that of before the check.  The code behind the call
    tests what it has returned: after 0 in EAX (there was room) the machine
    goes back to the heap check with the new heap pointer and every other
    register as it was; after any other value it reaches the call of
    [exitTrace] with the number of the exit and an [ExitState] that holds
    the registers and the spill slots of the trace. *)
Theorem heap_overflow_ends b t k n p m :
  held b t (overflow_code k n p) (t + QUICK_HEAP_CHECK_FAIL_SIZE) -> 0 <= k < 2 ^ 32 -> 0 <= n < 2 ^ 32 ->
  reg m RSP = SP -> 256 <= SP -> mapped m (SP - 128) (SP + 2088) -> 0 <= reg m 12 < 2 ^ 64 ->
  exists m1 m2, steps b (t, m) (asmHeapOverflow, m1) /\ asm_run asmHeapOverflow_code m1 = Some (Next m2)
    /\ reg m2 RDI = SP - 256 /\ mmem m2 (SP - 256 + ES_gpr + 8 * 12) = Some (u8 (reg m 12 - n))
    /\ (forall hp m3, room_found hp m2 m3 -> exists ret m4 m5,
           asm_run asmHeapOverflow_return m3 = Some (Goto ret m4) /\ steps b (ret, m4) (p, m5)
           /\ reg m5 12 = hp /\ (forall r, 0 <= r < 16 -> r <> 12 -> reg m5 r = reg m r) /\ mmem m5 = mmem m3)
    /\ (forall m3, room_missing m2 m3 -> exists m4 ex,
           asm_run asmHeapOverflow_return m3 = Some (Next m4) /\ reg m4 RDI = k
           /\ read_exit m4 (reg m4 RSI) = Some ex /\ saves ex m /\ F_id ex = u4 (word m (SP + 32))).
Proof using Type.
  intros Hheld Hk Hn Hsp Hroom Hmap Hhp.
  assert (Hlow : mapped m (SP - 128) SP) by (intros x Hx; apply Hmap; lia).
  assert (Hhigh : mapped m SP (SP + 2088)) by (intros x Hx; apply Hmap; lia).
  destruct (overflow_calls b t k n p _ m (held_code _ _ _ _ Hheld) Hk Hn Hsp Hroom Hlow) as (ret & m1 & X1 & O1 & Hc).
  destruct (asmHeapOverflow_runs k n ret m m1 O1 Hroom) as (m2 & X2 & H2). exists m1, m2.
  split_and!; [exact X1|exact X2|apply H2| | |].
  - change ES_gpr with 128. replace (SP - 256 + 128 + 8 * 12) with (SP - 128 + 8 * 12) by lia. apply H2.
  - intros hp m3 R. destruct (asmHeapOverflow_retries k n ret hp m m2 m3 H2 R Hroom) as (m4 & X4 & S1 & S2 & S3 & S4).
    destruct (behind_call_runs b ret p _ m k n m2 m3 m4 Hc H2 Hroom S1 S4 (rf_frame _ _ _ R)) as (m5 & X5 & T1 & T2 & T3 & T4 & T5).
    exists ret, m4, m5. split_and!; try done; [by rewrite T4|].
    intros r Hr Hne. destruct (Z.eq_dec r RSP) as [->|N1]; [by rewrite T1|]. destruct (Z.eq_dec r RSI) as [->|N2]; [done|].
    destruct (Z.eq_dec r RDI) as [->|N3]; [done|]. rewrite T4 by done. by apply S3.
  - intros m3 R. destruct (asmHeapOverflow_exits k n ret m m2 m3 H2 R Hroom Hk Hn Hhp) as (m4 & X4 & A4).
    destruct (read_exit_saves k m m4 Hsp Hhigh A4) as (ex & E1 & E2 & _ & E3). exists m4, ex. split_and!; try done. apply A4.
Qed.
End machine.
