(* ===== verification/AsmExamples.v ===== *)
(** * Assembling concrete traces

    The recorder with the assembler behind it records the loop of
    [RecorderExamples]; the claims about the code of traces are applied
    to the machine code that results. *)

From S2P Require Import Prelude Words Bytecode Objects Hotness HeapInterface MiscClosures.
From S2P Require Import Capability Interp InterpSteps Examples.
From S2P Require Import IR.
From S2P Require Import Snapshots.
From S2P Require Import CallStack.
From S2P Require Import Recorder.
From S2P Require Import TraceExit.
From S2P Require Import TraceExamples.
From S2P Require Import RecorderExamples.
From S2P Require Import Registers X86 X86Sem X86Proofs AsmState.
From S2P Require Import AsmInv.
From S2P Require Import AsmAlloc.
From S2P Require Import AsmSelect.
From S2P Require Import Assembler.
From S2P Require Import AsmSem.
From S2P Require Import AsmSim AsmInstr AsmSave AsmLoop AsmTrace AsmExit.

(** ** The loop, with machine code *)

#[local] Instance addrs : RuntimeAddrs :=
  {| asmExit := 0x40001000; asmTrace := 0x40002000; asmHeapOverflow := 0x40003000; asmStackOverflow := 0x40004000 |}.
Definition code_area (hint size prot : Z) : Z := 0x41000000.
#[local] Instance real_asm : AsmOps Assembler := asm_ops code_area 8.
#[local] Instance real_machine : MachineOps Z Assembler := {
  mc_run c _ _ _ _ := Ok (c, 0, mkExit [] 0 TRACE_ID_NONE [])
}.
#[local] Instance real_ops : JitOps Z (Jit Assembler) := jit_ops 4.

Definition start_jit : Jit Assembler :=
  mkJit false 0 0 None 0 0 TT_ROOT [] false (Assembler_init (MachineCode.init Prng.init) (buf idle_jit) 0)
    (buf idle_jit) no_inherited (mkCS [] 0 0) (mkBTB [] 0) ∅ [] 0 [0; 0; 0; 0; 0].
Definition start_cap : Capability Z (Jit Assembler) :=
  mkCap loop_memory 0x900000 (sample_thread (Examples.stack + 56)) 0 dispatch_record
    (HotCounters.init 53) start_jit 0 0 0 bmisc.
Definition start_vm (c : Capability Z (Jit Assembler)) : vm Z (Jit Assembler) :=
  mkVm c loop_pc loop_base 0x900000 0x901000 0x600000 dispatch_record dispatch_record.
Definition run_asm (n : nat) : outcome (vm Z (Jit Assembler)) :=
  let! c := beginRecording start_cap loop_pc loop_base false in
  let! r := Interp.steps 0 4 n (start_vm c) in
  match r with Continue s => Ok s | Halt _ _ => Err AssertFailed end.
Definition asm_cap : Capability Z (Jit Assembler) :=
  match run_asm 5 with Ok s => cap s | Err _ => start_cap end.
Definition asm_fragment : Fragment :=
  match fragments (jit asm_cap) with F :: _ => F | [] => a_fragment 0 0 None end.

(** ** The assembler's part *)

Definition loop_buffer : IRBuffer := buf (jit asm_cap).
Definition before_asm : Assembler := set_abuf loop_buffer (Assembler_init (MachineCode.init Prng.init) loop_buffer 0).
Definition loop_info : JitInfo := mkJI no_inherited 0 false (fun _ => Err WildAccess).
Definition at_loop : Assembler :=
  match begin_assemble code_area 8 loop_info before_asm with Ok (_, a) => a | Err _ => before_asm end.
Definition assembled_loop : Assembler :=
  match assemble code_area 8 loop_info before_asm with Ok (_, a) => a | Err _ => before_asm end.

(** The code of the trace, disassembled. *)
Fixpoint disassemble (n : nat) (b : gmap Z Z) (p : Z) : list instr :=
  match n with
  | O => []
  | S n' => match decode b p with Some (i, q) => i :: disassemble n' b q | None => [] end
  end.
Example loop_code_is :
  disassemble 20 (bytes (code assembled_loop)) (mcp (code assembled_loop))
  = [IMovRM true 0 (OMem 5 None 0); IMovRM true 1 (OReg 0); IArith true 0 1 (OReg 0); IMovRM true 0 (OMem 5 None (-8));
     IArithI true 7 (OMem 0 None 0) 0x600000; IJcc CC_NE 0x41000000;
     IMovMR true (OMem 5 None 0) 1; IMovMR true (OMem 5 None (-8)) 0; IJmp (mcp (code assembled_loop))].
Proof. vm_compute. reflexivity. Qed.

Lemma loop_assembled : assembles_root code_area 8 loop_info before_asm assembled_loop at_loop 0x8005.
Proof. split; vm_compute; (reflexivity || discriminate). Qed.

(** ** Running it *)

(** The argument in the frame is the info pointer of the function, and the
    function's closure is the frame's own slot: the first iteration
    doubles the argument and the second one fails the guard. *)
#[local] Instance frame : TraceFrame.
Proof.
  refine {| tf_base := 0x600018; tf_sp := 0x700000; tf_hplim := 0x900000; tf_splim := 0x6f0000 |}.
  - split; [reflexivity|]. split; vm_compute; congruence.
  - split_and!; vm_compute; congruence.
Defined.
Definition loop_words (x : Z) : option Z :=
  if x =? 0x600018 then Some 0x600000 else if x =? 0x600010 then Some 0x600018 else None.
Definition start_state (w : Z -> option Z) (hp : Z) : irstate :=
  mkIS (fun r => if r =? 0x7ffe then 0x600000 else if r =? 0x7fff then 0x100e8 else 0) w hp.
Definition start_machine (w : Z -> option Z) (hp : Z) : mach :=
  mkMach (fun r => if r =? RID_BASE then 0x600018 else if r =? RID_ESP then 0x700000
                   else if r =? RID_HP then hp else 0)
    (fun x => if x =? 0x700000 then Some 0x900000 else if x =? 0x700008 then Some 0x6f0000
              else if (0x700000 <=? x) && (x <? slot_addr 256) then Some 0 else w x) None.
Definition first_state : irstate := start_state loop_words 0x800000.
Definition first_machine : mach := start_machine loop_words 0x800000.
Definition fell (r : option ir_result) : irstate := match r with Some (Fall st) => st | _ => first_state end.
Definition once : irstate := fell (ir_run at_loop REF_FIRST 4 first_state).
Definition twice_state : irstate :=
  default first_state (put_slots (b_snapmap (abuf at_loop)) (snap_range (last_snap at_loop)) once).
Definition exit_state : irstate :=
  match ir_run at_loop REF_FIRST 4 twice_state with Some (Leave _ st) => st | _ => first_state end.

Definition words_fine (w : Z -> option Z) : Prop := forall x v, w x = Some v -> 0 <= v < 2 ^ 64 /\ ~ in_frame x.
Lemma start_ok w hp : words_fine w -> 0 <= hp < 2 ^ 64 -> st_ok (start_state w hp).
Proof. intros Hw Hh. split; [|exact Hw|exact Hh]. intros r. cbn. repeat case_match; vm_compute; split; congruence || done. Qed.
Lemma start_enters a w hp : bufmin a = 0x7ffe -> literals_ok a (start_state w hp) -> enters a (start_state w hp) (start_machine w hp).
Proof.
  intros Hmin Hl. split; try reflexivity; [| |exact Hl].
  - intros x Hx. cbn. unfold in_frame, slot_addr in *. cbn [tf_sp frame] in *. unfold SPILL_SP_OFFS in *.
    repeat case_match; try lia; done.
  - split; [|by vm_compute]. intros s Hs. cbn. unfold slot_addr. cbn [tf_sp frame]. unfold SPILL_SP_OFFS.
    repeat case_match; try lia; by eexists.
Qed.
Ltac by_words :=
  intros x v; unfold in_frame, slot_addr; cbn [tf_sp frame]; repeat case_match; intros [= <-]; unfold SPILL_SP_OFFS; lia.
(** The two literals of the traces. *)
Ltac by_literals :=
  let ref := fresh "ref" in let Hr := fresh "Hr" in
  intros ref Hr; lazymatch type of Hr with bufmin ?a <= _ < _ =>
    assert (Hm : bufmin a = 0x7ffe) by (vm_compute; reflexivity); rewrite Hm in Hr end;
  assert (ref = 0x7ffe \/ ref = 0x7fff) as [-> | ->] by (unfold REF_BIAS in Hr; lia); vm_compute; reflexivity.

Lemma first_ok : st_ok first_state.
Proof. apply start_ok; [unfold loop_words; by_words|lia]. Qed.
Lemma first_enters : enters at_loop first_state first_machine.
Proof. apply start_enters; [vm_compute; reflexivity|by_literals]. Qed.
Lemma one_iteration : iteration at_loop 0x8005 first_state twice_state.
Proof. exists once. split; vm_compute; reflexivity. Qed.

(** What the exit handler saves. *)
Definition saved_state (m : mach) : ExitState :=
  mkExit (X86Sem.gpr m <$> seqZ 0 16) 0x900000 0
    ((fun s => default 0 (mmem m (slot_addr s))) <$> seqZ 0 256).
Lemma saved_state_saves m : saves (saved_state m) m.
Proof.
  split.
  - intros r Hr. change (TraceExit.gpr (saved_state m)) with (X86Sem.gpr m <$> seqZ 0 16). rewrite list_lookup_fmap, lookup_seqZ_lt by lia. cbn. do 2 f_equal. lia.
  - intros s v Hs Hv. change (TraceExit.spill (saved_state m)) with ((fun s => default 0 (mmem m (slot_addr s))) <$> seqZ 0 256). rewrite list_lookup_fmap, lookup_seqZ_lt by lia. cbn.
    replace (0 + Z.of_nat (Z.to_nat s)) with s by lia. by rewrite Hv.
Qed.
Lemma exit_restores_trace_witness :
  exists m' n es mm', restore_slots asm_fragment (saved_state m') 0x600018 es no_memory = Ok mm'
    /\ snap_entries asm_fragment n = Ok es
    /\ (forall w, w ∈ es -> load mm' (0x600018 + 8 * signed_slot w) = Ok (val exit_state (u2 w))).
Proof.
  destruct loop_assembled as [H1 H2 H3 H4 H5 H6 H7].
  assert (Hlv : exists t m', leaves (exits_at assembled_loop) assembled_loop (final_slots assembled_loop) 0x8004 exit_state t m').
  { destruct (root_run code_area 8 _ _ _ _ _ _ H1 H2 H3 H4 H5 H6 H7 first_state first_machine (Fall once) first_ok
      first_enters ltac:(vm_compute; reflexivity) twice_state ltac:(vm_compute; reflexivity)
      ltac:(right; left; vm_compute; reflexivity)) as (pc & m1 & _ & _ & Hs).
    destruct (root_run code_area 8 _ _ _ _ _ _ H1 H2 H3 H4 H5 H6 H7 twice_state m1 (Leave 0x8004 exit_state))
      as (t & m2 & _ & Hl); [| | |by exists t, m2].
    - eapply iteration_ok; [exact first_ok|exact one_iteration].
    - eapply iteration_enters; [exact one_iteration|exact first_enters|exact Hs].
    - vm_compute. reflexivity. }
  destruct Hlv as (t & m' & Hlv).
  destruct (exit_restores_trace asm_fragment assembled_loop (saved_state m') exit_state m' 0x8004 t no_memory)
    as (n & sn & es & mm' & _ & _ & _ & _ & _ & He & Hm & Hin & _).
  - split; vm_compute; reflexivity.
  - vm_compute. reflexivity.
  - reflexivity.
  - exact Hlv.
  - apply saved_state_saves.
  - exists m', sn, es, mm'. split; [exact Hm|]. split; [exact He|exact Hin].
Defined.

(** ** A loop that allocates, with heap checks out of line *)

(** [f x = f (C x)]: the recorder with an assembler that keeps the
    buffer, then the real one with [kOptFastHeapCheckFail]. *)
Section alloc.
#[local] Instance keep_asm : AsmOps unit := {
  asm_assemble j := Ok (tt, buf j);
  asm_mcp _ := 0;
  asm_patchGuard a _ _ _ := Ok a;
  asm_patchFallthrough a _ _ _ := Ok a
}.
#[local] Instance keep_ops : JitOps Z (Jit unit) := jit_ops 4.
Definition alloc_code : list Z :=
  [BcIns.ad BcIns.kFUNC 4 0; BcIns.abc BcIns.kALLOC1 0 2 0; 0; BcIns.ad BcIns.kLOADSLF 1 0;
   BcIns.abc BcIns.kCALLT 1 0 1; 0].
Definition alloc_memory : memory :=
  sample_memory alloc_code [(Examples.stack + 16, caller); (Examples.stack + 24, 7); (Examples.stack + 40, 0x600080)].
Definition alloc_cap : Capability Z (Jit unit) :=
  mkCap alloc_memory 0x900000 (sample_thread (Examples.stack + 56)) 0 dispatch_record
    (HotCounters.init 53) idle_jit 0 0 0 bmisc.
Definition alloc_buffer : IRBuffer :=
  match (let! c := beginRecording alloc_cap loop_pc loop_base false in Interp.steps 0 4 5 (loop_vm c)) with
  | Ok (Continue s) => buf (jit (cap s))
  | _ => buf idle_jit
  end.
End alloc.
Example alloc_recorded :
  show alloc_buffer
  = [(-2, kKINT, - REF_BIAS, 96 - REF_BIAS); (-1, kKINT, 232 - REF_BIAS, 1 - REF_BIAS);
     (0, kBASE, - REF_BIAS, - REF_BIAS); (1, kSLOAD, 2 - REF_BIAS, - REF_BIAS); (2, kSLOAD, - REF_BIAS, - REF_BIAS);
     (3, kHEAPCHK, 2 - REF_BIAS, - REF_BIAS); (4, kNEW, 1, - REF_BIAS); (5, kSLOAD, 65535 - REF_BIAS, - REF_BIAS);
     (6, kEQINFO, 5, -2); (7, kSAVE, IR_SAVE_LOOP - REF_BIAS, - REF_BIAS)].
Proof. vm_compute. reflexivity. Qed.

Definition before_alloc : Assembler :=
  set_abuf alloc_buffer (Assembler_init (MachineCode.init Prng.init) alloc_buffer (Flags32.set 0 kOptFastHeapCheckFail)).
Definition at_alloc : Assembler :=
  match begin_assemble code_area 8 loop_info before_alloc with Ok (_, a) => a | Err _ => before_alloc end.
Definition assembled_alloc : Assembler :=
  match assemble code_area 8 loop_info before_alloc with Ok (_, a) => a | Err _ => before_alloc end.

(** The heap check branches to the 24 bytes behind the jump, which go
    back to the [lea] in front of it. *)
Example alloc_code_is :
  let p := mctop (area at_alloc) in
  disassemble 22 (bytes (code assembled_alloc)) (mcp (code assembled_alloc))
  = [IMovRM true 1 (OMem 5 None 16); IMovRM true 0 (OMem 5 None 0); ILea true 12 (OMem 12 None 16);
     IArith true 7 12 (OMem 4 None 0); IJcc CC_A p; IMovMR true (OMem 12 None (-16)) 1; IMovMR true (OMem 12 None (-8)) 0;
     ILea true 1 (OMem 12 None (-16)); IMovRM true 0 (OMem 5 None (-8)); IArithI true 7 (OMem 0 None 0) 0x600000;
     IJcc CC_NE 0x41000004; IMovMR true (OMem 5 None 0) 1; IMovMR true (OMem 5 None (-8)) 0;
     IJmp (mcp (code assembled_alloc)); IPushR 7; IPushR 6; IMovI false 7 0; IMovI false 6 16; ICall asmHeapOverflow;
     IPopR 6; IPopR 7; IJmp (mcp (code assembled_alloc) + 8)].
Proof. vm_compute. reflexivity. Qed.

Lemma alloc_assembled : assembles_root code_area 8 loop_info before_alloc assembled_alloc at_alloc 0x8007.
Proof. split; vm_compute; (reflexivity || discriminate). Qed.

(** Two words are left on the heap: the first iteration allocates in
    them, the heap check of the second one fails. *)
Definition alloc_words (x : Z) : option Z :=
  if x =? 0x600028 then Some 0x600080 else if (x =? 0x8ffff0) || (x =? 0x8ffff8) then Some 0 else loop_words x.
Definition alloc_state : irstate := start_state alloc_words 0x8ffff0.
Definition alloc_machine : mach := start_machine alloc_words 0x8ffff0.
Definition allocated : irstate := fell (ir_run at_alloc REF_FIRST 6 alloc_state).
Definition alloc_twice : irstate :=
  default alloc_state (put_slots (b_snapmap (abuf at_alloc)) (snap_range (last_snap at_alloc)) allocated).
Definition overflow_state : irstate :=
  match ir_run at_alloc REF_FIRST 6 alloc_twice with Some (Leave _ st) => st | _ => alloc_state end.

Lemma alloc_ok : st_ok alloc_state.
Proof. apply start_ok; [unfold alloc_words, loop_words; by_words|lia]. Qed.
Lemma alloc_enters : enters at_alloc alloc_state alloc_machine.
Proof. apply start_enters; [vm_compute; reflexivity|by_literals]. Qed.

(** The same trace with a link to trace 9, whose code is at
    [0x41000400], as its end. *)
Definition linked_buffer : IRBuffer :=
  set_code alloc_buffer (set_ir (b_code alloc_buffer) 0x8007 (setOp2 (setOp1 (raw_ir (b_code alloc_buffer) 0x8007) IR_SAVE_LINK) 9)).
Definition linked_info : JitInfo :=
  mkJI no_inherited 0 false (fun n => if n =? 9 then Ok 0x41000400 else Err WildAccess).
Definition before_linked : Assembler :=
  set_abuf linked_buffer (Assembler_init (MachineCode.init Prng.init) linked_buffer (Flags32.set 0 kOptFastHeapCheckFail)).
Definition at_linked : Assembler :=
  match begin_assemble code_area 8 linked_info before_linked with Ok (_, a) => a | Err _ => before_linked end.
Definition assembled_linked : Assembler :=
  match assemble code_area 8 linked_info before_linked with Ok (_, a) => a | Err _ => before_linked end.
Lemma linked_assembled : assembles_root code_area 8 linked_info before_linked assembled_linked at_linked 0x8007.
Proof. split; vm_compute; (reflexivity || discriminate). Qed.
Lemma linked_enters : enters at_linked alloc_state alloc_machine.
Proof. apply start_enters; [vm_compute; reflexivity|by_literals]. Qed.

(** The loop is entered again, and the linked trace is entered with its
    number in the frame. *)
Lemma root_trace_ends_witness :
  (exists m', steps (bytes (code assembled_alloc)) (mcp (code assembled_alloc), alloc_machine) (mcp (code assembled_alloc), m')
    /\ after_save 0 alloc_twice m')
  /\ (exists m', steps (bytes (code assembled_linked)) (mcp (code assembled_linked), alloc_machine) (0x41000400, m')
    /\ trace_id_at m' 9 /\ after_save 0 alloc_twice m')
  /\ map (imem alloc_twice) [0x8ffff0; 0x8ffff8; 0x600018] = [Some 0x600080; Some 0x600000; Some 0x8ffff0].
Proof.
  split; [|split].
  - destruct (root_trace_ends code_area 8 loop_info before_alloc assembled_alloc at_alloc 0x8007 alloc_assembled
             alloc_state allocated alloc_twice alloc_machine alloc_ok alloc_enters) as (pc & m' & Hc & Hs & Ha);
      [vm_compute; reflexivity|vm_compute; reflexivity|right; left; vm_compute; reflexivity|].
    change (pc = mcp (code assembled_alloc)) in Hc. subst pc. exists m'. split; [exact Hs|exact Ha].
  - destruct (root_trace_ends code_area 8 linked_info before_linked assembled_linked at_linked 0x8007 linked_assembled
             alloc_state allocated alloc_twice alloc_machine alloc_ok linked_enters) as (pc & m' & Hc & Hs & Ha);
      [vm_compute; reflexivity|vm_compute; reflexivity| |].
    { right. right. split; [vm_compute; reflexivity|]. split; [vm_compute; discriminate|vm_compute; by eexists]. }
    change (Ok 0x41000400 = Ok pc /\ trace_id_at m' 9) in Hc. destruct Hc as [[= <-] Hid].
    exists m'. split; [exact Hs|]. split; [exact Hid|exact Ha].
  - vm_compute. reflexivity.
Defined.
Lemma root_loop_leaves_witness :
  exists t m', steps (bytes (code assembled_alloc)) (mcp (code assembled_alloc), alloc_machine) (t, m')
    /\ leaves (exits_at assembled_alloc) assembled_alloc (final_slots assembled_alloc) 0x8003 overflow_state t m'.
Proof.
  apply (root_loop_leaves code_area 8 loop_info before_alloc assembled_alloc at_alloc 0x8007 alloc_assembled
           alloc_state alloc_twice).
  - vm_compute. reflexivity.
  - vm_compute. reflexivity.
  - exact alloc_ok.
  - exact alloc_enters.
  - apply rtc_once. exists allocated. split; vm_compute; reflexivity.
  - vm_compute. reflexivity.
Defined.
