(* ===== verification/AsmRunExamples.v ===== *)
(** * Running the assembly routines

    The claims about [asmEnter], [asmExit] and [asmHeapOverflow], and
    about parallel moves, at concrete machines. *)

From S2P Require Import Prelude Words Hotness IR.
From S2P Require Import Registers X86 X86Sem X86Proofs AsmState.
From S2P Require Import AsmInv AsmAlloc AsmSelect AsmSem AsmSim AsmInstr AsmGuard AsmStub AsmTrace.
From S2P Require Import Assembler.
From S2P Require Import Recorder TraceExit.
From S2P Require Import AsmExit AsmRoutines AsmEnter AsmOverflow AsmMoves AsmPatch.
From S2P Require Import AsmExamples.

#[local] Existing Instance addrs.
#[local] Existing Instance frame.

(** The frame of [AsmExamples], with the stack around it. *)
Definition stack_words (w : Z -> option Z) (x : Z) : option Z :=
  if (0x6fff00 <=? x) && (x <? 0x700890) then Some (x mod 1000) else w x.
Lemma stack_mapped g w : mapped (mkMach g (stack_words w) None) (0x700000 - 128) (0x700000 + 2088).
Proof.
  intros x Hx _. unfold stack_words. cbn [mmem]. rewrite (proj2 (Z.leb_le _ _)), (proj2 (Z.ltb_lt _ _)) by lia. by eexists.
Qed.
(** The registers hold their numbers, save for the stack pointer. *)
Definition numbered (sp : Z) (r : Z) : Z := if r =? RSP then sp else r.

(** ** Leaving through a stub *)

Definition stub_assembler : Assembler :=
  match setupMachineCode code_area 8 before_asm with Ok (_, a) => a | Err _ => before_asm end.
Definition with_stubs : Assembler := match setupExitStubs 40 stub_assembler with Ok (_, a) => a | Err _ => stub_assembler end.
Lemma no_stubs_yet : groups_ok stub_assembler.
Proof.
  assert (E : exitStubGroup stub_assembler = replicate 16 0) by (vm_compute; reflexivity).
  split; [by rewrite E| |]; intros j g Hj Hn; rewrite E in Hj; apply lookup_replicate in Hj as [-> _]; done.
Qed.
Definition leaving : mach := mkMach (numbered 0x700000) (stack_words (fun _ => None)) None.
Lemma exit_stub_saves_witness :
  exists m1 m2 ex, steps (bytes (code with_stubs)) (0x41000085 + 4 * 3, leaving) (0x40001000, m1)
    /\ asm_run asmExit_code m1 = Some (Next m2) /\ X86Sem.gpr m2 7 = 35 /\ saves ex leaving.
Proof.
  assert (Ht : exitstubAddr 35 with_stubs = Ok (0x41000085 + 4 * 3, with_stubs)) by (vm_compute; reflexivity).
  assert (Hs : setupExitStubs 40 stub_assembler = Ok (tt, with_stubs)) by (vm_compute; reflexivity).
  destruct (exit_stub_saves 40 stub_assembler tt with_stubs (bytes (code with_stubs)) 35 _ leaving no_stubs_yet Hs
              (fun _ _ => eq_refl) ltac:(done) Ht eq_refl ltac:(done) (stack_mapped _ _))
    as (m1 & m2 & ex & H1 & H2 & H3 & _ & H4 & _).
  exists m1, m2, ex. split_and!; [exact H1|exact H2|exact H3|exact H4].
Defined.

(** ** Calling machine code *)

(** A thread at [0x100000]. *)
Definition caller : mach :=
  mkMach (fun r => if r =? RSP then 0x700858 else if r =? RSI then 0x100000 else if r =? RCX then 0x900000
                   else if r =? 8 then 0x6f0000 else r)
    (stack_words (fun x => if x =? 0x100018 then Some 0x600018 else None)) None.
Lemma caller_called : called caller (0x700858 mod 1000).
Proof.
  split.
  - reflexivity.
  - split; vm_compute; congruence.
  - intros x Hx _. unfold caller, stack_words. cbn [mmem]. change (@tf_sp frame) with 0x700000 in Hx.
    rewrite (proj2 (Z.leb_le _ _)), (proj2 (Z.ltb_lt _ _)) by lia. by eexists.
  - vm_compute. reflexivity.
  - split_and!; vm_compute; congruence.
  - change (~ (0x700000 <= 0x100018 < 0x700858)). lia.
  - vm_compute. reflexivity.
  - reflexivity.
  - reflexivity.
Qed.
Lemma enter_leave_witness :
  exists m1 m3, asm_run asmEnter_code caller = Some (Goto 9 m1) /\ X86Sem.gpr m1 RBP = 0x600018
    /\ asm_run asmExit_return (set_gpr RSP (0x700000 - 256) m1) = Some (Goto (0x700858 mod 1000) m3)
    /\ X86Sem.gpr m3 RSP = 0x700860 /\ X86Sem.gpr m3 RBX = 3.
Proof.
  destruct (enter_leave caller _ caller_called) as (m1 & X1 & En & _ & Hback).
  destruct (Hback (set_gpr RSP (0x700000 - 256) m1) eq_refl (fun _ _ => eq_refl)) as (m3 & X3 & Hsp & Hr & _).
  exists m1, m3. split_and!; [exact X1|exact (nt_base _ _ En)|exact X3|exact Hsp|exact (Hr RBX (or_introl eq_refl))].
Defined.

(** ** A heap check that fails *)

(** The code for exit 2 and 16 bytes. *)
Definition with_check : Assembler :=
  match heapCheckFailure 2 0x41000900 0x41000800 16 before_asm with Ok (_, a) => a | Err _ => before_asm end.
Lemma check_held : held (bytes (code with_check)) 0x41000800 (overflow_code 2 16 0x41000900) (0x41000800 + QUICK_HEAP_CHECK_FAIL_SIZE).
Proof.
  assert (H : heapCheckFailure 2 0x41000900 0x41000800 16 before_asm = Ok (tt, with_check)) by (vm_compute; reflexivity).
  destruct (heapCheckFailure_spec _ _ _ _ _ _ _ H) as (bs & -> & Hh & _). exact Hh.
Qed.
(** [heapCheckFail] hands out a block at [0x810000] and returns 0, or
    returns 1 and changes nothing. *)
Definition block_found (m : mach) : mach := set_gpr RAX 0 (set_mem (0x700000 - 32) 0x810000 m).
Lemma heap_overflow_ends_witness :
  exists m2 ret m4 m5 m6, asm_run asmHeapOverflow_return (block_found m2) = Some (Goto ret m4)
    /\ steps (bytes (code with_check)) (ret, m4) (0x41000900, m5)
    /\ X86Sem.gpr m5 12 = 0x810000 /\ X86Sem.gpr m5 RDI = 7 /\ X86Sem.gpr m5 RSI = 6
    /\ asm_run asmHeapOverflow_return (set_gpr RAX 1 m2) = Some (Next m6) /\ X86Sem.gpr m6 RDI = 2.
Proof.
  destruct (heap_overflow_ends (bytes (code with_check)) 0x41000800 2 16 0x41000900 leaving check_held ltac:(done) ltac:(done)
              eq_refl ltac:(done) (stack_mapped _ _) ltac:(done)) as (m1 & m2 & _ & _ & _ & _ & Hroom & Hnone).
  destruct (Hroom 0x810000 (block_found m2)) as (ret & m4 & m5 & X4 & X5 & Hhp & Hr & _).
  { split; try reflexivity.
    - intros r Hge. apply (set_gpr_ne RAX 0 r m2). unfold RAX. lia.
    - intros x _ Hx. change (0x700000 - 128 + 8 * 12) with (0x700000 - 32) in Hx. cbn [block_found mmem set_mem set_gpr]. unfold upd.
      rewrite (proj2 (Z.eqb_neq x (0x700000 - 32))); [reflexivity|exact Hx]. }
  destruct (Hnone (set_gpr RAX 1 m2)) as (m6 & ex & X6 & Hk & _).
  { split; try reflexivity; [done|]. intros r Hge. apply (set_gpr_ne RAX 1 r m2). unfold RAX. lia. }
  exists m2, ret, m4, m5, m6.
  split_and!; [exact X4|exact X5|exact Hhp|exact (Hr 7 ltac:(done) ltac:(done))|exact (Hr 6 ltac:(done) ltac:(done))|exact X6|exact Hk].
Defined.

(** ** Parallel moves *)

(** rax and rcx change places, rdx gets slot 3 and slot 4 gets rax, with
    no register free: the cycle goes through the heap pointer. *)
Definition swap_dests : list RegSpill := [mkRS 0 0; mkRS 1 0; mkRS 2 0; mkRS RID_NONE 4].
Definition swap_srcs : list RegSpill := [mkRS 1 0; mkRS 0 0; mkRS RID_NONE 3; mkRS 0 0].
Definition no_register : Assembler := set_free 0 before_asm.
Example swap_code_is :
  match parallelAssign swap_dests swap_srcs no_register with
  | Ok (_, a) => disassemble 7 (bytes (code a)) (mcp (code a))
  | Err _ => []
  end
  = [IMovMR true (OMem 4 None 40) 12; IMovMR true (OMem 4 None 72) 0; IMovRM true 2 (OMem 4 None 64);
     IMovRM true 12 (OReg 1); IMovRM true 1 (OReg 0); IMovRM true 0 (OReg 12); IMovRM true 12 (OMem 4 None 40)].
Proof. vm_compute. reflexivity. Qed.
Ltac by_entries := intros [|[|[|[|i]]]]; cbn; intros; simplify_eq.
Lemma swap_ok : moves_ok swap_dests swap_srcs (freeset (ra no_register)).
Proof.
  assert (Hg : forall r, 0 <= r < 4 -> RegSetProofs.in_gpr r).
  { intros r Hr. split; [lia|]. assert (r = 0 \/ r = 1 \/ r = 2 \/ r = 3) as [-> | [-> | [-> | ->]]] by lia; reflexivity. }
  assert (Hp : forall x, In x (swap_dests ++ swap_srcs) -> place x).
  { intros x Hx. cbn in Hx.
    repeat (destruct Hx as [<-|Hx]; [first [left; split; [apply Hg; cbn; lia|reflexivity]|right; vm_compute; split; [reflexivity|split; congruence]]|]). done. }
  split.
  - reflexivity.
  - intros i d Hd. apply Hp, in_or_app. left. by eapply list_elem_of_In, list_elem_of_lookup_2.
  - intros i d Hd. apply Hp, in_or_app. right. by eapply list_elem_of_In, list_elem_of_lookup_2.
  - by_entries; reflexivity.
  - intros [|[|[|[|i]]]] [|[|[|[|j]]]]; cbn; intros; simplify_eq; try done; exfalso;
      match goal with H : loc_of _ = loc_of _ |- _ => vm_compute in H; discriminate H end.
  - by_entries; reflexivity.
  - split; [vm_compute; congruence|]. intros r _ Hr. change (freeset (ra no_register)) with 0 in Hr. by rewrite RegSetProofs.isEmpty_spec in Hr.
Qed.
Lemma parallelAssign_correct_witness :
  exists a' l, parallelAssign swap_dests swap_srcs no_register = Ok (tt, a') /\ emits (code no_register) (code a') l
    /\ exists m', exec_list l leaving = Some (Next m') /\ X86Sem.gpr m' 0 = 1 /\ X86Sem.gpr m' 1 = 0 /\ X86Sem.gpr m' 12 = 12.
Proof.
  destruct (parallelAssign_correct swap_dests swap_srcs no_register swap_ok) as (a' & l & H & E & Hrun).
  exists a', l. split; [exact H|]. split; [exact E|].
  assert (Hf : framed leaving).
  { split; [reflexivity|]. intros s Hs. apply (stack_mapped (numbered 0x700000) (fun _ => None)).
    - change (slot_addr s) with (0x700000 + 40 + 8 * s). lia.
    - change (slot_addr s) with (0x700000 + 40 + 8 * s). replace (0x700000 + 40 + 8 * s) with ((0x700000 / 8 + 5 + s) * 8) by (change (0x700000 / 8) with 917504; lia).
      apply Z.mod_mul. lia. }
  destruct (Hrun leaving Hf) as (m' & X & Hd & Ho). exists m'. split; [exact X|].
  pose proof (Hd 0%nat _ _ eq_refl eq_refl) as H0. pose proof (Hd 1%nat _ _ eq_refl eq_refl) as H1.
  assert (H12 : get_loc m' (LReg 12) = get_loc leaving (LReg 12)).
  { apply Ho; [by_entries; vm_compute; congruence| |vm_compute; congruence]. intros r _ _. change (freeset (ra no_register)) with 0. by apply RegSetProofs.isEmpty_spec. }
  split_and!; congruence || (injection H0; injection H1; injection H12; auto).
Defined.

(** ** Patching *)

(** The guard of the loop, exit 0, goes to a side trace at [0x41000c00]. *)
Definition guarded : Fragment :=
  mkFragment 0 0 None [] 0 0 ∅ 0 (b_snaps (abuf assembled_loop)) (fr_snapmap asm_fragment) (fr_heap asm_fragment) 0.
Definition guard_at : Z := match Fragment.snap guarded 0 with Ok sn => sn_mcode sn | Err _ => 0 end.
Definition patched_loop : Assembler :=
  match patchGuard guarded 0 0x41000c00 assembled_loop with Ok (_, a) => a | Err _ => assembled_loop end.
Example patched_loop_is :
  disassemble 20 (bytes (code patched_loop)) (mcp (code patched_loop))
  = [IMovRM true 0 (OMem 5 None 0); IMovRM true 1 (OReg 0); IArith true 0 1 (OReg 0); IMovRM true 0 (OMem 5 None (-8));
     IArithI true 7 (OMem 0 None 0) 0x600000; IJcc CC_NE 0x41000c00;
     IMovMR true (OMem 5 None 0) 1; IMovMR true (OMem 5 None (-8)) 0; IJmp (mcp (code patched_loop))].
Proof. vm_compute. reflexivity. Qed.
Lemma patchGuard_redirects_witness :
  held (bytes (code patched_loop)) guard_at [IJcc CC_NE 0x41000c00] (guard_at + 6).
Proof.
  assert (Hs : exists sn, Fragment.snap guarded 0 = Ok sn /\ sn_mcode sn = guard_at) by (eexists; split; vm_compute; reflexivity).
  destruct Hs as (sn & Hs & Ep).
  destruct (patchGuard_redirects guarded 0 0x41000c00 assembled_loop tt patched_loop sn guard_at [] (IJcc CC_NE 0x41000000) [] (guard_at + 6) (guard_at + 6))
    as (i' & Hr & Hh & _).
  - vm_compute. reflexivity.
  - exact Hs.
  - rewrite Ep. intros b' _. constructor.
  - rewrite Ep. vm_compute. reflexivity.
  - intros b' _. constructor.
  - rewrite Ep. lia.
  - lia.
  - injection Hr as <-. exact Hh.
Defined.
