(* ===== verification/Loader.v ===== *)
(** * The loader ([loader.hh], [loader.cc])

    Bytecode files and their primitive readers, the search for module
    files, string tables and identifiers, module headers and bodies, info
    tables, code, literals and static closures, and the in-place lists of
    forward references.

    A function of [class Loader] that reads from a [BytecodeFile&] is a
    computation in [LM]: it takes what is left of the file and the state
    of the loader and returns both.  The memory manager is any instance of
    [HeapOps]; [new_at n] is the address the [n]-th [new] returns;
    [isreg], [fopen] and [realpath] are the operating system.  Objects
    that nothing in memory points to ([Module], the arrays of a string
    table) are values and take no address. *)

From Stdlib Require Import Ascii.
From S2P Require Import Prelude Words Bytecode Objects HeapInterface MiscClosures.

(** ** C strings *)

Definition byte_ascii (b : Z) : Ascii.ascii := Ascii.ascii_of_N (Z.to_N (u1 b)).
Definition ascii_byte (c : Ascii.ascii) : Z := Z.of_N (Ascii.N_of_ascii c).
Fixpoint string_of_bytes (l : list Z) : string :=
  match l with
  | [] => ""
  | b :: l' => String.String (byte_ascii b) (string_of_bytes l')
  end.
Fixpoint bytes_of_string (s : string) : list Z :=
  match s with
  | String.EmptyString => []
  | String.String c s' => ascii_byte c :: bytes_of_string s'
  end.

(** What [strlen], [strcmp] and the hash maps see of a character array:
    the characters before the first zero. *)
Fixpoint c_str (l : list Z) : list Z :=
  match l with
  | [] => []
  | b :: l' => if b =? 0 then [] else b :: c_str l'
  end.

(** [hashstr] *)
Fixpoint hashstr_loop (bp : list Z) (hval : Z) : Z :=
  match bp with
  | [] => hval
  | b :: bp' =>
      let hval := u4 (hval + u4 (Z.shiftl hval 1 + Z.shiftl hval 4 + Z.shiftl hval 7
                                 + Z.shiftl hval 8 + Z.shiftl hval 24)) in
      hashstr_loop bp' (Z.lxor hval b)
  end.
Definition hashstr (str : list Z) : Z := hashstr_loop (c_str str) 0x811c9dc5.

(** ** Primitive readers of [class BytecodeFile]

    A file is the list of the bytes that are still to be read. *)
Module BytecodeFile.

(** [(uint8_t)fgetc(f_)]: [EOF] becomes 255. *)
Definition get_u1 (f : list Z) : Z * list Z :=
  match f with
  | [] => (0xff, [])
  | b :: f' => (u1 b, f')
  end.
Definition get_u2 (f : list Z) : Z * list Z :=
  let '(hi, f) := get_u1 f in
  let '(lo, f) := get_u1 f in
  (u2 (Z.lor (Z.shiftl hi 8) lo), f).
Definition get_u4 (f : list Z) : Z * list Z :=
  let '(hh, f) := get_u1 f in
  let '(hl, f) := get_u1 f in
  let '(lh, f) := get_u1 f in
  let '(ll, f) := get_u1 f in
  (MSB_u4 hh hl lh ll, f).

(** Shifting a 64-bit word by 64 or more is undefined. *)
Fixpoint get_varuint_slow (fuel : nat) (i shift : Z) (f : list Z) : outcome (Z * list Z) :=
  match fuel with
  | O => Err OutOfFuel
  | S fuel' =>
      let '(b, f) := get_u1 f in
      if 64 <=? shift then Err UndefinedOp else
      let i := Z.lor i (u8 (Z.shiftl (Z.land b 0x7f) shift)) in
      let shift := u1 (shift + 7) in
      if negb (Z.land b 0x80 =? 0) then get_varuint_slow fuel' i shift f else Ok (i, f)
  end.
Definition get_varuint (f : list Z) : outcome (Z * list Z) :=
  let '(b, f) := get_u1 f in
  if Z.land b 0x80 =? 0 then Ok (b, f)
  else get_varuint_slow 10 (Z.land b 0x7f) 7 f.
Definition get_varsint (f : list Z) : outcome (Z * list Z) :=
  let! '(v, f) := get_varuint f in Ok (zigZagDecode v, f).

Fixpoint magic (bytes : list Z) (f : list Z) : bool * list Z :=
  match bytes with
  | [] => (true, f)
  | p :: bytes' =>
      let '(c, f) := get_u1 f in
      if c =? p then magic bytes' f else (false, f)
  end.

End BytecodeFile.
Import BytecodeFile.

(** ** Data *)

(** [str] as an address, and the characters [fread] has put there. *)
Record StringTabEntry := mkStringTabEntry {
  ste_len : Z;
  ste_str : Z;
  ste_chars : list Z
}.

Record Module_ := mkModule {
  name_ : string;
  flags_ : Z;
  numInfoTables_ : Z;
  numClosures_ : Z;
  numStrings_ : Z;
  numImports_ : Z;
  strings_ : list StringTabEntry;
  imports_ : list string
}.

(** A hash map's [operator[]]: a missing key is entered with the null
    pointer. *)
Definition tab_ref {A} (null : A) (t : gmap string A) (k : string) : A * gmap string A :=
  match t !! k with
  | Some v => (v, t)
  | None => (null, <[k := null]> t)
  end.

(** Offset of [next] in [FwdRefInfoTable], behind the [InfoTable]. *)
Definition FWD_next : Z := 8 * Misc.wordsof_InfoTable.

(** ** Paths *)

Definition VERSION_MAJOR : Z := 0.
Definition VERSION_MINOR : Z := 1.
Definition MAX_PARTS : Z := 255.
Definition PATH_MAX : nat := 4096.

Fixpoint dots_to_slashes (name : string) : string :=
  match name with
  | String.EmptyString => ""
  | String.String c name' =>
      String.String (if Ascii.eqb c "."%char then "/"%char else c) (dots_to_slashes name')
  end.
Definition moduleNameToFile (basepath name : string) : string :=
  let basepath := if String.eqb basepath "" then "."%string else basepath in
  (basepath +:+ "/" +:+ dots_to_slashes name +:+ ".lcbc")%string.

Definition wired_in_packages : list string :=
  ["ghc-prim"; "integer-simple"; "base"; "containers"]%string.

(** [strchr(path, ':')]: what stands before the first colon and, when
    there is one, what stands behind it. *)
Fixpoint strchr_colon (path : string) : string * option string :=
  match path with
  | String.EmptyString => (""%string, None)
  | String.String c path' =>
      if Ascii.eqb c ":"%char then (""%string, Some path')
      else let '(before, after) := strchr_colon path' in (String.String c before, after)
  end.

Section search.
Context (isreg : string -> bool).

(** [stat] and [S_ISREG] *)
Definition fileExists (path : string) : bool := isreg path.

Fixpoint findWiredIn (base name : string) (packages : list string) : option string :=
  match packages with
  | [] => None
  | p :: packages' =>
      let dir := String.substring 0 (PATH_MAX - 1) (base +:+ "/" +:+ p)%string in
      let filename := moduleNameToFile dir name in
      if fileExists filename then Some filename else findWiredIn base name packages'
  end.
Fixpoint findModule (basepaths : list string) (moduleName : string) : option string :=
  match basepaths with
  | [] => None
  | b :: basepaths' =>
      let filename := moduleNameToFile b moduleName in
      if fileExists filename then Some filename
      else
        match findWiredIn b moduleName wired_in_packages with
        | Some filename => Some filename
        | None => findModule basepaths' moduleName
        end
  end.
End search.

(** ** State of the loader *)

Section loader.
Context {H : Type} `{HeapOps H}.
Context (new_at : nat -> Z) (isreg : string -> bool) (fopen : string -> option (list Z))
        (realpath : string -> option string).

Record LoaderState := mkLoader {
  mm_ : H;
  mem_ : memory;
  news_ : nat;
  basepaths_ : list string;
  loadedModules_ : gmap string (option Module_);
  infoTables_ : gmap string Z;
  closures_ : gmap string Z
}.

Definition with_mm (s : LoaderState) (h : H) : LoaderState :=
  mkLoader h (mem_ s) (news_ s) (basepaths_ s) (loadedModules_ s) (infoTables_ s) (closures_ s).
Definition with_mem (s : LoaderState) (m : memory) : LoaderState :=
  mkLoader (mm_ s) m (news_ s) (basepaths_ s) (loadedModules_ s) (infoTables_ s) (closures_ s).
Definition with_basepaths (s : LoaderState) (l : list string) : LoaderState :=
  mkLoader (mm_ s) (mem_ s) (news_ s) l (loadedModules_ s) (infoTables_ s) (closures_ s).
Definition with_loaded (s : LoaderState) (t : gmap string (option Module_)) : LoaderState :=
  mkLoader (mm_ s) (mem_ s) (news_ s) (basepaths_ s) t (infoTables_ s) (closures_ s).
Definition with_infos (s : LoaderState) (t : gmap string Z) : LoaderState :=
  mkLoader (mm_ s) (mem_ s) (news_ s) (basepaths_ s) (loadedModules_ s) t (closures_ s).
Definition with_closures (s : LoaderState) (t : gmap string Z) : LoaderState :=
  mkLoader (mm_ s) (mem_ s) (news_ s) (basepaths_ s) (loadedModules_ s) (infoTables_ s) t.

(** ** Computations that read a file *)

Definition LM (A : Type) : Type := list Z -> LoaderState -> outcome (A * list Z * LoaderState).

Definition lret {A} (a : A) : LM A := fun f s => Ok (a, f, s).
Definition lerr {A} (e : fault) : LM A := fun f s => Err e.
Definition lbind {A B} (c : LM A) (k : A -> LM B) : LM B := fun f s =>
  let! '(a, f, s) := c f s in k a f s.
(** A total reader, a reader that may fail, and an outcome. *)
Definition lread {A} (r : list Z -> A * list Z) : LM A := fun f s =>
  let '(a, f) := r f in Ok (a, f, s).
Definition lread_ok {A} (r : list Z -> outcome (A * list Z)) : LM A := fun f s =>
  let! '(a, f) := r f in Ok (a, f, s).
Definition lift {A} (o : outcome A) : LM A := fun f s => let! a := o in Ok (a, f, s).
(** An operation of the memory manager, and one on the whole state. *)
Definition lheap {A} (g : H -> outcome (H * A)) : LM A := fun f s =>
  let! '(h, a) := g (mm_ s) in Ok (a, f, with_mm s h).
Definition lstate {A} (g : LoaderState -> outcome (A * LoaderState)) : LM A := fun f s =>
  let! '(a, s) := g s in Ok (a, f, s).
Definition lmem (g : memory -> memory) : LM unit := fun f s =>
  Ok (tt, f, with_mem s (g (mem_ s))).

Notation "'let*' x := c 'in' k" := (lbind c (fun x => k))
  (at level 10, x binder, c at level 100, k at level 200).
Notation "'assert*' b 'in' k" := (if b then k else lerr AssertFailed)
  (at level 10, b at level 100, k at level 200).

(** [for (i = 0; i < n; i++)], collecting the results. *)
Fixpoint lfor {A} (n : nat) (i : Z) (body : Z -> LM A) : LM (list A) :=
  match n with
  | O => lret []
  | S n' => let* a := body i in let* l := lfor n' (i + 1) body in lret (a :: l)
  end.

Definition beginAlloc : LM unit :=
  lheap (fun h => let! h := h_beginAllocInfoTable h in Ok (h, tt)).
Definition endAlloc : LM unit :=
  lheap (fun h => let! h := h_endAllocInfoTable h in Ok (h, tt)).

(** ** Memory from [new] *)

Definition new_block (s : LoaderState) : Z * LoaderState :=
  (new_at (news_ s),
   mkLoader (mm_ s) (mem_ s) (S (news_ s)) (basepaths_ s) (loadedModules_ s)
     (infoTables_ s) (closures_ s)).

(** Little-endian words; the last one is padded with zeros. *)
Fixpoint le_word (l : list Z) : Z :=
  match l with
  | [] => 0
  | b :: l' => b + 256 * le_word l'
  end.
Fixpoint store_chars (n : nat) (m : memory) (a : Z) (l : list Z) : memory :=
  match n with
  | O => m
  | S n' => store_chars n' (store m a (le_word (take 8 l))) (a + 8) (drop 8 l)
  end.

(** [get_string(len)]: a file that ends too early leaves the block
    indeterminate, so it counts as not written. *)
Definition get_string (len : Z) : LM (Z * list Z) := fun f s =>
  if u8 (len + 1) =? 0 then Err UndefinedOp else
  let '(a, s) := new_block s in
  let n := Z.to_nat (Z.min len (Z.of_nat (length f))) in
  let chars := map u1 (take n f) in
  let m := if Z.of_nat n =? len then store_chars (n / 8 + 1) (mem_ s) a (chars ++ [0])
           else mem_ s in
  Ok ((a, chars), drop n f, with_mem s m).

Definition loadStringTabEntry : LM StringTabEntry :=
  let* len := lread_ok get_varuint in
  let* p := get_string len in
  lret (mkStringTabEntry len (fst p) (snd p)).

(** ** Identifiers *)

Definition string_entry (strings : list StringTabEntry) (idx : Z) : outcome StringTabEntry :=
  of_option WildAccess (strings !! Z.to_nat idx).
(** [memcpy(p, e.str, e.len)]: the characters must have been read. *)
Definition entry_chars (e : StringTabEntry) : outcome (list Z) :=
  if Z.of_nat (length (ste_chars e)) =? ste_len e then Ok (ste_chars e) else Err UndefinedOp.

(** The second loop of [loadId]. *)
Fixpoint join_parts (strings : list StringTabEntry) (sep : list Z) (parts : list Z)
  : outcome (list Z) :=
  match parts with
  | [] => Ok []
  | p :: parts' =>
      let! e := string_entry strings p in
      let! c := entry_chars e in
      match parts' with
      | [] => Ok c
      | _ => let! rest := join_parts strings sep parts' in Ok (c ++ sep ++ rest)
      end
  end.

(** The first loop: [parts] has room for 255 indices. *)
Definition read_part (strings : list StringTabEntry) (i : Z) : LM (Z * Z) :=
  let* v := lread_ok get_varuint in
  let idx := u4 v in
  let* e := lift (string_entry strings idx) in
  if MAX_PARTS <=? i then lerr UndefinedOp else lret (idx, ste_len e).

Definition sum_lengths (seplen : Z) (parts : list (Z * Z)) : Z :=
  fold_left (fun len p => u8 (len + (snd p + seplen))) parts 0.

Definition loadId (strings : list StringTabEntry) (sep : list Z) : LM string :=
  let* v := lread_ok get_varuint in
  let numparts := u4 v in
  assert* 0 <? numparts in
  let seplen := Z.of_nat (length sep) in
  let* parts := lfor (Z.to_nat numparts) 0 (read_part strings) in
  let len := u8 (sum_lengths seplen parts - seplen) in
  let* _ := lheap (fun h => h_allocString h len) in
  let* ident := lift (join_parts strings sep (map fst parts)) in
  lret (string_of_bytes (c_str ident)).

Definition dot : list Z := [46].

(** ** Module headers *)

Definition STR_SEC_HDR_MAGIC : Z := MSB_u4 66 67 83 84.

Definition loadModuleHeader : LM (option Module_) :=
  let* ok := lread (magic [75; 72; 67; 66]) in
  if negb ok then lret None else
  let* major := lread get_u2 in
  let* minor := lread get_u2 in
  if negb (major =? VERSION_MAJOR) || negb (minor =? VERSION_MINOR) then lret None else
  let* flags := lread get_u4 in
  let* numStrings := lread get_u4 in
  let* numInfoTables := lread get_u4 in
  let* numClosures := lread get_u4 in
  let* numImports := lread get_u4 in
  let* secmagic := lread get_u4 in
  assert* secmagic =? STR_SEC_HDR_MAGIC in
  let* strings := lfor (Z.to_nat numStrings) 0 (fun _ => loadStringTabEntry) in
  let* name := loadId strings dot in
  let* imports := lfor (Z.to_nat numImports) 0 (fun _ => loadId strings dot) in
  lret (Some (mkModule name flags numInfoTables numClosures numStrings numImports
                strings imports)).

(** ** Forward references

    The locations that wait for an object form a linked list through the
    locations themselves; a dummy object points to the first one. *)

Definition delete_word (m : memory) (a : Z) : memory :=
  mkMemory (base.delete a (words m)) (itbls m) (bytecode m).
Definition delete_itbl (m : memory) (a : Z) : memory :=
  mkMemory (words m) (base.delete a (itbls m)) (bytecode m).

(** The loops of both [fix] functions: [*p] is read, then overwritten.
    A list of distinct locations is shorter than memory. *)
Fixpoint fix_chain (fuel : nat) (m : memory) (p obj : Z) : outcome memory :=
  if p =? 0 then Ok m else
  match fuel with
  | O => Err OutOfFuel
  | S fuel' => let! next := load m p in fix_chain fuel' (store m p obj) next obj
  end.
Definition chain_fuel (m : memory) : nat := size (words m).

Definition loadClosureReference (name : string) (literal : Z) (s : LoaderState)
  : outcome (unit * LoaderState) :=
  let '(cl, t) := tab_ref 0 (closures_ s) name in
  let s := with_closures s t in
  if cl =? 0 then
    let '(cl, s) := new_block s in
    let m := setPayload (setInfo (mem_ s) cl 0) cl 0 literal in
    let s := with_mem s (store m literal 0) in
    Ok (tt, with_closures s (<[name := cl]> (closures_ s)))
  else
    let! info := closure_info_addr (mem_ s) cl in
    if info =? 0 then
      let! first := payload (mem_ s) cl 0 in
      Ok (tt, with_mem s (setPayload (store (mem_ s) literal first) cl 0 literal))
    else Ok (tt, with_mem s (store (mem_ s) literal cl)).

(** [delete[]] of a closure that is not a dummy is undefined: its memory
    does not come from [new]. *)
Definition fixClosureForwardReference (name : string) (cl : Z) (s : LoaderState)
  : outcome (unit * LoaderState) :=
  let '(fwd_ref, t) := tab_ref 0 (closures_ s) name in
  let s := with_closures s t in
  if fwd_ref =? 0 then Ok (tt, s)
  else
    let! info := closure_info_addr (mem_ s) fwd_ref in
    let! p := payload (mem_ s) fwd_ref 0 in
    let! m := fix_chain (chain_fuel (mem_ s)) (mem_ s) p cl in
    if info =? 0 then
      Ok (tt, with_mem s (delete_word (delete_word m fwd_ref) (fwd_ref + 8)))
    else Err UndefinedOp.

Definition isFullyLoadedInfoTable (m : memory) (info : Z) : outcome bool :=
  if info =? 0 then Ok false
  else let! i := info_at m info in Ok (negb (bool_decide (it_type i = INVALID_OBJECT))).

Definition loadInfoTableReference (name : string) (dest : Z) (s : LoaderState)
  : outcome (unit * LoaderState) :=
  let '(info, t) := tab_ref 0 (infoTables_ s) name in
  let s := with_infos s t in
  if info =? 0 then
    let '(info2, s) := new_block s in
    let m := store_itbl (mem_ s) info2 (mkInfoTable INVALID_OBJECT 0 0 0 "" None) in
    let m := store (store m (info2 + FWD_next) dest) dest 0 in
    Ok (tt, with_infos (with_mem s m) (<[name := info2]> (infoTables_ s)))
  else
    let! i := info_at (mem_ s) info in
    if bool_decide (it_type i = INVALID_OBJECT) then
      let! first := load (mem_ s) (info + FWD_next) in
      Ok (tt, with_mem s (store (store (mem_ s) dest first) (info + FWD_next) dest))
    else Ok (tt, with_mem s (store (mem_ s) dest info)).

Definition fixInfoTableForwardReference (name : string) (info : Z) (s : LoaderState)
  : outcome (unit * LoaderState) :=
  let '(old_itbl, t) := tab_ref 0 (infoTables_ s) name in
  let s := with_infos s t in
  if old_itbl =? 0 then Ok (tt, s)
  else
    let! i := info_at (mem_ s) old_itbl in
    assert! bool_decide (it_type i = INVALID_OBJECT) in
    let! p := load (mem_ s) (old_itbl + FWD_next) in
    let! m := fix_chain (chain_fuel (mem_ s)) (mem_ s) p info in
    Ok (tt, with_mem s (delete_itbl (delete_word m (old_itbl + FWD_next)) old_itbl)).

(** ** Literals and code *)

(** The numbering of [LitType]. *)
Definition lit_type (n : Z) : option LitType :=
  [LIT_INT; LIT_STRING; LIT_CHAR; LIT_WORD; LIT_FLOAT; LIT_CLOSURE; LIT_INFO; LIT_PC]
    !! Z.to_nat n.

(** [loadLiteral]: the [switch], and the whole; the type is returned, the
    word is stored. *)
Definition loadLiteral_switch (strings : list StringTabEntry) (literal : Z)
    (littype : option LitType) : LM unit :=
  match littype with
  | Some LIT_INT =>
      let* v := lread_ok get_varsint in lmem (fun m => store m literal (u8 v))
  | Some LIT_CHAR | Some LIT_WORD =>
      let* v := lread_ok get_varuint in lmem (fun m => store m literal v)
  | Some LIT_FLOAT =>
      let* v := lread get_u4 in lmem (fun m => store m literal v)
  | Some LIT_STRING =>
      let* v := lread_ok get_varuint in
      let* e := lift (string_entry strings (u4 v)) in
      lmem (fun m => store m literal (ste_str e))
  | Some LIT_CLOSURE =>
      let* clname := loadId strings dot in lstate (loadClosureReference clname literal)
  | Some LIT_INFO =>
      let* infoname := loadId strings dot in lstate (loadInfoTableReference infoname literal)
  | Some LIT_PC | None => lerr (Exited 1)
  end.
Definition loadLiteral (strings : list StringTabEntry) (literal : Z) : LM Z :=
  let* littype := lread get_u1 in
  let* _ := loadLiteral_switch strings literal (lit_type littype) in
  lret littype.

Definition loadCode (strings : list StringTabEntry) : LM Code :=
  let* framesize := lread_ok get_varuint in
  let* arity := lread_ok get_varuint in
  let* sizelits := lread_ok get_varuint in
  let sizelits := u2 sizelits in
  let* sizecode := lread get_u2 in
  let* sizebitmaps := lread get_u2 in
  let* lits := lstate (fun s => Ok (new_block s)) in
  let* littypes := lfor (Z.to_nat sizelits) 0 (fun i => loadLiteral strings (lits + 8 * i)) in
  let* code := lheap (fun h => h_allocCode h sizecode sizebitmaps) in
  let* _ := lfor (Z.to_nat sizecode) 0 (fun i =>
              let* ins := lread get_u4 in lmem (fun m => store_ins m (code + 4 * i) ins)) in
  let bitmaps := code + 4 * sizecode in
  let* _ := lfor (Z.to_nat sizebitmaps) 0 (fun i =>
              let* b := lread get_u2 in lmem (fun m => store_ins_u2 m (bitmaps + 2 * i) b)) in
  lret (mkCode (u1 framesize) (u1 arity) sizecode sizelits sizebitmaps lits littypes code).

(** ** Info tables *)

Definition closure_type (n : Z) : option ClosureType :=
  [INVALID_OBJECT; CONSTR; FUN; THUNK; IND; CAF; PAP; LARGE; AP_CONT; STATIC_IND;
   UPDATE_FRAME; BLACKHOLE] !! Z.to_nat n.

(** [sz], with its assertion, and the bitmap. *)
Definition read_layout : LM (Z * Z) :=
  let* sz := lread_ok get_varuint in
  assert* sz <=? 32 in
  let* bitmap := (if 0 <? sz then lread get_u4 else lret 0) in
  lret (u1 sz, bitmap).

(** The two successful cases of the [switch].  Nothing sees the new info
    table before it is complete, so it is stored once. *)
Definition load_ConInfoTable (strings : list StringTabEntry) : LM Z :=
  let* _ := beginAlloc in
  let* info := lheap (fun h => h_allocInfoTable h Misc.wordsof_InfoTable) in
  let* tag := lread_ok get_varuint in
  let* layout := read_layout in
  let* name := loadId strings dot in
  let* _ := lmem (fun m => store_itbl m info
              (mkInfoTable CONSTR (fst layout) (u2 tag) (snd layout) name None)) in
  let* _ := endAlloc in
  lret info.
Definition load_CodeInfoTable (strings : list StringTabEntry) (ty : ClosureType) : LM Z :=
  let* _ := beginAlloc in
  let* info := lheap (fun h => h_allocInfoTable h Misc.wordsof_CodeInfoTable) in
  let* layout := read_layout in
  let* name := loadId strings dot in
  let* code := loadCode strings in
  let* _ := lmem (fun m => store_itbl m info
              (mkInfoTable ty (fst layout) 0 (snd layout) name (Some code))) in
  let* _ := endAlloc in
  lret info.

Definition loadInfoTable (strings : list StringTabEntry) : LM Z :=
  let* ok := lread (magic [73; 84; 66; 76]) in
  if negb ok then lerr (Exited 1) else
  let* itbl_name := loadId strings dot in
  let* cl_type := lread_ok get_varuint in
  let* full := lstate (fun s =>
    let '(old_itbl, t) := tab_ref 0 (infoTables_ s) itbl_name in
    let! b := isFullyLoadedInfoTable (mem_ s) old_itbl in Ok (b, with_infos s t)) in
  if (full : bool) then lerr (Exited 1) else
  let* new_itbl :=
    match closure_type (u2 cl_type) with
    | Some CONSTR => load_ConInfoTable strings
    | Some CAF => load_CodeInfoTable strings CAF
    | Some THUNK => load_CodeInfoTable strings THUNK
    | Some FUN => load_CodeInfoTable strings FUN
    | _ => lerr (Exited 1)
    end in
  let* _ := lstate (fixInfoTableForwardReference itbl_name new_itbl) in
  let* _ := lstate (fun s =>
    Ok (tt, with_infos s (<[itbl_name := new_itbl]> (infoTables_ s)))) in
  lret new_itbl.

(** ** Closures *)

(** The size check, when the info table is there already. *)
Definition check_payload (m : memory) (info payloadsize : Z) : outcome unit :=
  let! full := isFullyLoadedInfoTable m info in
  if full then
    let! i := info_at m info in
    if bool_decide (it_type i = CAF) then assert! payloadsize =? 2 in Ok tt
    else assert! payloadsize =? it_size i in Ok tt
  else Ok tt.

Definition loadClosure (strings : list StringTabEntry) : LM unit :=
  let* ok := lread (magic [67; 76; 79; 83]) in
  if negb ok then lerr (Exited 2) else
  let* clos_name := loadId strings dot in
  let* v := lread_ok get_varuint in
  let payloadsize := u4 v in
  let* itbl_name := loadId strings dot in
  let* _ := lstate (fun s =>
    let '(info, t) := tab_ref 0 (infoTables_ s) itbl_name in
    let! _ := check_payload (mem_ s) info payloadsize in Ok (tt, with_infos s t)) in
  let* cl := lheap (fun h => h_allocStaticClosure h payloadsize) in
  let* _ := lstate (loadInfoTableReference itbl_name cl) in
  let* _ := lfor (Z.to_nat payloadsize) 0 (fun i => loadLiteral strings (cl + 8 + 8 * i)) in
  let* _ := lstate (fixClosureForwardReference clos_name cl) in
  lstate (fun s => Ok (tt, with_closures s (<[clos_name := cl]> (closures_ s)))).

Definition loadModuleBody (mdl : Module_) : LM unit :=
  let* ok := lread (magic [66; 67; 67; 76]) in
  if negb ok then lerr (Exited 1) else
  let* _ := lfor (Z.to_nat (numInfoTables_ mdl)) 0 (fun _ => loadInfoTable (strings_ mdl)) in
  let* _ := lfor (Z.to_nat (numClosures_ mdl)) 0 (fun _ => loadClosure (strings_ mdl)) in
  lret tt.

(** ** Modules *)

(** The loop over the imports; what [loadModule] answers is not looked
    at. *)
Fixpoint load_imports (loadModule : string -> LoaderState -> outcome (bool * LoaderState))
    (imports : list string) (s : LoaderState) : outcome LoaderState :=
  match imports with
  | [] => Ok s
  | i :: imports' => let! '(_, s) := loadModule i s in load_imports loadModule imports' s
  end.

(** [loadModule(name, level)]; the fuel bounds the nesting of imports. *)
Fixpoint loadModule_level (fuel : nat) (moduleName : string) (s : LoaderState)
  : outcome (bool * LoaderState) :=
  match fuel with
  | O => Err OutOfFuel
  | S fuel' =>
      let '(mdl, t) := tab_ref None (loadedModules_ s) moduleName in
      let s := with_loaded s t in
      match mdl with
      | Some _ => Ok (true, s)
      | None =>
          match findModule isreg (basepaths_ s) moduleName with
          | None => Ok (false, s)
          | Some filename =>
              match fopen filename with
              | None => Ok (false, s)
              | Some f =>
                  let! '(mdl, f, s) := loadModuleHeader f s in
                  match mdl with
                  | None => Ok (false, s)
                  | Some mdl =>
                      let s := with_loaded s (<[moduleName := Some mdl]> (loadedModules_ s)) in
                      let! s := load_imports (loadModule_level fuel') (imports_ mdl) s in
                      let! '(_, _, s) := loadModuleBody mdl f s in
                      Ok (true, s)
                  end
              end
          end
      end
  end.

(** Number of unresolved entries; a null entry is dereferenced. *)
Fixpoint count_errors (unresolved : Z -> outcome bool) (entries : list (string * Z))
  : outcome nat :=
  match entries with
  | [] => Ok O
  | (_, a) :: entries' =>
      let! b := (if a =? 0 then Err WildAccess else unresolved a) in
      let! n := count_errors unresolved entries' in
      Ok (if (b : bool) then S n else n)
  end.
Definition checkNoForwardRefs (s : LoaderState) : outcome bool :=
  let! e1 := count_errors (fun a => let! i := info_at (mem_ s) a in
                                    Ok (bool_decide (it_type i = INVALID_OBJECT)))
               (map_to_list (infoTables_ s)) in
  let! e2 := count_errors (fun a => let! i := closure_info_addr (mem_ s) a in Ok (i =? 0))
               (map_to_list (closures_ s)) in
  Ok (Nat.eqb (e1 + e2) 0).

Definition begin_s (s : LoaderState) : outcome LoaderState :=
  let! h := h_beginAllocInfoTable (mm_ s) in Ok (with_mm s h).
Definition end_s (s : LoaderState) : outcome LoaderState :=
  let! h := h_endAllocInfoTable (mm_ s) in Ok (with_mm s h).

Definition loadModule (fuel : nat) (moduleName : string) (s : LoaderState)
  : outcome (bool * LoaderState) :=
  let! s := begin_s s in
  let! '(ok, s) := loadModule_level fuel moduleName s in
  let! ans := (if (ok : bool) then checkNoForwardRefs s else Ok false) in
  let! s := end_s s in
  Ok (ans, s).

Definition loadWiredInModules (fuel : nat) (s : LoaderState) : outcome (bool * LoaderState) :=
  let! s := begin_s s in
  let! '(ok, s) := loadModule fuel "GHC.Types" s in
  let! '(ok, s) := (if (ok : bool) then loadModule fuel "Control.Exception.Base" s
                    else Ok (false, s)) in
  let! s := end_s s in
  Ok (ok, s).

(** [module(name)] and [closure(name)] *)
Definition module_ (s : LoaderState) (moduleName : string) : option Module_ * LoaderState :=
  let '(mdl, t) := tab_ref None (loadedModules_ s) moduleName in (mdl, with_loaded s t).
Definition closure (s : LoaderState) (name : string) : Z * LoaderState :=
  let '(cl, t) := tab_ref 0 (closures_ s) name in (cl, with_closures s t).

(** ** Base paths and the constructor *)

Definition appendBasePathEntry (s : LoaderState) (path : string) : LoaderState :=
  with_basepaths s (basepaths_ s ++ [path]).
Definition addBasePath (path : string) (s : LoaderState) : outcome LoaderState :=
  match realpath path with
  | None => Ok s
  | Some real =>
      let! '(h, _) := h_allocString (mm_ s) (Z.of_nat (String.length real)) in
      Ok (appendBasePathEntry (with_mm s h) real)
  end.
Definition basePath (s : LoaderState) (index : nat) : option string := basepaths_ s !! index.

(** The loop of [initBasePath]: one round per component. *)
Fixpoint initBasePath_loop (fuel : nat) (path : string) (s : LoaderState)
  : outcome LoaderState :=
  match fuel with
  | O => Err OutOfFuel
  | S fuel' =>
      let '(part, rest) := strchr_colon path in
      assert! match rest with Some _ => negb (String.eqb part "") | None => true end in
      let! s :=
        if String.eqb part "" then
          match rest with None => addBasePath "." s | Some _ => Ok s end
        else if (PATH_MAX <? String.length part)%nat then Ok s
        else addBasePath part s in
      match rest with
      | None => Ok s
      | Some path => initBasePath_loop fuel' path s
      end
  end.
Definition initBasePath (path : option string) (s : LoaderState) : outcome LoaderState :=
  let path := default ""%string path in
  initBasePath_loop (S (String.length path)) path s.

(** [Loader::Loader]; it also runs [MiscClosures::init]. *)
Definition new_Loader (h : H) (m : memory) (misc : MiscClosures) (basepaths : option string)
  : outcome (LoaderState * MiscClosures) :=
  let! s := initBasePath basepaths (mkLoader h m O [] ∅ ∅ ∅) in
  let! '(h, m, misc) := Misc.init (mm_ s) (mem_ s) misc in
  Ok (with_mem (with_mm s h) m, misc).

End loader.
