(* ===== verification/Serialise.v ===== *)
(** * The writer of bytecode files ([Serialise.hs], [Utils/IO.hs])

    The part of the compiler that determines what the loader has to read:
    variable-length integers, the string table, identifiers, module
    headers, fields, static closures, constructor info tables and register
    sets.  Strings are lists of bytes, as after [U.fromString]; a string
    table is the list of its strings in the order of their numbers.  A
    function of the [Build] monad takes the string table and returns what
    it emits and the new table. *)

From S2P Require Import Prelude Words Bytecode Objects.

(** ** Numbers *)

(** [varUIntBytes] of a 64-bit word. *)
Fixpoint varUIntBytes_go (fuel : nat) (w : Z) : list Z :=
  match fuel with
  | O => []
  | S fuel' => if w <? 128 then [u1 w]
               else Z.lor (u1 w) 0x80 :: varUIntBytes_go fuel' (Z.shiftr w 7)
  end.
Definition varUIntBytes (w : Z) : list Z := varUIntBytes_go 10 w.

(** [zigZagEncode :: Int -> Word] *)
Definition zigZagEncode_hs (n : Z) : Z :=
  if n <? 0 then u8 (u8 (Z.shiftl (u8 (Z.lnot (u8 n))) 1) + 1) else u8 (Z.shiftl (u8 n) 1).
Definition emitVarSInt (n : Z) : list Z := varUIntBytes (zigZagEncode_hs n).

Definition writeWord16be (w : Z) : list Z := [u1 (Z.shiftr w 8); u1 w].
Definition writeWord32be (w : Z) : list Z :=
  [u1 (Z.shiftr w 24); u1 (Z.shiftr w 16); u1 (Z.shiftr w 8); u1 w].

(** ** Strings and identifiers *)

Abbreviation bytestring := (list Z).

Fixpoint index_of (s : bytestring) (tbl : list bytestring) : option nat :=
  match tbl with
  | [] => None
  | t :: tbl' => if bool_decide (s = t) then Some O else S <$> index_of s tbl'
  end.
Definition addString (tbl : list bytestring) (s : bytestring) : Z * list bytestring :=
  match index_of s tbl with
  | Some i => (Z.of_nat i, tbl)
  | None => (Z.of_nat (length tbl), tbl ++ [s])
  end.

Fixpoint emit_parts (tbl : list bytestring) (parts : list bytestring)
  : list Z * list bytestring :=
  match parts with
  | [] => ([], tbl)
  | p :: parts' =>
      let '(idx, tbl) := addString tbl p in
      let '(out, tbl) := emit_parts tbl parts' in
      (varUIntBytes idx ++ out, tbl)
  end.
Definition emitIdParts (tbl : list bytestring) (parts : list bytestring)
  : list Z * list bytestring :=
  let '(out, tbl) := emit_parts tbl parts in
  (varUIntBytes (Z.of_nat (length parts)) ++ out, tbl).

(** [B.split dot]; the empty string has no parts. *)
Fixpoint split_go (s : bytestring) : bytestring * list bytestring :=
  match s with
  | [] => ([], [])
  | c :: s' =>
      let '(p, ps) := split_go s' in
      if c =? 46 then ([], p :: ps) else (c :: p, ps)
  end.
Definition split_dot (s : bytestring) : list bytestring :=
  match s with
  | [] => []
  | _ => let '(p, ps) := split_go s in p :: ps
  end.
Definition emitIdString (tbl : list bytestring) (str : bytestring)
  : list Z * list bytestring := emitIdParts tbl (split_dot str).

Definition encOne (str : bytestring) : list Z :=
  varUIntBytes (Z.of_nat (length str)) ++ str.
Definition encodeStringTable (tbl : list bytestring) : list Z := concat (map encOne tbl).

(** ** Module headers *)

Definition header (strings : list bytestring) (numItbls numClosures numImports : Z) : list Z :=
  [75; 72; 67; 66]
  ++ writeWord16be 0 ++ writeWord16be 1
  ++ writeWord32be 0
  ++ writeWord32be (Z.of_nat (length strings))
  ++ writeWord32be numItbls
  ++ writeWord32be numClosures
  ++ writeWord32be numImports
  ++ [66; 67; 83; 84]
  ++ encodeStringTable strings.

Fixpoint emit_imports (tbl : list bytestring) (imports : list bytestring)
  : list Z * list bytestring :=
  match imports with
  | [] => ([], tbl)
  | i :: imports' =>
      let '(out, tbl) := emitIdString tbl i in
      let '(more, tbl) := emit_imports tbl imports' in
      (out ++ more, tbl)
  end.
(** The first two lines of [encodeModule'] and the header, for a table
    that later parts of the module may have extended. *)
Definition modinfo (name : bytestring) (imports : list bytestring)
  : list Z * list bytestring :=
  let '(out, tbl) := emitIdString [] name in
  let '(more, tbl) := emit_imports tbl imports in
  (out ++ more, tbl).

(** ** Fields, closures and info tables *)

Inductive Field :=
| CInt (n : Z)
| CStr (s : bytestring)
| CChar (c : Z)
| CWord (n : Z)
| CFloat (w : Z)
| InfoId (name : bytestring)
| ClosureId (name : bytestring).

(** [genopcodes.cc] prints the numbers of the C++ enumerations. *)
Definition littype (t : LitType) : Z :=
  match t with
  | LIT_INT => 0 | LIT_STRING => 1 | LIT_CHAR => 2 | LIT_WORD => 3 | LIT_FLOAT => 4
  | LIT_CLOSURE => 5 | LIT_INFO => 6 | LIT_PC => 7
  end.

Definition emitField (tbl : list bytestring) (lit : Field) : list Z * list bytestring :=
  match lit with
  | CInt n => (varUIntBytes (littype LIT_INT) ++ emitVarSInt n, tbl)
  | CStr s =>
      let '(sid, tbl) := addString tbl s in
      (varUIntBytes (littype LIT_STRING) ++ varUIntBytes sid, tbl)
  | CChar c => (varUIntBytes (littype LIT_CHAR) ++ varUIntBytes c, tbl)
  | CWord n => (varUIntBytes (littype LIT_WORD) ++ varUIntBytes n, tbl)
  | CFloat w => (varUIntBytes (littype LIT_FLOAT) ++ writeWord32be w, tbl)
  | InfoId name =>
      let '(out, tbl) := emitIdString tbl name in
      (varUIntBytes (littype LIT_INFO) ++ out, tbl)
  | ClosureId name =>
      let '(out, tbl) := emitIdString tbl name in
      (varUIntBytes (littype LIT_CLOSURE) ++ out, tbl)
  end.

Fixpoint emitFields (tbl : list bytestring) (l : list Field) : list Z * list bytestring :=
  match l with
  | [] => ([], tbl)
  | x :: l' =>
      let '(out, tbl) := emitField tbl x in
      let '(more, tbl) := emitFields tbl l' in
      (out ++ more, tbl)
  end.

(** The three cases of [emitClosure] differ in the info table and the
    fields: those of a constructor, none for a function, two zeros for a
    CAF. *)
Definition emitClosure (tbl : list bytestring) (name itbl : bytestring) (fields : list Field)
  : list Z * list bytestring :=
  let '(n, tbl) := emitIdString tbl name in
  let '(i, tbl) := emitIdString tbl itbl in
  let '(out, tbl) := emitFields tbl fields in
  ([67; 76; 79; 83] ++ n ++ varUIntBytes (Z.of_nat (length fields)) ++ i ++ out, tbl).

Fixpoint bitsToWord32s_go (acc mask : Z) (bits : list bool) : list Z :=
  match bits with
  | [] => if mask =? 1 then [] else [acc]
  | b :: bits' =>
      if mask =? 0 then acc :: bitsToWord32s_go (if b then 1 else 0) 2 bits'
      else bitsToWord32s_go (if b then Z.lor acc mask else acc) (u4 (Z.shiftl mask 1)) bits'
  end.
Definition bitsToWord32s (bits : list bool) : list Z := bitsToWord32s_go 0 1 bits.
Definition emitPointerMask (ops : list bool) : list Z :=
  varUIntBytes (Z.of_nat (length ops)) ++ concat (map writeWord32be (bitsToWord32s ops)).

(** The case [BcConInfo] of [emitInfoTable]; [tys] says which fields are
    pointers. *)
Definition emitConInfo (tbl : list bytestring) (name : bytestring) (tag : Z) (tys : list bool)
  : list Z * list bytestring :=
  let '(n, tbl) := emitIdString tbl name in
  let '(n', tbl) := emitIdString tbl name in
  ([73; 84; 66; 76] ++ n ++ varUIntBytes (ClosureType_num CONSTR) ++ varUIntBytes tag
   ++ emitPointerMask tys ++ n', tbl).

(** ** Register sets *)

(** [regsToBits16] of an ascending list of registers; [fuel] bounds the
    number of chunks. *)
Fixpoint regsToBits16_go (fuel : nat) (bitset offset : Z) (regs : list Z) : list Z :=
  match fuel with
  | O => []
  | S fuel' =>
      match regs with
      | [] => [bitset]
      | n :: regs' =>
          if 15 <? n - offset
          then Z.lor 0x8000 bitset :: regsToBits16_go fuel' 0 (offset + 15) regs
          else regsToBits16_go fuel' (Z.lor bitset (u2 (Z.shiftl 1 (n - offset)))) offset regs'
      end
  end.
(** Registers have eight bits: at most 17 chunks and one round for each
    register. *)
Definition regsToBits16 (regs : list Z) : list Z :=
  regsToBits16_go (18 + length regs) 0 0 regs.

Example regsToBits16_test : regsToBits16 [5; 13; 17] = [40992; 4].
Proof. reflexivity. Qed.
