(* ===== verification/LoaderProofs.v ===== *)
(** * What the compiler writes the loader reads

    Round trips between [Serialise.v] and [Loader.v]: integers,
    identifiers, string tables, module headers, fields; numbers that do
    not end; register sets and the bitmaps of the garbage collector. *)

From Stdlib Require Import Sorted.
From S2P Require Import Prelude Words Bytecode Bitmaps Objects HeapInterface MiscClosures.
From S2P Require Import Loader Serialise.
Import BytecodeFile.

(** ** Bytes *)

Definition byte (b : Z) : Prop := 0 <= b < 2 ^ 8.

Lemma get_u1_cons b f : byte b -> get_u1 (b :: f) = (b, f).
Proof. intros Hb. cbn. unfold u1. by rewrite to_u_id by (unfold byte in Hb; lia). Qed.

Lemma u1_byte b : byte (u1 b).
Proof. apply to_u_bound. lia. Qed.

Lemma get_u2_write w rest : 0 <= w < 2 ^ 16 -> get_u2 (writeWord16be w ++ rest) = (w, rest).
Proof.
  intros Hw. unfold get_u2, writeWord16be. cbn [app].
  rewrite !get_u1_cons by apply u1_byte. f_equal.
  unfold u2, u1, to_u. rewrite Z.shiftr_div_pow2 by lia.
  rewrite (Z.mod_small (w / 2 ^ 8)) by (split; [apply Z.div_pos|apply Z.div_lt_upper_bound]; lia).
  rewrite Z.lor_comm, shiftl_lor_add by (try apply Z.mod_pos_bound; lia).
  rewrite Z.mod_small; pose proof (Z.div_mod w (2 ^ 8)); pose proof (Z.mod_pos_bound w (2 ^ 8)); lia.
Qed.

Lemma byte_split w : 0 <= w ->
  w = w mod 2 ^ 8 + (w / 2 ^ 8) * 2 ^ 8.
Proof. intros. pose proof (Z.div_mod w (2 ^ 8)). lia. Qed.

Lemma MSB_u4_write w : 0 <= w < 2 ^ 32 ->
  MSB_u4 (u1 (Z.shiftr w 24)) (u1 (Z.shiftr w 16)) (u1 (Z.shiftr w 8)) (u1 w) = w.
Proof.
  intros Hw. unfold MSB_u4, u4, u1, to_u. apply Z.bits_inj'. intros i Hi.
  rewrite Z.testbit_mod_pow2 by lia. destruct (Z.ltb_spec i 32) as [Hl|Hl].
  - rewrite !Z.lor_spec, !Z.shiftl_spec by lia.
    assert (Hb : forall k, 0 <= k -> Z.testbit (Z.shiftr w k mod 2 ^ 8) (i - k)
              = (k <=? i) && (i <? k + 8) && Z.testbit w i).
    { intros k Hk. destruct (Z.leb_spec k i); cbn [andb]; [|by apply Z.testbit_neg_r; lia].
      rewrite Z.testbit_mod_pow2, Z.shiftr_spec by lia. f_equal; [|f_equal; lia].
      destruct (Z.ltb_spec (i - k) 8), (Z.ltb_spec i (k + 8)); lia. }
    pose proof (Hb 0 ltac:(lia)) as H0. rewrite Z.shiftr_0_r, Z.sub_0_r in H0.
    rewrite H0, !Hb by lia. destruct (Z.testbit w i); lia.
  - cbn [andb]. symmetry. apply (testbit_high w 32); lia.
Qed.

Lemma get_u4_write w rest : 0 <= w < 2 ^ 32 -> get_u4 (writeWord32be w ++ rest) = (w, rest).
Proof.
  intros Hw. unfold get_u4, writeWord32be. cbn [app].
  rewrite !get_u1_cons by apply u1_byte. by rewrite MSB_u4_write.
Qed.

Lemma magic_app bytes rest : Forall byte bytes -> magic bytes (bytes ++ rest) = (true, rest).
Proof.
  induction 1 as [|b l Hb Hl IH]; [done|]. cbn [magic app].
  rewrite get_u1_cons by done. by rewrite Z.eqb_refl.
Qed.

(** ** Variable-length integers *)

(** The bytes [varUIntBytes] makes of a word with more than seven bits. *)
Lemma cont_byte w :
  let b := Z.lor (u1 w) 0x80 in
  byte b /\ Z.land b 0x80 = 0x80 /\ Z.land b 0x7f = w mod 2 ^ 7.
Proof.
  pose proof (u1_byte w) as Hw. split; [|split].
  - apply lor_bound; [lia|exact Hw|lia].
  - apply Z.bits_inj'. intros i Hi. rewrite Z.land_spec, Z.lor_spec.
    destruct (Z.testbit 0x80 i); [by rewrite orb_true_r|by rewrite andb_false_r].
  - change 0x7f with (Z.ones 7). rewrite Z.land_ones by lia.
    apply Z.bits_inj'. intros i Hi. rewrite !Z.testbit_mod_pow2, Z.lor_spec by lia.
    destruct (Z.ltb_spec i 7); [|done]. unfold u1, to_u.
    rewrite Z.testbit_mod_pow2 by lia. rewrite (proj2 (Z.ltb_lt i 8)) by lia.
    change 0x80 with (2 ^ 7). rewrite Z.pow2_bits_false by lia. by rewrite orb_false_r.
Qed.

Lemma last_byte w :
  0 <= w < 128 -> byte (u1 w) /\ Z.land (u1 w) 0x80 = 0 /\ Z.land (u1 w) 0x7f = w.
Proof.
  intros Hw. unfold byte, u1. rewrite to_u_id by lia. split_and!; [lia..| |].
  - apply Z.bits_inj'. intros i Hi. rewrite Z.land_spec, Z.bits_0.
    destruct (Z_lt_le_dec i 7) as [Hl|Hl].
    + change 0x80 with (2 ^ 7). rewrite Z.pow2_bits_false by lia. by rewrite andb_false_r.
    + by rewrite (testbit_high w 7) by lia.
  - change 0x7f with (Z.ones 7). apply land_ones_id; lia.
Qed.

(** Reading the digits behind the first [k] ones. *)
Lemma get_varuint_slow_write n k fuel i w rest :
  (n <= fuel)%nat -> 1 <= k -> 0 <= i < 2 ^ (7 * k) -> 0 <= w < 2 ^ (7 * Z.of_nat n) ->
  0 < w -> w * 2 ^ (7 * k) < 2 ^ 64 ->
  get_varuint_slow fuel i (7 * k) (varUIntBytes_go n w ++ rest)
  = Ok (i + w * 2 ^ (7 * k), rest).
Proof.
  revert k fuel i w. induction n as [|n IH]; intros k fuel i w Hf Hk Hi Hw Hp Hb.
  { cbn in Hw. lia. }
  destruct fuel as [|fuel]; [lia|].
  assert (Hk63 : 7 * k < 64).
  { destruct (Z_lt_le_dec (7 * k) 64) as [|Hge]; [done|].
    pose proof (Z.pow_le_mono_r 2 64 (7 * k) ltac:(lia) Hge). nia. }
  assert (Hstep : u1 (7 * k + 7) = 7 * (k + 1)) by (unfold u1; rewrite to_u_id; lia).
  assert (Hdig : forall d, 0 <= d -> d * 2 ^ (7 * k) < 2 ^ 64 ->
            Z.lor i (u8 (Z.shiftl d (7 * k))) = i + d * 2 ^ (7 * k)).
  { intros d Hd Hd64. unfold u8. rewrite to_u_id.
    - by rewrite shiftl_lor_add by lia.
    - rewrite Z.shiftl_mul_pow2 by lia. nia. }
  cbn [varUIntBytes_go get_varuint_slow]. rewrite (proj2 (Z.leb_gt 64 (7 * k))) by lia.
  destruct (Z.ltb_spec w 128) as [Hlt|Hge]; cbn [app].
  - destruct (last_byte w) as (Hby & H80 & H7f); [lia|].
    rewrite get_u1_cons by done. rewrite H80, H7f. cbn. by rewrite Hdig by lia.
  - destruct (cont_byte w) as (Hby & H80 & H7f). rewrite get_u1_cons by done.
    rewrite H80, H7f, Hstep. change (negb (0x80 =? 0)) with true. cbn match.
    pose proof (Z.mod_pos_bound w (2 ^ 7)). pose proof (Z.div_mod w (2 ^ 7)).
    rewrite Hdig by nia. rewrite Z.shiftr_div_pow2 by lia.
    assert (E7 : 2 ^ (7 * (k + 1)) = 2 ^ 7 * 2 ^ (7 * k)).
    { rewrite <- Z.pow_add_r by lia. f_equal. lia. }
    rewrite Nat2Z.inj_succ, <- Z.add_1_r in Hw.
    assert (En : 2 ^ (7 * (Z.of_nat n + 1)) = 2 ^ 7 * 2 ^ (7 * Z.of_nat n)).
    { rewrite <- Z.pow_add_r by lia. f_equal. lia. }
    rewrite IH; [f_equal; f_equal; nia|lia|lia|nia| | |nia].
    + split; [apply Z.div_pos; lia|apply Z.div_lt_upper_bound; lia].
    + apply Z.div_str_pos. lia.
Qed.

Lemma varuint_read w rest :
  0 <= w < 2 ^ 64 -> get_varuint (varUIntBytes w ++ rest) = Ok (w, rest).
Proof.
  intros Hw. unfold get_varuint, varUIntBytes. cbn [varUIntBytes_go].
  destruct (Z.ltb_spec w 128) as [Hlt|Hge]; cbn [app].
  - destruct (last_byte w) as (Hby & H80 & H7f); [lia|].
    rewrite get_u1_cons by done. rewrite H80. cbn.
    unfold u1. by rewrite to_u_id by lia.
  - destruct (cont_byte w) as (Hby & H80 & H7f). rewrite get_u1_cons by done.
    rewrite H80, H7f. change (0x80 =? 0) with false. cbn match.
    pose proof (Z.mod_pos_bound w (2 ^ 7)). pose proof (Z.div_mod w (2 ^ 7)).
    rewrite Z.shiftr_div_pow2 by lia.
    etransitivity; [apply (get_varuint_slow_write 9 1 10); try lia|f_equal; f_equal; lia].
Qed.

Lemma varsint_read n rest :
  - 2 ^ 63 <= n < 2 ^ 63 -> get_varsint (emitVarSInt n ++ rest) = Ok (n, rest).
Proof.
  intros Hn. unfold get_varsint, emitVarSInt.
  assert (Hu : 0 <= u8 n < 2 ^ 64) by (apply to_u_bound; lia).
  assert (E : zigZagEncode_hs n = zigZagEncode (u8 n)).
  { unfold zigZagEncode_hs, zigZagEncode. rewrite zigZag_sign by done.
    replace (2 ^ 63 <=? u8 n) with (n <? 0); [done|]. unfold u8, to_u in *.
    destruct (Z.ltb_spec n 0).
    - rewrite <- (Z.mod_add n 1), Z.mod_small by lia. symmetry. apply Z.leb_le. lia.
    - rewrite Z.mod_small by lia. symmetry. apply Z.leb_gt. lia. }
  rewrite E, varuint_read by apply zigZagEncode_bound. cbn [obind].
  rewrite zigZag_roundtrip by done. do 2 f_equal. unfold i8, u8.
  rewrite to_s_to_u by lia. apply to_s_id; lia.
Qed.

(** ** Numbers that do not end *)

(** Whether byte [n] announces another one; behind the end of the file
    every byte does. *)
Definition continues (f : list Z) (n : nat) : bool :=
  negb (Z.land (u1 (default 0xff (f !! n))) 0x80 =? 0).

Lemma get_u1_default f : get_u1 f = (u1 (default 0xff (f !! O)), drop 1 f).
Proof. by destruct f. Qed.

Lemma continues_drop f n : continues (drop 1 f) n = continues f (S n).
Proof. unfold continues. by rewrite lookup_drop. Qed.

Lemma forallb_continues_drop f l :
  forallb (fun i => continues f (S i)) l = forallb (continues (drop 1 f)) l.
Proof. induction l as [|n l IH]; [done|]. cbn [forallb]. by rewrite continues_drop, IH. Qed.

Lemma forallb_seq_S (p : nat -> bool) n :
  forallb p (seq 0 (S n)) = p O && forallb (fun i => p (S i)) (seq 0 n).
Proof.
  cbn [seq forallb]. f_equal. rewrite <- seq_shift. induction (seq 0 n); cbn; congruence.
Qed.

Lemma lor_digit_bound i b shift :
  0 <= i < 2 ^ 64 -> 0 <= Z.lor i (u8 (Z.shiftl b shift)) < 2 ^ 64.
Proof. intros. apply lor_bound; [lia|lia|apply to_u_bound; lia]. Qed.

Lemma get_varuint_slow_S fuel i shift f :
  get_varuint_slow (S fuel) i shift f =
  if 64 <=? shift then Err UndefinedOp else
  let b := u1 (default 0xff (f !! O)) in
  let i := Z.lor i (u8 (Z.shiftl (Z.land b 0x7f) shift)) in
  if negb (Z.land b 0x80 =? 0) then get_varuint_slow fuel i (u1 (shift + 7)) (drop 1 f)
  else Ok (i, drop 1 f).
Proof. cbn [get_varuint_slow]. by rewrite get_u1_default. Qed.

Lemma land_7f_bound b : 0 <= Z.land b 0x7f < 2 ^ 64.
Proof.
  change 0x7f with (Z.ones 7). rewrite Z.land_ones by lia.
  pose proof (Z.mod_pos_bound b (2 ^ 7)). lia.
Qed.

(** [k] rounds are left before the shift becomes undefined. *)
Lemma slow_ends k i f :
  (k <= 9)%nat -> 0 <= i < 2 ^ 64 ->
  let r := get_varuint_slow (S k) i (70 - 7 * Z.of_nat k) f in
  if forallb (continues f) (seq 0 k) then r = Err UndefinedOp
  else exists n v, (n < k)%nat /\ continues f n = false /\ 0 <= v < 2 ^ 64
                   /\ r = Ok (v, drop (S n) f).
Proof.
  revert i f. induction k as [|k IH]; intros i f Hk Hi.
  { cbv zeta. by rewrite get_varuint_slow_S. }
  cbv zeta. rewrite forallb_seq_S, get_varuint_slow_S.
  rewrite (proj2 (Z.leb_gt 64 _)) by lia.
  assert (Hsh : u1 (70 - 7 * Z.of_nat (S k) + 7) = 70 - 7 * Z.of_nat k)
    by (unfold u1; rewrite to_u_id by lia; lia).
  rewrite Hsh. cbv zeta.
  destruct (negb (Z.land (u1 (default 0xff (f !! O))) 0x80 =? 0)) eqn:E.
  - assert (Hc : continues f 0 = true) by exact E. rewrite Hc. cbn [andb].
    rewrite forallb_continues_drop. specialize (IH (Z.lor i (u8 (Z.shiftl
      (Z.land (u1 (default 0xff (f !! O))) 0x7f) (70 - 7 * Z.of_nat (S k))))) (drop 1 f)
      ltac:(lia) (lor_digit_bound _ _ _ Hi)).
    cbv zeta in IH. destruct (forallb _ _); [exact IH|].
    destruct IH as (n & v & Hn & Hcn & Hv & Hr). exists (S n), v.
    rewrite <- continues_drop. split; [lia|]. split; [done|]. split; [done|].
    by rewrite Hr, drop_drop.
  - assert (Hc : continues f 0 = false) by exact E. rewrite Hc. cbn [andb].
    exists O. eexists. split; [lia|]. split; [done|]. split; [|done].
    by apply lor_digit_bound.
Qed.

(** Reading a number looks at ten bytes at most.  It gives a 64-bit
    word and stops behind the first byte without the continuation bit;
    when ten bytes have it, as at the end of a truncated file, the shift
    distance leaves the width of a word, which is undefined. *)
Theorem get_varuint_ends f :
  if forallb (continues f) (seq 0 10) then get_varuint f = Err UndefinedOp
  else exists n v, (n < 10)%nat /\ continues f n = false /\ 0 <= v < 2 ^ 64
                   /\ get_varuint f = Ok (v, drop (S n) f).
Proof.
  rewrite forallb_seq_S. unfold get_varuint. rewrite get_u1_default.
  destruct (Z.land (u1 (default 0xff (f !! O))) 0x80 =? 0) eqn:E.
  - assert (Hc : continues f 0 = false) by (unfold continues; by rewrite E).
    rewrite Hc. cbn [andb]. exists O, (u1 (default 0xff (f !! O))). pose proof (u1_byte (default 0xff (f !! O))).
    unfold byte in *. split; [lia|]. split; [done|]. split; [lia|done].
  - assert (Hc : continues f 0 = true) by (unfold continues; by rewrite E).
    rewrite Hc. cbn [andb].
    rewrite forallb_continues_drop.
    pose proof (slow_ends 9 (Z.land (u1 (default 0xff (f !! O))) 0x7f) (drop 1 f)
      ltac:(lia) (land_7f_bound _)) as Hs.
    cbv zeta in Hs. destruct (forallb _ _); [exact Hs|].
    destruct Hs as (n & v & Hn & Hcn & Hv & Hr). exists (S n), v.
    rewrite <- continues_drop. split; [lia|]. split; [done|]. split; [done|].
    by rewrite drop_drop in Hr.
Qed.

(** Every 64-bit word and every signed integer that the compiler
    writes in the variable-length code is read back by the loader, which
    stops at its end. *)
Theorem varint_roundtrip w n rest :
  0 <= w < 2 ^ 64 -> - 2 ^ 63 <= n < 2 ^ 63 ->
  get_varuint (varUIntBytes w ++ rest) = Ok (w, rest)
  /\ get_varsint (emitVarSInt n ++ rest) = Ok (n, rest).
Proof. intros. split; [by apply varuint_read|by apply varsint_read]. Qed.

(** ** String tables *)

Definition strings_for (tbl : list bytestring) (strings : list StringTabEntry) : Prop :=
  Forall2 (fun s e => ste_chars e = s /\ ste_len e = Z.of_nat (length s)) tbl strings.

Lemma index_of_some s tbl i : index_of s tbl = Some i -> tbl !! i = Some s.
Proof.
  revert i. induction tbl as [|t tbl IH]; intros i; cbn [index_of]; [done|].
  case_bool_decide; [by intros [= <-]; subst|].
  destruct (index_of s tbl) as [j|]; [|done]. intros [= <-]. by apply IH.
Qed.

Lemma addString_spec tbl s idx tbl' :
  addString tbl s = (idx, tbl') ->
  prefix tbl tbl' /\ 0 <= idx /\ tbl' !! Z.to_nat idx = Some s.
Proof.
  unfold addString. destruct (index_of s tbl) as [i|] eqn:E; intros [= <- <-];
    (split; [|split; [lia|]]); rewrite ?Nat2Z.id.
  - done.
  - by apply index_of_some.
  - by exists [s].
  - by apply list_lookup_middle.
Qed.

Lemma emit_parts_spec tbl parts out tbl' :
  emit_parts tbl parts = (out, tbl') ->
  prefix tbl tbl' /\ exists idxs, out = concat (map varUIntBytes idxs)
    /\ Forall2 (fun i p => 0 <= i /\ tbl' !! Z.to_nat i = Some p) idxs parts.
Proof.
  revert tbl out. induction parts as [|p parts IH]; intros tbl out; cbn [emit_parts].
  { intros [= <- <-]. split; [done|]. by exists []. }
  destruct (addString tbl p) as [idx tbl1] eqn:Ea. destruct (emit_parts tbl1 parts) eqn:Ee.
  intros [= <- <-]. apply addString_spec in Ea as (Hp & Hi & Hl).
  apply IH in Ee as (Hp' & idxs & -> & HF). split; [by etransitivity|].
  exists (idx :: idxs). split; [done|]. constructor; [|done].
  split; [done|]. by eapply prefix_lookup_Some.
Qed.

Lemma strings_for_lookup tbl strings i p :
  strings_for tbl strings -> tbl !! i = Some p ->
  exists e, strings !! i = Some e /\ ste_chars e = p /\ ste_len e = Z.of_nat (length p).
Proof. intros HF Hl. by eapply Forall2_lookup_l in HF. Qed.

(** What [join_parts] computes. *)
Fixpoint join (sep : list Z) (parts : list bytestring) : bytestring :=
  match parts with
  | [] => []
  | [p] => p
  | p :: parts' => p ++ sep ++ join sep parts'
  end.

Lemma join_parts_spec tbl strings sep idxs parts :
  strings_for tbl strings ->
  Forall2 (fun i p => 0 <= i /\ tbl !! Z.to_nat i = Some p) idxs parts ->
  join_parts strings sep idxs = Ok (join sep parts).
Proof.
  intros Hs. induction 1 as [|i p idxs parts [Hi Hp] HF IH]; [done|].
  destruct (strings_for_lookup _ _ _ _ Hs Hp) as (e & He & Hc & Hlen).
  cbn [join_parts]. unfold string_entry, entry_chars. rewrite He. cbn [of_option obind].
  rewrite Hc, Hlen, Z.eqb_refl. cbn [obind].
  inversion HF as [E1 E2|i' p' idxs' parts' Hh Ht E1 E2]; subst; [done|].
  rewrite IH. done.
Qed.

Lemma join_split_go s p ps : split_go s = (p, ps) -> join dot (p :: ps) = s.
Proof.
  revert p ps. induction s as [|c s IH]; intros p ps; cbn [split_go].
  { by intros [= <- <-]. }
  destruct (split_go s) as [q qs] eqn:E. specialize (IH q qs eq_refl).
  destruct (Z.eqb_spec c 46) as [->|]; intros [= <- <-].
  - change (dot ++ join dot (q :: qs) = 46 :: s). by rewrite IH.
  - rewrite <- IH. by destruct qs.
Qed.
Lemma join_split_dot s : join dot (split_dot s) = s.
Proof.
  destruct s as [|c s]; [done|]. unfold split_dot.
  destruct (split_go (c :: s)) eqn:E. by apply join_split_go.
Qed.

Lemma length_split_go s : (length (split_go s).2 <= length s)%nat.
Proof. induction s as [|c s IH]; cbn; [done|]. destruct (split_go s). case_match; cbn in *; lia. Qed.
Lemma split_dot_nonempty s : s <> [] -> (0 < length (split_dot s) <= S (length s))%nat.
Proof.
  destruct s as [|c s]; [done|]. intros _. unfold split_dot.
  pose proof (length_split_go (c :: s)). destruct (split_go (c :: s)). cbn in *. lia.
Qed.

(** A name that [strcmp] sees completely. *)
Definition name_ok (s : bytestring) : Prop :=
  s <> [] /\ Forall (fun b => 0 < b < 256) s /\ (length (split_dot s) <= 255)%nat.

Lemma c_str_id s : Forall (fun b => 0 < b < 256) s -> c_str s = s.
Proof.
  induction 1 as [|b s Hb Hs IH]; [done|]. cbn [c_str]. rewrite IH.
  by rewrite (proj2 (Z.eqb_neq b 0)) by lia.
Qed.

(** ** Reading what was written

    [reads c bytes Q]: given [bytes] and anything behind them, the
    computation [c] consumes exactly [bytes] and changes the state as [Q]
    says, unless the memory manager gives up. *)
Section reads.
Context {H : Type} `{HeapOps H}.
Context (new_at : nat -> Z).

Abbreviation LS := (LoaderState (H := H)).

Definition heap_fails (e : fault) : Prop :=
  (exists h n, h_allocString h n = Err e) \/ (exists h n, h_allocInfoTable h n = Err e)
  \/ (exists h, h_beginAllocInfoTable h = Err e) \/ (exists h, h_endAllocInfoTable h = Err e).

Definition reads {A} (c : LM (H := H) A) (bytes : list Z) (Q : LS -> A -> LS -> Prop) : Prop :=
  forall rest s,
    (exists e, heap_fails e /\ c (bytes ++ rest) s = Err e)
    \/ exists a s', c (bytes ++ rest) s = Ok (a, rest, s') /\ Q s a s'.

(** Only the memory manager has changed. *)
Definition only_mm (s s' : LS) : Prop := exists h, s' = with_mm s h.
(** No name of the loader has changed. *)
Definition same_names (s s' : LS) : Prop :=
  basepaths_ s' = basepaths_ s /\ loadedModules_ s' = loadedModules_ s
  /\ infoTables_ s' = infoTables_ s /\ closures_ s' = closures_ s.

Lemma only_mm_refl s : only_mm s s.
Proof. exists (mm_ s). by destruct s. Qed.
Lemma only_mm_trans s1 s2 s3 : only_mm s1 s2 -> only_mm s2 s3 -> only_mm s1 s3.
Proof. intros [h ->] [h' ->]. by exists h'. Qed.
Lemma only_mm_names s s' : only_mm s s' -> same_names s s'.
Proof. by intros [h ->]. Qed.
Lemma same_names_refl s : same_names s s.
Proof. done. Qed.
Lemma same_names_trans s1 s2 s3 : same_names s1 s2 -> same_names s2 s3 -> same_names s1 s3.
Proof. unfold same_names. intros (-> & -> & -> & ->). done. Qed.

Lemma reads_ret {A} (a : A) (Q : LS -> A -> LS -> Prop) :
  (forall s, Q s a s) -> reads (lret a) [] Q.
Proof. intros HQ rest s. right. by exists a, s. Qed.

Lemma reads_bind {A B} (c : LM A) (k : A -> LM B) b1 b2 Q1 Q2 (Q : LS -> B -> LS -> Prop) :
  reads c b1 Q1 ->
  (forall a, (exists s s', Q1 s a s') -> reads (k a) b2 (Q2 a)) ->
  (forall s a s' b s'', Q1 s a s' -> Q2 a s' b s'' -> Q s b s'') ->
  reads (lbind c k) (b1 ++ b2) Q.
Proof.
  intros Hc Hk HQ rest s. unfold lbind. rewrite <- app_assoc.
  destruct (Hc (b2 ++ rest) s) as [(e & He & ->)|(a & s' & -> & H1)]; cbn [obind].
  { left. by exists e. }
  destruct (Hk a ltac:(eauto) rest s') as [Herr|(b & s'' & -> & H2)]; [by left|].
  right. exists b, s''. eauto.
Qed.

(** A reader that gives one value and leaves the state alone. *)
Definition gives {A} (v : A) (s : LS) (a : A) (s' : LS) : Prop := a = v /\ s' = s.

Lemma reads_lread {A} (r : list Z -> A * list Z) bytes v :
  (forall rest, r (bytes ++ rest) = (v, rest)) -> reads (lread r) bytes (gives v).
Proof. intros Hr rest s. right. exists v, s. unfold lread. by rewrite Hr. Qed.

Lemma reads_lread_ok {A} (r : list Z -> outcome (A * list Z)) bytes v :
  (forall rest, r (bytes ++ rest) = Ok (v, rest)) -> reads (lread_ok r) bytes (gives v).
Proof. intros Hr rest s. right. exists v, s. unfold lread_ok. by rewrite Hr. Qed.

Lemma reads_varuint w : 0 <= w < 2 ^ 64 -> reads (lread_ok get_varuint) (varUIntBytes w) (gives w).
Proof. intros. apply reads_lread_ok. intros. by apply varuint_read. Qed.

(** Reading a number, a half word or a word first. *)
Lemma reads_then {A B} (c : LM A) (k : A -> LM B) v b1 b2 Q :
  reads c b1 (gives v) -> reads (k v) b2 Q -> reads (lbind c k) (b1 ++ b2) Q.
Proof.
  intros Hc Hk. eapply reads_bind; [exact Hc| |].
  - intros a (s & s' & -> & ->). exact Hk.
  - by intros s a s' b s'' [-> ->].
Qed.

(** A loop over things written one after the other. *)
Lemma reads_lfor {X A} (enc : X -> list Z) (body : Z -> LM A) (R : X -> A -> Prop)
    (I : LS -> LS -> Prop) xs i0 :
  (forall s, I s s) -> (forall s1 s2 s3, I s1 s2 -> I s2 s3 -> I s1 s3) ->
  (forall j x, xs !! j = Some x ->
     reads (body (i0 + Z.of_nat j)) (enc x) (fun s a s' => R x a /\ I s s')) ->
  reads (lfor (length xs) i0 body) (concat (map enc xs))
    (fun s l s' => Forall2 R xs l /\ I s s').
Proof.
  intros Hrefl Htrans. revert i0. induction xs as [|x xs IH]; intros i0 Hb; cbn [length lfor map].
  { apply reads_ret. intros s. split; [constructor|done]. }
  rewrite concat_cons. eapply reads_bind.
  - specialize (Hb O x eq_refl). rewrite Z.add_0_r in Hb. exact Hb.
  - intros a _. rewrite <- (app_nil_r (concat _)).
    apply (reads_bind _ _ _ _ (fun s l s' => Forall2 R xs l /\ I s s')
             (fun l s r s' => r = a :: l /\ s' = s)
             (fun s r s' => exists l, r = a :: l /\ Forall2 R xs l /\ I s s')).
    + apply IH. intros j y Hj. specialize (Hb (S j) y Hj).
      replace (i0 + 1 + Z.of_nat j) with (i0 + Z.of_nat (S j)) by lia. exact Hb.
    + intros l _. by apply reads_ret.
    + intros s l s' r s'' [HF HI] [-> ->]. by exists l.
  - intros s a s' r s'' [Hx HI] (l & -> & HF & HI'). split; [by constructor|by eapply Htrans].
Qed.

(** ** Identifiers *)

Lemma reads_allocString n :
  reads (lheap (fun h => h_allocString h n)) [] (fun s _ s' => only_mm s s').
Proof.
  intros rest s. unfold lheap. destruct (h_allocString (mm_ s) n) as [[h a]|e] eqn:E; cbn [obind].
  - right. exists a, (with_mm s h). split; [done|by exists h].
  - left. exists e. split; [left; by exists (mm_ s), n|done].
Qed.

Lemma reads_lift {A} (o : outcome A) v : o = Ok v -> reads (lift o) [] (gives v).
Proof. intros -> rest s. right. by exists v, s. Qed.

Lemma reads_read_part strings i idx :
  0 <= idx < 2 ^ 32 -> i < 255 -> is_Some (strings !! Z.to_nat idx) ->
  reads (read_part strings i) (varUIntBytes idx) (fun s a s' => a.1 = idx /\ only_mm s s').
Proof.
  intros Hidx Hi [e He]. unfold read_part. rewrite <- (app_nil_r (varUIntBytes idx)).
  eapply reads_then; [apply reads_varuint; lia|].
  unfold u4 at 1. rewrite to_u_id by lia. change ([] : list Z) with ([] ++ [] : list Z).
  eapply reads_then.
  - apply reads_lift. unfold string_entry. by rewrite He.
  - unfold MAX_PARTS. rewrite (proj2 (Z.leb_gt 255 i)) by lia.
    apply reads_ret. intros s. unfold u4. rewrite to_u_id by lia. split; [done|apply only_mm_refl].
Qed.

Lemma reads_loadId tbl name out tbl' T strings :
  name_ok name -> emitIdString tbl name = (out, tbl') ->
  prefix tbl' T -> strings_for T strings -> Z.of_nat (length T) < 2 ^ 32 ->
  reads (loadId strings dot) out
    (fun s a s' => a = string_of_bytes name /\ only_mm s s').
Proof.
  intros (Hne & Hchars & Hparts) Hemit HT Hstr HlenT.
  unfold emitIdString, emitIdParts in Hemit. destruct (emit_parts tbl _) as [o t] eqn:Ep.
  injection Hemit as <- <-. apply emit_parts_spec in Ep as (_ & idxs & -> & HF).
  pose proof (split_dot_nonempty name Hne) as Hn.
  assert (HFT : Forall2 (fun i p => 0 <= i /\ T !! Z.to_nat i = Some p) idxs (split_dot name)).
  { eapply Forall2_impl; [exact HF|]. cbn. intros i p [Hi Hl]. split; [done|].
    by eapply prefix_lookup_Some. }
  pose proof (Forall2_length _ _ _ HF) as Hlen.
  unfold loadId. eapply reads_then; [apply reads_varuint; lia|].
  unfold u4. rewrite to_u_id by lia. rewrite (proj2 (Z.ltb_lt 0 _)) by lia.
  rewrite Nat2Z.id, <- Hlen, <- (app_nil_r (concat _)).
  eapply reads_bind.
  - apply (reads_lfor varUIntBytes _ (fun i a => a.1 = i) only_mm);
      [apply only_mm_refl|apply only_mm_trans|].
    intros j idx Hj. destruct (Forall2_lookup_l _ _ _ _ _ HFT Hj) as (p & _ & Hi & Hp).
    pose proof (lookup_lt_Some _ _ _ Hp). pose proof (lookup_lt_Some _ _ _ Hj).
    apply reads_read_part; [lia|lia|].
    destruct (strings_for_lookup _ _ _ _ Hstr Hp) as (e & He & _). by exists e.
  - intros parts (s & s' & HR & _).
    assert (Hfst : map fst parts = idxs).
    { clear -HR. induction HR as [|i a l l' E HR IH]; [done|]. cbn. by rewrite IH, E. }
    change ([] : list Z) with ([] ++ [] : list Z).
    eapply (reads_bind _ _ _ _ _ (fun _ s a s' => a = string_of_bytes name /\ s' = s)
      (fun s a s' => a = string_of_bytes name /\ only_mm s s')).
    + apply reads_allocString.
    + intros addr _. change ([] : list Z) with ([] ++ [] : list Z). eapply reads_then.
      * apply reads_lift. rewrite Hfst. by apply (join_parts_spec T).
      * apply reads_ret. intros s1. by rewrite join_split_dot, c_str_id.
    + by intros s1 a s2 b s3 Hmm [-> ->].
  - intros s a s' b s'' [_ H1] [-> H2]. split; [done|by eapply only_mm_trans].
Qed.

(** ** Headers *)

Lemma map_u1_id l : Forall byte l -> map u1 l = l.
Proof.
  induction 1 as [|b l Hb Hl IH]; [done|]. cbn [map]. rewrite IH. unfold u1.
  by rewrite to_u_id by (unfold byte in Hb; lia).
Qed.

Definition string_ok (s : bytestring) : Prop :=
  Forall byte s /\ Z.of_nat (length s) < 2 ^ 32.

Definition entry_of (str : bytestring) (e : StringTabEntry) : Prop :=
  ste_chars e = str /\ ste_len e = Z.of_nat (length str).

Lemma reads_loadStringTabEntry str :
  string_ok str ->
  reads (loadStringTabEntry new_at) (encOne str)
    (fun s e s' => entry_of str e /\ same_names s s').
Proof.
  intros [Hb Hl]. unfold loadStringTabEntry, encOne.
  eapply reads_then; [apply reads_varuint; lia|].
  intros rest s. right. unfold lbind, get_string. rewrite length_app.
  rewrite Z.min_l, Nat2Z.id, Z.eqb_refl, take_app_length, drop_app_length by lia.
  unfold u8. rewrite to_u_id by lia. rewrite (proj2 (Z.eqb_neq _ 0)) by lia.
  cbn. rewrite map_u1_id by done. do 2 eexists. split; [reflexivity|]. done.
Qed.

Lemma emitIdString_prefix tbl str out tbl' :
  emitIdString tbl str = (out, tbl') -> prefix tbl tbl'.
Proof.
  unfold emitIdString, emitIdParts. destruct (emit_parts tbl _) as [o t] eqn:E.
  intros [= <- <-]. by apply emit_parts_spec in E as [? _].
Qed.

Lemma emit_imports_spec tbl imports out tbl' :
  emit_imports tbl imports = (out, tbl') ->
  prefix tbl tbl' /\ exists xs : list (bytestring * list Z),
    map fst xs = imports /\ out = concat (map snd xs)
    /\ Forall (fun x => exists t t', emitIdString t x.1 = (x.2, t') /\ prefix t' tbl') xs.
Proof.
  revert tbl out. induction imports as [|i imports IH]; intros tbl out; cbn [emit_imports].
  { intros [= <- <-]. split; [done|]. by exists []. }
  destruct (emitIdString tbl i) as [o t] eqn:Ei. destruct (emit_imports t imports) eqn:Ee.
  intros [= <- <-]. pose proof (emitIdString_prefix _ _ _ _ Ei).
  apply IH in Ee as (Hp & xs & <- & -> & HF). split; [by etransitivity|].
  exists ((i, o) :: xs). split_and!; [done..|]. constructor; [by exists tbl, t|done].
Qed.

Lemma reads_lfor_ids strings T (xs : list (bytestring * list Z)) :
  strings_for T strings -> Z.of_nat (length T) < 2 ^ 32 -> Forall name_ok (map fst xs) ->
  Forall (fun x => exists t t', emitIdString t x.1 = (x.2, t') /\ prefix t' T) xs ->
  reads (lfor (length xs) 0 (fun _ => loadId strings dot)) (concat (map snd xs))
    (fun s l s' => Forall2 (fun x a => a = string_of_bytes x.1) xs l /\ only_mm s s').
Proof.
  intros Hs HT Hn HF. apply reads_lfor; [apply only_mm_refl|apply only_mm_trans|].
  intros j x Hj. rewrite Forall_lookup in HF. destruct (HF _ _ Hj) as (t & t' & He & Hp).
  rewrite Forall_lookup in Hn. specialize (Hn j x.1). rewrite list_lookup_fmap, Hj in Hn.
  by eapply reads_loadId; [by apply Hn|..].
Qed.

(** What a module record says. *)
Definition module_says (tbl : list bytestring) (name : bytestring) (imports : list bytestring)
    (ni nc : Z) (mdl : Module_) : Prop :=
  name_ mdl = string_of_bytes name /\ imports_ mdl = map string_of_bytes imports
  /\ numInfoTables_ mdl = ni /\ numClosures_ mdl = nc
  /\ numStrings_ mdl = Z.of_nat (length tbl)
  /\ numImports_ mdl = Z.of_nat (length imports) /\ strings_for tbl (strings_ mdl).

(** The part of a header behind its fixed fields. *)
Lemma reads_header_tail {A} tbl name imports info tbl0 (k : _ -> _ -> _ -> LM A) (Q : LS -> A -> LS -> Prop) :
  name_ok name -> Forall name_ok imports -> modinfo name imports = (info, tbl0) ->
  prefix tbl0 tbl -> Forall string_ok tbl -> Z.of_nat (length tbl) < 2 ^ 32 ->
  (forall strings, strings_for tbl strings ->
     reads (k strings (string_of_bytes name) (map string_of_bytes imports)) [] 
       (fun s a s' => s' = s /\ forall s0, same_names s0 s -> Q s0 a s)) ->
  reads (lbind (lfor (length tbl) 0 (fun _ => loadStringTabEntry new_at)) (fun strings =>
         lbind (loadId strings dot) (fun name =>
         lbind (lfor (length imports) 0 (fun _ => loadId strings dot)) (fun imports =>
         k strings name imports))))
    (encodeStringTable tbl ++ info) Q.
Proof.
  intros Hn Hi Hinfo Hp Hok HT Hk. unfold modinfo in Hinfo.
  destruct (emitIdString [] name) as [o1 t1] eqn:E1.
  destruct (emit_imports t1 imports) as [o2 t2] eqn:E2. injection Hinfo as <- <-.
  apply emit_imports_spec in E2 as (Hp12 & xs & <- & -> & HF).
  eapply (reads_bind _ _ _ _ _ (fun _ s a s' => forall s0, same_names s0 s -> Q s0 a s')).
  - apply (reads_lfor encOne _ entry_of same_names);
      [apply same_names_refl|apply same_names_trans|].
    intros j x Hj. apply reads_loadStringTabEntry. by eapply Forall_lookup_1 in Hok.
  - intros strings (s & s' & Hs & _).
    assert (Hstr : strings_for tbl strings) by exact Hs.
    eapply (reads_bind _ _ _ _ _
      (fun _ s a s' => forall s0, same_names s0 s -> Q s0 a s') (fun s a s' =>
         forall s0, same_names s0 s -> Q s0 a s')).
    + eapply reads_loadId; [exact Hn|exact E1|by etransitivity|done..].
    + intros nm (sa & sb & -> & _). rewrite length_map, <- (app_nil_r (concat _)).
      eapply (reads_bind _ _ _ _ _
        (fun _ s a s' => s' = s /\ forall s0, same_names s0 s -> Q s0 a s)).
      * apply (reads_lfor_ids strings tbl); [done..|].
        eapply Forall_impl; [exact HF|]. intros x (t & t' & He & Hpt).
        exists t, t'. split; [done|by etransitivity].
      * intros l (sc & sd & HR & _).
        assert (El : l = map string_of_bytes (map fst xs)).
        { clear -HR. induction HR as [|x a l l' -> HR IH]; [done|]. cbn. by rewrite IH. }
        rewrite El. by apply Hk.
      * intros s1 a s2 b s3 [_ H1] [-> H2] s0 Hs0. apply H2.
        eapply same_names_trans; [exact Hs0|by apply only_mm_names].
    + intros s1 a s2 b s3 [_ H1] H2 s0 Hs0. apply H2.
      eapply same_names_trans; [exact Hs0|by apply only_mm_names].
  - intros s1 a s2 b s3 [_ H1] H2. by apply H2.
Qed.

Lemma reads_u2 w : 0 <= w < 2 ^ 16 -> reads (lread get_u2) (writeWord16be w) (gives w).
Proof. intros. apply reads_lread. intros. by apply get_u2_write. Qed.
Lemma reads_u4 w : 0 <= w < 2 ^ 32 -> reads (lread get_u4) (writeWord32be w) (gives w).
Proof. intros. apply reads_lread. intros. by apply get_u4_write. Qed.
Lemma reads_magic l :
  forallb (is_u 8) l = true -> reads (lread (magic l)) l (gives true).
Proof.
  intros Hl. apply reads_lread. intros. apply magic_app.
  apply Forall_forall. intros b Hb%list_elem_of_In. rewrite forallb_forall in Hl.
  specialize (Hl b Hb). unfold is_u, byte in *. lia.
Qed.

(** C22: The header the compiler writes for a module, followed by its name
    and imports, is read back: version and section mark are accepted, the
    string table has all strings at their numbers, name, imports and
    counts are those of the module, the file stands behind the imports and
    no name of the loader has changed.  The string table may hold more
    strings than the names need. *)
Theorem header_roundtrip tbl name imports info tbl0 ni nc :
  name_ok name -> Forall name_ok imports -> modinfo name imports = (info, tbl0) ->
  prefix tbl0 tbl -> Forall string_ok tbl -> Z.of_nat (length tbl) < 2 ^ 32 ->
  Z.of_nat (length imports) < 2 ^ 32 -> 0 <= ni < 2 ^ 32 -> 0 <= nc < 2 ^ 32 ->
  reads (loadModuleHeader new_at)
    (header tbl ni nc (Z.of_nat (length imports)) ++ info)
    (fun s m s' => exists mdl, m = Some mdl /\ module_says tbl name imports ni nc mdl
                               /\ same_names s s').
Proof.
  intros Hn Hi Hinfo Hp Hok HT HI Hni Hnc. unfold loadModuleHeader, header.
  rewrite <- !app_assoc.
  eapply reads_then; [by apply reads_magic|]. cbn [negb].
  eapply reads_then; [apply reads_u2; lia|]. eapply reads_then; [apply reads_u2; lia|].
  change (negb (0 =? VERSION_MAJOR) || negb (1 =? VERSION_MINOR)) with false. cbn match.
  do 5 (eapply reads_then; [apply reads_u4; lia|]).
  change [66; 67; 83; 84] with (writeWord32be STR_SEC_HDR_MAGIC).
  eapply reads_then; [apply reads_u4; vm_compute; done|]. rewrite Z.eqb_refl.
  rewrite !Nat2Z.id.
  eapply (reads_header_tail _ _ _ _ _ (fun strings name imports => lret (Some _))); try done.
  intros strings Hs. apply reads_ret. intros s. split; [done|]. intros s0 Hs0.
  eexists. by split_and!.
Qed.

(** ** Fields *)

(** What a field means, for a loader whose string table is [strings] for
    the compiler's table [T]; references go through the tables of names. *)
Definition field_effect (T : list bytestring) (strings : list StringTabEntry) (x : Field)
    (a : Z) (s : LS) : outcome (unit * LS) :=
  match x with
  | CInt n => Ok (tt, with_mem s (store (mem_ s) a (u8 n)))
  | CStr str =>
      let! i := of_option WildAccess (index_of str T) in
      let! e := of_option WildAccess (strings !! i) in
      Ok (tt, with_mem s (store (mem_ s) a (ste_str e)))
  | CChar c => Ok (tt, with_mem s (store (mem_ s) a c))
  | CWord n => Ok (tt, with_mem s (store (mem_ s) a n))
  | CFloat w => Ok (tt, with_mem s (store (mem_ s) a w))
  | InfoId name => loadInfoTableReference new_at (string_of_bytes name) a s
  | ClosureId name => loadClosureReference new_at (string_of_bytes name) a s
  end.
Definition field_type (x : Field) : LitType :=
  match x with
  | CInt _ => LIT_INT | CStr _ => LIT_STRING | CChar _ => LIT_CHAR | CWord _ => LIT_WORD
  | CFloat _ => LIT_FLOAT | InfoId _ => LIT_INFO | ClosureId _ => LIT_CLOSURE
  end.
Definition field_ok (x : Field) : Prop :=
  match x with
  | CInt n => - 2 ^ 63 <= n < 2 ^ 63
  | CStr _ => True
  | CChar c => 0 <= c < 2 ^ 64
  | CWord n => 0 <= n < 2 ^ 64
  | CFloat w => 0 <= w < 2 ^ 32
  | InfoId name | ClosureId name => name_ok name
  end.

Lemma index_of_app str T T' i : index_of str T = Some i -> index_of str (T ++ T') = Some i.
Proof.
  revert i. induction T as [|t T IH]; intros i; cbn [index_of app]; [done|].
  case_bool_decide; [done|]. destruct (index_of str T) as [j|]; [|done].
  by rewrite (IH j eq_refl).
Qed.
Lemma index_of_last str T : index_of str T = None -> index_of str (T ++ [str]) = Some (length T).
Proof.
  induction T as [|t T IH]; cbn [index_of app]; [by rewrite bool_decide_true|].
  case_bool_decide; [done|]. destruct (index_of str T); [done|]. intros _. by rewrite IH.
Qed.
Lemma addString_index tbl str idx tbl' T :
  addString tbl str = (idx, tbl') -> prefix tbl' T -> index_of str T = Some (Z.to_nat idx).
Proof.
  intros Ha [T' ->]. apply index_of_app. unfold addString in Ha.
  destruct (index_of str tbl) as [i|] eqn:E; injection Ha as <- <-; rewrite Nat2Z.id; [done|].
  by apply index_of_last.
Qed.

(** The byte of the literal type. *)
Lemma read_littype t rest :
  get_u1 (varUIntBytes (littype t) ++ rest) = (littype t, rest) /\ lit_type (littype t) = Some t.
Proof. by destruct t. Qed.

(** A computation that reads [bytes] and then acts like [g] on the state,
    up to allocations of the memory manager in between. *)
Definition acts {A} (c : LM A) (bytes : list Z) (g : LS -> outcome (A * LS)) : Prop :=
  forall rest s,
    (exists e, heap_fails e /\ c (bytes ++ rest) s = Err e)
    \/ exists s1, only_mm s s1
       /\ c (bytes ++ rest) s = let! '(a, s2) := g s1 in Ok (a, rest, s2).

Lemma acts_lstate {A B} (c : LM A) bytes v (k : A -> LS -> outcome (B * LS)) :
  reads c bytes (fun s a s' => a = v /\ only_mm s s') ->
  acts (lbind c (fun a => lstate (k a))) bytes (k v).
Proof.
  intros Hc rest s. unfold lbind.
  destruct (Hc rest s) as [(e & He & ->)|(a & s' & -> & -> & Hmm)]; [left; by exists e|right].
  exists s'. split; [done|]. cbn [obind]. unfold lstate. by destruct (k v s') as [[? ?]|].
Qed.

Lemma acts_lmem {A} (c : LM A) bytes v (g : A -> memory -> memory) :
  reads c bytes (gives v) ->
  acts (lbind c (fun a => lmem (g a))) bytes (fun s => Ok (tt, with_mem s (g v (mem_ s)))).
Proof.
  intros Hc rest s. unfold lbind.
  destruct (Hc rest s) as [(e & He & ->)|(a & s' & -> & -> & ->)]; [left; by exists e|right].
  exists s. split; [apply only_mm_refl|done].
Qed.

Lemma acts_string T strings str idx a :
  strings_for T strings -> 0 <= idx < 2 ^ 32 -> index_of str T = Some (Z.to_nat idx) ->
  acts (lbind (lread_ok get_varuint) (fun v =>
        lbind (lift (string_entry strings (u4 v))) (fun e =>
        lmem (fun m => store m a (ste_str e)))))
    (varUIntBytes idx) (field_effect T strings (CStr str) a).
Proof.
  intros Hs Hi Hidx rest s. right. exists s. split; [apply only_mm_refl|].
  unfold lbind, lread_ok. rewrite varuint_read by lia. cbn [obind].
  unfold u4. rewrite to_u_id by lia. cbn [field_effect]. rewrite Hidx. cbn [of_option obind].
  unfold lift, string_entry. by destruct (strings !! Z.to_nat idx).
Qed.

Lemma acts_literal strings a t bytes g :
  acts (loadLiteral_switch new_at strings a (Some t)) bytes g ->
  acts (loadLiteral new_at strings a) (varUIntBytes (littype t) ++ bytes)
    (fun s => let! '(_, s') := g s in Ok (littype t, s')).
Proof.
  intros Hc rest s.
  assert (E : loadLiteral new_at strings a ((varUIntBytes (littype t) ++ bytes) ++ rest) s
              = let! '(_, f, s) := loadLiteral_switch new_at strings a (Some t) (bytes ++ rest) s in
                Ok (littype t, f, s)).
  { unfold loadLiteral, lbind, lread. rewrite <- app_assoc, (proj1 (read_littype t _)).
    cbn [obind]. by rewrite (proj2 (read_littype t [])). }
  rewrite E.
  destruct (Hc rest s) as [(e & He & Hr)|(s1 & Hmm & Hr)]; rewrite Hr; [left; by exists e|right].
  exists s1. split; [done|]. by destruct (g s1) as [[? ?]|].
Qed.

(** C24: Every kind of literal that the compiler emits, the loader reads with
    its type, exactly to its end, and with the meaning intended: numbers
    and characters are stored, a string becomes the address of its table
    entry, an identifier becomes a reference through the table of info
    tables or closures under its full name. *)
Theorem field_roundtrip tbl x out tbl' T strings a :
  field_ok x -> emitField tbl x = (out, tbl') -> prefix tbl' T ->
  strings_for T strings -> Z.of_nat (length T) < 2 ^ 32 ->
  acts (loadLiteral new_at strings a) out
    (fun s => let! '(_, s') := field_effect T strings x a s in
              Ok (littype (field_type x), s')).
Proof.
  intros Hok He HT Hs HlT.
  set (g := field_effect T strings x a).
  assert (Hlit : forall bytes, out = varUIntBytes (littype (field_type x)) ++ bytes ->
    acts (loadLiteral_switch new_at strings a (Some (field_type x))) bytes g ->
    acts (loadLiteral new_at strings a) out
      (fun s => let! '(_, s') := g s in Ok (littype (field_type x), s'))).
  { intros bytes ->. apply acts_literal. }
  subst g. destruct x as [n|str|c|n|w|name|name]; cbn [emitField field_ok field_type] in *.
  - injection He as <- <-. eapply Hlit; [done|]. apply (acts_lmem _ _ n), reads_lread_ok.
    intros. by apply varsint_read.
  - destruct (addString tbl str) as [sid t] eqn:Ea. injection He as <- <-.
    pose proof (addString_spec _ _ _ _ Ea) as (_ & Hsid & _).
    pose proof (addString_index _ _ _ _ _ Ea HT) as Hidx.
    eapply Hlit; [done|]. apply acts_string; [done| |done].
    apply index_of_some, lookup_lt_Some in Hidx. lia.
  - injection He as <- <-. eapply Hlit; [done|]. by apply (acts_lmem _ _ c), reads_varuint.
  - injection He as <- <-. eapply Hlit; [done|]. by apply (acts_lmem _ _ n), reads_varuint.
  - injection He as <- <-. eapply Hlit; [done|]. by apply (acts_lmem _ _ w), reads_u4.
  - destruct (emitIdString tbl name) as [o t] eqn:Ee. injection He as <- <-.
    eapply Hlit; [done|]. apply (acts_lstate _ _ _ (fun n => loadInfoTableReference new_at n a)).
    by eapply reads_loadId.
  - destruct (emitIdString tbl name) as [o t] eqn:Ee. injection He as <- <-.
    eapply Hlit; [done|]. apply (acts_lstate _ _ _ (fun n => loadClosureReference new_at n a)).
    by eapply reads_loadId.
Qed.

(** ** Constructor info tables *)

Fixpoint bits_value (bits : list bool) : Z :=
  match bits with
  | [] => 0
  | b :: bits' => Z.b2z b + 2 * bits_value bits'
  end.

Lemma bits_value_spec bits :
  0 <= bits_value bits < 2 ^ Z.of_nat (length bits)
  /\ forall i b, bits !! i = Some b -> Z.testbit (bits_value bits) (Z.of_nat i) = b.
Proof.
  induction bits as [|b bits [Hb IH]]; cbn [bits_value length].
  { split; [lia|]. by intros i b. }
  rewrite Nat2Z.inj_succ, Z.pow_succ_r by lia. split; [destruct b; cbn; lia|].
  intros [|i] c Hc; cbn in Hc.
  - injection Hc as <-. change (Z.of_nat 0) with 0. rewrite Z.add_comm.
    by rewrite Z.testbit_0_r.
  - rewrite Nat2Z.inj_succ, Z.add_comm, Z.testbit_succ_r by lia. by apply IH.
Qed.

(** The loop has [j] bits in [acc]. *)
Lemma bitsToWord32s_go_spec bits acc j :
  0 <= j -> j + Z.of_nat (length bits) <= 32 -> 0 <= acc < 2 ^ j ->
  (j = 0 -> bits <> []) ->
  bitsToWord32s_go acc (u4 (2 ^ j)) bits = [acc + bits_value bits * 2 ^ j].
Proof.
  revert acc j. induction bits as [|b bits IH]; intros acc j Hj Hl Ha Hne;
    cbn [bitsToWord32s_go length bits_value] in *.
  - assert (Hj0 : j <> 0) by (intros ->; by apply Hne).
    assert (Hm : u4 (2 ^ j) <> 1).
    { unfold u4, to_u. destruct (Z.eq_dec j 32) as [->|]; [done|].
      rewrite Z.mod_small by (split; [lia|apply Z.pow_lt_mono_r; lia]).
      intros E. assert (2 ^ 1 <= 2 ^ j) by (apply Z.pow_le_mono_r; lia). lia. }
    rewrite (proj2 (Z.eqb_neq _ 1)) by done. f_equal. lia.
  - assert (Hp : 0 < 2 ^ j < 2 ^ 32) by (split; [lia|apply Z.pow_lt_mono_r; lia]).
    assert (Hu : u4 (2 ^ j) = 2 ^ j) by (unfold u4; apply to_u_id; lia).
    rewrite Hu, (proj2 (Z.eqb_neq _ 0)) by lia.
    rewrite Z.shiftl_mul_pow2 by lia. replace (2 ^ j * 2 ^ 1) with (2 ^ (j + 1))
      by (rewrite Z.pow_add_r by lia; lia).
    assert (Hacc : (if b then Z.lor acc (2 ^ j) else acc) = acc + Z.b2z b * 2 ^ j).
    { destruct b; cbn [Z.b2z]; [|lia].
      rewrite <- (shiftl_lor_add acc 1 j), Z.shiftl_1_l by lia. done. }
    assert (Hj1 : 2 ^ (j + 1) = 2 * 2 ^ j) by (rewrite Z.pow_add_r by lia; lia).
    rewrite Hacc, IH; [f_equal; lia|lia|lia|destruct b; cbn [Z.b2z]; lia|lia].
Qed.

Lemma bitsToWord32s_spec bits :
  (length bits <= 32)%nat ->
  bitsToWord32s bits = if (0 <? length bits)%nat then [bits_value bits] else [].
Proof.
  intros Hl. destruct bits as [|b bits]; [done|]. unfold bitsToWord32s.
  change 1 with (u4 (2 ^ 0)) at 1. rewrite bitsToWord32s_go_spec; [|lia|cbn in *; lia|lia|done].
  cbn [length Nat.ltb Nat.leb]. f_equal. lia.
Qed.

Lemma reads_layout tys :
  (length tys <= 32)%nat ->
  reads read_layout (emitPointerMask tys)
    (gives (Z.of_nat (length tys), bits_value tys)).
Proof.
  intros Hl. unfold read_layout, emitPointerMask.
  pose proof (bits_value_spec tys) as [Hb _].
  assert (Hb32 : bits_value tys < 2 ^ 32).
  { eapply Z.lt_le_trans; [apply Hb|]. apply Z.pow_le_mono_r; lia. }
  eapply reads_then; [apply reads_varuint; lia|].
  rewrite (proj2 (Z.leb_le _ 32)), bitsToWord32s_spec by lia.
  assert (Hu : u1 (Z.of_nat (length tys)) = Z.of_nat (length tys)) by (unfold u1; apply to_u_id; lia).
  destruct tys as [|b tys].
  - eapply (reads_then _ _ 0 [] []); by apply reads_ret.
  - rewrite (proj2 (Z.ltb_lt 0 _)) by (cbn; lia). cbn [Nat.ltb Nat.leb map concat length] in *.
    eapply reads_then; [apply reads_u4; lia|]. rewrite Hu. by apply reads_ret.
Qed.

Lemma reads_lheap {A} (g : H -> outcome (H * A)) :
  (forall h e, g h = Err e -> heap_fails e) -> reads (lheap g) [] (fun s _ s' => only_mm s s').
Proof.
  intros Hg rest s. unfold lheap. destruct (g (mm_ s)) as [[h a]|e] eqn:E; cbn [obind].
  - right. exists a, (with_mm s h). split; [done|by exists h].
  - left. exists e. split; [by eapply Hg|done].
Qed.

(** The info table the compiler writes for a data constructor is loaded
    as an info table of that constructor with its tag, its name, its number
    of fields and a bitmap whose bit [i] says whether field [i] is a
    pointer; nothing but that info table is written. *)
Theorem conInfo_roundtrip tbl name tag tys out tbl' T strings :
  name_ok name -> 0 <= tag < 2 ^ 16 -> (length tys <= 32)%nat ->
  emitIdString tbl name = (out, tbl') -> prefix tbl' T ->
  strings_for T strings -> Z.of_nat (length T) < 2 ^ 32 ->
  reads (load_ConInfoTable strings) (varUIntBytes tag ++ emitPointerMask tys ++ out)
    (fun s info s' => exists h bitmap,
       (forall i b, tys !! i = Some b -> Z.testbit bitmap (Z.of_nat i) = b)
       /\ s' = with_mem (with_mm s h) (store_itbl (mem_ s) info
            (mkInfoTable CONSTR (Z.of_nat (length tys)) tag bitmap (string_of_bytes name) None))).
Proof.
  intros Hn Htag Hl Hemit HT Hs HlT. unfold load_ConInfoTable, beginAlloc, endAlloc.
  set (itbl := mkInfoTable CONSTR (Z.of_nat (length tys)) tag (bits_value tys)
                 (string_of_bytes name) None).
  set (Q := fun (s : LS) info s' =>
              exists h, s' = with_mem (with_mm s h) (store_itbl (mem_ s) info itbl)).
  assert (HQ : forall s1 s2 a s3, only_mm s1 s2 -> Q s2 a s3 -> Q s1 a s3).
  { intros s1 s2 a s3 [h ->] [h' ->]. by exists h'. }
  cut (reads (load_ConInfoTable strings) (varUIntBytes tag ++ emitPointerMask tys ++ out) Q).
  { intros Hr rest s. destruct (Hr rest s) as [He|(a & s' & He & h & ->)]; [by left|right].
    exists a. eexists. split; [exact He|]. exists h, (bits_value tys).
    split; [apply bits_value_spec|done]. }
  unfold load_ConInfoTable, beginAlloc, endAlloc.
  rewrite <- (app_nil_l (varUIntBytes tag ++ _)).
  eapply (reads_bind _ _ _ _ (fun s _ s' => only_mm s s') (fun _ => Q)); [|intros _ _|intros; by eapply HQ].
  { apply reads_lheap. intros h e Hf. unfold heap_fails. destruct (h_beginAllocInfoTable h) eqn:E; [done|]. injection Hf as ->. eauto 10. }
  rewrite <- (app_nil_l (varUIntBytes tag ++ _)).
  eapply (reads_bind _ _ _ _ (fun s _ s' => only_mm s s') (fun info s a s' => a = info /\ Q s info s'));
    [|intros info _|intros s1 a s2 b s3 H1 [-> H2]; by eapply HQ].
  { apply reads_lheap. intros h e Hf. unfold heap_fails. eauto 10. }
  eapply reads_then; [apply reads_varuint; lia|].
  eapply reads_then; [by apply reads_layout|]. rewrite <- (app_nil_r out).
  eapply (reads_bind _ _ _ _ _ (fun _ s a s' => a = info /\ Q s info s'));
    [by eapply reads_loadId| |intros s1 a s2 b s3 [_ H1] [-> H2]; split; [done|by eapply HQ]].
  intros nm (s1 & s2 & -> & _) rest s.
  unfold lbind at 1, lmem. cbn [obind]. unfold lbind, lheap. cbn.
  destruct (h_endAllocInfoTable (mm_ s)) as [h|e] eqn:E; cbn [obind].
  - right. do 2 eexists. split; [done|]. split; [done|]. exists h.
    unfold u2. by rewrite to_u_id by lia.
  - left. exists e. split; [unfold heap_fails; eauto 10|done].
Qed.

End reads.

(** ** Register sets *)

Lemma bits_from_set bitset j off :
  0 <= j < 15 -> 0 <= bitset < 2 ^ j ->
  bits_from 15 (Z.lor bitset (2 ^ j)) off = bits_from 15 bitset off ++ [off + j].
Proof.
  intros Hj Hb.
  replace 15%nat with (Z.to_nat j + S (Z.to_nat (14 - j)))%nat by lia.
  rewrite !bits_from_app, !Z2Nat.id by lia.
  assert (E1 : Z.shiftr (Z.lor bitset (2 ^ j)) j = 1).
  { rewrite Z.shiftr_lor, !Z.shiftr_div_pow2 by lia.
    by rewrite Z.div_small, Z.div_same by lia. }
  assert (E0 : Z.shiftr bitset j = 0) by (rewrite Z.shiftr_div_pow2, Z.div_small by lia; done).
  rewrite E1, E0, bits_from_zero, app_nil_r, bits_from_S, Z.shiftr_div_pow2 by lia.
  change (1 / 2 ^ 1) with 0. rewrite bits_from_zero, app_nil_r. f_equal.
  apply bits_from_ext. intros i Hi. rewrite Z.lor_spec, Z.pow2_bits_false, orb_false_r by lia.
  done.
Qed.

(** An ascending set of registers without a positive multiple of 15. *)
Definition regs_ok (regs : list Z) : Prop :=
  StronglySorted Z.lt regs /\ Forall (fun r => 0 <= r < 256 /\ (r = 0 \/ r mod 15 <> 0)) regs.

Lemma regsToBits16_go_spec fuel bitset off regs rest :
  regs_ok regs -> 0 <= off < 256 -> off mod 15 = 0 -> 0 <= bitset < 2 ^ 15 ->
  Forall (fun r => off <= r /\ bitset < 2 ^ (r - off) /\ (r = off -> off = 0)) regs ->
  270 - off <= 15 * (Z.of_nat fuel - Z.of_nat (length regs)) ->
  frame_slots (regsToBits16_go fuel bitset off regs ++ rest) off
  = Ok (bits_from 15 bitset off ++ regs).
Proof.
  revert bitset off regs. induction fuel as [|fuel IH]; intros bitset off regs [Hs Hr] Ho Hm Hb Hf Hfuel;
    [lia|].
  cbn [regsToBits16_go]. destruct regs as [|n regs].
  { cbn [app]. rewrite frame_slots_last by lia. by rewrite app_nil_r. }
  pose proof (Forall_inv Hr) as [Hn Hmod]. pose proof (Forall_inv Hf) as (Hon & Hbn & Hno).
  apply StronglySorted_inv in Hs as [Hs Hlt]. cbn [length] in Hfuel.
  destruct (Z.ltb_spec 15 (n - off)) as [Hgt|Hle].
  - cbn [app]. change 0x8000 with BITMASK_CONT. rewrite Z.lor_comm, frame_slots_cont by lia.
    rewrite IH; [cbn [obind]; by rewrite bits_from_zero|split; [by constructor|done]|lia| |lia| |
                 cbn [length]; lia].
    + by rewrite <- Z.add_mod_idemp_l, Hm by lia.
    + constructor; [split; [lia|split; [apply pow2_pos; lia|lia]]|].
      eapply Forall_impl; [exact Hlt|]. cbn. intros r Hnr.
      split; [lia|split; [apply pow2_pos; lia|lia]].
  - assert (Hj : 0 <= n - off < 15).
    { split; [lia|]. destruct (Z.eq_dec (n - off) 15) as [E|]; [|lia]. exfalso.
      assert (n mod 15 = 0).
      { replace n with (off + 1 * 15) by lia. by rewrite Z.mod_add by lia. }
      lia. }
    assert (Hp15 : 2 ^ (n - off) < 2 ^ 15) by (apply Z.pow_lt_mono_r; lia).
    assert (Hu : u2 (Z.shiftl 1 (n - off)) = 2 ^ (n - off)).
    { rewrite Z.shiftl_1_l. unfold u2. apply to_u_id. lia. }
    rewrite Hu, IH; [|split; [done|by apply Forall_inv_tail in Hr]|lia|done| | |lia].
    + rewrite bits_from_set by lia. rewrite <- app_assoc. cbn [app].
      by replace (off + (n - off)) with n by lia.
    + apply lor_bound; lia.
    + rewrite Forall_forall in Hlt |- *. intros r Hin. specialize (Hlt r Hin). cbn.
      split; [lia|]. split; [|lia].
      eapply Z.lt_le_trans; [apply (lor_bound _ _ (n - off + 1)); [lia| |]|
                             apply Z.pow_le_mono_r; lia];
        rewrite Z.pow_add_r by lia; lia.
Qed.

(** The chunks the compiler writes for a set of registers are decoded
    by the garbage collector to exactly these registers, provided that no
    register is a positive multiple of 15. *)
Theorem regs_roundtrip regs rest :
  regs_ok regs -> frame_slots (regsToBits16 regs ++ rest) 0 = Ok regs.
Proof.
  intros Hr. unfold regsToBits16. rewrite regsToBits16_go_spec; [by rewrite bits_from_zero|done|
    lia|done|lia| |lia].
  destruct Hr as [_ Hr]. eapply Forall_impl; [exact Hr|]. cbn. intros r [Hr0 _].
  split; [lia|]. split; [apply pow2_pos; lia|done].
Qed.

(** Register 15 sets the continuation bit of its chunk instead: the
    collector does not see it and takes what follows for more slots. *)
Lemma regs_15_lost rest : frame_slots (regsToBits16 [15] ++ rest) 0 = frame_slots rest 15.
Proof.
  change (regsToBits16 [15]) with [Z.lor 0 BITMASK_CONT]. cbn [app].
  rewrite frame_slots_cont, bits_from_zero by lia. change (0 + 15) with 15.
  by destruct (frame_slots rest 15).
Qed.
