(* ===== verification/LinkProofs.v ===== *)
(** * Forward references are resolved

    [loader.cc] keeps the locations that wait for an info table or a
    closure in lists that run through the locations themselves.  The two
    tables have the same protocol with different dummies; [Linker] is the
    interface, [LinkerLaws] what it promises, and the theorems are proved
    once for every linker.  Both tables of the loader are instances. *)

From S2P Require Import Prelude Words Bytecode Objects HeapInterface MiscClosures Loader.

(** ** Lists of locations *)

Fixpoint chain (m : memory) (p : Z) (locs : list Z) : Prop :=
  match locs with
  | [] => p = 0
  | l :: locs' => p = l /\ l <> 0 /\ exists next, load m l = Ok next /\ chain m next locs'
  end.

Lemma chain_frame m m' p locs :
  (forall l, In l locs -> load m' l = load m l) -> chain m p locs -> chain m' p locs.
Proof.
  revert p. induction locs as [|l locs IH]; intros p Hl; cbn [chain]; [done|].
  intros (-> & Hnz & next & Hn & Hc). split; [done|]. split; [done|].
  exists next. rewrite Hl by (by left). split; [done|].
  apply IH; [|done]. intros; apply Hl. by right.
Qed.

Lemma chain_words m p locs l :
  chain m p locs -> In l locs -> is_Some (words m !! l) /\ is_aligned l 8 = true.
Proof.
  revert p. induction locs as [|x locs IH]; intros p; cbn [chain]; [done|].
  intros (-> & _ & next & Hn & Hc) [->|Hin]; [|by eapply IH].
  unfold load in Hn. case_match; [|done]. apply of_option_ok in Hn. eauto.
Qed.

(** Fixing a list writes every location once and ends. *)
Lemma fix_chain_spec fuel m p locs obj :
  chain m p locs -> List.NoDup locs -> (length locs <= fuel)%nat ->
  exists m', fix_chain fuel m p obj = Ok m' /\ itbls m' = itbls m
    /\ (forall l, In l locs -> load m' l = Ok obj)
    /\ (forall a, ~ In a locs -> load m' a = load m a).
Proof.
  revert fuel m p. induction locs as [|l locs IH]; intros fuel m p Hc Hnd Hf.
  { cbn in Hc. subst p. exists m. by destruct fuel. }
  assert (Hal : is_aligned l 8 = true) by (eapply chain_words; [exact Hc|by left]).
  destruct Hc as (-> & Hnz & next & Hn & Hc). inversion Hnd as [|? ? Hni Hnd']; subst.
  cbn in Hf. destruct fuel as [|fuel]; [lia|]. cbn [fix_chain].
  rewrite (proj2 (Z.eqb_neq l 0)), Hn by done. cbn [obind].
  destruct (IH fuel (store m l obj) next) as (m' & Hm & Hi & Hin & Hout).
  - eapply chain_frame; [|exact Hc]. intros x Hx. rewrite load_store_ne; [done|]. by intros ->.
  - done.
  - lia.
  - exists m'. split; [done|]. split; [by rewrite Hi|]. split.
    + intros x [<-|Hx]; [|by apply Hin]. rewrite Hout by done. by apply load_store_eq.
    + intros a Ha. cbn in Ha. rewrite Hout by tauto. apply load_store_ne. tauto.
Qed.

(** The fuel of the model is enough. *)
Lemma chain_fuel_enough m p locs :
  chain m p locs -> List.NoDup locs -> (length locs <= chain_fuel m)%nat.
Proof.
  intros Hc Hnd. unfold chain_fuel. rewrite <- size_dom.
  assert (Hsub : list_to_set locs ⊆@{gset Z} dom (words m)).
  { intros x Hx. apply elem_of_list_to_set, list_elem_of_In in Hx.
    apply elem_of_dom. by eapply chain_words. }
  apply subseteq_size in Hsub. rewrite size_list_to_set in Hsub; [done|by apply NoDup_ListNoDup].
Qed.

(** ** The interface *)

Section linkers.
Context {H : Type} `{HeapOps H}.
Context (new_at : nat -> Z).
Abbreviation LS := (LoaderState (H := H)).

(** The table, the address of the list head in a dummy and the words that
    mark it, dummies and objects, and the two operations. *)
Record Linker := mkLinker {
  l_tab : LS -> gmap string Z;
  l_next : Z -> Z;
  l_marks : Z -> list Z;
  l_dummy : memory -> Z -> Prop;
  l_real : memory -> Z -> Prop;
  l_mark : memory -> Z -> memory;
  l_unmark : memory -> Z -> memory;
  l_reference : string -> Z -> LS -> outcome (unit * LS);
  l_define : string -> Z -> LS -> outcome (unit * LS)
}.

(** The entry of a name; a missing one counts as null. *)
Definition entry (L : Linker) (s : LS) (n : string) : Z := default 0 (l_tab L s !! n).

Class LinkerLaws (L : Linker) := {
  law_frame : forall m m' d,
    (forall a, In a (l_marks L d) -> load m' a = load m a) -> itbls m' !! d = itbls m !! d ->
    (l_dummy L m d -> l_dummy L m' d) /\ (l_real L m d -> l_real L m' d);
  law_dummy_real : forall m d, l_dummy L m d -> l_real L m d -> False;
  law_mark : forall m d,
    (forall a, In a (l_marks L d) -> is_aligned a 8 = true) ->
    l_dummy L (l_mark L m d) d
    /\ (forall a, ~ In a (l_marks L d) -> load (l_mark L m d) a = load m a)
    /\ (forall d', d' <> d -> itbls (l_mark L m d) !! d' = itbls m !! d');
  law_unmark : forall m d,
    (forall a, a <> l_next L d -> ~ In a (l_marks L d) -> load (l_unmark L m d) a = load m a)
    /\ (forall d', d' <> d -> itbls (l_unmark L m d) !! d' = itbls m !! d');
  law_ref_first : forall n loc s, entry L s n = 0 ->
    let d := new_at (news_ s) in
    exists s', l_reference L n loc s = Ok (tt, s') /\ l_tab L s' = <[n := d]> (l_tab L s)
      /\ mem_ s' = store (store (l_mark L (mem_ s) d) (l_next L d) loc) loc 0;
  law_ref_more : forall n loc s p, entry L s n <> 0 -> l_dummy L (mem_ s) (entry L s n) ->
    load (mem_ s) (l_next L (entry L s n)) = Ok p ->
    exists s', l_reference L n loc s = Ok (tt, s') /\ l_tab L s' = l_tab L s
      /\ mem_ s' = store (store (mem_ s) loc p) (l_next L (entry L s n)) loc;
  law_ref_done : forall n loc s, entry L s n <> 0 -> l_real L (mem_ s) (entry L s n) ->
    exists s', l_reference L n loc s = Ok (tt, s') /\ l_tab L s' = l_tab L s
      /\ mem_ s' = store (mem_ s) loc (entry L s n);
  law_def_first : forall n obj s, entry L s n = 0 ->
    exists s', l_define L n obj s = Ok (tt, s') /\ l_tab L s' = <[n := obj]> (l_tab L s)
      /\ mem_ s' = mem_ s;
  law_def_fix : forall n obj s p m, entry L s n <> 0 -> l_dummy L (mem_ s) (entry L s n) ->
    load (mem_ s) (l_next L (entry L s n)) = Ok p ->
    fix_chain (chain_fuel (mem_ s)) (mem_ s) p obj = Ok m ->
    exists s', l_define L n obj s = Ok (tt, s') /\ l_tab L s' = <[n := obj]> (l_tab L s)
      /\ mem_ s' = l_unmark L m (entry L s n)
}.

(** ** Histories *)

Inductive event :=
| Ref (n : string) (loc : Z)
| Def (n : string) (obj : Z).

Fixpoint refs_of (n : string) (h : list event) : list Z :=
  match h with
  | [] => []
  | Ref n' l :: h' => if decide (n' = n) then l :: refs_of n h' else refs_of n h'
  | Def _ _ :: h' => refs_of n h'
  end.
Fixpoint locs (h : list event) : list Z :=
  match h with
  | [] => []
  | Ref _ l :: h' => l :: locs h'
  | Def _ _ :: h' => locs h'
  end.
Fixpoint def_of (n : string) (h : list event) : option Z :=
  match h with
  | [] => None
  | Def n' a :: h' => if decide (n' = n) then Some a else def_of n h'
  | Ref _ _ :: h' => def_of n h'
  end.

Lemma refs_of_locs n h l : In l (refs_of n h) -> In l (locs h).
Proof.
  induction h as [|[n' l'|n' a] h IH]; cbn; [done| |done].
  case_decide; cbn; [|by auto]. intros [->|?]; auto.
Qed.
Lemma refs_of_NoDup n h : List.NoDup (locs h) -> List.NoDup (refs_of n h).
Proof.
  induction h as [|[n' l'|n' a] h IH]; cbn; [constructor| |done].
  inversion 1 as [|? ? Hni Hnd]; subst. case_decide; [|by auto].
  constructor; [|by auto]. by intros ?%refs_of_locs.
Qed.
Lemma refs_of_Ref n h l : In (Ref n l) h -> In l (refs_of n h).
Proof.
  induction h as [|[n' l'|n' a] h IH]; cbn; [done| |].
  - intros [[= -> ->]|Hin]; [by rewrite decide_True; [left|]|]. case_decide; [right|]; auto.
  - intros [?|?]; [done|auto].
Qed.

Lemma refs_of_disjoint n k h a :
  List.NoDup (locs h) -> k <> n -> In a (refs_of n h) -> In a (refs_of k h) -> False.
Proof.
  intros Hnd Hk. induction h as [|[k' l|k' l] h IH]; cbn; [done| |by auto].
  inversion Hnd as [|? ? Hni Hnd']; subst. specialize (IH Hnd').
  destruct (decide (k' = n)) as [->|]; [rewrite decide_False by done|].
  - intros [->|?] Hb; [by apply refs_of_locs in Hb|by auto].
  - destruct (decide (k' = k)); [|by auto].
    intros Ha [->|?]; [by apply refs_of_locs in Ha|by auto].
Qed.

Section generic.
Context (L : Linker) `{!LinkerLaws L}.

(** The words in use: recorded locations, and of every entry the words
    that mark it and, of a dummy, the list head. *)
Definition cell (m : memory) (d a : Z) : Prop :=
  In a (l_marks L d) \/ (l_dummy L m d /\ a = l_next L d).
Definition occupied (h : list event) (s : LS) (a : Z) : Prop :=
  In a (locs h) \/ exists n, entry L s n <> 0 /\ cell (mem_ s) (entry L s n) a.

Definition fresh_object (h : list event) (s : LS) (d : Z) : Prop :=
  d <> 0 /\ (forall n, entry L s n <> d) /\ forall a, In a (l_marks L d) -> ~ occupied h s a.
(** What the block for a new dummy has to satisfy. *)
Definition fresh_dummy (h : list event) (s : LS) (loc d : Z) : Prop :=
  fresh_object h s d /\ ~ occupied h s (l_next L d) /\ is_aligned (l_next L d) 8 = true
  /\ (forall a, In a (l_marks L d) -> is_aligned a 8 = true)
  /\ ~ In (l_next L d) (l_marks L d) /\ loc <> l_next L d /\ ~ In loc (l_marks L d).

(** An object survives a change of memory. *)
Definition kept (m m' : memory) (d : Z) : Prop :=
  (l_real L m d -> l_real L m' d)
  /\ (l_dummy L m d -> l_dummy L m' d /\ load m' (l_next L d) = load m (l_next L d)).

(** States reached by references from locations not in use, by one
    definition per name, and by any other step that keeps its hands off the
    words in use and the registered objects. *)
Inductive reach : list event -> LS -> Prop :=
| reach_start s : (forall n, entry L s n = 0) -> reach [] s
| reach_ref h s n loc s' :
    reach h s -> is_aligned loc 8 = true -> loc <> 0 -> ~ occupied h s loc ->
    fresh_dummy h s loc (new_at (news_ s)) ->
    l_reference L n loc s = Ok (tt, s') -> reach (Ref n loc :: h) s'
| reach_def h s n obj s' :
    reach h s -> def_of n h = None -> fresh_object h s obj -> l_real L (mem_ s) obj ->
    l_define L n obj s = Ok (tt, s') -> reach (Def n obj :: h) s'
| reach_other h s s' :
    reach h s -> (forall n, entry L s' n = entry L s n) ->
    (forall a, In a (locs h) -> load (mem_ s') a = load (mem_ s) a) ->
    (forall n, entry L s n <> 0 -> kept (mem_ s) (mem_ s') (entry L s n)) ->
    reach h s'.

(** ** The invariant *)

Definition entry_ok (h : list event) (s : LS) (n : string) : Prop :=
  match def_of n h with
  | Some a => entry L s n = a /\ a <> 0 /\ l_real L (mem_ s) a
              /\ forall l, In l (refs_of n h) -> load (mem_ s) l = Ok a
  | None =>
      match refs_of n h with
      | [] => entry L s n = 0
      | _ => entry L s n <> 0 /\ l_dummy L (mem_ s) (entry L s n)
             /\ exists p, load (mem_ s) (l_next L (entry L s n)) = Ok p
                          /\ chain (mem_ s) p (refs_of n h)
      end
  end.

Definition separate (h : list event) (s : LS) (n : string) : Prop :=
  let d := entry L s n in
  d <> 0 ->
  (forall a, cell (mem_ s) d a -> ~ In a (locs h))
  /\ (l_dummy L (mem_ s) d -> ~ In (l_next L d) (l_marks L d) /\ is_aligned (l_next L d) 8 = true)
  /\ forall n', n' <> n -> entry L s n' <> 0 ->
       entry L s n' <> d /\ forall a, cell (mem_ s) d a -> ~ cell (mem_ s) (entry L s n') a.

Definition link_inv (h : list event) (s : LS) : Prop :=
  (forall n, entry_ok h s n) /\ (forall n, separate h s n)
  /\ List.NoDup (locs h) /\ Forall (fun l => is_aligned l 8 = true /\ l <> 0) (locs h).

(** A change of memory that does not touch the cells of an object. *)
Lemma kept_touch m m' d (T : Z -> Prop) :
  (forall a, ~ T a -> load m' a = load m a) -> itbls m' !! d = itbls m !! d ->
  (forall a, cell m d a -> ~ T a) -> kept m m' d.
Proof using All.
  intros Hl Hi Hc.
  assert (Hm : forall a, In a (l_marks L d) -> load m' a = load m a).
  { intros a Ha. apply Hl, Hc. by left. }
  destruct (law_frame (L := L) m m' d Hm Hi) as [Hd Hr]. split; [done|].
  intros Hdm. split; [by apply Hd|]. apply Hl, Hc. by right.
Qed.

(** A registered object is a dummy or the object of its name. *)
Lemma entry_kind h s n :
  entry_ok h s n -> entry L s n <> 0 ->
  l_dummy L (mem_ s) (entry L s n) \/ l_real L (mem_ s) (entry L s n).
Proof using All.
  unfold entry_ok. destruct (def_of n h); [intros (-> & _ & Hr & _) _; by right|].
  destruct (refs_of n h); [done|]. intros (_ & Hd & _) _. by left.
Qed.

Lemma kept_dummy h s n m' :
  entry_ok h s n -> entry L s n <> 0 -> kept (mem_ s) m' (entry L s n) ->
  l_dummy L m' (entry L s n) -> l_dummy L (mem_ s) (entry L s n).
Proof using All.
  intros He Hnz [Hr Hd] Hd'. destruct (entry_kind _ _ _ He Hnz) as [|Hreal]; [done|].
  destruct (law_dummy_real (L := L) _ _ Hd' (Hr Hreal)).
Qed.

Lemma kept_cell h s n m' a :
  entry_ok h s n -> entry L s n <> 0 -> kept (mem_ s) m' (entry L s n) ->
  cell m' (entry L s n) a -> cell (mem_ s) (entry L s n) a.
Proof using All.
  intros He Hnz Hk [Hm|[Hd ->]]; [by left|right]. split; [|done]. by eapply kept_dummy.
Qed.

(** What a step for another name does to an entry. *)
Lemma entry_other h h' s s' n :
  entry_ok h s n -> entry L s' n = entry L s n ->
  (entry L s n <> 0 -> kept (mem_ s) (mem_ s') (entry L s n)) ->
  refs_of n h' = refs_of n h -> def_of n h' = def_of n h ->
  (forall a, In a (refs_of n h) -> load (mem_ s') a = load (mem_ s) a) ->
  entry_ok h' s' n.
Proof using All.
  unfold entry_ok. intros He Hent Hk -> -> Hl. rewrite Hent.
  destruct (def_of n h) as [a|].
  - destruct He as (E & Hnz & Hr & Hrefs). rewrite E in Hk. destruct (Hk Hnz) as [Hreal _].
    split; [done|]. split; [done|]. split; [by apply Hreal|].
    intros l Hin. rewrite Hl by done. by apply Hrefs.
  - destruct (refs_of n h) as [|l0 ls] eqn:Er; [done|].
    destruct He as (Hnz & Hd & p & Hp & Hc). destruct (Hk Hnz) as [_ Hdm].
    destruct (Hdm Hd) as [Hd' Hnx]. split; [done|]. split; [done|].
    exists p. rewrite Hnx. split; [done|]. by eapply chain_frame.
Qed.

Lemma separate_step h h' s s' n :
  (forall k, entry_ok h s k) -> (forall k, separate h s k) ->
  (forall k, k <> n -> entry L s' k = entry L s k) ->
  (forall k, k <> n -> entry L s k <> 0 -> kept (mem_ s) (mem_ s') (entry L s k)) ->
  (forall k a, k <> n -> entry L s k <> 0 -> cell (mem_ s) (entry L s k) a ->
     In a (locs h') -> In a (locs h)) ->
  (entry L s' n <> 0 ->
     (forall a, cell (mem_ s') (entry L s' n) a -> ~ In a (locs h')
        /\ forall k, k <> n -> entry L s k <> 0 -> ~ cell (mem_ s) (entry L s k) a)
     /\ (l_dummy L (mem_ s') (entry L s' n) -> ~ In (l_next L (entry L s' n)) (l_marks L (entry L s' n))
           /\ is_aligned (l_next L (entry L s' n)) 8 = true)
     /\ forall k, k <> n -> entry L s k <> 0 -> entry L s k <> entry L s' n) ->
  forall k, separate h' s' k.
Proof using All.
  intros He Hsep Hent Hk Hlocs Hn k.
  destruct (decide (k = n)) as [->|Hkn]; unfold separate; intros Hnz.
  - destruct (Hn Hnz) as (Hc & Hd & Hne). split; [intros a Ha; by apply Hc|]. split; [done|].
    intros k Hkn Hknz. rewrite Hent in * by done. split; [by apply Hne|].
    intros a Ha Hca. destruct (Hc a Ha) as [_ Hother]. apply (Hother k Hkn Hknz).
    eapply kept_cell; eauto.
  - rewrite Hent in * by done. destruct (Hsep k Hnz) as (Hcl & Hd & Hoth).
    assert (Hback : forall a, cell (mem_ s') (entry L s k) a -> cell (mem_ s) (entry L s k) a).
    { intros a. eapply kept_cell; eauto. }
    split; [intros a Ha Hin; apply (Hcl a); [by apply Hback|by eapply Hlocs; eauto]|].
    split; [intros Hd'; apply Hd; eapply kept_dummy; eauto|].
    intros k' Hk' Hk'nz. destruct (decide (k' = n)) as [->|Hk'n].
    + destruct (Hn Hk'nz) as (Hc & _ & Hne). split; [by apply not_eq_sym, Hne|].
      intros a Ha Hca. destruct (Hc a Hca) as [_ Hx]. apply (Hx k Hkn Hnz). by apply Hback.
    + rewrite Hent in * by done. destruct (Hoth k' Hk' Hk'nz) as [Hne Hx].
      split; [done|]. intros a Ha Hca. apply (Hx a); [by apply Hback|].
      eapply kept_cell; [apply He|done| |exact Hca]. by apply Hk.
Qed.

(** A step for the name [n] that touches the words [T]. *)
Lemma inv_step h h' s s' n (T : Z -> Prop) :
  link_inv h s ->
  (forall k, k <> n -> entry L s' k = entry L s k) ->
  (forall a, ~ T a -> load (mem_ s') a = load (mem_ s) a) ->
  (forall k, k <> n -> entry L s k <> 0 ->
     itbls (mem_ s') !! entry L s k = itbls (mem_ s) !! entry L s k) ->
  (forall k a, k <> n -> entry L s k <> 0 -> cell (mem_ s) (entry L s k) a -> ~ T a) ->
  (forall k a, k <> n -> In a (refs_of k h) -> ~ T a) ->
  (forall k, k <> n -> refs_of k h' = refs_of k h /\ def_of k h' = def_of k h) ->
  (forall k a, k <> n -> entry L s k <> 0 -> cell (mem_ s) (entry L s k) a ->
     In a (locs h') -> In a (locs h)) ->
  List.NoDup (locs h') -> Forall (fun l => is_aligned l 8 = true /\ l <> 0) (locs h') ->
  entry_ok h' s' n ->
  (entry L s' n <> 0 ->
     (forall a, cell (mem_ s') (entry L s' n) a -> ~ In a (locs h')
        /\ forall k, k <> n -> entry L s k <> 0 -> ~ cell (mem_ s) (entry L s k) a)
     /\ (l_dummy L (mem_ s') (entry L s' n) -> ~ In (l_next L (entry L s' n)) (l_marks L (entry L s' n))
           /\ is_aligned (l_next L (entry L s' n)) 8 = true)
     /\ forall k, k <> n -> entry L s k <> 0 -> entry L s k <> entry L s' n) ->
  link_inv h' s'.
Proof using All.
  intros (He & Hs & _ & _) Hent Hl Hi Hc Hr Hh Hlocs Hnd Hf Hn Hsn.
  assert (Hk : forall k, k <> n -> entry L s k <> 0 -> kept (mem_ s) (mem_ s') (entry L s k)).
  { intros k Hkn Hnz. apply (kept_touch _ _ _ T); [done|by apply Hi|by eauto]. }
  split; [|split; [|done]].
  - intros k. destruct (decide (k = n)) as [->|Hkn]; [done|].
    destruct (Hh k Hkn) as [Hrk Hdk].
    apply (entry_other h h' s s'); auto. intros a Ha. apply Hl. by eapply Hr.
  - by apply (separate_step h h' s s' n).
Qed.

Lemma unoccupied h s a :
  ~ occupied h s a ->
  ~ In a (locs h) /\ forall k, entry L s k <> 0 -> ~ cell (mem_ s) (entry L s k) a.
Proof using Type.
  unfold occupied. intros Hno. split; [tauto|]. intros k Hk Hc. apply Hno. right. eauto.
Qed.

Lemma entry_insert s s' n v k :
  l_tab L s' = <[n := v]> (l_tab L s) ->
  entry L s' k = if decide (n = k) then v else entry L s k.
Proof using Type. unfold entry. intros ->. rewrite lookup_insert. by case_decide. Qed.

Lemma entry_same s s' k : l_tab L s' = l_tab L s -> entry L s' k = entry L s k.
Proof using Type. unfold entry. by intros ->. Qed.

Lemma other_refs n loc h k :
  k <> n -> refs_of k (Ref n loc :: h) = refs_of k h /\ def_of k (Ref n loc :: h) = def_of k h.
Proof using Type. intros Hk. cbn. by rewrite decide_False by congruence. Qed.
Lemma other_defs n obj h k :
  k <> n -> refs_of k (Def n obj :: h) = refs_of k h /\ def_of k (Def n obj :: h) = def_of k h.
Proof using Type. intros Hk. cbn. by rewrite decide_False by congruence. Qed.

Lemma locs_ref h n loc :
  List.NoDup (locs h) -> Forall (fun l => is_aligned l 8 = true /\ l <> 0) (locs h) ->
  is_aligned loc 8 = true -> loc <> 0 -> ~ In loc (locs h) ->
  List.NoDup (locs (Ref n loc :: h))
  /\ Forall (fun l => is_aligned l 8 = true /\ l <> 0) (locs (Ref n loc :: h)).
Proof using Type. intros. cbn. split; constructor; done. Qed.

(** The first reference to a name makes its dummy. *)
Lemma ref_first_inv h s n loc :
  link_inv h s -> is_aligned loc 8 = true -> loc <> 0 -> ~ occupied h s loc ->
  fresh_dummy h s loc (new_at (news_ s)) -> entry L s n = 0 ->
  exists s', l_reference L n loc s = Ok (tt, s') /\ link_inv (Ref n loc :: h) s'.
Proof using All.
  intros Hinv Hal Hlnz Hfree Hd Hz. pose proof Hinv as (He & Hs & Hnd & Hf).
  destruct (law_ref_first (L := L) n loc s Hz) as (s' & Hr & Ht & Hm).
  exists s'. split; [done|]. set (d := new_at (news_ s)) in *. clearbody d.
  destruct Hd as ((Hdz & Hdne & Hdm) & Hdn & Hdal & Hmal & Hdnm & Hldn & Hlm).
  destruct (law_mark (L := L) (mem_ s) d Hmal) as (Hdum & Hml & Hmi).
  destruct (unoccupied _ _ _ Hfree) as [Hll Hlc]. destruct (unoccupied _ _ _ Hdn) as [Hnl Hnc].
  assert (Hent : forall k, entry L s' k = if decide (n = k) then d else entry L s k)
    by (intros; by apply entry_insert).
  assert (Hdum' : l_dummy L (mem_ s') d).
  { eapply (law_frame (L := L)); [| |exact Hdum].
    - intros a Ha. rewrite Hm, !load_store_ne; [done|by intros <-|by intros <-].
    - by rewrite Hm. }
  destruct (locs_ref h n loc Hnd Hf Hal Hlnz Hll) as [Hnd' Hf'].
  apply (inv_step h _ s s' n (fun a => In a (l_marks L d) \/ a = l_next L d \/ a = loc));
    try done.
  - intros k Hk. by rewrite Hent, decide_False by congruence.
  - intros a Ha. rewrite Hm, !load_store_ne; [apply Hml; tauto|intros <-; tauto..].
  - intros k Hk _. rewrite Hm. cbn. apply Hmi. apply not_eq_sym, not_eq_sym, Hdne.
  - intros k a Hk Hnz Hc [Ha|[->| ->]]; [|by eapply Hnc|by eapply Hlc].
    apply (Hdm a Ha). right. eauto.
  - intros k a Hk Ha%refs_of_locs [Hin|[->| ->]]; [|done|done]. apply (Hdm a Hin). by left.
  - intros k Hk. by apply other_refs.
  - intros k a Hk Hnz Hc [<-|Ha]; [|done]. by destruct (Hlc k Hnz).
  - unfold entry_ok. cbn. rewrite decide_True by done. rewrite Hent, decide_True by done.
    specialize (He n). unfold entry_ok in He. rewrite Hz in He.
    destruct (def_of n h); [by destruct He as (<- & ? & _)|].
    destruct (refs_of n h); [|by destruct He as (? & _)].
    split; [done|]. split; [done|]. exists loc. rewrite Hm. split.
    + rewrite load_store_ne by done. by apply load_store_eq.
    + split; [done|]. split; [done|]. exists 0. split; [by apply load_store_eq|done].
  - rewrite Hent, decide_True by done. intros _. split; [|split].
    + intros a [Ha|[_ ->]].
      * destruct (unoccupied _ _ _ (Hdm a Ha)) as [Hal' Hac].
        split; [|by auto]. intros [<-|?]; done.
      * split; [|by auto]. intros [?|?]; done.
    + done.
    + intros k _ _. apply Hdne.
Qed.

(** The words of the entry of another name. *)
Lemma cells_apart h s n k a :
  link_inv h s -> k <> n -> entry L s n <> 0 -> entry L s k <> 0 ->
  cell (mem_ s) (entry L s k) a -> ~ cell (mem_ s) (entry L s n) a.
Proof using Type.
  intros (_ & Hs & _) Hkn Hn Hk Hc Hc'.
  destruct (Hs n Hn) as (_ & _ & Ho). by destruct (Ho k Hkn Hk) as [_ Hx]; apply (Hx a).
Qed.

(** What [separate] says of the name of a step that keeps the entry. *)
Lemma same_separate h s s' n loc :
  link_inv h s -> entry L s n <> 0 -> entry L s' n = entry L s n ->
  (l_real L (mem_ s) (entry L s n) -> l_real L (mem_ s') (entry L s n)) ->
  ~ cell (mem_ s) (entry L s n) loc ->
  entry L s' n <> 0 ->
  (forall a, cell (mem_ s') (entry L s' n) a -> ~ In a (loc :: locs h)
     /\ forall k, k <> n -> entry L s k <> 0 -> ~ cell (mem_ s) (entry L s k) a)
  /\ (l_dummy L (mem_ s') (entry L s' n) -> ~ In (l_next L (entry L s' n)) (l_marks L (entry L s' n))
        /\ is_aligned (l_next L (entry L s' n)) 8 = true)
  /\ forall k, k <> n -> entry L s k <> 0 -> entry L s k <> entry L s' n.
Proof using All.
  intros Hinv Hnz -> Hreal Hloc _. pose proof Hinv as (He & Hs & _).
  destruct (Hs n Hnz) as (Hl & Hd & Ho).
  assert (Hdd : l_dummy L (mem_ s') (entry L s n) -> l_dummy L (mem_ s) (entry L s n)).
  { intros Hdum. destruct (entry_kind _ _ _ (He n) Hnz) as [|Hr]; [done|].
    destruct (law_dummy_real (L := L) _ _ Hdum (Hreal Hr)). }
  assert (Hb : forall a, cell (mem_ s') (entry L s n) a -> cell (mem_ s) (entry L s n) a).
  { intros a [?|[? ->]]; [by left|right; auto]. }
  split; [|split; [auto|]].
  - intros a Ha. split.
    + intros [<-|Hin]; [by apply Hloc, Hb|by apply (Hl a); [apply Hb|]].
    + intros k Hk Hkz Hc. apply (cells_apart h s n k a); auto.
  - intros k Hk Hkz. by destruct (Ho k Hk Hkz).
Qed.

(** Further references to a name without its object. *)
Lemma ref_more_inv h s n loc :
  link_inv h s -> is_aligned loc 8 = true -> loc <> 0 -> ~ occupied h s loc ->
  entry L s n <> 0 -> def_of n h = None ->
  exists s', l_reference L n loc s = Ok (tt, s') /\ link_inv (Ref n loc :: h) s'.
Proof using All.
  intros Hinv Hal Hlnz Hfree Hnz Hdef. pose proof Hinv as (He & Hs & Hnd & Hf).
  assert (Hen := He n). unfold entry_ok in Hen. rewrite Hdef in Hen.
  destruct (refs_of n h) as [|l0 ls] eqn:Er; [done|]. destruct Hen as (_ & Hdum & p & Hp & Hc).
  rewrite <- Er in Hc. set (d := entry L s n) in *.
  destruct (law_ref_more (L := L) n loc s p Hnz Hdum Hp) as (s' & Hr & Ht & Hm).
  fold d in Hm. exists s'. split; [done|].
  destruct (unoccupied _ _ _ Hfree) as [Hll Hlc].
  destruct (Hs n Hnz) as (Hl & Hd & Ho). destruct (Hd Hdum) as [Hnm Hna]. fold d in Hl, Hd.
  assert (Hldn : loc <> l_next L d) by (intros ->; apply (Hlc n Hnz); by right).
  assert (Hlm : ~ In loc (l_marks L d)) by (intros Hin; apply (Hlc n Hnz); by left).
  assert (Hmarks : forall a, In a (l_marks L d) -> load (mem_ s') a = load (mem_ s) a).
  { intros a Ha. rewrite Hm, !load_store_ne; [done|by intros <-|by intros <-]. }
  destruct (law_frame (L := L) (mem_ s) (mem_ s') d Hmarks) as [Hdum' Hreal']; [by rewrite Hm|].
  destruct (locs_ref h n loc Hnd Hf Hal Hlnz Hll) as [Hnd' Hf'].
  assert (Hent : forall k, entry L s' k = entry L s k) by (intros; by apply entry_same).
  apply (inv_step h _ s s' n (fun a => a = l_next L d \/ a = loc)); try done.
  - intros a Ha. rewrite Hm, !load_store_ne; [done|intros <-; tauto..].
  - intros k _ _. by rewrite Hm.
  - intros k a Hk Hkz Hcell [Ha|Ha]; subst a; [|by apply (Hlc k Hkz)].
    apply (cells_apart h s n k (l_next L d)); auto. by right.
  - intros k a Hk Hin%refs_of_locs [Ha|Ha]; subst a; [|done]. apply (Hl (l_next L d)); [by right|done].
  - intros k Hk. by apply other_refs.
  - intros k a Hk Hkz Hcell [<-|Ha]; [|done]. by destruct (Hlc k Hkz).
  - unfold entry_ok. cbn. rewrite decide_True, Hdef, Hent by done. fold d.
    split; [done|]. split; [by apply Hdum'|]. exists loc. rewrite Hm.
    split; [by apply load_store_eq|]. split; [done|]. split; [done|]. exists p. split.
    + rewrite load_store_ne by (by apply not_eq_sym). by apply load_store_eq.
    + eapply chain_frame; [|exact Hc]. intros l Hin%refs_of_locs.
      rewrite !load_store_ne; [done|by intros <-|].
      intros <-. apply (Hl (l_next L d)); [by right|done].
  - apply same_separate; auto.
Qed.

(** References to a name whose object is there. *)
Lemma ref_done_inv h s n loc obj :
  link_inv h s -> is_aligned loc 8 = true -> loc <> 0 -> ~ occupied h s loc ->
  def_of n h = Some obj ->
  exists s', l_reference L n loc s = Ok (tt, s') /\ link_inv (Ref n loc :: h) s'.
Proof using All.
  intros Hinv Hal Hlnz Hfree Hdef. pose proof Hinv as (He & Hs & Hnd & Hf).
  assert (Hen := He n). unfold entry_ok in Hen. rewrite Hdef in Hen.
  destruct Hen as (Eobj & Hnz & Hrl & Hrefs). rewrite <- Eobj in *. clear Eobj obj.
  destruct (law_ref_done (L := L) n loc s Hnz Hrl) as (s' & Hr & Ht & Hm).
  exists s'. split; [done|]. destruct (unoccupied _ _ _ Hfree) as [Hll Hlc].
  assert (Hlm : ~ In loc (l_marks L (entry L s n))) by (intros Hin; apply (Hlc n Hnz); by left).
  assert (Hmarks : forall a, In a (l_marks L (entry L s n)) -> load (mem_ s') a = load (mem_ s) a).
  { intros a Ha. rewrite Hm, load_store_ne; [done|by intros <-]. }
  destruct (law_frame (L := L) (mem_ s) (mem_ s') _ Hmarks) as [Hdum' Hreal']; [by rewrite Hm|].
  destruct (locs_ref h n loc Hnd Hf Hal Hlnz Hll) as [Hnd' Hf'].
  assert (Hent : forall k, entry L s' k = entry L s k) by (intros; by apply entry_same).
  apply (inv_step h _ s s' n (fun a => a = loc)); try done.
  - intros a Ha. rewrite Hm, load_store_ne; [done|]. by intros <-.
  - intros k _ _. by rewrite Hm.
  - intros k a Hk Hkz Hcell ->. by apply (Hlc k Hkz).
  - by intros k a Hk Ha%refs_of_locs ->.
  - intros k Hk. by apply other_refs.
  - intros k a Hk Hkz Hcell [<-|Ha]; [|done]. by destruct (Hlc k Hkz).
  - unfold entry_ok. cbn. rewrite decide_True, Hdef, Hent by done.
    split; [done|]. split; [done|]. split; [by apply Hreal'|].
    intros l [<-|Hin]; rewrite Hm; [by apply load_store_eq|].
    rewrite load_store_ne; [by apply Hrefs|]. apply refs_of_locs in Hin. by intros ->.
  - apply same_separate; auto.
Qed.

(** The new entry of a defined name. *)
Lemma defined_separate h s s' n obj :
  link_inv h s -> fresh_object h s obj -> entry L s' n = obj -> l_real L (mem_ s') obj ->
  entry L s' n <> 0 ->
  (forall a, cell (mem_ s') (entry L s' n) a -> ~ In a (locs h)
     /\ forall k, k <> n -> entry L s k <> 0 -> ~ cell (mem_ s) (entry L s k) a)
  /\ (l_dummy L (mem_ s') (entry L s' n) -> ~ In (l_next L (entry L s' n)) (l_marks L (entry L s' n))
        /\ is_aligned (l_next L (entry L s' n)) 8 = true)
  /\ forall k, k <> n -> entry L s k <> 0 -> entry L s k <> entry L s' n.
Proof using All.
  intros Hinv (Hz & Hne & Hfree) -> Hreal _.
  assert (Hnd : ~ l_dummy L (mem_ s') obj).
  { intros Hd. destruct (law_dummy_real (L := L) _ _ Hd Hreal). }
  split; [|split; [done|by auto]].
  intros a [Ha|[? _]]; [|done]. destruct (unoccupied _ _ _ (Hfree a Ha)) as [Hl Hc].
  split; [done|auto].
Qed.

Lemma def_first_inv h s n obj :
  link_inv h s -> fresh_object h s obj -> l_real L (mem_ s) obj -> entry L s n = 0 ->
  exists s', l_define L n obj s = Ok (tt, s') /\ link_inv (Def n obj :: h) s'.
Proof using All.
  intros Hinv Hobj Hreal Hz. pose proof Hinv as (He & Hs & Hnd & Hf).
  destruct (law_def_first (L := L) n obj s Hz) as (s' & Hr & Ht & Hm).
  exists s'. split; [done|].
  assert (Hent : forall k, entry L s' k = if decide (n = k) then obj else entry L s k)
    by (intros; by apply entry_insert).
  assert (Hen : entry L s' n = obj) by (by rewrite Hent, decide_True).
  rewrite <- Hm in Hreal.
  apply (inv_step h _ s s' n (fun _ => False)); try done.
  - intros k Hk. by rewrite Hent, decide_False by congruence.
  - intros a _. by rewrite Hm.
  - intros k _ _. by rewrite Hm.
  - by auto.
  - by auto.
  - intros k Hk. by apply other_defs.
  - unfold entry_ok. cbn. rewrite decide_True by done.
    destruct Hobj as (Hobz & _ & _). split; [done|]. split; [done|]. split; [done|].
    specialize (He n). unfold entry_ok in He. rewrite Hz in He.
    destruct (def_of n h); [by destruct He as (<- & ? & _)|].
    destruct (refs_of n h); [done|by destruct He as (? & _)].
  - by apply (defined_separate h s s' n obj).
Qed.

Lemma def_fix_inv h s n obj :
  link_inv h s -> def_of n h = None -> fresh_object h s obj -> l_real L (mem_ s) obj ->
  entry L s n <> 0 ->
  exists s', l_define L n obj s = Ok (tt, s') /\ link_inv (Def n obj :: h) s'.
Proof using All.
  intros Hinv Hdef Hobj Hreal Hnz. pose proof Hinv as (He & Hs & Hnd & Hf).
  assert (Hen := He n). unfold entry_ok in Hen. rewrite Hdef in Hen.
  destruct (refs_of n h) as [|l0 ls] eqn:Er; [done|]. destruct Hen as (_ & Hdum & p & Hp & Hc).
  rewrite <- Er in Hc. set (d := entry L s n) in *.
  pose proof (refs_of_NoDup n h Hnd) as Hrnd.
  destruct (fix_chain_spec (chain_fuel (mem_ s)) _ _ _ obj Hc Hrnd
              (chain_fuel_enough _ _ _ Hc Hrnd)) as (m & Hfix & Hmi & Hmin & Hmout).
  destruct (law_def_fix (L := L) n obj s p m Hnz Hdum Hp Hfix) as (s' & Hr & Ht & Hm).
  fold d in Hm. exists s'. split; [done|].
  destruct (law_unmark (L := L) m d) as [Hul Hui].
  destruct (Hs n Hnz) as (Hl & _ & _). fold d in Hl.
  assert (Hent : forall k, entry L s' k = if decide (n = k) then obj else entry L s k)
    by (intros; by apply entry_insert).
  assert (Hen' : entry L s' n = obj) by (by rewrite Hent, decide_True).
  assert (Hsame : forall a, ~ (In a (refs_of n h) \/ cell (mem_ s) d a) ->
            load (mem_ s') a = load (mem_ s) a).
  { intros a Ha. rewrite Hm, Hul; [apply Hmout; tauto| |].
    - intros ->. apply Ha. right. by right.
    - intros Hin. apply Ha. right. by left. }
  destruct Hobj as (Hoz & Hone & Hofree). assert (Hobj : fresh_object h s obj) by done.
  assert (Hreal' : l_real L (mem_ s') obj).
  { eapply (law_frame (L := L)); [| |exact Hreal].
    - intros a Ha. destruct (unoccupied _ _ _ (Hofree a Ha)) as [Hal Hac]. apply Hsame.
      intros [Hin%refs_of_locs|Hcell]; [done|by apply (Hac n Hnz)].
    - rewrite Hm, Hui, Hmi by (apply not_eq_sym, Hone). done. }
  apply (inv_step h _ s s' n (fun a => In a (refs_of n h) \/ cell (mem_ s) d a)); try done.
  - intros k Hk. by rewrite Hent, decide_False by congruence.
  - intros k Hk Hkz. rewrite Hm, Hui, Hmi; [done|]. by destruct (Hs n Hnz) as (_ & _ & Ho);
      destruct (Ho k Hk Hkz).
  - intros k a Hk Hkz Hcell [Hin%refs_of_locs|Hx].
    + destruct (Hs k Hkz) as (Hlk & _). by apply (Hlk a).
    + by apply (cells_apart h s n k a).
  - intros k a Hk Ha [Hin|Hx]; [|by apply refs_of_locs in Ha; apply (Hl a)].
    by apply (refs_of_disjoint n k h a Hnd).
  - intros k Hk. by apply other_defs.
  - unfold entry_ok. cbn. rewrite decide_True by done.
    split; [done|]. split; [done|]. split; [done|].
    intros l Hin. rewrite Hm, Hul; [by apply Hmin| |].
    + intros ->. apply (Hl (l_next L d)); [by right|by apply refs_of_locs in Hin].
    + intros Hx. apply (Hl l); [by left|by apply refs_of_locs in Hin].
  - by apply (defined_separate h s s' n obj).
Qed.

(** ** The theorems *)

Lemma ref_inv h s n loc :
  link_inv h s -> is_aligned loc 8 = true -> loc <> 0 -> ~ occupied h s loc ->
  fresh_dummy h s loc (new_at (news_ s)) ->
  exists s', l_reference L n loc s = Ok (tt, s') /\ link_inv (Ref n loc :: h) s'.
Proof using All.
  intros Hinv. intros. destruct (decide (entry L s n = 0)) as [Hz|Hnz];
    [by apply ref_first_inv|].
  destruct (def_of n h) as [obj|] eqn:E; [by eapply ref_done_inv|by apply ref_more_inv].
Qed.

Lemma def_inv h s n obj :
  link_inv h s -> def_of n h = None -> fresh_object h s obj -> l_real L (mem_ s) obj ->
  exists s', l_define L n obj s = Ok (tt, s') /\ link_inv (Def n obj :: h) s'.
Proof using All.
  intros. destruct (decide (entry L s n = 0)); [by apply def_first_inv|by apply def_fix_inv].
Qed.

Lemma other_inv h s s' :
  link_inv h s -> (forall n, entry L s' n = entry L s n) ->
  (forall a, In a (locs h) -> load (mem_ s') a = load (mem_ s) a) ->
  (forall n, entry L s n <> 0 -> kept (mem_ s) (mem_ s') (entry L s n)) ->
  link_inv h s'.
Proof using All.
  intros (He & Hs & Hnd & Hf) Hent Hl Hk. split; [|split; [|done]].
  - intros n. apply (entry_other h h s s'); auto. intros a Ha%refs_of_locs. auto.
  - intros n. unfold separate. rewrite Hent. intros Hnz. destruct (Hs n Hnz) as (Hc & Hd & Ho).
    split; [|split].
    + intros a Ha. apply Hc. eapply kept_cell; eauto.
    + intros Hdum. apply Hd. eapply kept_dummy; eauto.
    + intros k Hkn. rewrite Hent. intros Hkz. destruct (Ho k Hkn Hkz) as [Hne Hx].
      split; [done|]. intros a Ha Hb. apply (Hx a); eapply kept_cell; eauto.
Qed.

Lemma reach_inv h s : reach h s -> link_inv h s.
Proof using All.
  induction 1 as [s Hz|h s n loc s' _ IH Hal Hnz Hfree Hd Hr|h s n obj s' _ IH Hdef Hobj Hreal Hr
                 |h s s' _ IH Hent Hl Hk].
  - split; [intros n; apply Hz|]. split; [intros n Hn; by rewrite Hz in Hn|].
    split; [constructor|done].
  - destruct (ref_inv h s n loc IH Hal Hnz Hfree Hd) as (s'' & Hr' & Hinv).
    rewrite Hr in Hr'. by injection Hr' as <-.
  - destruct (def_inv h s n obj IH Hdef Hobj Hreal) as (s'' & Hr' & Hinv).
    rewrite Hr in Hr'. by injection Hr' as <-.
  - by eapply other_inv.
Qed.

(** What holds of every linker. *)
Lemma linked h s :
  reach h s ->
  forall n,
    (forall obj, def_of n h = Some obj ->
       entry L s n = obj /\ l_real L (mem_ s) obj
       /\ forall loc, In (Ref n loc) h -> load (mem_ s) loc = Ok obj)
    /\ (def_of n h = None -> forall loc, In (Ref n loc) h ->
          entry L s n <> 0 /\ l_dummy L (mem_ s) (entry L s n)).
Proof using All.
  intros Hr n. destruct (reach_inv h s Hr) as (He & _). specialize (He n).
  unfold entry_ok in He. split.
  - intros obj Hd. rewrite Hd in He. destruct He as (E & _ & Hreal & Hrefs).
    split; [done|]. split; [done|]. intros loc Hin%refs_of_Ref. by apply Hrefs.
  - intros Hd loc Hin%refs_of_Ref. rewrite Hd in He. destruct (refs_of n h); [done|].
    by destruct He as (? & ? & _).
Qed.

End generic.

(** ** The two tables *)

Definition info_linker : Linker := {|
  l_tab := infoTables_;
  l_next := fun d => d + FWD_next;
  l_marks := fun _ => [];
  l_dummy := fun m d => exists i, itbls m !! d = Some i /\ it_type i = INVALID_OBJECT;
  l_real := fun m d => exists i, itbls m !! d = Some i /\ it_type i <> INVALID_OBJECT;
  l_mark := fun m d => store_itbl m d (mkInfoTable INVALID_OBJECT 0 0 0 "" None);
  l_unmark := fun m d => delete_itbl (delete_word m (d + FWD_next)) d;
  l_reference := loadInfoTableReference new_at;
  l_define := fun n info s =>
    let! '(_, s) := fixInfoTableForwardReference n info s in
    Ok (tt, with_infos s (<[n := info]> (infoTables_ s)))
|}.

Definition closure_linker : Linker := {|
  l_tab := closures_;
  l_next := fun d => d + 8 + 8 * 0;
  l_marks := fun d => [d];
  l_dummy := fun m d => load m d = Ok 0;
  l_real := fun m d => exists i, load m d = Ok i /\ i <> 0;
  l_mark := fun m d => setInfo m d 0;
  l_unmark := fun m d => delete_word (delete_word m d) (d + 8);
  l_reference := loadClosureReference new_at;
  l_define := fun n cl s =>
    let! '(_, s) := fixClosureForwardReference n cl s in
    Ok (tt, with_closures s (<[n := cl]> (closures_ s)))
|}.

Lemma tab_ref_nonzero (t : gmap string Z) n :
  default 0 (t !! n) <> 0 -> tab_ref 0 t n = (default 0 (t !! n), t).
Proof. unfold tab_ref. by destruct (t !! n). Qed.
Lemma tab_ref_zero (t : gmap string Z) n :
  default 0 (t !! n) = 0 -> exists t', tab_ref 0 t n = (0, t') /\ forall v, <[n := v]> t' = <[n := v]> t.
Proof.
  unfold tab_ref. destruct (t !! n) as [v|] eqn:E; cbn.
  - intros ->. by exists t.
  - intros _. eexists. split; [done|]. intros v. by rewrite insert_insert_eq.
Qed.

Lemma load_delete_word m a b : a <> b -> load (delete_word m a) b = load m b.
Proof. intros Hne. unfold load. cbn. by rewrite lookup_delete_ne. Qed.

#[export] Instance info_linker_laws : LinkerLaws info_linker.
Proof.
  constructor; cbn [info_linker l_tab l_next l_marks l_dummy l_real l_mark l_unmark l_reference
                    l_define].
  - intros m m' d _ ->. done.
  - intros m d (i & Hi & Ht) (j & Hj & Hne). congruence.
  - intros m d _. split; [|split].
    + eexists. cbn. rewrite lookup_insert_eq. done.
    + done.
    + intros d' Hd. cbn. by rewrite lookup_insert_ne.
  - intros m d. split.
    + intros a Ha _. by apply load_delete_word, not_eq_sym.
    + intros d' Hd. cbn. by rewrite lookup_delete_ne.
  - intros n loc s Hz. unfold entry in Hz. cbn in Hz.
    destruct (tab_ref_zero _ _ Hz) as (t & Ht & Hins). unfold loadInfoTableReference.
    rewrite Ht. cbn. eexists. split; [done|]. cbn. by rewrite Hins.
  - intros n loc s p Hnz (i & Hi & Hinv) Hp. unfold entry in *. cbn in *.
    unfold loadInfoTableReference. rewrite tab_ref_nonzero by done.
    rewrite (proj2 (Z.eqb_neq _ 0)) by done. cbn. unfold info_at. rewrite Hi. cbn [of_option obind].
    rewrite bool_decide_true, Hp by done. cbn. eauto.
  - intros n loc s Hnz (i & Hi & Hinv). unfold entry in *. cbn in *.
    unfold loadInfoTableReference. rewrite tab_ref_nonzero by done.
    rewrite (proj2 (Z.eqb_neq _ 0)) by done. cbn. unfold info_at. rewrite Hi. cbn [of_option obind].
    rewrite bool_decide_false by done. eauto.
  - intros n obj s Hz. unfold entry in Hz. cbn in Hz.
    destruct (tab_ref_zero _ _ Hz) as (t & Ht & Hins). unfold fixInfoTableForwardReference.
    rewrite Ht. cbn. eexists. split; [done|]. cbn. by rewrite Hins.
  - intros n obj s p m Hnz (i & Hi & Hinv) Hp Hfix. unfold entry in *. cbn in *.
    unfold fixInfoTableForwardReference. rewrite tab_ref_nonzero by done.
    rewrite (proj2 (Z.eqb_neq _ 0)) by done. cbn. unfold info_at. rewrite Hi. cbn [of_option obind].
    rewrite bool_decide_true, Hp by done. cbn [obind]. rewrite Hfix. cbn. eauto.
Qed.

#[export] Instance closure_linker_laws : LinkerLaws closure_linker.
Proof.
  constructor; cbn [closure_linker l_tab l_next l_marks l_dummy l_real l_mark l_unmark l_reference
                    l_define]; unfold payload, setPayload, setInfo, closure_info_addr.
  - intros m m' d Hl _. by rewrite (Hl d) by (by left).
  - intros m d Hd (i & Hi & Hne). congruence.
  - intros m d Hal. split; [|split].
    + apply load_store_eq, Hal. by left.
    + intros a Ha. apply load_store_ne. intros ->. apply Ha. by left.
    + done.
  - intros m d. split; [|done].
    intros a Ha Hm. rewrite !load_delete_word; [done| |lia]. intros ->. apply Hm. by left.
  - intros n loc s Hz. unfold entry in Hz. cbn in Hz.
    destruct (tab_ref_zero _ _ Hz) as (t & Ht & Hins). unfold loadClosureReference.
    rewrite Ht. cbn. eexists. split; [done|]. cbn. by rewrite Hins.
  - intros n loc s p Hnz Hd Hp. unfold entry in *. cbn in *.
    unfold loadClosureReference. rewrite tab_ref_nonzero by done.
    rewrite (proj2 (Z.eqb_neq _ 0)) by done. unfold closure_info_addr. cbn. rewrite Hd. cbn.
    unfold payload. cbn. rewrite Hp. cbn. eauto.
  - intros n loc s Hnz (i & Hi & Hne). unfold entry in *. cbn in *.
    unfold loadClosureReference. rewrite tab_ref_nonzero by done.
    rewrite (proj2 (Z.eqb_neq _ 0)) by done. unfold closure_info_addr. cbn. rewrite Hi. cbn.
    rewrite (proj2 (Z.eqb_neq i 0)) by done. eauto.
  - intros n obj s Hz. unfold entry in Hz. cbn in Hz.
    destruct (tab_ref_zero _ _ Hz) as (t & Ht & Hins). unfold fixClosureForwardReference.
    rewrite Ht. cbn. eexists. split; [done|]. cbn. by rewrite Hins.
  - intros n obj s p m Hnz Hd Hp Hfix. unfold entry in *. cbn in *.
    unfold fixClosureForwardReference. rewrite tab_ref_nonzero by done.
    rewrite (proj2 (Z.eqb_neq _ 0)) by done. unfold closure_info_addr, payload. cbn. rewrite Hd.
    cbn [obind]. rewrite Hp. cbn [obind]. rewrite Hfix. cbn. eauto.
Qed.

(** ** What a successful check means *)

Lemma count_errors_zero unresolved entries :
  count_errors unresolved entries = Ok O ->
  Forall (fun e => e.2 <> 0 /\ unresolved e.2 = Ok false) entries.
Proof.
  induction entries as [|[n a] entries IH]; cbn [count_errors]; [constructor|].
  intros He. destruct (Z.eqb_spec a 0) as [->|Hnz]; [done|].
  inv_ok. destruct x; [done|]. subst. constructor; [done|by apply IH].
Qed.

Lemma check_entry (unresolved : Z -> outcome bool) (t : gmap string Z) n :
  count_errors unresolved (map_to_list t) = Ok O -> default 0 (t !! n) <> 0 ->
  unresolved (default 0 (t !! n)) = Ok false.
Proof.
  intros Hc%count_errors_zero Hnz. destruct (t !! n) as [a|] eqn:E; [|done]. cbn.
  rewrite Forall_forall in Hc. apply elem_of_map_to_list in E. by apply Hc in E as [_ ?].
Qed.

(** C6: When the final check of the loader succeeds, every location from
    which an info table or a closure was ever referenced, before or after
    it was loaded, holds the address of the object that was loaded under
    that name.  Histories are any interleaving of references from aligned
    locations not yet in use, of at most one definition per name, and of
    other steps that leave the recorded words alone; the check succeeds
    only when nothing is missing.

    When an object is registered, and from then on, the type of an info
    table is valid and the header of a closure is not null ([l_real]).
    This leaves out a closure whose header is the last location that waits
    for its info table, which is null until the table is loaded; what the
    loader does with it is [pending_header_misread]. *)
Theorem references_resolved hi hc s :
  reach info_linker hi s -> reach closure_linker hc s -> checkNoForwardRefs s = Ok true ->
  (forall n loc, In (Ref n loc) hi ->
     exists info, def_of n hi = Some info /\ infoTables_ s !! n = Some info
                  /\ load (mem_ s) loc = Ok info)
  /\ (forall n loc, In (Ref n loc) hc ->
     exists cl, def_of n hc = Some cl /\ closures_ s !! n = Some cl
                /\ load (mem_ s) loc = Ok cl).
Proof.
  intros Hi Hc Hcheck. unfold checkNoForwardRefs in Hcheck.
  apply obind_ok in Hcheck as (e1 & Hci & Hcheck).
  apply obind_ok in Hcheck as (e2 & Hcc & Hcheck). injection Hcheck as Hcheck.
  apply Nat.eqb_eq in Hcheck. assert (e1 = O /\ e2 = O) as [-> ->] by lia.
  split; intros n loc Hin.
  - destruct (linked info_linker hi s Hi n) as [Hd Hu].
    destruct (def_of n hi) as [info|] eqn:E.
    + destruct (Hd info eq_refl) as (He & (i & Hi' & _) & Hl). exists info.
      split; [done|]. split; [|by apply Hl].
      unfold entry in He. cbn in He. destruct (infoTables_ s !! n) as [a|] eqn:Et; cbn in He;
        [by subst|]. subst. destruct (reach_inv info_linker hi s Hi) as (Hen & _).
      specialize (Hen n). unfold entry_ok in Hen. rewrite E in Hen. by destruct Hen as (_ & ? & _).
    + destruct (Hu eq_refl loc Hin) as (Hnz & i & Hi' & Hinv). unfold entry in *. cbn in *.
      apply (check_entry _ _ n Hci) in Hnz. unfold info_at in Hnz. rewrite Hi' in Hnz.
      cbn in Hnz. by rewrite bool_decide_true in Hnz.
  - destruct (linked closure_linker hc s Hc n) as [Hd Hu].
    destruct (def_of n hc) as [cl|] eqn:E.
    + destruct (Hd cl eq_refl) as (He & _ & Hl). exists cl.
      split; [done|]. split; [|by apply Hl].
      unfold entry in He. cbn in He. destruct (closures_ s !! n) as [a|] eqn:Et; cbn in He;
        [by subst|]. subst. destruct (reach_inv closure_linker hc s Hc) as (Hen & _).
      specialize (Hen n). unfold entry_ok in Hen. rewrite E in Hen. by destruct Hen as (_ & ? & _).
    + destruct (Hu eq_refl loc Hin) as (Hnz & Hdm). unfold entry in *. cbn in *.
      apply (check_entry _ _ n Hcc) in Hnz. unfold closure_info_addr in Hnz. rewrite Hdm in Hnz.
      done.
Qed.

(** References and definitions do not fail in the states the theorem
    speaks of. *)
Lemma reference_total h s n loc :
  reach info_linker h s -> is_aligned loc 8 = true -> loc <> 0 ->
  ~ occupied info_linker h s loc -> fresh_dummy info_linker h s loc (new_at (news_ s)) ->
  exists s', loadInfoTableReference new_at n loc s = Ok (tt, s')
             /\ reach info_linker (Ref n loc :: h) s'.
Proof.
  intros Hr Hal Hnz Hfree Hd.
  destruct (ref_inv info_linker h s n loc (reach_inv _ _ _ Hr)) as (s' & Hs & _); [done..|].
  exists s'. split; [exact Hs|]. by eapply reach_ref.
Qed.

(** C38: A closure whose header waits for its info table looks like a dummy
    when that header is the last location of the list.  A reference to it
    does not get its address but its first payload word, which is
    overwritten with the address of the location. *)
Theorem pending_header_misread n loc cl v (s : LS) :
  closures_ s !! n = Some cl -> cl <> 0 -> load (mem_ s) cl = Ok 0 ->
  payload (mem_ s) cl 0 = Ok v -> is_aligned loc 8 = true -> loc <> cl + 8 -> loc <> cl ->
  exists s', loadClosureReference new_at n loc s = Ok (tt, s')
    /\ closures_ s' = closures_ s /\ load (mem_ s') loc = Ok v
    /\ payload (mem_ s') cl 0 = Ok loc /\ load (mem_ s') cl = Ok 0.
Proof.
  intros Hn Hnz Hh Hv Hal Hl8 Hl. unfold loadClosureReference, tab_ref. rewrite Hn.
  rewrite (proj2 (Z.eqb_neq cl 0)) by done. unfold closure_info_addr. cbn. rewrite Hh. cbn.
  rewrite Hv. cbn. eexists. split; [done|]. split; [done|]. cbn.
  unfold payload, setPayload in *.
  assert (Hca : is_aligned (cl + 8 + 8 * 0) 8 = true) by (by eapply load_aligned).
  rewrite load_store_ne by lia. rewrite load_store_eq by done.
  rewrite load_store_eq by done. rewrite !load_store_ne by lia. done.
Qed.

End linkers.
