(* ===== verification/LoadOrder.v ===== *)
(** * The order of loading

    Which file a module is loaded from, and why the recursion over imports
    ends: reading a file leaves the table of modules alone, every nested
    call has entered a new module before, and the names that have a file
    are finitely many. *)

From S2P Require Import Prelude Words Bytecode Objects HeapInterface MiscClosures Loader.
Import BytecodeFile.

(** ** The search for a file *)

(** All places in the order in which they are tried. *)
Definition places (base name : string) : list string :=
  moduleNameToFile base name
  :: map (fun p => moduleNameToFile
            (String.substring 0 (PATH_MAX - 1) (base +:+ "/" +:+ p)) name)
       wired_in_packages.
Definition first_file (isreg : string -> bool) (l : list string) : option string :=
  head (filter (fun f => isreg f = true) l).

Lemma first_file_app isreg l1 l2 :
  first_file isreg (l1 ++ l2) =
  match first_file isreg l1 with Some f => Some f | None => first_file isreg l2 end.
Proof. unfold first_file. rewrite filter_app. by destruct (filter _ l1). Qed.

Lemma first_file_cons isreg f l :
  first_file isreg (f :: l) = if isreg f then Some f else first_file isreg l.
Proof.
  unfold first_file. destruct (isreg f) eqn:E.
  - by rewrite filter_cons_True.
  - by rewrite filter_cons_False by (by rewrite E).
Qed.

Lemma findWiredIn_spec isreg base name packages :
  findWiredIn isreg base name packages =
  first_file isreg (map (fun p => moduleNameToFile
    (String.substring 0 (PATH_MAX - 1) (base +:+ "/" +:+ p)) name) packages).
Proof.
  induction packages as [|p ps IH]; [done|]. cbn [findWiredIn map].
  rewrite first_file_cons. unfold fileExists. by rewrite IH.
Qed.

(** The module is loaded from the first regular file among, for each
    base path in order, the path itself and its wired-in packages. *)
Theorem findModule_first isreg basepaths name :
  findModule isreg basepaths name
  = first_file isreg (concat (map (fun b => places b name) basepaths)).
Proof.
  induction basepaths as [|b bs IH]; [done|]. cbn [findModule map concat].
  rewrite first_file_app. unfold places at 1. rewrite first_file_cons.
  unfold fileExists. destruct (isreg _); [done|].
  rewrite findWiredIn_spec. by rewrite IH.
Qed.

(** ** Hashing of names *)

(** One round of [hashstr] multiplies by the 32-bit FNV prime. *)
Lemma hash_round hval :
  u4 (hval + u4 (Z.shiftl hval 1 + Z.shiftl hval 4 + Z.shiftl hval 7
                 + Z.shiftl hval 8 + Z.shiftl hval 24)) = u4 (hval * 0x01000193).
Proof.
  unfold u4. rewrite to_u_add_r by lia. f_equal. rewrite !Z.shiftl_mul_pow2 by lia. lia.
Qed.
Lemma hashstr_fnv str :
  hashstr str = fold_left (fun h b => Z.lxor (u4 (h * 0x01000193)) b) (c_str str) 0x811c9dc5.
Proof.
  unfold hashstr. generalize 0x811c9dc5. induction (c_str str) as [|x l IH]; intros h; [done|].
  cbn [hashstr_loop fold_left]. by rewrite hash_round, IH.
Qed.

(** ** Base paths *)

Lemma strchr_colon_shorter path part rest :
  strchr_colon path = (part, Some rest) -> (String.length rest < String.length path)%nat.
Proof.
  revert part. induction path as [|c path IH]; intros part; cbn [strchr_colon String.length]; [done|].
  destruct (Ascii.eqb c _); [intros [= _ <-]; lia|].
  destruct (strchr_colon path) as [p r]. intros [= _ ->]. specialize (IH p eq_refl). lia.
Qed.

(** The loop of [initBasePath] runs at most once more than the path has
    characters. *)
Lemma initBasePath_fuel {H} `{HeapOps H} realpath fuel k path (s : LoaderState (H := H)) :
  (String.length path < fuel)%nat ->
  initBasePath_loop realpath (fuel + k) path s = initBasePath_loop realpath fuel path s.
Proof.
  revert path s. induction fuel as [|fuel IH]; intros path s Hf; [lia|].
  cbn [Nat.add initBasePath_loop]. destruct (strchr_colon path) as [part rest] eqn:E.
  destruct rest as [rest|]; [|done]. apply strchr_colon_shorter in E.
  destruct (negb _); [|done].
  destruct (if String.eqb part "" then _ else _) as [s1|e]; [|done].
  cbn [obind]. apply IH. lia.
Qed.

(** ** Reading a file does not enter modules *)

Section frame.
Context {H : Type} `{HeapOps H}.
Context (new_at : nat -> Z) (isreg : string -> bool) (fopen : string -> option (list Z)).
Abbreviation LS := (LoaderState (H := H)).

Definition same_modules (s s' : LS) : Prop :=
  loadedModules_ s' = loadedModules_ s /\ basepaths_ s' = basepaths_ s.
Definition framed {A} (c : LM (H := H) A) : Prop :=
  forall f s a f' s', c f s = Ok (a, f', s') -> same_modules s s'.
Definition framed_s {A} (g : LS -> outcome (A * LS)) : Prop :=
  forall s a s', g s = Ok (a, s') -> same_modules s s'.

Lemma framed_ret {A} (a : A) : framed (lret a).
Proof. intros f s b f' s' [= _ _ <-]. done. Qed.
Lemma framed_err {A} e : framed (A := A) (lerr e).
Proof. by intros f s b f' s'. Qed.
Lemma framed_bind {A B} (c : LM A) (k : A -> LM B) :
  framed c -> (forall a, framed (k a)) -> framed (lbind c k).
Proof.
  intros Hc Hk f s b f' s' Hb. unfold lbind in Hb. apply obind_ok in Hb as ([[a f1] s1] & H1 & H2).
  apply Hc in H1 as [E1 E2]. apply Hk in H2 as [E3 E4]. split; congruence.
Qed.
Lemma framed_lread {A} (r : list Z -> A * list Z) : framed (lread r).
Proof. intros f s a f' s'. unfold lread. destruct (r f). by intros [= _ _ <-]. Qed.
Lemma framed_lread_ok {A} (r : list Z -> outcome (A * list Z)) : framed (lread_ok r).
Proof. intros f s a f' s' Hr. unfold lread_ok in Hr. by inv_ok. Qed.
Lemma framed_lift {A} (o : outcome A) : framed (lift o).
Proof. intros f s a f' s' Hr. unfold lift in Hr. by inv_ok. Qed.
Lemma framed_lheap {A} (g : H -> outcome (H * A)) : framed (lheap g).
Proof. intros f s a f' s' Hr. unfold lheap in Hr. by inv_ok. Qed.
Lemma framed_lmem g : framed (lmem g).
Proof. intros f s a f' s'. unfold lmem. by intros [= _ _ <-]. Qed.
Lemma framed_lstate {A} (g : LS -> outcome (A * LS)) : framed_s g -> framed (lstate g).
Proof.
  intros Hg f s a f' s' Hr. unfold lstate in Hr. apply obind_ok in Hr as ([b s1] & H1 & [= _ _ <-]).
  by apply Hg in H1.
Qed.
Lemma framed_lfor {A} n i (body : Z -> LM A) : (forall i, framed (body i)) -> framed (lfor n i body).
Proof.
  intros Hb. revert i. induction n as [|n IH]; intros i; [apply framed_ret|].
  apply framed_bind; [done|]. intros a. apply framed_bind; [done|]. intros l. apply framed_ret.
Qed.
Lemma framed_if {A} (b : bool) (c1 c2 : LM A) : framed c1 -> framed c2 -> framed (if b then c1 else c2).
Proof. by destruct b. Qed.

Ltac framed_step :=
  match goal with
  | |- forall _, framed _ => intro
  | |- framed (let _ := _ in _) => cbv zeta
  | |- framed (lbind _ _) => apply framed_bind
  | |- framed (if _ then _ else _) => apply framed_if
  | |- framed (lfor _ _ _) => apply framed_lfor
  | |- framed (lret _) => apply framed_ret
  | |- framed (lerr _) => apply framed_err
  | |- framed (lread _) => apply framed_lread
  | |- framed (lread_ok _) => apply framed_lread_ok
  | |- framed (lift _) => apply framed_lift
  | |- framed (lheap _) => apply framed_lheap
  | |- framed (lmem _) => apply framed_lmem
  | |- framed (lstate _) => apply framed_lstate
  | |- framed (match ?o with _ => _ end) => destruct o
  | |- framed_s (fun _ => _) =>
      intros s ? s' Hr; cbn beta in Hr; unfold tab_ref, new_block in Hr;
      inv_ok; repeat (case_match; simplify_eq; inv_ok; try done); by split
  | _ => solve [auto with framed]
  end.
Ltac framed := repeat framed_step.
Create HintDb framed discriminated.

Lemma framed_get_string len : framed (get_string new_at len).
Proof.
  intros f s a f' s' Hr. unfold get_string in Hr. case_match; [done|]. cbn in Hr.
  injection Hr as _ _ <-. done.
Qed.
Lemma framed_loadId strings sep : framed (loadId strings sep).
Proof. unfold loadId, read_part. framed. Qed.
#[local] Hint Resolve framed_get_string framed_loadId : framed.
Lemma framed_loadModuleHeader : framed (loadModuleHeader new_at).
Proof.
  unfold loadModuleHeader, loadStringTabEntry. framed.
Qed.

(** The operations on the tables of names. *)
Lemma framed_closureReference n a : framed_s (loadClosureReference new_at n a).
Proof.
  intros s b s' Hr. unfold loadClosureReference, tab_ref, new_block in Hr.
  repeat (case_match; simplify_eq; inv_ok; try done); by split.
Qed.
Lemma framed_infoReference n a : framed_s (loadInfoTableReference new_at n a).
Proof.
  intros s b s' Hr. unfold loadInfoTableReference, tab_ref, new_block in Hr.
  repeat (case_match; simplify_eq; inv_ok; try done); by split.
Qed.
Lemma framed_fixClosure n a : framed_s (fixClosureForwardReference (H := H) n a).
Proof.
  intros s b s' Hr. unfold fixClosureForwardReference, tab_ref, new_block in Hr.
  repeat (case_match; simplify_eq; inv_ok; try done); by split.
Qed.
Lemma framed_fixInfo n a : framed_s (fixInfoTableForwardReference (H := H) n a).
Proof.
  intros s b s' Hr. unfold fixInfoTableForwardReference, tab_ref, new_block in Hr.
  repeat (case_match; simplify_eq; inv_ok; try done); by split.
Qed.

#[local] Hint Resolve framed_closureReference framed_infoReference framed_fixClosure
  framed_fixInfo : framed.

Lemma framed_loadLiteral strings a : framed (loadLiteral new_at strings a).
Proof. unfold loadLiteral, loadLiteral_switch. framed. Qed.
#[local] Hint Resolve framed_loadLiteral : framed.
Lemma framed_loadCode strings : framed (loadCode new_at strings).
Proof. unfold loadCode. framed. Qed.
Lemma framed_read_layout : framed (read_layout (H := H)).
Proof. unfold read_layout. framed. Qed.
#[local] Hint Resolve framed_loadCode framed_read_layout : framed.
Lemma framed_loadInfoTable strings : framed (loadInfoTable new_at strings).
Proof.
  unfold loadInfoTable, load_ConInfoTable, load_CodeInfoTable, beginAlloc, endAlloc. framed.
Qed.
Lemma framed_loadClosure strings : framed (loadClosure new_at strings).
Proof. unfold loadClosure. framed. Qed.
#[local] Hint Resolve framed_loadInfoTable framed_loadClosure : framed.
Lemma framed_loadModuleBody mdl : framed (loadModuleBody new_at mdl).
Proof. unfold loadModuleBody. framed. Qed.

(** ** The recursion over imports *)

Definition is_loaded (s : LS) (n : string) : bool :=
  match loadedModules_ s !! n with Some (Some _) => true | _ => false end.
Definition grows (s s' : LS) : Prop :=
  basepaths_ s' = basepaths_ s /\ forall n, is_loaded s n = true -> is_loaded s' n = true.

Lemma grows_trans s1 s2 s3 : grows s1 s2 -> grows s2 s3 -> grows s1 s3.
Proof. intros [E1 G1] [E2 G2]. split; [congruence|auto]. Qed.
Lemma same_modules_grows s s' : same_modules s s' -> grows s s'.
Proof. intros [E1 E2]. split; [done|]. unfold is_loaded. by rewrite E1. Qed.

(** Entering a null pointer or a module for a name that is not loaded. *)
Lemma grows_enter s n v :
  is_loaded s n = false ->
  grows s (with_loaded s (<[n := v]> (loadedModules_ s))).
Proof.
  intros Hn. split; [done|]. intros k Hk. unfold is_loaded in *. cbn.
  destruct (decide (n = k)) as [->|]; [by rewrite Hk in Hn|by rewrite lookup_insert_ne].
Qed.

Lemma tab_ref_grows s n :
  let '(m, t) := tab_ref None (loadedModules_ s) n in
  grows s (with_loaded s t)
  /\ (m = None -> is_loaded s n = false /\ is_loaded (with_loaded s t) n = false).
Proof.
  unfold tab_ref. destruct (loadedModules_ s !! n) as [v|] eqn:E.
  - split; [by split|]. intros ->. unfold is_loaded. cbn. by rewrite E.
  - assert (Hn : is_loaded s n = false) by (unfold is_loaded; by rewrite E).
    split; [by apply grows_enter|]. intros _. split; [done|].
    unfold is_loaded. cbn. by rewrite lookup_insert_eq.
Qed.

Abbreviation level := (loadModule_level new_at isreg fopen).

Lemma load_imports_grows g imports s s' :
  (forall i s b s', g i s = Ok (b, s') -> grows s s') ->
  load_imports g imports s = Ok s' -> grows s s'.
Proof.
  intros Hg. revert s. induction imports as [|i imports IH]; intros s; cbn [load_imports].
  { by intros [= <-]. }
  intros Hl. apply obind_ok in Hl as ([b s1] & H1 & H2).
  eapply grows_trans; [by eapply Hg|by apply IH].
Qed.

Lemma loadModule_level_grows fuel n s b s' : level fuel n s = Ok (b, s') -> grows s s'.
Proof.
  revert n s b s'. induction fuel as [|fuel IH]; intros n s b s'; [done|].
  cbn [loadModule_level]. pose proof (tab_ref_grows s n) as Ht.
  destruct (tab_ref None (loadedModules_ s) n) as [m t]. destruct Ht as [Hg Hn].
  destruct m as [m|]; [by intros [= _ <-]|]. destruct (Hn eq_refl) as [_ Hn'].
  destruct (findModule _ _ _) as [filename|]; [|by intros [= _ <-]].
  destruct (fopen filename) as [f|]; [|by intros [= _ <-]].
  intros Hl. apply obind_ok in Hl as ([[mdl f1] s1] & Hh & Hl).
  pose proof (framed_loadModuleHeader _ _ _ _ _ Hh) as Hf.
  destruct mdl as [mdl|]; [|injection Hl as _ <-; eapply grows_trans; [done|];
    by apply same_modules_grows].
  apply obind_ok in Hl as (s2 & Himp & Hl).
  apply obind_ok in Hl as ([[u f3] s3] & Hb & [= _ <-]).
  apply framed_loadModuleBody, same_modules_grows in Hb.
  apply (load_imports_grows _ _ _ _ IH) in Himp.
  eapply grows_trans; [exact Hg|]. eapply grows_trans; [by apply same_modules_grows|].
  eapply grows_trans; [apply (grows_enter _ n (Some mdl))|by eapply grows_trans].
  unfold is_loaded in *. by rewrite (proj1 Hf).
Qed.

(** Names with a file that are not loaded yet. *)
Definition missing (names : list string) (s : LS) : nat :=
  length (List.filter (fun n => negb (is_loaded s n)) names).
(** [names] has every name that the search finds a readable file for. *)
Definition covers (names : list string) (s : LS) : Prop :=
  forall n filename, findModule isreg (basepaths_ s) n = Some filename ->
    is_Some (fopen filename) -> In n names.

Lemma covers_grows names s s' : grows s s' -> covers names s -> covers names s'.
Proof. intros [E _] Hc. unfold covers. by rewrite E. Qed.

Lemma missing_grows names s s' : grows s s' -> (missing names s' <= missing names s)%nat.
Proof.
  intros [_ Hg]. unfold missing. induction names as [|n names IH]; cbn; [done|].
  specialize (Hg n). destruct (is_loaded s n); cbn.
  - rewrite Hg by done. done.
  - destruct (is_loaded s' n); cbn; lia.
Qed.

Lemma missing_lt names s s' n :
  grows s s' -> In n names -> is_loaded s n = false -> is_loaded s' n = true ->
  (missing names s' < missing names s)%nat.
Proof.
  intros Hg Hin Hn Hn'. induction names as [|k names IH]; [done|].
  pose proof (missing_grows names s s' Hg) as Hle. unfold missing in *. cbn.
  destruct Hin as [->|Hin].
  - rewrite Hn, Hn'. cbn. lia.
  - specialize (IH Hin). pose proof (proj2 Hg k). destruct (is_loaded s k); cbn.
    + rewrite H1 by done. done.
    + destruct (is_loaded s' k); cbn; lia.
Qed.

Lemma load_imports_ext names g g' imports s bound :
  (forall i s b s', g i s = Ok (b, s') -> grows s s') ->
  (forall i s, covers names s -> (missing names s < bound)%nat -> g' i s = g i s) ->
  covers names s -> (missing names s < bound)%nat ->
  load_imports g' imports s = load_imports g imports s.
Proof.
  intros Hg Hext. revert s. induction imports as [|i imports IH]; intros s Hc Hb; [done|].
  cbn [load_imports]. rewrite Hext by done. destruct (g i s) as [[b s1]|e] eqn:E; [|done].
  cbn [obind]. apply Hg in E. apply IH; [by eapply covers_grows|].
  pose proof (missing_grows names s s1 E). lia.
Qed.

(** C25: The recursion over imports, cyclic ones included, is never deeper
    than the number of module names that have a readable file and are not
    loaded yet, plus one: more fuel than that changes nothing. *)
Theorem loadModule_depth names fuel k n s :
  covers names s -> (missing names s < fuel)%nat ->
  level (fuel + k) n s = level fuel n s.
Proof.
  revert n s. induction fuel as [|fuel IH]; intros n s Hc Hf; [lia|].
  cbn [Nat.add loadModule_level]. pose proof (tab_ref_grows s n) as Ht.
  destruct (tab_ref None (loadedModules_ s) n) as [m t]. destruct Ht as [Hg Hn].
  destruct m as [m|]; [done|]. destruct (Hn eq_refl) as [Hn0 Hn'].
  destruct (findModule _ _ _) as [filename|] eqn:Efind; [|done].
  destruct (fopen filename) as [f|] eqn:Eopen; [|done].
  destruct (loadModuleHeader _ _ _) as [[[mdl f1] s1]|e] eqn:Hh; [|done]. cbn [obind].
  destruct mdl as [mdl|]; [|done].
  pose proof (framed_loadModuleHeader _ _ _ _ _ Hh) as Hfr.
  set (s2 := with_loaded s1 (<[n := Some mdl]> (loadedModules_ s1))).
  assert (Hg2 : grows s s2).
  { eapply grows_trans; [exact Hg|]. eapply grows_trans; [by apply same_modules_grows|].
    apply grows_enter. unfold is_loaded in *. by rewrite (proj1 Hfr). }
  assert (Hlt : (missing names s2 < missing names s)%nat).
  { apply (missing_lt names s s2 n); [done| |done|].
    - apply (Hc n filename); [exact Efind|by exists f].
    - unfold is_loaded, s2. cbn. by rewrite lookup_insert_eq. }
  rewrite (load_imports_ext names (level fuel) (level (fuel + k)) _ s2 fuel); [done|..].
  - intros i s3 b s4. apply loadModule_level_grows.
  - intros i s3 Hc3 Hb3. by apply IH.
  - by eapply covers_grows.
  - lia.
Qed.

End frame.
