(* ===== verification/LoaderExamples.v ===== *)
(** * Concrete bytecode files

    Small modules as the compiler writes them, loaded from a file system of
    two files, and the inputs at which the theorems about the loader are
    applied. *)

From Stdlib Require Import Ascii Sorted.
From S2P Require Import Prelude Words Bytecode Bitmaps Objects Hotness HeapInterface.
From S2P Require Import MiscClosures Examples Loader Serialise LoaderProofs LinkProofs LoadOrder.
Import BytecodeFile.

(** ** Modules *)

(** A whole module with constructor info tables (name, tag, pointers) and
    closures (name, info table, fields). *)
Fixpoint emit_list {A} (emit : list bytestring -> A -> list Z * list bytestring)
    (tbl : list bytestring) (l : list A) : list Z * list bytestring :=
  match l with
  | [] => ([], tbl)
  | x :: l' =>
      let '(out, tbl) := emit tbl x in
      let '(more, tbl) := emit_list emit tbl l' in
      (out ++ more, tbl)
  end.
Definition module_file (name : bytestring) (imports : list bytestring)
    (cons : list (bytestring * Z * list bool))
    (clos : list (bytestring * bytestring * list Field)) : list Z :=
  let '(mi, tbl) := modinfo name imports in
  let '(it, tbl) := emit_list (fun t '(n, tag, tys) => emitConInfo t n tag tys) tbl cons in
  let '(cl, tbl) := emit_list (fun t '(n, i, fields) => emitClosure t n i fields) tbl clos in
  header tbl (Z.of_nat (length cons)) (Z.of_nat (length clos)) (Z.of_nat (length imports))
  ++ mi ++ [66; 67; 67; 76] ++ it ++ cl.

Definition b (s : string) : bytestring := bytes_of_string s.

(** Blocks of [new] lie far from the heap. *)
Definition new_at (n : nat) : Z := 0x100000 + 64 * Z.of_nat n.
Definition no_real (path : string) : option string := Some path.

Definition start : LoaderState := mkLoader 0x10000 empty_memory O ["."%string] ∅ ∅ ∅.

(** ** Two closures that refer to each other *)

Definition mutual : list Z :=
  module_file (b "Data.Ring") []
    [(b "Data.Ring.Cons`con_info", 2, [false; true])]
    [(b "Data.Ring.x`closure", b "Data.Ring.Cons`con_info", [CInt (-1); ClosureId (b "Data.Ring.y`closure")]);
     (b "Data.Ring.y`closure", b "Data.Ring.Cons`con_info", [CWord 5; ClosureId (b "Data.Ring.x`closure")])].

Definition one_file (path : string) : bool := String.eqb path "./base/Data/Ring.lcbc".
Definition open_one (path : string) : option (list Z) :=
  if one_file path then Some mutual else None.

Definition payloads (s : LoaderState (H := Z)) (n : string) : outcome (InfoTable * Z * Z) :=
  let '(cl, s) := closure s n in
  let! i := closure_info (mem_ s) cl in
  let! p0 := payload (mem_ s) cl 0 in
  let! p1 := payload (mem_ s) cl 1 in
  Ok (i, p0, p1).

Definition ring_itbl : InfoTable :=
  mkInfoTable CONSTR 2 2 2 "Data.Ring.Cons`con_info" None.

Example load_mutual :
  (let! '(ok, s) := loadModule new_at one_file open_one 3 "Data.Ring" start in
   let! x := payloads s "Data.Ring.x`closure" in
   let! y := payloads s "Data.Ring.y`closure" in
   Ok (ok, x, y, (closure s "Data.Ring.x`closure").1, (closure s "Data.Ring.y`closure").1))
  = Ok (true, (ring_itbl, 2 ^ 64 - 1, 65760), (ring_itbl, 5, 65664), 65664, 65760).
Proof. vm_compute. reflexivity. Qed.

(** ** A closure whose info table comes later

    [A] imports [B] and [B] imports [A], so that [B]'s closures are loaded
    before [A]'s constructor.  The second closure refers to the first one
    while the header of the first is the end of the list for [A.C]: after a
    successful check it holds the first one's payload. *)

Definition fileA : list Z :=
  module_file (b "A") [b "B"] [(b "A.C`con_info", 1, [true])] [].
Definition fileB : list Z :=
  module_file (b "B") [b "A"] []
    [(b "B.x`closure", b "A.C`con_info", [CInt 7]);
     (b "B.y`closure", b "A.C`con_info", [ClosureId (b "B.x`closure")])].
Definition two_files (path : string) : bool :=
  String.eqb path "./A.lcbc" || String.eqb path "./B.lcbc".
Definition open_two (path : string) : option (list Z) :=
  if String.eqb path "./A.lcbc" then Some fileA
  else if String.eqb path "./B.lcbc" then Some fileB else None.

Example pending_header_loaded :
  (let! '(ok, s) := loadModule new_at two_files open_two 3 "A" start in
   let x := (closure s "B.x`closure").1 in
   let y := (closure s "B.y`closure").1 in
   let! ix := closure_info (mem_ s) x in
   let! px := payload (mem_ s) x 0 in
   let! py := payload (mem_ s) y 0 in
   Ok (ok, it_name ix, bool_decide (px = y + 8), py, bool_decide (py = x)))
  = Ok (true, "A.C`con_info"%string, true, 7, false).
Proof. vm_compute. reflexivity. Qed.

(** An import that has no file is reported, but the importing module counts
    as loaded. *)
Example missing_import_ignored :
  (let! '(ok, _) := loadModule new_at (String.eqb "./A.lcbc") open_two 3 "A" start in Ok ok)
  = Ok true.
Proof. vm_compute. reflexivity. Qed.

(** A name that was looked up before and does not exist is dereferenced by
    the next check. *)
Example lookup_then_check :
  (let '(_, s) := closure start "main`closure" in
   loadModule new_at one_file open_one 3 "Data.Ring" s) = Err WildAccess.
Proof. vm_compute. reflexivity. Qed.

(** An empty component of the search path fails the assertion on it. *)
Example empty_component : initBasePath no_real (Some "a::b"%string) start = Err AssertFailed.
Proof. vm_compute. reflexivity. Qed.
Example default_component :
  (let! s := initBasePath no_real (Some "lib:"%string) start in Ok (basepaths_ s))
  = Ok ["."; "lib"; "."]%string.
Proof. vm_compute. reflexivity. Qed.

(** ** Histories, checked step by step *)

Section run.
Context (L : Linker (H := Z)) `{!LinkerLaws new_at L}.
Context (dummyb realb : memory -> Z -> bool).
Context (dummy_ok : forall m d, l_dummy L m d -> dummyb m d = true)
        (real_ok : forall m d, realb m d = true -> l_real L m d).
Abbreviation LS := (LoaderState (H := Z)).

Definition occupiedb (h : list event) (s : LS) (a : Z) : bool :=
  existsb (Z.eqb a) (locs h)
  || existsb (fun '(n, d) => existsb (Z.eqb a) (l_marks L d)
                             || (dummyb (mem_ s) d && (a =? l_next L d)))
       (map_to_list (l_tab L s)).

Lemma existsb_eqb a l : In a l -> existsb (Z.eqb a) l = true.
Proof. intros Hin. apply existsb_exists. exists a. by rewrite Z.eqb_refl. Qed.

Lemma entry_in s n : entry L s n <> 0 -> In (n, entry L s n) (map_to_list (l_tab L s)).
Proof.
  unfold entry. intros Hnz. apply list_elem_of_In, elem_of_map_to_list.
  by destruct (l_tab L s !! n).
Qed.

Lemma occupiedb_sound h s a : occupiedb h s a = false -> ~ occupied L h s a.
Proof using dummy_ok.
  unfold occupiedb. intros [Hl He]%orb_false_iff [Hin|(n & Hnz & Hc)].
  - by rewrite existsb_eqb in Hl.
  - assert (existsb (fun '(n, d) => existsb (Z.eqb a) (l_marks L d)
      || (dummyb (mem_ s) d && (a =? l_next L d))) (map_to_list (l_tab L s)) = true); [|congruence].
    apply existsb_exists. exists (n, entry L s n). split; [by apply entry_in|]. cbv beta iota.
    destruct Hc as [Hm|[Hd ->]]; [by rewrite existsb_eqb|].
    rewrite (dummy_ok _ _ Hd), Z.eqb_refl. apply orb_true_r.
Qed.

Definition fresh_objectb (h : list event) (s : LS) (d : Z) : bool :=
  negb (d =? 0) && forallb (fun e => negb (e.2 =? d)) (map_to_list (l_tab L s))
  && forallb (fun a => negb (occupiedb h s a)) (l_marks L d).

Lemma fresh_objectb_sound h s d : fresh_objectb h s d = true -> fresh_object L h s d.
Proof using dummy_ok.
  unfold fresh_objectb. rewrite !andb_true_iff, !forallb_forall. intros [[Hz He] Hm].
  assert (Hnz : d <> 0) by (by apply Z.eqb_neq, negb_true_iff).
  split; [done|]. split.
  - intros n Hn. assert (Hin : In (n, entry L s n) (map_to_list (l_tab L s)))
      by (apply entry_in; by rewrite Hn).
    apply He in Hin. cbn in Hin. by rewrite Hn, Z.eqb_refl in Hin.
  - intros a Ha. apply occupiedb_sound, negb_true_iff. by apply Hm.
Qed.

Definition fresh_dummyb (h : list event) (s : LS) (loc d : Z) : bool :=
  fresh_objectb h s d && negb (occupiedb h s (l_next L d)) && is_aligned (l_next L d) 8
  && forallb (fun a => is_aligned a 8 && negb (a =? l_next L d) && negb (a =? loc)) (l_marks L d)
  && negb (loc =? l_next L d).

Lemma fresh_dummyb_sound h s loc d : fresh_dummyb h s loc d = true -> fresh_dummy L h s loc d.
Proof using dummy_ok.
  unfold fresh_dummyb. rewrite !andb_true_iff, forallb_forall. intros [[[[Ho Hn] Ha] Hm] Hl].
  split; [by apply fresh_objectb_sound|]. split; [by apply occupiedb_sound, negb_true_iff|].
  split; [done|]. split; [|split; [|split]].
  - intros a Hin. specialize (Hm a Hin). rewrite !andb_true_iff in Hm. tauto.
  - intros Hin. specialize (Hm _ Hin). rewrite Z.eqb_refl, andb_false_r in Hm. done.
  - by apply Z.eqb_neq, negb_true_iff.
  - intros Hin. specialize (Hm _ Hin). by rewrite Z.eqb_refl, andb_false_r in Hm.
Qed.

(** One event, with every condition of [reach] checked. *)
Definition do_event (h : list event) (s : LS) (e : event) : option LS :=
  match e with
  | Ref n loc =>
      if is_aligned loc 8 && negb (loc =? 0) && negb (occupiedb h s loc)
         && fresh_dummyb h s loc (new_at (news_ s))
      then match l_reference L n loc s with Ok (_, s') => Some s' | Err _ => None end
      else None
  | Def n obj =>
      if bool_decide (def_of n h = None) && fresh_objectb h s obj && realb (mem_ s) obj
      then match l_define L n obj s with Ok (_, s') => Some s' | Err _ => None end
      else None
  end.

Lemma do_event_reach h s e s' :
  do_event h s e = Some s' -> reach new_at L h s -> reach new_at L (e :: h) s'.
Proof using dummy_ok real_ok.
  intros He Hr. destruct e as [n loc|n obj]; cbn in He;
    destruct (_ && _) eqn:E; [|done| |done]; rewrite !andb_true_iff in E.
  - destruct E as [[[Ha Hz] Ho] Hd]. destruct (l_reference L n loc s) as [[[] s1]|] eqn:Hl; [|done].
    injection He as <-. eapply reach_ref; [done..| | | |exact Hl].
    + by apply Z.eqb_neq, negb_true_iff.
    + by apply occupiedb_sound, negb_true_iff.
    + by apply fresh_dummyb_sound.
  - destruct E as [[Hd Ho] Hreal]. destruct (l_define L n obj s) as [[[] s1]|] eqn:Hl; [|done].
    injection He as <-. eapply reach_def; [done|by apply bool_decide_eq_true in Hd| | |exact Hl].
    + by apply fresh_objectb_sound.
    + by apply real_ok.
Qed.

Fixpoint run_events (h : list event) (s : LS) (es : list event) : option (list event * LS) :=
  match es with
  | [] => Some (h, s)
  | e :: es' => match do_event h s e with
                | Some s' => run_events (e :: h) s' es'
                | None => None
                end
  end.

Lemma run_events_reach h s es h' s' :
  run_events h s es = Some (h', s') -> reach new_at L h s -> reach new_at L h' s'.
Proof using dummy_ok real_ok.
  revert h s. induction es as [|e es IH]; intros h s; cbn; [by intros [= <- <-]|].
  destruct (do_event h s e) as [s1|] eqn:E; [|done]. intros Hrun Hr.
  by eapply IH, do_event_reach.
Qed.

End run.

Definition info_dummyb (m : memory) (d : Z) : bool :=
  match itbls m !! d with Some i => bool_decide (it_type i = INVALID_OBJECT) | None => false end.
Definition info_realb (m : memory) (d : Z) : bool :=
  match itbls m !! d with Some i => negb (bool_decide (it_type i = INVALID_OBJECT)) | None => false end.
Definition closure_dummyb (m : memory) (d : Z) : bool :=
  match load m d with Ok i => i =? 0 | Err _ => false end.
Definition closure_realb (m : memory) (d : Z) : bool :=
  match load m d with Ok i => negb (i =? 0) | Err _ => false end.

Lemma info_dummy_ok m d : l_dummy (info_linker new_at (H := Z)) m d -> info_dummyb m d = true.
Proof. intros (i & Hi & Ht). unfold info_dummyb. rewrite Hi. by apply bool_decide_eq_true. Qed.
Lemma info_real_ok m d : info_realb m d = true -> l_real (info_linker new_at (H := Z)) m d.
Proof.
  unfold info_realb. destruct (itbls m !! d) as [i|] eqn:E; [|done]. intros Hb. exists i.
  split; [done|]. by apply negb_true_iff, bool_decide_eq_false in Hb.
Qed.
Lemma closure_dummy_ok m d :
  l_dummy (closure_linker new_at (H := Z)) m d -> closure_dummyb m d = true.
Proof. intros Hd. cbn in Hd. unfold closure_dummyb. by rewrite Hd. Qed.
Lemma closure_real_ok m d :
  closure_realb m d = true -> l_real (closure_linker new_at (H := Z)) m d.
Proof.
  unfold closure_realb. destruct (load m d) as [i|] eqn:E; [|done]. intros Hb. exists i.
  split; [done|]. by apply Z.eqb_neq, negb_true_iff.
Qed.

(** ** Witnesses *)

(** An info table at [0x400] and a closure at [0x500] that were just
    allocated; both are referenced before and after they are registered. *)
Definition link_mem : memory :=
  store (store_itbl empty_memory 0x400 ring_itbl) 0x500 0x400.
Definition link_start : LoaderState (H := Z) := mkLoader 0x10000 link_mem O [] ∅ ∅ ∅.

Definition info_events : list event :=
  [Ref "I" 0x600; Ref "I" 0x608; Def "I" 0x400; Ref "I" 0x610].
Definition closure_events : list event :=
  [Ref "c" 0x700; Ref "c" 0x708; Def "c" 0x500; Ref "c" 0x710].

Definition run_infos := run_events (info_linker new_at) info_dummyb info_realb.
Definition run_closures := run_events (closure_linker new_at) closure_dummyb closure_realb.

Definition linked_infos : list event * LoaderState (H := Z) :=
  default ([], link_start) (run_infos [] link_start info_events).
Definition linked_both : list event * LoaderState (H := Z) :=
  default ([], link_start) (run_closures [] linked_infos.2 closure_events).

Lemma start_reach (L : Linker (H := Z)) s : l_tab L s = ∅ -> reach new_at L [] s.
Proof. intros E. apply reach_start. intros n. unfold entry. by rewrite E. Qed.

Lemma linked_infos_reach : reach new_at (info_linker new_at) linked_infos.1 linked_infos.2.
Proof.
  apply (run_events_reach _ info_dummyb info_realb info_dummy_ok info_real_ok
           [] link_start info_events); [|by apply start_reach].
  vm_compute. reflexivity.
Qed.
Lemma linked_both_closures : reach new_at (closure_linker new_at) linked_both.1 linked_both.2.
Proof.
  apply (run_events_reach _ closure_dummyb closure_realb closure_dummy_ok closure_real_ok
           [] linked_infos.2 closure_events); [|apply start_reach].
  - vm_compute. reflexivity.
  - vm_compute. reflexivity.
Qed.
(** For the info tables the closures' steps are other steps. *)
Lemma linked_both_infos : reach new_at (info_linker new_at) linked_infos.1 linked_both.2.
Proof.
  eapply reach_other; [apply linked_infos_reach| | |].
  - intros n. unfold entry. cbn [info_linker l_tab].
    assert (E : infoTables_ linked_both.2 = infoTables_ linked_infos.2) by (vm_compute; reflexivity).
    by rewrite E.
  - assert (El : locs linked_infos.1 = [0x610; 0x608; 0x600]) by (vm_compute; reflexivity).
    rewrite El. intros a [<-|[<-|[<-|[]]]]; vm_compute; reflexivity.
  - assert (Ei : itbls (mem_ linked_both.2) = itbls (mem_ linked_infos.2))
      by (vm_compute; reflexivity).
    intros n Hn. split; cbn [info_linker l_real l_dummy l_next]; rewrite Ei; [done|].
    intros Hd. exfalso. apply info_dummy_ok in Hd.
    assert (Et : infoTables_ linked_infos.2 = {["I"%string := 0x400]}) by (vm_compute; reflexivity).
    assert (Hf : info_dummyb (mem_ linked_infos.2) 0x400 = false) by (vm_compute; reflexivity).
    unfold entry in *. cbn [info_linker l_tab] in *. rewrite Et in *.
    revert Hd Hn Hf. generalize (info_dummyb (mem_ linked_infos.2)). clear.
    intros f Hd Hn Hf. destruct (decide (n = "I"%string)) as [->|Hne].
    + rewrite lookup_singleton_eq in Hd. cbn in Hd. congruence.
    + by rewrite lookup_singleton_ne in Hn.
Qed.

Lemma references_resolved_witness :
  checkNoForwardRefs linked_both.2 = Ok true /\ length linked_infos.1 = 4%nat
  /\ length linked_both.1 = 4%nat
  /\ (forall n loc, In (Ref n loc) linked_infos.1 -> exists info,
        def_of n linked_infos.1 = Some info /\ infoTables_ linked_both.2 !! n = Some info
        /\ load (mem_ linked_both.2) loc = Ok info)
  /\ (forall n loc, In (Ref n loc) linked_both.1 -> exists cl,
        def_of n linked_both.1 = Some cl /\ closures_ linked_both.2 !! n = Some cl
        /\ load (mem_ linked_both.2) loc = Ok cl).
Proof.
  assert (Hc : checkNoForwardRefs linked_both.2 = Ok true) by (vm_compute; reflexivity).
  split; [exact Hc|]. split; [vm_compute; reflexivity|]. split; [vm_compute; reflexivity|].
  apply (references_resolved new_at); [exact linked_both_infos|exact linked_both_closures|exact Hc].
Defined.

(** A closure at [0x800] whose header is the only location that waits for
    its info table; its first payload word is 7. *)
Definition pending_start : LoaderState (H := Z) :=
  mkLoader 0x10000 (store (store empty_memory 0x800 0) 0x808 7) O [] ∅ ∅
    {["x"%string := 0x800]}.
Lemma pending_header_misread_witness :
  closures_ pending_start !! "x"%string = Some 0x800
  /\ exists s', loadClosureReference new_at "x" 0x900 pending_start = Ok (tt, s')
    /\ closures_ s' = closures_ pending_start /\ load (mem_ s') 0x900 = Ok 7
    /\ payload (mem_ s') 0x800 0 = Ok 0x900 /\ load (mem_ s') 0x800 = Ok 0.
Proof.
  split; [vm_compute; reflexivity|].
  apply pending_header_misread; try (vm_compute; reflexivity); discriminate.
Defined.

(** The string table of [mutual]. *)
Definition ring_info : list Z * list bytestring := modinfo (b "Data.Ring") [b "GHC.Types"].
Definition ring_table : list bytestring := ring_info.2 ++ [b "extra"].
Definition ring_strings : list StringTabEntry :=
  map (fun s => mkStringTabEntry (Z.of_nat (length s)) 0x3000 s) ring_table.

Lemma ring_strings_for : strings_for ring_table ring_strings.
Proof.
  unfold ring_strings, strings_for. apply Forall2_fmap_r, Forall_Forall2_diag.
  apply Forall_forall. intros s _. done.
Qed.

Definition name_okb (s : bytestring) : bool :=
  match s with [] => false | _ => true end
  && forallb (fun x => (0 <? x) && (x <? 256)) s && (length (split_dot s) <=? 255)%nat.
Lemma name_okb_sound s : name_okb s = true -> name_ok s.
Proof.
  unfold name_okb. rewrite !andb_true_iff. intros [[Hne Hb] Hl]. split; [by intros ->|].
  split; [|by apply Nat.leb_le].
  apply Forall_forall. intros x Hx%list_elem_of_In. rewrite forallb_forall in Hb.
  specialize (Hb x Hx). lia.
Qed.
Definition string_okb (s : bytestring) : bool :=
  forallb (is_u 8) s && (Z.of_nat (length s) <? 2 ^ 32).
Lemma string_okb_sound l : forallb string_okb l = true -> Forall string_ok l.
Proof.
  rewrite forallb_forall. intros Hl. apply Forall_forall. intros s Hs%list_elem_of_In.
  specialize (Hl s Hs). unfold string_okb in Hl. rewrite andb_true_iff, forallb_forall in Hl.
  destruct Hl as [Hb Hn]. split; [|by apply Z.ltb_lt].
  apply Forall_forall. intros x Hx%list_elem_of_In. specialize (Hb x Hx).
  unfold is_u, byte in *. lia.
Qed.

Lemma header_roundtrip_witness :
  length ring_table = 5%nat
  /\ reads (loadModuleHeader (H := Z) new_at) (header ring_table 1 2 1 ++ ring_info.1)
       (fun s m s' => exists mdl, m = Some mdl
          /\ module_says ring_table (b "Data.Ring") [b "GHC.Types"] 1 2 mdl /\ same_names s s').
Proof.
  split; [vm_compute; reflexivity|].
  apply (header_roundtrip new_at ring_table (b "Data.Ring") [b "GHC.Types"] ring_info.1 ring_info.2).
  - apply name_okb_sound. vm_compute. reflexivity.
  - constructor; [|constructor]. apply name_okb_sound. vm_compute. reflexivity.
  - vm_compute. reflexivity.
  - by exists [b "extra"].
  - apply string_okb_sound. vm_compute. reflexivity.
  - vm_compute. reflexivity.
  - vm_compute. reflexivity.
  - lia.
  - lia.
Defined.

Lemma field_roundtrip_witness :
  acts (loadLiteral (H := Z) new_at ring_strings 0x2000)
    (emitField ring_table (ClosureId (b "Data.Ring"))).1
    (fun s => let! '(_, s') := loadClosureReference new_at "Data.Ring" 0x2000 s in Ok (5, s')).
Proof.
  apply (field_roundtrip new_at ring_table (ClosureId (b "Data.Ring")) _ ring_table ring_table
           ring_strings 0x2000).
  - apply name_okb_sound. vm_compute. reflexivity.
  - vm_compute. reflexivity.
  - done.
  - apply ring_strings_for.
  - vm_compute. reflexivity.
Defined.

Lemma conInfo_roundtrip_witness :
  reads (load_ConInfoTable (H := Z) ring_strings)
    (varUIntBytes 2 ++ emitPointerMask [false; true] ++ (emitIdString ring_table (b "Data.Ring")).1)
    (fun s info s' => exists h bitmap,
       (forall i x, [false; true] !! i = Some x -> Z.testbit bitmap (Z.of_nat i) = x)
       /\ s' = with_mem (with_mm s h) (store_itbl (mem_ s) info
            (mkInfoTable CONSTR 2 2 bitmap "Data.Ring" None))).
Proof.
  apply (conInfo_roundtrip ring_table (b "Data.Ring") 2 [false; true] _ ring_table ring_table
           ring_strings).
  - apply name_okb_sound. vm_compute. reflexivity.
  - lia.
  - cbn. lia.
  - vm_compute. reflexivity.
  - done.
  - apply ring_strings_for.
  - vm_compute. reflexivity.
Defined.

Lemma regs_roundtrip_witness :
  regs_ok [0; 5; 14; 17; 200]
  /\ frame_slots (regsToBits16 [0; 5; 14; 17; 200] ++ [7; 9]) 0 = Ok [0; 5; 14; 17; 200].
Proof.
  assert (Hok : regs_ok [0; 5; 14; 17; 200]).
  { split.
    - repeat constructor.
    - repeat (apply Forall_cons_2;
              [split; [lia|first [left; reflexivity|right; discriminate]]|]).
      apply Forall_nil_2. }
  split; [exact Hok|]. by apply regs_roundtrip.
Defined.

(** One file [./A.lcbc]. *)
Definition only_A (path : string) : bool := String.eqb path "./A.lcbc".

Lemma A_only n : dots_to_slashes n +:+ ".lcbc" = "A.lcbc"%string -> n = "A"%string.
Proof.
  destruct n as [|c n]; [done|]. cbn [dots_to_slashes String.append]. intros [= Hc Hn].
  destruct n as [|c' n].
  - destruct (Ascii.eqb_spec c "."%char); [done|by subst].
  - cbn [dots_to_slashes String.append] in Hn. injection Hn as Hc' _.
    destruct (Ascii.eqb_spec c' "."%char); [done|by subst].
Qed.

Lemma covers_A : covers only_A (fun p => if only_A p then Some fileA else None) ["A"%string] start.
Proof.
  intros n filename Hf _. left. symmetry. cbn [basepaths_ start findModule] in Hf.
  unfold moduleNameToFile in Hf at 1. cbn [String.eqb String.append] in Hf.
  unfold fileExists in Hf at 1. destruct (only_A _) eqn:E.
  - apply A_only. unfold only_A in E. apply String.eqb_eq in E. by injection E.
  - cbn -[String.substring dots_to_slashes PATH_MAX] in Hf.
    unfold fileExists, moduleNameToFile, only_A in Hf. cbn in Hf. done.
Qed.

Lemma loadModule_depth_witness :
  let level := loadModule_level new_at only_A (fun p => if only_A p then Some fileA else None) in
  is_ok (level 2%nat "A"%string start) = true /\ level (2 + 10)%nat "A"%string start = level 2%nat "A"%string start.
Proof.
  cbv zeta. split; [vm_compute; reflexivity|].
  apply (loadModule_depth new_at only_A _ ["A"%string]); [apply covers_A|].
  vm_compute. repeat constructor.
Defined.
